(* ===== verification/_CoqProject ===== *)
-Q . S2P
Prelude.v
GoStrings.v
Utf8.v
FsPath.v
Sha256.v
Fs.v
Treehash.v
Transaction.v
Json.v
TransactionSpec.v
TransactionRecovery.v
TransactionBuild.v
TransactionCommit.v
TransactionAtomic.v
TransactionTheorems.v
Candidate.v
Release.v
Upgrade.v
UpgradeTheorems.v
UpgradeBound.v
UpgradeClaims.v
Tail.v
Progress.v
Dashboard.v
DashboardTheorems.v
Session.v
SessionTheorems.v
Observer.v
OutputParser.v
OutputParserTheorems.v
NetUrl.v
IdentityApi.v
Provider.v
Vault.v
Keycloak.v
Operator.v
ProviderLogic.v
VaultTheorems.v
KeycloakTheorems.v
OperatorTheorems.v
LocalAccess.v
VaultServer.v
BakeGraph.v
BakeTheorems.v
BuildGraph.v
BuildLogic.v
BuildTheorems.v
SecretValue.v
SecretTheorems.v
IdentityContract.v
IdentityDerive.v
IdentityTheorems.v
IdentitySecrets.v
Oci.v
OciTheorems.v
OciClient.v
OfficialImage.v
OfficialTheorems.v
OfficialCandidate.v
MirrorTags.v
MirrorTheorems.v
MirrorClaims.v
KubesprayTheorems.v
KubesprayClaims.v
PlatformValues.v
ValuesHeap.v
ValuesMerge.v
ValuesClaims.v
KubeEvidence.v
KubeClaims.v
KubeObserve.v
ObserveClaims.v
