(* ===== verification/Prelude.v ===== *)
(** * A verification development for Atum

    Atum is a Go program that builds and keeps one Kubernetes platform: the
    command line [cli/] resolves upstream releases into a repository, brings a
    cluster up with Kubespray and Flux and shows its work on a terminal; the
    operator [operator/] reconciles the identity providers of the running
    platform.  This library models the parts of it that decide and that change
    state, as functions and programs one can run, and proves what makes them
    correct.

    ** Parts and files

    Go itself.  [GoStrings], [Utf8] (strings, runes), [FsPath] (path/filepath),
    [Sha256], [Json] (encoding/json with the round trip of the journal),
    [NetUrl] (escaping and queries of net/url).  A Go integer is a [Z] with its
    wrap-around written out where it can overflow; a string is a string of
    bytes; a map is a [gmap]; an iteration over a map is over any order.

    The update of the repository, [cli/update].
    - [Fs] is a disk with directories, files and modes, and a monad of system
      calls in which every call may fail or the process may die; the faults
      are an input of a run.  [Treehash] is [cli/treehash], [FsPath] and [Fs]
      hold what [cli/fssecure] validates.
    - [Transaction] is [transaction.go]: staging, journal, replacement,
      rollback and recovery.  [TransactionSpec] says what is allowed to be on
      disk and has the program logic, [TransactionRecovery], [TransactionBuild],
      [TransactionCommit] and [TransactionAtomic] the proofs, and
      [TransactionTheorems] C1 to C5: after a crash or a failure at any call,
      and any number of interrupted recoveries, recovery ends with all files
      old or all files new; success means all new; a concurrent edit is
      refused; and an example of the one failure that is not survived.
    - [Candidate] is the candidate tree of [managed.go], C8 and C9: a snapshot
      is what the file holds on disk when it is taken, and never replaced; each
      call changes the candidates as it is meant to; and the transaction leads
      from the snapshots to the candidates.
    - [OfficialImage] is the inspection of an image's file system in
      [image_admission.go]: the path index, the layers with their whiteouts and
      the resolution of links; [OfficialTheorems] has C30, it ends for every
      image and its index is the overlay of the layers where they list their
      directories, with examples where they do not.  [OfficialCandidate]
      compares what was found with what the uses of an image require, C10.

    The upgrade of the cluster, [cli/orchestration] and [cli/config].
    - [Release] is the ladder of releases; semantic versions are the class
      [Semver].  [Upgrade] is [upgrade.go], [cluster.go], [health.go] and the
      bounded convergence of [cli/command/engines.go]; the cluster, Kubespray
      and Flux are the class [Outside], and a ghost trace records what was
      observed and run.  [UpgradeTheorems], [UpgradeBound] and [UpgradeClaims]
      have C12 to C15: no step without a healthy cluster before it, a plan that
      follows the observed cluster one release at a time, and a bound on the
      rounds that suffices for a world
      that keeps still (the class [Quiet]).
    - [LocalAccess] is the validation of a local target, C40: admitted exactly
      when names, addresses and the range of the load balancer fit.

    The build of the images, [cli/config/bakegraph.go] and [buildgraph.go].
    - [BakeGraph] evaluates a Bake file into targets and finds the reachable
      ones; [BakeTheorems] has C26, the evaluation agrees with the definition
      of inheritance and accepts no cycle, and a lemma that reachability is exact.
    - [BuildGraph] is the validator that follows the Dockerfiles of the targets
      over the disk, the checks of images and tags, and the digest of the
      graph.  [BuildLogic] says what a build uses and has the logic of the
      walk; [BuildTheorems] has C23, a graph that validates is hermetic up to
      the base image of the policy and images named like local material, and
      C19, the validation always ends, with a verdict or in a panic of an
      accessor of cty, of which there are two examples.  HCL is the class [Hcl]
      with [HclParser], in which these accessors are partial, the parser of
      Dockerfiles [DockerfileParser], the order of a map [MapRange].

    The names of mirrored images, [cli/config/config.go].
    - [MirrorTags] is [MirrorTargetTags] with its native and content-addressed
      tags, the ids and registry variables of Kubespray, and the receipts of an
      update; the parser of image references is the class [ImageNames], and a
      sort that is not stable the class [SortMembers].  [MirrorTheorems] gives
      the tags by hub, version and content; [MirrorClaims] has C31, the code
      computes them in every order, and C32, two tags are equal exactly when
      the versions are and the prefixes of the digests or of the hashes of the
      groups' texts, which identify the groups.
      [KubesprayTheorems] and [KubesprayClaims] have C21, every image is found
      through the mirrors where it was pushed, and C33, the bounds of the ids.

    The values of the platform, [cli/config/platform_values.go].
    - [PlatformValues] copies and merges documents over a heap of maps and
      slices.  [ValuesHeap] has what a path finds, what a value reaches and the
      copies, [ValuesMerge] the merge against its definition by paths, and
      [ValuesClaims] C6: the result has the value of highest precedence, shares
      nothing with its sources, and keeps what the updater owns.

    The observation of the cluster, [cli/kube].
    - [KubeObserve] is [resources.go] and [flux_root.go], with the buffers of
      secrets as a heap; [ObserveClaims] has C16, what a complete root, a listing
      and a secret value mean.  [KubeEvidence] is the contract with a checkout
      of Kubespray and [KubeClaims] C36, what it admits.  The accessors of
      unstructured objects are the class [Unstructured].

    Image content, [cli/oci].
    - [Oci] is [platform.go]: bounded metadata, image graphs and runnable
      images over a content store that may answer anything; [OciTheorems] has
      C27, verification ends and proves every reachable descriptor, C28, what
      the runtime identities of an image are, and an example of a verifier used
      again after a failure.  [OciClient] is the registry client with a heap of
      the HTTP clients it hands out and what their caches were filled with,
      C29: where credentials, cached tokens, plain HTTP and copies go, and what
      clearing the client revokes.

    Secrets and identities, [cli/secretvalue] and [cli/identity].
    - [SecretValue] encodes and decodes one value and writes the documents for
      Ansible and Flux; [SecretTheorems] has C11, the round trip, and C18, a
      JSON parser reads the documents back.
    - [IdentityContract] validates the declaration of the clients and
      [IdentityTheorems] has C17, what it admits; [IdentityDerive] derives the
      secrets with an executable HKDF and [IdentitySecrets] has C22: every
      secret is derived from an input of its own, and the operator finds what
      it looks up and nothing else (with
      [Vault]'s [CredentialKey] and the documents of [SecretValue]).

    The terminal, [cli/tui] and [cli/progress].
    - [Tail] is the ring of log lines, which refines the stream; [Progress] the events and
      the rows of a project; [Dashboard] the messages of the dashboard and
      [DashboardTheorems] C20; [Session] the reporting session with its
      coalescing queue and [SessionTheorems] C25, which composes it with
      the dashboard for events of single rows, and an example with the end of
      a phase for which the queue is not faithful; [Observer] the line
      splitter; [OutputParser] the parser of Ansible, Terraform and seed
      output, with C7, the life cycle of a node, and a line that crashes it in
      [OutputParserTheorems]; each file has further lemmas on bounds and
      chunks.  The stripper of escapes, the tables of Unicode and the content
      of the final screen are parameters.

    The identity operator, [operator/].
    - [IdentityApi] is the resource; [Provider] the HTTP client of
      [provider/http.go] and the type of programs: a tree of effects (HTTP
      exchanges, the context, the order of a map, the Kubernetes API) whose
      answers are not constrained.  [Vault] is [provider/vault.go], [Keycloak]
      [provider/keycloak.go], [Operator] the controller.
    - [ProviderLogic] runs programs against any handler and has the logic of
      policies: which effect is allowed after which answers.
      [VaultTheorems] and [KeycloakTheorems] have C34 and C35: nothing without
      the ownership marker is changed; listings are complete;
      [OperatorTheorems] C37 to C39 compose them: credentials go to their own
      provider only, every status that is written fits its schema, the
      finalizer comes off only when nothing is left.  [VaultServer] is a Vault as its API
      documents it (the record [vault_laws] over any server, which says nothing
      of deleting built-in policies or the token mount, with a concrete one as
      instance); C24 runs the cleanup against it and shows that it succeeds and
      leaves exactly what Atum does not own, where no built-in carries its marker.
    - [url.Parse], the PEM decoder and the table of printable runes are the
      class [Libraries]; the helpers of controller-runtime are the class
      [ControllerRuntime] with their documented behaviour.

    ** Interfaces

    A component that another one uses is proved against what it promises: the
    journal's codec is the class [JournalCodec], which [Json] implements; the
    resolution of paths is [Pathrs]; the policy of a provider is the
    hypothesis of the lemmas of its client, discharged by the controller.
    Every class has an instance next to the witnesses, so that the theorems
    are about something.

    ** Bounds and fuel

    Recursion is structural where the code's is.  Loops that consume a string
    (the tail, runes, fields, JSON) take its length as fuel, which is enough
    because every round consumes a byte, and are proved not to depend on more.
    The pages of a Keycloak listing take [2 ^ 57] rounds, more than the offset
    can count in 64 bits, and are proved never to use them up.  The
    evaluation of a Bake file takes one level per template, its reachable
    targets one round per root and context, and the validator one level per
    target and stage; all three are proved enough.  The loop over an image
    graph takes [2 ^ 34] rounds, written as nested doublings, more than its two
    limits admit; the removal of a subtree one round per recorded child, and a
    chain of links 66 levels, one more than the code visits; all are proved
    enough.  The copies, merges and searches of the platform values take the
    depth of the documents, and are proved to return; the pages of an observation
    take two rounds more than the limit for a server that continues only after
    a page with something on it.  The rounds of
    a convergence are the code's own bound; polls are over the answers of the
    class [Outside].

    ** What the theorems need

    A theorem about faults is for every list of faults; one about a server for
    every answer.  Hypotheses are about the input (a well-formed update, a
    declaration with scopes), about the documented behaviour of code outside
    the repository, or about a world that keeps still; each has a witness.

    ** Not modelled

    Resolving releases (registries, Helm charts, Git) and deriving what a
    workload requires from shell commands and Helm renderings,
    running the builds and mirroring images, publishing the platform, Terraform and
    libvirt, storing secrets with sops, and the commands that wire all this: they are
    calls into libraries and processes, with decisions that live in those
    libraries.  Of the terminal, the strings drawn with styles.  Of the
    configuration, the decoding of the document and its cross references.  Erasing
    the memory of secrets.  The goroutines of the session are not modelled; its lock makes their effects
    the sequence of operations that is.

    The plan for what follows: the remaining cross references of the
    configuration (bootstrap charts, locked deliveries, platform sources), the
    selection of deliveries and the inventories of [cli/orchestration]. *)

From stdpp Require Import prelude gmap strings list sorting.
From Stdlib Require Import ZArith Lia.

(** ** Fallible computations

    A Go function that returns [(T, error)] is modelled by [result E T]: the
    error value is of a type [E] chosen by the component, so that every
    [return ..., err] of the source is a constructor. *)
Inductive result (E A : Type) : Type :=
  | Ok (a : A)
  | Err (e : E).
Arguments Ok {E A} a.
Arguments Err {E A} e.

#[export] Instance result_ret {E} : MRet (result E) := fun _ a => Ok a.
#[export] Instance result_bind {E} : MBind (result E) := fun _ _ f m =>
  match m with Ok a => f a | Err e => Err e end.

Section Result.
Context {E A B : Type}.

Definition is_ok (r : result E A) : bool := match r with Ok _ => true | Err _ => false end.

(** [fmt.Errorf("...: %w", err)]: the value passes, the error is wrapped. *)
Definition wrap_err {E' : Type} (f : E -> E') (r : result E A) : result E' A :=
  match r with Ok a => Ok a | Err e => Err (f e) end.

(** [if cond { return err }] *)
Definition guard_err (cond : bool) (e : E) : result E unit :=
  if cond then Err e else Ok tt.

Lemma bind_ok_inv (m : result E A) (f : A -> result E B) b :
  m ≫= f = Ok b -> exists a, m = Ok a /\ f a = Ok b.
Proof. destruct m as [a|e]; [by exists a | done]. Qed.

Lemma bind_err_inv (m : result E A) (f : A -> result E B) e :
  m ≫= f = Err e -> m = Err e \/ exists a, m = Ok a /\ f a = Err e.
Proof. destruct m as [a|e']; [right; by exists a | intros [= ->]; by left]. Qed.

Lemma guard_err_ok cond (e : E) u : guard_err cond e = Ok u <-> cond = false.
Proof. destruct u, cond; naive_solver. Qed.

Lemma bind_ok_iff (m : result E A) (f : A -> result E B) b :
  m ≫= f = Ok b <-> exists a, m = Ok a /\ f a = Ok b.
Proof. split; [apply bind_ok_inv | by intros (a & -> & H)]. Qed.

Lemma guard_bind_iff cond (e : E) (f : unit -> result E B) b :
  guard_err cond e ≫= f = Ok b <-> cond = false /\ f tt = Ok b.
Proof. destruct cond; naive_solver. Qed.

Lemma wrap_ok_iff {E' : Type} (f : E -> E') (r : result E A) a : wrap_err f r = Ok a <-> r = Ok a.
Proof. destruct r; naive_solver. Qed.
End Result.

#[export] Instance result_eq_dec {E A} `{EqDecision E, EqDecision A} : EqDecision (result E A).
Proof. solve_decision. Defined.

(** ** Proof automation *)

Create HintDb atum.

(** Splits every [Ok] result in the context into the steps that produced it. *)
Ltac inv_ok :=
  repeat match goal with
  | H : _ ≫= _ = Ok _ |- _ =>
      let a := fresh "x" in let H1 := fresh "Hx" in
      apply bind_ok_inv in H; destruct H as (a & H1 & H)
  | H : guard_err _ _ = Ok _ |- _ => apply guard_err_ok in H
  | H : Ok _ = Ok _ |- _ => injection H as H
  | H : Err _ = Ok _ |- _ => discriminate H
  | H : Ok _ = Err _ |- _ => discriminate H
  end; simplify_eq/=.

(** Turns boolean tests of the code into propositions. *)
Ltac reflect_bool :=
  repeat match goal with
  | H : _ && _ = true |- _ => apply andb_true_iff in H; destruct H
  | H : _ || _ = false |- _ => apply orb_false_iff in H; destruct H
  | H : negb _ = true |- _ => apply negb_true_iff in H
  | H : negb _ = false |- _ => apply negb_false_iff in H
  | H : bool_decide _ = true |- _ => apply bool_decide_eq_true in H
  | H : bool_decide _ = false |- _ => apply bool_decide_eq_false in H
  end.

(** Case analysis on the scrutinee of the first [match]/[if] of the goal or of
    a hypothesis, keeping the equation. *)
Ltac case_goal :=
  match goal with
  | |- context [match ?x with _ => _ end] => let E := fresh "E" in destruct x eqn:E
  end.
Ltac case_in H :=
  match type of H with
  | context [match ?x with _ => _ end] => let E := fresh "E" in destruct x eqn:E
  end.

(** ** Lists *)

Section Lists.
Context {A : Type}.

(** [for i, x := range xs { if pred(x) { return i } }; return -1] *)
Fixpoint find_index (p : A -> bool) (l : list A) : option nat :=
  match l with
  | [] => None
  | x :: l' => if p x then Some 0 else S <$> find_index p l'
  end.

Lemma find_index_Some p l i :
  find_index p l = Some i <->
  (exists x, l !! i = Some x /\ p x = true) /\
  (forall j y, (j < i)%nat -> l !! j = Some y -> p y = false).
Proof.
  revert i. induction l as [|x l IH]; intros i; simpl.
  { split; [done|]. intros [(y & Hy & _) _]. done. }
  destruct (p x) eqn:Hp.
  - split.
    + intros [= <-]. split; [by exists x | lia].
    + intros [(y & Hy & Hpy) Hmin]. destruct i as [|i]; [done|].
      pose proof (Hmin 0%nat x ltac:(lia) eq_refl). congruence.
  - split.
    + destruct (find_index p l) as [k|] eqn:Hk; [|done]. intros [= <-].
      destruct (proj1 (IH k) eq_refl) as [(y & Hy & Hpy) Hmin]. split; [by exists y|].
      intros [|j] z Hj Hz; [by simplify_eq/= | apply (Hmin j z); [lia|done]].
    + intros [(y & Hy & Hpy) Hmin]. destruct i as [|i]; [simpl in Hy; congruence|].
      replace (find_index p l) with (Some i); [done|]. symmetry. apply IH.
      split; [by exists y|]. intros j z Hj Hz. apply (Hmin (S j) z); [lia|done].
Qed.

Lemma find_index_None p l : find_index p l = None <-> Forall (fun x => p x = false) l.
Proof.
  induction l as [|x l IH]; simpl; [by split|].
  rewrite Forall_cons. destruct (p x); [naive_solver|].
  destruct (find_index p l); naive_solver.
Qed.
End Lists.
