(* ===== verification/GoStrings.v ===== *)
(** Go's [strings] and [strconv] functions on byte strings.  A Go string is a
    sequence of bytes; Rocq's [string] is a sequence of eight-bit [ascii], the
    same data, so lengths, indices and slices below are byte counts as in Go. *)
From S2P Require Import Prelude.
From stdpp Require Import prelude strings list.
From Stdlib Require Import Ascii ZArith Lia.

Open Scope string_scope.
Open Scope list_scope.

#[global] Arguments Ascii.ascii_dec : simpl never.

(** ** Slices *)

(** [s[:n]] for [n <= len(s)] *)
Fixpoint str_take (n : nat) (s : string) : string :=
  match n, s with
  | S n', String c s' => String c (str_take n' s')
  | _, _ => ""
  end.

(** [s[n:]] for [n <= len(s)] *)
Fixpoint str_drop (n : nat) (s : string) : string :=
  match n, s with
  | S n', String _ s' => str_drop n' s'
  | _, _ => s
  end.

Lemma str_append_cons c s t : String c s +:+ t = String c (s +:+ t).
Proof. done. Qed.

Lemma str_append_nil_l s : "" +:+ s = s.
Proof. done. Qed.

Lemma str_append_nil_r s : s +:+ "" = s.
Proof. induction s as [|c s IH]; [done|]. by rewrite str_append_cons, IH. Qed.

Lemma str_append_assoc s t u : (s +:+ t) +:+ u = s +:+ (t +:+ u).
Proof. induction s as [|c s IH]; [done|]. by rewrite !str_append_cons, IH. Qed.

Lemma str_length_append s t : String.length (s +:+ t) = (String.length s + String.length t)%nat.
Proof. induction s as [|c s IH]; [done|]. rewrite str_append_cons. simpl. by rewrite IH. Qed.

Lemma str_take_drop n s : str_take n s +:+ str_drop n s = s.
Proof.
  revert s. induction n as [|n IH]; intros [|c s]; simpl; [done..|].
  by rewrite str_append_cons, IH.
Qed.

Lemma str_length_take n s : String.length (str_take n s) = Nat.min n (String.length s).
Proof. revert s. induction n as [|n IH]; intros [|c s]; simpl; [done..|]. by rewrite IH. Qed.

Lemma str_length_drop n s : String.length (str_drop n s) = (String.length s - n)%nat.
Proof. revert s. induction n as [|n IH]; intros [|c s]; simpl; [done..|]. by rewrite IH. Qed.

Lemma str_drop_append s t : str_drop (String.length s) (s +:+ t) = t.
Proof. induction s as [|c s IH]; [done|]. by rewrite str_append_cons. Qed.

Lemma str_take_append s t : str_take (String.length s) (s +:+ t) = s.
Proof. induction s as [|c s IH]; [done|]. rewrite str_append_cons. simpl. by rewrite IH. Qed.

Lemma str_take_ge n s : (String.length s <= n)%nat -> str_take n s = s.
Proof.
  revert s. induction n as [|n IH]; intros [|c s]; simpl; intros H; [done|lia|done|].
  rewrite IH; [done|lia].
Qed.

Lemma str_take_add n k s t : String.length s = n -> str_take (n + k) (s +:+ t) = s +:+ str_take k t.
Proof.
  intros <-. induction s as [|c s IH]; [done|]. rewrite !str_append_cons. cbn [String.length Nat.add str_take]. by rewrite IH.
Qed.

Lemma str_append_inj_l s t u : s +:+ t = s +:+ u -> t = u.
Proof.
  induction s as [|c s IH]; [done|]. rewrite !str_append_cons. intros [= H]. auto.
Qed.

Create Rewrite HintDb gostr.
#[export] Hint Rewrite str_append_nil_r str_append_assoc str_length_append
  str_length_take str_length_drop : gostr.

(** ** Bytes *)

Definition byte_of (c : ascii) : N := N_of_ascii c.

(** [lo <= c && c <= hi] *)
Definition in_range (lo hi c : ascii) : bool :=
  ((byte_of lo <=? byte_of c) && (byte_of c <=? byte_of hi))%N.

Definition is_lower (c : ascii) : bool := in_range "a" "z" c.
Definition is_upper (c : ascii) : bool := in_range "A" "Z" c.
Definition is_digit (c : ascii) : bool := in_range "0" "9" c.
Definition is_hex_lower (c : ascii) : bool := is_digit c || in_range "a" "f" c.

Fixpoint str_forallb (p : ascii -> bool) (s : string) : bool :=
  match s with "" => true | String c s' => p c && str_forallb p s' end.

Fixpoint str_existsb (p : ascii -> bool) (s : string) : bool :=
  match s with "" => false | String c s' => p c || str_existsb p s' end.

Fixpoint str_map (f : ascii -> ascii) (s : string) : string :=
  match s with "" => "" | String c s' => String (f c) (str_map f s') end.

Fixpoint str_rev_append (s acc : string) : string :=
  match s with "" => acc | String c s' => str_rev_append s' (String c acc) end.
Definition str_rev (s : string) : string := str_rev_append s "".

Lemma str_forallb_append p s t : str_forallb p (s +:+ t) = str_forallb p s && str_forallb p t.
Proof.
  induction s as [|c s IH]; [done|]. rewrite str_append_cons. simpl. rewrite IH.
  by rewrite andb_assoc.
Qed.

(** ** Prefixes, suffixes and searches *)

Definition HasPrefix (s p : string) : bool := String.prefix p s.

Definition TrimPrefix (s p : string) : string :=
  if HasPrefix s p then str_drop (String.length p) s else s.

Definition HasSuffix (s p : string) : bool :=
  (String.length p <=? String.length s)%nat &&
  String.eqb (str_drop (String.length s - String.length p) s) p.

Definition TrimSuffix (s p : string) : string :=
  if HasSuffix s p then str_take (String.length s - String.length p) s else s.

(** [strings.CutPrefix] *)
Definition CutPrefix (s p : string) : string * bool :=
  if HasPrefix s p then (str_drop (String.length p) s, true) else (s, false).

(** [strings.IndexByte], [None] for -1 *)
Fixpoint IndexByte (s : string) (b : ascii) : option nat :=
  match s with
  | "" => None
  | String c s' => if Ascii.eqb c b then Some 0 else S <$> IndexByte s' b
  end.

(** [strings.LastIndexByte], [None] for -1 *)
Fixpoint LastIndexByte (s : string) (b : ascii) : option nat :=
  match s with
  | "" => None
  | String c s' =>
      match LastIndexByte s' b with
      | Some i => Some (S i)
      | None => if Ascii.eqb c b then Some 0 else None
      end
  end.

(** [strings.Index], [None] for -1 *)
Fixpoint Index (s sub : string) : option nat :=
  if String.prefix sub s then Some 0
  else match s with "" => None | String _ s' => S <$> Index s' sub end.

(** [strings.LastIndex], [None] for -1 *)
Fixpoint LastIndex (s sub : string) : option nat :=
  match s with
  | "" => if String.prefix sub "" then Some 0 else None
  | String _ s' =>
      match LastIndex s' sub with
      | Some i => Some (S i)
      | None => if String.prefix sub s then Some 0 else None
      end
  end.

Definition Contains (s sub : string) : bool := bool_decide (is_Some (Index s sub)).

Fixpoint str_elem (c : ascii) (chars : string) : bool :=
  match chars with "" => false | String d r => Ascii.eqb c d || str_elem c r end.

(** [strings.IndexAny] for a set of single-byte characters *)
Fixpoint IndexAny (s chars : string) : option nat :=
  match s with
  | "" => None
  | String c s' => if str_elem c chars then Some 0 else S <$> IndexAny s' chars
  end.

Definition ContainsAny (s chars : string) : bool := str_existsb (fun c => str_elem c chars) s.

(** [strings.Cut] *)
Definition Cut (s sep : string) : string * string * bool :=
  match Index s sep with
  | Some i => (str_take i s, str_drop (i + String.length sep) s, true)
  | None => (s, "", false)
  end.

(** [strings.Split] by one byte: the pieces between the separators, at least one *)
Fixpoint Split (s : string) (b : ascii) : list string :=
  match s with
  | "" => [""]
  | String c s' =>
      if Ascii.eqb c b then "" :: Split s' b
      else match Split s' b with
           | [] => [String c ""]
           | w :: ws => String c w :: ws
           end
  end.

Fixpoint Join (l : list string) (sep : string) : string :=
  match l with
  | [] => ""
  | [w] => w
  | w :: ws => w +:+ sep +:+ Join ws sep
  end.

(** [strings.ReplaceAll] of one byte by another *)
Definition ReplaceByte (old new : ascii) (s : string) : string :=
  str_map (fun c => if Ascii.eqb c old then new else c) s.

(** ** White space and letter case *)

(** The UTF-8 encodings of the runes [unicode.IsSpace] accepts: the ASCII six,
    U+0085, U+00A0, U+1680, U+2000..U+200A, U+2028, U+2029, U+202F, U+205F and
    U+3000. *)
Definition bytes_str (l : list N) : string :=
  fold_right (fun n s => String (ascii_of_N n) s) "" l.

Definition space_runes : list string := Eval vm_compute in
  (bytes_str <$> [[9]; [10]; [11]; [12]; [13]; [32]; [0xC2; 0x85]; [0xC2; 0xA0];
     [0xE1; 0x9A; 0x80]; [0xE2; 0x80; 0xA8]; [0xE2; 0x80; 0xA9];
     [0xE2; 0x80; 0xAF]; [0xE2; 0x81; 0x9F]; [0xE3; 0x80; 0x80]]%N) ++
  ((fun n => bytes_str [0xE2; 0x80; 0x80 + n]%N) <$> [0;1;2;3;4;5;6;7;8;9;10]%N).

(** The length of the white-space rune [s] starts with, if it starts with one. *)
Definition space_prefix (s : string) : option nat :=
  String.length <$> List.find (fun w => String.prefix w s) space_runes.

Definition space_suffix (s : string) : option nat :=
  String.length <$> List.find (fun w => HasSuffix s w) space_runes.

Fixpoint trim_left (fuel : nat) (s : string) : string :=
  match fuel with
  | O => s
  | S fuel' => match space_prefix s with Some n => trim_left fuel' (str_drop n s) | None => s end
  end.

Fixpoint trim_right (fuel : nat) (s : string) : string :=
  match fuel with
  | O => s
  | S fuel' =>
      match space_suffix s with
      | Some n => trim_right fuel' (str_take (String.length s - n) s)
      | None => s
      end
  end.

(** [strings.TrimSpace]; one unit of fuel per byte is enough because every
    step removes at least one byte. *)
Definition TrimSpace (s : string) : string :=
  let l := trim_left (String.length s) s in trim_right (String.length l) l.

(** [strings.Fields]: maximal runs without white space *)
Fixpoint fields_aux (fuel : nat) (s acc : string) : list string :=
  let flush := if String.eqb acc "" then [] else [str_rev acc] in
  match fuel with
  | O => flush
  | S fuel' =>
      match s with
      | "" => flush
      | String c s' =>
          match space_prefix s with
          | Some n => flush ++ fields_aux fuel' (str_drop n s) ""
          | None => fields_aux fuel' s' (String c acc)
          end
      end
  end.
Definition Fields (s : string) : list string := fields_aux (S (String.length s)) s "".

Definition to_lower_byte (c : ascii) : ascii :=
  if is_upper c then ascii_of_N (byte_of c + 32) else c.

(** [strings.ToLower] and [strings.EqualFold] on ASCII text (bytes below 0x80),
    the text of every literal they are compared with; other bytes pass
    through. *)
Definition ToLower (s : string) : string := str_map to_lower_byte s.
Definition EqualFold (s t : string) : bool := String.eqb (ToLower s) (ToLower t).

(** ** Numbers *)

Definition digit_char (n : N) : ascii := ascii_of_N (48 + n).

Fixpoint dec_digits (fuel : nat) (n : N) (acc : string) : string :=
  match fuel with
  | O => acc
  | S fuel' =>
      let acc' := String (digit_char (n mod 10)) acc in
      if (n <? 10)%N then acc' else dec_digits fuel' (n / 10) acc'
  end.

(** [strconv.Itoa] on a natural number; the number of decimal digits never
    exceeds the number of binary digits. *)
Definition ItoaN (n : N) : string := dec_digits (S (N.to_nat (N.log2 n))) n "".

(** [fmt.Sprintf("%d", z)] *)
Definition Itoa (z : Z) : string :=
  if (z <? 0)%Z then "-" +:+ ItoaN (Z.abs_N z) else ItoaN (Z.abs_N z).

(** [fmt.Sprintf("%06d", n)] *)
Fixpoint pad_zero (k : nat) (s : string) : string :=
  match k with O => s | S k' => String "0" (pad_zero k' s) end.
Definition Pad6 (n : nat) : string :=
  let s := ItoaN (N.of_nat n) in pad_zero (6 - String.length s) s.

(** [strconv.ParseInt(s, 10, 64)]: an optional sign, then digits, in range *)
Fixpoint parse_digits (s : string) (acc : Z) : option Z :=
  match s with
  | "" => Some acc
  | String c s' =>
      if is_digit c then parse_digits s' (acc * 10 + (Z.of_N (byte_of c) - 48))%Z else None
  end.

Definition ParseInt64 (s : string) : option Z :=
  let '(neg, body) :=
    match s with
    | String "-" r => (true, r)
    | String "+" r => (false, r)
    | _ => (false, s)
    end in
  match body with
  | "" => None
  | _ =>
      match parse_digits body 0 with
      | Some n =>
          let v := if neg : bool then (- n)%Z else n in
          if ((- 2 ^ 63 <=? v) && (v <? 2 ^ 63))%Z then Some v else None
      | None => None
      end
  end.

Example itoa_examples : (ItoaN 0, ItoaN 7, ItoaN 1048576, Itoa (-42), Pad6 12) =
  ("0", "7", "1048576", "-42", "000012").
Proof. reflexivity. Qed.
Example trim_fields_examples :
  (TrimSpace "  a b  ", Fields " forgejo=ready  harbor=x ", ParseInt64 "-12") =
  ("a b", ["forgejo=ready"; "harbor=x"], Some (-12)%Z).
Proof. reflexivity. Qed.

(** ** Facts about prefixes and suffixes *)

Lemma prefix_append_iff p s : String.prefix p s = true <-> exists r, s = p +:+ r.
Proof.
  revert s. induction p as [|c p IH]; intros s.
  - destruct s; simpl; split; eauto.
  - destruct s as [|d s]; simpl.
    + split; [done|]. intros [r Hr]. by rewrite str_append_cons in Hr.
    + setoid_rewrite str_append_cons. destruct (ascii_dec c d) as [->|Hcd].
      * rewrite IH. split; intros [r Hr]; exists r; [by subst|by injection Hr].
      * split; [done|]. intros [r [= -> _]]. done.
Qed.

Lemma HasPrefix_true s p : HasPrefix s p = true <-> exists r, s = p +:+ r.
Proof. apply prefix_append_iff. Qed.

Lemma TrimPrefix_append p s : TrimPrefix (p +:+ s) p = s.
Proof.
  unfold TrimPrefix. replace (HasPrefix (p +:+ s) p) with true; [apply str_drop_append|].
  symmetry. apply HasPrefix_true. eauto.
Qed.

Lemma TrimPrefix_no s p : HasPrefix s p = false -> TrimPrefix s p = s.
Proof. unfold TrimPrefix. by intros ->. Qed.

Lemma HasSuffix_true s p : HasSuffix s p = true <-> exists r, s = r +:+ p.
Proof.
  unfold HasSuffix. rewrite andb_true_iff, Nat.leb_le, String.eqb_eq. split.
  - intros [Hl Hd]. exists (str_take (String.length s - String.length p) s).
    rewrite <- Hd at 2. by rewrite str_take_drop.
  - intros [r ->]. rewrite str_length_append. split; [lia|].
    replace (String.length r + String.length p - String.length p)%nat
      with (String.length r) by lia. apply str_drop_append.
Qed.

Lemma TrimSuffix_append s p : TrimSuffix (s +:+ p) p = s.
Proof.
  unfold TrimSuffix. replace (HasSuffix (s +:+ p) p) with true.
  - rewrite str_length_append.
    replace (String.length s + String.length p - String.length p)%nat
      with (String.length s) by lia. apply str_take_append.
  - symmetry. apply HasSuffix_true. eauto.
Qed.

Lemma IndexByte_Some s b i :
  IndexByte s b = Some i ->
  s = str_take i s +:+ String b (str_drop (S i) s) /\ IndexByte (str_take i s) b = None.
Proof.
  revert i. induction s as [|c s IH]; intros i; simpl; [done|].
  destruct (Ascii.eqb_spec c b) as [->|Hc]; [by intros [= <-]|].
  destruct (IndexByte s b) as [k|] eqn:Hk; simpl; [|done]. intros [= <-].
  destruct (IH k eq_refl) as [Hs Hn]. split.
  - cbn [str_take str_drop]. rewrite str_append_cons. f_equal. exact Hs.
  - simpl. rewrite (proj2 (Ascii.eqb_neq c b) Hc). by rewrite Hn.
Qed.

Lemma IndexByte_append_None s t b : IndexByte s b = None ->
  IndexByte (s +:+ t) b = (Nat.add (String.length s)) <$> IndexByte t b.
Proof.
  induction s as [|c s IH]; intros H.
  - rewrite str_append_nil_l. by destruct (IndexByte t b).
  - simpl in H. rewrite str_append_cons. simpl. destruct (Ascii.eqb c b); [done|].
    destruct (IndexByte s b); [done|]. rewrite IH by done.
    by destruct (IndexByte t b).
Qed.

(** ** Splitting and joining *)

Lemma Split_nonempty s b : Split s b <> [].
Proof. destruct s as [|c s]; [done|]. simpl. destruct (Ascii.eqb c b); [done|]. by destruct (Split s b). Qed.

Lemma Join_cons w l sep : l <> [] -> Join (w :: l) sep = w +:+ sep +:+ Join l sep.
Proof. by destruct l. Qed.

Lemma Join_Split s b : Join (Split s b) (String b "") = s.
Proof.
  induction s as [|c s IH]; [done|]. simpl.
  pose proof (Split_nonempty s b) as Hne.
  destruct (Ascii.eqb_spec c b) as [->|Hc].
  - rewrite Join_cons by done. rewrite IH. done.
  - destruct (Split s b) as [|w ws]; [done|].
    destruct ws as [|w' ws]; [simpl in IH |- *; by rewrite IH|].
    rewrite Join_cons in IH |- * by done. rewrite str_append_cons. by rewrite IH.
Qed.

Lemma Split_no_sep s b : Forall (fun w => IndexByte w b = None) (Split s b).
Proof.
  induction s as [|c s IH]; simpl; [by repeat constructor|].
  destruct (Ascii.eqb c b) eqn:Hc; [by constructor|].
  destruct (Split s b) as [|w ws]; inversion IH as [|? ? Hw Hws]; subst;
    (constructor; [simpl; rewrite Hc|done]); simpl; [done|by rewrite Hw].
Qed.

Lemma Split_word w b : IndexByte w b = None -> Split w b = [w].
Proof.
  induction w as [|c w IH]; [done|]. simpl. destruct (Ascii.eqb c b); [done|].
  destruct (IndexByte w b); [done|]. intros _. by rewrite IH.
Qed.

Lemma Split_append_sep w s b :
  IndexByte w b = None -> Split (w +:+ String b s) b = w :: Split s b.
Proof.
  induction w as [|c w IH].
  - intros _. rewrite str_append_nil_l. simpl. by rewrite Ascii.eqb_refl.
  - rewrite str_append_cons. simpl. destruct (Ascii.eqb c b); [done|].
    destruct (IndexByte w b); [done|]. intros _. by rewrite IH.
Qed.

(** Joining separator-free words and splitting again gives the words back. *)
Lemma Split_Join l b :
  l <> [] -> Forall (fun w => IndexByte w b = None) l -> Split (Join l (String b "")) b = l.
Proof.
  induction l as [|w l IH]; [done|]. intros _ Hl. inversion Hl as [|? ? Hw Hl']; subst.
  destruct l as [|w' l]; [by apply Split_word|].
  rewrite Join_cons by done. rewrite str_append_cons.
  rewrite Split_append_sep by done. f_equal. by apply IH.
Qed.

(** ** Decimal printing is injective *)

Lemma digit_char_value n : (n < 10)%N ->
  is_digit (digit_char n) = true /\ byte_of (digit_char n) = (48 + n)%N.
Proof.
  intros Hn. unfold is_digit, in_range, byte_of, digit_char.
  rewrite N_ascii_embedding by lia. change (N_of_ascii "0") with 48%N.
  change (N_of_ascii "9") with 57%N.
  by rewrite (proj2 (N.leb_le 48 (48 + n)) ltac:(lia)), (proj2 (N.leb_le (48 + n) 57) ltac:(lia)).
Qed.

Lemma parse_dec_digits fuel n acc a : (N.to_nat (N.log2 n) < fuel)%nat ->
  exists k, parse_digits (dec_digits fuel n acc) a = parse_digits acc (a * k + Z.of_N n)%Z.
Proof.
  revert n acc a. induction fuel as [|fuel IH]; intros n acc a Hf; [lia|]. simpl.
  assert (forall m a', (m < 10)%N ->
    parse_digits (String (digit_char m) acc) a' = parse_digits acc (a' * 10 + Z.of_N m)%Z) as Hone.
  { intros m a' Hm. simpl. destruct (digit_char_value m Hm) as [-> ->]. f_equal. lia. }
  destruct (N.ltb_spec n 10) as [Hn|Hn].
  - exists 10%Z. rewrite Hone by (apply N.mod_lt; lia). by rewrite N.mod_small.
  - destruct (IH (n / 10)%N (String (digit_char (n mod 10)) acc) a) as [k Hk].
    { pose proof (N.log2_le_mono (n / 10) (n / 2) (N.div_le_compat_l n 2 10 ltac:(lia))) as Hl.
      rewrite <- N.div2_div, N.div2_spec, N.log2_shiftr in Hl.
      pose proof (N.log2_le_mono 2 n ltac:(lia)) as H2. change (N.log2 2) with 1%N in H2. lia. }
    exists (k * 10)%Z. rewrite Hk, Hone by (apply N.mod_lt; lia). f_equal.
    pose proof (N.div_mod n 10 ltac:(lia)) as Hdm. lia.
Qed.

Lemma parse_ItoaN n : parse_digits (ItoaN n) 0 = Some (Z.of_N n).
Proof.
  unfold ItoaN. destruct (parse_dec_digits (S (N.to_nat (N.log2 n))) n "" 0) as [k ->]; [lia|].
  simpl. by destruct (Z.of_N n).
Qed.

Lemma parse_pad_zero k s : parse_digits (pad_zero k s) 0 = parse_digits s 0.
Proof. induction k as [|k IH]; [done|]. simpl. exact IH. Qed.

Lemma Pad6_inj i j : Pad6 i = Pad6 j -> i = j.
Proof.
  intros H. apply (f_equal (fun s => parse_digits s 0)) in H. unfold Pad6 in H.
  rewrite !parse_pad_zero, !parse_ItoaN in H. injection H as H. lia.
Qed.
