(* ===== verification/Utf8.v ===== *)
(** UTF-8 as Go's [unicode/utf8] and [range] over strings see it: runes with
    the width they were decoded from, invalid bytes as U+FFFD of width one,
    and the part of [unicode] the program asks for. *)
From stdpp Require Import prelude strings list.
From Stdlib Require Import Ascii ZArith Lia.
From S2P Require Import Prelude GoStrings.

Module Utf8.

Definition RuneError : N := 65533.
Definition MaxRune : N := 1114111.

Definition isSurrogate (r : N) : bool := ((55296 <=? r) && (r <=? 57343))%N.
Definition ValidRune (r : N) : bool := ((r <=? MaxRune) && negb (isSurrogate r))%N.

(** [utf8.EncodeRune] *)
Definition cont_byte (n : N) : ascii := ascii_of_N (128 + n mod 64).
Definition EncodeRune (r : N) : string :=
  let r := if ValidRune r then r else RuneError in
  if (r <? 128)%N then String (ascii_of_N r) ""
  else if (r <? 2048)%N then String (ascii_of_N (192 + r / 64)) (String (cont_byte r) "")
  else if (r <? 65536)%N then
    String (ascii_of_N (224 + r / 4096)) (String (cont_byte (r / 64)) (String (cont_byte r) ""))
  else String (ascii_of_N (240 + r / 262144))
         (String (cont_byte (r / 4096)) (String (cont_byte (r / 64)) (String (cont_byte r) ""))).

(** [utf8.DecodeRuneInString]: the ranges a second byte may have after a first
    one rule out overlong forms, surrogates and runes above U+10FFFF. *)
Definition within (lo hi b : N) : bool := ((lo <=? b) && (b <=? hi))%N.
Definition second_range (b0 : N) : N * N :=
  (if b0 =? 224 then (160, 191) else if b0 =? 237 then (128, 159)
   else if b0 =? 240 then (144, 191) else if b0 =? 244 then (128, 143) else (128, 191))%N.

Definition DecodeRune (s : string) : N * nat :=
  match s with
  | "" => (RuneError, 0)
  | String c0 s1 =>
      let b0 := byte_of c0 in
      if (b0 <? 128)%N then (b0, 1)
      else if negb (within 194 244 b0) then (RuneError, 1)
      else
        match s1 with
        | "" => (RuneError, 1)
        | String c1 s2 =>
            let b1 := byte_of c1 in
            let '(lo, hi) := second_range b0 in
            if negb (within lo hi b1) then (RuneError, 1)
            else if (b0 <? 224)%N then (((b0 - 192) * 64 + (b1 - 128))%N, 2)
            else
              match s2 with
              | "" => (RuneError, 1)
              | String c2 s3 =>
                  let b2 := byte_of c2 in
                  if negb (within 128 191 b2) then (RuneError, 1)
                  else if (b0 <? 240)%N then (((b0 - 224) * 4096 + (b1 - 128) * 64 + (b2 - 128))%N, 3)
                  else
                    match s3 with
                    | "" => (RuneError, 1)
                    | String c3 _ =>
                        let b3 := byte_of c3 in
                        if negb (within 128 191 b3) then (RuneError, 1)
                        else (((b0 - 240) * 262144 + (b1 - 128) * 4096 + (b2 - 128) * 64 + (b3 - 128))%N, 4)
                    end
              end
        end
  end.

(** [for _, r := range s], with the widths *)
Fixpoint runes_aux (fuel : nat) (s : string) : list (N * nat) :=
  match fuel, s with
  | _, "" | O, _ => []
  | S fuel, _ => let d := DecodeRune s in d :: runes_aux fuel (str_drop d.2 s)
  end.
Definition runes (s : string) : list (N * nat) := runes_aux (String.length s) s.

(** [utf8.ValidString] *)
Definition ok_rune (d : N * nat) : bool := negb ((d.1 =? RuneError)%N && (d.2 =? 1)%nat).
Definition ValidString (s : string) : bool := forallb ok_rune (runes s).

(** [string([]rune)] *)
Fixpoint encode (rs : list N) : string :=
  match rs with [] => "" | r :: rs => EncodeRune r +:+ encode rs end.

(** [strings.Map]: a negative rune is dropped, here [None]; invalid bytes come
    out as U+FFFD. *)
Definition Map (f : N -> option N) (s : string) : string := encode (omap (fun d => f d.1) (runes s)).

(** [unicode.IsControl]: the category Cc *)
Definition IsControl (r : N) : bool := (r <? 32)%N || within 127 159 r.

(** ** Round trip *)

Local Ltac Zify.zify_post_hook ::= Z.to_euclidean_division_equations.

Lemma byte_of_N n : (n < 256)%N -> byte_of (ascii_of_N n) = n.
Proof. apply N_ascii_embedding. Qed.

Lemma encoded_valid r : ValidRune r = true -> (r <= 1114111 /\ ~ (55296 <= r <= 57343))%N.
Proof.
  unfold ValidRune, isSurrogate, MaxRune. rewrite andb_true_iff, negb_true_iff, andb_false_iff.
  rewrite N.leb_le, !N.leb_gt. lia.
Qed.

Lemma within_true lo hi b : (lo <= b <= hi)%N -> within lo hi b = true.
Proof. intros H. unfold within. by rewrite (proj2 (N.leb_le _ _)), (proj2 (N.leb_le _ _)) by lia. Qed.

Ltac range := repeat first
  [ rewrite within_true by lia | rewrite (proj2 (N.ltb_lt _ _)) by lia | rewrite (proj2 (N.ltb_ge _ _)) by lia ]; simpl negb; cbv iota.

(** What the second byte must satisfy *)
Lemma second_range_ok b0 b1 :
  (128 <= b1 <= 191)%N -> (b0 = 224 -> 160 <= b1)%N -> (b0 = 237 -> b1 <= 159)%N ->
  (b0 = 240 -> 144 <= b1)%N -> (b0 = 244 -> b1 <= 143)%N ->
  within (second_range b0).1 (second_range b0).2 b1 = true.
Proof.
  intros H H1 H2 H3 H4. unfold second_range.
  destruct (N.eqb_spec b0 224); [simpl; range; done|]. destruct (N.eqb_spec b0 237); [simpl; range; done|].
  destruct (N.eqb_spec b0 240); [simpl; range; done|]. destruct (N.eqb_spec b0 244); simpl; range; done.
Qed.

Lemma cont_value n : byte_of (cont_byte n) = (128 + n mod 64)%N.
Proof. apply byte_of_N. lia. Qed.

Lemma DecodeRune_two b0 b1 s : (194 <= b0 < 224)%N -> (128 <= b1 <= 191)%N ->
  DecodeRune (String (ascii_of_N b0) (String (ascii_of_N b1) s)) = (((b0 - 192) * 64 + (b1 - 128))%N, 2).
Proof.
  intros H0 H1. unfold DecodeRune. rewrite !byte_of_N by lia. range.
  pose proof (second_range_ok b0 b1 ltac:(lia) ltac:(lia) ltac:(lia) ltac:(lia) ltac:(lia)) as Hr.
  destruct (second_range b0) as [lo hi]. simpl in Hr. rewrite Hr. simpl negb. cbv iota. done.
Qed.

Lemma DecodeRune_three b0 b1 b2 s : (224 <= b0 < 240)%N -> (128 <= b1 <= 191)%N -> (128 <= b2 <= 191)%N ->
  (b0 = 224 -> 160 <= b1)%N -> (b0 = 237 -> b1 <= 159)%N ->
  DecodeRune (String (ascii_of_N b0) (String (ascii_of_N b1) (String (ascii_of_N b2) s))) =
  (((b0 - 224) * 4096 + (b1 - 128) * 64 + (b2 - 128))%N, 3).
Proof.
  intros H0 H1 H2 Hlo Hhi. unfold DecodeRune. rewrite !byte_of_N by lia. range.
  pose proof (second_range_ok b0 b1 ltac:(lia) Hlo Hhi ltac:(lia) ltac:(lia)) as Hr.
  destruct (second_range b0) as [lo hi]. simpl in Hr. rewrite Hr. simpl negb. cbv iota. done.
Qed.

Lemma DecodeRune_four b0 b1 b2 b3 s : (240 <= b0 <= 244)%N -> (128 <= b1 <= 191)%N -> (128 <= b2 <= 191)%N ->
  (128 <= b3 <= 191)%N -> (b0 = 240 -> 144 <= b1)%N -> (b0 = 244 -> b1 <= 143)%N ->
  DecodeRune (String (ascii_of_N b0) (String (ascii_of_N b1) (String (ascii_of_N b2) (String (ascii_of_N b3) s)))) =
  (((b0 - 240) * 262144 + (b1 - 128) * 4096 + (b2 - 128) * 64 + (b3 - 128))%N, 4).
Proof.
  intros H0 H1 H2 H3 Hlo Hhi. unfold DecodeRune. rewrite !byte_of_N by lia. range.
  pose proof (second_range_ok b0 b1 ltac:(lia) ltac:(lia) ltac:(lia) Hlo Hhi) as Hr.
  destruct (second_range b0) as [lo hi]. simpl in Hr. rewrite Hr. simpl negb. cbv iota. done.
Qed.

(** Decoding after encoding *)
Lemma DecodeRune_encode r s : ValidRune r = true ->
  DecodeRune (EncodeRune r +:+ s) = (r, String.length (EncodeRune r)).
Proof.
  intros Hv. pose proof (encoded_valid r Hv) as [Hmax Hsur]. unfold EncodeRune. rewrite Hv. cbv zeta.
  destruct (N.ltb_spec r 128); [|destruct (N.ltb_spec r 2048); [|destruct (N.ltb_spec r 65536)]];
    rewrite ?str_append_cons, str_append_nil_l; cbn [String.length]; unfold cont_byte.
  - unfold DecodeRune. rewrite byte_of_N by lia. range. done.
  - rewrite DecodeRune_two by lia. f_equal. lia.
  - rewrite DecodeRune_three by lia. f_equal. lia.
  - rewrite DecodeRune_four by lia. f_equal. lia.
Qed.

Lemma EncodeRune_nonempty r : exists c s, EncodeRune r = String c s.
Proof. unfold EncodeRune. destruct (_ <? _)%N; [eauto|]. destruct (_ <? _)%N; [eauto|]. destruct (_ <? _)%N; eauto. Qed.

(** [runes] does not depend on extra fuel. *)
Lemma DecodeRune_width c s : (1 <= (DecodeRune (String c s)).2)%nat.
Proof.
  unfold DecodeRune. destruct (_ <? _)%N; [done|]. destruct (negb _); [done|]. destruct s as [|c1 s]; [done|].
  destruct (second_range _). destruct (negb _); [done|]. destruct (_ <? _)%N; [simpl; lia|]. destruct s as [|c2 s]; [done|].
  destruct (negb _); [done|]. destruct (_ <? _)%N; [simpl; lia|]. destruct s as [|c3 s]; [done|].
  destruct (negb _); simpl; lia.
Qed.

Lemma runes_aux_enough fuel fuel' s : (String.length s <= fuel)%nat -> (String.length s <= fuel')%nat ->
  runes_aux fuel s = runes_aux fuel' s.
Proof.
  revert fuel' s. induction fuel as [|fuel IH]; intros fuel' [|c s] H H'; [by destruct fuel'|cbn in H; lia|by destruct fuel'|].
  destruct fuel' as [|fuel']; [cbn in H'; lia|]. cbn [String.length] in H, H'. cbn [runes_aux]. f_equal.
  pose proof (DecodeRune_width c s) as Hw. apply IH; rewrite str_length_drop; cbn [String.length]; lia.
Qed.

Lemma runes_aux_fuel fuel s : (String.length s <= fuel)%nat -> runes_aux fuel s = runes s.
Proof. intros H. by apply runes_aux_enough. Qed.

Lemma runes_cons c s : runes (String c s) =
  DecodeRune (String c s) :: runes (str_drop (DecodeRune (String c s)).2 (String c s)).
Proof.
  unfold runes at 1. cbn [String.length runes_aux]. f_equal. apply runes_aux_fuel.
  rewrite str_length_drop. pose proof (DecodeRune_width c s). cbn [String.length]. lia.
Qed.

Lemma runes_encode_cons r s : ValidRune r = true ->
  runes (EncodeRune r +:+ s) = (r, String.length (EncodeRune r)) :: runes s.
Proof.
  intros Hv. pose proof (DecodeRune_encode r s Hv) as Hd. destruct (EncodeRune_nonempty r) as (c & t & He).
  pose proof (str_drop_append (EncodeRune r) s) as Hdrop.
  rewrite He in *. rewrite str_append_cons in *. rewrite runes_cons, Hd. cbv beta iota delta [snd]. f_equal. f_equal. exact Hdrop.
Qed.

(** The runes of an encoding are the runes encoded. *)
Lemma runes_encode rs : Forall (fun r => ValidRune r = true) rs -> (runes (encode rs)).*1 = rs.
Proof.
  induction 1 as [|r rs Hr _ IH]; [done|]. cbn [encode]. rewrite runes_encode_cons by done. rewrite fmap_cons. f_equal. exact IH.
Qed.

(** Every rune decoded is valid. *)
Lemma DecodeRune_valid s : ValidRune (DecodeRune s).1 = true.
Proof.
  assert (forall r, (r <= 1114111 /\ (r < 55296 \/ 57343 < r))%N -> ValidRune r = true) as Hok.
  { intros r [H1 H2]. unfold ValidRune, isSurrogate, MaxRune. rewrite (proj2 (N.leb_le _ _) H1). simpl.
    rewrite negb_true_iff, andb_false_iff, !N.leb_gt. lia. }
  unfold DecodeRune. destruct s as [|c0 s]; [done|]. destruct (N.ltb_spec (byte_of c0) 128); [apply Hok; cbn [fst]; lia|].
  unfold within at 1. destruct (N.leb_spec 194 (byte_of c0)); [|done]. destruct (N.leb_spec (byte_of c0) 244); [|done]. simpl negb. cbv iota.
  destruct s as [|c1 s]; [done|]. destruct (second_range (byte_of c0)) as [lo hi] eqn:Hr. unfold within at 1.
  destruct (N.leb_spec lo (byte_of c1)); [|done]. destruct (N.leb_spec (byte_of c1) hi); [|done]. simpl negb. cbv iota.
  assert (lo >= 128 /\ hi <= 191 /\ (byte_of c0 = 237 -> hi <= 159) /\ (byte_of c0 = 244 -> hi <= 143) /\
    (byte_of c0 = 240 -> 144 <= lo))%N as Hb.
  { unfold second_range in Hr. destruct (N.eqb_spec (byte_of c0) 224), (N.eqb_spec (byte_of c0) 237),
      (N.eqb_spec (byte_of c0) 240), (N.eqb_spec (byte_of c0) 244); injection Hr as <- <-; lia. }
  destruct (N.ltb_spec (byte_of c0) 224); [apply Hok; cbn [fst]; lia|].
  destruct s as [|c2 s]; [done|]. unfold within at 1.
  destruct (N.leb_spec 128 (byte_of c2)); [|done]. destruct (N.leb_spec (byte_of c2) 191); [|done]. simpl negb. cbv iota.
  destruct (N.ltb_spec (byte_of c0) 240); [apply Hok; cbn [fst]; lia|].
  destruct s as [|c3 s]; [done|]. unfold within at 1.
  destruct (N.leb_spec 128 (byte_of c3)); [|done]. destruct (N.leb_spec (byte_of c3) 191); [|done]. simpl negb. cbv iota.
  apply Hok; cbn [fst]; lia.
Qed.

Lemma runes_valid s : Forall (fun d => ValidRune d.1 = true) (runes s).
Proof.
  unfold runes. generalize (String.length s) as fuel. intros fuel. revert s. induction fuel as [|fuel IH]; intros s; [by destruct s|].
  destruct s as [|c s]; [constructor|]. cbn [runes_aux]. constructor; [apply DecodeRune_valid|apply IH].
Qed.

(** The runes of a [Map] are the images of the runes. *)
Lemma runes_Map f s : (forall r r', f r = Some r' -> ValidRune r = true -> ValidRune r' = true) ->
  (runes (Map f s)).*1 = omap (fun d => f d.1) (runes s).
Proof.
  intros Hf. apply runes_encode. pose proof (runes_valid s) as Hv. induction Hv as [|d l Hd _ IH]; [constructor|].
  simpl. destruct (f d.1) as [r'|] eqn:Hr; [|done]. constructor; [by eapply Hf|done].
Qed.

(** ** Valid strings *)

#[local] Arguments DecodeRune : simpl never.

Lemma DecodeRune_append c s t : ok_rune (DecodeRune (String c s)) = true ->
  DecodeRune (String c s +:+ t) = DecodeRune (String c s).
Proof.
  rewrite str_append_cons. unfold DecodeRune. destruct (byte_of c <? 128)%N; [done|]. destruct (negb (within 194 244 (byte_of c))); [done|].
  destruct s as [|c1 s]; [done|]. rewrite str_append_cons. destruct (second_range (byte_of c)) as [lo hi].
  destruct (negb (within lo hi (byte_of c1))); [done|]. destruct (byte_of c <? 224)%N; [done|].
  destruct s as [|c2 s]; [done|]. rewrite str_append_cons. destruct (negb (within 128 191 (byte_of c2))); [done|].
  destruct (byte_of c <? 240)%N; [done|]. destruct s as [|c3 s]; [done|]. rewrite str_append_cons. done.
Qed.

Lemma DecodeRune_width_le s : ((DecodeRune s).2 <= 4)%nat /\ ((DecodeRune s).2 <= String.length s)%nat.
Proof.
  unfold DecodeRune. destruct s as [|c s]; [cbn; lia|]. destruct (_ <? _)%N; [cbn; lia|]. destruct (negb _); [cbn; lia|].
  destruct s as [|c1 s]; [cbn; lia|]. destruct (second_range _). destruct (negb _); [cbn; lia|]. destruct (_ <? _)%N; [cbn; lia|].
  destruct s as [|c2 s]; [cbn; lia|]. destruct (negb _); [cbn; lia|]. destruct (_ <? _)%N; [cbn; lia|].
  destruct s as [|c3 s]; [cbn; lia|]. destruct (negb _); cbn; lia.
Qed.

(** Strings by their first rune *)
Lemma rune_ind (P : string -> Prop) : P "" ->
  (forall c s, P (str_drop (DecodeRune (String c s)).2 (String c s)) -> P (String c s)) -> forall s, P s.
Proof.
  intros H0 Hs s. induction s as [s IH] using (induction_ltof1 _ String.length). unfold ltof in IH. destruct s as [|c s]; [done|].
  apply Hs, IH. rewrite str_length_drop. pose proof (DecodeRune_width c s). cbn [String.length]. lia.
Qed.

Lemma ValidString_cons c s : ValidString (String c s) =
  ok_rune (DecodeRune (String c s)) && ValidString (str_drop (DecodeRune (String c s)).2 (String c s)).
Proof. unfold ValidString. rewrite runes_cons. done. Qed.

Lemma str_drop_append_le n s t : (n <= String.length s)%nat -> str_drop n (s +:+ t) = str_drop n s +:+ t.
Proof.
  revert s. induction n as [|n IH]; intros [|c s] H; cbn in H; try lia; [done|done|]. rewrite str_append_cons. cbn [str_drop]. apply IH. lia.
Qed.

Lemma ValidString_append s t : ValidString s = true -> ValidString (s +:+ t) = ValidString t.
Proof.
  revert s. refine (rune_ind (fun s => ValidString s = true -> _) _ _); [done|]. intros c s IH H. rewrite ValidString_cons in H. apply andb_prop in H as [Hok Hrest].
  pose proof (DecodeRune_append c s t Hok) as Hd. rewrite str_append_cons in *. rewrite ValidString_cons, Hd, Hok. cbn [andb].
  rewrite <- str_append_cons, str_drop_append_le by apply DecodeRune_width_le. by apply IH.
Qed.

Lemma ValidString_encode_one r : ValidRune r = true -> r <> RuneError -> ValidString (EncodeRune r) = true.
Proof.
  intros Hv Hne. unfold ValidString. rewrite <- (str_append_nil_r (EncodeRune r)), runes_encode_cons by done. cbn.
  unfold ok_rune. cbn. rewrite (proj2 (N.eqb_neq _ _) Hne). done.
Qed.

(** The first rune of a valid string is valid on its own. *)
Lemma ValidString_first c s : ok_rune (DecodeRune (String c s)) = true ->
  ValidString (str_take (DecodeRune (String c s)).2 (String c s)) = true.
Proof.
  intros Hok. assert (forall b t, DecodeRune (String b t) = DecodeRune (String c s) -> String.length (String b t) = (DecodeRune (String c s)).2 ->
    ValidString (String b t) = true) as Hone.
  { intros b t Hd Hl. rewrite ValidString_cons, Hd, Hok, <- Hl. cbn [andb].
    rewrite <- (str_append_nil_r (String b t)) at 2. by rewrite str_drop_append. }
  pose proof (DecodeRune_width c s) as Hw. pose proof (DecodeRune_width_le (String c s)) as [_ Hw2].
  destruct (str_take (DecodeRune (String c s)).2 (String c s)) as [|b t] eqn:Ht.
  { apply (f_equal String.length) in Ht. rewrite str_length_take in Ht. cbn [String.length] in *. lia. }
  apply Hone; [|rewrite <- Ht, str_length_take; cbn [String.length] in *; lia].
  revert Ht Hok Hw. clear. unfold DecodeRune. destruct (byte_of c <? 128)%N eqn:E0.
  { intros [= <- <-] _ _. by rewrite E0. }
  destruct (negb (within 194 244 (byte_of c))) eqn:E1; [done|]. destruct s as [|c1 s]; [done|].
  destruct (second_range (byte_of c)) as [lo hi] eqn:Er. destruct (negb (within lo hi (byte_of c1))) eqn:E2; [done|].
  destruct (byte_of c <? 224)%N eqn:E3. { intros [= <- <-] _ _. by rewrite E0, E1, Er, E2, E3. }
  destruct s as [|c2 s]; [done|]. destruct (negb (within 128 191 (byte_of c2))) eqn:E4; [done|].
  destruct (byte_of c <? 240)%N eqn:E5. { intros [= <- <-] _ _. by rewrite E0, E1, Er, E2, E3, E4, E5. }
  destruct s as [|c3 s]; [done|]. destruct (negb (within 128 191 (byte_of c3))) eqn:E6; [done|].
  intros [= <- <-] _ _. by rewrite E0, E1, Er, E2, E3, E4, E5, E6.
Qed.

(** A valid string has a valid prefix less than a rune below any length. *)
Lemma valid_prefix s n : ValidString s = true -> (n <= String.length s)%nat ->
  exists k, (k <= n < k + 4)%nat /\ ValidString (str_take k s) = true.
Proof.
  revert s n. refine (rune_ind _ _ _).
  - intros n _ Hn. cbn in Hn. exists 0%nat. split; [lia|done].
  - intros c s IH n H Hn. rewrite ValidString_cons in H. apply andb_prop in H as [Hok Hrest].
    pose proof (DecodeRune_width_le (String c s)) as [H4 Hle]. set (w := (DecodeRune (String c s)).2) in *.
    destruct (decide (n < w)%nat) as [Hlt|Hge]; [exists 0%nat; split; [lia|done]|].
    destruct (IH (n - w)%nat Hrest) as (k & Hk & Hv); [rewrite str_length_drop; lia|].
    exists (w + k)%nat. split; [lia|].
    rewrite <- (str_take_drop w (String c s)) at 1.
    assert (String.length (str_take w (String c s)) = w) as Hl by (rewrite str_length_take; lia).
    rewrite str_take_add by done. rewrite ValidString_append; [done|]. by apply ValidString_first.
Qed.
End Utf8.
