(* ===== verification/FsPath.v ===== *)
(** Project-relative paths: [cli/fssecure/path.go] ([Relative], [ValidName])
    over Go's [path/filepath].  [Relative] is the gate every managed path goes
    through; the theorems say what a path it accepts can name. *)
From stdpp Require Import prelude strings list.
From Stdlib Require Import Ascii Lia.
From S2P Require Import Prelude GoStrings.

Module FsPath.

Definition sep : ascii := "/".
Definition seps : string := "/".

(** ** [path/filepath] on Unix *)

Definition IsAbs (p : string) : bool := HasPrefix p seps.

(** One element of the path against the elements kept so far (last first):
    empty and ["."] elements vanish, [".."] takes back the previous element,
    survives at the front of a relative path, and vanishes at the root. *)
Definition clean_step (rooted : bool) (kept : list string) (e : string) : list string :=
  if String.eqb e "" || String.eqb e "." then kept
  else if String.eqb e ".." then
    match kept with
    | k :: ks => if String.eqb k ".." then e :: kept else ks
    | [] => if rooted then [] else [e]
    end
  else e :: kept.

Definition clean_elements (rooted : bool) (p : string) : list string :=
  rev (fold_left (clean_step rooted) (Split p sep) []).

(** [filepath.Clean] *)
Definition Clean (p : string) : string :=
  let rooted := IsAbs p in
  let body := Join (clean_elements rooted p) seps in
  if rooted then seps +:+ body
  else if String.eqb body "" then "." else body.

(** [filepath.Join] of two parts: empty parts are ignored *)
Definition JoinPath (a b : string) : string :=
  if String.eqb a "" then (if String.eqb b "" then "" else Clean b)
  else if String.eqb b "" then Clean a
  else Clean (a +:+ seps +:+ b).

(** ** [fssecure.Relative] *)

Inductive path_error := NotProjectRelative (path : string).

Definition Relative (path : string) : result path_error string :=
  let clean := Clean path in
  if String.eqb path "" || IsAbs clean || String.eqb clean "." || String.eqb clean ".."
     || HasPrefix clean "../"
  then Err (NotProjectRelative path)
  else Ok clean.

(** ** [fssecure.ValidName]

    The loop ranges over runes; a byte at or above 0x80 starts or continues a
    rune above 'z' (or the replacement rune), so the byte test is the same. *)
Definition valid_name_byte (c : ascii) : bool :=
  negb ((negb (is_lower c)) && (negb (is_digit c)) && negb (Ascii.eqb c "-")
        && negb (Ascii.eqb c "_") && negb (Ascii.eqb c ".")).

Definition ValidName (value : string) : bool :=
  if String.eqb value "" || String.eqb value "." || String.eqb value ".." then false
  else str_forallb valid_name_byte value.

(** ** What a path element may be *)

Definition plain_element (e : string) : Prop :=
  e <> "" /\ e <> "." /\ e <> ".." /\ IndexByte e sep = None.

(** The elements of a clean path: leading [".."] only when not rooted. *)
Definition kept_ok (rooted : bool) (kept : list string) : Prop :=
  exists ups downs, kept = downs ++ ups /\ Forall plain_element downs /\
    Forall (fun e => e = "..") ups /\ (rooted = true -> ups = []).

Example clean_examples :
  (Clean "a//b/./c", Clean "a/../../b", Clean "/../a", Clean "", Clean "a/..", JoinPath "x" "../y")
  = ("a/b/c", "../b", "/a", ".", ".", "y").
Proof. reflexivity. Qed.
Example relative_examples :
  (Relative "platform/./x", Relative "../x", Relative "/etc", Relative "a/../..")
  = (Ok "platform/x", Err (NotProjectRelative "../x"), Err (NotProjectRelative "/etc"),
     Err (NotProjectRelative "a/../..")).
Proof. reflexivity. Qed.

(** ** Facts about [Clean] *)

Lemma clean_step_ok rooted kept e :
  IndexByte e sep = None -> kept_ok rooted kept -> kept_ok rooted (clean_step rooted kept e).
Proof.
  intros He (ups & downs & -> & Hd & Hu & Hr). unfold clean_step.
  destruct (String.eqb_spec e "") as [|Hne]; [by exists ups, downs|].
  destruct (String.eqb_spec e ".") as [|Hnd]; [by exists ups, downs|]. simpl.
  destruct (String.eqb_spec e "..") as [->|Hnn].
  - destruct downs as [|d ds]; simpl.
    + destruct ups as [|u us].
      * destruct rooted; [by exists [], []|]. exists [".."], []. naive_solver.
      * inversion Hu as [|? ? Hu1 Hu2]; subst. simpl.
        exists (".." :: ".." :: us), []. split; [done|]. split; [done|].
        split; [by repeat constructor|]. intros Hroot. by specialize (Hr Hroot).
    + inversion Hd as [|? ? Hd1 Hd2]; subst. destruct Hd1 as (_ & _ & Hdd & _).
      destruct (String.eqb_spec d ".."); [done|]. by exists ups, ds.
  - exists ups, (e :: downs). split; [done|]. split; [|done]. by constructor.
Qed.

Lemma clean_fold_ok rooted l kept :
  Forall (fun e => IndexByte e sep = None) l -> kept_ok rooted kept ->
  kept_ok rooted (fold_left (clean_step rooted) l kept).
Proof.
  revert kept. induction l as [|e l IH]; intros kept Hl Hk; [done|].
  inversion Hl; subst. simpl. apply IH; [done|]. by apply clean_step_ok.
Qed.

Lemma clean_elements_ok rooted p : kept_ok rooted (fold_left (clean_step rooted) (Split p sep) []).
Proof. apply clean_fold_ok; [apply Split_no_sep | by exists [], []]. Qed.

Lemma plain_no_sep l : Forall plain_element l -> Forall (fun e => IndexByte e sep = None) l.
Proof. intros H. apply (Forall_impl _ _ _ H). by intros ? (_ & _ & _ & ?). Qed.

Lemma Split_Join_plain l : l <> [] -> Forall plain_element l -> Split (Join l seps) sep = l.
Proof. intros Hne Hl. apply (Split_Join l sep Hne), plain_no_sep, Hl. Qed.

(** Plain elements survive the fold unchanged. *)
Lemma clean_fold_plain rooted l kept :
  Forall plain_element l -> fold_left (clean_step rooted) l kept = rev l ++ kept.
Proof.
  revert kept. induction l as [|e l IH]; intros kept Hl; [done|].
  inversion Hl as [|? ? He Hl']; subst. simpl. rewrite IH by done.
  destruct He as (H1 & H2 & H3 & _). unfold clean_step.
  rewrite (proj2 (String.eqb_neq e "") H1), (proj2 (String.eqb_neq e ".") H2),
    (proj2 (String.eqb_neq e "..") H3). simpl. by rewrite <- app_assoc.
Qed.

Lemma Join_plain_head l : l <> [] -> Forall plain_element l ->
  HasPrefix (Join l seps) seps = false /\ Join l seps <> "".
Proof.
  intros Hne Hl. destruct l as [|e l]; [done|].
  inversion Hl as [|? ? He Hl']; subst. destruct He as (H1 & _ & _ & H4).
  destruct e as [|c e]; [done|]. simpl in H4.
  destruct (Ascii.eqb_spec c sep) as [|Hc]; [done|].
  assert (exists r, Join (String c e :: l) seps = String c r) as [r Hr].
  { destruct l; [by exists e|]. rewrite Join_cons by done. rewrite str_append_cons. eauto. }
  rewrite Hr. split; [|done]. apply not_true_is_false.
  intros [r' Hr']%HasPrefix_true. by injection Hr' as -> _.
Qed.

(** [Clean] on a joined list of plain elements is the identity. *)
Lemma Clean_Join_plain l : l <> [] -> Forall plain_element l -> Clean (Join l seps) = Join l seps.
Proof.
  intros Hne Hl. destruct (Join_plain_head l Hne Hl) as [Habs Hnz].
  unfold Clean, IsAbs. rewrite Habs. unfold clean_elements.
  rewrite Split_Join_plain by done.
  rewrite clean_fold_plain by done. rewrite app_nil_r, rev_involutive.
  by rewrite (proj2 (String.eqb_neq _ "") Hnz).
Qed.

Lemma Clean_relative_shape p : IsAbs (Clean p) = false -> Clean p <> "." ->
  exists ups downs, Clean p = Join (ups ++ downs) seps /\ ups ++ downs <> [] /\
    Forall plain_element downs /\ Forall (fun e => e = "..") ups.
Proof.
  unfold Clean. destruct (IsAbs p) eqn:Ha.
  - intros H. unfold IsAbs in H. exfalso. revert H.
    replace (HasPrefix _ seps) with true; [done|]. symmetry. apply HasPrefix_true. eauto.
  - intros _ Hdot. destruct (clean_elements_ok false p) as (ups & downs & Hk & Hd & Hu & _).
    exists (rev ups), (rev downs). unfold clean_elements in *. rewrite Hk in *.
    rewrite rev_app_distr in *.
    destruct (String.eqb_spec (Join (rev ups ++ rev downs) seps) "") as [He|He]; [done|].
    split; [done|]. split; [intros Hnil; by rewrite Hnil in He|].
    split; by apply Forall_rev.
Qed.

Lemma Relative_shape p c : Relative p = Ok c ->
  c = Clean p /\ exists l, c = Join l seps /\ l <> [] /\ Forall plain_element l.
Proof.
  unfold Relative. destruct (_ || _) eqn:Hb; [done|]. intros [= <-]. split; [done|].
  apply orb_false_iff in Hb as [Hb Hup]. reflect_bool.
  destruct (Clean_relative_shape p) as (ups & downs & Hc & Hne & Hd & Hu);
    [done | by apply String.eqb_neq |].
  destruct ups as [|u ups]; [by exists downs|]. exfalso.
  inversion Hu as [|? ? -> Hu']; subst.
  destruct (ups ++ downs) as [|d r] eqn:Hrest.
  - simpl in Hc. rewrite Hrest in Hc. by rewrite Hc in *.
  - simpl in Hc. rewrite Hrest in Hc. rewrite Hc in Hup.
    replace (HasPrefix _ "../") with true in Hup; [done|]. symmetry.
    apply HasPrefix_true. exists (Join (d :: r) seps). done.
Qed.

Lemma Relative_of_plain l : l <> [] -> Forall plain_element l ->
  Relative (Join l seps) = Ok (Join l seps).
Proof.
  intros Hne Hl. destruct (Join_plain_head l Hne Hl) as [Habs Hnz].
  unfold Relative. rewrite Clean_Join_plain by done. unfold IsAbs.
  rewrite Habs, (proj2 (String.eqb_neq _ "") Hnz). simpl.
  assert (forall w, IndexByte w sep = None -> Join l seps = w -> l = [w]) as Hone.
  { intros w Hw Hj. rewrite <- (Split_Join_plain l) by done. rewrite Hj. by apply Split_word. }
  destruct (String.eqb_spec (Join l seps) ".") as [Hd|_].
  { rewrite (Hone "." eq_refl Hd) in Hl. by inversion Hl as [|? ? (_ & ? & _) _]. }
  destruct (String.eqb_spec (Join l seps) "..") as [Hd|_].
  { rewrite (Hone ".." eq_refl Hd) in Hl. by inversion Hl as [|? ? (_ & _ & ? & _) _]. }
  simpl. destruct (HasPrefix (Join l seps) "../") eqn:Hp; [|done]. exfalso.
  apply HasPrefix_true in Hp as [r Hr].
  assert (l = ".." :: Split r sep) as ->.
  { rewrite <- (Split_Join_plain l) by done. by rewrite Hr. }
  by inversion Hl as [|? ? (_ & _ & ? & _) _].
Qed.

(** What [Relative] returns is a path of plain elements below the root. *)
Lemma Relative_confined p c : Relative p = Ok c ->
  Split c sep <> [] /\ Forall plain_element (Split c sep) /\
  IsAbs c = false /\ Join (Split c sep) seps = c.
Proof.
  intros (_ & l & -> & Hne & Hl)%Relative_shape.
  rewrite Split_Join_plain by done.
  repeat split; try done. by apply Join_plain_head.
Qed.

(** Cleaning is idempotent. *)
Lemma Relative_idempotent p c : Relative p = Ok c -> Relative c = Ok c /\ Clean c = c.
Proof.
  intros (_ & l & -> & Hne & Hl)%Relative_shape.
  split; [by apply Relative_of_plain | by apply Clean_Join_plain].
Qed.

End FsPath.
