(* ===== verification/Sha256.v ===== *)
(** Go's [crypto/sha256] and [encoding/hex] on byte strings, executable.  The
    transaction journal, the tree hash and the content addresses compare
    lower-case hexadecimal SHA-256 digests; no theorem assumes collision
    freedom. *)
From stdpp Require Import prelude strings list.
From Stdlib Require Import Ascii ZArith Lia.
From S2P Require Import Prelude GoStrings.

Module Sha256.
Local Open Scope Z_scope.

(** ** 32-bit words *)
Definition word := Z.
Definition w32 (x : Z) : word := x mod 2 ^ 32.
Definition add32 (x y : word) : word := w32 (x + y).
Definition not32 (x : word) : word := 2 ^ 32 - 1 - x.
Definition shr (x : word) (n : Z) : word := Z.shiftr x n.
Definition rotr (x : word) (n : Z) : word := Z.lor (Z.shiftr x n) (w32 (Z.shiftl x (32 - n))).

Definition ch (x y z : word) := Z.lxor (Z.land x y) (Z.land (not32 x) z).
Definition maj (x y z : word) := Z.lxor (Z.lxor (Z.land x y) (Z.land x z)) (Z.land y z).
Definition bsig0 (x : word) := Z.lxor (Z.lxor (rotr x 2) (rotr x 13)) (rotr x 22).
Definition bsig1 (x : word) := Z.lxor (Z.lxor (rotr x 6) (rotr x 11)) (rotr x 25).
Definition ssig0 (x : word) := Z.lxor (Z.lxor (rotr x 7) (rotr x 18)) (shr x 3).
Definition ssig1 (x : word) := Z.lxor (Z.lxor (rotr x 17) (rotr x 19)) (shr x 10).

(** The constants as the standard derives them: the first 32 fractional bits
    of the cube roots of the first 64 primes, and of the square roots of the
    first 8. *)
Definition is_prime (n : nat) : bool :=
  forallb (fun k => negb (n mod k =? 0)%nat) (seq 2 (n - 2)).
Definition primes (bound : nat) : list Z :=
  Z.of_nat <$> List.filter is_prime (seq 2 (bound - 2)).

(** The integer cube root of [x], [bits] bits, from the highest bit down *)
Fixpoint cube_root (bits : nat) (x root : Z) : Z :=
  match bits with
  | O => root
  | S n =>
      let r := root + 2 ^ Z.of_nat n in
      cube_root n x (if r * r * r <=? x then r else root)
  end.

Definition K : list word :=
  Eval vm_compute in (fun p => w32 (cube_root 40 (p * 2 ^ 96) 0)) <$> primes 312.
Definition H0 : list word :=
  Eval vm_compute in (fun p => w32 (Z.sqrt (p * 2 ^ 64))) <$> primes 20.

Example constants : (length K, length H0, nth 63 K 0, nth 7 H0 0) = (64%nat, 8%nat, 0xc67178f2, 0x5be0cd19).
Proof. reflexivity. Qed.

(** ** Message schedule and compression *)

Definition nthw (l : list word) (i : nat) : word := nth i l 0.

(** The schedule, latest word first: W[t] from W[t-2], W[t-7], W[t-15], W[t-16]. *)
Fixpoint expand (n : nat) (ws : list word) : list word :=
  match n with
  | O => ws
  | S n' =>
      let w := add32 (add32 (ssig1 (nthw ws 1)) (nthw ws 6))
                     (add32 (ssig0 (nthw ws 14)) (nthw ws 15)) in
      expand n' (w :: ws)
  end.

Definition round (st : list word) (kw : word * word) : list word :=
  match st with
  | [a; b; c; d; e; f; g; h] =>
      let t1 := add32 (add32 h (bsig1 e)) (add32 (ch e f g) (add32 kw.1 kw.2)) in
      let t2 := add32 (bsig0 a) (maj a b c) in
      [add32 t1 t2; a; b; c; add32 d t1; e; f; g]
  | _ => st
  end.

Definition compress (st block : list word) : list word :=
  let ws := rev (expand 48 (rev block)) in
  zip_with add32 st (fold_left round (zip K ws) st).

(** ** Padding *)

Definition byte_list (s : string) : list Z := (fun c => Z.of_N (N_of_ascii c)) <$> String.list_ascii_of_string s.

Definition be_bytes (n : nat) (x : Z) : list Z :=
  rev ((fun i => Z.land (Z.shiftr x (8 * Z.of_nat i)) 255) <$> seq 0 n).

Definition pad (bs : list Z) : list Z :=
  let len := Z.of_nat (length bs) in
  let zeros := Z.to_nat ((55 - len) mod 64) in
  bs ++ [128] ++ replicate zeros 0 ++ be_bytes 8 (8 * len).

Fixpoint words (bs : list Z) : list word :=
  match bs with
  | a :: b :: c :: d :: r => (a * 2 ^ 24 + b * 2 ^ 16 + c * 2 ^ 8 + d) :: words r
  | _ => []
  end.

Fixpoint blocks (fuel : nat) (ws : list word) (st : list word) : list word :=
  match fuel with
  | O => st
  | S fuel' =>
      match ws with
      | [] => st
      | _ => blocks fuel' (drop 16 ws) (compress st (take 16 ws))
      end
  end.

(** [sha256.Sum256]: 32 bytes *)
Definition Sum256 (s : string) : list Z :=
  let ws := words (pad (byte_list s)) in
  concat (be_bytes 4 <$> blocks (length ws) ws H0).

(** ** Hexadecimal *)

Definition hex_digit (n : Z) : ascii :=
  ascii_of_N (Z.to_N (if n <? 10 then 48 + n else 87 + n)).

(** [hex.EncodeToString] *)
Definition EncodeToString (bs : list Z) : string :=
  fold_right (fun b s => String (hex_digit (Z.shiftr b 4)) (String (hex_digit (Z.land b 15)) s)) "" bs.

(** [hashBytes] of [cli/update/transaction.go], [SHA256] of [cli/config/config.go] *)
Definition hashBytes (data : string) : string := EncodeToString (Sum256 data).

(** [validHexSHA256]: 64 lower-case hexadecimal digits *)
Definition validHexSHA256 (value : string) : bool :=
  (String.length value =? 64)%nat && str_forallb is_hex_lower value.

Example sha256_empty :
  hashBytes "" = "e3b0c44298fc1c149afbf4c8996fb92427ae41e4649b934ca495991b7852b855".
Proof. vm_compute. reflexivity. Qed.
Example sha256_abc :
  hashBytes "abc" = "ba7816bf8f01cfea414140de5dae2223b00361a396177a9cb410ff61f20015ad".
Proof. vm_compute. reflexivity. Qed.
Example sha256_two_blocks :
  hashBytes "abcdbcdecdefdefgefghfghighijhijkijkljklmklmnlmnomnopnopq" =
  "248d6a61d20638b8e5c026930c3e6039a33ce45964ff2167f6ecedd419db06c1".
Proof. vm_compute. reflexivity. Qed.

(** ** Digests are 64 lower-case hexadecimal digits *)

Lemma length_round st kw : length st = 8%nat -> length (round st kw) = 8%nat.
Proof. intros H. by destruct st as [|a [|b [|c [|d [|e [|f [|g [|h [|]]]]]]]]]. Qed.

Lemma length_rounds kws st : length st = 8%nat -> length (fold_left round kws st) = 8%nat.
Proof. revert st. induction kws; intros st H; simpl; auto using length_round. Qed.

Lemma length_compress st block : length st = 8%nat -> length (compress st block) = 8%nat.
Proof.
  intros H. unfold compress. rewrite length_zip_with, length_rounds by done. lia.
Qed.

Lemma length_blocks fuel ws st : length st = 8%nat -> length (blocks fuel ws st) = 8%nat.
Proof.
  revert ws st. induction fuel as [|fuel IH]; intros ws st H; simpl; [done|].
  destruct ws; [done|]. apply IH, length_compress, H.
Qed.

Lemma length_be_bytes n x : length (be_bytes n x) = n.
Proof. unfold be_bytes. by rewrite length_rev, length_fmap, length_seq. Qed.

Lemma land_ones_range x n : 0 <= n -> 0 <= Z.land x (Z.ones n) < 2 ^ n.
Proof. intros Hn. rewrite Z.land_ones by done. apply Z.mod_pos_bound. lia. Qed.

Lemma be_bytes_range n x : Forall (fun b => 0 <= b <= 255) (be_bytes n x).
Proof.
  unfold be_bytes. apply Forall_rev, Forall_fmap, Forall_forall. intros i _. simpl.
  pose proof (land_ones_range (Z.shiftr x (8 * Z.of_nat i)) 8 ltac:(done)) as Hr.
  change (Z.ones 8) with 255 in Hr. lia.
Qed.

Lemma concat_be_bytes ws :
  length (concat (be_bytes 4 <$> ws)) = (4 * length ws)%nat /\
  Forall (fun b => 0 <= b <= 255) (concat (be_bytes 4 <$> ws)).
Proof.
  induction ws as [|w ws [IH1 IH2]]; [done|]. cbn [fmap list_fmap concat].
  rewrite length_app, length_be_bytes. split; [simpl length; lia|].
  apply Forall_app. split; [apply be_bytes_range | done].
Qed.

Lemma hex_digit_lower n : 0 <= n < 16 -> is_hex_lower (hex_digit n) = true.
Proof.
  intros Hn.
  assert (forallb (fun n => is_hex_lower (hex_digit n)) (seqZ 0 16) = true) as H by reflexivity.
  rewrite forallb_forall in H. apply H, list_elem_of_In, elem_of_seqZ. lia.
Qed.

Lemma EncodeToString_lower bs :
  Forall (fun b => 0 <= b <= 255) bs ->
  String.length (EncodeToString bs) = (2 * length bs)%nat /\
  str_forallb is_hex_lower (EncodeToString bs) = true.
Proof.
  induction bs as [|b bs IH]; [done|]. intros Hb. inversion Hb as [|? ? Hb1 Hb2]; subst.
  destruct (IH Hb2) as [IH1 IH2]. cbn [EncodeToString fold_right String.length str_forallb].
  split; [fold (EncodeToString bs); simpl length; lia|].
  fold (EncodeToString bs). rewrite IH2.
  rewrite !hex_digit_lower; [done| |].
  - exact (land_ones_range b 4 ltac:(done)).
  - rewrite Z.shiftr_div_pow2 by done. split; [apply Z.div_pos|apply Z.div_lt_upper_bound]; lia.
Qed.

Lemma hashBytes_valid data : validHexSHA256 (hashBytes data) = true.
Proof.
  unfold validHexSHA256, hashBytes, Sum256.
  destruct (concat_be_bytes (blocks (length (words (pad (byte_list data))))
              (words (pad (byte_list data))) H0)) as [Hl Hr].
  destruct (EncodeToString_lower _ Hr) as [Hl' Hr']. rewrite Hr', Hl', Hl.
  by rewrite length_blocks.
Qed.

#[export] Hint Resolve hashBytes_valid : atum.
End Sha256.
