(* ===== verification/Fs.v ===== *)
(** The file-system world the update transaction runs in: a tree of nodes, the
    system calls of Go's [os] package the code makes, and a schedule of
    faults.  Every system call consults the schedule, so a run is explored
    with an I/O error or a process crash at any call.  The last part is a
    small program logic with crash conditions. *)
From stdpp Require Import prelude gmap strings list sorting.
From Stdlib Require Import Ascii ZArith Lia.
From S2P Require Import Prelude GoStrings FsPath.

Module Fs.

(** ** The tree *)

(** A path below the project root, as its elements; [[]] is the root. *)
Abbreviation path := (list string).

Inductive node :=
  | NDir
  | NFile (mode : Z) (data : string)
  | NLink      (** a symbolic link *)
  | NSpecial.  (** a device, socket or pipe *)

Abbreviation disk :=
  (@gmap (list string) _ (@list_countable string String.eq_dec String.countable) node).

Abbreviation pathset :=
  (@gset (list string) _ (@list_countable string String.eq_dec String.countable)).

#[export] Instance node_eq_dec : EqDecision node.
Proof. solve_decision. Defined.

Inductive errno := ENOENT | EEXIST | ENOTDIR | EISDIR | ENOTEMPTY | EINVAL | EIO.

(** Go errors: a system error, a message, a wrapped error ([%w]) and
    [errors.Join]. *)
Inductive goerr :=
  | Sys (e : errno)
  | Msg (m : string)
  | Wrap (m : string) (e : goerr)
  | Joined (a b : goerr).

(** [errors.Is(err, os.ErrNotExist)] *)
Fixpoint is_not_exist (e : goerr) : bool :=
  match e with
  | Sys ENOENT => true
  | Sys _ | Msg _ => false
  | Wrap _ e => is_not_exist e
  | Joined a b => is_not_exist a || is_not_exist b
  end.

(** ** Faults and the world *)

(** What happens at one system call.  A call that fails or is interrupted may
    have done part of its work: [n] bytes of a write, [n] directories of a
    recursive creation, the entries [gone] of a recursive removal. *)
Inductive fault :=
  | FOk
  | FErr (n : nat) (gone : list path)
  | FCrash (n : nat) (gone : list path).

Record world := World { wdisk : disk; plan : list fault }.

(** ** Programs *)

Inductive outcome (A : Type) :=
  | Ret (a : A)
  | Fail (e : goerr)
  | Crashed.
Arguments Ret {A} a.
Arguments Fail {A} e.
Arguments Crashed {A}.

Definition M (A : Type) : Type := world -> outcome A * world.

#[export] Instance M_ret : MRet M := fun A a w => (Ret a, w).
#[export] Instance M_bind : MBind M := fun A B f m w =>
  match m w with
  | (Ret a, w') => f a w'
  | (Fail e, w') => (Fail e, w')
  | (Crashed, w') => (Crashed, w')
  end.

Definition fail {A} (e : goerr) : M A := fun w => (Fail e, w).

Definition lift {A} (r : result goerr A) : M A :=
  match r with Ok a => mret a | Err e => fail e end.

(** The value or the error of [m]; a crash cannot be caught. *)
Definition catch {A} (m : M A) : M (result goerr A) := fun w =>
  match m w with
  | (Ret a, w') => (Ret (Ok a), w')
  | (Fail e, w') => (Ret (Err e), w')
  | (Crashed, w') => (Crashed, w')
  end.

(** [if err != nil { return fmt.Errorf("...: %w", err) }] *)
Definition wrapped {A} (m : string) (p : M A) : M A :=
  r ← catch p; match r with Ok a => mret a | Err e => fail (Wrap m e) end.

(** [_ = call()] *)
Definition ignore {A} (p : M A) : M unit := _ ← catch p; mret tt.

Definition require (cond : bool) (e : goerr) : M unit := if cond then mret tt else fail e.

Fixpoint for_each {A} (l : list A) (body : A -> M unit) : M unit :=
  match l with
  | [] => mret tt
  | x :: l' => body x ;; for_each l' body
  end.

(** One system call: [ok] is its effect, [partial] what it leaves behind when
    it fails or the process dies during it. *)
Definition syscall {A} (ok : disk -> result errno A * disk)
    (partial : nat -> list path -> disk -> disk) : M A := fun w =>
  match plan w with
  | FErr n gone :: pl => (Fail (Sys EIO), World (partial n gone (wdisk w)) pl)
  | FCrash n gone :: pl => (Crashed, World (partial n gone (wdisk w)) pl)
  | pl =>
      match ok (wdisk w) with
      | (Ok a, d) => (Ret a, World d (tail pl))
      | (Err e, d) => (Fail (Sys e), World d (tail pl))
      end
  end.

Definition no_effect : nat -> list path -> disk -> disk := fun _ _ d => d.

(** A call that only observes the tree *)
Definition observe {A} (f : disk -> result errno A) : M A :=
  syscall (fun d => (f d, d)) no_effect.

(** A call that changes the tree or reports an error and leaves it alone *)
Definition update (f : disk -> result errno disk) : M unit :=
  syscall (fun d => match f d with Ok d' => (Ok tt, d') | Err e => (Err e, d) end) no_effect.

(** ** System calls *)

Definition lookup_node (p : path) (d : disk) : result errno node :=
  match d !! p with Some n => Ok n | None => Err ENOENT end.

Definition dir_at (p : path) (d : disk) : bool := bool_decide (d !! p = Some NDir).

Definition parent (p : path) : path := removelast p.

(** [os.Lstat]: the callers have resolved the ancestors *)
Definition lstat (p : path) : M node := observe (lookup_node p).

(** [os.ReadFile], [os.Open] with [io.ReadAll] *)
Definition read_file (p : path) : M string := observe (fun d =>
  match d !! p with
  | Some (NFile _ data) => Ok data
  | Some NDir => Err EISDIR
  | Some _ => Err EINVAL
  | None => Err ENOENT
  end).

Definition strip (p q : path) : option path :=
  if bool_decide (take (length p) q = p) then Some (drop (length p) q) else None.

Definition child_of (p q : path) : option string :=
  match strip p q with Some [name] => Some name | _ => None end.

Definition children (p : path) (d : disk) : list (string * node) :=
  omap (fun '(q, n) => (fun name => (name, n)) <$> child_of p q) (map_to_list d).

Definition name_le (a b : string * node) : Prop := String.leb a.1 b.1 = true.
#[export] Instance name_le_dec a b : Decision (name_le a b).
Proof. unfold name_le. apply _. Defined.

(** [os.ReadDir]: the entries sorted by name *)
Definition read_dir (p : path) : M (list (string * node)) := observe (fun d =>
  match d !! p with
  | Some NDir => Ok (merge_sort name_le (children p d))
  | Some _ => Err ENOTDIR
  | None => Err ENOENT
  end).

Lemma child_of_Some p q name : child_of p q = Some name <-> q = p ++ [name].
Proof.
  unfold child_of, strip. case_bool_decide as Ht.
  - assert (exists l, q = p ++ l) as [l ->].
    { exists (drop (length p) q). rewrite <- (take_drop (length p) q) at 1. by rewrite Ht. }
    rewrite drop_app_length. clear Ht. destruct l as [|x [|y l]].
    + split; [done|]. intros Hq%app_inv_head. done.
    + split; [by intros [= ->]|]. intros Hq%app_inv_head. by injection Hq as ->.
    + split; [done|]. intros Hq%app_inv_head. done.
  - split; [done|]. intros ->. by rewrite take_app_length in Ht.
Qed.

Lemma elem_of_children p d name n : (name, n) ∈ children p d <-> d !! (p ++ [name]) = Some n.
Proof.
  unfold children. rewrite list_elem_of_omap. split.
  - intros ([q m] & Hin & Hc). apply elem_of_map_to_list in Hin.
    destruct (child_of p q) as [name'|] eqn:Hq; [|done]. injection Hc as -> ->.
    apply child_of_Some in Hq as ->. done.
  - intros Hd. exists (p ++ [name], n). split; [by apply elem_of_map_to_list|].
    by rewrite (proj2 (child_of_Some p (p ++ [name]) name) eq_refl).
Qed.

(** [os.Mkdir] *)
Definition mkdir (p : path) : M unit := update (fun d =>
  if negb (dir_at (parent p) d) then Err ENOENT
  else match d !! p with Some _ => Err EEXIST | None => Ok (<[p:=NDir]> d) end).

(** [os.OpenFile(path, O_CREATE|O_EXCL|O_WRONLY, mode)] *)
Definition create_excl (p : path) (mode : Z) : M unit := update (fun d =>
  if negb (dir_at (parent p) d) then Err ENOENT
  else match d !! p with Some _ => Err EEXIST | None => Ok (<[p:=NFile mode ""]> d) end).

(** [file.Chmod], [file.Write], [file.Sync], [file.Close] on the file opened at
    [p] *)
Definition chmod (p : path) (mode : Z) : M unit := update (fun d =>
  match d !! p with Some (NFile _ data) => Ok (<[p:=NFile mode data]> d) | _ => Err EINVAL end).

Definition append_data (p : path) (data : string) (d : disk) : disk :=
  match d !! p with Some (NFile mode old) => <[p:=NFile mode (old +:+ data)]> d | _ => d end.

Definition write (p : path) (data : string) : M unit :=
  syscall (fun d => match d !! p with
                    | Some (NFile _ _) => (Ok tt, append_data p data d)
                    | _ => (Err EINVAL, d) end)
          (fun n _ d => append_data p (str_take n data) d).

Definition sync (p : path) : M unit := observe (fun _ => Ok tt).
Definition close (p : path) : M unit := observe (fun _ => Ok tt).

(** [os.Rename] of a file *)
Definition rename (a b : path) : M unit := update (fun d =>
  match d !! a with
  | None => Err ENOENT
  | Some NDir => Err EINVAL
  | Some n =>
      if negb (dir_at (parent b) d) then Err ENOENT
      else match d !! b with
           | Some NDir => Err EISDIR
           | _ => Ok (<[b:=n]> (delete a d))
           end
  end).

(** [os.Remove] *)
Definition remove (p : path) : M unit := update (fun d =>
  match d !! p with
  | None => Err ENOENT
  | Some NDir => match children p d with [] => Ok (delete p d) | _ => Err ENOTEMPTY end
  | Some _ => Ok (delete p d)
  end).

(** The node at [q] is at or below [p]. *)
Definition below (p q : path) : Prop := take (length p) q = p.
#[export] Instance below_dec p q : Decision (below p q).
Proof. unfold below. apply _. Defined.

(** [os.RemoveAll]: everything at or below [p]; when it stops early, some
    entries below [p] are gone. *)
Definition remove_below (p : path) (d : disk) : disk := filter (fun '(q, _) => ~ below p q) d.
Definition remove_some (p : path) (gone : list path) (d : disk) : disk :=
  filter (fun '(q, _) => ~ (below p q /\ q <> p /\ q ∈ gone)) d.

Definition remove_all (p : path) : M unit :=
  syscall (fun d => (Ok tt, remove_below p d)) (fun _ gone d => remove_some p gone d).

Lemma lookup_remove_below (d : disk) p q :
  remove_below p d !! q = if decide (below p q) then None else d !! q.
Proof.
  unfold remove_below. rewrite map_lookup_filter. destruct (d !! q) as [n|] eqn:Hq; simpl; [|by case_decide].
  destruct (decide (below p q)) as [Hb|Hb]; case_guard; try done.
Qed.

Lemma lookup_remove_some (d : disk) p gone q :
  remove_some p gone d !! q = d !! q \/
  (remove_some p gone d !! q = None /\ below p q /\ q <> p).
Proof.
  unfold remove_some. rewrite map_lookup_filter. destruct (d !! q) as [n|] eqn:Hq; simpl; [|by left].
  case_guard as Hg; [by left|]. right. split; [done|].
  destruct (decide (below p q)), (decide (q = p)); naive_solver.
Qed.

(** [syncDirectory] of [cli/update/transaction.go]: open, sync, close *)
Definition sync_dir (p : path) : M unit := observe (fun d =>
  match d !! p with Some NDir => Ok tt | Some _ => Err ENOTDIR | None => Err ENOENT end).

(** ** Recursive directory creation

    [fssecure.EnsureDirectory] delegates to [pathrs.MkdirAllHandle] of
    github.com/cyphar/filepath-securejoin, which is not part of the
    repository: what Atum relies on is this interface.  [mkdir_all] creates
    missing directories on the way to a path and touches nothing else;
    [mkdir_progress] is the tree after an interrupted creation. *)
Definition grows (p : path) (d d' : disk) : Prop :=
  forall q, (d' !! q = d !! q) \/ (d !! q = None /\ d' !! q = Some NDir /\ below q p).

(** Every node on the way to [p], itself included, is a directory or absent. *)
Definition dirs_to (p : path) (d : disk) : Prop :=
  forall q, below q p -> d !! q = None \/ d !! q = Some NDir.

Class Pathrs := {
  mkdir_all : path -> disk -> result errno disk;
  mkdir_progress : nat -> path -> disk -> disk;
  mkdir_all_grows p d d' : mkdir_all p d = Ok d' ->
    grows p d d' /\ (forall q, below q p -> d' !! q = Some NDir);
  mkdir_progress_grows n p d : grows p d (mkdir_progress n p d);
  mkdir_all_succeeds p d : d !! [] = Some NDir -> dirs_to p d -> exists d', mkdir_all p d = Ok d'
}.

Definition mkdir_all_handle `{Pathrs} (p : path) : M unit :=
  syscall (fun d => match mkdir_all p d with Ok d' => (Ok tt, d') | Err e => (Err e, d) end)
          (fun n _ d => mkdir_progress n p d).

(** A reference implementation: one directory after the other. *)
Definition prefixes (p : path) : list path := (fun n => take n p) <$> seq 0 (S (length p)).

Definition mkdir_step (r : result errno disk) (q : path) : result errno disk :=
  d ← r;
  match d !! q with
  | None => Ok (<[q:=NDir]> d)
  | Some NDir => Ok d
  | Some _ => Err ENOTDIR
  end.

Definition mkdir_seq (qs : list path) (d : disk) : result errno disk :=
  fold_left mkdir_step qs (Ok d).

Lemma below_prefixes p q : q ∈ prefixes p <-> below q p.
Proof.
  unfold prefixes, below. rewrite list_elem_of_fmap. split.
  - intros (n & -> & Hn). rewrite length_take.
    destruct (Nat.min_spec n (length p)) as [[? ->]|[? ->]]; [done|]. by rewrite !take_ge by lia.
  - intros Hq. exists (length q). split; [done|]. apply elem_of_seq.
    pose proof (f_equal length Hq) as Hl. rewrite length_take in Hl. lia.
Qed.

Lemma below_refl p : below p p.
Proof. unfold below. by rewrite take_ge. Qed.

Lemma below_app p r : below p (p ++ r).
Proof. unfold below. by rewrite take_app_length. Qed.

Lemma below_iff p q : below p q <-> exists r, q = p ++ r.
Proof.
  split.
  - intros H. exists (drop (length p) q). rewrite <- (take_drop (length p) q) at 1. by rewrite H.
  - intros [r ->]. apply below_app.
Qed.

Lemma below_trans p q r : below p q -> below q r -> below p r.
Proof.
  rewrite !below_iff. intros [s ->] [t ->]. exists (s ++ t). by rewrite app_assoc.
Qed.

Lemma grows_refl p d : grows p d d.
Proof. intros q. by left. Qed.

Lemma grows_keeps p d d' q n : grows p d d' -> d !! q = Some n -> d' !! q = Some n.
Proof. intros H Hq. destruct (H q) as [->|(Hn & _)]; congruence. Qed.

Lemma mkdir_seq_err qs e : fold_left mkdir_step qs (Err e) = Err e.
Proof. by induction qs. Qed.

Lemma mkdir_seq_grows p qs d d' :
  Forall (fun q => below q p) qs -> mkdir_seq qs d = Ok d' ->
  grows p d d' /\ Forall (fun q => d' !! q = Some NDir) qs.
Proof.
  unfold mkdir_seq. revert d. induction qs as [|q qs IH]; intros d Hqs H; simpl in H.
  { injection H as <-. split; [apply grows_refl | done]. }
  inversion Hqs as [|? ? Hq Hqs']; subst.
  assert (exists d1, fold_left mkdir_step qs (Ok d1) = Ok d' /\ grows p d d1 /\
            d1 !! q = Some NDir) as (d1 & H1 & Hg & Hd1).
  { simpl in H. destruct (d !! q) as [[]|] eqn:Hdq;
      try (rewrite mkdir_seq_err in H; discriminate H).
    - exists d. split; [done|]. split; [apply grows_refl | done].
    - exists (<[q:=NDir]> d). split; [done|]. split; [|apply lookup_insert_eq].
      intros q'. destruct (decide (q = q')) as [<-|Hne].
      + right. by rewrite lookup_insert_eq.
      + left. by rewrite lookup_insert_ne. }
  destruct (IH d1 Hqs' H1) as [Hg' Hqd]. split.
  - intros q'. destruct (Hg' q') as [Heq|(Hn & Hs & Hb)], (Hg q') as [Heq2|(Hn2 & Hs2 & Hb2)];
      [left; congruence | right; split_and!; congruence | right; split_and!; congruence | congruence].
  - constructor; [|done]. by eapply grows_keeps.
Qed.

Lemma mkdir_seq_succeeds qs d :
  Forall (fun q => d !! q = None \/ d !! q = Some NDir) qs -> exists d', mkdir_seq qs d = Ok d'.
Proof.
  unfold mkdir_seq. revert d. induction qs as [|q qs IH]; intros d H; [by exists d|].
  inversion H as [|? ? Hq Hqs]; subst. simpl. destruct Hq as [-> | ->]; apply IH; [|done].
  eapply Forall_impl; [exact Hqs|]. intros q' Hq'. destruct (decide (q = q')) as [<-|Hne].
  - right. apply lookup_insert_eq.
  - by rewrite lookup_insert_ne.
Qed.

Lemma prefixes_below p n : Forall (fun q => below q p) (take n (prefixes p)).
Proof.
  apply Forall_take, Forall_forall. intros q Hq. by apply below_prefixes.
Qed.

#[export] Program Instance reference_pathrs : Pathrs := {|
  mkdir_all p d := mkdir_seq (prefixes p) d;
  mkdir_progress n p d :=
    match mkdir_seq (take n (prefixes p)) d with Ok d' => d' | Err _ => d end
|}.
Next Obligation.
  intros p d d' H. simpl in H.
  destruct (mkdir_seq_grows p (prefixes p) d d') as [Hg Hd]; [|done|].
  { rewrite <- (take_ge (prefixes p) (length (prefixes p))) by done. apply prefixes_below. }
  split; [done|]. intros q Hq. rewrite Forall_forall in Hd.
  apply Hd. by apply below_prefixes.
Qed.
Next Obligation.
  intros n p d. cbv beta. destruct (mkdir_seq (take n (prefixes p)) d) as [d'|e] eqn:H;
    [|apply grows_refl].
  eapply mkdir_seq_grows; [|exact H]. apply prefixes_below.
Qed.
Next Obligation.
  intros p d _ H. cbv beta. apply mkdir_seq_succeeds, Forall_forall. intros q Hq. apply H.
  by apply below_prefixes.
Qed.

(** ** Program logic

    [wp mode m Q X C d]: run from the tree [d] under any schedule of the given
    mode, the program [m] ends in [Q] if it returns, in [X] if it fails and in
    [C] if the process crashes. *)
Inductive mode :=
  | Calm        (** no fault *)
  | CrashOnly   (** every call works until the process dies *)
  | AnyFault.   (** I/O errors and a crash anywhere *)

Definition allows (m : mode) (f : fault) : Prop :=
  match m, f with
  | _, FOk => True
  | CrashOnly, FCrash _ _ => True
  | AnyFault, _ => True
  | _, _ => False
  end.

Definition wp {A} (md : mode) (m : M A) (Q : A -> disk -> Prop) (X : goerr -> disk -> Prop)
    (C : disk -> Prop) (d : disk) : Prop :=
  forall pl, Forall (allows md) pl ->
  match m (World d pl) with
  | (Ret a, w) => Q a (wdisk w) /\ Forall (allows md) (plan w)
  | (Fail e, w) => X e (wdisk w) /\ Forall (allows md) (plan w)
  | (Crashed, w) => C (wdisk w) /\ md <> Calm
  end.

Section Wp.
Context (md : mode).

Lemma wp_ret {A} (a : A) Q X C d : Q a d -> wp md (mret a) Q X C d.
Proof. by intros H pl Hpl. Qed.

Lemma wp_fail {A} e (Q : A -> _) X C d : X e d -> wp md (fail e) Q X C d.
Proof. by intros H pl Hpl. Qed.

Lemma wp_bind {A B} (m : M A) (f : A -> M B) Q X C d :
  wp md m (fun a d' => wp md (f a) Q X C d') X C d -> wp md (m ≫= f) Q X C d.
Proof.
  intros H pl Hpl. specialize (H pl Hpl). unfold mbind, M_bind.
  destruct (m (World d pl)) as [[a|e|] [d' pl']]; simpl in *; [|done|done].
  destruct H as [H Hpl']. exact (H pl' Hpl').
Qed.

Lemma wp_conseq {A} (m : M A) (Q Q' : A -> disk -> Prop) (X X' : goerr -> disk -> Prop)
    (C C' : disk -> Prop) d :
  wp md m Q X C d -> (forall a d', Q a d' -> Q' a d') -> (forall e d', X e d' -> X' e d') ->
  (forall d', C d' -> C' d') -> wp md m Q' X' C' d.
Proof.
  intros H HQ HX HC pl Hpl. specialize (H pl Hpl).
  destruct (m (World d pl)) as [[a|e|] w]; destruct H as [H ?]; auto.
Qed.

Lemma wp_catch {A} (m : M A) (Q : result goerr A -> disk -> Prop) X C d :
  wp md m (fun a => Q (Ok a)) (fun e => Q (Err e)) C d -> wp md (catch m) Q X C d.
Proof.
  intros H pl Hpl. specialize (H pl Hpl). unfold catch.
  by destruct (m (World d pl)) as [[a|e|] w].
Qed.

Lemma wp_syscall {A} (ok : disk -> result errno A * disk)
    (partial : nat -> list path -> disk -> disk)
    (Q : A -> disk -> Prop) (X : goerr -> disk -> Prop) (C : disk -> Prop) d :
  match ok d with (Ok a, d') => Q a d' | (Err e, d') => X (Sys e) d' end ->
  (md = AnyFault -> forall n gone, X (Sys EIO) (partial n gone d)) ->
  (forall n gone, C (partial n gone d)) ->
  wp md (syscall ok partial) Q X C d.
Proof.
  intros Hok HX HC pl Hpl. unfold syscall. simpl.
  destruct Hpl as [|[|n gone|n gone] pl Hf Hpl]; simpl.
  - destruct (ok d) as [[a|e] d']; by split.
  - destruct (ok d) as [[a|e] d']; by split.
  - destruct md; try done. split; [by apply HX | done].
  - split; [apply HC|]. by destruct md.
Qed.

Lemma wp_observe {A} (f : disk -> result errno A)
    (Q : A -> disk -> Prop) (X : goerr -> disk -> Prop) (C : disk -> Prop) d :
  match f d with Ok a => Q a d | Err e => X (Sys e) d end ->
  (md = AnyFault -> X (Sys EIO) d) -> C d -> wp md (observe f) Q X C d.
Proof. intros H HX HC. apply wp_syscall; [by destruct (f d) | auto | auto]. Qed.

Lemma wp_update (f : disk -> result errno disk)
    (Q : unit -> disk -> Prop) (X : goerr -> disk -> Prop) (C : disk -> Prop) d :
  match f d with Ok d' => Q tt d' | Err e => X (Sys e) d end ->
  (md = AnyFault -> X (Sys EIO) d) -> C d -> wp md (update f) Q X C d.
Proof. intros H HX HC. apply wp_syscall; [by destruct (f d) | auto | auto]. Qed.

Lemma wp_wrapped {A} s (m : M A) Q X C d :
  wp md m Q (fun e => X (Wrap s e)) C d -> wp md (wrapped s m) Q X C d.
Proof.
  intros H. apply wp_bind, wp_catch. eapply wp_conseq; [exact H|..]; simpl; [| |done].
  - intros a d' HQ. by apply wp_ret.
  - intros e d' HX. by apply wp_fail.
Qed.

Lemma wp_ignore {A} (m : M A) (Q : unit -> disk -> Prop) X (C : disk -> Prop) d :
  wp md m (fun _ => Q tt) (fun _ => Q tt) C d -> wp md (ignore m) Q X C d.
Proof.
  intros H. apply wp_bind, wp_catch. eapply wp_conseq; [exact H|..]; simpl; [| |done];
    intros ? d' HQ; by apply wp_ret.
Qed.

Lemma wp_require cond e (Q : unit -> disk -> Prop) X C d :
  (cond = true -> Q tt d) -> (cond = false -> X e d) -> wp md (require cond e) Q X C d.
Proof. intros HQ HX. destruct cond; [by apply wp_ret, HQ | by apply wp_fail, HX]. Qed.

(** A loop whose body keeps [I], with the list of the elements still to do. *)
Lemma wp_for_each {A} (I : list A -> disk -> Prop) (body : A -> M unit) (l : list A)
    (Q : unit -> disk -> Prop) X C d :
  I l d ->
  (forall x r d, I (x :: r) d -> wp md (body x) (fun _ => I r) X C d) ->
  (forall d, I [] d -> Q tt d) ->
  wp md (for_each l body) Q X C d.
Proof.
  intros HI Hbody HQ. revert d HI. induction l as [|x l IH]; intros d HI; simpl.
  - by apply wp_ret, HQ.
  - apply wp_bind. eapply wp_conseq; [by apply (Hbody x l)|..]; [|done|done].
    intros [] d' HI'. by apply IH.
Qed.
End Wp.

#[export] Hint Resolve wp_ret wp_fail : atum.
End Fs.
