(* ===== verification/Treehash.v ===== *)
(** [cli/treehash/treehash.go]: one digest for a set of regular files, and the
    order of Go's [sort.Strings]. *)
From stdpp Require Import prelude strings list sorting.
From Stdlib Require Import Ascii ZArith Lia.
From S2P Require Import Prelude GoStrings Sha256.

Module Treehash.
Import Sha256.

(** ** The byte order of strings *)

Definition str_le (a b : string) : Prop := String.leb a b = true.
#[export] Instance str_le_dec a b : Decision (str_le a b).
Proof. unfold str_le. apply _. Defined.

Lemma byte_compare_N a b : Ascii.compare a b = N.compare (N_of_ascii a) (N_of_ascii b).
Proof. done. Qed.

#[export] Instance str_le_total : Total str_le.
Proof.
  intros a b. unfold str_le, String.leb. rewrite (String.compare_antisym a b).
  destruct (String.compare b a); simpl; auto.
Qed.

Lemma str_compare_lt_trans a b c :
  String.compare a b = Lt -> String.compare b c = Lt -> String.compare a c = Lt.
Proof.
  revert b c. induction a as [|x a IH]; intros [|y b] [|z c]; simpl; try done.
  rewrite !byte_compare_N.
  destruct (N.compare_spec (N_of_ascii x) (N_of_ascii y)) as [Hxy|Hxy|Hxy];
  destruct (N.compare_spec (N_of_ascii y) (N_of_ascii z)) as [Hyz|Hyz|Hyz]; try done;
  destruct (N.compare_spec (N_of_ascii x) (N_of_ascii z)) as [Hxz|Hxz|Hxz];
    try lia; try done; eauto.
Qed.

Lemma str_compare_eq a b : String.compare a b = Eq <-> a = b.
Proof.
  split; [apply String.compare_eq_iff|]. intros ->. induction b as [|c b IH]; [done|].
  simpl. by rewrite byte_compare_N, N.compare_refl.
Qed.

#[export] Instance str_le_trans : Transitive str_le.
Proof.
  intros a b c. unfold str_le, String.leb.
  destruct (String.compare a b) eqn:Hab; try done; intros _.
  - apply str_compare_eq in Hab as ->. done.
  - destruct (String.compare b c) eqn:Hbc; try done; intros _.
    + apply str_compare_eq in Hbc as ->. by rewrite Hab.
    + by rewrite (str_compare_lt_trans _ _ _ Hab Hbc).
Qed.

#[export] Instance str_le_antisym : AntiSymm (=) str_le.
Proof.
  intros a b. unfold str_le, String.leb. rewrite (String.compare_antisym a b).
  destruct (String.compare b a) eqn:H; simpl; try done.
  intros _ _. by apply str_compare_eq in H.
Qed.

(** [sort.Strings] *)
Definition SortStrings (l : list string) : list string := merge_sort str_le l.

Lemma SortStrings_perm l : SortStrings l ≡ₚ l.
Proof. apply merge_sort_Permutation. Qed.

Lemma SortStrings_sorted l : StronglySorted str_le (SortStrings l).
Proof. apply StronglySorted_merge_sort; apply _. Qed.

(** Sorting forgets the order it was given. *)
Lemma SortStrings_unique l1 l2 : l1 ≡ₚ l2 -> SortStrings l1 = SortStrings l2.
Proof.
  intros H. apply (StronglySorted_unique str_le); [apply SortStrings_sorted..|].
  by rewrite !SortStrings_perm.
Qed.

(** ** [os.FileMode] *)
Definition ModeType : Z := (2 ^ 31 + 2 ^ 27 + 2 ^ 25 + 2 ^ 24 + 2 ^ 26 + 2 ^ 21 + 2 ^ 19)%Z.
Definition IsRegular (mode : Z) : bool := (Z.land mode ModeType =? 0)%Z.
Definition Perm (mode : Z) : Z := Z.land mode 511.

(** [fmt.Sprintf("%04o", perm)] for a permission of at most nine bits *)
Definition octal4 (perm : Z) : string :=
  fold_right (fun k s => String (digit_char (Z.to_N (Z.land (Z.shiftr perm k) 7))) s) "" [9; 6; 3; 0]%Z.

(** ** The tree hash *)

Record File := { Path : string; Mode : Z; Data : string }.

Definition file_le (a b : File) : Prop := str_le (Path a) (Path b).
#[export] Instance file_le_dec a b : Decision (file_le a b).
Proof. unfold file_le. apply _. Defined.
#[export] Instance file_le_total : Total file_le.
Proof. intros a b. apply (total str_le). Qed.
#[export] Instance file_le_trans : Transitive file_le.
Proof. intros a b c. apply (transitivity (R:=str_le)). Qed.

Definition nul : string := String "000" "".
Definition newline : string := String "010" "".

Definition tree_line (file : File) : string :=
  Path file +:+ nul +:+ octal4 (Perm (Mode file)) +:+ nul +:+ hashBytes (Data file) +:+ newline.

Inductive tree_error := InvalidOrDuplicate (path : string).

(** The loop over the sorted files, with the running hash input. *)
Fixpoint sum_loop (files : list File) (previous : string) (acc : string) : result tree_error string :=
  match files with
  | [] => Ok acc
  | file :: rest =>
      if String.eqb (Path file) "" || String.eqb (Path file) previous
         || negb (IsRegular (Mode file))
      then Err (InvalidOrDuplicate (Path file))
      else sum_loop rest (Path file) (acc +:+ tree_line file)
  end.

Definition Sum (files : list File) : result tree_error string :=
  hashed ← sum_loop (merge_sort file_le files) "" "";
  Ok (hashBytes hashed).

(** *** What [Sum] accepts *)

Definition regular_named (f : File) : Prop := Path f <> "" /\ IsRegular (Mode f) = true.

Lemma sum_loop_accepts files previous acc :
  StronglySorted file_le files -> Forall (fun f => str_le previous (Path f)) files ->
  (is_ok (sum_loop files previous acc) = true <->
   Forall regular_named files /\ NoDup (previous :: (Path <$> files))).
Proof.
  revert previous acc. induction files as [|f files IH]; intros previous acc Hs Hp; simpl.
  { split; [|done]. intros _. split; [done|]. apply NoDup_singleton. }
  inversion Hs as [|? ? Hs' Hf]; subst. inversion Hp as [|? ? Hpf Hp']; subst.
  rewrite Forall_cons, !NoDup_cons, not_elem_of_cons.
  destruct (String.eqb_spec (Path f) "") as [He|He]; simpl.
  { split; [done|]. unfold regular_named. naive_solver. }
  destruct (String.eqb_spec (Path f) previous) as [<-|Hne]; simpl.
  { split; [done|]. naive_solver. }
  destruct (IsRegular (Mode f)) eqn:Hr; simpl.
  2: { split; [done|]. unfold regular_named. intros [[[_ ?] _] _]. congruence. }
  rewrite IH by done. rewrite NoDup_cons. split.
  - intros (H1 & H2 & H3). split; [split; [by split|done]|].
    split; [split; [done|]|done]. rewrite list_elem_of_fmap. intros (g & -> & Hg).
    rewrite Forall_forall in Hf. apply Hne, (anti_symm str_le); [by apply Hf|done].
  - naive_solver.
Qed.

Lemma file_sort_perm files : merge_sort file_le files ≡ₚ files.
Proof. apply merge_sort_Permutation. Qed.

(** The hash is defined exactly on sets of named regular files: any order, no
    duplicate, no special file. *)
Lemma Sum_accepts files :
  is_ok (Sum files) = true <-> Forall regular_named files /\ NoDup (Path <$> files).
Proof.
  unfold Sum. transitivity (is_ok (sum_loop (merge_sort file_le files) "" "") = true).
  { by destruct (sum_loop _ _ _). }
  rewrite sum_loop_accepts.
  - pose proof (file_sort_perm files) as Hp. revert Hp.
    generalize (merge_sort file_le files) as l. intros l Hl.
    assert (Forall regular_named l <-> Forall regular_named files) as Hf by (by rewrite Hl).
    assert ((Path <$> l) ≡ₚ (Path <$> files)) as Hpl by (by apply fmap_Permutation).
    rewrite NoDup_cons. split.
    { intros (Hr & _ & Hn). split; [by apply Hf|]. by rewrite <- Hpl. }
    intros [Hr Hn]. apply Hf in Hr. rewrite <- Hpl in Hn. split_and!; try done. rewrite list_elem_of_fmap. intros (f & Hempty & Hin).
    rewrite Forall_forall in Hr. by destruct (Hr f Hin).
  - apply StronglySorted_merge_sort; apply _.
  - apply Forall_forall. intros f _. by destruct (Path f).
Qed.

(** Two listings of the same tree hash alike. *)
Lemma Sum_order_independent files1 files2 :
  NoDup (Path <$> files1) -> files1 ≡ₚ files2 -> Sum files1 = Sum files2.
Proof.
  intros Hn Hp. unfold Sum. f_equal. f_equal.
  apply (StronglySorted_unique_strong file_le);
    [|apply StronglySorted_merge_sort; apply _..|by rewrite !file_sort_perm].
  intros f1 f2 H1 H2 Hle1 Hle2. rewrite file_sort_perm in H1. rewrite file_sort_perm, <- Hp in H2.
  pose proof (anti_symm str_le _ _ Hle1 Hle2) as He.
  apply list_elem_of_lookup in H1 as [i1 H1], H2 as [i2 H2].
  assert (i1 = i2) as ->; [|congruence].
  eapply NoDup_lookup; [exact Hn| |]; rewrite list_lookup_fmap, ?H1, ?H2; simpl; [done|].
  by rewrite He.
Qed.
End Treehash.
