(* ===== verification/Transaction.v ===== *)
(** The update transaction: [cli/update/transaction.go], with the parts of
    [cli/fssecure/path.go] and [cli/update/managed.go] it calls.  [Commit]
    replaces a set of managed files all at once through a journal below
    [.atum/state/update-transactions]; [recoverTransactions] finishes or undoes
    an interrupted one.  Both are programs of the file-system world [Fs.M]. *)
From stdpp Require Import prelude gmap strings list sorting.
From Stdlib Require Import Ascii ZArith Lia.
From S2P Require Import Prelude GoStrings FsPath Sha256 Fs Treehash.

Module Transaction.
Import FsPath Sha256 Fs Treehash.

(** ** Data *)

(** [data []byte]: [None] is Go's nil slice *)
Record managedVersion := {
  mv_exists : bool;
  mv_mode : Z;
  mv_digest : string;
  mv_data : option string
}.

Definition absentVersion : managedVersion :=
  {| mv_exists := false; mv_mode := 0; mv_digest := ""; mv_data := None |}.

Record transactionEntry := { expected : managedVersion; candidate : managedVersion }.

(** The [root] field is the root of the file-system world. *)
Record fileTransaction := {
  files : gmap string transactionEntry;
  directories : gmap string string
}.

Record transactionRecord := {
  RPath : string;
  OriginalExists : bool;
  OriginalMode : Z;
  OriginalSHA256 : string;
  CandidateExists : bool;
  CandidateMode : Z;
  CandidateSHA256 : string
}.

Record transactionJournal := {
  SchemaVersion : string;
  JState : string;
  Files : list transactionRecord
}.

#[export] Instance record_eq_dec : EqDecision transactionRecord.
Proof. solve_decision. Defined.

Definition transactionSchema : string := "atum.dev/update-transaction/v2".
Definition transactionPrepared : string := "prepared".
Definition transactionCommitted : string := "committed".
Definition transactionIDBytes : nat := 12.
(** [1 << 20] *)
Definition journalLimit : N := 1048576.
Definition str_size (s : string) : N := N.of_nat (String.length s).

(** [encoding/json] on the journal: [MarshalIndent] followed by a newline, and
    [Decode] of one document with unknown fields refused.  What the code relies
    on is that it reads back what it wrote; the law is stated for printable
    ASCII text and [uint32] modes. *)
Definition printable (c : ascii) : bool := in_range " " "~" c.

Definition record_text (r : transactionRecord) : Prop :=
  str_forallb printable (RPath r) = true /\
  str_forallb printable (OriginalSHA256 r) = true /\
  str_forallb printable (CandidateSHA256 r) = true /\
  (0 <= OriginalMode r < 2 ^ 32)%Z /\ (0 <= CandidateMode r < 2 ^ 32)%Z.

Definition journal_text (j : transactionJournal) : Prop :=
  str_forallb printable (SchemaVersion j) = true /\
  str_forallb printable (JState j) = true /\ Forall record_text (Files j).

Class JournalCodec := {
  encodeJournal : transactionJournal -> string;
  decodeJournal : string -> result goerr transactionJournal;
  journal_roundtrip j : journal_text j -> decodeJournal (encodeJournal j +:+ newline) = Ok j
}.

Definition newFileTransaction : fileTransaction := {| files := ∅; directories := ∅ |}.

(** ** Paths of the world *)

Definition comps (relative : string) : path := Split relative sep.

(** [filepath.Dir] of a clean relative path *)
Definition Dir (relative : string) : string :=
  match removelast (Split relative sep) with [] => "." | l => Join l seps end.

Definition transactionRootRel : string := ".atum/state/update-transactions".
Definition transactionRoot : path := comps transactionRootRel.

Definition relative_ (relative : string) : M string :=
  match Relative relative with
  | Ok clean => mret clean
  | Err _ => fail (Msg "path is not project-relative")
  end.

Section Programs.
Context {PR : Pathrs} {JC : JournalCodec}.

(** *** [fssecure.Root], [fssecure.Resolve], [fssecure.EnsureDirectory] *)

Definition Root : M unit :=
  n ← wrapped "inspect project root" (lstat []);
  match n with NDir => mret tt | _ => fail (Msg "project root must be a real directory") end.

(** The loop over the remaining [components] below [current]; [true] when a
    missing component stops it. *)
Fixpoint resolve_loop (components : list string) (current : path) (allowMissing : bool) : M unit :=
  match components with
  | [] => mret tt
  | component :: rest =>
      let current := current ++ [component] in
      info ← catch (lstat current);
      match info with
      | Err statErr =>
          if is_not_exist statErr then
            (if allowMissing then mret tt else fail (Wrap "managed path does not exist" (Sys ENOENT)))
          else fail (Wrap "inspect managed path" statErr)
      | Ok NLink => fail (Msg "managed path traverses symlink")
      | Ok n =>
          match rest, n with
          | _ :: _, NDir => resolve_loop rest current allowMissing
          | _ :: _, _ => fail (Msg "managed path has non-directory ancestor")
          | [], _ => mret tt
          end
      end
  end.

Definition Resolve (relative : string) (allowMissing : bool) : M path :=
  clean ← relative_ relative;
  Root;;
  resolve_loop (comps clean) [] allowMissing;;
  mret (comps clean).

Definition EnsureDirectory (relative : string) (mode : Z) : M path :=
  clean ← relative_ relative;
  require (negb (Perm mode =? 0)%Z && (Z.ldiff mode 511 =? 0)%Z) (Msg "directory has invalid mode");;
  Root;;
  wrapped "open project root for directory" (lstat []);;
  wrapped "create directory" (mkdir_all_handle (comps clean));;
  handleInfo ← wrapped "inspect directory" (lstat (comps clean));
  require (bool_decide (handleInfo = NDir)) (Msg "managed directory is not a directory");;
  path ← Resolve clean false;
  info ← wrapped "inspect managed directory" (lstat path);
  match info with
  | NDir => mret path
  | _ => fail (Msg "managed directory changed while it was created")
  end.

(** *** Versions *)

Definition sameManagedVersion (left right : managedVersion) : bool :=
  Bool.eqb (mv_exists left) (mv_exists right) && (mv_mode left =? mv_mode right)%Z
  && String.eqb (mv_digest left) (mv_digest right).

Definition validateManagedVersion (v : managedVersion) : result goerr unit :=
  if negb (mv_exists v) then
    guard_err (negb (mv_mode v =? 0)%Z || negb (String.eqb (mv_digest v) "")
               || negb (String.length (default "" (mv_data v)) =? 0)%nat)
      (Msg "absent file carries material")
  else
    guard_err ((mv_mode v =? 0)%Z || (511 <? mv_mode v)%Z || negb (validHexSHA256 (mv_digest v)))
      (Msg "file mode or digest is invalid") ≫= fun _ =>
    guard_err (match mv_data v with
               | Some data => negb (String.eqb (hashBytes data) (mv_digest v))
               | None => false
               end) (Msg "file bytes do not match digest").

Definition withoutData (v : managedVersion) : managedVersion :=
  {| mv_exists := mv_exists v; mv_mode := mv_mode v; mv_digest := mv_digest v; mv_data := None |}.

(** [append([]byte(nil), data...)]: nil for empty data *)
Definition copyBytes (data : string) : option string :=
  if String.eqb data "" then None else Some data.

Definition fileVersion (mode : Z) (data : string) : managedVersion :=
  {| mv_exists := true; mv_mode := mode; mv_digest := hashBytes data; mv_data := Some data |}.

Definition snapshotManagedFile (relative : string) : M managedVersion :=
  clean ← relative_ relative;
  path ← Resolve clean true;
  info ← catch (lstat path);
  match info with
  | Err e => if is_not_exist e then mret absentVersion else fail (Wrap "inspect managed file" e)
  | Ok (NFile mode _) =>
      data ← wrapped "read managed file" (read_file path);
      mret (fileVersion mode data)
  | Ok _ => fail (Msg "managed path is not a regular file")
  end.

Definition snapshotAbsoluteFile (p : path) : M managedVersion :=
  info ← lstat p;
  match info with
  | NFile mode _ => data ← read_file p; mret (fileVersion mode data)
  | _ => fail (Msg "not a regular file")
  end.

(** [regularFileVersion] with [hashRegularFile] *)
Definition regularFileVersion (p : path) : M managedVersion :=
  info ← lstat p;
  match info with
  | NFile mode _ =>
      data ← wrapped "hash" (read_file p);
      mret (withoutData (fileVersion mode data))
  | _ => fail (Msg "not a regular file")
  end.

(** *** Building a transaction *)

Definition add (t : fileTransaction) (relative : string) (exp cand : managedVersion) :
    result goerr fileTransaction :=
  match Relative relative with
  | Err _ => Err (Msg "path is not project-relative")
  | Ok clean =>
      match files t !! clean with
      | Some _ => Err (Msg "managed path is duplicated")
      | None =>
          wrap_err (Wrap "expected state") (validateManagedVersion exp) ≫= fun _ =>
          wrap_err (Wrap "candidate state") (validateManagedVersion cand) ≫= fun _ =>
          Ok {| files := <[clean := {| expected := withoutData exp; candidate := cand |}]> (files t);
                directories := directories t |}
      end
  end.

Definition Add (t : fileTransaction) (relative data : string) (exp : managedVersion) :
    result goerr fileTransaction :=
  let mode := if mv_exists exp then mv_mode exp else 420%Z (* 0o644 *) in
  add t relative exp
    {| mv_exists := true; mv_mode := mode; mv_digest := hashBytes data; mv_data := copyBytes data |}.

Definition AddMode (t : fileTransaction) (relative data : string) (mode : Z)
    (exp : managedVersion) : result goerr fileTransaction :=
  if negb (IsRegular mode) || (Perm mode =? 0)%Z then Err (Msg "managed file has invalid candidate mode")
  else add t relative exp
    {| mv_exists := true; mv_mode := Perm mode; mv_digest := hashBytes data; mv_data := copyBytes data |}.

Definition Delete (t : fileTransaction) (relative : string) (exp : managedVersion) :
    result goerr fileTransaction :=
  if negb (mv_exists exp) then Ok t else add t relative exp absentVersion.

Definition GuardDirectory (t : fileTransaction) (relative exp : string) : result goerr fileTransaction :=
  match Relative relative with
  | Err _ => Err (Msg "path is not project-relative")
  | Ok clean =>
      if String.eqb exp "" then Err (Msg "managed directory has an empty identity")
      else match directories t !! clean with
           | Some _ => Err (Msg "managed directory is duplicated")
           | None => Ok {| files := files t; directories := <[clean := exp]> (directories t) |}
           end
  end.

(** *** Reading a transaction *)

Definition paths (t : fileTransaction) : list string := SortStrings (map_to_list (files t)).*1.

Definition entryChanged (t : fileTransaction) (relative : string) : bool :=
  match files t !! relative with
  | Some e => negb (sameManagedVersion (expected e) (candidate e))
  | None => false
  end.

Definition Changed (t : fileTransaction) : list string :=
  List.filter (entryChanged t) (paths t).

(** [snapshotDirectoryDigest] of [cli/update/managed.go]: every regular file
    below the directory, hashed as a tree; other files are refused. *)
Definition treeFile (dir : path) (qn : path * node) : option (result goerr File) :=
  match strip dir qn.1, qn.2 with
  | None, _ | _, NDir => None
  | Some rel, NFile mode data =>
      Some (Ok {| Path := match rel with [] => "." | _ => Join rel seps end; Mode := mode; Data := data |})
  | Some _, _ => Some (Err (Msg "tree contains unsupported file"))
  end.

Fixpoint all_ok {A} (l : list (result goerr A)) : result goerr (list A) :=
  match l with
  | [] => Ok []
  | r :: l' => a ← r; as_ ← all_ok l'; Ok (a :: as_)
  end.

Definition snapshotDirectoryDigest (relative : string) : M string :=
  directory ← Resolve relative false;
  entries ← observe (fun d => Ok (all_ok (omap (treeFile directory) (map_to_list d))));
  entries ← lift entries;
  lift (wrap_err (fun _ => Msg "tree contains an invalid or duplicate regular file") (Sum entries)).

Definition Verify (t : fileTransaction) : M unit :=
  for_each (paths t) (fun relative =>
    actual ← snapshotManagedFile relative;
    match files t !! relative with
    | Some e => require (sameManagedVersion actual (expected e))
                  (Msg "managed file changed while upstream updates were resolving")
    | None => mret tt
    end);;
  for_each (map_to_list (directories t)) (fun '(directory, exp) =>
    actual ← snapshotDirectoryDigest directory;
    require (String.eqb actual exp)
      (Msg "managed directory changed while upstream updates were resolving")).

(** *** The transaction directory *)

Definition validTransactionID (value : string) : bool :=
  (String.length value =? transactionIDBytes * 2)%nat && str_forallb is_hex_lower value.

Definition journalPath (directory : path) : path := directory ++ ["journal.json"].
Definition candidateDirectory (directory : path) : path := directory ++ ["candidate"].
Definition backupDirectory (directory : path) : path := directory ++ ["backup"].
Definition transactionCandidate (directory : path) (index : nat) : path :=
  directory ++ ["candidate"; Pad6 index].
Definition transactionBackup (directory : path) (index : nat) : path :=
  directory ++ ["backup"; Pad6 index].

(** [if err := step(); err != nil { _ = file.Close(); return err }] *)
Definition orClose (file : path) (step : M unit) : M unit :=
  r ← catch step;
  match r with Ok _ => mret tt | Err e => ignore (close file);; fail e end.

Definition writeSyncedFile (file : path) (data : string) (mode : Z) : M unit :=
  create_excl file mode;;
  orClose file (chmod file mode);;
  orClose file (write file data);;
  orClose file (sync file);;
  close file.

(** [io.CopyBuffer] reads the source and writes the destination. *)
Definition copySyncedFile (source destination : path) (mode : Z) : M unit :=
  data ← read_file source;
  create_excl destination mode;;
  orClose destination (chmod destination mode);;
  orClose destination (write destination data);;
  orClose destination (sync destination);;
  close destination.

(** [rand.Read] fills [entropy]. *)
Definition createTransactionDirectory (entropy : string) : M path :=
  root ← wrapped "create update transaction root" (EnsureDirectory transactionRootRel 448 (* 0o700 *));
  wrapped "generate update transaction identity" (observe (fun _ => Ok tt));;
  let id := EncodeToString (byte_list entropy) in
  let directory := root ++ [id] in
  wrapped "create update transaction" (mkdir directory);;
  r ← catch (sync_dir root);
  match r with
  | Ok _ => mret directory
  | Err e => ignore (remove directory);; fail e
  end.

(** The result carries [published] beside the error; [os.CreateTemp] picks the
    suffix [tmp]; the temporary file is removed on every return. *)
Definition writeTransactionJournal (directory : path) (journal : transactionJournal) (tmp : string) :
    M (bool * result goerr unit) :=
  let data := encodeJournal journal +:+ newline in
  let temporary := directory ++ [".journal-" +:+ tmp] in
  r ← catch (wrapped "create update transaction journal" (create_excl temporary 384 (* 0o600 *)));
  match r with
  | Err e => mret (false, Err e)
  | Ok _ =>
      r ← catch (
        orClose temporary (wrapped "secure update transaction journal" (chmod temporary 384));;
        orClose temporary (wrapped "write update transaction journal" (write temporary data));;
        orClose temporary (wrapped "sync update transaction journal" (sync temporary));;
        wrapped "close update transaction journal" (close temporary);;
        wrapped "publish update transaction journal" (rename temporary (journalPath directory)));
      published ← match r with
                  | Err e => mret (false, Err e)
                  | Ok _ => r ← catch (sync_dir directory); mret (true, r)
                  end;
      ignore (remove temporary);;
      mret published
  end.

Definition validMaterial (exists_ : bool) (mode : Z) (digest : string) : bool :=
  if negb exists_ then (mode =? 0)%Z && String.eqb digest ""
  else (0 <? mode)%Z && (mode <=? 511)%Z && validHexSHA256 digest.

Definition validJournalMaterial (r : transactionRecord) : bool :=
  validMaterial (OriginalExists r) (OriginalMode r) (OriginalSHA256 r) &&
  validMaterial (CandidateExists r) (CandidateMode r) (CandidateSHA256 r).

Fixpoint validRecords (records : list transactionRecord) (seen : gset string) : result goerr unit :=
  match records with
  | [] => Ok tt
  | r :: rest =>
      match Relative (RPath r) with
      | Err _ => Err (Msg "update transaction journal has invalid file record")
      | Ok clean =>
          if negb (String.eqb clean (RPath r)) || negb (validJournalMaterial r)
          then Err (Msg "update transaction journal has invalid file record")
          else if bool_decide (RPath r ∈ seen) then Err (Msg "update transaction journal repeats a path")
          else validRecords rest ({[RPath r]} ∪ seen)
      end
  end.

(** [None]: the journal does not exist *)
Definition readTransactionJournal (directory : path) : M (option transactionJournal) :=
  r ← catch (read_file (journalPath directory));
  match r with
  | Err e => if is_not_exist e then mret None else fail (Wrap "open update transaction journal" e)
  | Ok data =>
      require (str_size data <=? journalLimit)%N (Msg "update transaction journal exceeds 1048576 bytes");;
      journal ← lift (wrap_err (Wrap "decode update transaction journal") (decodeJournal data));
      require (String.eqb (SchemaVersion journal) transactionSchema && negb (length (Files journal) =? 0)%nat)
        (Msg "update transaction journal has an invalid schema or empty file set");;
      lift (validRecords (Files journal) ∅);;
      mret (Some journal)
  end.

Definition ensureManagedParent (relative : string) : M path :=
  clean ← relative_ relative;
  let parent := Dir clean in
  if String.eqb parent "." then Resolve clean true
  else EnsureDirectory parent 493 (* 0o755 *);; Resolve clean true.

(** *** Recovery *)

Definition atOriginal (v : managedVersion) (r : transactionRecord) : bool :=
  mv_exists v && (mv_mode v =? OriginalMode r)%Z && String.eqb (mv_digest v) (OriginalSHA256 r).

Definition atCandidate (v : managedVersion) (r : transactionRecord) : bool :=
  mv_exists v && CandidateExists r && (mv_mode v =? CandidateMode r)%Z
  && String.eqb (mv_digest v) (CandidateSHA256 r).

(** The branch of the backward loop for a file that existed before. *)
Definition restoreExisting (directory : path) (index : nat) (r : transactionRecord) (canonical : path) : M unit :=
  let backup := transactionBackup directory index in
  backupState ← catch (regularFileVersion backup);
  match backupState with
  | Ok backupState =>
      require ((mv_mode backupState =? OriginalMode r)%Z
               && String.eqb (mv_digest backupState) (OriginalSHA256 r))
        (Msg "update transaction backup does not match its journal");;
      current ← snapshotManagedFile (RPath r);
      if atOriginal current r then mret tt
      else
        let candidatePresent := atCandidate current r in
        let candidateDeleted := negb (mv_exists current) && negb (CandidateExists r) in
        require (candidatePresent || candidateDeleted)
          (Msg "managed file changed after an interrupted update; refusing to overwrite it during recovery");;
        wrapped "restore managed file" (rename backup canonical)
  | Err e =>
      if is_not_exist e then
        state ← catch (snapshotManagedFile (RPath r));
        match state with
        | Ok state => require (atOriginal state r)
                        (Msg "managed file cannot be proven restored after interrupted update")
        | Err _ => fail (Msg "managed file cannot be proven restored after interrupted update")
        end
      else fail e
  end.

(** The branch for a file the update created. *)
Definition dropNew (r : transactionRecord) (canonical : path) : M unit :=
  state ← snapshotManagedFile (RPath r);
  if mv_exists state then
    require (atCandidate state r) (Msg "new managed file changed before rollback");;
    wrapped "remove new managed file during rollback" (remove canonical)
  else mret tt.

(** The body of the backward loop for the record at [index]; it returns the
    directory to synchronise. *)
Definition recoverRecord (directory : path) (index : nat) (r : transactionRecord) : M path :=
  canonical ← ensureManagedParent (RPath r);
  (if OriginalExists r then restoreExisting directory index r canonical else dropNew r canonical);;
  mret (parent canonical).

(** The records from the last to the first. *)
Fixpoint recoverLoop (directory : path) (indexed : list (nat * transactionRecord)) (dirs : pathset) :
    M (pathset) :=
  match indexed with
  | [] => mret dirs
  | (index, r) :: rest =>
      dir ← recoverRecord directory index r;
      recoverLoop directory rest ({[dir]} ∪ dirs)
  end.

Definition indexed {A} (l : list A) : list (nat * A) := imap pair l.

Definition recoverPreparedTransaction (directory : path) (journal : transactionJournal) : M unit :=
  dirs ← recoverLoop directory (rev (indexed (Files journal))) ∅;
  for_each (elements dirs) sync_dir.

Definition verifyCommittedTransaction (journal : transactionJournal) : M unit :=
  for_each (Files journal) (fun r =>
    state ← wrapped "verify committed managed file" (snapshotManagedFile (RPath r));
    require (Bool.eqb (mv_exists state) (CandidateExists r) &&
             (negb (mv_exists state) ||
              ((mv_mode state =? CandidateMode r)%Z && String.eqb (mv_digest state) (CandidateSHA256 r))))
      (Msg "committed managed file does not match its transaction journal")).

Definition removeTransactionDirectory (root directory : path) : M unit :=
  require (bool_decide (parent directory = root) && validTransactionID (List.last directory ""))
    (Msg "refuse to remove invalid update transaction path");;
  wrapped "remove update transaction" (remove_all directory);;
  sync_dir root.

Definition recoverEntry (entry : string * node) : M unit :=
  require (bool_decide (entry.2 = NDir) && validTransactionID entry.1)
    (Msg "unexpected update transaction entry");;
  let directory := transactionRoot ++ [entry.1] in
  journal ← readTransactionJournal directory;
  match journal with
  | None => removeTransactionDirectory transactionRoot directory
  | Some journal =>
      (if String.eqb (JState journal) transactionPrepared then recoverPreparedTransaction directory journal
       else if String.eqb (JState journal) transactionCommitted then verifyCommittedTransaction journal
       else fail (Msg "update transaction has unsupported state"));;
      removeTransactionDirectory transactionRoot directory
  end.

Definition recoverTransactions : M bool :=
  root ← wrapped "resolve update transaction root" (Resolve transactionRootRel true);
  entries ← catch (read_dir root);
  match entries with
  | Err e => if is_not_exist e then mret false else fail (Wrap "inspect update transactions" e)
  | Ok entries =>
      for_each entries recoverEntry;;
      mret (negb (length entries =? 0)%nat)
  end.

Definition RecoverLocked : M unit := recoverTransactions;; mret tt.

(** *** Commit *)

Definition recordOf (relative : string) (e : transactionEntry) : transactionRecord :=
  {| RPath := relative;
     OriginalExists := mv_exists (expected e);
     OriginalMode := mv_mode (expected e);
     OriginalSHA256 := mv_digest (expected e);
     CandidateExists := mv_exists (candidate e);
     CandidateMode := mv_mode (candidate e);
     CandidateSHA256 := mv_digest (candidate e) |}.

Definition emptyEntry : transactionEntry :=
  {| expected := absentVersion; candidate := absentVersion |}.

Definition entryOf (t : fileTransaction) (relative : string) : transactionEntry :=
  default emptyEntry (files t !! relative).

(** The body of the staging loop for the changed file at [index]. *)
Definition stageFile (t : fileTransaction) (directory : path) (index : nat) (relative : string) : M unit :=
  let entry := entryOf t relative in
  (if mv_exists (candidate entry) then
     wrapped "stage managed file"
       (writeSyncedFile (transactionCandidate directory index)
          (default "" (mv_data (candidate entry))) (mv_mode (candidate entry)))
   else mret tt);;
  if mv_exists (expected entry) then
    canonical ← Resolve relative false;
    wrapped "backup managed file"
      (copySyncedFile canonical (transactionBackup directory index) (mv_mode (expected entry)));;
    backup ← wrapped "verify backup managed file"
      (snapshotAbsoluteFile (transactionBackup directory index));
    require (sameManagedVersion backup (expected entry))
      (Msg "backup managed file does not match its expected state")
  else mret tt.

Definition preparedJournal (t : fileTransaction) (changed : list string) : transactionJournal :=
  {| SchemaVersion := transactionSchema;
     JState := transactionPrepared;
     Files := (fun relative => recordOf relative (entryOf t relative)) <$> changed |}.

Definition withState (state : string) (j : transactionJournal) : transactionJournal :=
  {| SchemaVersion := SchemaVersion j; JState := state; Files := Files j |}.

(** From the creation of the candidate directory to the prepared journal. *)
Definition stageAll (t : fileTransaction) (changed : list string) (directory : path) (tmp : string) : M unit :=
  for_each [candidateDirectory directory; backupDirectory directory]
    (fun p => wrapped "create update transaction" (mkdir p));;
  for_each (indexed changed) (fun '(index, relative) => stageFile t directory index relative);;
  for_each [candidateDirectory directory; backupDirectory directory] sync_dir;;
  Verify t;;
  written ← writeTransactionJournal directory (preparedJournal t changed) tmp;
  lift written.2.

(** The body of the replacement loop. *)
Definition applyRecord (directory : path) (index : nat) (r : transactionRecord) : M unit :=
  canonical ← wrapped "prepare managed file" (ensureManagedParent (RPath r));
  wrapped "replace managed file"
    (if CandidateExists r then rename (transactionCandidate directory index) canonical
     else remove canonical);;
  sync_dir (parent canonical).

Definition rollbackTransaction (directory : path) (journal : transactionJournal) (cause : goerr) : M goerr :=
  r ← catch (recoverPreparedTransaction directory (withState transactionPrepared journal));
  match r with
  | Ok _ => mret cause
  | Err rollbackErr => mret (Joined cause rollbackErr)
  end.

(** The part of [Commit] under the deferred removal of the transaction
    directory: its error and the final value of [removeDirectory]. *)
Definition commitIn (t : fileTransaction) (changed : list string) (directory : path) (tmp1 tmp2 : string) :
    M (result goerr unit * bool) :=
  staged ← catch (stageAll t changed directory tmp1);
  match staged with
  | Err e => mret (Err e, true)
  | Ok _ =>
      let journal := preparedJournal t changed in
      applied ← catch (for_each (indexed (Files journal))
                         (fun '(index, r) => applyRecord directory index r));
      match applied with
      | Err cause =>
          e ← rollbackTransaction directory journal cause;
          mret (Err e, true)
      | Ok _ =>
          written ← writeTransactionJournal directory (withState transactionCommitted journal) tmp2;
          match written with
          | (true, Err e) => mret (Err e, false)
          | (false, Err e) =>
              e ← rollbackTransaction directory journal e;
              mret (Err e, true)
          | (_, Ok _) =>
              removed ← catch (removeTransactionDirectory transactionRoot directory);
              mret (removed, false)
          end
      end
  end.

(** [entropy], [tmp1] and [tmp2] are the random identities the run draws. *)
Definition Commit (t : fileTransaction) (entropy tmp1 tmp2 : string) : M unit :=
  recovered ← recoverTransactions;
  require (negb recovered)
    (Msg "an interrupted update was recovered after candidate resolution; retry the update");;
  let changed := Changed t in
  Verify t;;
  if (length changed =? 0)%nat then mret tt
  else
    directory ← createTransactionDirectory entropy;
    result ← commitIn t changed directory tmp1 tmp2;
    (if result.2 : bool then ignore (remove_all directory) else mret tt);;
    lift result.1.
End Programs.
End Transaction.
