(* ===== verification/Json.v ===== *)
(** Go's [encoding/json] as far as the journal of the update transaction uses
    it: [MarshalIndent] with two spaces, a [Decoder] for one document with
    unknown fields refused, and the round trip between them.  Bytes above 0x7f
    pass through unchanged, which is what the package does with valid UTF-8
    other than U+2028 and U+2029. *)
From stdpp Require Import prelude gmap strings list sorting.
From Stdlib Require Import Ascii ZArith Lia.
From S2P Require Import Prelude GoStrings Fs Treehash Transaction.

Module Json.
Import Fs Treehash Transaction.

(** A document; a number is kept as its literal. *)
#[warnings="-register-all"]
Inductive value :=
  | JNull
  | JBool (b : bool)
  | JNum (literal : string)
  | JStr (s : string)
  | JArr (l : list value)
  | JObj (l : list (string * value)).

(** ** Encoding *)

Definition qchar : ascii := "034".
Definition dquote : string := String qchar "".

Definition hex_char (n : N) : ascii := ascii_of_N (if (n <? 10)%N then 48 + n else 87 + n)%N.

(** The escapes of the encoder, HTML-safe as the default is *)
Definition quote_char (c : ascii) : string :=
  if Ascii.eqb c qchar then String "\" dquote else
  if Ascii.eqb c "\" then "\\" else
  if Ascii.eqb c "008" then "\b" else
  if Ascii.eqb c "012" then "\f" else
  if Ascii.eqb c "010" then "\n" else
  if Ascii.eqb c "013" then "\r" else
  if Ascii.eqb c "009" then "\t" else
  if (byte_of c <? 32)%N || Ascii.eqb c "<" || Ascii.eqb c ">" || Ascii.eqb c "&" then
    "\u00" +:+ String (hex_char (byte_of c / 16)%N) (String (hex_char (byte_of c mod 16)%N) "")
  else String c "".

Fixpoint quote_body (s : string) : string :=
  match s with "" => "" | String c s' => quote_char c +:+ quote_body s' end.

Definition quote (s : string) : string := dquote +:+ quote_body s +:+ dquote.

Fixpoint indent (depth : nat) : string :=
  match depth with O => "" | S n => "  " +:+ indent n end.

Definition line (depth : nat) : string := newline +:+ indent depth.

(** [item, item, ...] each on a line of its own *)
Fixpoint print_items (depth : nat) (items : list string) : string :=
  match items with
  | [] => ""
  | [x] => line depth +:+ x
  | x :: rest => line depth +:+ x +:+ "," +:+ print_items depth rest
  end.

Fixpoint print (depth : nat) (v : value) : string :=
  match v with
  | JNull => "null"
  | JBool b => if b then "true" else "false"
  | JNum literal => literal
  | JStr s => quote s
  | JArr [] => "[]"
  | JArr l => "[" +:+ print_items (S depth) (map (print (S depth)) l) +:+ line depth +:+ "]"
  | JObj [] => "{}"
  | JObj l =>
      "{" +:+ print_items (S depth) (map (fun kv => quote kv.1 +:+ ": " +:+ print (S depth) kv.2) l)
      +:+ line depth +:+ "}"
  end.

(** ** Decoding *)

Definition is_ws (c : ascii) : bool :=
  Ascii.eqb c " " || Ascii.eqb c "009" || Ascii.eqb c "010" || Ascii.eqb c "013".

Fixpoint skip_ws (s : string) : string :=
  match s with String c s' => if is_ws c then skip_ws s' else s | "" => "" end.

Definition hex_value (c : ascii) : option N :=
  if is_digit c then Some (byte_of c - 48)%N
  else if in_range "a" "f" c then Some (byte_of c - 87)%N
  else if in_range "A" "F" c then Some (byte_of c - 55)%N
  else None.

Definition hex4 (a b c d : ascii) : option N :=
  a ← hex_value a; b ← hex_value b; c ← hex_value c; d ← hex_value d;
  Some (((a * 16 + b) * 16 + c) * 16 + d)%N.

Definition utf8 (r : N) : string :=
  let cont n := ascii_of_N (128 + n mod 64)%N in
  if (r <? 128)%N then String (ascii_of_N r) ""
  else if (r <? 2048)%N then String (ascii_of_N (192 + r / 64)%N) (String (cont r) "")
  else if (r <? 65536)%N then
    String (ascii_of_N (224 + r / 4096)%N) (String (cont (r / 64)%N) (String (cont r) ""))
  else String (ascii_of_N (240 + r / 262144)%N)
         (String (cont (r / 4096)%N) (String (cont (r / 64)%N) (String (cont r) ""))).

Definition surrogate (r : N) : bool := ((55296 <=? r) && (r <? 57344))%N.

Definition simple_escape (c : ascii) : option ascii :=
  if Ascii.eqb c qchar then Some c else
  if Ascii.eqb c "\" then Some c else
  if Ascii.eqb c "/" then Some c else
  if Ascii.eqb c "b" then Some "008"%char else
  if Ascii.eqb c "f" then Some "012"%char else
  if Ascii.eqb c "n" then Some "010"%char else
  if Ascii.eqb c "r" then Some "013"%char else
  if Ascii.eqb c "t" then Some "009"%char else None.

Definition prepend (p : string) (r : option (string * string)) : option (string * string) :=
  '(s, rest) ← r; Some (p +:+ s, rest).

(** The rest of a string literal after its opening quote *)
Fixpoint parse_chars (s : string) : option (string * string) :=
  match s with
  | "" => None
  | String c r =>
      if Ascii.eqb c qchar then Some ("", r)
      else if (byte_of c <? 32)%N then None
      else if Ascii.eqb c "\" then
        match r with
        | "" => None
        | String e r =>
            match simple_escape e with
            | Some x => prepend (String x "") (parse_chars r)
            | None =>
                if Ascii.eqb e "u" then
                  match r with
                  | String h1 (String h2 (String h3 (String h4 r))) =>
                      match hex4 h1 h2 h3 h4 with
                      | None => None
                      | Some rune =>
                          if surrogate rune then
                            match r with
                            | String b (String u (String l1 (String l2 (String l3 (String l4 r'))))) =>
                                match Ascii.eqb b "\" && Ascii.eqb u "u" && (rune <? 56320)%N, hex4 l1 l2 l3 l4 with
                                | true, Some low =>
                                    if ((56320 <=? low) && (low <? 57344))%N then
                                      prepend (utf8 (65536 + (rune - 55296) * 1024 + (low - 56320))%N) (parse_chars r')
                                    else prepend (utf8 65533%N) (parse_chars r)
                                | _, _ => prepend (utf8 65533%N) (parse_chars r)
                                end
                            | _ => prepend (utf8 65533%N) (parse_chars r)
                            end
                          else prepend (utf8 rune) (parse_chars r)
                      end
                  | _ => None
                  end
                else None
            end
        end
      else prepend (String c "") (parse_chars r)
  end.

(** The longest prefix of digits *)
Fixpoint span_digits (s : string) : string * string :=
  match s with
  | String c r => if is_digit c then let '(d, rest) := span_digits r in (String c d, rest) else ("", s)
  | "" => ("", "")
  end.

Definition digits1 (s : string) : option (string * string) :=
  match span_digits s with ("", _) => None | p => Some p end.

(** A number literal: sign, integer without leading zeros, fraction, exponent *)
Definition parse_int (s : string) : option (string * string) :=
  match s with String "0" r => Some ("0", r) | _ => digits1 s end.

Definition parse_fraction (s : string) : option (string * string) :=
  match s with
  | String "." r => '(d, r) ← digits1 r; Some ("." +:+ d, r)
  | _ => Some ("", s)
  end.

Definition parse_exponent (s : string) : option (string * string) :=
  match s with
  | String e r =>
      if Ascii.eqb e "e" || Ascii.eqb e "E" then
        let '(sg, r) := match r with
                        | String "+" r' => ("+", r') | String "-" r' => ("-", r') | _ => ("", r)
                        end in
        '(d, r) ← digits1 r; Some (String e "" +:+ sg +:+ d, r)
      else Some ("", s)
  | "" => Some ("", "")
  end.

Definition parse_number (s : string) : option (string * string) :=
  let '(sign, s) := match s with String "-" r => ("-", r) | _ => ("", s) end in
  '(int, s) ← parse_int s; '(frac, s) ← parse_fraction s; '(exp, s) ← parse_exponent s;
  Some (sign +:+ int +:+ frac +:+ exp, s).

(** [,] continues, [close] ends *)
Fixpoint parse_value (fuel : nat) (s : string) {struct fuel} : option (value * string) :=
  match fuel with
  | O => None
  | S fuel =>
      let s := skip_ws s in
      if HasPrefix s "null" then Some (JNull, str_drop 4 s)
      else if HasPrefix s "true" then Some (JBool true, str_drop 4 s)
      else if HasPrefix s "false" then Some (JBool false, str_drop 5 s)
      else
        match s with
        | "" => None
        | String c r =>
            if Ascii.eqb c qchar then '(v, r) ← parse_chars r; Some (JStr v, r)
            else if Ascii.eqb c "[" then
              match skip_ws r with
              | String "]" r => Some (JArr [], r)
              | _ => '(l, r) ← parse_elements fuel r; Some (JArr l, r)
              end
            else if Ascii.eqb c "{" then
              match skip_ws r with
              | String "}" r => Some (JObj [], r)
              | _ => '(l, r) ← parse_members fuel r; Some (JObj l, r)
              end
            else '(n, r) ← parse_number s; Some (JNum n, r)
        end
  end
with parse_elements (fuel : nat) (s : string) {struct fuel} : option (list value * string) :=
  match fuel with
  | O => None
  | S fuel =>
      '(v, r) ← parse_value fuel s;
      match skip_ws r with
      | String c r =>
          if Ascii.eqb c "]" then Some ([v], r)
          else if Ascii.eqb c "," then '(l, r) ← parse_elements fuel r; Some (v :: l, r)
          else None
      | "" => None
      end
  end
with parse_members (fuel : nat) (s : string) {struct fuel} : option (list (string * value) * string) :=
  match fuel with
  | O => None
  | S fuel =>
      match skip_ws s with
      | String q r =>
          if Ascii.eqb q qchar then
            '(k, r) ← parse_chars r;
            match skip_ws r with
            | String c r =>
                if Ascii.eqb c ":" then
                  '(v, r) ← parse_value fuel r;
                  match skip_ws r with
                  | String c r =>
                      if Ascii.eqb c "}" then Some ([(k, v)], r)
                      else if Ascii.eqb c "," then '(l, r) ← parse_members fuel r; Some ((k, v) :: l, r)
                      else None
                  | "" => None
                  end
                else None
            | "" => None
            end
          else None
      | "" => None
      end
  end.

(** One document and nothing but white space after it; every call consumes
    a byte or closes a bracket, so the length bounds the recursion. *)
Definition parse_document (s : string) : option value :=
  '(v, rest) ← parse_value (S (2 * String.length s)) s;
  if String.eqb (skip_ws rest) "" then Some v else None.

Example json_parse : parse_document (String "{" (dquote +:+ "a\u0041" +:+ dquote +:+ ": [1, -2.5e3, null, {}]} ")) =
  Some (JObj [("aA", JArr [JNum "1"; JNum "-2.5e3"; JNull; JObj []])]).
Proof. vm_compute. reflexivity. Qed.

(** ** What is printed is read back *)

Definition value_ind' (P : value -> Prop) (Hnull : P JNull) (Hbool : forall b, P (JBool b))
    (Hnum : forall n, P (JNum n)) (Hstr : forall s, P (JStr s))
    (Harr : forall l, Forall P l -> P (JArr l)) (Hobj : forall l, Forall (fun kv => P kv.2) l -> P (JObj l)) :
    forall v, P v :=
  fix go v :=
    match v with
    | JNull => Hnull
    | JBool b => Hbool b
    | JNum n => Hnum n
    | JStr s => Hstr s
    | JArr l => Harr l ((fix all l : Forall P l :=
        match l with [] => Forall_nil_2 P | x :: l => Forall_cons_2 P x l (go x) (all l) end) l)
    | JObj l => Hobj l ((fix all (l : list (string * value)) : Forall (fun kv => P kv.2) l :=
        match l with
        | [] => Forall_nil_2 _
        | x :: l => Forall_cons_2 (fun kv : string * value => P kv.2) x l (go x.2) (all l)
        end) l)
    end.

Lemma quote_char_parses c s : parse_chars (quote_char c +:+ s) = prepend (String c "") (parse_chars s).
Proof. destruct c as [[] [] [] [] [] [] [] []]; reflexivity. Qed.

Lemma quote_body_parses s rest : parse_chars (quote_body s +:+ dquote +:+ rest) = Some (s, rest).
Proof.
  induction s as [|c s IH]; [done|]. simpl quote_body.
  rewrite str_append_assoc, quote_char_parses, IH. done.
Qed.

Lemma skip_ws_indent d s : skip_ws (indent d +:+ s) = skip_ws s.
Proof. induction d as [|d IH]; [done|]. exact IH. Qed.

Lemma skip_ws_line d s : skip_ws (line d +:+ s) = skip_ws s.
Proof. unfold line, newline. rewrite str_append_assoc, !str_append_cons. exact (skip_ws_indent d s). Qed.

Lemma parse_value_line fuel d s : parse_value fuel (line d +:+ s) = parse_value fuel s.
Proof. destruct fuel; [done|]. cbn [parse_value]. by rewrite skip_ws_line. Qed.

Lemma parse_elements_line fuel d s : parse_elements fuel (line d +:+ s) = parse_elements fuel s.
Proof. destruct fuel; [done|]. cbn [parse_elements]. by rewrite parse_value_line. Qed.

Lemma parse_members_line fuel d s : parse_members fuel (line d +:+ s) = parse_members fuel s.
Proof. destruct fuel; [done|]. cbn [parse_members]. by rewrite skip_ws_line. Qed.

(** What may follow a number *)
Definition stops (s : string) : Prop :=
  match s with
  | "" => True
  | String c _ => c = ","%char \/ c = "010"%char \/ c = "]"%char \/ c = "}"%char
  end.

(** *** Numbers *)

Lemma span_digits_app s rest :
  str_forallb is_digit s = true -> stops rest -> span_digits (s +:+ rest) = (s, rest).
Proof.
  induction s as [|c s IH]; intros Hd Hs.
  - destruct rest as [|c rest]; [done|]. by destruct Hs as [->|[->|[->| ->]]].
  - simpl in Hd. apply andb_true_iff in Hd as [Hc Hd]. rewrite str_append_cons. simpl.
    by rewrite Hc, IH.
Qed.

Lemma dec_digits_head fuel n acc : (N.to_nat (N.log2 n) < fuel)%nat -> (n <> 0)%N ->
  exists m r, (0 < m < 10)%N /\ dec_digits fuel n acc = String (digit_char m) r.
Proof.
  revert n acc. induction fuel as [|fuel IH]; intros n acc Hf Hn; [lia|]. simpl.
  destruct (N.ltb_spec n 10) as [Hlt|Hge].
  - rewrite N.mod_small by done. exists n, acc. split; [lia|done].
  - apply IH; [|pose proof (N.Div0.div_le_mono 10 n 10 Hge) as H1; change (10 / 10)%N with 1%N in H1; lia].
    pose proof (N.log2_le_mono (n / 10) (n / 2) (N.div_le_compat_l n 2 10 ltac:(lia))) as Hl.
    rewrite <- N.div2_div, N.div2_spec, N.log2_shiftr in Hl.
    pose proof (N.log2_le_mono 2 n ltac:(lia)) as H2. change (N.log2 2) with 1%N in H2. lia.
Qed.

Lemma dec_digits_digits fuel n acc :
  str_forallb is_digit acc = true -> str_forallb is_digit (dec_digits fuel n acc) = true.
Proof.
  revert n acc. induction fuel as [|fuel IH]; intros n acc Ha; [done|]. simpl.
  destruct (digit_char_value (n mod 10)) as [Hd _]; [apply N.mod_lt; lia|].
  destruct (n <? 10)%N; [|apply IH]; simpl; by rewrite Hd.
Qed.

Lemma ItoaN_digits n : str_forallb is_digit (ItoaN n) = true.
Proof. by apply dec_digits_digits. Qed.

(** Zero or a number without leading zeros *)
Lemma ItoaN_head n : ItoaN n = "0" \/
  exists c r, ItoaN n = String c r /\ is_digit c = true /\ c <> "0"%char.
Proof.
  destruct (decide (n = 0%N)) as [->|Hn]; [by left|right]. unfold ItoaN.
  destruct (dec_digits_head (S (N.to_nat (N.log2 n))) n "") as (m & r & Hm & ->); [lia|done|].
  exists (digit_char m), r. split; [done|]. destruct (digit_char_value m) as [Hd Hb]; [lia|]. split; [done|].
  intros Heq. rewrite Heq in Hb. change (byte_of "0") with 48%N in Hb. lia.
Qed.

Lemma parse_number_tail rest : stops rest ->
  parse_fraction rest = Some ("", rest) /\ parse_exponent rest = Some ("", rest).
Proof. destruct rest as [|c rest]; [done|]. by intros [->|[->|[->| ->]]]. Qed.

Lemma parse_number_ItoaN n rest : stops rest -> parse_number (ItoaN n +:+ rest) = Some (ItoaN n, rest).
Proof.
  intros Hs. destruct (parse_number_tail rest Hs) as [Hf He].
  assert (parse_int (ItoaN n +:+ rest) = Some (ItoaN n, rest) /\
    forall r, ItoaN n +:+ rest <> String "-" r) as [Hi Hminus].
  { destruct (ItoaN_head n) as [Hz|(c & r & Hc & Hd & Hnz)].
    - rewrite Hz. split; [done|]. by intros r.
    - pose proof (span_digits_app _ rest (ItoaN_digits n) Hs) as Hsp. rewrite Hc in *.
      rewrite str_append_cons in *. split.
      + unfold parse_int, digits1. rewrite Hsp. by destruct c as [[] [] [] [] [] [] [] []].
      + intros r' [= -> _]. done. }
  unfold parse_number. destruct (ItoaN n +:+ rest) as [|c s] eqn:Hs'; [done|].
  assert (match String c s with String "-" r => ("-", r) | _ => ("", String c s) end = ("", String c s)) as ->.
  { destruct (Ascii.eqb_spec c "-") as [->|Hc]; [by destruct (Hminus s)|].
    by destruct c as [[] [] [] [] [] [] [] []]. }
  rewrite Hi. simpl. rewrite Hf. simpl. rewrite He. simpl. by rewrite str_append_nil_l, !str_append_nil_r.
Qed.

(** *** Documents *)

(** Only decimal numbers are printed by the encoder of this program. *)
Fixpoint printed (v : value) : Prop :=
  match v with
  | JNum literal => exists n, literal = ItoaN n
  | JArr l => (fix all l := match l with [] => True | x :: l => printed x /\ all l end) l
  | JObj l => (fix all (l : list (string * value)) :=
                 match l with [] => True | x :: l => printed x.2 /\ all l end) l
  | _ => True
  end.

Lemma printed_arr l : printed (JArr l) <-> Forall printed l.
Proof. induction l as [|x l IH]; [by split|]. rewrite Forall_cons, <- IH. done. Qed.

Lemma printed_obj l : printed (JObj l) <-> Forall (fun kv => printed kv.2) l.
Proof. induction l as [|x l IH]; [by split|]. rewrite Forall_cons, <- IH. done. Qed.

(** The recursion depth the parser needs *)
Fixpoint weight (v : value) : nat :=
  match v with
  | JArr l => S (list_sum (map (fun x => S (weight x)) l))
  | JObj l => S (list_sum (map (fun kv => S (weight kv.2)) l))
  | _ => 1
  end.

Lemma print_items_cons d x l : l <> [] ->
  print_items d (x :: l) = line d +:+ x +:+ "," +:+ print_items d l.
Proof. by destruct l. Qed.

Lemma stops_line d s : stops (line d +:+ s).
Proof. right. by left. Qed.

Definition reads_back (v : value) : Prop :=
  forall fuel d rest, (weight v <= fuel)%nat -> printed v -> stops rest ->
    parse_value fuel (print d v +:+ rest) = Some (v, rest).

Lemma elements_read_back l : l <> [] -> Forall reads_back l -> Forall printed l ->
  forall fuel d d' rest, (list_sum (map (fun x => S (weight x)) l) <= fuel)%nat ->
  parse_elements fuel (print_items d (map (print d) l) +:+ line d' +:+ "]" +:+ rest) = Some (l, rest).
Proof.
  intros Hne Hl. induction Hl as [|v l Hv Hl IH]; [done|].
  intros [Hpv Hpl]%Forall_cons fuel d d' rest Hf. simpl in Hf. destruct fuel as [|fuel]; [lia|].
  destruct (decide (l = [])) as [->|Hl0].
  - simpl print_items. rewrite str_append_assoc, parse_elements_line. cbn [parse_elements].
    rewrite Hv; [|simpl in Hf; lia|done|apply stops_line].
    unfold mbind, option_bind. cbv beta iota. by rewrite skip_ws_line.
  - cbn [map]. rewrite print_items_cons by (by destruct l).
    rewrite !str_append_assoc, parse_elements_line. cbn [parse_elements].
    rewrite Hv; [|lia|done|by left]. unfold mbind, option_bind. cbv beta iota.
    change (skip_ws ("," +:+ ?x)) with (String "," x). cbv beta iota.
    change (Ascii.eqb "," _) with false at 1. change (Ascii.eqb "," ",") with true. cbv iota.
    rewrite IH; [done|done|done|lia].
Qed.

Lemma members_read_back l : l <> [] -> Forall (fun kv => reads_back kv.2) l ->
  Forall (fun kv => printed kv.2) l ->
  forall fuel d d' rest, (list_sum (map (fun kv => S (weight kv.2)) l) <= fuel)%nat ->
  parse_members fuel (print_items d (map (fun kv => quote kv.1 +:+ ": " +:+ print d kv.2) l)
                      +:+ line d' +:+ "}" +:+ rest) = Some (l, rest).
Proof.
  intros Hne Hl. induction Hl as [|[k v] l Hv Hl IH]; [done|].
  intros [Hpv Hpl]%Forall_cons fuel d d' rest Hf. simpl in Hf, Hpv, Hv. destruct fuel as [|fuel]; [lia|].
  assert (forall s, parse_members (S fuel) ((quote k +:+ ": " +:+ print d v) +:+ s) =
    '(v, r) ← parse_value fuel (print d v +:+ s);
    match skip_ws r with
    | String c r =>
        if Ascii.eqb c "}" then Some ([(k, v)], r)
        else if Ascii.eqb c "," then '(l, r) ← parse_members fuel r; Some ((k, v) :: l, r)
        else None
    | "" => None
    end) as Hkey.
  { intros s. unfold quote. rewrite !str_append_assoc. cbn [parse_members].
    change (skip_ws (dquote +:+ ?x)) with (String qchar x). cbv iota. rewrite Ascii.eqb_refl.
    rewrite quote_body_parses. simpl. rewrite !str_append_cons, str_append_nil_l. simpl.
    change (String " " (print d v +:+ s)) with (indent 0 +:+ String " " (print d v +:+ s)).
    by destruct fuel. }
  destruct (decide (l = [])) as [->|Hl0].
  - cbn [map print_items fst snd]. rewrite (str_append_assoc (line d)), parse_members_line, Hkey.
    rewrite Hv; [|simpl in Hf; lia|done|apply stops_line].
    unfold mbind, option_bind. cbv beta iota. by rewrite skip_ws_line.
  - cbn [map fst snd]. rewrite print_items_cons by (by destruct l).
    rewrite (str_append_assoc (line d)), parse_members_line, (str_append_assoc (quote k +:+ _)), (str_append_assoc ","), Hkey.
    rewrite Hv; [|lia|done|by left]. unfold mbind, option_bind. cbv beta iota.
    change (skip_ws ("," +:+ ?x)) with (String "," x). cbv beta iota.
    change (Ascii.eqb "," _) with false at 1. change (Ascii.eqb "," ",") with true. cbv iota. rewrite ?str_append_assoc.
    rewrite IH; [done|done|done|lia].
Qed.

Lemma HasPrefix_append p s : HasPrefix (p +:+ s) p = true.
Proof. apply HasPrefix_true. by exists s. Qed.

(** The first byte of a printed value *)
Lemma print_head d v : printed v ->
  exists c r, print d v = String c r /\ is_ws c = false /\ c <> "]"%char /\
    (forall n, v = JNum n -> is_digit c = true).
Proof.
  destruct v as [|b|n|s|l|l]; intros Hp.
  - by eexists _, _.
  - destruct b; by eexists _, _.
  - destruct Hp as [n' ->]. cbn [print].
    assert (exists c r, ItoaN n' = String c r /\ is_digit c = true) as (c & r & -> & Hd).
    { destruct (ItoaN_head n') as [->|(c & r & -> & Hd & _)]; [by exists "0"%char, ""|eauto]. }
    exists c, r. split; [done|]. split_and!; [| |done];
      destruct c as [[] [] [] [] [] [] [] []]; try done; exfalso; vm_compute in Hd; discriminate Hd.
  - by eexists qchar, _.
  - destruct l; by eexists "["%char, _.
  - destruct l; by eexists "{"%char, _.
Qed.

Lemma print_items_head d x l : exists y, print_items d (x :: l) = line d +:+ x +:+ y.
Proof. destruct l; eexists; [by rewrite str_append_nil_r|reflexivity]. Qed.

Lemma print_reads_back v : reads_back v.
Proof.
  induction v as [|b|n|s|l IH|l IH] using value_ind'; intros fuel d rest Hf Hp Hs;
    (destruct fuel as [|fuel]; [simpl in Hf; lia|]).
  - cbn [parse_value print]. change (skip_ws ("null" +:+ rest)) with ("null" +:+ rest). by rewrite HasPrefix_append.
  - cbn [parse_value print]. destruct b.
    + change (skip_ws ("true" +:+ rest)) with ("true" +:+ rest). by rewrite HasPrefix_append.
    + change (skip_ws ("false" +:+ rest)) with ("false" +:+ rest). by rewrite HasPrefix_append.
  - pose proof Hp as [n' ->]. pose proof (parse_number_ItoaN n' rest Hs) as Hn.
    destruct (print_head d (JNum (ItoaN n')) Hp) as (c & r & Hc & Hw & _ & Hd). specialize (Hd _ eq_refl).
    cbn [print] in Hc |- *. rewrite Hc, str_append_cons in *. cbn [parse_value].
    assert (skip_ws (String c (r +:+ rest)) = String c (r +:+ rest)) as -> by (simpl; by rewrite Hw).
    assert (Ascii.eqb c "n" = false /\ Ascii.eqb c "t" = false /\ Ascii.eqb c "f" = false /\
      Ascii.eqb c qchar = false /\ Ascii.eqb c "[" = false /\ Ascii.eqb c "{" = false)
      as (H1 & H2 & H3 & -> & -> & ->).
    { clear Hn Hc Hw. destruct c as [[] [] [] [] [] [] [] []];
        try (exfalso; vm_compute in Hd; discriminate Hd); split_and!; reflexivity. }
    assert (forall x p, Ascii.eqb c x = false -> HasPrefix (String c (r +:+ rest)) (String x p) = false) as Hno.
    { intros x p Hx. unfold HasPrefix. cbn [String.prefix]. destruct (ascii_dec x c) as [->|]; [|done].
      by rewrite Ascii.eqb_refl in Hx. }
    rewrite !Hno by done. by rewrite Hn.
  - cbn [print]. unfold quote. rewrite !str_append_assoc. cbn [parse_value].
    change (skip_ws (dquote +:+ ?x)) with (String qchar x).
    change (HasPrefix (String qchar _) _) with false. cbv beta iota. rewrite Ascii.eqb_refl.
    by rewrite quote_body_parses.
  - destruct l as [|x l]; [done|]. apply printed_arr in Hp. cbn [weight] in Hf.
    pose proof (elements_read_back (x :: l) ltac:(done) IH Hp fuel (S d) d rest ltac:(lia)) as He.
    cbn [print]. rewrite !str_append_assoc. cbn [map] in *.
    destruct (print_items_head (S d) (print (S d) x) (map (print (S d)) l)) as [y Hy].
    destruct (print_head (S d) x) as (c & r & Hc & Hw & Hb & _); [by inversion Hp|].
    change ("[" +:+ ?z) with (String "[" z). cbn [parse_value].
    change (skip_ws (String "[" ?z)) with (String "[" z).
    change (HasPrefix (String "[" _) _) with false. cbv beta iota.
    change (Ascii.eqb "[" qchar) with false. change (Ascii.eqb "[" "[") with true. cbv iota. rewrite He.
    rewrite Hy, !str_append_assoc, skip_ws_line, Hc, str_append_cons.
    cbn [skip_ws]. rewrite Hw. destruct c as [[] [] [] [] [] [] [] []]; try done; by destruct Hb.
  - destruct l as [|x l]; [done|]. apply printed_obj in Hp. cbn [weight] in Hf.
    pose proof (members_read_back (x :: l) ltac:(done) IH Hp fuel (S d) d rest ltac:(lia)) as He.
    cbn [print]. rewrite !str_append_assoc. cbn [map] in *.
    destruct (print_items_head (S d) (quote x.1 +:+ ": " +:+ print (S d) x.2)
      (map (fun kv => quote kv.1 +:+ ": " +:+ print (S d) kv.2) l)) as [y Hy].
    change ("{" +:+ ?z) with (String "{" z). cbn [parse_value].
    change (skip_ws (String "{" ?z)) with (String "{" z).
    change (HasPrefix (String "{" _) _) with false. cbv beta iota.
    change (Ascii.eqb "{" qchar) with false. change (Ascii.eqb "{" "[") with false.
    change (Ascii.eqb "{" "{") with true. cbv iota. rewrite He.
    unfold quote in Hy |- *. rewrite Hy, !str_append_assoc, skip_ws_line. done.
Qed.

(** *** The recursion bound of [parse_document] is enough *)

Lemma length_print_items d items :
  (list_sum (map (fun x => S (String.length x)) items) <= String.length (print_items d items))%nat.
Proof.
  induction items as [|x items IH]; [done|]. destruct (decide (items = [])) as [->|Hne].
  - simpl. rewrite !str_length_append. simpl. lia.
  - rewrite print_items_cons by done. cbn [map list_sum foldr]. unfold list_sum in IH.
    rewrite !str_length_append. change (String.length ",") with 1%nat. lia.
Qed.

Lemma weight_le_length v : printed v -> forall d, (weight v <= String.length (print d v))%nat.
Proof.
  induction v as [|b|n|s|l IH|l IH] using value_ind'; intros Hp d; cbn [weight].
  - simpl. lia.
  - destruct b; simpl; lia.
  - destruct (print_head d (JNum n) Hp) as (c & r & -> & _). simpl. lia.
  - cbn [print]. unfold quote. rewrite str_length_append. simpl. lia.
  - destruct l as [|x l]; [simpl; lia|]. apply printed_arr in Hp. cbn [print].
    rewrite !str_length_append. pose proof (length_print_items (S d) (map (print (S d)) (x :: l))) as Hl.
    enough (list_sum (map (fun x => S (weight x)) (x :: l)) <=
            list_sum (map (fun x => S (String.length x)) (map (print (S d)) (x :: l))))%nat.
    { simpl String.length at 1. lia. }
    clear Hl. revert Hp IH. generalize (x :: l) as xs. induction xs as [|y ys IHl]; [done|].
    intros [Hy Hys]%Forall_cons [Wy Wys]%Forall_cons. simpl. specialize (Wy Hy (S d)).
    specialize (IHl Hys Wys). lia.
  - destruct l as [|x l]; [simpl; lia|]. apply printed_obj in Hp. cbn [print].
    rewrite !str_length_append.
    pose proof (length_print_items (S d) (map (fun kv => quote kv.1 +:+ ": " +:+ print (S d) kv.2) (x :: l))) as Hl.
    enough (list_sum (map (fun kv => S (weight kv.2)) (x :: l)) <=
            list_sum (map (fun x => S (String.length x))
              (map (fun kv => quote kv.1 +:+ ": " +:+ print (S d) kv.2) (x :: l))))%nat.
    { simpl String.length at 1. lia. }
    clear Hl. revert Hp IH. generalize (x :: l) as xs. induction xs as [|y ys IHl]; [done|].
    intros [Hy Hys]%Forall_cons [Wy Wys]%Forall_cons. specialize (Wy Hy (S d)).
    specialize (IHl Hys Wys). cbn [map list_sum foldr]. unfold list_sum in IHl. rewrite !str_length_append. lia.
Qed.

Lemma parse_document_print v : printed v -> parse_document (print 0 v +:+ newline) = Some v.
Proof.
  intros Hp. unfold parse_document. pose proof (weight_le_length v Hp 0).
  rewrite (print_reads_back v); [done| |done|by right; left].
  rewrite str_length_append. lia.
Qed.

(** ** The journal as a document *)

(** A field tagged [omitempty] is left out when it is zero. *)
Definition opt_num (key : string) (mode : Z) : list (string * value) :=
  if (mode =? 0)%Z then [] else [(key, JNum (ItoaN (Z.to_N mode)))].
Definition opt_str (key s : string) : list (string * value) :=
  if String.eqb s "" then [] else [(key, JStr s)].

Definition recordValue (r : transactionRecord) : value :=
  JObj ([("path", JStr (RPath r)); ("originalExists", JBool (OriginalExists r))]
        ++ opt_num "originalMode" (OriginalMode r) ++ opt_str "originalSha256" (OriginalSHA256 r)
        ++ [("candidateExists", JBool (CandidateExists r))]
        ++ opt_num "candidateMode" (CandidateMode r) ++ opt_str "candidateSha256" (CandidateSHA256 r)).

Definition journalValue (j : transactionJournal) : value :=
  JObj [("schemaVersion", JStr (SchemaVersion j)); ("state", JStr (JState j));
        ("files", JArr (map recordValue (Files j)))].

(** Decoding into a Go value keeps the current one on [null]. *)
Definition asString (v : value) (old : string) : option string :=
  match v with JNull => Some old | JStr s => Some s | _ => None end.
Definition asBool (v : value) (old : bool) : option bool :=
  match v with JNull => Some old | JBool b => Some b | _ => None end.
Definition asUint32 (v : value) (old : Z) : option Z :=
  match v with
  | JNull => Some old
  | JNum literal => n ← parse_digits literal 0; if (n <? 2 ^ 32)%Z then Some n else None
  | _ => None
  end.

(** A struct: its fields with the setters, matched by name, then without
    regard to case; an unknown field is an error. *)
Definition setter (A : Type) : Type := value -> A -> option A.

Definition find_field {A} (fields : list (string * setter A)) (key : string) : option (setter A) :=
  match List.find (fun f => String.eqb f.1 key) fields with
  | Some f => Some f.2
  | None => snd <$> List.find (fun f => EqualFold f.1 key) fields
  end.

Fixpoint decode_members {A} (fields : list (string * setter A)) (l : list (string * value)) (a : A) : option A :=
  match l with
  | [] => Some a
  | (key, v) :: rest => set ← find_field fields key; a ← set v a; decode_members fields rest a
  end.

Definition decode_struct {A} (fields : list (string * setter A)) : setter A := fun v a =>
  match v with JNull => Some a | JObj l => decode_members fields l a | _ => None end.

Definition zeroRecord : transactionRecord :=
  {| RPath := ""; OriginalExists := false; OriginalMode := 0; OriginalSHA256 := "";
     CandidateExists := false; CandidateMode := 0; CandidateSHA256 := "" |}.

Definition recordFields : list (string * setter transactionRecord) :=
  [("path", fun v r => x ← asString v (RPath r);
      Some {| RPath := x; OriginalExists := OriginalExists r; OriginalMode := OriginalMode r;
              OriginalSHA256 := OriginalSHA256 r; CandidateExists := CandidateExists r;
              CandidateMode := CandidateMode r; CandidateSHA256 := CandidateSHA256 r |});
   ("originalExists", fun v r => x ← asBool v (OriginalExists r);
      Some {| RPath := RPath r; OriginalExists := x; OriginalMode := OriginalMode r;
              OriginalSHA256 := OriginalSHA256 r; CandidateExists := CandidateExists r;
              CandidateMode := CandidateMode r; CandidateSHA256 := CandidateSHA256 r |});
   ("originalMode", fun v r => x ← asUint32 v (OriginalMode r);
      Some {| RPath := RPath r; OriginalExists := OriginalExists r; OriginalMode := x;
              OriginalSHA256 := OriginalSHA256 r; CandidateExists := CandidateExists r;
              CandidateMode := CandidateMode r; CandidateSHA256 := CandidateSHA256 r |});
   ("originalSha256", fun v r => x ← asString v (OriginalSHA256 r);
      Some {| RPath := RPath r; OriginalExists := OriginalExists r; OriginalMode := OriginalMode r;
              OriginalSHA256 := x; CandidateExists := CandidateExists r;
              CandidateMode := CandidateMode r; CandidateSHA256 := CandidateSHA256 r |});
   ("candidateExists", fun v r => x ← asBool v (CandidateExists r);
      Some {| RPath := RPath r; OriginalExists := OriginalExists r; OriginalMode := OriginalMode r;
              OriginalSHA256 := OriginalSHA256 r; CandidateExists := x;
              CandidateMode := CandidateMode r; CandidateSHA256 := CandidateSHA256 r |});
   ("candidateMode", fun v r => x ← asUint32 v (CandidateMode r);
      Some {| RPath := RPath r; OriginalExists := OriginalExists r; OriginalMode := OriginalMode r;
              OriginalSHA256 := OriginalSHA256 r; CandidateExists := CandidateExists r;
              CandidateMode := x; CandidateSHA256 := CandidateSHA256 r |});
   ("candidateSha256", fun v r => x ← asString v (CandidateSHA256 r);
      Some {| RPath := RPath r; OriginalExists := OriginalExists r; OriginalMode := OriginalMode r;
              OriginalSHA256 := OriginalSHA256 r; CandidateExists := CandidateExists r;
              CandidateMode := CandidateMode r; CandidateSHA256 := x |})].

(** An array overwrites the slice element by element. *)
Fixpoint decode_records (l : list value) (old : list transactionRecord) : option (list transactionRecord) :=
  match l with
  | [] => Some []
  | v :: rest =>
      r ← decode_struct recordFields v (default zeroRecord (head old));
      rs ← decode_records rest (tail old);
      Some (r :: rs)
  end.

Definition asRecords (v : value) (old : list transactionRecord) : option (list transactionRecord) :=
  match v with JNull => Some [] | JArr l => decode_records l old | _ => None end.

Definition journalFields : list (string * setter transactionJournal) :=
  [("schemaVersion", fun v j => x ← asString v (SchemaVersion j);
      Some {| SchemaVersion := x; JState := JState j; Files := Files j |});
   ("state", fun v j => x ← asString v (JState j);
      Some {| SchemaVersion := SchemaVersion j; JState := x; Files := Files j |});
   ("files", fun v j => x ← asRecords v (Files j);
      Some {| SchemaVersion := SchemaVersion j; JState := JState j; Files := x |})].

Definition jsonError : goerr := Msg "invalid JSON document".

Definition unmarshalJournal (data : string) : result goerr transactionJournal :=
  match v ← parse_document data;
        decode_struct journalFields v {| SchemaVersion := ""; JState := ""; Files := [] |} with
  | Some j => Ok j
  | None => Err jsonError
  end.

Definition marshalJournal (j : transactionJournal) : string := print 0 (journalValue j).

Lemma printed_opt_num key mode : Forall (fun kv => printed kv.2) (opt_num key mode).
Proof. unfold opt_num. destruct (mode =? 0)%Z; repeat constructor. by eexists. Qed.

Lemma printed_opt_str key s : Forall (fun kv => printed kv.2) (opt_str key s).
Proof. unfold opt_str. destruct (String.eqb s ""); repeat constructor. Qed.

Lemma printed_record r : printed (recordValue r).
Proof.
  apply printed_obj. rewrite !Forall_app.
  split_and!; auto using printed_opt_num, printed_opt_str; repeat constructor.
Qed.

Lemma printed_journal j : printed (journalValue j).
Proof.
  apply printed_obj. constructor; [done|]. constructor; [done|]. constructor; [|done].
  apply printed_arr, Forall_forall. intros v Hv%list_elem_of_In%in_map_iff. destruct Hv as (r & <- & _).
  apply printed_record.
Qed.

Lemma decode_members_app {A} (fields : list (string * setter A)) l1 l2 a :
  decode_members fields (l1 ++ l2) a = decode_members fields l1 a ≫= decode_members fields l2.
Proof.
  revert a. induction l1 as [|[k v] l1 IH]; intros a; [done|]. simpl. destruct (find_field fields k); [|done].
  simpl. destruct (s v a); [|done]. simpl. apply IH.
Qed.

Lemma asUint32_ItoaN mode old : (0 <= mode < 2 ^ 32)%Z -> asUint32 (JNum (ItoaN (Z.to_N mode))) old = Some mode.
Proof.
  intros Hm. simpl. rewrite parse_ItoaN, Z2N.id by lia. simpl. by rewrite (proj2 (Z.ltb_lt _ _) (proj2 Hm)).
Qed.

Lemma decode_record r : record_text r -> decode_struct recordFields (recordValue r) zeroRecord = Some r.
Proof.
  intros (_ & _ & _ & Hom & Hcm). destruct r as [p oe om osha ce cm csha]. simpl in Hom, Hcm.
  unfold recordValue, decode_struct, opt_num, opt_str. cbn [RPath OriginalExists OriginalMode OriginalSHA256
    CandidateExists CandidateMode CandidateSHA256].
  destruct (Z.eqb_spec om 0) as [->|Ho], (String.eqb_spec osha "") as [->|Hs],
    (Z.eqb_spec cm 0) as [->|Hc], (String.eqb_spec csha "") as [->|Hcs];
    cbn [app decode_members]; unfold find_field, recordFields, List.find;
    cbn [fst snd String.eqb Ascii.eqb Bool.eqb fmap option_fmap option_map mbind option_bind asString asBool
         RPath OriginalExists OriginalMode OriginalSHA256 CandidateExists CandidateMode CandidateSHA256 zeroRecord];
    rewrite ?(asUint32_ItoaN om) by done; cbn [mbind option_bind]; rewrite ?(asUint32_ItoaN cm) by done; reflexivity.
Qed.

Lemma decode_records_ok l : Forall record_text l -> decode_records (map recordValue l) [] = Some l.
Proof.
  induction 1 as [|r l Hr Hl IH]; [done|]. cbn [map decode_records head tail default from_option].
  rewrite decode_record by done. simpl. by rewrite IH.
Qed.

Lemma journal_json_roundtrip j : journal_text j -> unmarshalJournal (marshalJournal j +:+ newline) = Ok j.
Proof.
  intros (_ & _ & Hf). unfold unmarshalJournal, marshalJournal.
  rewrite parse_document_print by apply printed_journal. destruct j as [sv st fs]. simpl in Hf |- *.
  by rewrite decode_records_ok.
Qed.

#[export] Instance json_codec : JournalCodec := {|
  encodeJournal := marshalJournal;
  decodeJournal := unmarshalJournal;
  journal_roundtrip := journal_json_roundtrip
|}.
End Json.
