(* ===== verification/TransactionSpec.v ===== *)
(** Specifications of the building blocks of the update transaction in the
    program logic of [Fs]: path resolution, snapshots, parent creation, staged
    files and the journal. *)
From stdpp Require Import prelude gmap strings list sorting.
From Stdlib Require Import Ascii ZArith Lia.
From S2P Require Import Prelude GoStrings FsPath Sha256 Fs Treehash Transaction.

Module TransactionSpec.
Import FsPath Sha256 Fs Treehash Transaction.

(** A managed path is one [Relative] leaves alone. *)
Definition managed (p : string) : Prop := Relative p = Ok p.

Lemma managed_comps p : managed p ->
  comps p <> [] /\ Forall plain_element (comps p) /\ Join (comps p) seps = p.
Proof. intros H. unfold comps. by destruct (Relative_confined p p H) as (? & ? & _ & ?). Qed.

Lemma comps_inj p q : managed p -> managed q -> comps p = comps q -> p = q.
Proof.
  intros (_ & _ & Hp)%managed_comps (_ & _ & Hq)%managed_comps Hpq. by rewrite <- Hp, <- Hq, Hpq.
Qed.

Lemma removelast_plain l : Forall plain_element l -> Forall plain_element (removelast l).
Proof. induction 1 as [|x l Hx Hl IH]; [done|]. simpl. destruct l; [done|]. by constructor. Qed.

(** The parent of a managed path is the root or a managed path. *)
Lemma managed_dir p : managed p ->
  (parent (comps p) = [] /\ Dir p = ".") \/
  (parent (comps p) <> [] /\ managed (Dir p) /\ Dir p <> "." /\ comps (Dir p) = parent (comps p)).
Proof.
  intros Hp. destruct (managed_comps p Hp) as (Hne & Hpl & Hj).
  unfold parent, Dir. fold (comps p). pose proof (removelast_plain _ Hpl) as Hpl'.
  destruct (removelast (comps p)) as [|c l] eqn:Hr; [by left|]. right.
  assert (managed (Join (c :: l) seps)) as Hm by (by apply Relative_of_plain).
  split; [done|]. split; [done|]. split.
  - intros Hdot. unfold managed in Hm. rewrite Hdot in Hm. discriminate Hm.
  - unfold comps. by apply Split_Join_plain.
Qed.

Lemma removelast_below (p : path) : below (parent p) p.
Proof.
  destruct (decide (p = [])) as [->|Hp]; [done|]. apply below_iff.
  exists [List.last p ""]. unfold parent. by apply app_removelast_last.
Qed.

(** A proper ancestor is an ancestor of the parent. *)
Lemma below_parent (q p : path) : below q p -> q <> p -> below q (parent p).
Proof.
  rewrite !below_iff. intros [r ->] Hne.
  destruct (decide (r = [])) as [->|Hr]; [by rewrite app_nil_r in Hne|].
  exists (removelast r). unfold parent. by rewrite removelast_app.
Qed.

Lemma not_below_parent (p : path) : p <> [] -> ~ below p (parent p).
Proof.
  intros Hp (r & Hr)%below_iff. pose proof (f_equal length Hr) as Hl.
  rewrite length_app in Hl. rewrite (app_removelast_last "" Hp) in Hl at 2.
  unfold parent in Hl. rewrite length_app in Hl. simpl in Hl. lia.
Qed.

(** ** Observations *)

Definition file_or_absent (o : option node) : Prop :=
  match o with None | Some (NFile _ _) => True | _ => False end.

Definition version_of (o : option node) : managedVersion :=
  match o with Some (NFile m s) => fileVersion m s | _ => absentVersion end.

(** [Resolve] can reach [p]: the ancestors are directories (or, when missing
    components are allowed, absent) and [p] itself is not a link. *)
Definition resolvable (allowMissing : bool) (p : path) (d : disk) : Prop :=
  d !! [] = Some NDir /\
  (forall q, below q p -> q <> p -> d !! q = Some NDir \/ (allowMissing = true /\ d !! q = None)) /\
  d !! p <> Some NLink /\ (allowMissing = false -> is_Some (d !! p)).

Section Specs.
Context {PR : Pathrs} {JC : JournalCodec} (md : mode).
Implicit Types (X : goerr -> disk -> Prop) (C : disk -> Prop) (d : disk).

Lemma wp_lstat p (Q : node -> disk -> Prop) X C d :
  match d !! p with Some n => Q n d | None => X (Sys ENOENT) d end ->
  (md = AnyFault -> X (Sys EIO) d) -> C d -> wp md (lstat p) Q X C d.
Proof. intros HQ HX HC. apply wp_observe; [|done|done]. unfold lookup_node. by destruct (d !! p). Qed.

Lemma wp_relative p c (Q : string -> disk -> Prop) X C d :
  Relative p = Ok c -> Q c d -> wp md (relative_ p) Q X C d.
Proof. intros Hp HQ. unfold relative_. rewrite Hp. by apply wp_ret. Qed.

Lemma wp_Root (Q : unit -> disk -> Prop) X C d :
  d !! [] = Some NDir -> Q tt d -> (md = AnyFault -> forall e, X e d) -> C d -> wp md Root Q X C d.
Proof.
  intros Hd HQ HX HC. apply wp_bind, wp_wrapped, wp_lstat; [|auto|auto].
  rewrite Hd. by apply wp_ret.
Qed.

Lemma wp_resolve_loop rest cur am (Q : unit -> disk -> Prop) X C d :
  resolvable am (cur ++ rest) d -> Q tt d -> (md = AnyFault -> forall e, X e d) -> C d ->
  wp md (resolve_loop rest cur am) Q X C d.
Proof.
  revert cur. induction rest as [|c rest IH]; intros cur Hr HQ HX HC; simpl; [by apply wp_ret|].
  replace (cur ++ c :: rest) with ((cur ++ [c]) ++ rest) in Hr by (by rewrite <- app_assoc).
  set (q := cur ++ [c]) in *. pose proof Hr as (Hroot & Hanc & Hlink & Hpres).
  assert (rest <> [] -> d !! q = Some NDir \/ (am = true /\ d !! q = None)) as Hq.
  { intros Hne. apply Hanc; [apply below_app|]. intros Heq.
    apply Hne. rewrite <- (app_nil_r q) in Heq at 1. by apply app_inv_head in Heq. }
  apply wp_bind, wp_catch, wp_lstat; [|by intros Hm; apply wp_fail, HX|done].
  destruct (d !! q) as [n|] eqn:Hdq.
  - destruct rest as [|c' rest'].
    + rewrite app_nil_r in Hlink. destruct n; try by apply wp_ret. by destruct Hlink.
    + destruct (Hq ltac:(done)) as [[= ->]|[_ ?]]; [|done]. by apply IH.
  - simpl. destruct am; [by apply wp_ret|]. exfalso. destruct rest as [|c' rest'].
    + rewrite app_nil_r, Hdq in Hpres. by destruct (Hpres eq_refl).
    + by destruct (Hq ltac:(done)) as [?|[? _]].
Qed.

Lemma wp_Resolve p am (Q : path -> disk -> Prop) X C d :
  managed p -> resolvable am (comps p) d -> Q (comps p) d ->
  (md = AnyFault -> forall e, X e d) -> C d -> wp md (Resolve p am) Q X C d.
Proof.
  intros Hp Hr HQ HX HC. apply wp_bind. apply (wp_relative p p); [done|].
  apply wp_bind, wp_Root; [by destruct Hr| |auto|auto].
  apply wp_bind, wp_resolve_loop; [done| |auto|auto]. by apply wp_ret.
Qed.

Lemma wp_read_file p m s (Q : string -> disk -> Prop) X C d :
  d !! p = Some (NFile m s) -> Q s d -> (md = AnyFault -> X (Sys EIO) d) -> C d ->
  wp md (read_file p) Q X C d.
Proof. intros Hd HQ HX HC. apply wp_observe; [|done|done]. by rewrite Hd. Qed.

Lemma wp_snapshotManagedFile p (Q : managedVersion -> disk -> Prop) X C d :
  managed p -> resolvable true (comps p) d -> file_or_absent (d !! comps p) ->
  Q (version_of (d !! comps p)) d ->
  (md = AnyFault -> forall e, X e d) -> C d -> wp md (snapshotManagedFile p) Q X C d.
Proof.
  intros Hp Hr Hf HQ HX HC. apply wp_bind, (wp_relative p p); [done|].
  apply wp_bind, wp_Resolve; [done|done| |auto|auto].
  apply wp_bind, wp_catch, wp_lstat; [|by intros Hm; apply wp_fail, HX|done].
  destruct (d !! comps p) as [[| m s | |]|] eqn:Hd; try done.
  apply wp_bind, wp_wrapped. eapply wp_read_file; [done| |by auto|done]. by apply wp_ret.
Qed.

Lemma wp_regularFileVersion p m s (Q : managedVersion -> disk -> Prop) X C d :
  d !! p = Some (NFile m s) -> Q (withoutData (fileVersion m s)) d ->
  (md = AnyFault -> forall e, is_not_exist e = false -> X e d) -> C d ->
  wp md (regularFileVersion p) Q X C d.
Proof.
  intros Hd HQ HX HC. apply wp_bind, wp_lstat; [|auto|done]. rewrite Hd.
  apply wp_bind, wp_wrapped. eapply wp_read_file; [done| |by auto|done]. by apply wp_ret.
Qed.

Lemma wp_sync_dir p (Q : unit -> disk -> Prop) X C d :
  d !! p = Some NDir -> Q tt d -> (md = AnyFault -> X (Sys EIO) d) -> C d ->
  wp md (sync_dir p) Q X C d.
Proof. intros Hd HQ HX HC. apply wp_observe; [|done|done]. by rewrite Hd. Qed.

(** ** Creating the directories above a managed file *)

Lemma resolvable_grows am p q d d' :
  resolvable am p d -> grows q d d' -> ~ below p q -> resolvable am p d'.
Proof.
  intros (Hroot & Hanc & Hlink & Hpres) Hg Hpq. split; [by eapply grows_keeps|]. split_and!.
  - intros r Hr Hrp. destruct (Hg r) as [->|(_ & -> & _)]; [by apply Hanc | by left].
  - destruct (Hg p) as [->|(_ & _ & ?)]; done.
  - intros Ham. destruct (Hpres Ham) as [n Hn]. exists n. by eapply grows_keeps.
Qed.

Lemma wp_EnsureDirectory p mode_ (Q : path -> disk -> Prop) X C d :
  managed p -> Perm mode_ <> 0%Z -> Z.ldiff mode_ 511 = 0%Z ->
  d !! [] = Some NDir -> dirs_to (comps p) d ->
  (forall d', grows (comps p) d d' -> (forall q, below q (comps p) -> d' !! q = Some NDir) ->
     Q (comps p) d') ->
  (md = AnyFault -> forall e d', grows (comps p) d d' -> X e d') ->
  (forall d', grows (comps p) d d' -> C d') ->
  wp md (EnsureDirectory p mode_) Q X C d.
Proof.
  intros Hp Hm1 Hm2 Hroot Hdirs HQ HX HC. pose proof (grows_refl (comps p) d) as Hrefl.
  apply wp_bind, (wp_relative p p); [done|]. apply wp_bind, wp_require; intros Hreq.
  2: { rewrite (proj2 (Z.eqb_neq _ _) Hm1), (proj2 (Z.eqb_eq _ _) Hm2) in Hreq. done. }
  apply wp_bind, wp_Root; [done| |auto|auto].
  apply wp_bind, wp_wrapped, wp_lstat; [rewrite Hroot|auto|auto].
  apply wp_bind, wp_wrapped, wp_syscall.
  - destruct (mkdir_all_succeeds (comps p) d Hroot Hdirs) as [d' Hd']. rewrite Hd'.
    destruct (mkdir_all_grows _ _ _ Hd') as [Hg Hall].
    assert (resolvable false (comps p) d') as Hres.
    { split; [by eapply grows_keeps|]. split_and!.
      - intros q Hq _. left. by apply Hall.
      - by rewrite (Hall _ (below_refl _)).
      - intros _. rewrite (Hall _ (below_refl _)). eauto. }
    apply wp_bind, wp_wrapped, wp_lstat; [rewrite (Hall _ (below_refl _))|auto|auto].
    apply wp_bind, wp_require; [intros _|done].
    apply wp_bind, wp_Resolve; [done|done| |auto|auto].
    apply wp_bind, wp_wrapped, wp_lstat; [|auto|auto].
    rewrite (Hall _ (below_refl _)). apply wp_ret. auto.
  - intros Hmd n gone. apply HX; [done|]. apply mkdir_progress_grows.
  - intros n gone. apply HC, mkdir_progress_grows.
Qed.

Lemma wp_ensureManagedParent p (Q : path -> disk -> Prop) X C d :
  managed p -> resolvable true (comps p) d ->
  (forall d', grows (parent (comps p)) d d' ->
     (forall q, below q (parent (comps p)) -> d' !! q = Some NDir) -> Q (comps p) d') ->
  (md = AnyFault -> forall e d', grows (parent (comps p)) d d' -> X e d') ->
  (forall d', grows (parent (comps p)) d d' -> C d') ->
  wp md (ensureManagedParent p) Q X C d.
Proof.
  intros Hp Hr HQ HX HC. destruct (managed_comps p Hp) as (Hne & _ & _).
  pose proof (not_below_parent _ Hne) as Hnb. pose proof Hr as (Hroot & Hanc & _).
  apply wp_bind, (wp_relative p p); [done|].
  destruct (managed_dir p Hp) as [[Hpar Hdot]|(Hpar & Hmd & Hdot & Hcomps)].
  - rewrite Hdot. simpl. rewrite Hpar in *. pose proof (grows_refl [] d) as Hrefl.
    apply wp_Resolve; auto. apply HQ; [done|].
    intros q [r Hq]%below_iff. by destruct q.
  - cbv zeta. rewrite (proj2 (String.eqb_neq (Dir p) ".") Hdot). apply wp_bind. rewrite <- Hcomps in *.
    apply wp_EnsureDirectory; try done.
    + intros q Hq. destruct (Hanc q) as [?|[_ ?]]; [|by intros ->|auto..].
      rewrite Hcomps in Hq. by eapply below_trans, removelast_below.
    + intros d' Hg Hall. apply wp_Resolve; [done| |auto..]. by eapply resolvable_grows.
Qed.
End Specs.
End TransactionSpec.
