(* ===== verification/TransactionRecovery.v ===== *)
(** Recovery of an interrupted update: from every tree an interrupted commit
    can leave, [recoverTransactions] restores the old files or keeps the new
    ones, all of them, and its own interruption leaves such a tree again. *)
From stdpp Require Import prelude gmap strings list sorting.
From Stdlib Require Import Ascii ZArith Lia.
From S2P Require Import Prelude GoStrings FsPath Sha256 Fs Treehash Transaction TransactionSpec.

Module TransactionRecovery.
Import FsPath Sha256 Fs Treehash Transaction TransactionSpec.

(** ** The transaction under recovery *)

(** The tree before it, its journal records, the new content of each file and
    its identity. *)
Record setup := Setup {
  base : disk;
  recs : list transactionRecord;
  newnode : string -> option node;
  txid : string
}.

(** A record describes the node before or after the update. *)
Definition describes (exists_ : bool) (mode_ : Z) (sha : string) (o : option node) : Prop :=
  file_or_absent o /\ exists_ = mv_exists (version_of o) /\ mode_ = mv_mode (version_of o) /\
  sha = mv_digest (version_of o).

Section Setup.
Context {PR : Pathrs} {JC : JournalCodec} (S : setup).

Definition old (r : transactionRecord) : option node := base S !! comps (RPath r).
Definition new (r : transactionRecord) : option node := newnode S (RPath r).
Definition txdir : path := transactionRoot ++ [txid S].

Definition journalOf (state : string) : transactionJournal :=
  {| SchemaVersion := transactionSchema; JState := state; Files := recs S |}.

Record record_ok (r : transactionRecord) : Prop := {
  rec_managed : managed (RPath r);
  rec_resolvable : resolvable true (comps (RPath r)) (base S);
  rec_old : describes (OriginalExists r) (OriginalMode r) (OriginalSHA256 r) (old r);
  rec_new : describes (CandidateExists r) (CandidateMode r) (CandidateSHA256 r) (new r);
  rec_changed : sameManagedVersion (version_of (old r)) (version_of (new r)) = false;
  rec_material : validJournalMaterial r = true;
  rec_not_below : ~ below transactionRoot (comps (RPath r));
  rec_not_above : ~ below (comps (RPath r)) transactionRoot
}.

(** What makes a transaction well formed: managed files that are not nested
    in each other or in the transaction root, a journal that fits the limit. *)
Record setup_ok : Prop := {
  setup_root : base S !! [] = Some NDir;
  setup_txroot : dirs_to transactionRoot (base S);
  setup_id : validTransactionID (txid S) = true;
  setup_nonempty : recs S <> [];
  setup_nodup : NoDup (RPath <$> recs S);
  setup_records : forall r, r ∈ recs S -> record_ok r;
  setup_unnested : forall r r', r ∈ recs S -> r' ∈ recs S ->
    below (comps (RPath r)) (comps (RPath r')) -> r = r';
  setup_text : forall state, state = transactionPrepared \/ state = transactionCommitted ->
    journal_text (journalOf state) /\
    (str_size (encodeJournal (journalOf state) +:+ newline) <= journalLimit)%N
}.

(** ** Trees an update can leave *)

(** Outside the transaction root and the replaced files nothing changes,
    except that missing directories may have been created. *)
Definition outside (d : disk) : Prop :=
  forall q, ~ below transactionRoot q -> (forall r, r ∈ recs S -> q <> comps (RPath r)) ->
    d !! q = base S !! q \/
    (base S !! q = None /\ d !! q = Some NDir /\
     (below q transactionRoot \/ exists r, r ∈ recs S /\ below q (comps (RPath r)))).

(** Below the transaction root there is at most the directory of this
    transaction. *)
Definition only_entry (d : disk) : Prop :=
  (d !! transactionRoot = None \/ d !! transactionRoot = Some NDir) /\
  forall name n, d !! (transactionRoot ++ [name]) = Some n ->
    name = txid S /\ n = NDir /\ d !! transactionRoot = Some NDir.

Definition all_old (d : disk) : Prop := forall r, r ∈ recs S -> d !! comps (RPath r) = old r.
Definition all_new (d : disk) : Prop := forall r, r ∈ recs S -> d !! comps (RPath r) = new r.

Definition no_journal (d : disk) : Prop := d !! journalPath txdir = None.

(** The journal [state] is published, and recovery will find it. *)
Definition journal_at (state : string) (d : disk) : Prop :=
  d !! transactionRoot = Some NDir /\ d !! txdir = Some NDir /\
  exists m, d !! journalPath txdir = Some (NFile m (encodeJournal (journalOf state) +:+ newline)).

(** Every file is old or new, and an old version that was replaced is in the
    backup. *)
Definition restorable (d : disk) : Prop :=
  forall i r, recs S !! i = Some r ->
    (d !! comps (RPath r) = old r \/ d !! comps (RPath r) = new r) /\
    (OriginalExists r = true ->
       d !! transactionBackup txdir i = old r \/
       (d !! transactionBackup txdir i = None /\ d !! comps (RPath r) = old r)).

Definition recoverable (d : disk) : Prop :=
  outside d /\ only_entry d /\
  ((no_journal d /\ (all_old d \/ all_new d)) \/
   (journal_at transactionPrepared d /\ restorable d) \/
   (journal_at transactionCommitted d /\ all_new d)).

(** All old or all new, and no transaction left. *)
Definition atomic (d : disk) : Prop :=
  outside d /\ only_entry d /\ (forall name, d !! (transactionRoot ++ [name]) = None) /\
  no_journal d /\ (all_old d \/ all_new d).

Definition prepared (d : disk) : Prop :=
  outside d /\ only_entry d /\ journal_at transactionPrepared d /\ restorable d.

(** Nothing is left to restore: the transaction directory may go. *)
Definition settled (d : disk) : Prop :=
  outside d /\ only_entry d /\ d !! transactionRoot = Some NDir /\
  ((all_old d /\ (no_journal d \/ (journal_at transactionPrepared d /\ restorable d))) \/
   (all_new d /\ (no_journal d \/ journal_at transactionCommitted d))).

Lemma settled_recoverable d : settled d -> recoverable d.
Proof. unfold settled, recoverable. naive_solver. Qed.

Lemma atomic_recoverable d : atomic d -> recoverable d.
Proof. unfold atomic, recoverable. naive_solver. Qed.

Lemma prepared_recoverable d : prepared d -> recoverable d.
Proof. unfold prepared, recoverable. naive_solver. Qed.

Hypothesis OK : setup_ok.

(** ** Geometry of the paths involved *)

Lemma rec_nonempty r : r ∈ recs S -> comps (RPath r) <> [].
Proof. intros Hr. apply managed_comps, rec_managed, setup_records; done. Qed.

Lemma txroot_nonempty : transactionRoot <> [].
Proof. done. Qed.

Lemma managed_txroot : managed transactionRootRel.
Proof. reflexivity. Qed.

Lemma txroot_comps : comps transactionRootRel = transactionRoot.
Proof. unfold transactionRoot. reflexivity. Qed.

#[local] Opaque transactionRoot transactionRootRel Pad6.

Lemma length_txdir : length txdir = (length transactionRoot + 1)%nat.
Proof. unfold txdir. by rewrite length_app. Qed.

Lemma backup_ne q i : (length q < length txdir + 2)%nat -> q <> transactionBackup txdir i.
Proof. intros Hl ->. unfold transactionBackup in Hl. rewrite length_app in Hl. simpl in Hl. lia. Qed.

Lemma length_journalPath : length (journalPath txdir) = (length txdir + 1)%nat.
Proof. unfold journalPath. by rewrite length_app. Qed.

Lemma backup_inj i j : transactionBackup txdir i = transactionBackup txdir j -> i = j.
Proof. intros Heq%app_inv_head. injection Heq as Heq. by apply Pad6_inj. Qed.

Lemma below_txdir q : below transactionRoot (txdir ++ q).
Proof. unfold txdir. rewrite <- app_assoc. apply below_app. Qed.

Lemma rec_ne_below r q : r ∈ recs S -> below transactionRoot q -> q <> comps (RPath r).
Proof. intros Hr Hq ->. by destruct (setup_records OK r Hr). Qed.

Lemma rec_eq r r' : r ∈ recs S -> r' ∈ recs S -> comps (RPath r) = comps (RPath r') -> r = r'.
Proof. intros Hr Hr' He. apply (setup_unnested OK); try done. rewrite He. apply below_refl. Qed.

Lemma root_dir d : outside d -> d !! [] = Some NDir.
Proof.
  intros Ho. pose proof (setup_root OK) as Hb.
  destruct (Ho []) as [->|(Hn & _)]; [|by intros r Hr; apply not_eq_sym, rec_nonempty|done|congruence].
  intros [l Hl]%below_iff. discriminate Hl.
Qed.

(** A proper ancestor of a managed file is a directory or absent. *)
Lemma ancestors_ok d r q : outside d -> only_entry d -> r ∈ recs S ->
  below q (comps (RPath r)) -> q <> comps (RPath r) -> d !! q = Some NDir \/ d !! q = None.
Proof.
  intros Ho He Hr Hq Hne. pose proof (setup_records OK r Hr) as Hrec.
  destruct (rec_resolvable r Hrec) as (_ & Hanc & _).
  destruct (Ho q) as [->|(_ & -> & _)]; [| |destruct (Hanc q Hq Hne) as [?|[_ ?]]; auto|auto].
  - intros Hb. apply (rec_not_below r Hrec). by eapply below_trans.
  - intros r' Hr' ->. apply Hne. f_equal. f_equal. by apply (setup_unnested OK).
Qed.

Lemma rec_file d i r : restorable d -> recs S !! i = Some r -> file_or_absent (d !! comps (RPath r)).
Proof.
  intros Hres Hi. assert (r ∈ recs S) as Hr by (by eapply list_elem_of_lookup_2).
  destruct (setup_records OK r Hr) as [_ _ [Ho _] [Hn _] _ _ _ _].
  destruct (Hres i r Hi) as [[-> | ->] _]; done.
Qed.

Lemma rec_resolve d r : outside d -> only_entry d -> r ∈ recs S ->
  file_or_absent (d !! comps (RPath r)) -> resolvable true (comps (RPath r)) d.
Proof.
  intros Ho He Hr Hf. split; [by apply root_dir|]. split_and!; [|by intros Hl; rewrite Hl in Hf|done].
  intros q Hq Hne. destruct (ancestors_ok d r q Ho He Hr Hq Hne); auto.
Qed.

(** ** Creating directories above a managed file keeps everything *)

Lemma grows_same r d d' q :
  r ∈ recs S -> grows (parent (comps (RPath r))) d d' ->
  (below transactionRoot q \/ exists r', r' ∈ recs S /\ q = comps (RPath r')) -> d' !! q = d !! q.
Proof.
  intros Hr Hg Hq. destruct (Hg q) as [?|(_ & _ & Hb)]; [done|]. exfalso.
  pose proof (below_trans _ _ _ Hb (removelast_below _)) as Hb'.
  destruct Hq as [Hq|(r' & Hr' & ->)].
  - apply (rec_not_below r (setup_records OK r Hr)). by eapply below_trans.
  - pose proof (setup_unnested OK r' r Hr' Hr Hb') as ->.
    by apply (not_below_parent (comps (RPath r))); [apply rec_nonempty|].
Qed.

Lemma outside_grows r d d' :
  r ∈ recs S -> outside d -> grows (parent (comps (RPath r))) d d' -> outside d'.
Proof.
  intros Hr Ho Hg q Hq1 Hq2. destruct (Hg q) as [->|(Hn & Hd & Hb)]; [by apply Ho|].
  destruct (Ho q Hq1 Hq2) as [Hb0|(_ & Hd0 & _)]; [|congruence].
  right. split; [congruence|]. split; [done|]. right. exists r. split; [done|].
  eapply below_trans; [done | apply removelast_below].
Qed.

Lemma only_entry_same d d' :
  (forall q, below transactionRoot q -> d' !! q = d !! q) -> only_entry d -> only_entry d'.
Proof.
  intros Hs [H1 H2]. split.
  - by rewrite Hs by apply below_refl.
  - intros name n. rewrite !Hs by (apply below_app || apply below_refl). apply H2.
Qed.

Lemma journal_at_same state d d' :
  (forall q, below transactionRoot q -> d' !! q = d !! q) -> journal_at state d -> journal_at state d'.
Proof.
  intros Hs (H1 & H2 & m & H3). unfold journal_at.
  rewrite !Hs; [eauto|apply below_txdir|apply below_app|apply below_refl].
Qed.

Lemma prepared_grows r d d' :
  r ∈ recs S -> prepared d -> grows (parent (comps (RPath r))) d d' -> prepared d'.
Proof.
  intros Hr (Ho & He & Hj & Hres) Hg.
  assert (forall q, below transactionRoot q -> d' !! q = d !! q) as Hs
    by (intros; eapply grows_same; eauto).
  split; [by eapply outside_grows|]. split; [by eapply only_entry_same|].
  split; [by eapply journal_at_same|]. intros i r' Hi.
  rewrite (Hs (transactionBackup txdir i)) by apply below_txdir.
  rewrite (grows_same r d d' (comps (RPath r'))); [by apply Hres|done|done|].
  right. exists r'. split; [by eapply list_elem_of_lookup_2 | done].
Qed.

(** ** Comparing versions *)

Lemma describes_exists e m sha o : describes e m sha o ->
  (e = true /\ exists md s, o = Some (NFile md s)) \/ (e = false /\ o = None).
Proof. intros (Hf & -> & _). destruct o as [[| md s | |]|]; try done; [left; eauto|by right]. Qed.

Lemma atOriginal_old r : r ∈ recs S -> atOriginal (version_of (old r)) r = OriginalExists r.
Proof.
  intros Hr. destruct (rec_old r (setup_records OK r Hr)) as (_ & -> & Hm & Hs).
  unfold atOriginal. rewrite Hm, Hs, Z.eqb_refl, String.eqb_refl. by destruct (mv_exists _).
Qed.

Lemma atCandidate_new r : r ∈ recs S -> atCandidate (version_of (new r)) r = CandidateExists r.
Proof.
  intros Hr. destruct (rec_new r (setup_records OK r Hr)) as (_ & Hx & Hm & Hs).
  unfold atCandidate. rewrite Hx, Hm, Hs, Z.eqb_refl, String.eqb_refl. by destruct (mv_exists _).
Qed.

Lemma atOriginal_new r : r ∈ recs S -> OriginalExists r = true ->
  atOriginal (version_of (new r)) r = false.
Proof.
  intros Hr He. pose proof (setup_records OK r Hr) as Hrec.
  destruct (rec_old r Hrec) as (_ & Hx & Hm & Hs). pose proof (rec_changed r Hrec) as Hc.
  unfold atOriginal, sameManagedVersion in *. rewrite <- Hx, <- Hm, <- Hs, He in Hc.
  destruct (mv_exists (version_of (new r))); [|done].
  by rewrite Z.eqb_sym, String.eqb_sym in Hc.
Qed.

(** ** One record *)

(** The tree after the file of record [i] is back in its old version; its
    backup may be gone. *)
Lemma prepared_restore d d' i r :
  prepared d -> recs S !! i = Some r ->
  (forall q, q <> comps (RPath r) -> q <> transactionBackup txdir i -> d' !! q = d !! q) ->
  d' !! comps (RPath r) = old r ->
  (d' !! transactionBackup txdir i = d !! transactionBackup txdir i \/
   d' !! transactionBackup txdir i = None) ->
  prepared d'.
Proof.
  intros (Ho & He & Hj & Hres) Hi Hsame Hold Hback.
  assert (r ∈ recs S) as Hr by (by eapply list_elem_of_lookup_2).
  assert (forall q, below transactionRoot q -> q <> transactionBackup txdir i -> d' !! q = d !! q)
    as Htx by (intros q Hq Hne; apply Hsame; [by apply rec_ne_below | done]).
  pose proof length_txdir as Hld. pose proof length_journalPath as Hlj.
  split_and!.
  - intros q Hq1 Hq2. rewrite Hsame; [by apply Ho | by apply Hq2 |].
    intros ->. apply Hq1, below_txdir.
  - destruct He as [He1 He2]. split.
    + rewrite Htx; [done | apply below_refl | apply backup_ne; lia].
    + intros name n. rewrite (Htx transactionRoot), Htx; [apply He2 | apply below_app | |apply below_refl|];
        apply backup_ne; rewrite ?length_app; simpl; lia.
  - destruct Hj as (H1 & H2 & m & H3). split_and!; [| |exists m].
    + rewrite Htx; [done | apply below_refl | apply backup_ne; lia].
    + rewrite Htx; [done | apply below_app | apply backup_ne; lia].
    + rewrite Htx; [done | apply below_txdir | apply backup_ne; lia].
  - intros j r' Hj'. destruct (decide (i = j)) as [<-|Hij].
    + replace r' with r by congruence. split; [by left|]. intros Hx.
      destruct (Hres i r Hi) as [_ Hb]. destruct Hback as [-> | ->]; [|by right].
      destruct (Hb Hx) as [?|[? _]]; [by left | by right].
    + assert (r' ∈ recs S) as Hr' by (by eapply list_elem_of_lookup_2).
      assert (transactionBackup txdir j <> transactionBackup txdir i) as Hbne.
      { intros Heq%backup_inj. by apply Hij. }
      rewrite (Hsame (comps (RPath r'))), (Htx (transactionBackup txdir j));
        [by apply Hres | apply below_txdir | done | |].
      * intros Heq. apply Hij. apply (NoDup_lookup _ i j (RPath r) (setup_nodup OK)).
        -- by rewrite list_lookup_fmap, Hi.
        -- rewrite list_lookup_fmap, Hj'. simpl. f_equal.
           by apply comps_inj; [apply (setup_records OK)..|].
      * apply not_eq_sym, rec_ne_below; [done | apply below_txdir].
Qed.

(** What the loop body promises for record [i]. *)
Definition restored (i : nat) (r : transactionRecord) (d d' : disk) : Prop :=
  prepared d' /\ d' !! comps (RPath r) = old r /\
  (forall r', r' ∈ recs S -> d !! comps (RPath r') = old r' -> d' !! comps (RPath r') = old r') /\
  (forall q, d !! q = Some NDir -> d' !! q = Some NDir) /\
  d' !! parent (comps (RPath r)) = Some NDir.

Lemma restored_same i r d d' d'' :
  recs S !! i = Some r -> prepared d' -> prepared d'' ->
  grows (parent (comps (RPath r))) d d' -> d' !! parent (comps (RPath r)) = Some NDir ->
  (forall q, q <> comps (RPath r) -> q <> transactionBackup txdir i -> d'' !! q = d' !! q) ->
  d'' !! transactionBackup txdir i = d' !! transactionBackup txdir i \/
  file_or_absent (d' !! transactionBackup txdir i) ->
  d'' !! comps (RPath r) = old r -> restored i r d d''.
Proof.
  intros Hi Hp' Hp'' Hg Hpar Hsame Hbf Hold.
  assert (r ∈ recs S) as Hr by (by eapply list_elem_of_lookup_2).
  assert (forall q, d' !! q = Some NDir -> d'' !! q = Some NDir) as Hdirs.
  { intros q Hq. destruct (decide (q = transactionBackup txdir i)) as [->|Hqb].
    { destruct Hbf as [->|Hbf]; [done|]. by rewrite Hq in Hbf. }
    rewrite Hsame; [done| |done]. intros ->. destruct Hp' as (_ & _ & _ & Hres).
    pose proof (rec_file d' i r Hres Hi) as Hf. by rewrite Hq in Hf. }
  split; [done|]. split; [done|]. split_and!.
  - intros r' Hr' Ho'. destruct (decide (r = r')) as [<-|Hne]; [done|].
    rewrite Hsame; [rewrite (grows_same r d d' (comps (RPath r'))) by eauto; done| |].
    + intros Heq. by apply Hne, rec_eq.
    + apply not_eq_sym, rec_ne_below; [done | apply below_txdir].
  - intros q Hq. apply Hdirs. by eapply grows_keeps.
  - by apply Hdirs.
Qed.

Section Programs.
Context (md : mode).

(** Failure and interruption of a recovery step keep the tree prepared. *)
Abbreviation FailsPrepared := (fun (_ : goerr) (d : disk) => md = AnyFault /\ prepared d).

Lemma lookup_rename (d : disk) a b n :
  a <> b -> <[b:=n]> (delete a d) !! b = Some n /\ <[b:=n]> (delete a d) !! a = None /\
  (forall q, q <> b -> q <> a -> <[b:=n]> (delete a d) !! q = d !! q).
Proof.
  intros Hab. split; [apply lookup_insert_eq|]. split.
  - by rewrite lookup_insert_ne, lookup_delete_eq.
  - intros q Hqb Hqa. by rewrite lookup_insert_ne, lookup_delete_ne.
Qed.

(** The branch of [recoverRecord] for a file that existed. *)
Lemma wp_restore_existing i r d d' (Q : unit -> disk -> Prop) :
  recs S !! i = Some r -> OriginalExists r = true -> prepared d' ->
  grows (parent (comps (RPath r))) d d' -> d' !! parent (comps (RPath r)) = Some NDir ->
  (forall d'', restored i r d d'' -> Q tt d'') ->
  wp md (restoreExisting txdir i r (comps (RPath r))) Q FailsPrepared prepared d'.
Proof.
  intros Hi Hx Hp Hg Hpar HQ. assert (r ∈ recs S) as Hr by (by eapply list_elem_of_lookup_2).
  pose proof (setup_records OK r Hr) as Hrec. pose proof Hp as (Ho & He & Hj & Hres).
  pose proof (rec_file d' i r Hres Hi) as Hfile.
  pose proof (rec_resolve d' r Ho He Hr Hfile) as Hresolve.
  destruct (describes_exists _ _ _ _ (rec_old r Hrec)) as [(_ & m & s & Hold)|(Hno & _)]; [|congruence].
  pose proof (atOriginal_old r Hr) as Hato. rewrite Hx in Hato.
  destruct (Hres i r Hi) as [Hcur Hback]. specialize (Hback Hx).
  apply wp_bind, wp_catch. destruct Hback as [Hb|[Hb Hcur']].
  - rewrite Hold in Hb. eapply wp_regularFileVersion; [exact Hb| |by intros ? e ->; auto using wp_fail|done].
    destruct (rec_old r Hrec) as (_ & _ & Hm & Hs). rewrite Hold in Hm, Hs. simpl in Hm, Hs.
    apply wp_bind, wp_require; simpl; rewrite Hm, Hs, Z.eqb_refl, String.eqb_refl; [intros _|done].
    apply wp_bind, wp_snapshotManagedFile; [by destruct Hrec|done|done| |by auto|done].
    assert (file_or_absent (d' !! transactionBackup txdir i)) as Hbf by (by rewrite Hb).
    destruct Hcur as [Hc|Hc]; rewrite Hc.
    + rewrite Hato. apply wp_ret, HQ. eapply restored_same; try done. by left.
    + rewrite (atOriginal_new r Hr Hx). rewrite (atCandidate_new r Hr).
      destruct (rec_new r Hrec) as (_ & Hcx & _). apply wp_bind, wp_require.
      2: { rewrite <- Hcx. by destruct (CandidateExists r). }
      intros _. apply wp_wrapped, wp_update; [|auto|done].
      rewrite Hb. unfold dir_at. rewrite Hpar. rewrite bool_decide_eq_true_2 by done. simpl.
      assert (transactionBackup txdir i <> comps (RPath r)) as Hne
        by (apply rec_ne_below; [done | apply below_txdir]).
      destruct (lookup_rename d' _ _ (NFile m s) Hne) as (Hl1 & Hl2 & Hl3).
      assert (prepared (<[comps (RPath r):=NFile m s]> (delete (transactionBackup txdir i) d')))
        by (eapply prepared_restore; [exact Hp|exact Hi|exact Hl3| |by right]; congruence).
      destruct (d' !! comps (RPath r)) as [[]|] eqn:Hcd; try done;
        (apply HQ; eapply restored_same; [done|exact Hp|done|done|done|exact Hl3|by right|congruence]).
  - apply wp_bind, wp_lstat; [|by intros ?; apply wp_fail|done]. rewrite Hb. simpl.
    apply wp_bind, wp_catch.
    apply wp_snapshotManagedFile; [by destruct Hrec|done|done| |by intros ? e; apply wp_fail|done].
    rewrite Hcur', Hato. apply wp_require; [intros _|done]. apply HQ.
    eapply restored_same; try done. by left.
Qed.

Lemma wp_recoverRecord i r d (Q : path -> disk -> Prop) :
  recs S !! i = Some r -> prepared d ->
  (forall d', restored i r d d' -> Q (parent (comps (RPath r))) d') ->
  wp md (recoverRecord txdir i r) Q FailsPrepared prepared d.
Proof.
  intros Hi Hp HQ. assert (r ∈ recs S) as Hr by (by eapply list_elem_of_lookup_2).
  pose proof (setup_records OK r Hr) as Hrec. pose proof Hp as (Ho & He & Hj & Hres).
  apply wp_bind, wp_ensureManagedParent; [by destruct Hrec| | | |].
  - apply rec_resolve; try done. by eapply rec_file.
  - intros d' Hg Hdirs. assert (prepared d') as Hp' by (by eapply prepared_grows).
    pose proof Hp' as (Ho' & He' & Hj' & Hres'). pose proof (rec_file d' i r Hres' Hi) as Hfile.
    specialize (Hdirs _ (below_refl _)).
    apply wp_bind. destruct (OriginalExists r) eqn:Hx.
    { eapply wp_restore_existing; try done. intros d'' Hd''. apply wp_ret. auto. }
    destruct (describes_exists _ _ _ _ (rec_old r Hrec)) as [(? & _)|(_ & Hold)]; [congruence|].
    apply wp_bind, wp_snapshotManagedFile; [by destruct Hrec|by apply rec_resolve|done| |by auto|done].
    destruct (Hres' i r Hi) as [[Hc|Hc] _]; rewrite Hc.
    + rewrite Hold. simpl. apply wp_ret, wp_ret, HQ.
      eapply restored_same; [exact Hi|exact Hp'|exact Hp'|exact Hg|exact Hdirs|done|by left|congruence].
    + pose proof (atCandidate_new r Hr) as Hatc. destruct (rec_new r Hrec) as (Hfn & Hcx & _).
      pose proof (rec_changed r Hrec) as Hch. rewrite Hold in Hch.
      destruct (new r) as [[| m s | |]|] eqn:Hnew; try done.
      simpl in Hatc, Hcx |- *. rewrite Hatc, Hcx. apply wp_bind, wp_require; [intros _|done].
      apply wp_wrapped, wp_update; [|auto|done]. rewrite Hc. apply wp_ret, HQ.
      assert (forall q, q <> comps (RPath r) -> delete (comps (RPath r)) d' !! q = d' !! q) as Hsame
        by (intros; by apply lookup_delete_ne).
      assert (transactionBackup txdir i <> comps (RPath r)) as Hne
        by (apply rec_ne_below; [done | apply below_txdir]).
      assert (delete (comps (RPath r)) d' !! comps (RPath r) = old r) as Hdel
        by (rewrite Hold; apply lookup_delete_eq).
      eapply restored_same; [exact Hi|exact Hp'| |exact Hg|exact Hdirs|auto|left; auto|done].
      eapply prepared_restore; [exact Hp'|exact Hi|auto|done|left; auto].
  - intros Hmd e d' Hg. split; [done|]. by eapply prepared_grows.
  - intros d' Hg. by eapply prepared_grows.
Qed.

(** ** The prepared transaction *)

(** The loop invariant: the files not in [todo] are back, and the directories
    to synchronise exist. *)
Definition restoring (todo : list (nat * transactionRecord)) (dirs : pathset) (d : disk) : Prop :=
  prepared d /\
  (forall i r, recs S !! i = Some r -> (i, r) ∈ todo \/ d !! comps (RPath r) = old r) /\
  (forall q, q ∈ dirs -> d !! q = Some NDir).

Lemma wp_recoverLoop todo (dirs : pathset) (d : disk) (Q : pathset -> disk -> Prop) :
  Forall (fun ir => recs S !! ir.1 = Some ir.2) todo -> restoring todo dirs d ->
  (forall (dirs' : pathset) (d' : disk), restoring [] dirs' d' -> Q dirs' d') ->
  wp md (recoverLoop txdir todo dirs) Q FailsPrepared prepared d.
Proof.
  revert dirs d. induction todo as [|[i r] todo IH]; intros dirs d Htodo Hd HQ; simpl.
  { apply wp_ret. by apply HQ. }
  inversion Htodo as [|? ? Hi Htodo']; subst. simpl in Hi. destruct Hd as (Hp & Hold & Hdirs).
  apply wp_bind, wp_recoverRecord; [done|done|].
  intros d' (Hp' & Hr & Hkeep & Hdkeep & Hpar). apply IH; [done| |done].
  split; [done|]. split.
  - intros j r' Hj. destruct (Hold j r' Hj) as [[Heq|Hin]%elem_of_cons|Ho].
    + injection Heq as -> ->. by right.
    + by left.
    + right. apply Hkeep; [by eapply list_elem_of_lookup_2 | done].
  - intros q [->%elem_of_singleton|Hq]%elem_of_union; auto.
Qed.

Lemma indexed_lookup {A} (l : list A) i x : (i, x) ∈ indexed l <-> l !! i = Some x.
Proof.
  unfold indexed. rewrite elem_of_lookup_imap. split.
  - by intros (j & y & [= -> ->] & Hj).
  - intros Hi. by exists i, x.
Qed.

Lemma wp_recoverPrepared d (Q : unit -> disk -> Prop) state :
  prepared d -> (forall d', prepared d' /\ all_old d' -> Q tt d') ->
  wp md (recoverPreparedTransaction txdir (journalOf state)) Q FailsPrepared prepared d.
Proof.
  intros Hp HQ. apply wp_bind, wp_recoverLoop.
  - apply Forall_forall. intros [i r] Hir. apply list_elem_of_In, in_rev, list_elem_of_In in Hir.
    by apply indexed_lookup.
  - split; [done|]. split; [|set_solver]. intros i r Hi. left.
    by apply list_elem_of_In, in_rev, list_elem_of_In; rewrite rev_involutive; apply indexed_lookup.
  - intros dirs d' (Hp' & Hold & Hdirs).
    apply wp_for_each with (I := fun l d => d = d' /\ forall q, q ∈ l -> q ∈ dirs).
    + split; [done|]. intros q. by rewrite elem_of_elements.
    + intros q l d'' [-> Hl]. apply wp_sync_dir; [|split; [done|]|by auto|done].
      * apply Hdirs, Hl. apply elem_of_cons. by left.
      * intros q' Hq'. apply Hl, elem_of_cons. by right.
    + intros d'' [-> _]. apply HQ. split; [done|]. intros r Hr.
      apply list_elem_of_lookup in Hr as [i Hi]. destruct (Hold i r Hi) as [Hin|?]; [|done].
      by apply elem_of_nil in Hin.
Qed.

(** ** The committed transaction *)

Lemma committed_check r : r ∈ recs S ->
  Bool.eqb (mv_exists (version_of (new r))) (CandidateExists r) &&
  (negb (mv_exists (version_of (new r))) ||
   ((mv_mode (version_of (new r)) =? CandidateMode r)%Z
    && String.eqb (mv_digest (version_of (new r))) (CandidateSHA256 r))) = true.
Proof.
  intros Hr. destruct (rec_new r (setup_records OK r Hr)) as (_ & -> & -> & ->).
  rewrite Bool.eqb_reflx, Z.eqb_refl, String.eqb_refl. by destruct (mv_exists _).
Qed.

Lemma wp_verifyCommitted d (Q : unit -> disk -> Prop) (X : goerr -> disk -> Prop) (C : disk -> Prop) state :
  outside d -> only_entry d -> all_new d ->
  Q tt d -> (md = AnyFault -> forall e, X e d) -> C d ->
  wp md (verifyCommittedTransaction (journalOf state)) Q X C d.
Proof.
  intros Ho He Hn HQ HX HC.
  apply wp_for_each with (I := fun l d' => d' = d /\ forall r, r ∈ l -> r ∈ recs S); [by split| |by intros ? [-> _]].
  intros r l d' [-> Hl]. assert (r ∈ recs S) as Hr by (apply Hl, elem_of_cons; by left).
  destruct (setup_records OK r Hr) as [Hm _ _ [Hf _] _ _ _ _]. rewrite <- (Hn r Hr) in Hf.
  apply wp_bind, wp_wrapped, wp_snapshotManagedFile; [done|by apply rec_resolve|done| |by auto|done].
  rewrite (Hn r Hr). apply wp_require; rewrite committed_check by done; [intros _|done].
  split; [done|]. intros r' Hr'. apply Hl, elem_of_cons. by right.
Qed.

(** ** Removing the transaction directory *)

Lemma not_below_txdir_root : ~ below txdir transactionRoot.
Proof.
  intros [l Hl%(f_equal length)]%below_iff. rewrite length_app, length_txdir in Hl. lia.
Qed.

Lemma below_txdir_entry name : below txdir (transactionRoot ++ [name]) -> transactionRoot ++ [name] = txdir.
Proof.
  intros [l Hl]%below_iff. rewrite Hl. pose proof (f_equal length Hl) as Hlen.
  rewrite !length_app, length_txdir in Hlen. simpl in Hlen. destruct l; [by rewrite app_nil_r | simpl in Hlen; lia].
Qed.

Lemma settled_partial d d' :
  settled d -> (forall q, d' !! q = d !! q \/ (d' !! q = None /\ below txdir q /\ q <> txdir)) -> settled d'.
Proof.
  intros (Ho & [He1 He2] & HR & Hst) Hd'.
  assert (forall q, ~ below txdir q \/ q = txdir -> d' !! q = d !! q) as Hs.
  { intros q Hq. destruct (Hd' q) as [?|(_ & ? & ?)]; [done|]. naive_solver. }
  assert (forall q, ~ below transactionRoot q -> d' !! q = d !! q) as Hs'.
  { intros q Hq. apply Hs. left. intros Hb. apply Hq. eapply below_trans; [|done]. apply below_app. }
  assert (forall r, r ∈ recs S -> d' !! comps (RPath r) = d !! comps (RPath r)) as Hrec.
  { intros r Hr. apply Hs'. by destruct (setup_records OK r Hr). }
  pose proof (Hs _ (or_introl not_below_txdir_root)) as HR'.
  assert (forall name, d' !! (transactionRoot ++ [name]) = d !! (transactionRoot ++ [name])) as Hent.
  { intros name. apply Hs. destruct (decide (below txdir (transactionRoot ++ [name]))); [|by left].
    right. by apply below_txdir_entry. }
  assert (forall st, journal_at st d -> no_journal d' \/ journal_at st d') as Hjs.
  { intros st (H1 & H2 & m & H3). destruct (Hd' (journalPath txdir)) as [Hj|[Hj _]]; [right|by left].
    split; [congruence|]. split; [rewrite Hs by (by right); done|]. exists m. congruence. }
  assert (no_journal d -> no_journal d') as Hnj.
  { unfold no_journal. intros Hn. destruct (Hd' (journalPath txdir)) as [->|[? _]]; done. }
  split; [intros q Hq1 Hq2; rewrite Hs' by done; by apply Ho|].
  split; [split; [by rewrite HR'|intros name n; rewrite Hent, HR'; apply He2]|].
  split; [congruence|]. destruct Hst as [[Hold Hj]|[Hnew Hj]]; [left|right].
  - assert (all_old d') as Hold' by (intros r Hr; rewrite Hrec by done; auto). split; [done|].
    destruct Hj as [Hn|[Hj Hres]]; [by left; apply Hnj|].
    destruct (Hjs _ Hj) as [?|?]; [by left|right]. split; [done|]. intros i r Hi.
    assert (r ∈ recs S) as Hr by (by eapply list_elem_of_lookup_2).
    split; [left; by apply Hold'|]. intros Hx. destruct (Hd' (transactionBackup txdir i)) as [->|[-> _]].
    + destruct (Hres i r Hi) as [_ Hb]. destruct (Hb Hx) as [?|[? _]]; [by left|right; split; auto].
    + right. split; auto.
  - split; [intros r Hr; rewrite Hrec by done; auto|]. naive_solver.
Qed.

(** The tree after the transaction directory is gone. *)
Definition removed (d d' : disk) : Prop :=
  atomic d' /\ d' !! transactionRoot = Some NDir /\
  forall r, r ∈ recs S -> d' !! comps (RPath r) = d !! comps (RPath r).

Lemma settled_removed d d' :
  settled d -> (forall q, d' !! q = if decide (below txdir q) then None else d !! q) ->
  removed d d'.
Proof.
  intros (Ho & [He1 He2] & HR & Hst) Hd'.
  assert (forall q, ~ below transactionRoot q -> d' !! q = d !! q) as Hs'.
  { intros q Hq. rewrite Hd'. rewrite decide_False; [done|]. intros Hb. apply Hq.
    eapply below_trans; [|done]. apply below_app. }
  assert (d' !! transactionRoot = d !! transactionRoot) as HR'.
  { rewrite Hd'. by rewrite decide_False by apply not_below_txdir_root. }
  assert (forall name, d' !! (transactionRoot ++ [name]) = None) as Hent.
  { intros name. rewrite Hd'. case_decide as Hb; [done|].
    destruct (d !! (transactionRoot ++ [name])) as [n|] eqn:Hn; [|done]. exfalso. apply Hb.
    destruct (He2 name n Hn) as [-> _]. apply below_refl. }
  assert (forall r, r ∈ recs S -> d' !! comps (RPath r) = d !! comps (RPath r)) as Hrec.
  { intros r Hr. apply Hs'. by destruct (setup_records OK r Hr). }
  split; [|split; [congruence|done]]. split; [intros q Hq1 Hq2; rewrite Hs' by done; by apply Ho|].
  split; [split; [by rewrite HR'|intros name n; by rewrite Hent]|]. split; [done|].
  split; [unfold no_journal; rewrite Hd'; by rewrite decide_True by apply below_app|].
  destruct Hst as [[Hold _]|[Hnew _]]; [left|right]; intros r Hr; rewrite Hrec by done; auto.
Qed.

Lemma wp_remove_all d (Q : unit -> disk -> Prop) :
  settled d -> (forall d', removed d d' -> Q tt d') ->
  wp md (remove_all txdir) Q (fun _ d' => md = AnyFault /\ settled d') recoverable d.
Proof.
  intros Hd HQ. apply wp_syscall.
  - apply HQ. eapply settled_removed; [exact Hd|]. intros q. apply lookup_remove_below.
  - intros Hm n gone. split; [done|]. eapply settled_partial; [exact Hd|]. intros q. apply lookup_remove_some.
  - intros n gone. apply settled_recoverable. eapply settled_partial; [exact Hd|].
    intros q. apply lookup_remove_some.
Qed.

Lemma wp_removeTransactionDirectory d (Q : unit -> disk -> Prop) :
  settled d -> (forall d', removed d d' -> Q tt d') ->
  wp md (removeTransactionDirectory transactionRoot txdir) Q
    (fun _ d' => md = AnyFault /\ recoverable d') recoverable d.
Proof.
  intros Hd HQ. apply wp_bind, wp_require.
  2: { intros Hreq. exfalso. revert Hreq. unfold parent, txdir.
       rewrite removelast_last, last_last, (setup_id OK). by rewrite bool_decide_eq_true_2. }
  intros _. apply wp_bind, wp_wrapped. 
  eapply wp_conseq;
    [apply (wp_remove_all d (fun _ d' => removed d d')); auto|..].
  - intros [] d' Hr. pose proof Hr as (Ha & HR & _). apply wp_sync_dir; [done|auto| |by apply atomic_recoverable].
    intros ?. split; [done|]. by apply atomic_recoverable.
  - intros e d' [? ?]. split; [done|]. by apply settled_recoverable.
  - done.
Qed.

(** ** Reading the journal *)

Lemma validRecords_ok l (seen : gset string) :
  (forall r, r ∈ l -> r ∈ recs S) -> NoDup (RPath <$> l) -> (forall r, r ∈ l -> RPath r ∉ seen) ->
  validRecords l seen = Ok tt.
Proof.
  revert seen. induction l as [|r l IH]; intros seen Hl Hnd Hseen; [done|].
  assert (r ∈ r :: l) as Hin by (apply elem_of_cons; by left).
  destruct (setup_records OK r (Hl r Hin)) as [Hm _ _ _ _ Hmat _ _]. simpl.
  unfold managed in Hm. rewrite Hm, String.eqb_refl, Hmat. simpl.
  rewrite bool_decide_eq_false_2 by auto. rewrite fmap_cons, NoDup_cons in Hnd. destruct Hnd as [Hn Hnd].
  apply IH; [|done|].
  - intros r' Hr'. apply Hl, elem_of_cons. by right.
  - intros r' Hr'. apply not_elem_of_union. split; [|apply Hseen, elem_of_cons; by right].
    intros Heq%elem_of_singleton. apply Hn, list_elem_of_fmap. eauto.
Qed.

Lemma wp_readJournal_none d (Q : option transactionJournal -> disk -> Prop) X C :
  no_journal d -> Q None d -> (md = AnyFault -> forall e, X e d) -> C d ->
  wp md (readTransactionJournal txdir) Q X C d.
Proof.
  intros Hn HQ HX HC. apply wp_bind, wp_catch, wp_observe; [|by intros ?; apply wp_fail; auto|done].
  rewrite Hn. by apply wp_ret.
Qed.

Lemma wp_readJournal d state (Q : option transactionJournal -> disk -> Prop) X C :
  state = transactionPrepared \/ state = transactionCommitted ->
  journal_at state d -> Q (Some (journalOf state)) d -> (md = AnyFault -> forall e, X e d) -> C d ->
  wp md (readTransactionJournal txdir) Q X C d.
Proof.
  intros Hst (_ & _ & m & Hj) HQ HX HC. destruct (setup_text OK state Hst) as [Htext Hsize].
  apply wp_bind, wp_catch. eapply wp_read_file; [exact Hj| |by intros ?; apply wp_fail; auto|done].
  apply wp_bind, wp_require; [intros _|]; [|by rewrite (proj2 (N.leb_le _ _) Hsize)].
  rewrite (journal_roundtrip _ Htext). apply wp_bind, wp_ret.
  apply wp_bind, wp_require; simpl.
  2: { pose proof (setup_nonempty OK). by destruct (recs S). }
  intros _. rewrite validRecords_ok; [|done|apply (setup_nodup OK)|set_solver].
  by apply wp_bind, wp_ret, wp_ret.
Qed.

(** ** One entry and the whole recovery *)

Abbreviation FailsRecoverable := (fun (_ : goerr) (d : disk) => md = AnyFault /\ recoverable d).

Lemma wp_recoverEntry d (Q : unit -> disk -> Prop) :
  recoverable d -> d !! transactionRoot = Some NDir ->
  (forall d', atomic d' -> d' !! transactionRoot = Some NDir -> Q tt d') ->
  wp md (recoverEntry (txid S, NDir)) Q FailsRecoverable recoverable d.
Proof.
  intros Hrec HR HQ. pose proof Hrec as (Ho & He & Hst). apply wp_bind, wp_require.
  2: { intros Hreq. cbn [fst snd] in Hreq. by rewrite (setup_id OK), bool_decide_eq_true_2 in Hreq. }
  intros _. apply wp_bind. fold txdir.
  destruct Hst as [[Hn Hfiles]|[[Hj Hres]|[Hj Hnew]]].
  - apply wp_readJournal_none; [done| |auto|done]. apply wp_removeTransactionDirectory; [|unfold removed; naive_solver].
    unfold settled. naive_solver.
  - apply (wp_readJournal d transactionPrepared); [by left|done| |auto|done].
    apply wp_bind. eapply wp_conseq; [apply (wp_recoverPrepared d (fun _ d' => prepared d' /\ all_old d'))|..].
    + by split.
    + done.
    + intros [] d' [Hp' Hold]. apply wp_removeTransactionDirectory; [|unfold removed; naive_solver].
      destruct Hp' as (Ho' & He' & Hj' & Hres'). unfold settled. pose proof Hj' as (? & _). naive_solver.
    + intros e d' [? ?]. split; [done|]. by apply prepared_recoverable.
    + apply prepared_recoverable.
  - apply (wp_readJournal d transactionCommitted); [by right|done| |auto|done].
    apply wp_bind. apply wp_verifyCommitted; auto.
    apply wp_removeTransactionDirectory; [|unfold removed; naive_solver]. unfold settled. naive_solver.
Qed.

Lemma txroot_resolvable d : outside d -> only_entry d -> resolvable true transactionRoot d.
Proof.
  intros Ho [HR _]. split; [by apply root_dir|]. split_and!; [|destruct HR as [-> | ->]; done|done].
  intros q Hq Hne. destruct (Ho q) as [->|(_ & -> & _)]; [| | |by left].
  - intros Hb. apply Hne. apply below_iff in Hq as [l1 H1], Hb as [l2 H2].
    rewrite H2, <- app_assoc in H1. rewrite <- (app_nil_r transactionRoot) in H1 at 1.
    apply app_inv_head, eq_sym, app_eq_nil in H1 as [-> _]. by rewrite app_nil_r in H2.
  - intros r Hr ->. by destruct (setup_records OK r Hr).
  - destruct (setup_txroot OK q Hq); auto.
Qed.

(** From a recoverable tree, recovery ends in an atomic one; interrupted or
    failing, it leaves a recoverable one; without faults it does not fail. *)
Lemma wp_recoverTransactions d (Q : bool -> disk -> Prop) :
  recoverable d -> (forall b d', atomic d' -> (b = false -> d' = d) -> Q b d') ->
  wp md recoverTransactions Q FailsRecoverable recoverable d.
Proof.
  intros Hrec HQ. pose proof Hrec as (Ho & He & Hst). pose proof (txroot_resolvable d Ho He) as Hres.
  apply wp_bind, wp_wrapped, wp_Resolve; rewrite ?txroot_comps; [apply managed_txroot|exact Hres| |auto|done].
  apply wp_bind, wp_catch, wp_observe; [|by intros ?; apply wp_fail|done].
  destruct He as [[HR|HR] Hent]; rewrite HR.
  - apply wp_ret, HQ; [|done]. split; [done|]. split; [by split; [left|]|].
    assert (forall name, d !! (transactionRoot ++ [name]) = None) as Hnone.
    { intros name. destruct (d !! (transactionRoot ++ [name])) eqn:Hn; [|done].
      destruct (Hent name _ Hn) as (_ & _ & ?). congruence. }
    unfold journal_at in Hst. split; [done|]. naive_solver.
  - set (l := merge_sort name_le (children transactionRoot d)).
    assert (forall name n, (name, n) ∈ l -> name = txid S /\ n = NDir) as Hl.
    { intros name n Hin. unfold l in Hin. rewrite merge_sort_Permutation in Hin.
      apply elem_of_children in Hin. by destruct (Hent name n Hin) as (? & ? & _). }
    assert (l = [] -> atomic d) as Hnil.
    { intros Hnil. split; [done|]. split; [by split; [right|]|].
      assert (forall name, d !! (transactionRoot ++ [name]) = None) as Hnone.
      { intros name. destruct (d !! (transactionRoot ++ [name])) as [n|] eqn:Hn; [|done].
        apply elem_of_children in Hn. rewrite <- (merge_sort_Permutation name_le) in Hn.
        fold l in Hn. rewrite Hnil in Hn. by apply elem_of_nil in Hn. }
      pose proof (Hnone (txid S)) as Hd. fold txdir in Hd. split; [done|].
      destruct Hst as [?|[[(_ & Hx & _) _]|[(_ & Hx & _) _]]]; [done| |]; by rewrite Hd in Hx. }
    apply wp_bind, wp_for_each with (I := fun todo d' =>
      (forall e, e ∈ todo -> e = (txid S, NDir)) /\
      ((todo = l /\ d' = d) \/ (l <> [] /\ atomic d' /\ d' !! transactionRoot = Some NDir))).
    + split; [|by left]. intros [name n] Hin. by destruct (Hl name n Hin) as [-> ->].
    + intros e todo d' [Htodo Hd'].
      rewrite (Htodo e) by (apply elem_of_cons; by left). apply wp_recoverEntry.
      * destruct Hd' as [[_ ->]|(_ & ? & _)]; [done | by apply atomic_recoverable].
      * by destruct Hd' as [[_ ->]|(_ & _ & ?)].
      * intros d'' Ha HR''. split; [intros e' He'; apply Htodo, elem_of_cons; by right|].
        right. split; [|done]. destruct Hd' as [[<- _]|[? _]]; done.
    + intros d' [_ Hd']. apply wp_ret, HQ.
      * destruct Hd' as [[Hnl ->]|(_ & ? & _)]; [by apply Hnil|done].
      * destruct Hd' as [[_ ->]|(Hne & _)]; [done|]. by destruct l.
Qed.
End Programs.
End Setup.
End TransactionRecovery.
