(* ===== verification/TransactionBuild.v ===== *)
(** Building an update transaction: the invariant of [fileTransaction] over
    [Add], [AddMode], [Delete] and [GuardDirectory], what [Changed] lists, and
    the well-formed transaction [Commit] turns it into. *)
From stdpp Require Import prelude gmap strings list sorting.
From Stdlib Require Import Ascii ZArith Lia.
From S2P Require Import Prelude GoStrings FsPath Sha256 Fs Treehash Transaction TransactionSpec TransactionRecovery.

Module TransactionBuild.
Import FsPath Sha256 Fs Treehash Transaction TransactionSpec TransactionRecovery.

(** ** The invariant *)

(** The mode field is a [uint32]. *)
Definition version_ok (v : managedVersion) : Prop :=
  (0 <= mv_mode v)%Z /\ validateManagedVersion v = Ok tt.

Record entry_ok (e : transactionEntry) : Prop := {
  entry_expected : version_ok (expected e);
  entry_bare : mv_data (expected e) = None;
  entry_candidate : version_ok (candidate e);
  entry_digest : mv_exists (candidate e) = true ->
    mv_digest (candidate e) = hashBytes (default "" (mv_data (candidate e)))
}.

Record txn_ok (t : fileTransaction) : Prop := {
  txn_files : forall p e, files t !! p = Some e -> managed p /\ entry_ok e;
  txn_guards : forall p s, directories t !! p = Some s -> managed p /\ s <> ""
}.

(** A transaction as the update code builds it. *)
Inductive built : fileTransaction -> Prop :=
  | built_new : built newFileTransaction
  | built_Add t t' relative data exp : built t -> (0 <= mv_mode exp)%Z ->
      Add t relative data exp = Ok t' -> built t'
  | built_AddMode t t' relative data mode_ exp : built t -> (0 <= mv_mode exp)%Z ->
      AddMode t relative data mode_ exp = Ok t' -> built t'
  | built_Delete t t' relative exp : built t -> (0 <= mv_mode exp)%Z ->
      Delete t relative exp = Ok t' -> built t'
  | built_Guard t t' relative digest : built t ->
      GuardDirectory t relative digest = Ok t' -> built t'.

Lemma managed_clean relative clean : Relative relative = Ok clean -> managed clean.
Proof. intros H. by apply (Relative_idempotent relative). Qed.

Lemma validate_withoutData v : validateManagedVersion v = Ok tt -> validateManagedVersion (withoutData v) = Ok tt.
Proof.
  unfold validateManagedVersion. simpl. destruct (mv_exists v); simpl.
  - intros ([] & Hm & _)%bind_ok_inv. by rewrite Hm.
  - rewrite !guard_err_ok. rewrite !orb_false_iff. simpl. naive_solver.
Qed.

Lemma add_inv t relative exp cand t' : add t relative exp cand = Ok t' ->
  exists clean, Relative relative = Ok clean /\ files t !! clean = None /\
    validateManagedVersion exp = Ok tt /\ validateManagedVersion cand = Ok tt /\
    t' = {| files := <[clean := {| expected := withoutData exp; candidate := cand |}]> (files t);
            directories := directories t |}.
Proof.
  unfold add. intros H. destruct (Relative relative) as [clean|] eqn:Hc; [|done].
  destruct (files t !! clean) eqn:Hf; [done|].
  destruct (validateManagedVersion exp) as [[]|]; [|done].
  destruct (validateManagedVersion cand) as [[]|]; [|done]. injection H as <-. eauto 8.
Qed.

Lemma add_ok t relative exp cand t' :
  txn_ok t -> (0 <= mv_mode exp)%Z -> (0 <= mv_mode cand)%Z ->
  (mv_exists cand = true -> mv_digest cand = hashBytes (default "" (mv_data cand))) ->
  add t relative exp cand = Ok t' -> txn_ok t'.
Proof.
  intros [Hf Hg] He Hc Hd (clean & Hr & _ & Ve & Vc & ->)%add_inv. split; [|exact Hg].
  intros p e. simpl. rewrite lookup_insert_Some. intros [[<- <-]|[_ Hp]]; [|by apply Hf].
  split; [by eapply managed_clean|]. split; simpl; try done.
  split; [done|]. by apply validate_withoutData.
Qed.

Lemma copyBytes_default data : default "" (copyBytes data) = data.
Proof. unfold copyBytes. by destruct (String.eqb_spec data ""). Qed.

Lemma Perm_nonneg mode_ : (0 <= Perm mode_)%Z.
Proof. apply Z.land_nonneg. by right. Qed.

Lemma built_ok t : built t -> txn_ok t.
Proof.
  induction 1 as [|t t' p data exp _ IH He H|t t' p data m exp _ IH He H|t t' p exp _ IH He H|t t' p s _ IH H].
  - split; intros p e; simpl; by rewrite lookup_empty.
  - eapply add_ok; [exact IH|exact He| |intros _|exact H]; simpl; [by destruct (mv_exists exp)|].
    by rewrite copyBytes_default.
  - unfold AddMode in H. destruct (negb _ || _); [done|].
    eapply add_ok; [exact IH|exact He| |intros _|exact H]; simpl; [apply Perm_nonneg|].
    by rewrite copyBytes_default.
  - unfold Delete in H. destruct (negb _); [by injection H as <-|].
    eapply add_ok; [exact IH|exact He| | |exact H]; done.
  - unfold GuardDirectory in H. destruct (Relative p) as [clean|] eqn:Hp; [|done].
    destruct (String.eqb_spec s ""); [done|]. destruct (directories t !! clean); [done|].
    injection H as <-. destruct IH as [Hf Hg]. split; [exact Hf|]. intros q s'. simpl.
    rewrite lookup_insert_Some. intros [[<- <-]|[_ Hq]]; [|by apply Hg].
    split; [by eapply managed_clean|done].
Qed.

(** ** [Changed] *)

Lemma elem_of_paths t p : p ∈ paths t <-> is_Some (files t !! p).
Proof.
  unfold paths. rewrite SortStrings_perm, list_elem_of_fmap. split.
  - intros ([q e] & -> & Hin%elem_of_map_to_list). simpl. eauto.
  - intros [e He]. exists (p, e). split; [done|]. by apply elem_of_map_to_list.
Qed.

Lemma elem_of_Changed t p : p ∈ Changed t <->
  exists e, files t !! p = Some e /\ sameManagedVersion (expected e) (candidate e) = false.
Proof.
  unfold Changed. rewrite list_elem_of_In, filter_In, <- list_elem_of_In, elem_of_paths. unfold entryChanged.
  split.
  - intros [[e He] Hc]. rewrite He in Hc. exists e. split; [done|]. by apply negb_true_iff.
  - intros (e & He & Hc). rewrite He, Hc. eauto.
Qed.

Lemma NoDup_paths t : NoDup (paths t).
Proof. unfold paths. rewrite SortStrings_perm. apply NoDup_fst_map_to_list. Qed.

Lemma NoDup_Changed t : NoDup (Changed t).
Proof.
  unfold Changed. generalize (NoDup_paths t). generalize (paths t) as l.
  induction 1 as [|p l Hp Hl IH]; simpl; [constructor|]. destruct (entryChanged t p); [|done].
  constructor; [|done]. intros [Hin _]%list_elem_of_In%filter_In. by apply Hp, list_elem_of_In.
Qed.

Lemma StronglySorted_filter {A} (R : A -> A -> Prop) (f : A -> bool) l :
  StronglySorted R l -> StronglySorted R (List.filter f l).
Proof.
  induction 1 as [|x l Hl IH Hx]; simpl; [constructor|]. destruct (f x); [|done].
  constructor; [done|]. rewrite Forall_forall in *. intros y Hy%list_elem_of_In%filter_In.
  apply Hx, list_elem_of_In. by destruct Hy.
Qed.

(** ** The transaction [Commit] starts *)

(** The node a candidate version stands for. *)
Definition candidateNode (e : transactionEntry) : option node :=
  if mv_exists (candidate e)
  then Some (NFile (mv_mode (candidate e)) (default "" (mv_data (candidate e)))) else None.

Definition setupOf (t : fileTransaction) (d0 : disk) (id : string) : setup :=
  Setup d0 (Files (preparedJournal t (Changed t))) (fun p => candidateNode (entryOf t p)) id.

(** Every node lies in a directory. *)
Definition tree_ok (d : disk) : Prop := forall q x, is_Some (d !! (q ++ [x])) -> d !! q = Some NDir.

Lemma tree_ancestors (d : disk) p q : tree_ok d -> is_Some (d !! p) -> below q p -> q <> p -> d !! q = Some NDir.
Proof.
  intros Ht Hp [l ->]%below_iff Hne. induction l as [|x l IH] using rev_ind; [by rewrite app_nil_r in Hne|].
  rewrite app_assoc in Hp. pose proof (Ht _ _ Hp) as Hd. destruct l as [|y l]; [by rewrite app_nil_r in Hd|].
  apply IH; [eauto|]. intros Heq%(f_equal length). rewrite length_app in Heq. simpl in Heq. lia.
Qed.

(** The managed files of [t] can be read in [d0] and do not overlap the
    transaction root. *)
Record readable (t : fileTransaction) (d0 : disk) : Prop := {
  read_root : d0 !! [] = Some NDir;
  read_tree : tree_ok d0;
  read_txroot : dirs_to transactionRoot d0;
  read_clean : forall q, below transactionRoot q -> q <> transactionRoot -> d0 !! q = None;
  read_files : forall p e, files t !! p = Some e ->
    resolvable true (comps p) d0 /\ file_or_absent (d0 !! comps p);
  read_apart : forall p e, files t !! p = Some e ->
    ~ below transactionRoot (comps p) /\ ~ below (comps p) transactionRoot
}.

(** Every managed file is in the version the update started from. *)
Definition files_match (t : fileTransaction) (d : disk) : Prop :=
  forall p e, files t !! p = Some e -> sameManagedVersion (version_of (d !! comps p)) (expected e) = true.

Record ready `{JournalCodec} (t : fileTransaction) (d0 : disk) : Prop := {
  ready_txn : txn_ok t;
  ready_read : readable t d0;
  ready_match : files_match t d0;
  ready_unnested : forall p q, p ∈ Changed t -> q ∈ Changed t -> below (comps p) (comps q) -> p = q;
  ready_printable : forall p, p ∈ Changed t -> str_forallb printable p = true;
  ready_fits : forall state, state = transactionPrepared \/ state = transactionCommitted ->
    (str_size (encodeJournal (withState state (preparedJournal t (Changed t))) +:+ newline) <= journalLimit)%N
}.

Lemma sameManagedVersion_spec v w : sameManagedVersion v w = true <->
  mv_exists v = mv_exists w /\ mv_mode v = mv_mode w /\ mv_digest v = mv_digest w.
Proof.
  unfold sameManagedVersion. rewrite !andb_true_iff, eqb_true_iff, Z.eqb_eq, String.eqb_eq. tauto.
Qed.

Lemma describes_same o v : file_or_absent o -> sameManagedVersion (version_of o) v = true ->
  describes (mv_exists v) (mv_mode v) (mv_digest v) o.
Proof. intros Hf (? & ? & ?)%sameManagedVersion_spec. by split. Qed.

Lemma absent_material v : version_ok v -> mv_exists v = false -> mv_mode v = 0%Z /\ mv_digest v = "".
Proof.
  intros [_ Hv] Hx. unfold validateManagedVersion in Hv. rewrite Hx in Hv. simpl in Hv.
  apply guard_err_ok in Hv. rewrite !orb_false_iff, !negb_false_iff, Z.eqb_eq, String.eqb_eq in Hv. tauto.
Qed.

Lemma present_material v : version_ok v -> mv_exists v = true ->
  (0 < mv_mode v <= 511)%Z /\ validHexSHA256 (mv_digest v) = true.
Proof.
  intros [Hnn Hv] Hx. unfold validateManagedVersion in Hv. rewrite Hx in Hv. simpl in Hv.
  apply bind_ok_inv in Hv as ([] & Hv & _). apply guard_err_ok in Hv.
  rewrite !orb_false_iff, negb_false_iff, Z.eqb_neq, Z.ltb_ge in Hv. split; [lia|tauto].
Qed.

Lemma material_ok v : version_ok v -> validMaterial (mv_exists v) (mv_mode v) (mv_digest v) = true.
Proof.
  intros Hv. unfold validMaterial. destruct (mv_exists v) eqn:Hx; simpl.
  - destruct (present_material v Hv Hx) as [? ->]. by rewrite !andb_true_iff, Z.ltb_lt, Z.leb_le.
  - by destruct (absent_material v Hv Hx) as [-> ->].
Qed.

Lemma candidate_described e : entry_ok e ->
  describes (mv_exists (candidate e)) (mv_mode (candidate e)) (mv_digest (candidate e)) (candidateNode e).
Proof.
  intros [_ _ Hc Hd]. unfold describes, candidateNode. destruct (mv_exists (candidate e)) eqn:Hx; simpl.
  - by rewrite Hd.
  - by destruct (absent_material _ Hc Hx) as [-> ->].
Qed.

Lemma hex_printable s : str_forallb is_hex_lower s = true -> str_forallb printable s = true.
Proof.
  induction s as [|c s IH]; [done|]. simpl. rewrite !andb_true_iff. intros [Hc Hs]. split; [|by apply IH].
  revert Hc. by destruct c as [[] [] [] [] [] [] [] []].
Qed.

Lemma version_text v : version_ok v ->
  str_forallb printable (mv_digest v) = true /\ (0 <= mv_mode v < 2 ^ 32)%Z.
Proof.
  intros Hv. destruct (mv_exists v) eqn:Hx.
  - destruct (present_material v Hv Hx) as [? Hs]. split; [|lia].
    apply hex_printable. unfold validHexSHA256 in Hs. by apply andb_true_iff in Hs as [_ Hs].
  - by destruct (absent_material v Hv Hx) as [-> ->].
Qed.

Section Ready.
Context `{JC : JournalCodec} (t : fileTransaction) (d0 : disk) (id : string).

Lemma elem_of_recs r : r ∈ recs (setupOf t d0 id) ->
  exists p e, files t !! p = Some e /\ p ∈ Changed t /\ r = recordOf p e /\ entryOf t p = e /\
    sameManagedVersion (expected e) (candidate e) = false.
Proof.
  intros (p & -> & Hp)%list_elem_of_fmap. pose proof Hp as (e & He & Hc)%elem_of_Changed.
  assert (entryOf t p = e) as Hent by (unfold entryOf; by rewrite He). exists p, e. by rewrite Hent.
Qed.

Lemma ready_record r : ready t d0 -> r ∈ recs (setupOf t d0 id) -> record_ok (setupOf t d0 id) r.
Proof.
  intros [[Hfiles _] Hread Hmatch _ _ _] (p & e & He & Hp & -> & Hent & Hc)%elem_of_recs.
  destruct (Hfiles p e He) as [Hm Hok]. destruct (read_files _ _ Hread p e He) as [Hres Hf].
  destruct (read_apart _ _ Hread p e He) as [Ha Hb]. pose proof (Hmatch p e He) as Hsame.
  pose proof (candidate_described e Hok) as Hcand.
  split; unfold old, new; simpl; rewrite ?Hent; try done.
  - by apply describes_same.
  - destruct Hcand as (_ & Hx & Hmo & Hs). apply sameManagedVersion_spec in Hsame as (Hx' & Hm' & Hs').
    revert Hc. unfold sameManagedVersion. by rewrite <- Hx, <- Hmo, <- Hs, Hx', Hm', Hs'.
  - unfold validJournalMaterial. simpl. rewrite !material_ok by apply Hok. done.
Qed.

Lemma ready_setup :
  ready t d0 -> Changed t <> [] -> validTransactionID id = true -> setup_ok (setupOf t d0 id).
Proof.
  intros Hready Hne Hid. pose proof Hready as [[Hfiles _] Hread Hmatch Hun Hpr Hfit].
  split; simpl; try apply Hread; try done.
  - destruct (Changed t); done.
  - rewrite <- list_fmap_compose. rewrite list_fmap_id. apply NoDup_Changed.
  - intros r. by apply ready_record.
  - intros r r' (p & e & He & Hp & -> & Hent & _)%elem_of_recs (p' & e' & He' & Hp' & -> & Hent' & _)%elem_of_recs.
    simpl. intros Hb. pose proof (Hun p p' Hp Hp' Hb) as <-. by replace e' with e by congruence.
  - intros state Hst. split; [|by apply Hfit]. split; [done|]. split; [by destruct Hst as [-> | ->]|].
    apply Forall_forall. intros r (p & e & He & Hp & -> & _)%elem_of_recs.
    destruct (Hfiles p e He) as [_ Hok]. unfold record_text. simpl.
    destruct (version_text _ (entry_expected e Hok)), (version_text _ (entry_candidate e Hok)).
    split_and!; try done; try lia; by apply Hpr.
Qed.
End Ready.

(** ** Readiness is decidable *)

#[export] Instance path_error_eq_dec : EqDecision path_error.
Proof. solve_decision. Defined.

#[export] Instance managed_dec p : Decision (managed p).
Proof. unfold managed. apply _. Defined.

#[export] Instance file_or_absent_dec o : Decision (file_or_absent o).
Proof. unfold file_or_absent. destruct o as [[]|]; apply _. Defined.

Lemma prefixes_Forall (P : path -> Prop) p : Forall P (prefixes p) <-> forall q, below q p -> P q.
Proof. rewrite Forall_forall. split; intros H q Hq; apply H; by apply below_prefixes. Qed.

#[export] Instance dirs_to_dec p (d : disk) : Decision (dirs_to p d).
Proof.
  refine (cast_if (decide (Forall (fun q => d !! q = None \/ d !! q = Some NDir) (prefixes p))));
    unfold dirs_to; by rewrite <- (prefixes_Forall (fun q => d !! q = None \/ d !! q = Some NDir)).
Defined.

#[export] Instance resolvable_dec am p (d : disk) : Decision (resolvable am p d).
Proof.
  refine (cast_if (decide (d !! [] = Some NDir /\
    Forall (fun q => q = p \/ d !! q = Some NDir \/ (am = true /\ d !! q = None)) (prefixes p) /\
    d !! p <> Some NLink /\ (am = true \/ is_Some (d !! p))))).
  - destruct a as (H1 & H2 & H3 & H4). rewrite prefixes_Forall in H2.
    split_and!; [done| |done|destruct H4; [congruence|done]]. intros q Hq Hne. destruct (H2 q Hq); [done|tauto].
  - intros (H1 & H2 & H3 & H4). apply n. split_and!; [done| |done|destruct am; auto].
    apply prefixes_Forall. intros q Hq. destruct (decide (q = p)); [by left|right; auto].
Defined.

Definition tree_okb (d : disk) : bool :=
  bool_decide (map_Forall (fun q (_ : node) => q = [] \/ d !! removelast q = Some NDir) d).

Lemma tree_okb_sound d : tree_okb d = true -> tree_ok d.
Proof.
  intros H%bool_decide_eq_true q x [n Hn]. destruct (H (q ++ [x]) n Hn) as [Hnil|Hp]; [by destruct q|].
  by rewrite removelast_last in Hp.
Qed.

Definition readableb (t : fileTransaction) (d : disk) : bool :=
  tree_okb d && bool_decide (d !! [] = Some NDir) && bool_decide (dirs_to transactionRoot d)
  && bool_decide (map_Forall (fun q (_ : node) => ~ (below transactionRoot q /\ q <> transactionRoot)) d)
  && bool_decide (map_Forall (fun p (_ : transactionEntry) =>
       resolvable true (comps p) d /\ file_or_absent (d !! comps p) /\
       ~ below transactionRoot (comps p) /\ ~ below (comps p) transactionRoot) (files t)).

Lemma readableb_sound t d : readableb t d = true -> readable t d.
Proof.
  unfold readableb. rewrite !andb_true_iff, !bool_decide_eq_true. intros ((((Ht & Hr) & Hx) & Hc) & Hf).
  split; [done|by apply tree_okb_sound|done| | |].
  - intros q Hq Hne. destruct (d !! q) as [n|] eqn:Hn; [|done]. by destruct (Hc q n Hn).
  - intros p e He. destruct (Hf p e He) as (? & ? & _). done.
  - intros p e He. destruct (Hf p e He) as (_ & _ & ? & ?). done.
Qed.

Definition readyb `{JournalCodec} (t : fileTransaction) (d : disk) : bool :=
  readableb t d
  && bool_decide (map_Forall (fun p e => sameManagedVersion (version_of (d !! comps p)) (expected e) = true) (files t))
  && bool_decide (Forall (fun p => Forall (fun q => below (comps p) (comps q) -> p = q) (Changed t)) (Changed t))
  && bool_decide (Forall (fun p => str_forallb printable p = true) (Changed t))
  && bool_decide (Forall (fun state =>
       (str_size (encodeJournal (withState state (preparedJournal t (Changed t))) +:+ newline) <=? journalLimit)%N = true)
       [transactionPrepared; transactionCommitted]).

Lemma readyb_sound `{JournalCodec} t d : built t -> readyb t d = true -> ready t d.
Proof.
  unfold readyb. rewrite !andb_true_iff, !bool_decide_eq_true. intros Hb ((((Hr & Hm) & Hu) & Hp) & Hs).
  split; [by apply built_ok|by apply readableb_sound|done| | |].
  - intros p q Hp' Hq'. rewrite Forall_forall in Hu. specialize (Hu p Hp'). rewrite Forall_forall in Hu. by apply Hu.
  - intros p Hin. rewrite Forall_forall in Hp. by apply Hp.
  - intros state Hst. apply N.leb_le. rewrite Forall_forall in Hs. apply Hs. destruct Hst as [-> | ->]; set_solver.
Qed.
End TransactionBuild.
