(* ===== verification/TransactionCommit.v ===== *)
(** The commit of an update: staged files, journal, replacement, rollback and
    cleanup.  The theorems of the component are at the end. *)
From stdpp Require Import prelude gmap strings list sorting.
From Stdlib Require Import Ascii ZArith Lia.
From S2P Require Import Prelude GoStrings FsPath Sha256 Fs Treehash Transaction TransactionSpec TransactionRecovery TransactionBuild.

Module TransactionCommit.
Import FsPath Sha256 Fs Treehash Transaction TransactionSpec TransactionRecovery TransactionBuild.

(** ** Writing one file *)

Definition agree_off (p : path) (d d' : disk) : Prop := forall q, q <> p -> d' !! q = d !! q.

Lemma agree_off_refl p d : agree_off p d d.
Proof. done. Qed.

Lemma agree_off_trans p d1 d2 d3 : agree_off p d1 d2 -> agree_off p d2 d3 -> agree_off p d1 d3.
Proof. intros H12 H23 q Hq. by rewrite H23, H12. Qed.

Lemma agree_off_insert p n (d : disk) : agree_off p d (<[p:=n]> d).
Proof. intros q Hq. by apply lookup_insert_ne. Qed.

Lemma agree_off_delete p (d : disk) : agree_off p d (delete p d).
Proof. intros q Hq. by apply lookup_delete_ne. Qed.

Lemma agree_off_append p s (d : disk) : agree_off p d (append_data p s d).
Proof. unfold append_data. destruct (d !! p) as [[]|]; [done| |done..]. apply agree_off_insert. Qed.

#[export] Hint Resolve agree_off_refl agree_off_insert agree_off_delete agree_off_append : atum.

Section Files.
Context {PR : Pathrs} {JC : JournalCodec} (md : mode).
Implicit Types (d : disk).

(** Failures and crashes in the middle of writing [p] only touch [p]. *)
Definition touches_only (p : path) (d : disk) (X : goerr -> disk -> Prop) (C : disk -> Prop) : Prop :=
  (md = AnyFault -> forall e d', agree_off p d d' -> X e d') /\ (forall d', agree_off p d d' -> C d').

Lemma wp_orClose p step (Q : unit -> disk -> Prop) X C d :
  wp md step Q (fun e d' => md = AnyFault /\ X e d' /\ C d') C d -> wp md (orClose p step) Q X C d.
Proof.
  intros H. apply wp_bind, wp_catch. eapply wp_conseq; [exact H|..]; simpl; [| |done].
  - intros [] d' HQ. by apply wp_ret.
  - intros e d' (Hm & HX & HC). apply wp_bind, wp_ignore, wp_observe; [|intros _|done]; by apply wp_fail.
Qed.

Lemma wp_create p mode_ (Q : unit -> disk -> Prop) (X : goerr -> disk -> Prop) (C : disk -> Prop) d :
  d !! parent p = Some NDir -> d !! p = None -> Q tt (<[p:=NFile mode_ ""]> d) ->
  (md = AnyFault -> X (Sys EIO) d) -> C d -> wp md (create_excl p mode_) Q X C d.
Proof.
  intros Hpar Hp HQ HX HC. apply wp_update; [|done|done]. unfold dir_at. rewrite Hpar, Hp.
  by rewrite bool_decide_eq_true_2.
Qed.

(** A wrapper that only renames errors: the identity or [wrapped]. *)
Definition renames_errors (w : M unit -> M unit) : Prop :=
  forall m (Q : unit -> disk -> Prop) (X C : disk -> Prop) d,
    wp md m Q (fun _ => X) C d -> wp md (w m) Q (fun _ => X) C d.

Lemma renames_id : renames_errors (fun m => m).
Proof. by intros ? ?. Qed.

Lemma renames_wrapped s : renames_errors (wrapped s).
Proof. intros m Q X C d H. by apply wp_wrapped. Qed.

(** The tail [Chmod; Write; Sync] of a file created at [p]. *)
Lemma wp_fill w1 w2 w3 p data mode0 mode_ (rest : M unit) (Q : unit -> disk -> Prop)
    (X : goerr -> disk -> Prop) (C : disk -> Prop) d :
  renames_errors w1 -> renames_errors w2 -> renames_errors w3 ->
  touches_only p d X C ->
  wp md rest Q X C (<[p:=NFile mode_ data]> d) ->
  wp md (orClose p (w1 (chmod p mode_));; orClose p (w2 (write p data));; orClose p (w3 (sync p));; rest) Q X C
    (<[p:=NFile mode0 ""]> d).
Proof.
  intros H1 H2 H3 [HX HC] Hrest.
  assert (forall s m, agree_off p d (<[p:=NFile m s]> d)) as Hag by (intros; apply agree_off_insert).
  set (Xd := fun d' => md = AnyFault /\ agree_off p d d').
  assert (forall (w : M unit -> M unit) m (Q' : unit -> disk -> Prop) d', renames_errors w ->
    wp md m Q' (fun _ => Xd) C d' -> wp md (orClose p (w m)) Q' X C d') as Hstep.
  { intros w m Q' d' Hw Hm. apply wp_orClose. eapply wp_conseq; [apply Hw, Hm|done| |done].
    intros e d'' [? ?]. auto. }
  apply wp_bind, Hstep, wp_update; [done| |by split|auto]. rewrite lookup_insert_eq, insert_insert_eq.
  apply wp_bind, Hstep, wp_syscall; [done|..].
  - rewrite lookup_insert_eq. unfold append_data. rewrite lookup_insert_eq, insert_insert_eq.
    apply wp_bind, Hstep, wp_observe; [done|done|by split|auto].
  - intros Hm n gone. split; [done|]. eapply agree_off_trans; [apply Hag | apply agree_off_append].
  - intros n gone. apply HC. eapply agree_off_trans; [apply Hag | apply agree_off_append].
Qed.

Lemma wp_writeSyncedFile p data mode_ (Q : unit -> disk -> Prop) X C d :
  d !! parent p = Some NDir -> d !! p = None -> Q tt (<[p:=NFile mode_ data]> d) ->
  touches_only p d X C -> wp md (writeSyncedFile p data mode_) Q X C d.
Proof.
  intros Hpar Hp HQ Ht. pose proof Ht as [HX HC]. pose proof (agree_off_refl p d).
  apply wp_bind, wp_create; auto. apply (wp_fill (fun m => m) (fun m => m) (fun m => m)); [apply renames_id..|done|].
  apply wp_observe; auto using agree_off_insert.
Qed.

Lemma wp_copySyncedFile src p m s mode_ (Q : unit -> disk -> Prop) X C d :
  d !! src = Some (NFile m s) -> d !! parent p = Some NDir -> d !! p = None ->
  Q tt (<[p:=NFile mode_ s]> d) -> touches_only p d X C ->
  wp md (copySyncedFile src p mode_) Q X C d.
Proof.
  intros Hsrc Hpar Hp HQ Ht. pose proof Ht as [HX HC]. pose proof (agree_off_refl p d).
  apply wp_bind. eapply wp_read_file; [done| |auto|auto].
  apply wp_bind, wp_create; auto. apply (wp_fill (fun m => m) (fun m => m) (fun m => m)); [apply renames_id..|done|].
  apply wp_observe; auto using agree_off_insert.
Qed.

(** ** The journal *)

Definition tempPath (directory : path) (tmp : string) : path := directory ++ [".journal-" +:+ tmp].

(** The journal is in place, the temporary file is not. *)
Definition published (directory : path) (tmp : string) (j : transactionJournal) (d d' : disk) : Prop :=
  (forall q, q <> tempPath directory tmp -> q <> journalPath directory -> d' !! q = d !! q) /\
  d' !! tempPath directory tmp = None /\
  d' !! journalPath directory = Some (NFile 384 (encodeJournal j +:+ newline)).

Lemma temp_ne_journal directory tmp : tempPath directory tmp <> journalPath directory.
Proof. intros H%app_inv_head. discriminate H. Qed.

Lemma parent_snoc (p : path) x : parent (p ++ [x]) = p.
Proof. apply removelast_last. Qed.

Lemma wp_writeTransactionJournal directory j tmp (Q : bool * result goerr unit -> disk -> Prop) X (C : disk -> Prop) d :
  d !! directory = Some NDir -> d !! tempPath directory tmp = None ->
  d !! journalPath directory <> Some NDir ->
  (forall d', published directory tmp j d d' -> Q (true, Ok tt) d' /\ C d') ->
  (md = AnyFault -> forall e d', published directory tmp j d d' -> Q (true, Err e) d') ->
  (md = AnyFault -> forall e d', agree_off (tempPath directory tmp) d d' -> Q (false, Err e) d') ->
  (forall d', agree_off (tempPath directory tmp) d d' -> C d') ->
  wp md (writeTransactionJournal directory j tmp) Q X C d.
Proof.
  intros Hdir Htmp Hjn HQ HQt HQf HC. unfold writeTransactionJournal. fold (tempPath directory tmp).
  set (t := tempPath directory tmp) in *. pose proof (agree_off_refl t d) as Hrefl.
  assert (d !! parent t = Some NDir) as Hpar by (unfold t, tempPath; by rewrite parent_snoc).
  pose proof (temp_ne_journal directory tmp) as Hne. fold t in Hne.
  assert (directory <> t) as Hdt.
  { intros Heq%(f_equal length). unfold t, tempPath in Heq. rewrite length_app in Heq. simpl in Heq. lia. }
  apply wp_bind, wp_catch, wp_wrapped, wp_create; auto; [|by intros ?; apply wp_ret; auto].
  set (fin := fun (r : result goerr unit) => (published ← match r with
                  | Err e => mret (false, Err e)
                  | Ok _ => r ← catch (sync_dir directory); mret (true, r)
                  end; ignore (remove t);; mret published) : M (bool * result goerr unit)).
  assert (md = AnyFault -> forall e d', agree_off t d d' -> wp md (fin (Err e)) Q X C d') as Hfail.
  { intros Hm e d' Ha. apply wp_bind, wp_ret, wp_bind, wp_ignore, wp_update; [|intros _|auto].
    - destruct (d' !! t) as [[]|]; try (apply wp_ret; auto; fail).
      + destruct (children t d'); apply wp_ret; auto. apply HQf; [done|].
        eapply agree_off_trans; [done | apply agree_off_delete].
      + apply wp_ret, HQf; [done|]. eapply agree_off_trans; [done | apply agree_off_delete].
      + apply wp_ret, HQf; [done|]. eapply agree_off_trans; [done | apply agree_off_delete].
      + apply wp_ret, HQf; [done|]. eapply agree_off_trans; [done | apply agree_off_delete].
    - apply wp_ret; auto. }
  assert (forall d', published directory tmp j d d' -> wp md (fin (Ok tt)) Q X C d') as Hsucc.
  { intros d' Hp. pose proof Hp as (Hs & Ht & Hj). destruct (HQ d' Hp) as [HQd HCd].
    assert (forall r, Q (true, r) d' -> wp md (ignore (remove t);; mret (true, r)) Q X C d') as Hrm.
    { intros r Hr. fold t in Ht. apply wp_bind, wp_ignore, wp_update; [rewrite Ht|intros _|done]; by apply wp_ret. }
    assert (d' !! directory = Some NDir) as Hd'.
    { rewrite Hs; [done|done|]. intros Heq%(f_equal length). unfold journalPath in Heq.
      rewrite length_app in Heq. simpl in Heq. lia. }
    apply wp_bind, wp_bind, wp_catch, wp_sync_dir; [done|apply wp_ret, Hrm; done| |done].
    intros Hm. apply wp_ret, Hrm; auto. }
  apply wp_bind, wp_catch. change (wp md (orClose t (wrapped "secure update transaction journal" (chmod t 384));;
    orClose t (wrapped "write update transaction journal" (write t (encodeJournal j +:+ newline)));;
    orClose t (wrapped "sync update transaction journal" (sync t));;
    wrapped "close update transaction journal" (close t);;
    wrapped "publish update transaction journal" (rename t (journalPath directory)))
    (fun a d' => wp md (fin (Ok a)) Q X C d') (fun e d' => wp md (fin (Err e)) Q X C d') C
    (<[t:=NFile 384 ""]> d)).
  apply wp_fill; [apply renames_wrapped..|by split|].
  pose proof (agree_off_insert t (NFile 384 (encodeJournal j +:+ newline)) d) as Hag.
  apply wp_bind, wp_wrapped, wp_observe; [|by intros ?; apply Hfail|by apply HC].
  apply wp_wrapped, wp_update; [|by intros ?; apply Hfail|by apply HC].
  rewrite lookup_insert_eq. unfold dir_at, journalPath. rewrite parent_snoc.
  rewrite lookup_insert_ne, Hdir, bool_decide_eq_true_2 by done. fold (journalPath directory).
  rewrite lookup_insert_ne by done. simpl negb. cbv iota.
  assert (published directory tmp j d (<[journalPath directory:=NFile 384 (encodeJournal j +:+ newline)]>
    (delete t (<[t:=NFile 384 (encodeJournal j +:+ newline)]> d)))) as Hpub.
  { split_and!; [|fold t|by rewrite lookup_insert_eq].
    - intros q Hq1 Hq2. fold t in Hq1. by rewrite lookup_insert_ne, lookup_delete_ne, lookup_insert_ne.
    - by rewrite lookup_insert_ne, lookup_delete_eq by done. }
  destruct (d !! journalPath directory) as [[]|]; try done; by apply Hsucc.
Qed.

(** ** Loops over [for i, x := range l] *)

Lemma drop_indexed {A} (l : list A) k i x rest :
  drop k (indexed l) = (i, x) :: rest -> i = k /\ l !! k = Some x /\ rest = drop (S k) (indexed l).
Proof.
  intros H. assert (indexed l !! k = Some (i, x)) as Hk.
  { rewrite <- (Nat.add_0_r k), <- lookup_drop, H. done. }
  unfold indexed in Hk. rewrite list_lookup_imap in Hk. destruct (l !! k) as [y|]; [|done].
  injection Hk as <- <-. split; [done|]. split; [done|].
  replace (S k) with (k + 1)%nat by lia. by rewrite <- drop_drop, H.
Qed.

Lemma wp_for_indexed {A} (I : nat -> disk -> Prop) (body : nat * A -> M unit) (l : list A)
    (Q : unit -> disk -> Prop) X C d :
  I 0%nat d ->
  (forall k x d, l !! k = Some x -> I k d -> wp md (body (k, x)) (fun _ => I (S k)) X C d) ->
  (forall d, I (length l) d -> Q tt d) ->
  wp md (for_each (indexed l) body) Q X C d.
Proof.
  intros HI Hbody HQ.
  apply wp_for_each with (I := fun todo d => exists k, (k <= length l)%nat /\ todo = drop k (indexed l) /\ I k d).
  - exists 0%nat. split; [lia|]. by rewrite drop_0.
  - intros [i x] rest d' (k & _ & Htodo & Hk). symmetry in Htodo.
    apply drop_indexed in Htodo as (-> & Hx & ->).
    eapply wp_conseq; [by apply Hbody| |done|done]. intros [] d'' H''. exists (S k).
    split; [|done]. apply lookup_lt_Some in Hx. lia.
  - intros d' (k & Hk & Htodo & Hd'). apply HQ. symmetry in Htodo. apply (f_equal length) in Htodo.
    rewrite length_drop in Htodo. unfold indexed in Htodo. rewrite length_imap in Htodo. simpl in Htodo.
    by replace (length l) with k by lia.
Qed.
End Files.

(** ** Directory guards *)

(** The identity of the tree below [dir], as [snapshotDirectoryDigest]
    computes it. *)
Definition directoryDigest (dir : path) (d : disk) : result goerr string :=
  all_ok (omap (treeFile dir) (map_to_list d)) ≫=
  fun entries => wrap_err (fun _ => Msg "tree contains an invalid or duplicate regular file") (Sum entries).

Definition guards_match (t : fileTransaction) (d : disk) : Prop :=
  forall dir exp, directories t !! dir = Some exp ->
    managed dir /\ resolvable false (comps dir) d /\ directoryDigest (comps dir) d = Ok exp.

(** The guarded directories do not hold the transaction root. *)
Definition guards_apart (t : fileTransaction) : Prop :=
  forall dir exp, directories t !! dir = Some exp ->
    ~ below (comps dir) transactionRoot /\ ~ below transactionRoot (comps dir).

Lemma all_ok_perm {A} (l l' : list (result goerr A)) rs :
  l ≡ₚ l' -> all_ok l = Ok rs -> exists rs', all_ok l' = Ok rs' /\ rs ≡ₚ rs'.
Proof.
  intros Hp. revert rs. induction Hp as [|x l l' _ IH|x y l|l1 l2 l3 _ IH1 _ IH2]; intros rs H.
  - exists rs. done.
  - simpl in *. apply bind_ok_inv in H as (a & -> & (as_ & Has & [= <-])%bind_ok_inv).
    destruct (IH as_ Has) as (rs' & Hrs' & Hperm). exists (a :: rs'). simpl. rewrite Hrs'. split; [done|].
    by constructor.
  - simpl in *. apply bind_ok_inv in H as (a & -> & (r & (b & -> & (as_ & Has & [= <-])%bind_ok_inv)%bind_ok_inv & [= <-])%bind_ok_inv).
    exists (b :: a :: as_). simpl. rewrite Has. split; [done|]. constructor.
  - destruct (IH1 rs H) as (r2 & H2 & P2). destruct (IH2 r2 H2) as (r3 & H3 & P3). exists r3. split; [done|].
    by etrans.
Qed.

Lemma omap_filter_perm {A} (f : path * node -> option A) (P : path -> Prop) `{forall q, Decision (P q)} (d : disk) :
  (forall q n, ~ P q -> f (q, n) = None) ->
  omap f (map_to_list d) ≡ₚ omap f (map_to_list (filter (fun '(q, _) => P q) d)).
Proof.
  intros Hf. induction d as [|q n d Hq IH] using map_ind; [done|].
  rewrite map_to_list_insert by done. destruct (decide (P q)) as [HP|HP].
  - rewrite map_filter_insert_True by done. rewrite map_to_list_insert by (apply map_lookup_filter_None; by left).
    simpl. by destruct (f (q, n)); rewrite IH.
  - rewrite map_filter_insert_False by done. rewrite delete_id by done. simpl. by rewrite (Hf q n HP), IH.
Qed.

Lemma directoryDigest_same dir (d d' : disk) s :
  (forall q, below dir q -> d' !! q = d !! q) -> directoryDigest dir d = Ok s -> directoryDigest dir d' = Ok s.
Proof.
  intros Hs (entries & Hall & Hsum)%bind_ok_inv.
  assert (forall q n, ~ below dir q -> treeFile dir (q, n) = None) as Hnone.
  { intros q n Hq. unfold treeFile, strip. simpl. by rewrite bool_decide_eq_false_2. }
  assert (omap (treeFile dir) (map_to_list d) ≡ₚ omap (treeFile dir) (map_to_list d')) as Hp.
  { rewrite (omap_filter_perm _ (below dir) d Hnone), (omap_filter_perm _ (below dir) d' Hnone).
    replace (filter (fun '(q, _) => below dir q) d') with (filter (fun '(q, _) => below dir q) d); [done|].
    apply map_eq. intros q. rewrite !map_lookup_filter. destruct (decide (below dir q)) as [Hq|Hq].
    - by rewrite Hs.
    - destruct (d !! q), (d' !! q); simpl; try done; by rewrite !option_guard_False. }
  destruct (all_ok_perm _ _ _ Hp Hall) as (entries' & Hall' & Hpe).
  unfold directoryDigest. rewrite Hall'. simpl. rewrite <- (Sum_order_independent entries entries'); [done| |done].
  apply Sum_accepts. by destruct (Sum entries).
Qed.

Section Verify.
Context {PR : Pathrs} {JC : JournalCodec} (md : mode) (t : fileTransaction).
Implicit Types (d : disk) (X : goerr -> disk -> Prop).

(** Resolving a path only reads, and gives the place the path names. *)
Lemma wp_Resolve_reads p am (Q : path -> disk -> Prop) X (C : disk -> Prop) d :
  (forall c, Relative p = Ok c -> Q (comps c) d) -> (forall e, X e d) -> C d -> wp md (Resolve p am) Q X C d.
Proof.
  intros HQ HX HC. apply wp_bind. unfold relative_. destruct (Relative p) as [c|]; [apply wp_ret|by apply wp_fail].
  specialize (HQ c eq_refl). apply wp_bind, wp_bind, wp_wrapped, wp_lstat; [|auto|done].
  destruct (d !! []) as [[]|]; try by apply wp_fail. 2: done.
  apply wp_ret, wp_bind. revert HQ. generalize (comps c) at 1 3 as res. generalize (@nil string) as cur.
  intros cur res HQ. revert cur. induction (comps c) as [|x l IH]; intros cur; simpl.
  { by apply wp_ret, wp_ret. }
  apply wp_bind, wp_catch, wp_lstat; [|by intros _; apply wp_fail|done].
  destruct (d !! (cur ++ [x])) as [n|]; simpl.
  - destruct n, l; try (by apply wp_fail); try (by apply wp_ret, wp_ret). apply IH.
  - destruct am; [by apply wp_ret, wp_ret|by apply wp_fail].
Qed.

Lemma wp_snapshotDirectory_reads dir (Q : string -> disk -> Prop) X (C : disk -> Prop) d :
  (forall s, Q s d) -> (forall e, X e d) -> C d -> wp md (snapshotDirectoryDigest dir) Q X C d.
Proof.
  intros HQ HX HC. apply wp_bind, wp_Resolve_reads; [intros p _|auto|done].
  apply wp_bind, wp_observe; [|auto|done]. apply wp_bind.
  destruct (all_ok _) as [l|e]; [apply wp_ret|by apply wp_fail].
  destruct (Sum l); [by apply wp_ret|by apply wp_fail].
Qed.

Lemma wp_snapshotDirectory dir s (Q : string -> disk -> Prop) X (C : disk -> Prop) d :
  managed dir -> resolvable false (comps dir) d -> directoryDigest (comps dir) d = Ok s ->
  Q s d -> (md = AnyFault -> forall e, X e d) -> C d -> wp md (snapshotDirectoryDigest dir) Q X C d.
Proof.
  intros Hm Hr (l & Hall & Hsum)%bind_ok_inv HQ HX HC. apply wp_bind, wp_Resolve; [done|done| |done|done].
  apply wp_bind, wp_observe; [|auto|done]. rewrite Hall. apply wp_bind, wp_ret.
  destruct (Sum l); [|done]. injection Hsum as ->. by apply wp_ret.
Qed.

(** [Verify] only reads.  It succeeds when files and guards match; with the
    files matching it fails only on a guard ([X] holds anyway) or a fault. *)
Lemma wp_Verify (Q : unit -> disk -> Prop) X (C : disk -> Prop) d :
  (forall p e, files t !! p = Some e ->
     managed p /\ resolvable true (comps p) d /\ file_or_absent (d !! comps p)) ->
  files_match t d -> guards_match t d \/ (forall e, X e d) ->
  Q tt d -> (md = AnyFault -> forall e, X e d) -> C d -> wp md (Verify t) Q X C d.
Proof.
  intros Hread Hmatch Hguards HQ HX HC. apply wp_bind.
  apply wp_for_each with (I := fun l d' => d' = d /\ forall p, p ∈ l -> is_Some (files t !! p)).
  - split; [done|]. intros p. apply elem_of_paths.
  - intros p l d' [-> Hl]. destruct (Hl p) as [e He]; [apply elem_of_cons; by left|].
    destruct (Hread p e He) as (Hm & Hr & Hf). apply wp_bind, wp_snapshotManagedFile; auto.
    rewrite He, (Hmatch p e He). apply wp_ret. split; [done|]. intros q Hq. apply Hl, elem_of_cons. by right.
  - intros d' [-> _].
    apply wp_for_each with (I := fun l d' => d' = d /\ forall x, x ∈ l -> x ∈ map_to_list (directories t)); [done| |by intros ? [-> _]].
    intros [dir exp] l d' [-> Hl].
    assert (directories t !! dir = Some exp) as Hd by (apply elem_of_map_to_list, Hl, elem_of_cons; by left).
    assert (forall x, x ∈ l -> x ∈ map_to_list (directories t)) as Hl' by (intros x Hx; apply Hl, elem_of_cons; by right).
    apply wp_bind. destruct Hguards as [Hg|HX'].
    + destruct (Hg dir exp Hd) as (? & ? & ?). eapply wp_snapshotDirectory; [done..| |auto|auto].
      rewrite String.eqb_refl. by apply wp_ret.
    + apply wp_snapshotDirectory_reads; [|done|done]. intros s. apply wp_require; by intros _.
Qed.

(** A file in another version stops [Verify]: nothing is written. *)
Lemma wp_Verify_mismatch (Q : unit -> disk -> Prop) X (C : disk -> Prop) d p e :
  (forall p e, files t !! p = Some e ->
     managed p /\ resolvable true (comps p) d /\ file_or_absent (d !! comps p)) ->
  files t !! p = Some e -> sameManagedVersion (version_of (d !! comps p)) (expected e) = false ->
  (forall e, X e d) -> C d -> wp md (Verify t) Q X C d.
Proof.
  intros Hread He Hbad HX HC. apply wp_bind.
  apply wp_for_each with (I := fun l d' => d' = d /\ p ∈ l /\ forall p, p ∈ l -> is_Some (files t !! p)).
  - split; [done|]. split; [apply elem_of_paths; eauto|]. intros q. apply elem_of_paths.
  - intros q l d' (-> & Hin & Hl). destruct (Hl q) as [e' He']; [apply elem_of_cons; by left|].
    destruct (Hread q e' He') as (Hm & Hr & Hf). apply wp_bind, wp_snapshotManagedFile; auto.
    rewrite He'. apply wp_require; intros Hok; [|done]. split; [done|]. split.
    + apply elem_of_cons in Hin as [<-|]; [|done]. congruence.
    + intros q' Hq'. apply Hl, elem_of_cons. by right.
  - intros d' (_ & []%elem_of_nil & _).
Qed.

(** With nothing below the transaction root there is nothing to recover. *)
Lemma wp_recover_clean (Q : bool -> disk -> Prop) (X : goerr -> disk -> Prop) (C : disk -> Prop) d :
  readable t d -> Q false d -> (md = AnyFault -> forall e, X e d) -> C d ->
  wp md recoverTransactions Q X C d.
Proof.
  intros Hread HQ HX HC.
  assert (resolvable true transactionRoot d) as Hres.
  { split; [apply Hread|]. split_and!; [|by destruct (read_txroot _ _ Hread _ (below_refl _)) as [-> | ->]|done].
    intros q Hq _. destruct (read_txroot _ _ Hread q Hq); auto. }
  apply wp_bind, wp_wrapped, wp_Resolve; rewrite ?txroot_comps; [apply managed_txroot|done| |by auto|done].
  apply wp_bind, wp_catch, wp_observe; [|by intros ?; apply wp_fail; auto|done].
  destruct (read_txroot _ _ Hread transactionRoot (below_refl _)) as [-> | ->]; [by apply wp_ret|].
  replace (children transactionRoot d) with (@nil (string * node)); [by apply wp_bind, wp_ret, wp_ret|].
  symmetry. destruct (children transactionRoot d) as [|[name n] l] eqn:Hc; [done|]. exfalso.
  assert ((name, n) ∈ children transactionRoot d) as Hin by (rewrite Hc; apply elem_of_cons; by left).
  apply elem_of_children in Hin. rewrite (read_clean _ _ Hread) in Hin; [done|apply below_app|].
  intros Heq%(f_equal length). rewrite length_app in Heq. simpl in Heq. lia.
Qed.
End Verify.
End TransactionCommit.
