(* ===== verification/TransactionAtomic.v ===== *)
(** [Commit] is atomic: the trees it goes through while it stages, replaces
    and cleans up, and the theorems of the component. *)
From stdpp Require Import prelude gmap strings list sorting.
From Stdlib Require Import Ascii ZArith Lia.
From S2P Require Import Prelude GoStrings FsPath Sha256 Fs Treehash Transaction TransactionSpec TransactionRecovery TransactionBuild TransactionCommit.

Module TransactionAtomic.
Import FsPath Sha256 Fs Treehash Transaction TransactionSpec TransactionRecovery TransactionBuild TransactionCommit.

#[local] Opaque transactionRoot transactionRootRel Pad6.

Section Commit.
Context {PR : Pathrs} {JC : JournalCodec} (t : fileTransaction) (d0 : disk) (id : string).
Context (Ready : ready t d0) (Ne : Changed t <> []) (Id : validTransactionID id = true).
Implicit Types (d : disk).

Abbreviation S0 := (setupOf t d0 id).
Abbreviation D := (txdir S0).

Lemma OK : setup_ok S0.
Proof. by apply ready_setup. Qed.

(** ** Staging *)

(** Up to the prepared journal, only the transaction directory is written. *)
Record staging (d : disk) : Prop := {
  st_outside : forall q, ~ below transactionRoot q ->
    d !! q = d0 !! q \/ (d0 !! q = None /\ d !! q = Some NDir /\ below q transactionRoot);
  st_root : d !! transactionRoot = Some NDir;
  st_dir : d !! D = Some NDir;
  st_only : forall name n, d !! (transactionRoot ++ [name]) = Some n -> name = id;
  st_journal : d !! journalPath D = None
}.

Lemma staging_file d p e : staging d -> files t !! p = Some e -> d !! comps p = d0 !! comps p.
Proof.
  intros Hd He. destruct (read_apart _ _ (ready_read _ _ Ready) p e He) as [Ha Hb].
  by destruct (st_outside d Hd (comps p) Ha) as [?|(_ & _ & ?)].
Qed.

Lemma recs_files r : r ∈ recs S0 -> exists e, files t !! RPath r = Some e.
Proof. intros (p & e & He & _ & -> & _)%elem_of_recs. by exists e. Qed.

Lemma staging_old d : staging d -> all_old S0 d.
Proof. intros Hd r Hr. destruct (recs_files r Hr) as [e He]. by apply (staging_file d _ e). Qed.

Lemma staging_outside d : staging d -> outside S0 d.
Proof. intros Hd q Hq _. destruct (st_outside d Hd q Hq) as [?|(? & ? & ?)]; [by left|right]. auto. Qed.

Lemma staging_only d : staging d -> only_entry S0 d.
Proof.
  intros Hd. split; [right; apply (st_root d Hd)|]. intros name n Hn.
  pose proof (st_only d Hd name n Hn) as ->. pose proof (st_dir d Hd) as HD. pose proof (st_root d Hd).
  unfold txdir in HD. simpl in HD. split; [done|]. split; [congruence|done].
Qed.

Lemma staging_settled d : staging d -> settled S0 d.
Proof.
  intros Hd. split; [by apply staging_outside|]. split; [by apply staging_only|].
  split; [by apply st_root|]. left. split; [by apply staging_old|]. left. by apply st_journal.
Qed.

Lemma staging_recoverable d : staging d -> recoverable S0 d.
Proof. intros Hd. by apply settled_recoverable, staging_settled. Qed.

(** A path strictly below the transaction directory *)
Definition inside (q : path) : Prop := exists x l, q = D ++ x :: l.

Lemma inside_root q : inside q -> below transactionRoot q.
Proof. intros (x & l & ->). apply below_txdir. Qed.

Lemma inside_length q : inside q -> (length transactionRoot + 1 < length q)%nat.
Proof. intros (x & l & ->). rewrite length_app, length_txdir. simpl. lia. Qed.

Lemma staging_inside d d' :
  staging d -> (forall q, ~ inside q \/ q = journalPath D -> d' !! q = d !! q) -> staging d'.
Proof.
  intros [H1 H2 H3 H4 H5] Hs. split.
  - intros q Hq. rewrite Hs; [by apply H1|]. left. by intros ?%inside_root.
  - rewrite Hs; [done|]. left. intros H%inside_length. lia.
  - rewrite Hs; [done|]. left. intros H%inside_length. rewrite length_txdir in H. lia.
  - intros name n. rewrite Hs; [apply H4|]. left. intros H%inside_length. rewrite length_app in H. simpl in H. lia.
  - rewrite Hs; auto.
Qed.

Lemma staging_agree p d d' : staging d -> inside p -> p <> journalPath D -> agree_off p d d' -> staging d'.
Proof.
  intros Hd Hp Hj Ha. eapply staging_inside; [done|]. intros q Hq. apply Ha. intros ->. naive_solver.
Qed.

(** The file of index [i] below [D/sub]: a candidate or a backup *)
Definition slot (sub : string) (i : nat) : path := D ++ [sub; Pad6 i].

Lemma slot_inj sub sub' i j : slot sub i = slot sub' j -> sub = sub' /\ i = j.
Proof. intros H%app_inv_head. injection H as -> ?%Pad6_inj. done. Qed.

(** The slots of the first [k] records hold what [want] says, the others are
    free. *)
Record slots (sub : string) (want : transactionRecord -> option node) (k : nat) (d : disk) : Prop := {
  sl_dir : d !! (D ++ [sub]) = Some NDir;
  sl_done : forall i r n, recs S0 !! i = Some r -> (i < k)%nat -> want r = Some n -> d !! slot sub i = Some n;
  sl_free : forall i, (k <= i)%nat -> d !! slot sub i = None
}.

Lemma slots_skip sub want k r d :
  recs S0 !! k = Some r -> want r = None -> slots sub want k d -> slots sub want (S k) d.
Proof.
  intros Hk Hw [H1 H2 H3]. split; [done| |intros i Hi; apply H3; lia].
  intros i r' n Hi Hlt Hn. destruct (decide (i = k)) as [->|]; [congruence|]. eapply H2; [done|lia|done].
Qed.

Lemma slots_fill sub want k r n d :
  recs S0 !! k = Some r -> want r = Some n -> slots sub want k d ->
  slots sub want (S k) (<[slot sub k := n]> d).
Proof.
  intros Hk Hw [H1 H2 H3]. split.
  - rewrite lookup_insert_ne; [done|]. intros H%app_inv_head. done.
  - intros i r' n' Hi Hlt Hn. destruct (decide (i = k)) as [->|].
    + rewrite lookup_insert_eq. congruence.
    + rewrite lookup_insert_ne by (by intros [_ ->]%slot_inj). eapply H2; [done|lia|done].
  - intros i Hi. rewrite lookup_insert_ne by (intros [_ ->]%slot_inj; lia). apply H3. lia.
Qed.

Lemma slots_same sub want k d d' :
  d' !! (D ++ [sub]) = d !! (D ++ [sub]) -> (forall i, d' !! slot sub i = d !! slot sub i) ->
  slots sub want k d -> slots sub want k d'.
Proof.
  intros Hd Hs [H1 H2 H3]. split.
  - congruence.
  - intros i r n. rewrite Hs. apply H2.
  - intros i. rewrite Hs. apply H3.
Qed.

Lemma slots_other sub sub' want k i n d :
  sub <> sub' -> slots sub want k d -> slots sub want k (<[slot sub' i := n]> d).
Proof.
  intros Hne. apply slots_same; [|intros j]; apply lookup_insert_ne.
  - intros H. unfold slot in H. apply app_inv_head in H. done.
  - by intros [-> _]%slot_inj.
Qed.

(** The state of the staging loop: [kc] candidates and [kb] backups done *)
Record staged (kc kb : nat) (d : disk) : Prop := {
  sg_staging : staging d;
  sg_cand : slots "candidate" (new S0) kc d;
  sg_back : slots "backup" (old S0) kb d;
  sg_temp : forall tmp, d !! tempPath D tmp = None
}.

Lemma slot_inside sub i : inside (slot sub i) /\ slot sub i <> journalPath D.
Proof. split; [by exists sub, [Pad6 i]|]. intros H%app_inv_head. done. Qed.

Lemma slot_temp sub i tmp : slot sub i <> tempPath D tmp.
Proof. intros H%app_inv_head. done. Qed.

Lemma staged_insert_slot sub i n kc kb d :
  staged kc kb d -> staging (<[slot sub i := n]> d) /\
  forall tmp, <[slot sub i := n]> d !! tempPath D tmp = None.
Proof.
  intros [Hs _ _ Ht]. destruct (slot_inside sub i). split.
  - eapply staging_agree; [done..|]. apply agree_off_insert.
  - intros tmp. rewrite lookup_insert_ne by apply slot_temp. apply Ht.
Qed.

Lemma changed_entry k p : Changed t !! k = Some p ->
  exists e, files t !! p = Some e /\ entryOf t p = e /\ recs S0 !! k = Some (recordOf p e) /\
    recordOf p e ∈ recs S0.
Proof.
  intros Hk. assert (p ∈ Changed t) as (e & He & _)%elem_of_Changed by (by eapply list_elem_of_lookup_2).
  assert (entryOf t p = e) as Hent by (unfold entryOf; by rewrite He).
  assert (recs S0 !! k = Some (recordOf p e)) as Hr.
  { simpl. rewrite list_lookup_fmap, Hk. simpl. by rewrite Hent. }
  exists e. split_and!; try done. by eapply list_elem_of_lookup_2.
Qed.

Lemma staging_readable d p e : staging d -> files t !! p = Some e ->
  managed p /\ resolvable true (comps p) d /\ file_or_absent (d !! comps p).
Proof.
  intros Hd He. pose proof (ready_read _ _ Ready) as Hread.
  destruct (txn_files _ (ready_txn _ _ Ready) p e He) as [Hm _].
  destruct (read_files _ _ Hread p e He) as [(Hroot & Hanc & Hlink & _) Hf].
  destruct (read_apart _ _ Hread p e He) as [Ha _]. rewrite (staging_file d p e Hd He).
  split; [done|]. split; [|done]. split; [by eapply root_dir, staging_outside; [apply OK|]|].
  rewrite (staging_file d p e Hd He). split_and!; [|done|done].
  intros q Hq Hne. destruct (st_outside d Hd q) as [->|(_ & -> & _)]; [|by apply Hanc|by left].
  intros Hb. apply Ha. by eapply below_trans.
Qed.

Lemma staging_resolves d p e : staging d -> files t !! p = Some e -> is_Some (d0 !! comps p) ->
  resolvable false (comps p) d.
Proof.
  intros Hd He Hp. pose proof (ready_read _ _ Ready) as Hread.
  destruct (staging_readable d p e Hd He) as (_ & (Hroot & Hanc & Hlink & _) & _).
  split; [done|]. split_and!; [|done|by rewrite (staging_file d p e Hd He)].
  intros q Hq Hne. left. destruct (Hanc q Hq Hne) as [?|[_ Hnone]]; [done|].
  pose proof (tree_ancestors d0 _ q (read_tree _ _ Hread) Hp Hq Hne) as Hq0.
  destruct (st_outside d Hd q) as [Heq|(_ & ? & _)]; [|congruence|done].
  intros Hb. destruct (read_apart _ _ Hread p e He) as [Ha _]. apply Ha. by eapply below_trans.
Qed.

Section Programs.
Context (md : mode).

Abbreviation FailsSettled := (fun (_ : goerr) (d : disk) => md = AnyFault /\ settled S0 d).

Lemma staging_touches p d : staging d -> inside p -> p <> journalPath D ->
  touches_only md p d FailsSettled (recoverable S0).
Proof.
  intros Hd Hp Hj. split.
  - intros Hm e d' Ha. split; [done|]. apply staging_settled. by eapply staging_agree.
  - intros d' Ha. apply staging_recoverable. by eapply staging_agree.
Qed.

Lemma wp_stage_candidate k p e d (Q : unit -> disk -> Prop) :
  recs S0 !! k = Some (recordOf p e) -> entryOf t p = e -> staged k k d ->
  (forall d', staged (S k) k d' -> Q tt d') ->
  wp md (if mv_exists (candidate e) then
           wrapped "stage managed file"
             (writeSyncedFile (transactionCandidate D k) (default "" (mv_data (candidate e)))
                (mv_mode (candidate e)))
         else mret tt) Q FailsSettled (recoverable S0) d.
Proof.
  intros Hk Hent Hd HQ. pose proof Hd as [Hs Hc Hb Ht].
  assert (new S0 (recordOf p e) = candidateNode e) as Hnew by (unfold new; simpl; by rewrite Hent).
  unfold candidateNode in Hnew. destruct (mv_exists (candidate e)).
  - destruct (slot_inside "candidate" k). apply wp_wrapped, wp_writeSyncedFile.
    + unfold transactionCandidate, parent. change [ "candidate"; Pad6 k] with (["candidate"] ++ [Pad6 k]).
      rewrite app_assoc, removelast_last. apply Hc.
    + by apply (sl_free _ _ _ _ Hc k).
    + destruct (staged_insert_slot "candidate" k
        (NFile (mv_mode (candidate e)) (default "" (mv_data (candidate e)))) k k d Hd).
      apply HQ. split; [done|by eapply slots_fill|by apply slots_other|done].
    + by apply staging_touches.
  - apply wp_ret, HQ. split; [done|by eapply slots_skip|done..].
Qed.

Lemma wp_stage_backup k p e d (Q : unit -> disk -> Prop) :
  recs S0 !! k = Some (recordOf p e) -> files t !! p = Some e -> staged (S k) k d ->
  (forall d', staged (S k) (S k) d' -> Q tt d') ->
  wp md (if mv_exists (expected e) then
           canonical ← Resolve p false;
           wrapped "backup managed file"
             (copySyncedFile canonical (transactionBackup D k) (mv_mode (expected e)));;
           backup ← wrapped "verify backup managed file" (snapshotAbsoluteFile (transactionBackup D k));
           require (sameManagedVersion backup (expected e))
             (Msg "backup managed file does not match its expected state")
         else mret tt) Q FailsSettled (recoverable S0) d.
Proof.
  intros Hk He Hd HQ. pose proof Hd as [Hs Hc Hb Ht].
  assert (recordOf p e ∈ recs S0) as Hr by (by eapply list_elem_of_lookup_2).
  pose proof (setup_records S0 OK _ Hr) as Hrec.
  destruct (staging_readable d p e Hs He) as (Hm & _).
  pose proof (staging_settled d Hs) as Hset. pose proof (staging_recoverable d Hs) as Hrc.
  pose proof (ready_match _ _ Ready p e He) as Hmatch.
  destruct (describes_exists _ _ _ _ (rec_old S0 _ Hrec)) as [(Hx & m & s & Ho)|(Hx & Ho)];
    simpl in Hx; rewrite Hx.
  2: { apply wp_ret, HQ. split; [done|done|by eapply slots_skip|done]. }
  assert (d0 !! comps p = Some (NFile m s)) as Hd0 by exact Ho. rewrite Hd0 in Hmatch.
  assert (mv_mode (expected e) = m) as -> by (by apply sameManagedVersion_spec in Hmatch as (_ & ? & _)).
  assert (d !! comps p = Some (NFile m s)) as Hdp by (by rewrite (staging_file d p e Hs He)).
  apply wp_bind, wp_Resolve; [done|eapply staging_resolves; eauto| |by auto|done].
  destruct (slot_inside "backup" k). apply wp_bind, wp_wrapped. eapply wp_copySyncedFile; [exact Hdp| | | |].
  - unfold transactionBackup, parent. change [ "backup"; Pad6 k] with (["backup"] ++ [Pad6 k]).
    rewrite app_assoc, removelast_last. apply Hb.
  - by apply (sl_free _ _ _ _ Hb k).
  - destruct (staged_insert_slot "backup" k (NFile m s) (S k) k d Hd) as [Hs' Ht'].
    pose proof (staging_settled _ Hs') as Hset'. pose proof (staging_recoverable _ Hs') as Hrc'.
    assert (staged (S k) (S k) (<[slot "backup" k:=NFile m s]> d)) as Hdone
      by (split; [done|by apply slots_other|by eapply slots_fill|done]).
    apply wp_bind, wp_wrapped, wp_bind, wp_lstat; [|by auto|done]. rewrite lookup_insert_eq.
    apply wp_bind. eapply wp_read_file; [apply lookup_insert_eq| |by auto|done].
    apply wp_ret. simpl in Hmatch |- *. rewrite Hmatch. apply wp_ret. by apply HQ.
  - by apply staging_touches.
Qed.

Lemma wp_stageFile k p d :
  Changed t !! k = Some p -> staged k k d ->
  wp md (stageFile t D k p) (fun _ => staged (S k) (S k)) FailsSettled (recoverable S0) d.
Proof.
  intros (e & He & Hent & Hk & _)%changed_entry Hd. unfold stageFile. rewrite Hent. apply wp_bind.
  eapply wp_stage_candidate; [done..|]. intros d' Hd'. eapply wp_stage_backup; done.
Qed.

(** *** From the fresh directory to the prepared journal *)

(** The transaction directory has just been created. *)
Definition fresh (d : disk) : Prop := staging d /\ forall q, inside q -> d !! q = None.

Lemma wp_mkdir_inside p d (Q : unit -> disk -> Prop) (X : goerr -> disk -> Prop) :
  staging d -> d !! parent p = Some NDir -> d !! p = None ->
  Q tt (<[p := NDir]> d) -> (md = AnyFault -> forall e, X e d) -> wp md (mkdir p) Q X (recoverable S0) d.
Proof.
  intros Hd Hpar Hp HQ HX. apply wp_update; [|auto|by apply staging_recoverable].
  unfold dir_at. rewrite Hpar, Hp. by rewrite bool_decide_eq_true_2.
Qed.

Lemma wp_stageDirectories d (Q : unit -> disk -> Prop) :
  fresh d -> (forall d', staged 0 0 d' -> Q tt d') ->
  wp md (for_each [candidateDirectory D; backupDirectory D]
           (fun p => wrapped "create update transaction" (mkdir p))) Q FailsSettled (recoverable S0) d.
Proof.
  intros [Hs Hf] HQ. pose proof (st_dir d Hs) as HD.
  assert (forall x, D <> D ++ [x]) as Hne.
  { intros x Heq%(f_equal length). rewrite length_app in Heq. simpl in Heq. lia. }
  assert (forall x, x <> "journal.json" -> inside (D ++ [x]) /\ D ++ [x] <> journalPath D) as Hin.
  { intros x Hx. split; [by exists x, []|]. intros H%app_inv_head. by injection H. }
  destruct (Hin "candidate") as [Hic Hjc]; [done|]. destruct (Hin "backup") as [Hib Hjb]; [done|].
  set (d1 := <[candidateDirectory D := NDir]> d). set (d2 := <[backupDirectory D := NDir]> d1).
  assert (staging d1) as Hs1 by (eapply staging_agree; [exact Hs|exact Hic|done|apply agree_off_insert]).
  assert (staging d2) as Hs2 by (eapply staging_agree; [exact Hs1|exact Hib|done|apply agree_off_insert]).
  assert (candidateDirectory D <> backupDirectory D) as Hcb by (intros H%app_inv_head; done).
  assert (forall q, inside q -> q <> candidateDirectory D -> q <> backupDirectory D -> d2 !! q = None) as Hfree.
  { intros q Hq H1 H2. unfold d2, d1. rewrite !lookup_insert_ne by done. by apply Hf. }
  assert (forall sub i, d2 !! slot sub i = None) as Hslots.
  { intros sub i. apply Hfree; [apply slot_inside| |]; unfold slot; intros H%app_inv_head; done. }
  assert (staged 0 0 d2) as Hd2.
  { split; [done| | |].
    - split; [|by intros; lia|by auto]. unfold d2, d1. rewrite lookup_insert_ne by done. by rewrite lookup_insert_eq.
    - split; [|by intros; lia|by auto]. unfold d2. by rewrite lookup_insert_eq.
    - intros tmp. apply Hfree; [by exists (".journal-" +:+ tmp), []| |]; intros H%app_inv_head; done. }
  unfold for_each. apply wp_bind, wp_wrapped, wp_mkdir_inside.
  - done.
  - unfold candidateDirectory. by rewrite parent_snoc.
  - apply Hf, Hic.
  - apply wp_bind, wp_wrapped, wp_mkdir_inside; fold d1 d2.
    + done.
    + unfold backupDirectory, d1. rewrite parent_snoc, lookup_insert_ne by apply not_eq_sym, Hne. done.
    + unfold d1. rewrite lookup_insert_ne by done. by apply Hf.
    + by apply wp_ret, HQ.
    + intros Hm _. split; [done|]. by apply staging_settled.
  - intros Hm _. split; [done|]. by apply staging_settled.
Qed.

(** *** The replacement loop *)

(** [k] files are replaced, the candidates of the others are staged. *)
Record applying (k : nat) (d : disk) : Prop := {
  ap_outside : outside S0 d;
  ap_only : only_entry S0 d;
  ap_journal : journal_at S0 transactionPrepared d;
  ap_new : forall i r, recs S0 !! i = Some r -> (i < k)%nat -> d !! comps (RPath r) = new S0 r;
  ap_old : forall i r, recs S0 !! i = Some r -> (k <= i)%nat -> d !! comps (RPath r) = old S0 r;
  ap_cand : forall i r n, recs S0 !! i = Some r -> (k <= i)%nat -> new S0 r = Some n ->
    d !! slot "candidate" i = Some n;
  ap_back : forall i r n, recs S0 !! i = Some r -> old S0 r = Some n -> d !! slot "backup" i = Some n;
  ap_temp : forall tmp, d !! tempPath D tmp = None
}.

Lemma applying_prepared k d : applying k d -> prepared S0 d.
Proof.
  intros [Ho He Hj Hn Hold _ Hb _]. split; [done|]. split; [done|]. split; [done|].
  intros i r Hi. split.
  - destruct (decide (i < k)%nat); [right; by eapply Hn|left; eapply Hold; [done|lia]].
  - intros Hx. left. assert (r ∈ recs S0) as Hr by (by eapply list_elem_of_lookup_2).
    destruct (describes_exists _ _ _ _ (rec_old S0 r (setup_records S0 OK r Hr))) as [(_ & m & s & Ho')|(? & _)];
      [|congruence]. rewrite Ho'. by apply (Hb i r).
Qed.

Lemma applying_start kc d tmp d' :
  staged kc kc d -> kc = length (recs S0) ->
  published D tmp (preparedJournal t (Changed t)) d d' -> applying 0 d'.
Proof.
  intros [Hs Hc Hb Ht] Hlen (Hsame & Htmp & Hj).
  assert (forall q, ~ inside q -> d' !! q = d !! q) as Hout.
  { intros q Hq. apply Hsame; intros ->; apply Hq; eexists _, _; reflexivity. }
  assert (forall sub i, d' !! slot sub i = d !! slot sub i) as Hslot.
  { intros sub i. apply Hsame; [apply slot_temp|apply slot_inside]. }
  assert (forall i r, recs S0 !! i = Some r -> (i < kc)%nat) as Hlt.
  { intros i r Hi%lookup_lt_Some. lia. }
  pose proof (staging_outside d Hs) as Ho. destruct (staging_only d Hs) as [He1 He2].
  split.
  - intros q Hq1 Hq2. rewrite Hout; [by apply Ho|]. by intros ?%inside_root.
  - split; [|intros name n]; rewrite !Hout; try done; try apply He2; intros H%inside_length;
      rewrite ?length_app in H; simpl in H; lia.
  - split; [|split].
    + rewrite Hout; [apply (st_root d Hs)|]. intros H%inside_length. lia.
    + rewrite Hout; [apply (st_dir d Hs)|]. intros H%inside_length. rewrite length_txdir in H. lia.
    + exists 384%Z. exact Hj.
  - intros i r _ Hlt0. lia.
  - intros i r Hi _. assert (r ∈ recs S0) as Hr by (by eapply list_elem_of_lookup_2).
    rewrite Hout; [by apply staging_old|]. intros Hin%inside_root. by apply (rec_ne_below S0 OK r _ Hr Hin).
  - intros i r n Hi _ Hn. rewrite Hslot. by eapply (sl_done _ _ _ _ Hc); [|eapply Hlt|].
  - intros i r n Hi Hn. rewrite Hslot. by eapply (sl_done _ _ _ _ Hb); [|eapply Hlt|].
  - intros tmp'. destruct (decide (tempPath D tmp' = tempPath D tmp)) as [->|Hne]; [done|].
    rewrite Hsame; [apply Ht|done|apply temp_ne_journal].
Qed.

(** With [strict], the guarded directories are known to match. *)
Context (strict : bool) (Strict : strict = true -> guards_match t d0 /\ guards_apart t).

Lemma staging_guards d : staging d -> guards_match t d0 -> guards_apart t -> guards_match t d.
Proof.
  intros Hd Hg Ha dir exp Hdir. destruct (Hg dir exp Hdir) as (Hm & (Hroot & Hanc & Hlink & Hpres) & Hdig).
  destruct (Ha dir exp Hdir) as [Ha1 Ha2].
  assert (forall q, below (comps dir) q -> d !! q = d0 !! q) as Hsame.
  { intros q Hq. destruct (st_outside d Hd q) as [?|(_ & _ & Hb)]; [|done|].
    - intros Hb. apply below_iff in Hq as [l1 ->], Hb as [l2 Hb].
      apply app_eq_inv in Hb as [(k & Hk & _)|(k & Hk & _)].
      + apply Ha2. rewrite Hk. apply below_app.
      + apply Ha1. rewrite Hk. apply below_app.
    - destruct Ha1. by eapply below_trans. }
  split; [done|]. split; [|by eapply directoryDigest_same].
  split; [by eapply root_dir, staging_outside; [apply OK|]|].
  rewrite (Hsame _ (below_refl _)). split_and!; [|done|done].
  intros q Hq Hne. left. destruct (st_outside d Hd q) as [->|(_ & ? & _)]; [|by destruct (Hanc q Hq Hne) as [?|[? _]]|done].
  intros Hb. apply Ha2. by eapply below_trans.
Qed.

Abbreviation FailsStage := (fun (_ : goerr) (d : disk) => (md = AnyFault \/ strict = false) /\ settled S0 d).

Lemma wp_Verify_staging d (Q : unit -> disk -> Prop) (X : goerr -> disk -> Prop) (C : disk -> Prop) :
  staging d -> Q tt d -> (md = AnyFault \/ strict = false -> forall e, X e d) -> C d ->
  wp md (Verify t) Q X C d.
Proof.
  intros Hd HQ HX HC. apply wp_Verify; auto.
  - intros p e He. by apply (staging_readable d p e).
  - intros p e He. rewrite (staging_file d p e Hd He). by apply (ready_match _ _ Ready).
  - destruct strict eqn:Hst; [left|right; by apply HX; right].
    destruct (Strict eq_refl). by apply staging_guards.
Qed.

Lemma settled_published d : applying 0 d -> settled S0 d.
Proof.
  intros Ha. pose proof (applying_prepared _ _ Ha) as (Ho & He & Hj & Hres). split; [done|]. split; [done|].
  pose proof Hj as (HR & _). split; [done|]. left. split; [|by right].
  intros r [i Hi]%list_elem_of_lookup. eapply (ap_old _ _ Ha); [done|lia].
Qed.

Lemma temp_inside tmp : inside (tempPath D tmp) /\ tempPath D tmp <> journalPath D.
Proof. split; [by exists (".journal-" +:+ tmp), []|apply temp_ne_journal]. Qed.

Lemma wp_stageAll tmp d (Q : unit -> disk -> Prop) :
  fresh d -> (forall d', applying 0 d' -> Q tt d') ->
  wp md (stageAll t (Changed t) D tmp) Q FailsStage (recoverable S0) d.
Proof.
  intros Hd HQ. assert (forall e d', md = AnyFault /\ settled S0 d' -> FailsStage e d') as HX
    by (intros ? ? [? ?]; auto).
  apply wp_bind. eapply wp_conseq; [apply (wp_stageDirectories d (fun _ => staged 0 0)); auto| |apply HX|done].
  clear d Hd. intros [] d Hd. apply wp_bind.
  apply wp_for_indexed with (I := fun k => staged k k); [done| |].
  { intros k p d' Hk Hd'. eapply wp_conseq; [by apply wp_stageFile|done|apply HX|done]. }
  clear d Hd. intros d Hd. pose proof Hd as [Hs Hc Hb Ht].
  pose proof (staging_settled d Hs) as Hset. pose proof (staging_recoverable d Hs) as Hrc.
  apply wp_bind. unfold for_each. apply wp_bind, wp_sync_dir; [apply Hc| |by auto|done].
  apply wp_bind, wp_sync_dir; [apply Hb|apply wp_ret|by auto|done].
  apply wp_bind, wp_Verify_staging; [done| |by auto|done].
  assert (forall d', published D tmp (preparedJournal t (Changed t)) d d' -> applying 0 d') as Hpub.
  { intros d'. eapply applying_start; [done|]. simpl. by rewrite length_fmap. }
  destruct (temp_inside tmp) as [Hti Htj].
  assert (forall d', agree_off (tempPath D tmp) d d' -> staging d') as Hag.
  { intros d' Ha. by eapply staging_agree. }
  apply wp_bind, wp_writeTransactionJournal.
  - by apply st_dir.
  - apply Ht.
  - by rewrite st_journal.
  - intros d' Hp%Hpub. split; [by apply wp_ret, HQ|]. by apply settled_recoverable, settled_published.
  - intros Hm e d' Hp%Hpub. apply wp_fail. split; [by left|]. by apply settled_published.
  - intros Hm e d' Hp%Hag. apply wp_fail. split; [by left|]. by apply staging_settled.
  - intros d' Hp%Hag. by apply staging_recoverable.
Qed.

(** *** Replacing one file *)

Lemma applying_grows k r d d' :
  r ∈ recs S0 -> applying k d -> grows (parent (comps (RPath r))) d d' -> applying k d'.
Proof.
  intros Hr Ha Hg. pose proof Ha as [Ho He Hj Hn Hold Hc Hb Ht].
  destruct (prepared_grows S0 OK r d d' Hr (applying_prepared _ _ Ha) Hg) as (Ho' & He' & Hj' & _).
  assert (forall q, below transactionRoot q -> d' !! q = d !! q) as Hs
    by (intros; eapply (grows_same S0 OK); eauto).
  assert (forall i r', recs S0 !! i = Some r' -> d' !! comps (RPath r') = d !! comps (RPath r')) as Hs'.
  { intros i r' Hi. eapply (grows_same S0 OK); [exact Hr|done|]. right. exists r'.
    split; [by eapply list_elem_of_lookup_2|done]. }
  split; try done.
  - intros i r' Hi. rewrite (Hs' i r' Hi). by apply Hn.
  - intros i r' Hi. rewrite (Hs' i r' Hi). by apply Hold.
  - intros i r' n Hi. rewrite (Hs (slot "candidate" i)) by apply below_txdir. by apply Hc.
  - intros i r' n Hi. rewrite (Hs (slot "backup" i)) by apply below_txdir. by apply Hb.
  - intros tmp. rewrite Hs by apply below_txdir. apply Ht.
Qed.

Lemma recs_inj i j r r' : recs S0 !! i = Some r -> recs S0 !! j = Some r' ->
  comps (RPath r) = comps (RPath r') -> i = j.
Proof.
  intros Hi Hj Heq.
  assert (r ∈ recs S0 /\ r' ∈ recs S0) as [Hr Hr'] by (split; by eapply list_elem_of_lookup_2).
  pose proof (rec_eq S0 OK r r' Hr Hr' Heq) as <-.
  eapply NoDup_lookup; [apply (setup_nodup S0 OK)|rewrite list_lookup_fmap, Hi|rewrite list_lookup_fmap, Hj]; done.
Qed.

Lemma applying_step k r d d' :
  recs S0 !! k = Some r -> applying k d ->
  (forall q, q <> comps (RPath r) -> q <> slot "candidate" k -> d' !! q = d !! q) ->
  d' !! comps (RPath r) = new S0 r -> applying (S k) d'.
Proof.
  intros Hk [Ho [He1 He2] (HR & HD & m & Hj) Hn Hold Hc Hb Ht] Hs Hnew.
  assert (r ∈ recs S0) as Hr by (by eapply list_elem_of_lookup_2).
  assert (forall q, below transactionRoot q -> q <> slot "candidate" k -> d' !! q = d !! q) as Hin.
  { intros q Hq. apply Hs. by apply (rec_ne_below S0 OK). }
  assert (forall q, (length q <= length D + 1)%nat -> q <> slot "candidate" k) as Hlen.
  { intros q Hq ->. unfold slot in Hq. rewrite length_app in Hq. simpl in Hq. lia. }
  assert (forall i r', recs S0 !! i = Some r' -> i <> k -> d' !! comps (RPath r') = d !! comps (RPath r')) as Hrec.
  { intros i r' Hi Hne. assert (r' ∈ recs S0) as Hr' by (by eapply list_elem_of_lookup_2). apply Hs.
    - intros Heq. apply Hne. by eapply recs_inj.
    - apply not_eq_sym, (rec_ne_below S0 OK); [done|apply below_txdir]. }
  pose proof (length_txdir S0) as HlD.
  split.
  - intros q Hq1 Hq2. rewrite Hs; [by apply Ho|by apply Hq2|]. intros ->. apply Hq1, below_txdir.
  - split; [rewrite Hin; [done|apply below_refl|apply Hlen; lia]|]. intros name n.
    rewrite (Hin (transactionRoot ++ [name])), (Hin transactionRoot); [apply He2|apply below_refl| |apply below_app|];
      apply Hlen; rewrite ?length_app; simpl; lia.
  - split; [|split; [|exists m]]; rewrite Hin; try done; try apply below_txdir;
      try apply below_app; try apply below_refl; apply Hlen; rewrite ?length_journalPath; lia.
  - intros i r' Hi Hlt. destruct (decide (i = k)) as [->|Hne]; [congruence|].
    rewrite (Hrec i r' Hi Hne). eapply Hn; [done|lia].
  - intros i r' Hi Hle. rewrite (Hrec i r' Hi) by lia. eapply Hold; [done|lia].
  - intros i r' n Hi Hle Hn'. rewrite Hin; [eapply Hc; [done|lia|done]|apply below_txdir|].
    intros [_ ->]%slot_inj. lia.
  - intros i r' n Hi Hn'. rewrite Hin; [by eapply Hb|apply below_txdir|]. by intros [? _]%slot_inj.
  - intros tmp. rewrite Hin; [apply Ht|apply below_txdir|]. apply not_eq_sym, slot_temp.
Qed.

Abbreviation FailsPrepared := (fun (_ : goerr) (d : disk) => md = AnyFault /\ prepared S0 d).

Lemma wp_applyRecord k r d :
  recs S0 !! k = Some r -> applying k d ->
  wp md (applyRecord D k r) (fun _ => applying (S k)) FailsPrepared (prepared S0) d.
Proof.
  intros Hk Ha. assert (r ∈ recs S0) as Hr by (by eapply list_elem_of_lookup_2).
  pose proof (setup_records S0 OK r Hr) as Hrec. pose proof (applying_prepared _ _ Ha) as (Ho & He & Hj & Hres).
  pose proof (rec_file S0 OK d k r Hres Hk) as Hf0.
  apply wp_bind, wp_wrapped, wp_ensureManagedParent; [apply Hrec|by apply (rec_resolve S0 OK)| | |].
  2: { intros Hm e d' Hg. split; [done|]. by eapply (prepared_grows S0 OK). }
  2: { intros d' Hg. by eapply (prepared_grows S0 OK). }
  intros d' Hg Hdirs. pose proof (applying_grows k r d d' Hr Ha Hg) as Ha'. clear d Ha Ho He Hj Hres Hf0 Hg.
  pose proof (applying_prepared _ _ Ha') as Hp. pose proof Hp as (_ & _ & _ & Hres).
  pose proof (rec_file S0 OK d' k r Hres Hk) as Hf. specialize (Hdirs _ (below_refl _)).
  assert (forall d'', (forall q, q <> comps (RPath r) -> q <> slot "candidate" k -> d'' !! q = d' !! q) ->
    d'' !! parent (comps (RPath r)) = Some NDir -> d'' !! comps (RPath r) = new S0 r ->
    wp md (sync_dir (parent (comps (RPath r)))) (fun _ => applying (S k)) FailsPrepared (prepared S0) d'') as Hdone.
  { intros d'' Hs Hpar Hn. pose proof (applying_step k r d' d'' Hk Ha' Hs Hn) as Ha''.
    pose proof (applying_prepared _ _ Ha''). apply wp_sync_dir; auto. }
  assert (slot "candidate" k <> comps (RPath r)) as Hne
    by (apply (rec_ne_below S0 OK); [done|apply below_txdir]).
  assert (comps (RPath r) <> parent (comps (RPath r))) as Hpne.
  { intros Heq. apply (not_below_parent (comps (RPath r))); [by apply (rec_nonempty S0 OK)|].
    rewrite <- Heq. apply below_refl. }
  apply wp_bind, wp_wrapped.
  destruct (describes_exists _ _ _ _ (rec_new S0 r Hrec)) as [(-> & m & s & Hnew)|(-> & Hnew)].
  - apply wp_update; [|by auto|done]. change (transactionCandidate D k) with (slot "candidate" k).
    pose proof (ap_cand _ _ Ha' k r _ Hk (le_n k) Hnew) as Hcand. rewrite Hcand.
    unfold dir_at. rewrite Hdirs. rewrite bool_decide_eq_true_2 by done. simpl.
    destruct (lookup_rename d' _ _ (NFile m s) Hne) as (Hl1 & Hl2 & Hl3).
    assert (slot "candidate" k <> parent (comps (RPath r))) as Hsp by congruence.
    destruct (d' !! comps (RPath r)) as [[]|]; try done;
      (apply Hdone; [exact Hl3|rewrite Hl3; [exact Hdirs|by apply not_eq_sym..]|congruence]).
  - assert (exists m s, d' !! comps (RPath r) = Some (NFile m s)) as (m & s & Hcur).
    { rewrite (ap_old _ _ Ha' k r Hk (le_n k)). pose proof (rec_changed S0 r Hrec) as Hch.
      destruct (rec_old S0 r Hrec) as (Hfo & _). rewrite Hnew in Hch.
      destruct (old S0 r) as [[]|]; try done. eauto. }
    apply wp_update; [|by auto|done]. rewrite Hcur. apply Hdone.
    + intros q Hq _. by apply lookup_delete_ne.
    + by rewrite lookup_delete_ne.
    + by rewrite lookup_delete_eq.
Qed.

Definition joined (e : goerr) : Prop := exists a b, e = Joined a b.

(** Rolling back restores every file, or reports both errors. *)
Lemma wp_rollback d cause (Q : goerr -> disk -> Prop) X (C : disk -> Prop) :
  prepared S0 d -> (forall d', prepared S0 d' -> all_old S0 d' -> Q cause d') ->
  (md = AnyFault -> forall e d', joined e -> Q e d') -> (forall d', prepared S0 d' -> C d') ->
  wp md (rollbackTransaction D (preparedJournal t (Changed t)) cause) Q X C d.
Proof.
  intros Hp HQ HQj HC. apply wp_bind, wp_catch.
  eapply wp_conseq; [apply (wp_recoverPrepared S0 OK md d (fun _ d' => prepared S0 d' /\ all_old S0 d') transactionPrepared); auto|..].
  - intros [] d' [? ?]. apply wp_ret. auto.
  - intros e d' [Hm _]. apply wp_ret, HQj; [done|]. unfold joined. eauto.
  - exact HC.
Qed.

(** *** The part under the deferred removal *)

(** The tree [commitIn] leaves, by its error and its [removeDirectory] flag. *)
Definition commit_post (r : result goerr unit * bool) (d : disk) : Prop :=
  match r with
  | (Err e, true) => (md = AnyFault \/ strict = false) /\ (settled S0 d \/ (md = AnyFault /\ joined e))
  | (Err e, false) => md = AnyFault /\ recoverable S0 d
  | (Ok _, false) => atomic S0 d /\ all_new S0 d
  | (Ok _, true) => False
  end.

Abbreviation Crash := (fun d : disk => md = AnyFault \/ recoverable S0 d).

Lemma prepared_old_settled d : prepared S0 d -> all_old S0 d -> settled S0 d.
Proof.
  intros (Ho & He & Hj & Hres) Hold. pose proof Hj as (HR & _).
  split; [done|]. split; [done|]. split; [done|]. left. auto.
Qed.

Lemma wp_rollback_post d cause X :
  md = AnyFault -> prepared S0 d ->
  wp md (e ← rollbackTransaction D (preparedJournal t (Changed t)) cause; mret (Err e, true))
    commit_post X Crash d.
Proof.
  intros Hm Hp. apply wp_bind, wp_rollback; [done|..].
  - intros d' Hp' Hold. apply wp_ret. split; [by left|]. left. by apply prepared_old_settled.
  - intros _ e d' He. apply wp_ret. split; [by left|]. by right.
  - intros d' Hp'. right. by apply prepared_recoverable.
Qed.

Lemma applied_new d : applying (length (recs S0)) d -> all_new S0 d.
Proof. intros Ha r [i Hi]%list_elem_of_lookup. eapply (ap_new _ _ Ha); [done|]. by eapply lookup_lt_Some. Qed.

Lemma committed_settled tmp d d' :
  applying (length (recs S0)) d ->
  published D tmp (withState transactionCommitted (preparedJournal t (Changed t))) d d' ->
  settled S0 d' /\ all_new S0 d'.
Proof.
  intros Ha (Hsame & Htmp & Hj). pose proof (applied_new d Ha) as Hnew.
  destruct Ha as [Ho [He1 He2] (HR & HD & _) _ _ _ _ _].
  assert (forall q, ~ inside q -> d' !! q = d !! q) as Hout.
  { intros q Hq. apply Hsame; intros ->; apply Hq; eexists _, _; reflexivity. }
  assert (all_new S0 d') as Hnew'.
  { intros r Hr. rewrite Hout; [by apply Hnew|]. intros Hin%inside_root. by apply (rec_ne_below S0 OK r _ Hr Hin). }
  assert (d' !! transactionRoot = Some NDir) as HR' by (rewrite Hout; [done|]; intros H%inside_length; lia).
  split; [|done]. split; [|split; [|split; [done|]]].
  - intros q Hq1 Hq2. rewrite Hout; [by apply Ho|]. by intros ?%inside_root.
  - split; [by right|]. intros name n. rewrite !Hout; [apply He2|..]; intros H%inside_length;
      rewrite ?length_app in H; simpl in H; lia.
  - right. split; [done|]. right. split; [done|]. split; [|by exists 384%Z].
    rewrite Hout; [done|]. intros H%inside_length. rewrite length_txdir in H. lia.
Qed.

Lemma applying_temp tmp d d' :
  applying (length (recs S0)) d -> agree_off (tempPath D tmp) d d' -> prepared S0 d'.
Proof.
  intros Ha Hag. destruct (applying_prepared _ _ Ha) as (Ho & [He1 He2] & (HR & HD & m & Hj) & Hres).
  destruct (temp_inside tmp) as [Hti Htj].
  assert (forall q, ~ inside q -> d' !! q = d !! q) as Hout by (intros q Hq; apply Hag; by intros ->).
  assert (d' !! transactionRoot = Some NDir) as HR' by (rewrite Hout; [done|]; intros H%inside_length; lia).
  split; [|split; [|split]].
  - intros q Hq1 Hq2. rewrite Hout; [by apply Ho|]. by intros ?%inside_root.
  - split; [by right|]. intros name n. rewrite !Hout; [apply He2|..]; intros H%inside_length;
      rewrite ?length_app in H; simpl in H; lia.
  - split; [done|]. split; [|exists m; rewrite Hag; [done|by apply not_eq_sym]].
    rewrite Hout; [done|]. intros H%inside_length. rewrite length_txdir in H. lia.
  - intros i r Hi. assert (r ∈ recs S0) as Hr by (by eapply list_elem_of_lookup_2).
    rewrite (Hag (transactionBackup D i)) by apply slot_temp. rewrite Hout; [by apply Hres|].
    intros Hin%inside_root. by apply (rec_ne_below S0 OK r _ Hr Hin).
Qed.

Lemma wp_commitIn tmp1 tmp2 d (X : goerr -> disk -> Prop) :
  fresh d -> wp md (commitIn t (Changed t) D tmp1 tmp2) commit_post X Crash d.
Proof.
  intros Hd. apply wp_bind, wp_catch.
  eapply wp_conseq; [apply (wp_stageAll tmp1 d (fun _ => applying 0)); auto| | |by auto].
  2: { intros e d' [Hm Hs]. apply wp_ret. split; [done|]. by left. }
  clear d Hd. intros [] d Hd. apply wp_bind, wp_catch.
  apply (wp_for_indexed md applying); [done| |].
  { intros k r d' Hk Hd'. eapply wp_conseq; [by apply wp_applyRecord|done| |].
    - intros e d'' [Hm Hp]. by apply wp_rollback_post.
    - intros d'' Hp. right. by apply prepared_recoverable. }
  clear d Hd. intros d Hd. change (Files (preparedJournal t (Changed t))) with (recs S0) in Hd.
  pose proof Hd as [_ _ (HR & HD & m & Hj) _ _ _ _ Ht].
  apply wp_bind, wp_writeTransactionJournal.
  - done.
  - apply Ht.
  - rewrite Hj. done.
  - intros d' Hp. destruct (committed_settled tmp2 d d' Hd Hp) as [Hs Hn].
    split; [|right; by apply settled_recoverable]. apply wp_bind, wp_catch.
    eapply wp_conseq; [apply (wp_removeTransactionDirectory S0 OK md d' (fun _ => removed S0 d')); auto|..].
    + intros [] d'' (Ha & _ & Hfiles). apply wp_ret. split; [done|]. intros r Hr. rewrite Hfiles; auto.
    + intros e d'' [? ?]. by apply wp_ret.
    + by auto.
  - intros Hm e d' Hp. apply wp_ret. split; [done|].
    destruct (committed_settled tmp2 d d' Hd Hp). by apply settled_recoverable.
  - intros Hm e d' Hp. apply wp_rollback_post; [done|]. by eapply applying_temp.
  - intros d' Hp. right. apply prepared_recoverable. by eapply applying_temp.
Qed.

(** ** Creating the transaction directory *)

Lemma not_below_snoc (p : path) l : l <> [] -> ~ below (p ++ l) p.
Proof.
  intros Hl [k Hk%(f_equal length)]%below_iff. rewrite !length_app in Hk. destruct l; [done|]. simpl in Hk. lia.
Qed.

Lemma grown_clean d q x : grows transactionRoot d0 d -> d !! (transactionRoot ++ x :: q) = None.
Proof.
  intros Hg. destruct (Hg (transactionRoot ++ x :: q)) as [->|(_ & _ & Hb)]; [|by apply not_below_snoc in Hb].
  apply (read_clean _ _ (ready_read _ _ Ready)); [apply below_app|].
  intros Heq%(f_equal length). rewrite length_app in Heq. simpl in Heq. lia.
Qed.

Lemma grown_file d p e : grows transactionRoot d0 d -> files t !! p = Some e -> d !! comps p = d0 !! comps p.
Proof.
  intros Hg He. destruct (read_apart _ _ (ready_read _ _ Ready) p e He) as [Ha Hb].
  by destruct (Hg (comps p)) as [?|(_ & _ & ?)].
Qed.

Lemma txdir_app l : D ++ l = transactionRoot ++ id :: l.
Proof. unfold txdir. by rewrite <- app_assoc. Qed.

Lemma grown_recoverable d : grows transactionRoot d0 d -> recoverable S0 d.
Proof.
  intros Hg. split; [|split; [|left; split]].
  - intros q Hq _. destruct (Hg q) as [?|(? & ? & ?)]; [by left|right]. auto.
  - split; [|intros name n Hn; by rewrite grown_clean in Hn].
    destruct (Hg transactionRoot) as [->|(_ & ? & _)]; [|by right].
    apply (read_txroot _ _ (ready_read _ _ Ready)), below_refl.
  - unfold no_journal, journalPath. rewrite txdir_app. by apply grown_clean.
  - left. intros r Hr. destruct (recs_files r Hr) as [e He]. by eapply grown_file.
Qed.

Lemma grown_fresh d : grows transactionRoot d0 d -> d !! transactionRoot = Some NDir -> fresh (<[D := NDir]> d).
Proof.
  intros Hg HR. assert (forall q, inside q -> <[D := NDir]> d !! q = None) as Hin.
  { intros q (x & l & ->). rewrite lookup_insert_ne.
    - rewrite txdir_app. by apply grown_clean.
    - intros Heq%(f_equal length). rewrite length_app in Heq. simpl in Heq. lia. }
  split; [|done]. split.
  - intros q Hq. rewrite lookup_insert_ne; [|intros <-; apply Hq; rewrite <- (app_nil_r D); apply below_txdir].
    destruct (Hg q) as [?|?]; [by left|by right].
  - rewrite lookup_insert_ne; [done|]. intros Heq%(f_equal length). rewrite length_txdir in Heq. lia.
  - apply lookup_insert_eq.
  - intros name n. destruct (decide (transactionRoot ++ [name] = D)) as [Heq|Hne].
    + intros _. apply app_inv_head in Heq. by injection Heq.
    + rewrite lookup_insert_ne by done. by rewrite grown_clean.
  - apply Hin. by exists "journal.json", [].
Qed.

Lemma wp_createTransactionDirectory entropy (Q : path -> disk -> Prop) :
  EncodeToString (byte_list entropy) = id -> (forall d, fresh d -> Q D d) ->
  wp md (createTransactionDirectory entropy) Q (fun _ d => md = AnyFault /\ recoverable S0 d) (recoverable S0) d0.
Proof.
  intros Hid HQ. pose proof (ready_read _ _ Ready) as Hread.
  apply wp_bind, wp_wrapped, wp_EnsureDirectory; [apply managed_txroot|done|done|apply Hread| | | |].
  - rewrite txroot_comps. apply Hread.
  - rewrite txroot_comps. intros d Hg Hdirs. specialize (Hdirs _ (below_refl _)).
    pose proof (grown_recoverable d Hg) as Hrc.
    apply wp_bind, wp_wrapped, wp_observe; [|by auto|done]. rewrite Hid. fold D.
    pose proof (grown_fresh d Hg Hdirs) as Hfr. pose proof (staging_recoverable _ (proj1 Hfr)) as Hrc'.
    change (transactionRoot ++ [id]) with D.
    apply wp_bind, wp_wrapped, wp_update; [|by auto|done].
    unfold dir_at. change (parent D) with (parent (transactionRoot ++ [id])). rewrite parent_snoc, Hdirs.
    rewrite bool_decide_eq_true_2 by done. simpl negb. cbv iota.
    change (d !! D) with (d !! (transactionRoot ++ id :: [])). rewrite (grown_clean d [] id Hg).
    apply wp_bind, wp_catch, wp_sync_dir; [apply (st_root _ (proj1 Hfr))|by apply wp_ret, HQ| |done].
    intros Hm. apply wp_bind, wp_ignore, wp_update; [|by auto using wp_fail|done].
    rewrite lookup_insert_eq. destruct (children _ _); [|by apply wp_fail].
    apply wp_fail. split; [done|]. rewrite delete_insert_id; [done|]. by apply (grown_clean d [] id).
  - rewrite txroot_comps. intros Hm e d Hg. split; [done|]. by apply grown_recoverable.
  - rewrite txroot_comps. apply grown_recoverable.
Qed.

(** ** The whole of [Commit] *)

Abbreviation FailsCommit := (fun (e : goerr) (d : disk) =>
  (md = AnyFault \/ strict = false) /\ (recoverable S0 d \/ (md = AnyFault /\ joined e))).

Lemma wp_finish r d :
  commit_post r d ->
  wp md ((if r.2 : bool then ignore (remove_all D) else mret tt);; lift r.1)
    (fun _ d' => atomic S0 d' /\ all_new S0 d') FailsCommit Crash d.
Proof.
  destruct r as [[[]|e] []]; simpl; intros Hpost; apply wp_bind.
  - done.
  - by apply wp_ret, wp_ret.
  - destruct Hpost as [Hm [Hs|[Hany Hj]]]; apply wp_ignore.
    + eapply wp_conseq; [apply (wp_remove_all S0 OK md d (fun _ => removed S0 d)); auto|..].
      * intros _ d' (Ha & _). apply wp_fail. split; [done|]. left. by apply atomic_recoverable.
      * intros _ d' [_ Hs']. apply wp_fail. split; [done|]. left. by apply settled_recoverable.
      * auto.
    + apply wp_syscall; [|intros _ n gone|by auto]; apply wp_fail; split; auto.
  - apply wp_ret, wp_fail. destruct Hpost. split; auto.
Qed.

Lemma wp_Commit entropy tmp1 tmp2 :
  EncodeToString (byte_list entropy) = id ->
  wp md (Commit t entropy tmp1 tmp2) (fun _ d => atomic S0 d /\ all_new S0 d) FailsCommit Crash d0.
Proof.
  intros Hid. pose proof (grown_recoverable d0 (grows_refl _ _)) as Hrc0.
  pose proof (ready_read _ _ Ready) as Hread.
  eapply wp_bind, wp_recover_clean; [exact Hread| |by auto|by auto]. apply wp_bind, wp_ret, wp_bind.
  apply wp_Verify; auto.
  - intros p e He. split; [by apply (txn_files _ (ready_txn _ _ Ready) p e He)|]. by eapply (read_files _ _ Hread).
  - by apply Ready.
  - destruct strict eqn:Hst; [left; by apply Strict|right; auto].
  - assert ((length (Changed t) =? 0)%nat = false) as -> by (by destruct (Changed t)).
    apply wp_bind. eapply wp_conseq; [by apply (wp_createTransactionDirectory entropy (fun p d => p = D /\ fresh d))|..].
    + intros p d [-> Hd]. apply wp_bind. eapply wp_conseq; [by apply (wp_commitIn tmp1 tmp2 d FailsCommit)| |done|done].
      intros r d' Hr. by apply wp_finish.
    + intros e d [? ?]. auto.
    + auto.
Qed.
End Programs.
End Commit.
End TransactionAtomic.
