(* ===== verification/TransactionTheorems.v ===== *)
(** What the update transaction promises: crash atomicity, failure atomicity,
    success, refusal of concurrent edits and the invariant of the builder, with
    a concrete update that instantiates them.  The last example shows the one
    failure the code does not survive. *)
From stdpp Require Import prelude gmap strings list sorting.
From Stdlib Require Import Ascii ZArith Lia.
From S2P Require Import Prelude GoStrings FsPath Sha256 Fs Treehash Transaction Json TransactionSpec TransactionRecovery TransactionBuild TransactionCommit TransactionAtomic.

Module TransactionTheorems.
Import FsPath Sha256 Fs Treehash Transaction Json TransactionSpec TransactionRecovery TransactionBuild TransactionCommit TransactionAtomic.

(** The identity drawn from the random bytes *)
Definition identity (entropy : string) : string := EncodeToString (byte_list entropy).

Lemma byte_list_range s : length (byte_list s) = String.length s /\ Forall (fun b => (0 <= b <= 255)%Z) (byte_list s).
Proof.
  unfold byte_list. induction s as [|c s [IH1 IH2]]; [done|].
  cbn [String.list_ascii_of_string String.length]. rewrite fmap_cons. split; [cbn [length]; by rewrite IH1|].
  constructor; [|done]. pose proof (N_ascii_bounded c). lia.
Qed.

Lemma identity_valid entropy :
  String.length entropy = transactionIDBytes -> validTransactionID (identity entropy) = true.
Proof.
  intros Hl. destruct (byte_list_range entropy) as [Hlen Hr].
  destruct (EncodeToString_lower _ Hr) as [H1 H2]. unfold validTransactionID, identity.
  by rewrite H1, H2, Hlen, Hl.
Qed.

Section Theorems.
Context {PR : Pathrs} {JC : JournalCodec}.

(** Recovery attempts that failed or were interrupted, under any faults *)
Inductive interrupted : disk -> disk -> Prop :=
  | interrupted_none d : interrupted d d
  | interrupted_step d pl o w d' :
      recoverTransactions (World d pl) = (o, w) -> (forall b, o <> Ret b) ->
      interrupted (wdisk w) d' -> interrupted d d'.

Lemma allows_any pl : Forall (allows AnyFault) pl.
Proof. apply Forall_forall. by intros []. Qed.

Lemma interrupted_recoverable S d d' :
  setup_ok S -> interrupted d d' -> recoverable S d -> recoverable S d'.
Proof.
  intros OK. induction 1 as [|d pl o w d' Hrun Ho _ IH]; [done|]. intros Hd. apply IH.
  pose proof (wp_recoverTransactions S OK AnyFault d (fun _ _ => True) Hd ltac:(done) pl (allows_any pl)) as Hw.
  rewrite Hrun in Hw. destruct o as [b|e|]; [by destruct (Ho b)|by destruct Hw as [[_ ?] _]|by destruct Hw].
Qed.

(** Recovery without faults finishes the job. *)
Lemma recovery_finishes S d :
  setup_ok S -> recoverable S d ->
  exists b w, recoverTransactions (World d []) = (Ret b, w) /\ atomic S (wdisk w).
Proof.
  intros OK Hd.
  pose proof (wp_recoverTransactions S OK Calm d (fun _ d' => atomic S d') Hd ltac:(done) [] (Forall_nil_2 _)) as Hw.
  destruct (recoverTransactions (World d [])) as [[b|e|] w]; [|by destruct Hw as [[? _] _]|by destruct Hw].
  exists b, w. split; [done|]. by destruct Hw.
Qed.

(** C1.  Crash atomicity: when the process dies anywhere during [Commit] of a
    well-formed update, and after any number of recovery attempts that failed
    or died too, recovery terminates with every replaced file in its old
    version or every one in its new version, the rest of the tree unchanged
    and no transaction left. *)
Theorem Commit_crash_atomic t d0 entropy tmp1 tmp2 pl w d1 :
  ready t d0 -> Changed t <> [] -> String.length entropy = transactionIDBytes ->
  Forall (allows CrashOnly) pl ->
  Commit t entropy tmp1 tmp2 (World d0 pl) = (Crashed, w) ->
  interrupted (wdisk w) d1 ->
  exists b w', recoverTransactions (World d1 []) = (Ret b, w') /\
    atomic (setupOf t d0 (identity entropy)) (wdisk w').
Proof.
  intros Hready Hne Hlen Hpl Hrun Hint. pose proof (identity_valid entropy Hlen) as Hid.
  pose proof (ready_setup t d0 _ Hready Hne Hid) as Hok.
  pose proof (wp_Commit t d0 _ Hready Hne Hid CrashOnly false ltac:(done) entropy tmp1 tmp2 eq_refl pl Hpl) as Hw.
  rewrite Hrun in Hw. destruct Hw as [[?|Hrec] _]; [done|].
  apply recovery_finishes; [done|]. by eapply interrupted_recoverable.
Qed.

(** C2.  Failure atomicity: when [Commit] fails under any I/O errors and its
    error is not the join of a cause and a failed rollback, then after any
    number of unsuccessful recovery attempts recovery terminates with all
    files old or all files new and no transaction left. *)
Theorem Commit_failure_atomic t d0 entropy tmp1 tmp2 pl e w d1 :
  ready t d0 -> Changed t <> [] -> String.length entropy = transactionIDBytes ->
  Commit t entropy tmp1 tmp2 (World d0 pl) = (Fail e, w) -> ~ joined e ->
  interrupted (wdisk w) d1 ->
  exists b w', recoverTransactions (World d1 []) = (Ret b, w') /\
    atomic (setupOf t d0 (identity entropy)) (wdisk w').
Proof.
  intros Hready Hne Hlen Hrun Hj Hint. pose proof (identity_valid entropy Hlen) as Hid.
  pose proof (ready_setup t d0 _ Hready Hne Hid) as Hok.
  pose proof (wp_Commit t d0 _ Hready Hne Hid AnyFault false ltac:(done) entropy tmp1 tmp2 eq_refl pl (allows_any pl)) as Hw.
  rewrite Hrun in Hw. destruct Hw as [[_ [Hrec|[_ ?]]] _]; [|done].
  apply recovery_finishes; [done|]. by eapply interrupted_recoverable.
Qed.

(** C3.  Whatever I/O errors happen on the way, when [Commit] returns success
    every changed file has exactly its candidate content and mode, nothing
    else changed and the transaction directory is gone. *)
Theorem Commit_success_complete t d0 entropy tmp1 tmp2 pl w :
  ready t d0 -> Changed t <> [] -> String.length entropy = transactionIDBytes ->
  Commit t entropy tmp1 tmp2 (World d0 pl) = (Ret tt, w) ->
  atomic (setupOf t d0 (identity entropy)) (wdisk w) /\
  forall p e, p ∈ Changed t -> files t !! p = Some e -> wdisk w !! comps p = candidateNode e.
Proof.
  intros Hready Hne Hlen Hrun. pose proof (identity_valid entropy Hlen) as Hid.
  pose proof (wp_Commit t d0 _ Hready Hne Hid AnyFault false ltac:(done) entropy tmp1 tmp2 eq_refl pl (allows_any pl)) as Hw.
  rewrite Hrun in Hw. destruct Hw as [[Ha Hn] _]. split; [done|]. intros p e Hp He.
  assert (entryOf t p = e) as Hent by (unfold entryOf; by rewrite He).
  specialize (Hn (recordOf p e)). unfold new in Hn. simpl in Hn. rewrite Hent in Hn. apply Hn.
  apply list_elem_of_fmap. exists p. by rewrite Hent.
Qed.

Lemma commit_calm t d0 entropy tmp1 tmp2 :
  ready t d0 -> Changed t <> [] -> String.length entropy = transactionIDBytes ->
  guards_match t d0 -> guards_apart t ->
  exists w, Commit t entropy tmp1 tmp2 (World d0 []) = (Ret tt, w) /\
    atomic (setupOf t d0 (identity entropy)) (wdisk w) /\ all_new (setupOf t d0 (identity entropy)) (wdisk w).
Proof.
  intros Hready Hne Hlen Hg Ha. pose proof (identity_valid entropy Hlen) as Hid.
  pose proof (wp_Commit t d0 _ Hready Hne Hid Calm true ltac:(done) entropy tmp1 tmp2 eq_refl [] (Forall_nil_2 _)) as Hw.
  destruct (Commit t entropy tmp1 tmp2 (World d0 [])) as [[[]|e|] w].
  - exists w. split; [done|]. by destruct Hw.
  - destruct Hw as [[[?|?] _] _]; done.
  - by destruct Hw.
Qed.

(** C4.  Without faults, and with the guarded directories unchanged, [Commit]
    terminates successfully with the new files in place. *)
Theorem Commit_succeeds t d0 entropy tmp1 tmp2 :
  ready t d0 -> Changed t <> [] -> String.length entropy = transactionIDBytes ->
  guards_match t d0 -> guards_apart t ->
  exists w, Commit t entropy tmp1 tmp2 (World d0 []) = (Ret tt, w) /\
    atomic (setupOf t d0 (identity entropy)) (wdisk w) /\ all_new (setupOf t d0 (identity entropy)) (wdisk w).
Proof. apply commit_calm. Qed.

(** C5.  A managed file that is no longer in the version the update was
    resolved against stops [Commit] before anything is written, whatever
    faults happen: the tree is unchanged and success is never reported. *)
Theorem Commit_refuses_concurrent_edit t d0 entropy tmp1 tmp2 pl p e :
  txn_ok t -> readable t d0 -> files t !! p = Some e ->
  sameManagedVersion (version_of (d0 !! comps p)) (expected e) = false ->
  let '(o, w) := Commit t entropy tmp1 tmp2 (World d0 pl) in
  wdisk w = d0 /\ o <> Ret tt.
Proof.
  intros Htxn Hread He Hbad.
  assert (wp AnyFault (Commit t entropy tmp1 tmp2) (fun _ _ => False) (fun _ d => d = d0) (fun d => d = d0) d0) as Hw.
  { eapply wp_bind, wp_recover_clean; [exact Hread| |done|done]. apply wp_bind, wp_ret, wp_bind.
    eapply wp_Verify_mismatch; [|exact He|exact Hbad|done|done].
    intros q e' He'. split; [by apply (txn_files _ Htxn q e')|]. by eapply (read_files _ _ Hread). }
  specialize (Hw pl (allows_any pl)). destruct (Commit _ _ _ _ _) as [[[]|err|] w]; by destruct Hw.
Qed.
End Theorems.

(** Every transaction the update code can build is well formed: each path
    is a clean relative one, recorded versions are valid, and a candidate that
    exists carries the bytes its digest names; its changed paths are listed
    once each, in order. *)
Theorem built_invariant t : built t -> txn_ok t /\ NoDup (Changed t) /\ StronglySorted str_le (Changed t).
Proof.
  intros Ht. split; [by apply built_ok|]. split; [apply NoDup_Changed|].
  apply StronglySorted_filter, SortStrings_sorted.
Qed.

(** ** A concrete update

    It edits [a.txt], creates [sub/new.txt], deletes [c.txt] and guards the
    directory [conf]. *)
Definition tree0 : disk := list_to_map
  [([], NDir); (["a.txt"], NFile 420 "old"); (["c.txt"], NFile 420 "gone");
   (["conf"], NDir); (["conf"; "b.txt"], NFile 384 "keep")].

Definition or_else {A} (a : A) (r : result goerr A) : A := match r with Ok x => x | Err _ => a end.

Definition version_old : managedVersion := Eval vm_compute in fileVersion 420 "old".
Definition version_gone : managedVersion := Eval vm_compute in fileVersion 420 "gone".
Definition guard0 : string := Eval vm_compute in or_else "" (directoryDigest (comps "conf") tree0).
Definition update1 : fileTransaction :=
  Eval vm_compute in or_else newFileTransaction (Add newFileTransaction "a.txt" "new" version_old).
Definition update2 : fileTransaction :=
  Eval vm_compute in or_else update1 (Delete update1 "c.txt" version_gone).
Definition update3 : fileTransaction :=
  Eval vm_compute in or_else update2 (AddMode update2 "sub/new.txt" "x" 384 absentVersion).
Definition update0 : fileTransaction :=
  Eval vm_compute in or_else update3 (GuardDirectory update3 "conf" guard0).
Definition entropy0 : string := "0123456789ab".

Lemma update2_built : built update2.
Proof.
  apply (built_Delete update1 _ "c.txt" version_gone); [|done|by vm_compute].
  apply (built_Add newFileTransaction _ "a.txt" "new" version_old); [constructor|done|by vm_compute].
Qed.

Lemma update0_built : built update0.
Proof.
  apply (built_Guard update3 _ "conf" guard0); [|by vm_compute].
  apply (built_AddMode update2 _ "sub/new.txt" "x" 384 absentVersion); [apply update2_built|done|by vm_compute].
Qed.

Lemma update0_ready : ready update0 tree0.
Proof. apply readyb_sound; [apply update0_built|]. vm_compute. reflexivity. Qed.

Lemma update0_changed : Changed update0 = ["a.txt"; "c.txt"; "sub/new.txt"].
Proof. vm_compute. reflexivity. Qed.

(** The first two files only, for the runs with faults *)
Lemma update2_ready : ready update2 tree0.
Proof. apply readyb_sound; [apply update2_built|]. vm_compute. reflexivity. Qed.

Lemma update2_changed : Changed update2 = ["a.txt"; "c.txt"].
Proof. vm_compute. reflexivity. Qed.

Definition run_commit (pl : list fault) : outcome unit * world :=
  Commit update2 entropy0 "1" "2" (World tree0 pl).
Definition run_recovery (d : disk) (pl : list fault) : outcome bool * world := recoverTransactions (World d pl).

Definition fail_of {A} (o : outcome A) : goerr := match o with Fail e => e | _ => Msg "" end.

Lemma pair_of {A B} (r : A * B) a : r.1 = a -> r = (a, r.2).
Proof. by destruct r; intros <-. Qed.

(** The process dies after [a.txt] was replaced; the first recovery dies while
    it reads the journal back. *)
Definition crash_plan : list fault := replicate 73 FOk ++ [FCrash 0 []].
Definition crashed : world := (run_commit crash_plan).2.
Definition recrash_plan : list fault := replicate 7 FOk ++ [FCrash 0 []].
Definition recrashed : world := (run_recovery (wdisk crashed) recrash_plan).2.

Lemma crash_run : (run_commit crash_plan).1 = Crashed.
Proof. vm_compute. reflexivity. Qed.

Lemma recrash_run : (run_recovery (wdisk crashed) recrash_plan).1 = Crashed.
Proof. vm_compute. reflexivity. Qed.

(** Two I/O errors while the files are staged: a path cannot be inspected, and so does the
    removal of the transaction directory. *)
Definition error_plan : list fault := replicate 41 FOk ++ [FErr 0 []; FErr 0 []].
Definition failed : world := (run_commit error_plan).2.
Definition error0 : goerr := Wrap "inspect managed path" (Sys EIO).

Lemma error_run : (run_commit error_plan).1 = Fail error0.
Proof. vm_compute. reflexivity. Qed.

Lemma Commit_crash_atomic_witness :
  exists b w', recoverTransactions (World (wdisk recrashed) []) = (Ret b, w') /\
    atomic (setupOf update2 tree0 (identity entropy0)) (wdisk w').
Proof.
  apply (Commit_crash_atomic update2 tree0 entropy0 "1" "2" crash_plan crashed (wdisk recrashed)).
  - exact update2_ready.
  - by rewrite update2_changed.
  - reflexivity.
  - apply Forall_app. split; [|by constructor]. by apply Forall_replicate.
  - exact (pair_of _ _ crash_run).
  - apply (interrupted_step (wdisk crashed) recrash_plan Crashed recrashed (wdisk recrashed)).
    + exact (pair_of _ _ recrash_run).
    + done.
    + apply interrupted_none.
Defined.

Lemma Commit_failure_atomic_witness :
  exists b w', recoverTransactions (World (wdisk failed) []) = (Ret b, w') /\
    atomic (setupOf update2 tree0 (identity entropy0)) (wdisk w').
Proof.
  apply (Commit_failure_atomic update2 tree0 entropy0 "1" "2" error_plan error0 failed (wdisk failed)).
  - exact update2_ready.
  - by rewrite update2_changed.
  - reflexivity.
  - exact (pair_of _ _ error_run).
  - intros (a & b & Hab). discriminate Hab.
  - apply interrupted_none.
Defined.

Lemma guards0 : guards_match update0 tree0 /\ guards_apart update0.
Proof.
  assert (directories update0 = {["conf" := guard0]}) as Hd by (vm_compute; reflexivity).
  split; intros dir exp Hdir; rewrite Hd in Hdir; apply lookup_singleton_Some in Hdir as [<- <-].
  - split; [by vm_compute|]. split; [|vm_compute; reflexivity].
    apply (bool_decide_unpack _). vm_compute. exact I.
  - split; apply (bool_decide_unpack _); vm_compute; exact I.
Qed.

Lemma Commit_success_complete_witness :
  exists w, wdisk w !! comps "sub/new.txt" = Some (NFile 384 "x").
Proof.
  destruct (commit_calm update0 tree0 entropy0 "1" "2" update0_ready ltac:(by rewrite update0_changed) eq_refl
    (proj1 guards0) (proj2 guards0)) as (w & Hrun & _).
  exists w. refine (proj2 (Commit_success_complete update0 tree0 entropy0 "1" "2" [] w
    update0_ready ltac:(by rewrite update0_changed) eq_refl Hrun) "sub/new.txt" (entryOf update0 "sub/new.txt") _ _).
  - rewrite update0_changed, !elem_of_cons. auto.
  - vm_compute. reflexivity.
Defined.

Lemma Commit_succeeds_witness :
  exists w, Commit update0 entropy0 "1" "2" (World tree0 []) = (Ret tt, w) /\
    atomic (setupOf update0 tree0 (identity entropy0)) (wdisk w) /\
    all_new (setupOf update0 tree0 (identity entropy0)) (wdisk w).
Proof.
  apply (Commit_succeeds update0 tree0 entropy0 "1" "2" update0_ready).
  - by rewrite update0_changed.
  - reflexivity.
  - exact (proj1 guards0).
  - exact (proj2 guards0).
Defined.

(** Someone edits [a.txt] before the commit. *)
Definition edited_tree : disk := <[["a.txt"] := NFile 420 "mine"]> tree0.

Lemma Commit_refuses_concurrent_edit_witness :
  let '(o, w) := Commit update0 entropy0 "1" "2" (World edited_tree []) in wdisk w = edited_tree /\ o <> Ret tt.
Proof.
  apply (Commit_refuses_concurrent_edit update0 edited_tree entropy0 "1" "2" [] "a.txt" (entryOf update0 "a.txt")).
  - apply built_ok, update0_built.
  - apply readableb_sound. vm_compute. reflexivity.
  - vm_compute. reflexivity.
  - vm_compute. reflexivity.
Defined.

Lemma built_invariant_witness :
  txn_ok update0 /\ NoDup (Changed update0) /\ StronglySorted str_le (Changed update0).
Proof. exact (built_invariant update0 update0_built). Defined.

(** ** The failure that is not survived *)

(** The preparation of [c.txt] fails, and so does the first step of the rollback. *)
Definition broken_plan : list fault := replicate 73 FOk ++ [FErr 0 []; FErr 0 []].
Definition broken : world := (run_commit broken_plan).2.
Definition broken_error : goerr :=
  Joined (Wrap "prepare managed file" (Wrap "inspect managed path" (Sys EIO))) (Wrap "inspect project root" (Sys EIO)).

Lemma broken_run : (run_commit broken_plan).1 = Fail broken_error.
Proof. vm_compute. reflexivity. Qed.

(** When the rollback of a failed replacement fails too, [Commit] still
    removes the transaction directory with the only copy of the replaced
    files: here two I/O errors leave [a.txt] new, its old content lost, and
    [c.txt] old, and recovery finds nothing to do. *)
Example failed_rollback_loses_files :
  ready update2 tree0 /\ run_commit broken_plan = (Fail broken_error, broken) /\
  exists w, run_recovery (wdisk broken) [] = (Ret false, w) /\
    wdisk w !! comps "a.txt" = Some (NFile 420 "new") /\ wdisk w !! comps "c.txt" = Some (NFile 420 "gone") /\
    children transactionRoot (wdisk w) = [].
Proof.
  split; [exact update2_ready|]. split; [exact (pair_of _ _ broken_run)|].
  exists (run_recovery (wdisk broken) []).2. split; [apply pair_of; vm_compute; reflexivity|].
  do 2 (split; [vm_compute; reflexivity|]). vm_compute. reflexivity.
Qed.
End TransactionTheorems.
