(* ===== verification/Candidate.v ===== *)
(** The candidate tree of an update: [candidateTree] of [cli/update/managed.go].
    It snapshots every managed file once, collects the candidate versions, and
    becomes the transaction that [Commit] runs. *)
From stdpp Require Import prelude gmap strings list sorting.
From Stdlib Require Import Ascii ZArith Lia.
From S2P Require Import Prelude GoStrings FsPath Sha256 Fs Treehash Transaction TransactionSpec TransactionBuild TransactionCommit.

Module Candidate.
Import FsPath Sha256 Fs Treehash Transaction TransactionSpec TransactionBuild TransactionCommit.

(** ** State *)

Record candidateTree := Tree {
  originals : gmap string managedVersion;
  candidates : gmap string managedVersion;
  completeDirectories : gset string
}.

Definition newCandidateTree : candidateTree := Tree ∅ ∅ ∅.

Definition set_candidate (p : string) (v : managedVersion) (tree : candidateTree) : candidateTree :=
  Tree (originals tree) (<[p := v]> (candidates tree)) (completeDirectories tree).

(** A method: it may fail after it changed the tree, so the tree is returned
    beside the error. *)
Definition TM (A : Type) : Type := candidateTree -> M (result goerr A * candidateTree).

#[export] Instance TM_ret : MRet TM := fun A a tree => mret (Ok a, tree).
#[export] Instance TM_bind : MBind TM := fun A B f m tree =>
  r ← m tree;
  match r with
  | (Ok a, tree') => f a tree'
  | (Err e, tree') => mret (Err e, tree')
  end.

Definition tfail {A} (e : goerr) : TM A := fun tree => mret (Err e, tree).
Definition tmodify (f : candidateTree -> candidateTree) : TM unit := fun tree => mret (Ok tt, f tree).
Definition tget : TM candidateTree := fun tree => mret (Ok tree, tree).
Definition perform {A} (m : M A) : TM A := fun tree => r ← catch m; mret (r, tree).

Fixpoint tfor_each {A} (l : list A) (body : A -> TM unit) : TM unit :=
  match l with
  | [] => mret tt
  | x :: rest => body x ;; tfor_each rest body
  end.

Section Operations.
Context {PR : Pathrs}.

(** ** Operations *)

Definition Track (relative : string) : TM managedVersion :=
  match Relative relative with
  | Err _ => tfail (Msg "path is not project-relative")
  | Ok clean =>
      tree ← tget;
      match originals tree !! clean with
      | Some current => mret current
      | None =>
          current ← perform (snapshotManagedFile clean);
          tmodify (fun tree => Tree (<[clean := current]> (originals tree)) (<[clean := current]> (candidates tree))
                                 (completeDirectories tree));;
          mret current
      end
  end.

Definition bytes (v : managedVersion) : string := default "" (mv_data v).

(** The data is copied. *)
Definition Data (relative : string) : TM string :=
  current ← Track relative;
  if negb (mv_exists current) then tfail (Msg "managed file does not exist") else mret (bytes current).

Definition CandidateData (relative : string) : TM string :=
  match Relative relative with
  | Err _ => tfail (Msg "path is not project-relative")
  | Ok clean =>
      Track clean;;
      tree ← tget;
      let candidate := default absentVersion (candidates tree !! clean) in
      if negb (mv_exists candidate) then tfail (Msg "managed candidate file does not exist")
      else mret (bytes candidate)
  end.

Definition Set_ (relative data : string) : TM unit :=
  current ← Track relative;
  let mode := if negb (mv_exists current) then 420%Z (* 0o644 *) else mv_mode current in
  tmodify (set_candidate (Clean relative)
    {| mv_exists := true; mv_mode := mode; mv_digest := hashBytes data; mv_data := copyBytes data |}).

Definition Delete_ (relative : string) : TM unit :=
  Track relative;;
  tmodify (set_candidate (Clean relative) absentVersion).

Definition filesView (tree : candidateTree) : gmap string string :=
  omap (fun v => if mv_exists v then Some (bytes v) else None) (candidates tree).

(** ** The transaction *)

(** The entry hashed for a tracked file, when it exists below [prefix] *)
Definition digestEntry (prefix : string) (rv : string * managedVersion) : option File :=
  let clean := Clean rv.1 in
  if negb (mv_exists rv.2) || negb (HasPrefix clean prefix) then None
  else Some {| Path := TrimPrefix clean prefix; Mode := mv_mode rv.2; Treehash.Data := bytes rv.2 |}.

Definition managedDirectoryDigest (directory : string) (files : gmap string managedVersion) :
    result goerr string :=
  let prefix := Clean directory +:+ seps in
  let entries := omap (digestEntry prefix) (map_to_list files) in
  wrap_err (fun _ => Msg "tree contains an invalid or duplicate regular file") (Sum entries).

Definition addCandidate (tree : candidateTree) (t : result goerr fileTransaction) (relative : string) :
    result goerr fileTransaction :=
  t ← t;
  let original := default absentVersion (originals tree !! relative) in
  let candidate := default absentVersion (candidates tree !! relative) in
  if mv_exists candidate then AddMode t relative (bytes candidate) (mv_mode candidate) original
  else Delete t relative original.

Definition guardDirectory (tree : candidateTree) (t : result goerr fileTransaction) (directory : string) :
    result goerr fileTransaction :=
  t ← t;
  exp ← managedDirectoryDigest directory (originals tree);
  GuardDirectory t directory exp.

Definition Transaction_ (tree : candidateTree) : result goerr fileTransaction :=
  let paths := SortStrings (map_to_list (candidates tree)).*1 in
  let t := fold_left (addCandidate tree) paths (Ok newFileTransaction) in
  fold_left (guardDirectory tree) (elements (completeDirectories tree)) t.

(** ** Replacing a directory *)

(** Every regular file below a directory, by its path relative to it *)
Definition treeVersion (f : File) : string * managedVersion :=
  (Path f, fileVersion (Mode f) (Treehash.Data f)).

Definition regularTreeFiles (root : path) : M (gmap string managedVersion) :=
  entries ← observe (fun d =>
    match d !! root with
    | None => Err ENOENT
    | Some _ => Ok (all_ok (omap (treeFile root) (map_to_list d)))
    end);
  files ← lift entries;
  mret (list_to_map (treeVersion <$> files)).

Definition replacePath (clean : string) (candidate : gmap string managedVersion) (path : string) : TM unit :=
  let managed := JoinPath clean path in
  match candidate !! path with
  | None => Delete_ managed
  | Some state => Track managed;; tmodify (set_candidate (Clean managed) state)
  end.

Definition ReplaceDirectory (relative : string) (candidateDirectory : path) : TM unit :=
  match Relative relative with
  | Err _ => tfail (Msg "path is not project-relative")
  | Ok clean =>
      tmodify (fun tree => Tree (originals tree) (candidates tree) ({[clean]} ∪ completeDirectories tree));;
      currentRoot ← perform (Resolve clean false);
      current ← perform (wrapped "inspect tracked tree" (regularTreeFiles currentRoot));
      tree ← tget;
      (if forallb (fun path => bool_decide (is_Some (originals tree !! Clean (JoinPath clean path))))
            (map_to_list current).*1
       then mret tt
       else tfail (Msg "tracked tree gained a file while upstream updates were resolving"));;
      candidate ← perform (wrapped "inspect candidate tree" (regularTreeFiles candidateDirectory));
      tfor_each (elements (dom current ∪ dom candidate : gset string)) (replacePath clean candidate)
  end.

(** ** The invariant *)

(** A version with its bytes: absent, or a mode of nine bits and the digest of
    the bytes *)
Definition version_fine (v : managedVersion) : Prop :=
  v = absentVersion \/
  (mv_exists v = true /\ (0 <= mv_mode v <= 511)%Z /\ mv_digest v = hashBytes (bytes v)).

Record tree_inv (tree : candidateTree) : Prop := {
  inv_dom : forall p, is_Some (originals tree !! p) <-> is_Some (candidates tree !! p);
  inv_originals : forall p v, originals tree !! p = Some v -> managed p /\ version_fine v;
  inv_candidates : forall p v, candidates tree !! p = Some v -> version_fine v;
  inv_directories : forall p, p ∈ completeDirectories tree -> managed p
}.

(** File modes are permission bits. *)
Definition disk_modes (d : disk) : Prop := forall p m s, d !! p = Some (NFile m s) -> (0 <= m <= 511)%Z.

(** A snapshot already taken stays; a new one is the file as it is on disk. *)
Definition snapshots (d : disk) (tree tree' : candidateTree) : Prop :=
  originals tree ⊆ originals tree' /\
  forall p v, originals tree' !! p = Some v -> originals tree !! p = Some v \/ v = version_of (d !! comps p).

Lemma snapshots_refl d tree : snapshots d tree tree.
Proof. split; auto. Qed.
Lemma snapshots_same d tree tree' : originals tree' = originals tree -> snapshots d tree tree'.
Proof. intros E. split; rewrite E; auto. Qed.
Lemma snapshots_trans d t1 t2 t3 : snapshots d t1 t2 -> snapshots d t2 t3 -> snapshots d t1 t3.
Proof. intros [H1 H1'] [H2 H2']. split; [by etrans|]. intros p v [H|]%H2'; auto. Qed.

(** What every method promises, whatever I/O errors happen: it only reads the
    file system, keeps the invariant, and takes genuine snapshots; [Q] is its
    result. *)
Definition tspec {A} (d : disk) (P : candidateTree -> Prop) (m : TM A) (Q : A -> candidateTree -> Prop) : Prop :=
  forall tree, tree_inv tree -> P tree ->
    wp AnyFault (m tree)
      (fun rt d' => d' = d /\ tree_inv rt.2 /\ snapshots d tree rt.2 /\
         forall a, rt.1 = Ok a -> Q a rt.2)
      (fun _ _ => False) (fun d' => d' = d) d.

Section Rules.
Context (d : disk).

Lemma tspec_ret {A} (P : candidateTree -> Prop) (Q : A -> candidateTree -> Prop) a :
  (forall tree, P tree -> Q a tree) -> tspec d P (mret a : TM A) Q.
Proof. intros HQ tree Hinv HP. apply wp_ret. split_and!; try done; [apply snapshots_refl|]. intros a' [= <-]. auto. Qed.

Lemma tspec_fail {A} P (Q : A -> candidateTree -> Prop) e : tspec d P (tfail e) Q.
Proof. intros tree Hinv HP. apply wp_ret. split_and!; try done. apply snapshots_refl. Qed.

Lemma tspec_bind {A B} P (m : TM A) (f : A -> TM B) R Q :
  tspec d P m R -> (forall a, tspec d (R a) (f a) Q) -> tspec d P (m ≫= f) Q.
Proof.
  intros Hm Hf tree Hinv HP. apply wp_bind.
  eapply wp_conseq; [exact (Hm tree Hinv HP)| |done|done].
  intros [[a|e] tree'] d' (-> & Hinv' & Hsub & HR); simpl in *.
  - eapply wp_conseq; [exact (Hf a tree' Hinv' (HR a eq_refl))| |done|done].
    intros rt d' (-> & ? & ? & ?). split_and!; try done. by eapply snapshots_trans.
  - apply wp_ret. by split_and!.
Qed.

Lemma tspec_get (P : candidateTree -> Prop) : tspec d P tget (fun t tree => t = tree /\ P tree).
Proof. intros tree Hinv HP. apply wp_ret. split_and!; try done; [apply snapshots_refl|]. intros a [= <-]. done. Qed.

Lemma tspec_modify (P : candidateTree -> Prop) f (Q : unit -> candidateTree -> Prop) :
  (forall tree, tree_inv tree -> P tree -> tree_inv (f tree) /\ snapshots d tree (f tree) /\ Q tt (f tree)) ->
  tspec d P (tmodify f) Q.
Proof.
  intros Hf tree Hinv HP. destruct (Hf tree Hinv HP) as (? & ? & ?). apply wp_ret. split_and!; try done. by intros [] _.
Qed.

Lemma tspec_perform {A} (P : candidateTree -> Prop) (m : M A) (R : A -> Prop) (Q : A -> candidateTree -> Prop) :
  wp AnyFault m (fun a d' => d' = d /\ R a) (fun _ d' => d' = d) (fun d' => d' = d) d ->
  (forall a tree, R a -> P tree -> Q a tree) -> tspec d P (perform m) Q.
Proof.
  intros Hm HQ tree Hinv HP. apply wp_bind, wp_catch. eapply wp_conseq; [exact Hm|..|done].
  - intros a d' [-> HR]. apply wp_ret. split_and!; try done; [apply snapshots_refl|]. intros a' [= <-]. auto.
  - intros e d' ->. apply wp_ret. split_and!; try done. apply snapshots_refl.
Qed.

Lemma tspec_conseq {A} (P P' : candidateTree -> Prop) (m : TM A) (Q Q' : A -> candidateTree -> Prop) :
  tspec d P m Q -> (forall tree, P' tree -> P tree) -> (forall a tree, Q a tree -> Q' a tree) -> tspec d P' m Q'.
Proof.
  intros Hm HP HQ tree Hinv H. eapply wp_conseq; [exact (Hm tree Hinv (HP tree H))| |done|done].
  intros rt d' (? & ? & ? & ?). split_and!; auto.
Qed.

Lemma tspec_for_each {A} (P : candidateTree -> Prop) (l : list A) body :
  (forall x, x ∈ l -> tspec d P (body x) (fun _ => P)) -> tspec d P (tfor_each l body) (fun _ => P).
Proof.
  intros Hb. induction l as [|x l IH]; simpl.
  - by apply tspec_ret.
  - eapply tspec_bind; [apply Hb, elem_of_cons; by left|]. intros u. apply IH. intros y Hy.
    apply Hb, elem_of_cons. by right.
Qed.

(** *** Reading the file system *)

Context (Modes : disk_modes d).

Lemma version_fine_file m s : (0 <= m <= 511)%Z -> version_fine (fileVersion m s).
Proof. by right. Qed.

Lemma wp_snapshot_reads p : managed p ->
  wp AnyFault (snapshotManagedFile p) (fun v d' => d' = d /\ version_fine v /\ v = version_of (d !! comps p))
    (fun _ d' => d' = d) (fun d' => d' = d) d.
Proof.
  intros Hp. apply wp_bind. unfold relative_. unfold managed in Hp. rewrite Hp. apply wp_ret.
  apply wp_bind, wp_Resolve_reads; [|done|done]. intros q Hq. rewrite Hp in Hq. injection Hq as <-.
  apply wp_bind, wp_catch, wp_lstat; [|by intros _; apply wp_fail|done].
  destruct (d !! comps p) as [[|m s| |]|] eqn:Hq; try by apply wp_fail.
  - apply wp_bind, wp_wrapped. eapply wp_read_file; [exact Hq| |done|done]. apply wp_ret. split; [done|]. split; [|done].
    eapply version_fine_file, Modes, Hq.
  - apply wp_ret. split; [done|]. split; [by left|done].
Qed.

Lemma treeFile_mode dir q n f : d !! q = Some n -> treeFile dir (q, n) = Some (Ok f) -> (0 <= Mode f <= 511)%Z.
Proof.
  unfold treeFile. simpl. intros Hq. destruct (strip dir q), n as [|m s| |]; try done. intros [= <-]. by eapply Modes.
Qed.

Lemma all_ok_elem {A} (l : list (result goerr A)) rs : all_ok l = Ok rs -> l = Ok <$> rs.
Proof.
  revert rs. induction l as [|r l IH]; intros rs H; simpl in H; [by injection H as <-|].
  apply bind_ok_inv in H as (a & -> & (as_ & Has & [= <-])%bind_ok_inv). by rewrite (IH as_ Has).
Qed.

(** The regular files below a directory, by their relative paths *)
Definition tree_files (root : path) (files : gmap string managedVersion) : Prop :=
  exists fs, all_ok (omap (treeFile root) (map_to_list d)) = Ok fs /\ files = list_to_map (treeVersion <$> fs).

Lemma wp_regularTreeFiles root :
  wp AnyFault (regularTreeFiles root)
    (fun files d' => d' = d /\ tree_files root files /\ forall p v, files !! p = Some v -> version_fine v)
    (fun _ d' => d' = d) (fun d' => d' = d) d.
Proof.
  apply wp_bind, wp_observe; [|done|done]. destruct (d !! root); [|done].
  apply wp_bind. destruct (all_ok _) as [fs|e] eqn:Hall; [apply wp_ret|by apply wp_fail].
  apply wp_ret. split; [done|]. split; [by exists fs|]. intros p v Hp%elem_of_list_to_map_2.
  apply list_elem_of_fmap in Hp as (f & [= -> ->] & Hf). apply version_fine_file.
  apply all_ok_elem in Hall. assert (Ok f ∈ omap (treeFile root) (map_to_list d)) as Hin.
  { rewrite Hall. apply list_elem_of_fmap. eauto. }
  apply list_elem_of_omap in Hin as ([q nd] & Hq%elem_of_map_to_list & Ht). by eapply treeFile_mode.
Qed.

(** *** The methods *)

Definition tracked (relative : string) (v : managedVersion) (tree : candidateTree) : Prop :=
  Relative relative = Ok (Clean relative) /\ originals tree !! Clean relative = Some v.

Lemma Relative_Clean relative clean : Relative relative = Ok clean -> clean = Clean relative.
Proof. unfold Relative. destruct (_ || _); [done|]. by intros [= <-]. Qed.

Lemma inv_track tree p v : tree_inv tree -> managed p -> version_fine v -> originals tree !! p = None ->
  tree_inv (Tree (<[p := v]> (originals tree)) (<[p := v]> (candidates tree)) (completeDirectories tree)).
Proof.
  intros [H1 H2 H3 H4] Hp Hv Hn. split; simpl.
  - intros q. rewrite !lookup_insert_is_Some. destruct (decide (p = q)); naive_solver.
  - intros q w. rewrite lookup_insert_Some. naive_solver.
  - intros q w. rewrite lookup_insert_Some. naive_solver.
  - done.
Qed.

Lemma inv_set tree p v : tree_inv tree -> is_Some (originals tree !! p) -> version_fine v ->
  tree_inv (set_candidate p v tree).
Proof.
  intros [H1 H2 H3 H4] Hp Hv. split; simpl; try done.
  - intros q. rewrite lookup_insert_is_Some. destruct (decide (p = q)) as [<-|]; [naive_solver|].
    rewrite H1. naive_solver.
  - intros q w. rewrite lookup_insert_Some. naive_solver.
Qed.

Lemma spec_Track relative P :
  (forall t t' : candidateTree, P t -> originals t ⊆ originals t' ->
     (forall q, q <> Clean relative -> candidates t' !! q = candidates t !! q) ->
     completeDirectories t' = completeDirectories t -> P t') ->
  tspec d P (Track relative) (fun v tree => tracked relative v tree /\ P tree).
Proof.
  intros Hmono. unfold Track. destruct (Relative relative) as [clean|] eqn:Hr; [|apply tspec_fail].
  pose proof (Relative_Clean _ _ Hr) as ->.
  assert (managed (Clean relative)) as Hm by (by eapply managed_clean).
  eapply tspec_bind; [apply tspec_get|]. intros t0. destruct (originals t0 !! Clean relative) as [v|] eqn:Ho.
  - apply tspec_ret. by intros tree [-> ?].
  - eapply tspec_bind with (R := fun v tree => t0 = tree /\ P tree /\ version_fine v /\ v = version_of (d !! comps (Clean relative))).
    { apply tspec_perform with (R := fun v => version_fine v /\ v = version_of (d !! comps (Clean relative)));
        [by apply wp_snapshot_reads|]. naive_solver. }
    intros v. eapply tspec_bind with (R := fun _ tree => tracked relative v tree /\ P tree).
    + apply tspec_modify. intros tree Hinv (-> & HP & Hv & Hdisk). split; [by apply inv_track|].
      assert (originals tree ⊆ <[Clean relative:=v]> (originals tree)) as Hsub by (by apply insert_subseteq).
      split; [split; [done|]; intros q w; simpl; rewrite lookup_insert_Some; naive_solver|].
      split; [split; [done|apply lookup_insert_eq]|]. eapply Hmono; [done|done| |done]. intros q Hq. by apply lookup_insert_ne.
    + intros u. by apply tspec_ret.
Qed.

Lemma spec_track_set relative (f : managedVersion -> managedVersion) (P : candidateTree -> Prop) :
  (forall v, version_fine v -> version_fine (f v)) ->
  (forall t t' : candidateTree, P t -> originals t ⊆ originals t' ->
     (forall q, q <> Clean relative -> candidates t' !! q = candidates t !! q) ->
     completeDirectories t' = completeDirectories t -> P t') ->
  tspec d P (current ← Track relative; tmodify (set_candidate (Clean relative) (f current)))
    (fun _ tree => P tree /\ exists v, tracked relative v tree /\ candidates tree !! Clean relative = Some (f v)).
Proof.
  intros Hf Hmono. eapply tspec_bind; [by apply spec_Track|]. intros v. apply tspec_modify.
  intros tree Hinv [[Hr Ho] HP]. destruct (inv_originals tree Hinv _ _ Ho) as [_ Hv].
  split; [apply inv_set; eauto|]. split; [by apply snapshots_same|]. split.
  - eapply Hmono; [done|done| |done]. intros q Hq. by apply lookup_insert_ne.
  - exists v. split; [done|]. apply lookup_insert_eq.
Qed.

Lemma fine_set v data : version_fine v ->
  version_fine {| mv_exists := true;
                  mv_mode := if negb (mv_exists v) then 420 else mv_mode v;
                  mv_digest := hashBytes data; mv_data := copyBytes data |}.
Proof.
  intros Hv. right. unfold bytes. simpl. rewrite copyBytes_default. split; [done|]. split; [|done].
  destruct Hv as [->|(-> & ? & _)]; simpl; lia.
Qed.

Lemma fine_absent : version_fine absentVersion.
Proof. by left. Qed.

(** Where a file of a replaced directory goes, and what it becomes *)
Definition place (clean path : string) : string := Clean (JoinPath clean path).
Definition replacement (candidate : gmap string managedVersion) (path : string) : managedVersion :=
  default absentVersion (candidate !! path).

(** Every path of the list is replaced, where two have one place by one of
    them, and nothing else changes. *)
Record replaced (clean : string) (candidate : gmap string managedVersion) (l : list string) (tree0 tree : candidateTree) : Prop := {
  replaced_guarded : clean ∈ completeDirectories tree;
  replaced_files : forall path, path ∈ l -> exists path', path' ∈ l /\ place clean path' = place clean path /\
    candidates tree !! place clean path = Some (replacement candidate path');
  replaced_rest : forall q, (forall path, path ∈ l -> q <> place clean path) -> candidates tree !! q = candidates tree0 !! q
}.

Lemma spec_replacePath clean candidate path l tree0 :
  (forall p v, candidate !! p = Some v -> version_fine v) ->
  tspec d (replaced clean candidate l tree0) (replacePath clean candidate path)
    (fun _ => replaced clean candidate (l ++ [path]) tree0).
Proof.
  intros Hc. set (P := fun tree => clean ∈ completeDirectories tree /\
    (forall p, p ∈ l -> place clean p <> place clean path -> exists p', p' ∈ l /\ place clean p' = place clean p /\
       candidates tree !! place clean p = Some (replacement candidate p')) /\
    (forall q, q <> place clean path -> (forall p, p ∈ l -> q <> place clean p) -> candidates tree !! q = candidates tree0 !! q)).
  assert (replacePath clean candidate path =
    (Track (JoinPath clean path) ≫= fun _ => tmodify (set_candidate (place clean path) (replacement candidate path)))) as ->.
  { unfold replacePath, replacement, Delete_. by destruct (candidate !! path). }
  assert (version_fine (replacement candidate path)) as Hv.
  { unfold replacement. destruct (candidate !! path) eqn:E; [by eapply Hc|by left]. }
  eapply tspec_conseq; [apply (spec_track_set (JoinPath clean path) (fun _ => replacement candidate path) P); [done|]| |].
  - intros t t' (H1 & H2 & H3) _ Hsame Hdirs. unfold P. rewrite Hdirs. split; [done|]. split.
    + intros p Hp Hne. rewrite Hsame by done. by apply H2.
    + intros q Hq Hrest. rewrite Hsame by done. by apply H3.
  - intros tree [H1 H2 H3]. split; [done|]. split; [intros p Hp _; by apply H2|]. intros q _. apply H3.
  - intros _ tree [(H1 & H2 & H3) (v & _ & Hset)]. fold (place clean path) in Hset. split; [done| |].
    + intros p Hp. destruct (decide (place clean p = place clean path)) as [E|Hne].
      * exists path. rewrite E. split; [|done]. apply elem_of_app. right. by apply list_elem_of_singleton.
      * apply elem_of_app in Hp as [Hp|Hp]; [|apply list_elem_of_singleton in Hp; by subst p].
        destruct (H2 p Hp Hne) as (p' & ? & ? & ?). exists p'. split; [|done]. apply elem_of_app. by left.
    + intros q Hq. apply H3; [apply Hq, elem_of_app; right; by apply list_elem_of_singleton|].
      intros p Hp. apply Hq, elem_of_app. by left.
Qed.

Lemma spec_replaceAll clean candidate tree0 :
  (forall p v, candidate !! p = Some v -> version_fine v) ->
  forall l l0, tspec d (replaced clean candidate l0 tree0) (tfor_each l (replacePath clean candidate))
    (fun _ => replaced clean candidate (l0 ++ l) tree0).
Proof.
  intros Hc l. induction l as [|path l IH]; intros l0; cbn [tfor_each].
  - apply tspec_ret. by rewrite app_nil_r.
  - eapply tspec_bind; [by apply spec_replacePath|]. intros u. eapply tspec_conseq; [apply IH|done|].
    intros a tree. by rewrite <- app_assoc.
Qed.

Lemma spec_ReplaceDirectory relative dir tree0 :
  tspec d (fun tree => tree = tree0) (ReplaceDirectory relative dir) (fun _ tree => exists current candidate,
    tree_files (comps (Clean relative)) current /\ tree_files dir candidate /\
    replaced (Clean relative) candidate (elements (dom current ∪ dom candidate : gset string)) tree0 tree).
Proof.
  unfold ReplaceDirectory. destruct (Relative relative) as [clean|] eqn:Hr; [|apply tspec_fail].
  pose proof (Relative_Clean _ _ Hr) as ->.
  assert (managed (Clean relative)) as Hm by (by eapply managed_clean). pose proof Hm as Hrel. unfold managed in Hrel.
  set (guarded := fun tree => Clean relative ∈ completeDirectories tree /\ candidates tree = candidates tree0).
  eapply tspec_bind with (R := fun _ => guarded).
  { apply tspec_modify. intros tree [H1 H2 H3 H4] ->. split; [|split; [by apply snapshots_same|]]; simpl.
    - split; try done. simpl. intros p [->%elem_of_singleton|?]%elem_of_union; auto.
    - split; [|done]. simpl. apply elem_of_union_l. by apply elem_of_singleton. }
  intros u. eapply tspec_bind with (R := fun root tree => root = comps (Clean relative) /\ guarded tree).
  { apply tspec_perform with (R := fun root => root = comps (Clean relative)); [|done].
    apply wp_Resolve_reads; [|done|done]. intros c E. rewrite Hrel in E. by injection E as <-. }
  intros root. eapply tspec_bind with (R := fun current tree => tree_files (comps (Clean relative)) current /\ guarded tree).
  { eapply tspec_perform with (R := tree_files root); [apply wp_wrapped|by intros a tree ? [-> ?]].
    eapply wp_conseq; [apply wp_regularTreeFiles|naive_solver|done|done]. }
  intros current. eapply tspec_bind; [apply tspec_get|]. intros t0.
  eapply tspec_bind with (R := fun _ tree => tree_files (comps (Clean relative)) current /\ guarded tree).
  { destruct (forallb _ _); [apply tspec_ret; naive_solver|apply tspec_fail]. }
  intros u'. eapply tspec_bind with (R := fun candidate tree => (tree_files dir candidate /\ forall p v, candidate !! p = Some v -> version_fine v) /\
    tree_files (comps (Clean relative)) current /\ guarded tree).
  { eapply tspec_perform; [apply wp_wrapped, wp_regularTreeFiles|done]. }
  intros candidate tree Hinv [[Hfiles Hc] [Hcur [Hg Hs]]].
  assert (replaced (Clean relative) candidate [] tree0 tree) as Hstart.
  { split; [done| |]; [intros p Hp; by apply not_elem_of_nil in Hp|]. intros q _. by rewrite Hs. }
  eapply wp_conseq; [exact (spec_replaceAll (Clean relative) candidate tree0 Hc _ [] tree Hinv Hstart)| |done|done].
  intros rt d' (? & ? & ? & HQ). split_and!; try done. intros a E. exists current, candidate. split_and!; try done. exact (HQ a E).
Qed.
End Rules.

(** ** The transaction a tree becomes *)

Definition original_of (tree : candidateTree) (p : string) : managedVersion :=
  default absentVersion (originals tree !! p).
Definition candidate_of (tree : candidateTree) (p : string) : managedVersion :=
  default absentVersion (candidates tree !! p).

Definition entry_for (tree : candidateTree) (p : string) : option transactionEntry :=
  let o := original_of tree p in
  let c := candidate_of tree p in
  if mv_exists c then
    Some {| expected := withoutData o;
            candidate := {| mv_exists := true; mv_mode := Perm (mv_mode c);
                            mv_digest := hashBytes (bytes c); mv_data := copyBytes (bytes c) |} |}
  else if mv_exists o then Some {| expected := withoutData o; candidate := absentVersion |}
  else None.

(** No existing version has an empty permission mask, which the transaction
    refuses. *)
Definition modes_usable (tree : candidateTree) : Prop :=
  forall p, (mv_exists (original_of tree p) = true -> (0 < mv_mode (original_of tree p))%Z) /\
            (mv_exists (candidate_of tree p) = true -> (0 < mv_mode (candidate_of tree p))%Z).

Lemma of_fine tree p : tree_inv tree -> version_fine (original_of tree p) /\ version_fine (candidate_of tree p).
Proof.
  intros [_ H2 H3 _]. unfold original_of, candidate_of. split.
  - destruct (originals tree !! p) eqn:H; [by eapply H2|by left].
  - destruct (candidates tree !! p) eqn:H; [by eapply H3|by left].
Qed.

Lemma small_mode m : (0 <= m <= 511)%Z -> Perm m = m /\ IsRegular m = true.
Proof.
  intros Hm. assert (Z.land m 511 = m) as Hland.
  { change 511%Z with (Z.ones 9). rewrite Z.land_ones by lia. apply Z.mod_small. lia. }
  split; [done|]. unfold IsRegular. rewrite <- Hland, <- Z.land_assoc.
  change (Z.land 511 ModeType) with 0%Z. by rewrite Z.land_0_r.
Qed.

Lemma fine_validates v : version_fine v -> (mv_exists v = true -> (0 < mv_mode v)%Z) ->
  validateManagedVersion v = Ok tt.
Proof.
  intros [->|(Hx & Hm & Hd)] Hpos; [done|]. unfold validateManagedVersion. rewrite Hx. simpl.
  specialize (Hpos Hx). rewrite Hd, hashBytes_valid.
  rewrite (proj2 (Z.eqb_neq _ _)), (proj2 (Z.ltb_ge _ _)) by lia. simpl.
  unfold bytes in *. destruct (mv_data v) as [data|]; [|done]. simpl. by rewrite String.eqb_refl.
Qed.

Lemma add_managed t p exp cand :
  managed p -> files t !! p = None -> validateManagedVersion exp = Ok tt -> validateManagedVersion cand = Ok tt ->
  add t p exp cand = Ok {| files := <[p := {| expected := withoutData exp; candidate := cand |}]> (files t);
                           directories := directories t |}.
Proof. intros Hp Hn He Hc. unfold add. unfold managed in Hp. by rewrite Hp, Hn, He, Hc. Qed.

Lemma addCandidate_step tree t p :
  tree_inv tree -> modes_usable tree -> managed p -> built t -> files t !! p = None ->
  exists t', addCandidate tree (Ok t) p = Ok t' /\ built t' /\ directories t' = directories t /\
    forall q, files t' !! q = if decide (q = p) then entry_for tree p else files t !! q.
Proof.
  intros Hinv Hmodes Hp Hb Hn. destruct (of_fine tree p Hinv) as [Ho Hc]. destruct (Hmodes p) as [Hmo Hmc].
  pose proof (fine_validates _ Ho Hmo) as Vo.
  assert (0 <= mv_mode (original_of tree p))%Z as Hge by (destruct Ho as [->|(_ & ? & _)]; [done|lia]).
  unfold addCandidate, entry_for. simpl. fold (original_of tree p) (candidate_of tree p).
  destruct (mv_exists (candidate_of tree p)) eqn:Hcx.
  - specialize (Hmc eq_refl). destruct Hc as [Hc|(_ & Hcm & Hcd)]; [by rewrite Hc in Hcx|].
    destruct (small_mode _ Hcm) as [HP HR].
    assert (exists t', AddMode t p (bytes (candidate_of tree p)) (mv_mode (candidate_of tree p)) (original_of tree p) = Ok t' /\
      directories t' = directories t /\ files t' = <[p := {| expected := withoutData (original_of tree p);
        candidate := {| mv_exists := true; mv_mode := Perm (mv_mode (candidate_of tree p));
          mv_digest := hashBytes (bytes (candidate_of tree p)); mv_data := copyBytes (bytes (candidate_of tree p)) |} |}]> (files t))
      as (t' & Ht' & Hdir & Hfiles).
    { unfold AddMode. rewrite HR, HP. rewrite (proj2 (Z.eqb_neq _ _)) by lia. simpl. eexists.
      split; [apply add_managed; try done|done].
      apply fine_validates; [|simpl; lia]. right. unfold bytes. cbn [mv_exists mv_mode mv_digest mv_data].
      rewrite copyBytes_default. split_and!; try done; lia. }
    exists t'. split; [done|]. split; [by eapply built_AddMode|]. split; [done|]. intros q. rewrite Hfiles.
    destruct (decide (q = p)) as [->|]; [by rewrite lookup_insert_eq|by rewrite lookup_insert_ne].
  - unfold Delete. destruct (mv_exists (original_of tree p)) eqn:Hox; simpl.
    + assert (Delete t p (original_of tree p) = Ok {| files := <[p := {| expected := withoutData (original_of tree p);
        candidate := absentVersion |}]> (files t); directories := directories t |}) as Hd.
      { unfold Delete. rewrite Hox. simpl. by apply add_managed. }
      eexists. split; [by apply add_managed|]. split; [by eapply built_Delete|]. split; [done|]. simpl. intros q.
      destruct (decide (q = p)) as [->|]; [by rewrite lookup_insert_eq|by rewrite lookup_insert_ne].
    + exists t. split; [done|]. split; [done|]. split; [done|]. intros q. by destruct (decide (q = p)) as [->|].
Qed.

Lemma addCandidate_fold tree l t :
  tree_inv tree -> modes_usable tree -> NoDup l -> (forall p, p ∈ l -> managed p /\ files t !! p = None) -> built t ->
  exists t', fold_left (addCandidate tree) l (Ok t) = Ok t' /\ built t' /\ directories t' = directories t /\
    forall q, files t' !! q = if decide (q ∈ l) then entry_for tree q else files t !! q.
Proof.
  intros Hinv Hmodes Hnd. revert t. induction Hnd as [|p l Hp Hnd IH]; intros t Hl Hb.
  - exists t. split; [done|]. split; [done|]. split; [done|]. intros q. by rewrite decide_False by apply not_elem_of_nil.
  - destruct (Hl p) as [Hm Hn]; [apply elem_of_cons; by left|].
    destruct (addCandidate_step tree t p Hinv Hmodes Hm Hb Hn) as (t1 & H1 & Hb1 & Hd1 & Hf1).
    destruct (IH t1) as (t2 & H2 & Hb2 & Hd2 & Hf2); [|done|].
    { intros q Hq. destruct (Hl q) as [? ?]; [apply elem_of_cons; by right|]. split; [done|].
      rewrite Hf1. destruct (decide (q = p)) as [->|]; [done|done]. }
    exists t2. cbn [fold_left]. rewrite H1. split; [done|]. split; [done|]. split; [congruence|].
    intros q. rewrite Hf2, Hf1. destruct (decide (q ∈ p :: l)) as [Hin|Hnin].
    + apply elem_of_cons in Hin. destruct (decide (q ∈ l)); [done|]. destruct (decide (q = p)) as [->|]; [done|].
      destruct Hin; done.
    + apply not_elem_of_cons in Hnin as [? ?]. by rewrite !decide_False.
Qed.

Lemma guard_step tree t dir s :
  managed dir -> built t -> directories t !! dir = None ->
  managedDirectoryDigest dir (originals tree) = Ok s -> s <> "" ->
  exists t', guardDirectory tree (Ok t) dir = Ok t' /\ built t' /\ files t' = files t /\
    directories t' = <[dir := s]> (directories t).
Proof.
  intros Hm Hb Hn Hd Hs. unfold guardDirectory. simpl. rewrite Hd. simpl.
  assert (GuardDirectory t dir s = Ok {| files := files t; directories := <[dir := s]> (directories t) |}) as Hg.
  { unfold GuardDirectory. unfold managed in Hm. rewrite Hm. by rewrite (proj2 (String.eqb_neq _ _) Hs), Hn. }
  eexists. split; [exact Hg|]. split; [by eapply built_Guard|done].
Qed.

Lemma guard_fold tree l t :
  NoDup l -> (forall dir, dir ∈ l -> managed dir /\ directories t !! dir = None /\
     exists s, managedDirectoryDigest dir (originals tree) = Ok s /\ s <> "") -> built t ->
  exists t', fold_left (guardDirectory tree) l (Ok t) = Ok t' /\ built t' /\ files t' = files t /\
    forall dir s, directories t' !! dir = Some s <->
      directories t !! dir = Some s \/ (dir ∈ l /\ managedDirectoryDigest dir (originals tree) = Ok s).
Proof.
  intros Hnd. revert t. induction Hnd as [|dir l Hdir Hnd IH]; intros t Hl Hb.
  - exists t. split; [done|]. split; [done|]. split; [done|]. intros dir s. rewrite elem_of_nil. tauto.
  - destruct (Hl dir) as (Hm & Hn & s & Hs & Hne); [apply elem_of_cons; by left|].
    destruct (guard_step tree t dir s Hm Hb Hn Hs Hne) as (t1 & H1 & Hb1 & Hf1 & Hd1).
    destruct (IH t1) as (t2 & H2 & Hb2 & Hf2 & Hd2); [|done|].
    { intros dir' Hin. destruct (Hl dir') as (? & ? & ?); [apply elem_of_cons; by right|]. split; [done|].
      split; [|done]. rewrite Hd1, lookup_insert_ne; [done|]. by intros ->. }
    exists t2. cbn [fold_left]. rewrite H1. split; [done|]. split; [done|]. split; [congruence|].
    intros dir' s'. rewrite Hd2, Hd1, elem_of_cons, lookup_insert_Some. destruct (decide (dir = dir')) as [<-|]; [|naive_solver].
    rewrite Hn, Hs. split; [intros [[[_ <-]|[? _]]|[? _]]; auto; done|]. intros [?|[_ [= <-]]]; [done|auto].
Qed.

Lemma Sum_nonempty l s : Sum l = Ok s -> s <> "".
Proof.
  unfold Sum. intros (h & _ & [= <-])%bind_ok_inv Hs. pose proof (hashBytes_valid h) as Hv. by rewrite Hs in Hv.
Qed.

Lemma digest_nonempty dir files s : managedDirectoryDigest dir files = Ok s -> s <> "".
Proof.
  unfold managedDirectoryDigest. destruct (Sum _) as [s'|] eqn:Hs; [|done]. intros [= <-]. by eapply Sum_nonempty.
Qed.

(** The transaction of a consistent tree exists, is well formed and holds
    exactly the tracked files. *)
Lemma Transaction_of_tree tree :
  tree_inv tree -> modes_usable tree ->
  (forall dir, dir ∈ completeDirectories tree -> is_ok (managedDirectoryDigest dir (originals tree)) = true) ->
  exists t, Transaction_ tree = Ok t /\ built t /\
    (forall p, files t !! p = if decide (is_Some (candidates tree !! p)) then entry_for tree p else None) /\
    (forall dir s, directories t !! dir = Some s <-> dir ∈ completeDirectories tree /\ managedDirectoryDigest dir (originals tree) = Ok s).
Proof.
  intros Hinv Hmodes Hdirs. unfold Transaction_. set (l := SortStrings (map_to_list (candidates tree)).*1).
  assert (forall p, p ∈ l <-> is_Some (candidates tree !! p)) as Hl.
  { intros p. unfold l. rewrite SortStrings_perm, list_elem_of_fmap. split.
    - intros ([q e] & -> & Hin%elem_of_map_to_list). simpl. eauto.
    - intros [e He]. exists (p, e). split; [done|]. by apply elem_of_map_to_list. }
  assert (NoDup l) as Hnd by (unfold l; rewrite SortStrings_perm; apply NoDup_fst_map_to_list).
  destruct (addCandidate_fold tree l newFileTransaction Hinv Hmodes Hnd) as (t1 & H1 & Hb1 & Hd1 & Hf1).
  { intros p Hp%Hl. split; [|apply lookup_empty]. apply (inv_dom tree Hinv) in Hp as [v Hv].
    by destruct (inv_originals tree Hinv p v Hv). }
  { constructor. }
  destruct (guard_fold tree (elements (completeDirectories tree)) t1) as (t2 & H2 & Hb2 & Hf2 & Hd2).
  { apply NoDup_elements. }
  { intros dir Hdir%elem_of_elements. split; [by apply (inv_directories tree Hinv)|].
    split; [rewrite Hd1; apply lookup_empty|]. specialize (Hdirs dir Hdir).
    destruct (managedDirectoryDigest dir (originals tree)) as [s|] eqn:Hs; [|done]. exists s. split; [done|].
    by eapply digest_nonempty. }
  { done. }
  exists t2. rewrite H1. split; [done|]. split; [done|]. split.
  - intros p. rewrite Hf2, Hf1. simpl. rewrite lookup_empty.
    destruct (decide (p ∈ l)) as [Hp|Hp], (decide (is_Some (candidates tree !! p))) as [Hs|Hs]; try done;
      rewrite Hl in Hp; done.
  - intros dir s. rewrite Hd2, Hd1, elem_of_elements. change (directories newFileTransaction) with (∅ : gmap string string).
    rewrite lookup_empty. naive_solver.
Qed.

Lemma sameVersion_entry o c : version_fine o -> version_fine c -> (mv_exists c = true -> (0 < mv_mode c)%Z) ->
  mv_exists c = true ->
  sameManagedVersion (withoutData o)
    {| mv_exists := true; mv_mode := Perm (mv_mode c); mv_digest := hashBytes (bytes c); mv_data := copyBytes (bytes c) |}
  = sameManagedVersion o c.
Proof.
  intros Ho [->|(Hcx & Hcm & Hcd)] _ Hx; [done|]. unfold sameManagedVersion. simpl.
  destruct (small_mode _ Hcm) as [-> _]. by rewrite Hcx, Hcd.
Qed.

(** ** The guard of a directory *)

Lemma Join_app l l' : l <> [] -> l' <> [] -> Join (l ++ l') seps = Join l seps +:+ seps +:+ Join l' seps.
Proof.
  intros Hl Hl'. induction l as [|w l IH]; [done|]. destruct l as [|w' l].
  - cbn [app]. by rewrite Join_cons.
  - rewrite <- app_comm_cons, Join_cons, IH, (Join_cons w (w' :: l)) by done. by rewrite !str_append_assoc.
Qed.

Lemma Split_sep s u : Split (s +:+ seps +:+ u) sep = Split s sep ++ Split u sep.
Proof.
  rewrite <- (Join_Split s sep) at 1. rewrite <- (Join_Split u sep) at 1.
  change (String sep "") with seps. rewrite <- Join_app by apply Split_nonempty.
  apply (Split_Join (Split s sep ++ Split u sep) sep).
  - pose proof (Split_nonempty s sep). by destruct (Split s sep).
  - apply Forall_app. split; apply Split_no_sep.
Qed.

Lemma managed_Clean p : managed p -> Clean p = p.
Proof. intros Hp. by destruct (Relative_idempotent p p Hp). Qed.

(** The files below [dir]: by their elements, and by the prefix of the name *)
Lemma comps_below dir p rel : managed dir -> managed p -> rel <> [] -> comps p = comps dir ++ rel ->
  p = dir +:+ seps +:+ Join rel seps.
Proof.
  intros Hd Hp Hne Hc. destruct (managed_comps p Hp) as (_ & _ & <-).
  destruct (managed_comps dir Hd) as (Hdne & _ & Hdj). by rewrite Hc, Join_app, Hdj.
Qed.

Lemma comps_prefix dir r : comps (dir +:+ seps +:+ r) = comps dir ++ comps r.
Proof. apply Split_sep. Qed.

Lemma strip_Some p q rel : strip p q = Some rel <-> q = p ++ rel.
Proof.
  unfold strip. case_bool_decide as Ht.
  - split.
    + intros [= <-]. rewrite <- (take_drop (length p) q) at 1. by rewrite Ht.
    + intros ->. by rewrite drop_app_length.
  - split; [done|]. intros ->. by rewrite take_app_length in Ht.
Qed.

(** The tracked files are the regular files of the tree, and nothing else is
    below the directory. *)
Record covers (dir : string) (files : gmap string managedVersion) (d : disk) : Prop := {
  cov_current : forall p v, files !! p = Some v -> managed p /\ v = version_of (d !! comps p);
  cov_all : forall q n, below (comps dir) q -> d !! q = Some n ->
    n = NDir \/ exists p m s, q = comps p /\ n = NFile m s /\ p <> dir /\ is_Some (files !! p)
}.

Lemma walk_entry dir files d f : managed dir -> covers dir files d ->
  Ok f ∈ omap (treeFile (comps dir)) (map_to_list d) <->
  f ∈ omap (digestEntry (dir +:+ seps)) (map_to_list files).
Proof.
  intros Hdir [Hcur Hall]. rewrite !list_elem_of_omap. split.
  - intros ([q n] & Hq%elem_of_map_to_list & Ht). unfold treeFile in Ht. simpl in Ht.
    destruct (strip (comps dir) q) as [rel|] eqn:Hs; [|done]. apply strip_Some in Hs as ->.
    destruct (Hall _ n (below_app _ _) Hq) as [->|(p & m & s & Hp & -> & Hpd & [v Hv])]; [done|].
    destruct (Hcur p v Hv) as [Hm Hver]. rewrite <- Hp, Hq in Hver. simpl in Hver.
    assert (rel <> []) as Hne.
    { intros ->. rewrite app_nil_r in Hp. by apply Hpd, comps_inj. }
    pose proof (comps_below dir p rel Hdir Hm Hne (eq_sym Hp)) as Hpe.
    exists (p, v). split; [by apply elem_of_map_to_list|]. unfold digestEntry. simpl.
    rewrite (managed_Clean p Hm), Hver. simpl.
    assert (p = (dir +:+ seps) +:+ Join rel seps) as Hp' by (by rewrite str_append_assoc).
    rewrite Hp'. rewrite TrimPrefix_append.
    assert (HasPrefix ((dir +:+ seps) +:+ Join rel seps) (dir +:+ seps) = true) as -> by (apply HasPrefix_true; eauto).
    simpl. unfold bytes. simpl. destruct rel; [done|]. by injection Ht as <-.
  - intros ([p v] & Hv%elem_of_map_to_list & Ht). destruct (Hcur p v Hv) as [Hm Hver].
    unfold digestEntry in Ht. simpl in Ht. rewrite (managed_Clean p Hm) in Ht.
    destruct (mv_exists v) eqn:Hx; [|done]. destruct (HasPrefix p (dir +:+ seps)) eqn:Hpre; [|done]. simpl in Ht.
    apply HasPrefix_true in Hpre as [r Hr]. rewrite Hr, TrimPrefix_append in Ht. injection Ht as <-.
    rewrite str_append_assoc in Hr.
    assert (comps p = comps dir ++ comps r) as Hc by (rewrite Hr; apply comps_prefix).
    destruct (d !! comps p) as [n|] eqn:Hd; [|by rewrite Hver in Hx].
    destruct n as [|m s| |]; try (by rewrite Hver in Hx). exists (comps p, NFile m s).
    split; [by apply elem_of_map_to_list|]. unfold treeFile. simpl.
    rewrite (proj2 (strip_Some (comps dir) (comps p) (comps r)) Hc). rewrite Hver. unfold bytes. simpl.
    pose proof (Split_nonempty r sep) as Hne. unfold comps. destruct (Split r sep) as [|c l] eqn:Hsp; [done|].
    by rewrite <- (Join_Split r sep), Hsp.
Qed.

Lemma NoDup_fmap_omap {A B C} (f : A -> option B) (g : B -> C) l :
  NoDup l -> (forall x y b b', f x = Some b -> f y = Some b' -> x ∈ l -> y ∈ l -> g b = g b' -> x = y) ->
  NoDup (g <$> omap f l).
Proof.
  intros Hnd. induction Hnd as [|x l Hx Hnd IH]; intros Hinj; [constructor|]. simpl.
  assert (NoDup (g <$> omap f l)) as Hl.
  { apply IH. intros x' y' b b' H1 H2 Hx' Hy'. apply (Hinj x' y' b b' H1 H2); apply elem_of_cons; by right. }
  destruct (f x) as [b|] eqn:Hb; [|done]. rewrite fmap_cons. constructor; [|done].
  intros (b' & Hg & (y & Hy & Hfy)%list_elem_of_omap)%list_elem_of_fmap. apply Hx.
  replace x with y; [done|]. symmetry.
  apply (Hinj x y b b' Hb Hfy); [apply elem_of_cons; by left|apply elem_of_cons; by right|done].
Qed.

Lemma all_ok_total {A} (l : list (result goerr A)) : (forall e, Err e ∉ l) -> exists rs, all_ok l = Ok rs.
Proof.
  induction l as [|[a|e] l IH]; intros Hl.
  - by exists [].
  - destruct IH as [rs Hrs]; [intros e He; apply (Hl e), elem_of_cons; by right|]. exists (a :: rs). simpl. by rewrite Hrs.
  - destruct (Hl e). apply elem_of_cons. by left.
Qed.

(** When the tracked files are the files of the tree, the guard computed from
    them is the digest [Verify] will compute. *)
Lemma guard_is_snapshot dir files d : managed dir -> covers dir files d ->
  managedDirectoryDigest dir files = directoryDigest (comps dir) d.
Proof.
  intros Hdir Hcov. pose proof Hcov as [Hcur Hall]. unfold managedDirectoryDigest, directoryDigest.
  rewrite (managed_Clean dir Hdir).
  destruct (all_ok_total (omap (treeFile (comps dir)) (map_to_list d))) as [es Hes].
  { intros e ([q n] & Hq%elem_of_map_to_list & Ht)%list_elem_of_omap. unfold treeFile in Ht. simpl in Ht.
    destruct (strip (comps dir) q) as [rel|] eqn:Hs; [|done]. apply strip_Some in Hs as ->.
    destruct (Hall _ n (below_app _ _) Hq) as [->|(p & m & s & _ & -> & _)]; done. }
  rewrite Hes. simpl. f_equal.
  assert (forall f, f ∈ es <-> f ∈ omap (digestEntry (dir +:+ seps)) (map_to_list files)) as Hsame.
  { intros f. rewrite <- (walk_entry dir files d f Hdir Hcov). rewrite (all_ok_elem _ _ Hes).
    rewrite list_elem_of_fmap. naive_solver. }
  assert (NoDup (Path <$> omap (digestEntry (dir +:+ seps)) (map_to_list files))) as Hnd.
  { apply NoDup_fmap_omap; [apply NoDup_map_to_list|]. intros [p v] [p' v'] f f'. unfold digestEntry. simpl.
    intros H1 H2 Hp%elem_of_map_to_list Hp'%elem_of_map_to_list Hpath.
    destruct (Hcur p v Hp) as [Hm _], (Hcur p' v' Hp') as [Hm' _].
    rewrite (managed_Clean p Hm) in H1. rewrite (managed_Clean p' Hm') in H2.
    destruct (mv_exists v); [|done]. destruct (mv_exists v'); [|done].
    destruct (HasPrefix p (dir +:+ seps)) eqn:Hx; [|done]. destruct (HasPrefix p' (dir +:+ seps)) eqn:Hx'; [|done].
    simpl in H1, H2. injection H1 as <-. injection H2 as <-. simpl in Hpath.
    apply HasPrefix_true in Hx as [r ->], Hx' as [r' ->]. rewrite !TrimPrefix_append in Hpath. subst r'.
    congruence. }
  assert (NoDup es) as Hnde.
  { pose proof (all_ok_elem _ _ Hes) as Heq. apply (NoDup_fmap_1 (@Ok goerr File)). rewrite <- Heq.
    rewrite <- (list_fmap_id (omap _ _)). apply NoDup_fmap_omap; [apply NoDup_map_to_list|].
    intros [q n] [q' n'] r r' H1 H2 Hq%elem_of_map_to_list Hq'%elem_of_map_to_list Hr. simpl in Hr. subst r'.
    unfold treeFile in H1, H2. simpl in H1, H2.
    destruct (strip (comps dir) q) as [rel|] eqn:Hs; [|done].
    destruct (strip (comps dir) q') as [rel'|] eqn:Hs'; [|by destruct n'].
    apply strip_Some in Hs as ->, Hs' as ->.
    destruct (Hall _ n (below_app _ _) Hq) as [->|(p & m & s & Hp & -> & Hpd & [v Hv])]; [done|].
    destruct (Hall _ n' (below_app _ _) Hq') as [->|(p' & m' & s' & Hp' & -> & Hpd' & [v' Hv'])]; [done|].
    destruct (Hcur p v Hv) as [Hm _], (Hcur p' v' Hv') as [Hm' _].
    assert (rel <> [] /\ rel' <> []) as [Hne Hne'].
    { split; intros ->; rewrite app_nil_r in *; [apply Hpd|apply Hpd']; by apply comps_inj. }
    pose proof (comps_below dir p rel Hdir Hm Hne (eq_sym Hp)) as Hpe.
    pose proof (comps_below dir p' rel' Hdir Hm' Hne' (eq_sym Hp')) as Hpe'.
    injection H1 as <-. injection H2 as Hj <- <-.
    assert (Join rel seps = Join rel' seps) as HJ by (destruct rel, rel'; congruence).
    assert (p = p') as <- by congruence. congruence. }
  symmetry. rewrite (Sum_order_independent (omap (digestEntry (dir +:+ seps)) (map_to_list files)) es); [done|done|].
  apply NoDup_Permutation; [|done|naive_solver]. by apply NoDup_fmap_1 in Hnd.
Qed.

(** ** Theorems *)

(** A call of the update code on the tree *)
Inductive call :=
  | CTrack (relative : string)
  | CSet (relative data : string)
  | CDelete (relative : string)
  | CReplace (relative : string) (candidateDirectory : path).

Definition run_call (c : call) : TM unit :=
  match c with
  | CTrack p => Track p;; mret tt
  | CSet p data => Set_ p data
  | CDelete p => Delete_ p
  | CReplace p dir => ReplaceDirectory p dir
  end.

(** The version [Set_] makes of the bytes: the mode of the snapshot stays. *)
Definition set_version (data : string) (v : managedVersion) : managedVersion :=
  {| mv_exists := true; mv_mode := if negb (mv_exists v) then 420 else mv_mode v; mv_digest := hashBytes data; mv_data := copyBytes data |}.

(** What a call that returned without error did to the candidates; a replaced
    directory becomes the other one. *)
Definition effect (d : disk) (c : call) (tree tree' : candidateTree) : Prop :=
  match c with
  | CTrack p => is_Some (originals tree' !! Clean p) /\ forall q, q <> Clean p -> candidates tree' !! q = candidates tree !! q
  | CSet p data => (exists v, originals tree' !! Clean p = Some v /\ candidates tree' !! Clean p = Some (set_version data v)) /\
      forall q, q <> Clean p -> candidates tree' !! q = candidates tree !! q
  | CDelete p => (is_Some (originals tree' !! Clean p) /\ candidates tree' !! Clean p = Some absentVersion) /\
      forall q, q <> Clean p -> candidates tree' !! q = candidates tree !! q
  | CReplace p dir => exists current candidate, tree_files d (comps (Clean p)) current /\ tree_files d dir candidate /\
      replaced (Clean p) candidate (elements (dom current ∪ dom candidate : gset string)) tree tree'
  end.

Lemma untouched_mono tree0 p : forall t t' : candidateTree,
  (forall q, q <> p -> candidates t !! q = candidates tree0 !! q) -> originals t ⊆ originals t' ->
  (forall q, q <> p -> candidates t' !! q = candidates t !! q) -> completeDirectories t' = completeDirectories t ->
  forall q, q <> p -> candidates t' !! q = candidates tree0 !! q.
Proof. intros t t' H _ H' _ q Hq. rewrite H' by done. by apply H. Qed.

Lemma spec_call d c tree0 : disk_modes d -> tspec d (fun tree => tree = tree0) (run_call c) (fun _ tree => effect d c tree0 tree).
Proof.
  intros Hd. destruct c as [p|p data|p|p dir]; simpl.
  - eapply tspec_bind with (R := fun v tree => tracked p v tree /\ forall q, q <> Clean p -> candidates tree !! q = candidates tree0 !! q).
    { eapply tspec_conseq; [apply (spec_Track d Hd p _ (untouched_mono tree0 (Clean p)))|by intros ? ->|done]. }
    intros v. apply tspec_ret. intros tree [[_ ?] ?]. eauto.
  - eapply tspec_conseq; [apply (spec_track_set d Hd p (set_version data) _ (fun v => fine_set v data) (untouched_mono tree0 (Clean p)))|by intros ? ->|].
    intros _ tree [? (v & [_ ?] & ?)]. eauto.
  - eapply tspec_conseq; [apply (spec_track_set d Hd p (fun _ => absentVersion) _ (fun _ _ => fine_absent) (untouched_mono tree0 (Clean p)))|by intros ? ->|].
    intros _ tree [? (v & [_ ?] & ?)]. eauto.
  - by apply spec_ReplaceDirectory.
Qed.

(** The trees reachable by calls that returned, with an error or not, on file
    systems that may change between them and fail at any point *)
Inductive reachable : candidateTree -> Prop :=
  | reach_new : reachable newCandidateTree
  | reach_call c tree d pl r tree' w : reachable tree -> disk_modes d ->
      run_call c tree (World d pl) = (Ret (r, tree'), w) -> reachable tree'.

Lemma call_sound c tree d pl r tree' w :
  tree_inv tree -> disk_modes d -> run_call c tree (World d pl) = (Ret (r, tree'), w) ->
  wdisk w = d /\ tree_inv tree' /\ snapshots d tree tree' /\ (r = Ok tt -> effect d c tree tree').
Proof.
  intros Hinv Hd Hrun. pose proof (spec_call d c tree Hd tree Hinv eq_refl pl) as Hw.
  rewrite Hrun in Hw. destruct Hw as [(? & ? & ? & HQ) _]; [apply Forall_forall; by intros []|]. split_and!; try done. exact (HQ tt).
Qed.

Lemma reachable_inv tree : reachable tree -> tree_inv tree.
Proof.
  induction 1 as [|c tree d pl r tree' w _ IH Hd Hrun].
  - split; simpl; try (intros p v; by rewrite lookup_empty); [|set_solver]. intros p. by rewrite !lookup_empty.
  - by eapply call_sound.
Qed.


(** The changed paths of the transaction *)
Lemma changed_paths tree t : tree_inv tree -> modes_usable tree ->
  (forall p, files t !! p = if decide (is_Some (candidates tree !! p)) then entry_for tree p else None) ->
  forall p, p ∈ Changed t <-> exists o c, originals tree !! p = Some o /\ candidates tree !! p = Some c /\
    sameManagedVersion o c = false.
Proof.
  intros Hinv Hm Hf p. rewrite elem_of_Changed. destruct (of_fine tree p Hinv) as [Fo Fc]. destruct (Hm p) as [_ Hmc].
  pose proof (inv_dom tree Hinv p) as Hdom. specialize (Hf p). unfold entry_for, original_of, candidate_of in *.
  destruct (candidates tree !! p) as [c|] eqn:Hc.
  2: { rewrite decide_False in Hf by (by intros [? ?]). split; [intros (e & He & _); congruence|naive_solver]. }
  destruct (proj2 Hdom ltac:(eauto)) as [o Ho]. rewrite Ho in *. rewrite decide_True in Hf by eauto. simpl in *.
  destruct (mv_exists c) eqn:Hcx.
  - pose proof (sameVersion_entry o c Fo Fc ltac:(rewrite Hcx; auto) Hcx) as Hsame.
    split; [intros (e & He & Hs)|intros (o' & c' & [= <-] & [= <-] & Hs)].
    + exists o, c. split_and!; try done. rewrite Hf in He. injection He as <-. simpl in Hs. congruence.
    + eexists. split; [exact Hf|]. simpl. congruence.
  - assert (sameManagedVersion o c = negb (mv_exists o)) as Hsame.
    { destruct Fc as [->|(? & _)]; [|congruence]. destruct Fo as [->|(Hox & _)]; [done|].
      unfold sameManagedVersion. by rewrite Hox. }
    split; [intros (e & He & Hs)|intros (o' & c' & [= <-] & [= <-] & Hs)].
    + exists o, c. split_and!; try done. rewrite Hf in He. rewrite Hsame. destruct (mv_exists o); done.
    + rewrite Hsame in Hs. destruct (mv_exists o) eqn:Hox; [|done]. eexists. split; [exact Hf|].
      unfold sameManagedVersion. simpl. by rewrite Hox.
Qed.

(** The two versions of an entry are the snapshot and the candidate of its path. *)
Lemma entry_versions tree p o c e : version_fine o -> version_fine c -> (mv_exists c = true -> (0 < mv_mode c)%Z) ->
  originals tree !! p = Some o -> candidates tree !! p = Some c -> entry_for tree p = Some e ->
  expected e = withoutData o /\ sameManagedVersion (candidate e) c = true /\ (mv_exists c = true -> bytes (candidate e) = bytes c).
Proof.
  intros Fo Fc Hpos Ho Hc He. unfold entry_for, original_of, candidate_of in He. rewrite Ho, Hc in He. cbn [default from_option] in He.
  destruct (mv_exists c) eqn:Hcx; simpl in He; rewrite ?Hcx in He.
  - injection He as <-. split; [done|]. destruct Fc as [->|(_ & Hm & Hdg)]; [done|]. destruct (small_mode _ Hm) as [HP _].
    split; [|intros _; apply copyBytes_default]. unfold sameManagedVersion. simpl. by rewrite Hcx, HP, Hdg, Z.eqb_refl, String.eqb_refl.
  - destruct (mv_exists o); [|done]. injection He as <-. split; [done|]. split; [|done].
    destruct Fc as [->|(? & _)]; [done|congruence].
Qed.

(** C9.  The transaction of a candidate tree exists and is one the commit
    theorems apply to.  Each of its entries expects the snapshot of its path and
    writes the candidate, with its bytes; its changed files are exactly the tracked
    paths whose candidate differs from the snapshot in existence, mode or digest;
    a guarded directory is a replaced one, expected with the snapshots of its
    files. *)
Theorem Transaction_faithful tree :
  reachable tree -> modes_usable tree ->
  (forall dir, dir ∈ completeDirectories tree -> is_ok (managedDirectoryDigest dir (originals tree)) = true) ->
  exists t, Transaction_ tree = Ok t /\ built t /\
    (forall p e, files t !! p = Some e -> exists o c, originals tree !! p = Some o /\ candidates tree !! p = Some c /\
       expected e = withoutData o /\ sameManagedVersion (candidate e) c = true /\
       (mv_exists c = true -> bytes (candidate e) = bytes c)) /\
    (forall p, p ∈ Changed t <-> exists o c, originals tree !! p = Some o /\ candidates tree !! p = Some c /\
       sameManagedVersion o c = false) /\
    (forall dir s, directories t !! dir = Some s <-> dir ∈ completeDirectories tree /\ managedDirectoryDigest dir (originals tree) = Ok s).
Proof.
  intros Hr Hm Hd. pose proof (reachable_inv tree Hr) as Hinv.
  destruct (Transaction_of_tree tree Hinv Hm Hd) as (t & Ht & Hb & Hf & Hg). exists t. split; [done|]. split; [done|].
  split_and!; [|by apply changed_paths|done].
  intros p e He. rewrite Hf in He. destruct (decide (is_Some (candidates tree !! p))) as [[c Hc]|]; [|done].
  destruct (proj2 (inv_dom tree Hinv p) ltac:(eauto)) as [o Ho]. exists o, c. split; [done|]. split; [done|].
  apply (entry_versions tree p); [by eapply (inv_originals tree Hinv)|by eapply (inv_candidates tree Hinv)| |done|done|done].
  intros Hx. destruct (Hm p) as [_ Hmc]. unfold candidate_of in Hmc. rewrite Hc in Hmc. by apply Hmc.
Qed.

(**  The identity a guarded directory is given from the snapshots is the
    one [Commit] computes when it verifies the directory, as long as the
    snapshots are current and cover its files: an untouched directory is never
    refused. *)
Theorem guard_verifies dir files d s :
  managed dir -> covers dir files d -> resolvable false (comps dir) d ->
  managedDirectoryDigest dir files = Ok s ->
  exists w, snapshotDirectoryDigest dir (World d []) = (Ret s, w) /\ wdisk w = d.
Proof.
  intros Hdir Hcov Hres Hs. rewrite (guard_is_snapshot dir files d Hdir Hcov) in Hs.
  pose proof (wp_snapshotDirectory Calm dir s (fun s' d' => s' = s /\ d' = d) (fun _ _ => False) (fun _ => True) d
    Hdir Hres Hs (conj eq_refl eq_refl) ltac:(done) I [] (Forall_nil_2 _)) as Hw.
  destruct (snapshotDirectoryDigest dir (World d [])) as [[s'|e|] w]; [|by destruct Hw|by destruct Hw].
  destruct Hw as [[-> Hd] _]. by exists w.
Qed.

Lemma Track_tracked p v tree w : managed p -> originals tree !! p = Some v ->
  Track p tree w = (Ret (Ok v, tree), w).
Proof.
  intros Hp Ho. unfold Track. unfold managed in Hp. rewrite Hp. unfold mbind, TM_bind, tget, mret, TM_ret, M_bind, M_ret.
  unfold mbind. by rewrite Ho.
Qed.

Lemma spec_Set d p data : disk_modes d -> tspec d (fun _ => True) (Set_ p data) (fun _ tree =>
  Relative p = Ok (Clean p) /\ is_Some (originals tree !! Clean p) /\
  exists c, candidates tree !! Clean p = Some c /\ mv_exists c = true /\ bytes c = data).
Proof.
  intros Hd. eapply tspec_bind; [by apply spec_Track|]. intros v. apply tspec_modify.
  intros tree Hinv [[Hr Ho] _]. destruct (inv_originals tree Hinv _ _ Ho) as [_ Hv].
  split; [apply inv_set; [done|eauto|by apply fine_set]|]. split; [by apply snapshots_same|]. split; [done|]. split; [eauto|].
  eexists. simpl. rewrite lookup_insert_eq. split; [reflexivity|]. split; [done|]. apply copyBytes_default.
Qed.

(**  Setting a candidate and reading it back gives the bytes that were
    set, without touching the file system again. *)
Theorem Set_CandidateData p data tree d pl tree' w w' :
  reachable tree -> disk_modes d -> Set_ p data tree (World d pl) = (Ret (Ok tt, tree'), w) ->
  CandidateData p tree' w' = (Ret (Ok data, tree'), w').
Proof.
  intros Hr Hd Hrun. pose proof (reachable_inv tree Hr) as Hinv.
  pose proof (spec_Set d p data Hd tree Hinv I pl ltac:(apply Forall_forall; by intros [])) as Hw.
  rewrite Hrun in Hw. destruct Hw as [(_ & Hinv' & _ & HQ) _]. simpl in *.
  destruct (HQ tt eq_refl) as (Hrel & [v Hv] & c & Hc & Hx & <-).
  unfold CandidateData. rewrite Hrel. unfold mbind, TM_bind, mbind, M_bind.
  rewrite (Track_tracked _ v); [|by eapply managed_clean|done].
  unfold tget, mret, TM_ret, mret, M_ret. rewrite Hc. simpl. by rewrite Hx.
Qed.
End Operations.

(** ** A concrete tree *)

Definition disk1 : disk := list_to_map
  [([], NDir); (["a"], NFile 420 "old"); (["c"], NDir); (["c"; "b"], NFile 384 "keep")].

Definition after (c : call) (tree : candidateTree) : candidateTree :=
  match run_call c tree (World disk1 []) with (Ret (_, tree'), _) => tree' | _ => tree end.
Definition tree1 : candidateTree := Eval vm_compute in after (CTrack "c/b") newCandidateTree.
Definition tree2 : candidateTree := Eval vm_compute in after (CSet "a" "new") tree1.

Lemma disk1_modes : disk_modes disk1.
Proof.
  intros p m s Hp. assert (map_Forall (fun _ n => match n with NFile m _ => 0 <= m <= 511 | _ => True end)%Z disk1) as H.
  { unfold disk1. simpl. repeat apply map_Forall_insert_2; try done; try lia; apply map_Forall_empty. }
  exact (H p _ Hp).
Qed.

Lemma tree1_reachable : reachable tree1.
Proof.
  apply (reach_call (CTrack "c/b") newCandidateTree disk1 [] (Ok tt) tree1 (World disk1 [])).
  - constructor.
  - apply disk1_modes.
  - vm_compute. reflexivity.
Qed.

Lemma tree2_reachable : reachable tree2.
Proof.
  apply (reach_call (CSet "a" "new") tree1 disk1 [] (Ok tt) tree2 (World disk1 [])).
  - apply tree1_reachable.
  - apply disk1_modes.
  - vm_compute. reflexivity.
Qed.


Lemma Transaction_faithful_witness :
  exists t e, Transaction_ tree2 = Ok t /\ built t /\ "a" ∈ Changed t /\ files t !! "a" = Some e /\
    expected e = withoutData (version_of (disk1 !! ["a"])) /\ bytes (candidate e) = "new".
Proof.
  enough (exists t, Transaction_ tree2 = Ok t /\ built t /\
    (forall p e, files t !! p = Some e -> exists o c, originals tree2 !! p = Some o /\ candidates tree2 !! p = Some c /\
       expected e = withoutData o /\ sameManagedVersion (candidate e) c = true /\
       (mv_exists c = true -> bytes (candidate e) = bytes c)) /\
    (forall p, p ∈ Changed t <-> exists o c, originals tree2 !! p = Some o /\ candidates tree2 !! p = Some c /\
       sameManagedVersion o c = false) /\
    (forall dir s, directories t !! dir = Some s <-> dir ∈ completeDirectories tree2 /\ managedDirectoryDigest dir (originals tree2) = Ok s))
    as (t & Ht & Hb & He & Hc & _).
  { assert ("a" ∈ Changed t) as Ha.
    { apply Hc. eexists _, _. split; [vm_compute; reflexivity|]. split; vm_compute; reflexivity. }
    pose proof Ha as (e & Hf & _)%elem_of_Changed. exists t, e. split; [exact Ht|]. split; [exact Hb|]. split; [exact Ha|]. split; [exact Hf|].
    destruct (He "a" e Hf) as (o & c & Ho & Hc' & Hexp & _ & Hdata). assert (o = version_of (disk1 !! ["a"])) as -> by (vm_compute in Ho |- *; congruence).
    split; [exact Hexp|]. assert (mv_exists c = true /\ bytes c = "new") as [Hx <-]; [|exact (Hdata Hx)].
    vm_compute in Hc'. injection Hc' as <-. split; reflexivity. }
  apply (Transaction_faithful tree2 tree2_reachable).
  - assert (map_Forall (fun _ v => (0 < mv_mode v)%Z) (originals tree2)) as Ho
      by (apply (bool_decide_unpack _); vm_compute; exact I).
    assert (map_Forall (fun _ v => (0 < mv_mode v)%Z) (candidates tree2)) as Hc
      by (apply (bool_decide_unpack _); vm_compute; exact I).
    intros p. unfold original_of, candidate_of. split.
    + destruct (originals tree2 !! p) eqn:H; [intros _; by apply (Ho p)|done].
    + destruct (candidates tree2 !! p) eqn:H; [intros _; by apply (Hc p)|done].
  - intros dir Hdir. change (completeDirectories tree2) with (∅ : gset string) in Hdir.
    destruct (not_elem_of_empty (C := gset string) dir Hdir).
Defined.

Definition files1 : gmap string managedVersion := {["c/b" := fileVersion 384 "keep"]}.
Definition digest1 : string := Eval vm_compute in
  match managedDirectoryDigest "c" files1 with Ok s => s | Err _ => "" end.

Lemma covers1 : covers "c" files1 disk1.
Proof.
  split.
  - intros p v Hp. unfold files1 in Hp. apply lookup_singleton_Some in Hp as [<- <-]. split; [by vm_compute|]. vm_compute. reflexivity.
  - intros q n Hq Hn. assert (map_Forall (fun q n => below ["c"] q -> n = NDir \/ (q, n) = (["c"; "b"], NFile 384 "keep")) disk1) as H.
    { apply (bool_decide_unpack _). vm_compute. exact I. }
    destruct (H q n Hn Hq) as [->|[= -> ->]]; [by left|right]. exists "c/b", 384%Z, "keep". split_and!; try done.
Qed.

Lemma guard_verifies_witness :
  exists w, snapshotDirectoryDigest "c" (World disk1 []) = (Ret digest1, w) /\ wdisk w = disk1.
Proof.
  apply (guard_verifies "c" files1 disk1 digest1).
  - by vm_compute.
  - exact covers1.
  - apply (bool_decide_unpack _). vm_compute. exact I.
  - vm_compute. reflexivity.
Defined.

Lemma Set_CandidateData_witness :
  CandidateData "a" tree2 (World disk1 []) = (Ret (Ok "new", tree2), World disk1 []).
Proof.
  apply (Set_CandidateData "a" "new" tree1 disk1 [] tree2 (World disk1 [])).
  - exact tree1_reachable.
  - exact disk1_modes.
  - vm_compute. reflexivity.
Defined.
End Candidate.
