(* ===== verification/Release.v ===== *)
(** Cluster releases of the project document: [cli/config/config.go]
    ([ClusterRelease], [TargetRelease], [validateClusterReleases],
    [validateGitSource]), over an interface to semantic versions.  The
    validator is what makes the ladder of [Upgrade] well formed. *)
From stdpp Require Import prelude gmap strings list.
From Stdlib Require Import Ascii ZArith Lia.
From S2P Require Import Prelude GoStrings FsPath Sha256.

Module Release.
Import FsPath Sha256.

(** ** Semantic versions

    github.com/Masterminds/semver/v3 is not part of the repository.  The code
    parses, prints and compares versions and checks constraints; the laws are
    what it relies on: printing is canonical, comparison is a total order. *)
Class Semver := {
  version : Type;
  NewVersion : string -> option version;
  VString : version -> string;
  compareV : version -> version -> comparison;
  Major : version -> N;
  Minor : version -> N;
  Prerelease : version -> string;
  Metadata : version -> string;
  constraint : Type;
  NewConstraint : string -> option constraint;
  CheckC : constraint -> version -> bool;
  CString : constraint -> string;
  semver_print s v : NewVersion s = Some v -> NewVersion (VString v) = Some v;
  semver_antisym v w : compareV w v = CompOpp (compareV v w);
  semver_trans u v w : compareV u v = Lt -> compareV v w = Lt -> compareV u w = Lt
}.

Section Versions.
Context `{SV : Semver}.

Definition GreaterThan (v w : version) : bool := match compareV v w with Gt => true | _ => false end.
Definition LessThan (v w : version) : bool := match compareV v w with Lt => true | _ => false end.
Definition Equal (v w : version) : bool := match compareV v w with Eq => true | _ => false end.

Lemma compareV_refl v : compareV v v = Eq.
Proof. pose proof (semver_antisym v v) as Ha. by destruct (compareV v v). Qed.

Lemma GreaterThan_spec v w : GreaterThan v w = true <-> compareV w v = Lt.
Proof. unfold GreaterThan. rewrite (semver_antisym v w). by destruct (compareV v w). Qed.
End Versions.

(** ** Data *)

Record Asset := {
  AID : string; AURL : string; AFile : string; SourceSHA256 : string; ASHA256 : string
}.

Record GitSource := {
  URL : string; Version : string; Ref : string; Branch : string; Commit : string;
  Patches : list string; KubeVersion : string; Assets : list Asset
}.

Record KubernetesChecksums := { Kubelet : string; Kubeadm : string; Kubectl : string }.

Record ClusterRelease := {
  Kubernetes : string;
  Kubespray : GitSource;
  Checksums : KubernetesChecksums
}.

#[export] Instance Asset_eq_dec : EqDecision Asset.
Proof. solve_decision. Defined.
#[export] Instance GitSource_eq_dec : EqDecision GitSource.
Proof. solve_decision. Defined.
#[export] Instance KubernetesChecksums_eq_dec : EqDecision KubernetesChecksums.
Proof. solve_decision. Defined.
#[export] Instance ClusterRelease_eq_dec : EqDecision ClusterRelease.
Proof. solve_decision. Defined.

Record Orchestration := {
  Directory : string;
  Inventory : string;
  AnsibleUser : string;
  Forks : Z;
  AutomaticUpgrade : bool;
  Releases : list ClusterRelease
}.

Inductive config_error := EmptyLadder.

Definition TargetRelease (o : Orchestration) : result config_error ClusterRelease :=
  match last (Releases o) with
  | None => Err EmptyLadder
  | Some r => Ok r
  end.

(** ** Validation

    A validator appends its findings to a list; the texts are constructors. *)
Inductive problem :=
  | PNoRelease
  | PKubernetesVersion (index : nat)
  | PKubesprayVersion (index : nat)
  | PKubesprayRepository (index : nat)
  | PChecksum (index : nat) (name : string)
  | PAdvance (index : nat)
  | PAlignment (index : nat)
  | PSource (name what : string).

Definition validDigest (value : string) : bool :=
  HasPrefix value "sha256:" && validHexSHA256 (TrimPrefix value "sha256:").

Definition validGitBranch (branch : string) : bool :=
  negb (String.eqb branch "") &&
  negb (HasPrefix branch ".") &&
  negb (HasSuffix branch ".") &&
  negb (HasSuffix branch "/") &&
  negb (HasSuffix branch ".lock") &&
  negb (ContainsAny branch " \~^:?*[") &&
  negb (Contains branch "..") &&
  negb (Contains branch "@{") &&
  negb (Contains branch "//").

Definition when (cond : bool) (p : problem) : list problem := if cond then [p] else [].

Definition validateRelative (field value : string) : list problem :=
  match Relative value with Ok _ => [] | Err _ => [PSource field "must be a non-empty project-relative path"] end.

Fixpoint validateAssets (name : string) (assets : list Asset) (ids files : gset string) : list problem :=
  match assets with
  | [] => []
  | asset :: rest =>
      when (String.eqb (AID asset) "" || negb (HasPrefix (AURL asset) "https://")
            || negb (validHexSHA256 (SourceSHA256 asset)) || negb (validHexSHA256 (ASHA256 asset)))
        (PSource name "asset has invalid identity")
      ++ validateRelative (name +:+ " asset " +:+ AID asset) (AFile asset)
      ++ when (bool_decide (AID asset ∈ ids)) (PSource name "asset id is duplicated")
      ++ when (bool_decide (AFile asset ∈ files)) (PSource name "asset file is duplicated")
      ++ validateAssets name rest ({[AID asset]} ∪ ids) ({[AFile asset]} ∪ files)
  end.

Definition validateGitSource (name : string) (source : GitSource) : list problem :=
  if negb (HasPrefix (URL source) "https://") || String.eqb (Version source) ""
     || negb (String.length (Commit source) =? 40)%nat
  then [PSource name "source requires URL, version, and 40-character commit"]
  else
    when (negb (String.eqb (Ref source) "") &&
          negb (String.eqb (TrimPrefix (Ref source) "v") (TrimPrefix (Version source) "v")))
      (PSource name "ref does not identify version")
    ++ when (negb (String.eqb (Branch source) "") &&
             (negb (validGitBranch (Branch source)) || negb (String.eqb (Ref source) "")))
         (PSource name "branch is invalid or conflicts with ref")
    ++ when (negb (str_forallb is_hex_lower (Commit source))) (PSource name "commit must be lowercase hexadecimal")
    ++ (Patches source ≫= validateRelative (name +:+ " patch"))
    ++ validateAssets name (Assets source) ∅ ∅.

Section Ladder.
Context `{SV : Semver}.

(** What the loop carries from release to release *)
Record ladder_state := {
  previousKubernetes : option version;
  previousKubespray : option version;
  kubesprayURL : string
}.

Definition minorDelta (v previous : version) : Z := Z.of_N (Minor v) - Z.of_N (Minor previous).

Definition validateRelease (index : nat) (release : ClusterRelease) (st : ladder_state) : list problem * ladder_state :=
  let kubernetes := NewVersion (TrimPrefix (Kubernetes release) "v") in
  let kubespray := NewVersion (TrimPrefix (Version (Kubespray release)) "v") in
  let url := if (index =? 0)%nat then URL (Kubespray release) else kubesprayURL st in
  let problems :=
    match kubernetes with
    | Some v => when (negb (String.eqb (Prerelease v) "") || negb (String.eqb (Kubernetes release) (VString v)))
                  (PKubernetesVersion index)
    | None => [PKubernetesVersion index]
    end
    ++ validateGitSource ("orchestration release " +:+ ItoaN (N.of_nat index) +:+ " Kubespray") (Kubespray release)
    ++ match kubespray with
       | Some v => when (negb (String.eqb (Prerelease v) "")) (PKubesprayVersion index)
       | None => [PKubesprayVersion index]
       end
    ++ when (negb (String.eqb (URL (Kubespray release)) url)) (PKubesprayRepository index)
    ++ when (negb (validDigest (Kubeadm (Checksums release)))) (PChecksum index "kubeadm")
    ++ when (negb (validDigest (Kubectl (Checksums release)))) (PChecksum index "kubectl")
    ++ when (negb (validDigest (Kubelet (Checksums release)))) (PChecksum index "kubelet")
    ++ match previousKubernetes st, kubernetes with
       | Some previous, Some v =>
           let delta := minorDelta v previous in
           when (negb (GreaterThan v previous) || negb (Major v =? Major previous)%N
                 || (delta <? 0)%Z || (1 <? delta)%Z) (PAdvance index)
           ++ match previousKubespray st, kubespray with
              | Some previousKs, Some ks =>
                  when (negb (Major ks =? Major previousKs)%N || LessThan ks previousKs
                        || negb (minorDelta ks previousKs =? delta)%Z) (PAlignment index)
              | _, _ => []
              end
       | _, _ => []
       end in
  (problems,
   {| previousKubernetes := match kubernetes with Some v => Some v | None => previousKubernetes st end;
      previousKubespray := match kubespray with Some v => Some v | None => previousKubespray st end;
      kubesprayURL := url |}).

Fixpoint validateReleases (index : nat) (releases : list ClusterRelease) (st : ladder_state) : list problem :=
  match releases with
  | [] => []
  | release :: rest =>
      let '(problems, st') := validateRelease index release st in
      problems ++ validateReleases (S index) rest st'
  end.

Definition validateClusterReleases (releases : list ClusterRelease) : list problem :=
  match releases with
  | [] => [PNoRelease]
  | _ => validateReleases 0 releases
           {| previousKubernetes := None; previousKubespray := None; kubesprayURL := "" |}
  end.

(** ** What a validated ladder is *)

(** Each release names the canonical form of a stable version, and each step
    advances it by a patch or by one minor of the same major. *)
Definition canonical (release : ClusterRelease) (v : version) : Prop :=
  NewVersion (TrimPrefix (Kubernetes release) "v") = Some v /\ Kubernetes release = VString v /\ Prerelease v = "".

Definition advances (v w : version) : Prop :=
  compareV v w = Lt /\ Major w = Major v /\ (Minor v <= Minor w <= Minor v + 1)%N.

Inductive ladder : list ClusterRelease -> list version -> Prop :=
  | ladder_one r v : canonical r v -> ladder [r] [v]
  | ladder_cons r v r' v' rs vs : canonical r v -> advances v v' ->
      ladder (r' :: rs) (v' :: vs) -> ladder (r :: r' :: rs) (v :: v' :: vs).

Lemma when_nil cond p : when cond p = [] <-> cond = false.
Proof. by destruct cond. Qed.

Lemma validateRelease_ok index release st problems st' :
  validateRelease index release st = (problems, st') -> problems = [] ->
  exists v, canonical release v /\ previousKubernetes st' = Some v /\
    (forall previous, previousKubernetes st = Some previous -> advances previous v).
Proof.
  unfold validateRelease, canonical. intros [= <- <-]. simpl.
  destruct (NewVersion (TrimPrefix (Kubernetes release) "v")) as [v|] eqn:Hv; [|done].
  rewrite !app_nil, !when_nil, !orb_false_iff, !negb_false_iff, !String.eqb_eq.
  intros ((Hp & Hk) & _ & _ & _ & _ & _ & _ & Hadv). exists v. split; [done|]. split; [done|].
  intros previous Hprev. rewrite Hprev, app_nil, when_nil in Hadv. destruct Hadv as [Hadv _].
  rewrite !orb_false_iff, !negb_false_iff, N.eqb_eq, Z.ltb_ge, Z.ltb_ge in Hadv.
  destruct Hadv as (((Hg & Hm) & H0) & H1). unfold minorDelta in *. split; [by apply GreaterThan_spec|].
  split; [done|]. lia.
Qed.

Lemma validateReleases_ladder index releases st :
  releases <> [] -> validateReleases index releases st = [] ->
  exists v vs, ladder releases (v :: vs) /\
    (forall previous, previousKubernetes st = Some previous -> advances previous v).
Proof.
  revert index st. induction releases as [|r rs IH]; intros index st Hne H; [done|]. cbn [validateReleases] in H.
  destruct (validateRelease index r st) as [problems st'] eqn:Hr. apply app_nil in H as [Hp Hrest].
  destruct (validateRelease_ok index r st problems st' Hr Hp) as (v & Hc & Hst' & Hadv).
  destruct rs as [|r' rs].
  - exists v, []. split; [by constructor|done].
  - destruct (IH (S index) st' ltac:(done) Hrest) as (v' & vs & Hl & Hadv').
    exists v, (v' :: vs). split; [|done]. constructor; [done|by apply Hadv'|done].
Qed.

Lemma validated_ladder releases : validateClusterReleases releases = [] -> exists vs, ladder releases vs.
Proof.
  unfold validateClusterReleases. destruct releases as [|r rs] eqn:Hr; [done|]. rewrite <- Hr. intros H.
  destruct (validateReleases_ladder 0 releases _ ltac:(by rewrite Hr) H) as (v & vs & Hl & _). eauto.
Qed.

(** *** Order on the ladder *)

Lemma ladder_length rs vs : ladder rs vs -> length rs = length vs.
Proof. induction 1; simpl in *; congruence. Qed.

Lemma ladder_lookup rs vs i r : ladder rs vs -> rs !! i = Some r ->
  exists v, vs !! i = Some v /\ canonical r v.
Proof.
  intros Hl. revert i. induction Hl as [r0 v Hc|r0 v r' v' rs vs Hc Ha Hl IH]; intros i Hi.
  - destruct i; [|done]. injection Hi as <-. by exists v.
  - destruct i as [|i]; [injection Hi as <-; by exists v|]. by apply IH.
Qed.

Lemma ladder_step rs vs i v w : ladder rs vs -> vs !! i = Some v -> vs !! S i = Some w -> advances v w.
Proof.
  intros Hl. revert i v w. induction Hl as [r0 v0 Hc|r0 v0 r' v' rs vs Hc Ha Hl IH]; intros i v w Hv Hw.
  - destruct i; done.
  - destruct i as [|i]; [simpl in *; by injection Hv as <-; injection Hw as <-|]. by apply (IH i).
Qed.

Lemma ladder_lt rs vs i j v w : ladder rs vs -> (i < j)%nat -> vs !! i = Some v -> vs !! j = Some w ->
  compareV v w = Lt.
Proof.
  intros Hl Hij. revert w. induction Hij as [|j Hij IH]; intros w Hv Hw.
  - by apply (ladder_step rs vs i v w Hl Hv Hw).
  - destruct (vs !! j) as [u|] eqn:Hu; [|apply lookup_ge_None in Hu; apply lookup_lt_Some in Hw; lia].
    eapply semver_trans; [by apply IH|]. by apply (ladder_step rs vs j u w Hl).
Qed.

Lemma canonical_inj r r' v v' : canonical r v -> canonical r' v' -> Kubernetes r = Kubernetes r' -> v = v'.
Proof. intros (H1 & _) (H2 & _) Heq. rewrite Heq in H1. congruence. Qed.

(** A version appears once. *)
Lemma ladder_unique rs vs i j r r' : ladder rs vs -> rs !! i = Some r -> rs !! j = Some r' ->
  Kubernetes r = Kubernetes r' -> i = j.
Proof.
  intros Hl Hi Hj Heq. destruct (ladder_lookup rs vs i r Hl Hi) as (v & Hv & Hc).
  destruct (ladder_lookup rs vs j r' Hl Hj) as (v' & Hv' & Hc'). pose proof (canonical_inj _ _ _ _ Hc Hc' Heq) as <-.
  pose proof (compareV_refl v) as Hrefl.
  destruct (decide (i < j)%nat) as [Hlt|]; [pose proof (ladder_lt rs vs i j v v Hl Hlt Hv Hv'); congruence|].
  destruct (decide (j < i)%nat) as [Hlt|]; [pose proof (ladder_lt rs vs j i v v Hl Hlt Hv' Hv); congruence|]. lia.
Qed.
End Ladder.
End Release.
