(* ===== verification/Upgrade.v ===== *)
(** Planning and running a Kubernetes upgrade: [cli/orchestration/upgrade.go],
    [cluster.go] and [health.go].  The cluster, Kubespray and the input
    identity are an interface; a ghost trace records what the code observed
    and ran, so that the theorems can speak about order. *)
From stdpp Require Import prelude gmap strings list.
From Stdlib Require Import Ascii ZArith Lia.
From S2P Require Import Prelude GoStrings Release.

Module Upgrade.
Import Release.

(** ** Errors and data *)

Inductive oerr :=
  | EMsg (m : string)
  | EWrap (m : string) (e : oerr)
  | ErrClusterAbsent
  | ErrClusterUnavailable
  | EContext
  | EPanic.   (** an index out of range *)

(** [type UpgradeOrder string] *)
Definition InstallTarget : string := "install".
Definition PlatformFirst : string := "platform-first".
Definition KubernetesFirst : string := "kubernetes-first".
Definition AlreadyCurrent : string := "current".

(** [type ConvergenceMode uint8] *)
Definition ApplyConvergence : N := 1.
Definition UpgradeConvergence : N := 2.
Definition FullConvergence : N := 3.

Record ClusterState := { LiveKubernetes : string }.

Record UpgradePlan := {
  Current : string;
  Target : string;
  Order : string;
  Steps : list ClusterRelease
}.

Record CompatibilityConstraint := { CID : string; CConstraint : string }.

Record Project := { Desired : Orchestration; LockConstraints : list CompatibilityConstraint }.
Record Service := { ServiceProject : option Project }.

Record Toolchain := {
  TRelease : ClusterRelease;
  TSource : string;
  AnsibleAdHoc : string;
  Ansible : string;
  TEnvironment : list string;
  IdentitySHA256 : string
}.

(** [kube.Node], [kube.Pod], [kube.FluxRootObservation] *)
Record Node := {
  NodeName : string; Unschedulable : bool; KubeletVersion : string; NodeReady : bool; ControlPlane : bool
}.
Record Pod := { PodName : string; Phase : string; Deleting : bool; PodReady : bool }.
Record PodPage := { Items : list Pod; Continue_ : string }.

Definition Succeeded (pod : Pod) : bool := String.eqb (Phase pod) "Succeeded".
Definition Failed (pod : Pod) : bool := String.eqb (Phase pod) "Failed".

Record FluxRootObservation := {
  Found : bool; TargetCurrent : bool; ObservedTag : string; SourceReady : bool; SourceMessage : string;
  HelmReleaseReady : bool; HelmMessage : string
}.

Definition Complete (o : FluxRootObservation) : bool :=
  Found o && TargetCurrent o && SourceReady o && HelmReleaseReady o.

(** ** The outside *)

Inductive kube_error := ErrKubeconfigAbsent | KubeOther.
Inductive api_error := Unauthorized | Forbidden | ApiOther.

(** What the code calls: the Kubernetes client, the toolchain and Kubespray
    runs of [execution.go] and [service.go], and the identity of the inputs of
    [convergence.go].  Every call may change the outside. *)
Class Outside := {
  env : Type;
  kubeNew : env -> result kube_error unit * env;
  contextDone : env -> bool;
  ServerVersion : env -> result api_error string * env;
  Nodes : env -> result api_error (list Node) * env;
  ListPods : string -> env -> result api_error PodPage * env;
  bigBangObservation : env -> result oerr FluxRootObservation * env;
  prepareReleases : list ClusterRelease -> env -> result oerr (list Toolchain) * env;
  waitForInstallConnections : Toolchain -> env -> result oerr unit * env;
  runKubespray : Toolchain -> string -> env -> result oerr unit * env;
  orchestrationInputSHA256 : env -> result oerr string * env;
  (** five seconds pass; [false] when the deadline of the poll is reached *)
  tick : env -> bool * env
}.

Section Orchestration.
Context `{SV : Semver} `{OU : Outside}.

(** ** State, trace and the error monad *)

Inductive event :=
  | EvDiscovered (version : string)
  | EvInput (sha : string)
  | EvHealthy (exact api : string) (nodes : list Node) (pods : list Pod)
  | EvRun (toolchain : Toolchain) (playbook : string).

Record ost := OSt { oenv : env; otrace : list event }.

Definition OM (A : Type) : Type := ost -> result oerr A * ost.

#[export] Instance O_ret : MRet OM := fun A a st => (Ok a, st).
#[export] Instance O_bind : MBind OM := fun A B f m st =>
  match m st with
  | (Ok a, st') => f a st'
  | (Err e, st') => (Err e, st')
  end.

Definition ofail {A} (e : oerr) : OM A := fun st => (Err e, st).
Definition olift {A} (r : result oerr A) : OM A := fun st => (r, st).
Definition call {A} (f : env -> A * env) : OM A := fun st =>
  let '(a, e) := f (oenv st) in (Ok a, OSt e (otrace st)).
Definition ocall {A} (f : env -> result oerr A * env) : OM A := r ← call f; olift r.
Definition emit (ev : event) : OM unit := fun st => (Ok tt, OSt (oenv st) (otrace st ++ [ev])).
Definition owrap {A} (m : string) (p : OM A) : OM A := fun st =>
  match p st with (Err e, st') => (Err (EWrap m e), st') | r => r end.
Definition ocatch {A} (p : OM A) : OM (result oerr A) := fun st => let '(r, st') := p st in (Ok r, st').
Definition orequire (cond : bool) (e : oerr) : OM unit := if cond then mret tt else ofail e.

(** ** [cluster.go] *)

Definition canonicalKubernetesVersion (raw : string) : result oerr string :=
  match NewVersion (TrimPrefix raw "v") with
  | Some v =>
      if negb (String.eqb (Prerelease v) "") || negb (String.eqb (Metadata v) "")
      then Err (EMsg "live Kubernetes version is not a stable semantic release")
      else Ok (VString v)
  | None => Err (EMsg "live Kubernetes version is not a stable semantic release")
  end.

Definition releaseIndex (releases : list ClusterRelease) (v : string) : option nat :=
  find_index (fun r => String.eqb (Kubernetes r) v) releases.

Definition releaseForKubernetes (releases : list ClusterRelease) (v : string) : option ClusterRelease :=
  match releaseIndex releases v with None => None | Some i => releases !! i end.

Definition validateClusterIdentity (p : Project) (state : ClusterState) : result oerr unit :=
  match releaseForKubernetes (Releases (Desired p)) (LiveKubernetes state) with
  | None => Err (EMsg "live Kubernetes is absent from the exact committed release ladder")
  | Some _ => Ok tt
  end.

Record namedConstraint := { nc_id : string; nc_constraint : constraint }.

Fixpoint parseConstraints (entries : list CompatibilityConstraint) (seen : gset string) :
    result oerr (list namedConstraint) :=
  match entries with
  | [] => Ok []
  | entry :: rest =>
      if String.eqb (CID entry) "" || String.eqb (CConstraint entry) ""
      then Err (EMsg "platform constraint requires an id and expression")
      else if bool_decide (CID entry ∈ seen) then Err (EMsg "platform constraint id is duplicated")
      else match NewConstraint (CConstraint entry) with
           | None => Err (EMsg "platform constraint cannot be parsed")
           | Some c =>
               parsed ← parseConstraints rest ({[CID entry]} ∪ seen);
               Ok ({| nc_id := CID entry; nc_constraint := c |} :: parsed)
           end
  end.
Definition parsePlatformConstraints (entries : list CompatibilityConstraint) := parseConstraints entries ∅.

Definition firstUnsupportedConstraint (constraints : list namedConstraint) (versions : list version) : string :=
  match List.find (fun vc => negb (CheckC (nc_constraint vc.2) vc.1))
          (v ← versions; (fun c => (v, c)) <$> constraints) with
  | Some vc => nc_id vc.2 +:+ "=" +:+ CString (nc_constraint vc.2)
  | None => ""
  end.

(** [semver.NewVersion] is called again on the live version, its error
    dropped; a nil version would make [Check] dereference it. *)
Definition validatePlatformState (p : Project) (state : ClusterState) : result oerr unit :=
  validateClusterIdentity p state ≫= fun _ =>
  match parsePlatformConstraints (LockConstraints p) with
  | Err e => Err (EWrap "parse desired platform Kubernetes constraints" e)
  | Ok constraints =>
      match NewVersion (LiveKubernetes state) with
      | None => match constraints with [] => Ok tt | _ => Err EPanic end
      | Some v => guard_err (negb (String.eqb (firstUnsupportedConstraint constraints [v]) ""))
                    (EMsg "desired platform constraint does not support live Kubernetes")
      end
  end.

Definition clusterClient : OM unit :=
  r ← call kubeNew;
  match r with
  | Ok _ => mret tt
  | Err ErrKubeconfigAbsent => ofail ErrClusterAbsent
  | Err KubeOther => ofail (EMsg "load kubeconfig")
  end.

Definition discoverState : OM ClusterState :=
  r ← call ServerVersion;
  match r with
  | Err e =>
      done ← call (fun en => (contextDone en, en));
      if done : bool then ofail EContext
      else match e with
           | Unauthorized | Forbidden => ofail (EMsg "discover live Kubernetes version")
           | ApiOther => ofail ErrClusterUnavailable
           end
  | Ok v =>
      k ← olift (canonicalKubernetesVersion v);
      emit (EvDiscovered k);;
      mret {| LiveKubernetes := k |}
  end.

(** [validatedPlatformState] and [ValidatePlatformPrerequisites] *)
Definition validatedPlatformState (s : Service) : OM ClusterState :=
  match ServiceProject s with
  | None => ofail (EMsg "Atum project is not loaded")
  | Some p =>
      clusterClient;;
      state ← discoverState;
      olift (validatePlatformState p state);;
      mret state
  end.

Definition ValidatePlatformPrerequisites (s : Service) : OM unit :=
  validatedPlatformState s;; ocall bigBangObservation;; mret tt.

(** ** [health.go] *)

Definition nodeHealthy (exact : string) (node : Node) : bool :=
  negb (Unschedulable node) && NodeReady node &&
  match canonicalKubernetesVersion (KubeletVersion node) with
  | Ok v => String.eqb v exact
  | Err _ => false
  end.

Definition podHealthy (pod : Pod) : bool :=
  negb (Deleting pod || Failed pod || (negb (Succeeded pod) && negb (PodReady pod))).

(** The loop over the pages of [kube-system] pods; it ends with the context at
    the latest, here with [fuel]. *)
Fixpoint podPages (fuel : nat) (continuation : string) (seen : list Pod) : OM (option (list Pod)) :=
  match fuel with
  | O => mret None
  | S fuel =>
      page ← call (ListPods continuation);
      match page with
      | Err _ => mret None
      | Ok page =>
          if forallb podHealthy (Items page) then
            if String.eqb (Continue_ page) "" then mret (Some (seen ++ Items page))
            else podPages fuel (Continue_ page) (seen ++ Items page)
          else mret None
      end
  end.

Definition maxPages : nat := 1000.

(** One round of the poll; what was seen when it is healthy *)
Definition healthCheck (exact : string) : OM (option (string * list Node * list Pod)) :=
  r ← call ServerVersion;
  match r with
  | Err _ => mret None
  | Ok api =>
      match canonicalKubernetesVersion api with
      | Err _ => mret None
      | Ok actual =>
          if negb (String.eqb actual exact) then mret None
          else
            r ← call Nodes;
            match r with
            | Err _ | Ok [] => mret None
            | Ok nodes =>
                let readyNodes := length (List.filter (nodeHealthy exact) nodes) in
                if negb (readyNodes =? length nodes)%nat then mret None
                else
                  pods ← podPages maxPages "" [];
                  match pods with
                  | None | Some [] => mret None
                  | Some pods => mret (Some (api, nodes, pods))
                  end
            end
      end
  end.

(** [wait.PollUntilContextTimeout(ctx, 5s, 15m, true, ...)]: at once, then
    after every interval until the deadline: at most 181 rounds *)
Fixpoint poll (rounds : nat) (exact : string) : OM unit :=
  match rounds with
  | O => ofail EContext
  | S rounds =>
      r ← healthCheck exact;
      match r with
      | Some (api, nodes, pods) => emit (EvHealthy exact api nodes pods)
      | None =>
          more ← call tick;
          if more : bool then poll rounds exact else ofail EContext
      end
  end.
Definition waitHealthy (exact : string) : OM unit := poll 181 exact.

(** ** [convergence.go] *)

Definition inputSHA256 : OM string :=
  sha ← ocall orchestrationInputSHA256; emit (EvInput sha);; mret sha.

Definition requireOrchestrationInput (expected : string) : OM unit :=
  actual ← inputSHA256;
  orequire (String.eqb actual expected) (EMsg "orchestration inputs changed during convergence").

Definition kubespray (t : Toolchain) (playbook : string) : OM unit :=
  emit (EvRun t playbook);; ocall (runKubespray t playbook).

(** ** [upgrade.go] *)

Record liveReleasePosition_ := { current : version; target : version; currentIndex : nat }.

Definition liveReleasePosition (p : Project) (state : ClusterState) (targetRelease : ClusterRelease) :
    result oerr liveReleasePosition_ :=
  match NewVersion (LiveKubernetes state), NewVersion (Kubernetes targetRelease) with
  | None, _ => Err (EMsg "parse live Kubernetes version")
  | _, None => Err (EMsg "parse committed target Kubernetes version")
  | Some cur, Some tgt =>
      if GreaterThan cur tgt then Err (EMsg "live Kubernetes is newer than committed target; refusing mutation")
      else
        let releases := Releases (Desired p) in
        match releaseIndex releases (VString cur), releaseIndex releases (VString tgt) with
        | None, _ => Err (EMsg "live Kubernetes is absent from the committed release ladder")
        | _, None => Err (EMsg "committed target Kubernetes is absent from its release ladder")
        | Some i, Some j =>
            if (j <? i)%nat || (LessThan cur tgt && (i =? j)%nat)
            then Err (EMsg "live Kubernetes is not an earlier committed step")
            else Ok {| current := cur; target := tgt; currentIndex := i |}
        end
  end.

Definition upgradePlan (p : Project) (root : FluxRootObservation) (position : liveReleasePosition_) :
    result oerr UpgradePlan :=
  let cur := current position in
  let plan order steps :=
    {| Current := VString cur; Target := VString (target position); Order := order; Steps := steps |} in
  if Equal cur (target position) then Ok (plan AlreadyCurrent [])
  else
    match Releases (Desired p) !! S (currentIndex position) with
    | None => Err EPanic
    | Some next =>
        match NewVersion (Kubernetes next) with
        | None => Err (EMsg "parse next committed Kubernetes version")
        | Some first =>
            if negb (Major first =? Major cur)%N || (Minor cur + 1 <? Minor first)%N
            then Err (EMsg "release ladder skips a Kubernetes minor")
            else
              match parsePlatformConstraints (LockConstraints p) with
              | Err e => Err (EWrap "parse desired platform Kubernetes constraints" e)
              | Ok constraints =>
                  let platformCompatible :=
                    String.eqb (firstUnsupportedConstraint constraints [cur; first]) "" in
                  if negb (Complete root) && platformCompatible
                  then Ok (plan PlatformFirst [next])
                  else Ok (plan KubernetesFirst [next])
              end
        end
    end.

Definition targetRelease (p : Project) : result oerr ClusterRelease :=
  wrap_err (fun _ => EMsg "orchestration release ladder is empty") (TargetRelease (Desired p)).

Definition Plan (s : Service) : OM UpgradePlan :=
  match ServiceProject s with
  | None => ofail (EMsg "Atum project is not loaded")
  | Some p =>
      target ← olift (targetRelease p);
      client ← ocatch clusterClient;
      match client with
      | Err ErrClusterAbsent =>
          mret {| Current := ""; Target := Kubernetes target; Order := InstallTarget; Steps := [target] |}
      | Err e => ofail e
      | Ok _ =>
          state ← discoverState;
          position ← olift (liveReleasePosition p state target);
          root ← ocall bigBangObservation;
          olift (upgradePlan p root position)
      end
  end.

Definition ValidatePlan (s : Service) (plan : UpgradePlan) (mode : N) : result oerr unit :=
  match ServiceProject s with
  | None => Err (EMsg "Atum project is not loaded")
  | Some p =>
      let order := Order plan in
      let isOrder o := String.eqb order o in
      guard_err (negb (isOrder InstallTarget || isOrder PlatformFirst || isOrder KubernetesFirst || isOrder AlreadyCurrent))
        (EMsg "unsupported orchestration upgrade order") ≫= fun _ =>
      targetRelease p ≫= fun target =>
      guard_err (negb (String.eqb (Target plan) (Kubernetes target)))
        (EMsg "orchestration plan target does not match committed target") ≫= fun _ =>
      guard_err (isOrder InstallTarget &&
                 (negb (String.eqb (Current plan) "") || negb (bool_decide (Steps plan = [target]))))
        (EMsg "cluster install plan must contain its one exact target release") ≫= fun _ =>
      guard_err (isOrder AlreadyCurrent &&
                 (negb (String.eqb (Current plan) (Target plan)) || negb (length (Steps plan) =? 0)%nat))
        (EMsg "current cluster plan must match the committed target without upgrade steps") ≫= fun _ =>
      (if isOrder KubernetesFirst || isOrder PlatformFirst then
         match releaseIndex (Releases (Desired p)) (Current plan) with
         | None => Err (EMsg "live Kubernetes is absent from the committed release ladder")
         | Some i =>
             match Releases (Desired p) !! S i with
             | Some next =>
                 guard_err (negb (bool_decide (Steps plan = [next])))
                   (EMsg "Kubernetes upgrade plan must contain only the next exact committed release")
             | None => Err (EMsg "Kubernetes upgrade plan must contain only the next exact committed release")
             end
         end
       else Ok tt) ≫= fun _ =>
      (if (mode =? ApplyConvergence)%N || (mode =? FullConvergence)%N then
         let requiresKubernetesUpgrade :=
           isOrder KubernetesFirst || (isOrder PlatformFirst && negb (String.eqb (Current plan) (Target plan))) in
         guard_err (requiresKubernetesUpgrade && negb (AutomaticUpgrade (Desired p)))
           (EMsg "automatic Kubernetes upgrades are disabled; run atum orchestration upgrade explicitly")
       else if (mode =? UpgradeConvergence)%N then
         guard_err (isOrder InstallTarget) (EMsg "orchestration upgrade requires an existing cluster")
       else Err (EMsg "unsupported orchestration convergence mode")) ≫= fun _ =>
      guard_err (isOrder PlatformFirst && negb (mode =? FullConvergence)%N)
        (EMsg "the desired Big Bang release must be reconciled before this Kubernetes upgrade; run atum apply")
  end.

Definition validateCurrentTargetState (p : Project) (state : ClusterState) (target : ClusterRelease) :
    result oerr unit :=
  if negb (String.eqb (LiveKubernetes state) (Kubernetes target))
  then Err (EMsg "live Kubernetes changed from committed target")
  else validateClusterIdentity p state.

Definition convergeExistingKubespray (t : Toolchain) (playbook kubernetes : string) : OM unit :=
  kubespray t playbook;;
  owrap "post-Kubespray health gate" (waitHealthy kubernetes).

Definition convergeCurrentConfiguration (target : ClusterRelease) : OM unit :=
  inputSHA ← inputSHA256;
  toolchains ← ocall (prepareReleases [target]);
  match toolchains with
  | [toolchain] =>
      owrap "pre-Kubespray health gate" (waitHealthy (Kubernetes target));;
      owrap "current cluster configuration convergence"
        (convergeExistingKubespray toolchain "cluster.yml" (Kubernetes target));;
      requireOrchestrationInput inputSHA
  | _ => ofail (EMsg "prepared Kubespray toolchain does not match the current release")
  end.

Definition installCluster (p : Project) (plan : UpgradePlan) (toolchains : list Toolchain) : OM UpgradePlan :=
  match toolchains with
  | [] => ofail EPanic
  | toolchain :: _ =>
      inputSHA ← inputSHA256;
      ocall (waitForInstallConnections toolchain);;
      kubespray toolchain "cluster.yml";;
      owrap "load installed cluster" clusterClient;;
      waitHealthy (Target plan);;
      requireOrchestrationInput inputSHA;;
      verified ← owrap "verify installed Kubernetes version" discoverState;
      orequire (String.eqb (LiveKubernetes verified) (Target plan)) (EMsg "installed Kubernetes reports another version");;
      olift (validateClusterIdentity p verified);;
      mret plan
  end.

(** The body of the loop over [plan.Steps] *)
Definition upgradeStep (state : ClusterState) (toolchain : Toolchain) (release : ClusterRelease) (inputSHA : string) :
    OM ClusterState :=
  owrap "pre-upgrade health gate" (waitHealthy (LiveKubernetes state));;
  orequire (String.eqb (Kubernetes (TRelease toolchain)) (Kubernetes release) &&
            String.eqb (Commit (Kubespray (TRelease toolchain))) (Commit (Kubespray release)))
    (EMsg "prepared Kubespray toolchain does not match Kubernetes");;
  owrap "converge existing cluster"
    (convergeExistingKubespray toolchain "upgrade-cluster.yml" (Kubernetes release));;
  requireOrchestrationInput inputSHA;;
  state ← discoverState;
  orequire (String.eqb (LiveKubernetes state) (Kubernetes release))
    (EMsg "post-Kubespray Kubernetes reports another version");;
  mret state.

Fixpoint upgradeSteps (state : ClusterState) (toolchains : list Toolchain) (steps : list ClusterRelease)
    (inputSHA : string) : OM unit :=
  match steps, toolchains with
  | [], _ => mret tt
  | _ :: _, [] => ofail EPanic
  | release :: steps, toolchain :: toolchains =>
      state ← upgradeStep state toolchain release inputSHA;
      upgradeSteps state toolchains steps inputSHA
  end.

Definition upgradeCluster (p : Project) (plan : UpgradePlan) (toolchains : list Toolchain) : OM UpgradePlan :=
  clusterClient;;
  state ← discoverState;
  orequire (String.eqb (LiveKubernetes state) (Current plan)) (EMsg "live Kubernetes changed before Kubespray");;
  olift (validateClusterIdentity p state);;
  inputSHA ← inputSHA256;
  upgradeSteps state toolchains (Steps plan) inputSHA;;
  mret plan.

Definition convergeCurrent (p : Project) (plan : UpgradePlan) (mode : N) : OM UpgradePlan :=
  clusterClient;;
  state ← discoverState;
  target ← olift (targetRelease p);
  olift (validateCurrentTargetState p state target);;
  (if (mode =? ApplyConvergence)%N then convergeCurrentConfiguration target
   else waitHealthy (Kubernetes target));;
  mret plan.

Definition ConvergePlanned (s : Service) (plan : UpgradePlan) (mode : N) : OM UpgradePlan :=
  olift (ValidatePlan s plan mode);;
  match ServiceProject s with
  | None => ofail EPanic
  | Some p =>
      if String.eqb (Order plan) PlatformFirst
      then ofail (EMsg "the desired Big Bang release must be reconciled before this Kubernetes upgrade; run atum apply")
      else if String.eqb (Order plan) AlreadyCurrent then convergeCurrent p plan mode
      else
        toolchains ← ocall (prepareReleases (Steps plan));
        orequire (length toolchains =? length (Steps plan))%nat
          (EMsg "prepared Kubespray toolchains do not match the upgrade ladder");;
        if String.eqb (Order plan) InstallTarget then installCluster p plan toolchains
        else upgradeCluster p plan toolchains
  end.

(** ** [cli/command/engines.go]: [convergeOrchestration]

    Plan, validate and converge again until the plan is the current one; the
    platform handoff runs in between.  The result is [platformApplied] beside
    the error. *)
Definition convergenceLimit (p : Project) : nat := length (Releases (Desired p)) * 2 + 3.

Fixpoint convergeRounds (limit : nat) (s : Service) (mode : N)
    (platformHandoff : option (env -> result oerr unit * env)) (platformApplied : bool) : ost -> bool * result oerr unit * ost :=
  fun st =>
  match limit with
  | O => (platformApplied,
          Err (EMsg "orchestration convergence exceeded the committed release and platform handoff bound"), st)
  | S limit =>
      match Plan s st with
      | (Err e, st1) => (platformApplied, Err e, st1)
      | (Ok plan, st1) =>
          match ValidatePlan s plan mode with
          | Err e => (platformApplied, Err e, st1)
          | Ok _ =>
              match (if String.eqb (Order plan) PlatformFirst then platformHandoff else None) with
              | Some handoff =>
                  match ocall handoff st1 with
                  | (Err e, st2) => (platformApplied, Err e, st2)
                  | (Ok _, st2) => convergeRounds limit s mode platformHandoff true st2
                  end
              | None =>
                  match ConvergePlanned s plan mode st1 with
                  | (Err e, st2) => (platformApplied, Err e, st2)
                  | (Ok _, st2) =>
                      if String.eqb (Order plan) AlreadyCurrent then (platformApplied, Ok tt, st2)
                      else convergeRounds limit s mode platformHandoff platformApplied st2
                  end
              end
          end
      end
  end.

Definition convergeOrchestration (s : Service) (p : Project) (mode : N)
    (platformHandoff : option (env -> result oerr unit * env)) : ost -> bool * result oerr unit * ost :=
  convergeRounds (convergenceLimit p) s mode platformHandoff false.
End Orchestration.
End Upgrade.
