(* ===== verification/UpgradeTheorems.v ===== *)
(** The theorems about upgrades: plans climb the committed ladder one exact
    release at a time, every plan validates, Kubespray only runs between health
    gates, and success means the planned version is live. *)
From stdpp Require Import prelude gmap strings list.
From Stdlib Require Import Ascii ZArith Lia.
From S2P Require Import Prelude GoStrings Release Upgrade.

Module UpgradeTheorems.
Import Release Upgrade.

Section Plans.
Context `{SV : Semver} `{OU : Outside}.

(** ** Positions on a validated ladder *)

Lemma canonical_parse r v : canonical r v -> NewVersion (Kubernetes r) = Some v.
Proof. intros (Hp & Hk & _). rewrite Hk. by eapply semver_print. Qed.

Lemma last_lookup_ {A} (l : list A) : last l = l !! pred (length l).
Proof.
  induction l as [|x [|y l] IH]; [done|done|]. change (last (x :: y :: l)) with (last (y :: l)). rewrite IH. done.
Qed.

Lemma releaseIndex_Some releases v i : releaseIndex releases v = Some i ->
  exists r, releases !! i = Some r /\ Kubernetes r = v.
Proof.
  intros [(r & Hr & Hv) _]%find_index_Some. exists r. split; [done|]. by apply String.eqb_eq.
Qed.

(** On a ladder the first match is the only one. *)
Lemma releaseIndex_ladder releases vs i r : ladder releases vs -> releases !! i = Some r ->
  releaseIndex releases (Kubernetes r) = Some i.
Proof.
  intros Hl Hi. destruct (releaseIndex releases (Kubernetes r)) as [j|] eqn:Hj.
  - destruct (releaseIndex_Some _ _ _ Hj) as (r' & Hr' & Hk). f_equal. by eapply ladder_unique.
  - apply find_index_None in Hj. rewrite Forall_forall in Hj. specialize (Hj r).
    rewrite String.eqb_refl in Hj. exfalso. apply (Bool.diff_true_false), Hj. by eapply list_elem_of_lookup_2.
Qed.

Section Ladder.
Context (p : Project) (vs : list version).
Context (Hl : ladder (Releases (Desired p)) vs).

Lemma ladder_nonempty : Releases (Desired p) <> [].
Proof. by destruct Hl. Qed.

Lemma target_last : exists r, targetRelease p = Ok r /\
  Releases (Desired p) !! pred (length (Releases (Desired p))) = Some r.
Proof.
  pose proof ladder_nonempty as Hne. unfold targetRelease, TargetRelease. rewrite last_lookup_.
  destruct (Releases (Desired p)) as [|r rs] eqn:Hr; [done|].
  destruct (lookup_lt_is_Some_2 (r :: rs) (pred (length (r :: rs)))) as [x Hx]; [simpl; lia|].
  rewrite Hx. by exists x.
Qed.

(** What a successful position says: where the live version is. *)
Lemma position_spec state tr position :
  targetRelease p = Ok tr -> liveReleasePosition p state tr = Ok position ->
  exists r, Releases (Desired p) !! currentIndex position = Some r /\
    canonical r (current position) /\ VString (current position) = Kubernetes r /\
    canonical tr (target position) /\
    (Equal (current position) (target position) = true <->
     currentIndex position = pred (length (Releases (Desired p)))).
Proof.
  intros Htr Hpos. destruct target_last as (tr' & Htr' & Hlast). replace tr' with tr in Hlast by congruence.
  destruct (ladder_lookup _ vs _ tr Hl Hlast) as (vt & Hvt & Hct).
  unfold liveReleasePosition in Hpos.
  destruct (NewVersion (LiveKubernetes state)) as [cur|] eqn:Hcur; [|done].
  rewrite (canonical_parse tr vt Hct) in Hpos. destruct (GreaterThan cur vt) eqn:Hg; [done|].
  destruct (releaseIndex (Releases (Desired p)) (VString cur)) as [i|] eqn:Hi; [|done].
  destruct (releaseIndex (Releases (Desired p)) (VString vt)) as [j|] eqn:Hj; [|done].
  destruct (_ || _) eqn:Hij; [done|]. injection Hpos as <-. simpl.
  destruct (releaseIndex_Some _ _ _ Hi) as (r & Hr & Hk). exists r.
  destruct (ladder_lookup _ vs i r Hl Hr) as (v & Hv & Hc).
  assert (v = cur) as ->.
  { pose proof (canonical_parse r v Hc) as H1. rewrite Hk, (semver_print _ _ Hcur) in H1. congruence. }
  split; [done|]. split; [done|]. split; [done|]. split; [done|].
  split.
  - unfold Equal. intros He. destruct (decide (i = pred (length (Releases (Desired p))))) as [|Hne]; [done|].
    assert (i < pred (length (Releases (Desired p))))%nat as Hlt by (apply lookup_lt_Some in Hr; lia).
    by rewrite (ladder_lt _ vs _ _ cur vt Hl Hlt Hv Hvt) in He.
  - intros ->. unfold Equal. replace vt with cur by congruence. by rewrite compareV_refl.
Qed.

(** The plan for the next release *)
Lemma upgradePlan_spec state tr position root :
  targetRelease p = Ok tr -> liveReleasePosition p state tr = Ok position ->
  (upgradePlan p root position =
     Ok {| Current := VString (current position); Target := Kubernetes tr; Order := AlreadyCurrent; Steps := [] |} /\
   VString (current position) = Kubernetes tr /\
   currentIndex position = pred (length (Releases (Desired p)))) \/
  (exists next order v, Releases (Desired p) !! S (currentIndex position) = Some next /\
    canonical next v /\ advances (current position) v /\ (order = PlatformFirst \/ order = KubernetesFirst) /\
    match parsePlatformConstraints (LockConstraints p) with
    | Ok _ => upgradePlan p root position =
        Ok {| Current := VString (current position); Target := Kubernetes tr; Order := order; Steps := [next] |}
    | Err e => upgradePlan p root position = Err (EWrap "parse desired platform Kubernetes constraints" e)
    end).
Proof.
  intros Htr Hpos. destruct (position_spec state tr position Htr Hpos) as (r & Hr & Hc & Hk & Hct & Heq).
  destruct target_last as (tr' & Htr' & Hlast). replace tr' with tr in Hlast by congruence.
  pose proof Hct as (_ & Hkt & _). unfold upgradePlan. rewrite Hkt.
  destruct (Equal (current position) (target position)) eqn:He.
  - left. pose proof (proj1 Heq eq_refl) as Hi. split; [done|]. split; [|done].
    rewrite Hk, <- Hkt. congruence.
  - right. assert (S (currentIndex position) < length (Releases (Desired p)))%nat as Hlt.
    { pose proof (lookup_lt_Some _ _ _ Hr). destruct (decide (currentIndex position = pred (length (Releases (Desired p))))) as [Hx|].
      - apply Heq in Hx. done.
      - lia. }
    destruct (lookup_lt_is_Some_2 _ _ Hlt) as [next Hnext].
    destruct (ladder_lookup _ vs _ next Hl Hnext) as (v & Hv & Hcn).
    destruct (ladder_lookup _ vs _ r Hl Hr) as (w & Hw & Hcw).
    assert (w = current position) as -> by (by eapply canonical_inj).
    pose proof (ladder_step _ vs _ _ _ Hl Hw Hv) as Hadv. pose proof Hadv as (_ & Hmaj & Hmin).
    rewrite Hnext, (canonical_parse next v Hcn), Hmaj, N.eqb_refl.
    rewrite (proj2 (N.ltb_ge _ _) (proj2 Hmin)). simpl.
    destruct (parsePlatformConstraints (LockConstraints p)) as [cs|e].
    + destruct (negb (Complete root) && _).
      * exists next, PlatformFirst, v. split_and!; try done. by left.
      * exists next, KubernetesFirst, v. split_and!; try done. by right.
    + exists next, KubernetesFirst, v. split_and!; try done. by right.
Qed.
End Ladder.

(** ** Every plan validates *)

Lemma plan_validates s p vs state tr position root plan :
  ServiceProject s = Some p -> ladder (Releases (Desired p)) vs -> AutomaticUpgrade (Desired p) = true ->
  targetRelease p = Ok tr -> liveReleasePosition p state tr = Ok position ->
  upgradePlan p root position = Ok plan -> ValidatePlan s plan FullConvergence = Ok tt.
Proof.
  intros Hs Hl Ha Htr Hpos Hplan. destruct (position_spec p vs Hl state tr position Htr Hpos) as (r & Hr & _ & Hk & _).
  unfold ValidatePlan. rewrite Hs, Htr.
  destruct (upgradePlan_spec p vs Hl state tr position root Htr Hpos) as [(Hp & Hcur & _)|(next & order & v & Hnext & _ & _ & Hord & Hp)].
  - rewrite Hp in Hplan. injection Hplan as <-. simpl. rewrite Hcur, String.eqb_refl. simpl. done.
  - destruct (parsePlatformConstraints (LockConstraints p)); [|congruence]. rewrite Hp in Hplan. injection Hplan as <-.
    simpl. rewrite String.eqb_refl, Hk, (releaseIndex_ladder _ vs _ r Hl Hr), Hnext, Ha.
    rewrite (bool_decide_eq_true_2 ([next] = [next])) by done.
    destruct Hord as [-> | ->]; simpl; [|done]. by destruct (String.eqb (Kubernetes r) (Kubernetes tr)).
Qed.

(** ** Triples over the trace *)

(** From a trace in [P], [m] ends in [Q] with its result or in [X] with an
    error. *)
Definition triple {A} (P : list event -> Prop) (m : OM A) (Q : A -> list event -> Prop) (X : list event -> Prop) : Prop :=
  forall st, P (otrace st) ->
    match m st with
    | (Ok a, st') => Q a (otrace st')
    | (Err _, st') => X (otrace st')
    end.

Lemma triple_ret {A} (P : list event -> Prop) (a : A) (Q : A -> list event -> Prop) X :
  (forall tr, P tr -> Q a tr) -> triple P (mret a) Q X.
Proof. intros H st HP. by apply H. Qed.

Lemma triple_fail {A} (P : list event -> Prop) e (Q : A -> list event -> Prop) (X : list event -> Prop) :
  (forall tr, P tr -> X tr) -> triple P (ofail e) Q X.
Proof. intros H st HP. by apply H. Qed.

Lemma triple_lift {A} (P : list event -> Prop) (r : result oerr A) (Q : A -> list event -> Prop) (X : list event -> Prop) :
  (forall a tr, r = Ok a -> P tr -> Q a tr) -> (forall tr, P tr -> X tr) -> triple P (olift r) Q X.
Proof. intros H HX st HP. unfold olift. destruct r; auto. Qed.

Lemma triple_bind {A B} (P : list event -> Prop) (m : OM A) (f : A -> OM B) (R : A -> list event -> Prop) Q X :
  triple P m R X -> (forall a, triple (R a) (f a) Q X) -> triple P (m ≫= f) Q X.
Proof.
  intros Hm Hf st HP. specialize (Hm st HP). unfold mbind, O_bind. destruct (m st) as [[a|e] st']; [|done].
  by apply Hf.
Qed.

Lemma triple_conseq {A} (P P' : list event -> Prop) (m : OM A) (Q Q' : A -> list event -> Prop) (X X' : list event -> Prop) :
  triple P m Q X -> (forall tr, P' tr -> P tr) -> (forall a tr, Q a tr -> Q' a tr) -> (forall tr, X tr -> X' tr) ->
  triple P' m Q' X'.
Proof. intros H HP HQ HX st Hst. specialize (H st (HP _ Hst)). destruct (m st) as [[a|e] st']; auto. Qed.

Lemma triple_call {A} (P : list event -> Prop) (f : env -> A * env) X : triple P (call f) (fun _ => P) X.
Proof. intros st HP. unfold call. by destruct (f (oenv st)). Qed.

Lemma triple_ocall {A} (P : list event -> Prop) (f : env -> result oerr A * env) : triple P (ocall f) (fun _ => P) P.
Proof. eapply triple_bind; [apply triple_call|]. intros r. by apply triple_lift. Qed.

Lemma triple_emit (P : list event -> Prop) ev (Q : unit -> list event -> Prop) X :
  (forall tr, P tr -> Q tt (tr ++ [ev])) -> triple P (emit ev) Q X.
Proof. intros H st HP. by apply H. Qed.

Lemma triple_wrap {A} (P : list event -> Prop) s (m : OM A) Q X : triple P m Q X -> triple P (owrap s m) Q X.
Proof. intros H st HP. specialize (H st HP). unfold owrap. by destruct (m st) as [[a|e] st']. Qed.

Lemma triple_require (P : list event -> Prop) cond e (Q : unit -> list event -> Prop) (X : list event -> Prop) :
  (cond = true -> forall tr, P tr -> Q tt tr) -> (forall tr, P tr -> X tr) -> triple P (orequire cond e) Q X.
Proof. intros HQ HX st HP. unfold orequire. destruct cond; simpl; auto. Qed.

Lemma triple_clusterClient (P : list event -> Prop) : triple P clusterClient (fun _ => P) P.
Proof.
  eapply triple_bind; [apply triple_call|]. intros [[]|[]]; [by apply triple_ret|by apply triple_fail..].
Qed.

Lemma triple_discoverState tr0 :
  triple (eq tr0) discoverState
    (fun state tr => tr = tr0 ++ [EvDiscovered (LiveKubernetes state)]) (eq tr0).
Proof.
  eapply triple_bind; [apply triple_call|]. intros [v|e].
  - eapply triple_bind with (R := fun _ => eq tr0); [by apply triple_lift|]. intros k.
    eapply triple_bind; [by apply triple_emit with (Q := fun _ tr => tr = tr0 ++ [EvDiscovered k]); intros tr <-|].
    intros []. by apply triple_ret.
  - eapply triple_bind; [apply triple_call|]. intros []; [by apply triple_fail|]. destruct e; by apply triple_fail.
Qed.

Lemma triple_inputSHA tr0 :
  triple (eq tr0) inputSHA256 (fun sha tr => tr = tr0 ++ [EvInput sha]) (eq tr0).
Proof.
  eapply triple_bind; [apply triple_ocall|]. intros sha.
  eapply triple_bind; [by apply triple_emit with (Q := fun _ tr => tr = tr0 ++ [EvInput sha]); intros tr <-|].
  intros []. by apply triple_ret.
Qed.

Lemma triple_requireInput tr0 expected :
  triple (eq tr0) (requireOrchestrationInput expected) (fun _ tr => tr = tr0 ++ [EvInput expected])
    (fun tr => tr = tr0 \/ exists sha, tr = tr0 ++ [EvInput sha]).
Proof.
  eapply triple_bind.
  - eapply triple_conseq; [apply triple_inputSHA|done|done|auto].
  - intros sha. apply triple_require; [|eauto]. intros ->%String.eqb_eq. done.
Qed.

(** *** Health *)

Definition healthy (exact api : string) (nodes : list Node) (pods : list Pod) : Prop :=
  canonicalKubernetesVersion api = Ok exact /\
  nodes <> [] /\ Forall (fun n => nodeHealthy exact n = true) nodes /\
  pods <> [] /\ Forall (fun pod => podHealthy pod = true) pods.

Lemma triple_podPages fuel (P : list event -> Prop) continuation seen X :
  Forall (fun pod => podHealthy pod = true) seen ->
  triple P (podPages fuel continuation seen)
    (fun r tr => P tr /\ forall pods, r = Some pods -> Forall (fun pod => podHealthy pod = true) pods) X.
Proof.
  revert continuation seen. induction fuel as [|fuel IH]; intros continuation seen Hseen; simpl.
  { by apply triple_ret. }
  eapply triple_bind; [apply triple_call|]. intros [page|e]; [|by apply triple_ret].
  destruct (forallb podHealthy (Items page)) eqn:Hall; [|by apply triple_ret].
  assert (Forall (fun pod => podHealthy pod = true) (seen ++ Items page)) as Happ.
  { apply Forall_app. split; [done|]. apply Forall_forall. rewrite forallb_forall in Hall.
    intros x Hx%list_elem_of_In. by apply Hall. }
  destruct (String.eqb (Continue_ page) ""); [|by apply IH].
  apply triple_ret. intros tr HP. split; [done|]. by intros pods [= <-].
Qed.

Lemma filter_length_all {A} (f : A -> bool) l : length (List.filter f l) = length l -> Forall (fun x => f x = true) l.
Proof.
  induction l as [|x l IH]; simpl; [constructor|]. destruct (f x) eqn:Hx; simpl.
  - intros [= H]. constructor; auto.
  - intros H. pose proof (filter_length_le f l). lia.
Qed.

#[local] Opaque maxPages podPages.

Lemma triple_none {A} (P : list event -> Prop) (Q : A -> Prop) X :
  triple P (mret None) (fun r tr => P tr /\ forall a, r = Some a -> Q a) X.
Proof. intros st HP. split; [exact HP|discriminate]. Qed.

Lemma triple_healthCheck exact (P : list event -> Prop) X :
  triple P (healthCheck exact)
    (fun r tr => P tr /\ forall seen, r = Some seen -> healthy exact seen.1.1 seen.1.2 seen.2) X.
Proof.
  eapply triple_bind; [apply triple_call|]. intros [api|e]; [|apply triple_none].
  destruct (canonicalKubernetesVersion api) as [actual|] eqn:Hc; [|apply triple_none].
  destruct (String.eqb_spec actual exact) as [->|]; [|apply triple_none]. simpl negb. cbv iota.
  eapply triple_bind; [apply triple_call|]. intros [nodes|e]; [|apply triple_none].
  destruct nodes as [|n nodes]; [apply triple_none|]. cbv zeta.
  destruct (Nat.eqb_spec (length (List.filter (nodeHealthy exact) (n :: nodes))) (length (n :: nodes))) as [Hn|];
    [|apply triple_none]. apply filter_length_all in Hn. simpl negb. cbv iota.
  eapply triple_bind; [apply triple_podPages; constructor|].
  intros [[|pod pods]|]; [|intros st [HP Hpods]|].
  1, 3: eapply triple_conseq; [apply (triple_none P)|intros ? [HP _]; exact HP|intros ? ? H; exact H|intros ? H; exact H].
  split; [exact HP|]. intros seen [= <-]. split; [exact Hc|]. split; [discriminate|]. split; [exact Hn|].
  split; [discriminate|]. apply Hpods. reflexivity.
Qed.

Lemma triple_poll rounds exact tr0 :
  triple (eq tr0) (poll rounds exact)
    (fun _ tr => exists api nodes pods, tr = tr0 ++ [EvHealthy exact api nodes pods] /\ healthy exact api nodes pods)
    (eq tr0).
Proof.
  induction rounds as [|rounds IH]; simpl; [by apply triple_fail|].
  eapply triple_bind; [apply triple_healthCheck|]. intros [[[api nodes] pods]|].
  - apply triple_emit. intros tr [<- Hh]. exists api, nodes, pods. split; [done|]. by apply (Hh (api, nodes, pods)).
  - eapply triple_bind with (R := fun _ => eq tr0).
    + eapply triple_conseq; [apply triple_call with (P := eq tr0) (X := eq tr0)|by intros tr [? _]|done|done].
    + intros []; [exact IH|by apply triple_fail].
Qed.

(** ** Runs happen behind their gates *)

Definition notrun (ev : event) : Prop := match ev with EvRun _ _ => False | _ => True end.

(** Every run in the trace satisfies [gate] of what preceded it. *)
Definition runs_gated (gate : list event -> Toolchain -> string -> Prop) (tr : list event) : Prop :=
  forall pre toolchain playbook post, tr = pre ++ EvRun toolchain playbook :: post -> gate pre toolchain playbook.

Lemma gated_nil gate : runs_gated gate [].
Proof. intros [|? ?] ? ? ? H; discriminate H. Qed.

Lemma gated_snoc gate tr ev : runs_gated gate tr ->
  match ev with EvRun toolchain playbook => gate tr toolchain playbook | _ => True end ->
  runs_gated gate (tr ++ [ev]).
Proof.
  intros Htr Hev pre tc pb post Heq. destruct (exists_last (l := EvRun tc pb :: post)) as (post' & last & Hp); [discriminate|].
  rewrite Hp, app_assoc in Heq. apply app_inj_tail in Heq as [Heq ->].
  destruct post' as [|x post'].
  - destruct post; simplify_eq/=; rewrite ?app_nil_r in *; subst; done.
  - simplify_eq/=. by eapply Htr.
Qed.

Section Gated.
Context (gate : list event -> Toolchain -> string -> Prop).
Abbreviation X := (runs_gated gate).

Lemma gated_event tr ev : notrun ev -> X tr -> X (tr ++ [ev]).
Proof. intros Hev Htr. apply gated_snoc; [done|]. by destruct ev. Qed.

Lemma safe_of {A} tr0 (m : OM A) Q (E : list event -> Prop) :
  triple (eq tr0) m Q E -> (forall tr, E tr -> X tr) -> triple (eq tr0) m Q X.
Proof. intros H HE. by eapply triple_conseq. Qed.

Lemma triple_post {A} tr0 (m : OM A) (Q Q' : A -> list event -> Prop) E :
  triple (eq tr0) m Q E -> (forall a tr, Q a tr -> Q' a tr) -> triple (eq tr0) m Q' E.
Proof. intros H HQ. by eapply triple_conseq. Qed.

Lemma safe_call {A} (f : env -> result oerr A * env) tr0 : X tr0 -> triple (eq tr0) (ocall f) (fun _ => eq tr0) X.
Proof. intros H. eapply safe_of; [apply triple_ocall|by intros tr <-]. Qed.

Lemma safe_client tr0 : X tr0 -> triple (eq tr0) clusterClient (fun _ => eq tr0) X.
Proof. intros H. eapply safe_of; [apply triple_clusterClient|by intros tr <-]. Qed.

Lemma safe_discover tr0 : X tr0 ->
  triple (eq tr0) discoverState (fun state => eq (tr0 ++ [EvDiscovered (LiveKubernetes state)])) X.
Proof.
  intros H. eapply triple_conseq; [apply triple_discoverState|done|by intros ? ? ->|by intros ? <-].
Qed.

Lemma safe_input tr0 : X tr0 -> triple (eq tr0) inputSHA256 (fun sha => eq (tr0 ++ [EvInput sha])) X.
Proof.
  intros H. eapply triple_conseq; [apply triple_inputSHA|done|by intros ? ? ->|by intros ? <-].
Qed.

Lemma safe_require_input tr0 sha : X tr0 ->
  triple (eq tr0) (requireOrchestrationInput sha) (fun _ => eq (tr0 ++ [EvInput sha])) X.
Proof.
  intros H. eapply triple_conseq; [apply triple_requireInput|done|by intros ? ? ->|].
  intros tr [-> | [sha' ->]]; [done|by apply gated_event].
Qed.

Lemma safe_kubespray tr0 toolchain playbook : X tr0 -> gate tr0 toolchain playbook ->
  triple (eq tr0) (kubespray toolchain playbook) (fun _ => eq (tr0 ++ [EvRun toolchain playbook])) X.
Proof.
  intros H Hg. eapply triple_bind; [by apply triple_emit with (Q := fun _ => eq (tr0 ++ [EvRun toolchain playbook])); intros tr <-|].
  intros []. apply safe_call. by apply gated_snoc.
Qed.

(** The trace grew by a health gate at version [v]. *)
Definition gate_passed (tr0 : list event) (v : string) (tr : list event) : Prop :=
  exists api nodes pods, tr = tr0 ++ [EvHealthy v api nodes pods] /\ healthy v api nodes pods.

Lemma safe_healthy tr0 v : X tr0 -> triple (eq tr0) (waitHealthy v) (fun _ => gate_passed tr0 v) X.
Proof. intros H. eapply safe_of; [apply triple_poll|by intros tr <-]. Qed.

Lemma safe_lift {A} (r : result oerr A) tr0 : X tr0 -> triple (eq tr0) (olift r) (fun a tr => tr0 = tr /\ r = Ok a) X.
Proof. intros H. apply triple_lift; [auto|by intros tr <-]. Qed.

Lemma safe_require cond e tr0 : X tr0 -> triple (eq tr0) (orequire cond e) (fun _ tr => tr0 = tr /\ cond = true) X.
Proof. intros H. apply triple_require; [auto|by intros tr <-]. Qed.

(** Bind after a step whose postcondition fixes the trace *)
Lemma triple_bind_eq {A B} tr0 (m : OM A) (f : A -> OM B) (g : A -> list event) Q E :
  triple (eq tr0) m (fun a => eq (g a)) E -> (forall a, triple (eq (g a)) (f a) Q E) -> triple (eq tr0) (m ≫= f) Q E.
Proof. apply triple_bind. Qed.

Lemma triple_bind_to {A B} tr0 tr1 (m : OM A) (f : A -> OM B) Q E :
  triple (eq tr0) m (fun _ => eq tr1) E -> (forall a, triple (eq tr1) (f a) Q E) -> triple (eq tr0) (m ≫= f) Q E.
Proof. apply triple_bind. Qed.

Lemma triple_bind_pure {A B} tr0 (m : OM A) (f : A -> OM B) (phi : A -> Prop) Q E :
  triple (eq tr0) m (fun a tr => tr0 = tr /\ phi a) E -> (forall a, phi a -> triple (eq tr0) (f a) Q E) ->
  triple (eq tr0) (m ≫= f) Q E.
Proof.
  intros Hm Hf. eapply triple_bind; [exact Hm|]. intros a st [Htr Hphi]. exact (Hf a Hphi st Htr).
Qed.

Lemma triple_bind_gate {A B} tr0 tr1 (m : OM A) (f : A -> OM B) v Q E :
  triple (eq tr0) m (fun _ => gate_passed tr1 v) E ->
  (forall a api nodes pods, healthy v api nodes pods -> triple (eq (tr1 ++ [EvHealthy v api nodes pods])) (f a) Q E) ->
  triple (eq tr0) (m ≫= f) Q E.
Proof.
  intros Hm Hf. eapply triple_bind; [exact Hm|]. intros a st (api & nodes & pods & Htr & Hh).
  specialize (Hf a api nodes pods Hh st). by apply Hf.
Qed.
End Gated.

(** ** Convergence of a plan *)

(** What must have happened before Kubespray runs for [plan] *)
Definition plan_gate (p : Project) (plan : UpgradePlan) (mode : N) (pre : list event) (toolchain : Toolchain)
    (playbook : string) : Prop :=
  (Order plan = InstallTarget /\ Current plan = "" /\ playbook = "cluster.yml" /\
   exists sha, pre = [EvInput sha]) \/
  (Order plan = KubernetesFirst /\ playbook = "upgrade-cluster.yml" /\
   (AutomaticUpgrade (Desired p) = true \/ mode = UpgradeConvergence) /\
   exists i release sha api nodes pods,
     releaseIndex (Releases (Desired p)) (Current plan) = Some i /\
     Releases (Desired p) !! S i = Some release /\ Steps plan = [release] /\
     Kubernetes (TRelease toolchain) = Kubernetes release /\
     Commit (Kubespray (TRelease toolchain)) = Commit (Kubespray release) /\
     pre = [EvDiscovered (Current plan); EvInput sha; EvHealthy (Current plan) api nodes pods] /\
     healthy (Current plan) api nodes pods) \/
  (Order plan = AlreadyCurrent /\ mode = ApplyConvergence /\ playbook = "cluster.yml" /\
   exists target sha api nodes pods,
     targetRelease p = Ok target /\
     pre = [EvDiscovered (Kubernetes target); EvInput sha; EvHealthy (Kubernetes target) api nodes pods] /\
     healthy (Kubernetes target) api nodes pods).

(** The trace of a convergence that succeeded *)
Inductive converged (p : Project) (plan : UpgradePlan) (mode : N) : list event -> Prop :=
  | converged_install sha toolchain api nodes pods :
      Order plan = InstallTarget -> healthy (Target plan) api nodes pods ->
      converged p plan mode
        [EvInput sha; EvRun toolchain "cluster.yml"; EvHealthy (Target plan) api nodes pods; EvInput sha;
         EvDiscovered (Target plan)]
  | converged_upgrade release toolchain sha api nodes pods api' nodes' pods' :
      Order plan = KubernetesFirst -> Steps plan = [release] ->
      healthy (Current plan) api nodes pods -> healthy (Kubernetes release) api' nodes' pods' ->
      converged p plan mode
        [EvDiscovered (Current plan); EvInput sha; EvHealthy (Current plan) api nodes pods;
         EvRun toolchain "upgrade-cluster.yml"; EvHealthy (Kubernetes release) api' nodes' pods'; EvInput sha;
         EvDiscovered (Kubernetes release)]
  | converged_configuration target toolchain sha api nodes pods api' nodes' pods' :
      Order plan = AlreadyCurrent -> mode = ApplyConvergence -> targetRelease p = Ok target ->
      healthy (Kubernetes target) api nodes pods -> healthy (Kubernetes target) api' nodes' pods' ->
      converged p plan mode
        [EvDiscovered (Kubernetes target); EvInput sha; EvHealthy (Kubernetes target) api nodes pods;
         EvRun toolchain "cluster.yml"; EvHealthy (Kubernetes target) api' nodes' pods'; EvInput sha]
  | converged_current target api nodes pods :
      Order plan = AlreadyCurrent -> mode <> ApplyConvergence -> targetRelease p = Ok target ->
      healthy (Kubernetes target) api nodes pods ->
      converged p plan mode [EvDiscovered (Kubernetes target); EvHealthy (Kubernetes target) api nodes pods].

Ltac safe := repeat first [apply gated_nil | apply gated_event; [exact I|] | assumption].

Section Converge.
Context (p : Project) (plan : UpgradePlan) (mode : N).
Abbreviation gate := (plan_gate p plan mode).
Abbreviation goal m := (triple (eq []) m (fun result tr => result = plan /\ converged p plan mode tr /\ runs_gated gate tr) (runs_gated gate)).

Lemma install_converges toolchains : Order plan = InstallTarget -> Current plan = "" ->
  goal (installCluster p plan toolchains).
Proof.
  intros Ho Hc. destruct toolchains as [|toolchain rest]; [apply triple_fail; by intros tr <-; safe|].
  eapply triple_bind_eq; [apply safe_input; safe|]. intros sha.
  eapply triple_bind_to; [apply safe_call; safe|]. intros _.
  assert (runs_gated gate ([EvInput sha] ++ [EvRun toolchain "cluster.yml"])) as Hrun.
  { apply gated_snoc; [change [EvInput sha] with ([] ++ [EvInput sha]); safe|]. left. eauto. }
  eapply triple_bind_to; [apply safe_kubespray; [safe|left; eauto]|]. intros _.
  eapply triple_bind_to; [apply triple_wrap, safe_client; exact Hrun|]. intros _.
  eapply triple_bind_gate; [apply safe_healthy; exact Hrun|]. intros _ api nodes pods Hh.
  eapply triple_bind_to; [apply safe_require_input; apply gated_event; [exact I|exact Hrun]|]. intros _.
  eapply triple_bind_eq; [apply triple_wrap, safe_discover; do 2 (apply gated_event; [exact I|]); exact Hrun|]. intros verified.
  eapply triple_bind_pure; [apply safe_require; do 3 (apply gated_event; [exact I|]); exact Hrun|].
  intros _ Hv%String.eqb_eq.
  eapply triple_bind_pure; [apply safe_lift; do 3 (apply gated_event; [exact I|]); exact Hrun|].
  intros _ _. apply triple_ret. intros tr <-. split; [done|]. rewrite Hv.
  split; [by apply converged_install|]. do 3 (apply gated_event; [exact I|]); exact Hrun.
Qed.

(** One Kubespray run on an existing cluster, from a passed gate *)
Lemma existing_converges tr0 toolchain playbook v : runs_gated gate tr0 -> gate tr0 toolchain playbook ->
  triple (eq tr0) (convergeExistingKubespray toolchain playbook v)
    (fun _ => gate_passed (tr0 ++ [EvRun toolchain playbook]) v) (runs_gated gate).
Proof.
  intros Htr Hg. eapply triple_bind_to; [by apply safe_kubespray|]. intros _.
  apply triple_wrap, safe_healthy. by apply gated_snoc.
Qed.

Lemma upgrade_converges toolchains i release :
  Order plan = KubernetesFirst -> (AutomaticUpgrade (Desired p) = true \/ mode = UpgradeConvergence) ->
  releaseIndex (Releases (Desired p)) (Current plan) = Some i ->
  Releases (Desired p) !! S i = Some release -> Steps plan = [release] ->
  goal (upgradeCluster p plan toolchains).
Proof.
  intros Ho Hauto Hi Hnext Hs. unfold upgradeCluster. rewrite Hs.
  eapply triple_bind_to; [apply safe_client; safe|]. intros _.
  eapply triple_bind_eq; [apply safe_discover; safe|]. intros state.
  eapply triple_bind_pure; [apply safe_require; safe|]. intros _ Hcur%String.eqb_eq.
  eapply triple_bind_pure; [apply safe_lift; safe|]. intros _ _.
  eapply triple_bind_eq; [apply safe_input; safe|]. intros sha.
  destruct toolchains as [|toolchain rest].
  { eapply triple_bind with (R := fun _ _ => False); [apply triple_fail; intros tr <-; safe|by intros ? ? ?]. }
  simpl upgradeSteps. unfold upgradeStep. rewrite Hcur.
  eapply triple_bind with (R := fun _ tr => converged p plan mode tr /\ runs_gated gate tr).
  2: { intros []. apply triple_ret. auto. }
  eapply triple_bind with (R := fun _ tr => converged p plan mode tr /\ runs_gated gate tr).
  2: { intros ?. destruct rest; apply triple_ret; auto. }
  eapply triple_bind_gate; [apply triple_wrap, safe_healthy; safe|]. intros _ api nodes pods Hh.
  eapply triple_bind_pure; [apply safe_require; safe|]. intros _ [Hk%String.eqb_eq Hc%String.eqb_eq]%andb_prop.
  assert (gate ((([] ++ [EvDiscovered (Current plan)]) ++ [EvInput sha]) ++ [EvHealthy (Current plan) api nodes pods])
    toolchain "upgrade-cluster.yml") as Hg.
  { right. left. split; [done|]. split; [done|]. split; [done|]. exists i, release, sha, api, nodes, pods. done. }
  eapply triple_bind_gate; [apply triple_wrap, existing_converges; [safe|exact Hg]|]. intros _ api' nodes' pods' Hh'.
  assert (runs_gated gate (((([] ++ [EvDiscovered (Current plan)]) ++ [EvInput sha]) ++ [EvHealthy (Current plan) api nodes pods])
    ++ [EvRun toolchain "upgrade-cluster.yml"])) as Hrun by (apply gated_snoc; [safe|exact Hg]).
  eapply triple_bind_to; [apply safe_require_input; apply gated_event; [exact I|exact Hrun]|]. intros _.
  eapply triple_bind_eq; [apply safe_discover; do 2 (apply gated_event; [exact I|]); exact Hrun|]. intros final.
  eapply triple_bind_pure; [apply safe_require; do 3 (apply gated_event; [exact I|]); exact Hrun|].
  intros _ Hv%String.eqb_eq. apply triple_ret. intros tr <-. rewrite Hv.
  split; [by apply converged_upgrade|]. do 3 (apply gated_event; [exact I|]); exact Hrun.
Qed.

Lemma current_converges : Order plan = AlreadyCurrent -> goal (convergeCurrent p plan mode).
Proof.
  intros Ho. eapply triple_bind_to; [apply safe_client; safe|]. intros _.
  eapply triple_bind_eq; [apply safe_discover; safe|]. intros state.
  eapply triple_bind_pure; [apply safe_lift; safe|]. intros target Ht.
  eapply triple_bind_pure; [apply safe_lift; safe|]. intros [] Hv.
  assert (LiveKubernetes state = Kubernetes target) as ->.
  { unfold validateCurrentTargetState in Hv. by destruct (String.eqb_spec (LiveKubernetes state) (Kubernetes target)). }
  eapply triple_bind with (R := fun _ tr => converged p plan mode tr /\ runs_gated gate tr).
  2: { intros []. apply triple_ret. auto. }
  destruct (N.eqb_spec mode ApplyConvergence) as [Hm|Hm].
  2: { eapply triple_post; [apply safe_healthy; safe|].
       intros _ tr (api & nodes & pods & -> & Hh). split; [by apply converged_current|]. safe. }
  eapply triple_bind_eq; [apply safe_input; safe|]. intros sha.
  eapply triple_bind_to; [apply safe_call; safe|]. intros toolchains.
  destruct toolchains as [|toolchain [|? ?]]; [apply triple_fail; intros tr <-; safe| |apply triple_fail; intros tr <-; safe].
  eapply triple_bind_gate; [apply triple_wrap, safe_healthy; safe|]. intros _ api nodes pods Hh.
  assert (gate ((([] ++ [EvDiscovered (Kubernetes target)]) ++ [EvInput sha]) ++ [EvHealthy (Kubernetes target) api nodes pods])
    toolchain "cluster.yml") as Hg.
  { right. right. split; [done|]. split; [done|]. split; [done|]. exists target, sha, api, nodes, pods. done. }
  eapply triple_bind_gate; [apply triple_wrap, existing_converges; [safe|done]|]. intros _ api' nodes' pods' Hh'.
  assert (runs_gated gate ((((([] ++ [EvDiscovered (Kubernetes target)]) ++ [EvInput sha]) ++ [EvHealthy (Kubernetes target) api nodes pods])
    ++ [EvRun toolchain "cluster.yml"]) ++ [EvHealthy (Kubernetes target) api' nodes' pods'])) as Hrun.
  { apply gated_event; [exact I|]. apply gated_snoc; [safe|done]. }
  eapply triple_post; [apply safe_require_input; exact Hrun|].
  intros _ tr <-. split; [by apply converged_configuration|]. apply gated_event; [exact I|exact Hrun].
Qed.
End Converge.

(** *** What [ValidatePlan] checked *)

Lemma ValidatePlan_inv s plan mode : ValidatePlan s plan mode = Ok tt ->
  exists p, ServiceProject s = Some p /\
    ((Order plan = InstallTarget /\ Current plan = "" /\ exists target, targetRelease p = Ok target /\ Steps plan = [target])
     \/ Order plan = AlreadyCurrent /\ Current plan = Target plan
     \/ (Order plan = KubernetesFirst \/ Order plan = PlatformFirst) /\
        (Order plan = KubernetesFirst -> AutomaticUpgrade (Desired p) = true \/ mode = UpgradeConvergence) /\
        exists i release, releaseIndex (Releases (Desired p)) (Current plan) = Some i /\
          Releases (Desired p) !! S i = Some release /\ Steps plan = [release]).
Proof.
  unfold ValidatePlan. destruct (ServiceProject s) as [p|] eqn:Hs; [|done].
  intros ([] & Hord%guard_err_ok & (target & Ht & ([] & Htarget%guard_err_ok & ([] & Hinst%guard_err_ok &
    ([] & Hcur%guard_err_ok & ([] & Hnext & ([] & Hmode & Hplat%guard_err_ok)%bind_ok_inv)%bind_ok_inv)%bind_ok_inv)%bind_ok_inv)%bind_ok_inv)%bind_ok_inv)%bind_ok_inv.
  exists p. split; [done|].
  destruct (String.eqb_spec (Order plan) InstallTarget) as [Ho|]; [|destruct (String.eqb_spec (Order plan) AlreadyCurrent) as [Ho|]].
  - left. split; [done|]. simpl in Hinst. apply orb_false_iff in Hinst as [H1 H2].
    apply negb_false_iff, String.eqb_eq in H1. apply negb_false_iff, bool_decide_eq_true in H2. eauto.
  - right. left. split; [done|]. simpl in Hcur. apply orb_false_iff in Hcur as [H1 _].
    by apply negb_false_iff, String.eqb_eq in H1.
  - right. right. clear Hinst Hcur.
    destruct (String.eqb_spec (Order plan) KubernetesFirst) as [Hk|]; destruct (String.eqb_spec (Order plan) PlatformFirst) as [Hp|];
      try (rewrite Hk in Hp; discriminate); try done; (split; [auto|]); simpl in Hnext;
      destruct (releaseIndex (Releases (Desired p)) (Current plan)) as [i|]; try done;
      destruct (Releases (Desired p) !! S i) as [release|] eqn:Hr; try done;
      apply guard_err_ok, negb_false_iff, bool_decide_eq_true in Hnext;
      (split; [|by exists i, release]); intros ?; try congruence.
    destruct (N.eqb_spec mode UpgradeConvergence); [by right|]. left.
    destruct (N.eqb mode ApplyConvergence || N.eqb mode FullConvergence); [|done].
    apply guard_err_ok in Hmode. by destruct (AutomaticUpgrade (Desired p)).
Qed.

Lemma ValidatePlan_target s p plan mode : ServiceProject s = Some p -> ValidatePlan s plan mode = Ok tt ->
  exists target, targetRelease p = Ok target /\ Target plan = Kubernetes target.
Proof.
  unfold ValidatePlan. intros ->. intros (_ & _ & (target & Ht & ([] & Hk%guard_err_ok & _)%bind_ok_inv)%bind_ok_inv)%bind_ok_inv.
  exists target. split; [done|]. by apply negb_false_iff, String.eqb_eq in Hk.
Qed.

(** Every path of [ConvergePlanned]: success with the full trace, or an error
    with every run behind its gate. *)
Lemma ConvergePlanned_triple s p plan mode : ServiceProject s = Some p ->
  triple (eq []) (ConvergePlanned s plan mode)
    (fun result tr => (result = plan /\ converged p plan mode tr /\ runs_gated (plan_gate p plan mode) tr) /\
      ValidatePlan s plan mode = Ok tt)
    (runs_gated (plan_gate p plan mode)).
Proof.
  intros Hs. eapply triple_bind_pure; [apply safe_lift; safe|]. intros [] Hv.
  eapply triple_conseq with (Q := fun result tr => result = plan /\ converged p plan mode tr /\ runs_gated (plan_gate p plan mode) tr); [|done|done|done].
  destruct (ValidatePlan_inv s plan mode Hv) as (p' & Hp' & Hcases). replace p' with p in * by congruence. rewrite Hs.
  destruct (String.eqb_spec (Order plan) PlatformFirst) as [Hpf|Hpf]; [apply triple_fail; intros tr <-; safe|].
  destruct (String.eqb_spec (Order plan) AlreadyCurrent) as [Hac|Hac]; [by apply current_converges|].
  eapply triple_bind_to; [apply safe_call; safe|]. intros toolchains.
  eapply triple_bind_pure; [apply safe_require; safe|]. intros _ _.
  destruct (String.eqb_spec (Order plan) InstallTarget) as [Hit|Hit].
  - apply install_converges; [done|]. destruct Hcases as [(_ & Hc & _)|[(Hx & _)|([Hx|Hx] & _)]];
      [exact Hc|rewrite Hit in Hx; discriminate..].
  - destruct Hcases as [(? & _)|[(? & _)|([Hk|?] & Hauto & i & release & Hi & Hr & Hst)]]; try done.
    by apply (upgrade_converges p plan mode toolchains i release); auto.
Qed.
End Plans.
End UpgradeTheorems.
