(* ===== verification/UpgradeBound.v ===== *)
(** Termination of the convergence loop of [cli/command/engines.go]: in a
    world where only Kubespray and the platform handoff change the cluster,
    the bound on the rounds is never what ends the loop. *)
From stdpp Require Import prelude gmap strings list.
From Stdlib Require Import Ascii ZArith Lia.
From S2P Require Import Prelude GoStrings Release Upgrade UpgradeTheorems.

Module UpgradeBound.
Import Release Upgrade UpgradeTheorems.

(** What the loop can see of the outside *)
Record View := { kubeconfig : bool; serverVersion : string; rootComplete : bool }.

(** The outside changes only when it is told to: reads return what is there
    and leave it, Kubespray may change the version, the platform handoff
    completes the root. *)
Class Quiet `{OU : Outside} (handoff : env -> result oerr unit * env) := {
  view : env -> View;
  q_kubeNew en r en' : kubeNew en = (r, en') -> view en' = view en /\
    kubeconfig (view en) = match r with Err ErrKubeconfigAbsent => false | _ => true end;
  q_server en r en' : ServerVersion en = (r, en') -> view en' = view en /\
    (forall raw, r = Ok raw -> raw = serverVersion (view en));
  q_nodes en : view (Nodes en).2 = view en;
  q_pods token en : view (ListPods token en).2 = view en;
  q_root en r en' : bigBangObservation en = (r, en') -> view en' = view en /\
    (forall root, r = Ok root -> Complete root = rootComplete (view en));
  q_prepare steps en : view (prepareReleases steps en).2 = view en;
  q_connections toolchain en : view (waitForInstallConnections toolchain en).2 = view en;
  q_input en : view (orchestrationInputSHA256 en).2 = view en;
  q_tick en : view (tick en).2 = view en;
  q_run toolchain playbook en r en' : runKubespray toolchain playbook en = (r, en') ->
    (kubeconfig (view en) = true -> kubeconfig (view en') = true) /\
    (rootComplete (view en) = true -> rootComplete (view en') = true);
  q_handoff en r en' : handoff en = (r, en') ->
    kubeconfig (view en') = kubeconfig (view en) /\ serverVersion (view en') = serverVersion (view en) /\
    (r = Ok tt -> rootComplete (view en') = true)
}.

Section Bound.
Context `{SV : Semver} `{OU : Outside} (handoff : env -> result oerr unit * env) `{QU : !Quiet handoff}.

(** ** Programs and the view *)

(** From view [v], [m] either fails or ends in [Q]. *)
Definition sees {A} (v : View) (m : OM A) (Q : A -> View -> Prop) : Prop :=
  forall st, view (oenv st) = v -> match m st with (Ok a, st') => Q a (view (oenv st')) | _ => True end.

Lemma sees_bind {A B} v (m : OM A) (f : A -> OM B) (R : A -> View -> Prop) Q :
  sees v m R -> (forall a w, R a w -> sees w (f a) Q) -> sees v (m ≫= f) Q.
Proof.
  intros Hm Hf st Hv. specialize (Hm st Hv). unfold mbind, O_bind. destruct (m st) as [[a|e] st']; [|done].
  by apply (Hf a _ Hm).
Qed.

Lemma sees_ret {A} v (a : A) (Q : A -> View -> Prop) : Q a v -> sees v (mret a) Q.
Proof. by intros H st <-. Qed.

Lemma sees_fail {A} v e (Q : A -> View -> Prop) : sees v (ofail e) Q.
Proof. done. Qed.

Lemma sees_weaken {A} v (m : OM A) (Q Q' : A -> View -> Prop) :
  sees v m Q -> (forall a w, Q a w -> Q' a w) -> sees v m Q'.
Proof. intros Hm HQ st Hv. specialize (Hm st Hv). destruct (m st) as [[a|] ?]; auto. Qed.

Lemma sees_lift {A} v (r : result oerr A) : sees v (olift r) (fun a w => w = v /\ r = Ok a).
Proof. intros st <-. unfold olift. by destruct r. Qed.

Lemma sees_require v cond e : sees v (orequire cond e) (fun _ w => w = v /\ cond = true).
Proof. intros st <-. unfold orequire. by destruct cond. Qed.

Lemma sees_wrap {A} v s (m : OM A) Q : sees v m Q -> sees v (owrap s m) Q.
Proof. intros H st Hv. specialize (H st Hv). unfold owrap. by destruct (m st) as [[a|] ?]. Qed.

Lemma sees_emit v ev : sees v (emit ev) (fun _ w => w = v).
Proof. by intros st <-. Qed.

(** Calls that leave the view *)
Lemma sees_call {A} v (f : env -> A * env) : (forall en, view (f en).2 = view en) -> sees v (call f) (fun _ w => w = v).
Proof. intros H st <-. unfold call. specialize (H (oenv st)). by destruct (f (oenv st)). Qed.

Lemma sees_ocall {A} v (f : env -> result oerr A * env) : (forall en, view (f en).2 = view en) ->
  sees v (ocall f) (fun _ w => w = v).
Proof.
  intros H. eapply sees_bind; [by apply sees_call|]. intros r w ->.
  eapply sees_weaken; [apply sees_lift|]. by intros a w [-> _].
Qed.

Lemma snd_server en : view (ServerVersion en).2 = view en.
Proof. destruct (ServerVersion en) as [r en'] eqn:H. by destruct (q_server en r en' H). Qed.

Lemma sees_client v : sees v clusterClient (fun _ w => w = v /\ kubeconfig v = true).
Proof.
  intros st <-. unfold clusterClient, mbind, O_bind, call. destruct (kubeNew (oenv st)) as [r en'] eqn:H.
  destruct (q_kubeNew _ _ _ H) as [Hw Hk]. by destruct r as [[]|[]].
Qed.

Lemma sees_discover v :
  sees v discoverState (fun state w => w = v /\ canonicalKubernetesVersion (serverVersion v) = Ok (LiveKubernetes state)).
Proof.
  intros st <-. unfold discoverState, mbind, O_bind, call. destruct (ServerVersion (oenv st)) as [r en'] eqn:H.
  destruct (q_server _ _ _ H) as [Hw Hr]. destruct r as [raw|e].
  - rewrite (Hr raw eq_refl) in *. unfold olift.
    by destruct (canonicalKubernetesVersion (serverVersion (view (oenv st)))) as [k|] eqn:Hk.
  - simpl. destruct (contextDone en'); [done|]. by destruct e.
Qed.

(** *** Health checks leave the view *)

Lemma sees_podPages fuel v continuation seen : sees v (podPages fuel continuation seen) (fun _ w => w = v).
Proof.
  revert continuation seen. induction fuel as [|fuel IH]; intros continuation seen; [by apply sees_ret|].
  eapply sees_bind; [apply sees_call, q_pods|]. intros [page|e] w ->; [|by apply sees_ret].
  destruct (forallb podHealthy (Items page)); [|by apply sees_ret].
  destruct (String.eqb (Continue_ page) ""); [by apply sees_ret|apply IH].
Qed.

#[local] Opaque maxPages podPages.

Lemma sees_healthCheck v exact : sees v (healthCheck exact) (fun _ w => w = v).
Proof.
  eapply sees_bind; [apply sees_call, snd_server|]. intros [api|e] w ->; [|by apply sees_ret].
  destruct (canonicalKubernetesVersion api) as [actual|]; [|by apply sees_ret].
  destruct (negb (String.eqb actual exact)); [by apply sees_ret|].
  eapply sees_bind; [apply sees_call, q_nodes|]. intros [[|n nodes]|e] w ->; [by apply sees_ret| |by apply sees_ret].
  cbv zeta. destruct (negb _); [by apply sees_ret|].
  eapply sees_bind; [apply sees_podPages|]. intros [[|pod pods]|] w ->; by apply sees_ret.
Qed.

Lemma sees_poll rounds v exact : sees v (poll rounds exact) (fun _ w => w = v).
Proof.
  induction rounds as [|rounds IH]; [apply sees_fail|].
  eapply sees_bind; [apply sees_healthCheck|]. intros [[[api nodes] pods]|] w ->; [apply sees_emit|].
  eapply sees_bind; [apply sees_call, q_tick|]. intros [] w ->; [exact IH|apply sees_fail].
Qed.

Lemma sees_healthy v exact : sees v (waitHealthy exact) (fun _ w => w = v).
Proof. apply sees_poll. Qed.

Lemma sees_input v : sees v inputSHA256 (fun _ w => w = v).
Proof.
  eapply sees_bind; [apply sees_ocall, q_input|]. intros sha w ->.
  eapply sees_bind; [apply sees_emit|]. intros [] w ->. by apply sees_ret.
Qed.

Lemma sees_require_input v sha : sees v (requireOrchestrationInput sha) (fun _ w => w = v).
Proof.
  eapply sees_bind; [apply sees_input|]. intros actual w ->.
  eapply sees_weaken; [apply sees_require|]. by intros [] w [-> _].
Qed.

(** A run keeps what is there and may change the version. *)
Definition grows (v w : View) : Prop :=
  (kubeconfig v = true -> kubeconfig w = true) /\ (rootComplete v = true -> rootComplete w = true).

Lemma sees_kubespray v toolchain playbook : sees v (kubespray toolchain playbook) (fun _ w => grows v w).
Proof.
  eapply sees_bind; [apply sees_emit|]. intros [] w ->. intros st <-. unfold ocall, mbind, O_bind, call.
  destruct (runKubespray toolchain playbook (oenv st)) as [r en'] eqn:H. pose proof (q_run _ _ _ _ _ H) as Hg.
  destruct r as [[]|e]; [|done]. exact Hg.
Qed.

(** ** One convergence *)

(** The cluster runs exactly [release], and the view grew from [v]. *)
Definition runs_release (release : ClusterRelease) (w : View) : Prop :=
  kubeconfig w = true /\ canonicalKubernetesVersion (serverVersion w) = Ok (Kubernetes release).

Lemma sees_install v p plan toolchains release : Target plan = Kubernetes release ->
  sees v (installCluster p plan toolchains) (fun _ w => grows v w /\ runs_release release w).
Proof.
  intros Ht. destruct toolchains as [|toolchain rest]; [apply sees_fail|].
  eapply sees_bind; [apply sees_input|]. intros sha w ->.
  eapply sees_bind; [apply sees_ocall, q_connections|]. intros ? w ->.
  eapply sees_bind; [apply sees_kubespray|]. intros ? w Hg.
  eapply sees_bind; [apply sees_wrap, sees_client|]. intros ? w' [-> Hk].
  eapply sees_bind; [apply sees_healthy|]. intros ? w' ->.
  eapply sees_bind; [apply sees_require_input|]. intros ? w' ->.
  eapply sees_bind; [apply sees_wrap, sees_discover|]. intros verified w' [-> Hd].
  eapply sees_bind; [apply sees_require|]. intros ? w' [-> Hv%String.eqb_eq].
  eapply sees_bind; [apply sees_lift|]. intros ? w' [-> _].
  apply sees_ret. split; [done|]. split; [done|]. congruence.
Qed.

Lemma sees_upgrade v p plan toolchains release : Steps plan = [release] ->
  sees v (upgradeCluster p plan toolchains) (fun _ w => grows v w /\ runs_release release w).
Proof.
  intros Hs. unfold upgradeCluster. rewrite Hs.
  eapply sees_bind; [apply sees_client|]. intros ? w [-> Hk].
  eapply sees_bind; [apply sees_discover|]. intros state w [-> _].
  eapply sees_bind; [apply sees_require|]. intros ? w [-> _].
  eapply sees_bind; [apply sees_lift|]. intros ? w [-> _].
  eapply sees_bind; [apply sees_input|]. intros sha w ->.
  destruct toolchains as [|toolchain rest]; [by apply sees_bind with (R := fun _ _ => False)|].
  eapply sees_bind with (R := fun _ w => grows v w /\ runs_release release w).
  2: { intros [] w H. by apply sees_ret. }
  eapply sees_bind with (R := fun _ w => grows v w /\ runs_release release w).
  2: { intros ? w H. destruct rest; by apply sees_ret. }
  eapply sees_bind; [apply sees_wrap, sees_healthy|]. intros ? w ->.
  eapply sees_bind; [apply sees_require|]. intros ? w [-> _].
  eapply sees_bind with (R := fun _ w => grows v w).
  { apply sees_wrap. eapply sees_bind; [apply sees_kubespray|]. intros ? w Hg.
    eapply sees_weaken; [apply sees_wrap, sees_healthy|]. by intros ? w' ->. }
  intros ? w Hg.
  eapply sees_bind; [apply sees_require_input|]. intros ? w' ->.
  eapply sees_bind; [apply sees_discover|]. intros final w' [-> Hd].
  eapply sees_bind; [apply sees_require|]. intros ? w' [-> Hv%String.eqb_eq].
  apply sees_ret. split; [done|]. split; [by apply Hg|]. congruence.
Qed.

(** What a convergence that is not the last one leaves *)
Lemma sees_ConvergePlanned v s p plan mode : ServiceProject s = Some p -> Order plan <> AlreadyCurrent ->
  sees v (ConvergePlanned s plan mode)
    (fun _ w => Order plan <> PlatformFirst /\ grows v w /\ exists release, Steps plan = [release] /\ runs_release release w).
Proof.
  intros Hs Hac. eapply sees_bind; [apply sees_lift|]. intros [] w [-> Hv].
  destruct (ValidatePlan_inv s plan mode Hv) as (p' & Hp' & Hcases). replace p' with p in * by congruence. rewrite Hs.
  destruct (String.eqb_spec (Order plan) PlatformFirst) as [Hpf|Hpf]; [apply sees_fail|].
  destruct (String.eqb_spec (Order plan) AlreadyCurrent) as [|_]; [done|].
  eapply sees_bind; [apply sees_ocall, q_prepare|]. intros toolchains w ->.
  eapply sees_bind; [apply sees_require|]. intros ? w [-> _].
  destruct (String.eqb_spec (Order plan) InstallTarget) as [Hit|Hit].
  - destruct Hcases as [(_ & _ & target & Ht & Hst)|[(Hx & _)|([Hx|Hx] & _)]]; try (rewrite Hit in Hx; discriminate).
    eapply sees_weaken; [apply (sees_install v p plan toolchains target)|].
    + destruct (ValidatePlan_target s p plan mode Hs Hv) as (t & Ht' & Hk). congruence.
    + intros ? w (Hg & Hr). eauto.
  - destruct Hcases as [(? & _)|[(? & _)|(_ & _ & i & release & _ & _ & Hst)]]; try done.
    eapply sees_weaken; [by apply (sees_upgrade v p plan toolchains release)|].
    intros ? w (Hg & Hr). eauto.
Qed.

(** ** One plan *)

Section Rounds.
Context (s : Service) (p : Project) (vs : list version) (mode : N).
Context (Hs : ServiceProject s = Some p) (Hl : ladder (Releases (Desired p)) vs).
Abbreviation releases := (Releases (Desired p)).

(** The cluster runs the release at [i]. *)
Definition at_release (i : nat) (v : View) : Prop := exists release, releases !! i = Some release /\ runs_release release v.

(** The plan made from view [v] *)
Definition plan_from (v : View) (plan : UpgradePlan) : Prop :=
  (Order plan = InstallTarget /\ kubeconfig v = false /\
   exists target, releases !! pred (length releases) = Some target /\ Steps plan = [target]) \/
  (exists i, at_release i v /\
    (Order plan = AlreadyCurrent \/
     exists next, releases !! S i = Some next /\ Steps plan = [next] /\
       (Order plan = KubernetesFirst \/ Order plan = PlatformFirst /\ rootComplete v = false))).

Lemma sees_catch_client v : sees v (ocatch clusterClient) (fun r w => w = v /\
  (r = Err ErrClusterAbsent -> kubeconfig v = false) /\ (r = Ok tt -> kubeconfig v = true)).
Proof.
  intros st <-. unfold ocatch, clusterClient, mbind, O_bind, call. destruct (kubeNew (oenv st)) as [r en'] eqn:H.
  destruct (q_kubeNew _ _ _ H) as [Hw Hk]. by destruct r as [[]|[]].
Qed.

Lemma sees_root v : sees v (ocall bigBangObservation) (fun root w => w = v /\ Complete root = rootComplete v).
Proof.
  intros st <-. unfold ocall, mbind, O_bind, call. destruct (bigBangObservation (oenv st)) as [r en'] eqn:H.
  destruct (q_root _ _ _ H) as [Hw Hr]. destruct r as [root|e]; [|done]. simpl. auto.
Qed.

Lemma position_release state tr position v :
  targetRelease p = Ok tr -> liveReleasePosition p state tr = Ok position -> kubeconfig v = true ->
  canonicalKubernetesVersion (serverVersion v) = Ok (LiveKubernetes state) -> at_release (currentIndex position) v.
Proof.
  intros Htr Hpos Hk Hc. destruct (position_spec p vs Hl state tr position Htr Hpos) as (r & Hr & _ & Hv & _).
  exists r. split; [done|]. split; [done|]. rewrite Hc. f_equal. rewrite <- Hv.
  unfold canonicalKubernetesVersion in Hc. destruct (NewVersion (TrimPrefix (serverVersion v) "v")) as [x|] eqn:Hx; [|done].
  destruct (_ || _); [done|]. injection Hc as Hc. rewrite <- Hc. unfold liveReleasePosition in Hpos.
  rewrite <- Hc, (semver_print _ _ Hx) in Hpos. destruct (NewVersion (Kubernetes tr)) as [t|]; [|done].
  destruct (GreaterThan x t); [done|]. destruct (releaseIndex releases (VString x)) as [a|]; [|done].
  destruct (releaseIndex releases (VString t)) as [b|]; [|done]. destruct (_ || _); [done|]. by injection Hpos as <-.
Qed.

(** [PlatformFirst] is only planned for an incomplete root. *)
Lemma platform_first_incomplete root position plan :
  upgradePlan p root position = Ok plan -> Order plan = PlatformFirst -> Complete root = false.
Proof.
  unfold upgradePlan. destruct (Equal _ _); [by intros [= <-]|]. destruct (releases !! _); [|done].
  destruct (NewVersion _); [|done]. destruct (_ || _); [done|]. destruct (parsePlatformConstraints _); [|done].
  destruct (Complete root) eqn:Hc; [|done]. simpl. by intros [= <-].
Qed.

Lemma sees_Plan v : sees v (Plan s) (fun plan w => w = v /\ plan_from v plan).
Proof.
  unfold Plan. rewrite Hs. eapply sees_bind; [apply sees_lift|]. intros target w [-> Ht].
  eapply sees_bind; [apply sees_catch_client|]. intros client w (-> & Habs & Hok).
  destruct client as [[]|e].
  2: { destruct e; try apply sees_fail. apply sees_ret. split; [done|]. left. split; [done|]. split; [by apply Habs|].
       destruct (target_last p vs Hl) as (r & Hr & Hlast). exists r. split; [done|]. simpl. congruence. }
  eapply sees_bind; [apply sees_discover|]. intros state w [-> Hd].
  eapply sees_bind; [apply sees_lift|]. intros position w [-> Hpos].
  eapply sees_bind; [apply sees_root|]. intros root w [-> Hroot].
  eapply sees_weaken; [apply sees_lift|]. intros plan w [-> Hplan]. split; [done|]. right.
  exists (currentIndex position). split; [by eapply position_release; eauto|].
  destruct (upgradePlan_spec p vs Hl state target position root Ht Hpos)
    as [(Hp & _)|(next & order & x & Hnext & _ & _ & Hord & Hp)].
  - left. rewrite Hp in Hplan. by injection Hplan as <-.
  - right. exists next. split; [done|]. destruct (parsePlatformConstraints (LockConstraints p)); [|congruence].
    pose proof (platform_first_incomplete root position plan Hplan) as Hinc.
    rewrite Hp in Hplan. injection Hplan as <-. split; [done|]. simpl in *.
    destruct Hord as [-> | ->]; [right|by left]. split; [done|]. rewrite <- Hroot. by apply Hinc.
Qed.

(** ** The bound *)

(** Rounds left: one for every release to go, one for the handoff. *)
Definition rounds_left (i : nat) (v : View) : nat := length releases - i + (if rootComplete v then 0 else 1).

Lemma at_release_unique i j v : at_release i v -> at_release j v -> i = j.
Proof.
  intros (r & Hr & _ & Hc) (r' & Hr' & _ & Hc'). eapply ladder_unique; eauto. congruence.
Qed.

Abbreviation rounds := (fun k applied => convergeRounds k s mode (Some handoff) applied).

Lemma handoff_view st : match ocall handoff st with
  | (Ok _, st') => kubeconfig (view (oenv st')) = kubeconfig (view (oenv st)) /\
      serverVersion (view (oenv st')) = serverVersion (view (oenv st)) /\ rootComplete (view (oenv st')) = true
  | _ => True
  end.
Proof.
  unfold ocall, mbind, O_bind, call. destruct (handoff (oenv st)) as [r en'] eqn:H.
  destruct (q_handoff _ _ _ H) as (H1 & H2 & H3). destruct r as [[]|]; [|done]. simpl. auto.
Qed.

(** A successful round towards release [i] leaves fewer rounds. *)
Lemma rounds_left_release i j v w : releases !! j <> None -> (j < i)%nat -> grows v w -> at_release i w ->
  (S (rounds_left i w) <= rounds_left j v)%nat.
Proof.
  intros Hj Hij [_ Hc] (r & Hr & _). apply lookup_lt_Some in Hr. unfold rounds_left.
  destruct (rootComplete v) eqn:Hv; [rewrite Hc by done; lia|]. destruct (rootComplete w); lia.
Qed.

Lemma rounds_enough n : forall i k k' applied st, at_release i (view (oenv st)) ->
  (rounds_left i (view (oenv st)) <= n)%nat -> (n <= k)%nat -> (n <= k')%nat -> rounds k applied st = rounds k' applied st.
Proof.
  induction n as [|n IH]; intros i k k' applied st Hat Hn Hk Hk'.
  { destruct Hat as (r & Hr & _). apply lookup_lt_Some in Hr. unfold rounds_left in Hn. lia. }
  destruct k as [|k], k' as [|k']; try lia. simpl.
  pose proof (sees_Plan (view (oenv st)) st eq_refl) as Hp. destruct (Plan s st) as [[plan|e] st1]; [|done].
  destruct Hp as [Hv1 Hp]. destruct (ValidatePlan s plan mode) as [[]|] eqn:Hval; [|done].
  destruct Hp as [(_ & Hk0 & _)|(i' & Hat' & Hcases)]; [destruct Hat as (? & _ & ? & _); congruence|].
  pose proof (at_release_unique i' i _ Hat' Hat) as ->. clear Hat'. rewrite <- Hv1 in Hat, Hn, Hcases.
  destruct Hcases as [Hac|(next & Hnext & Hst & Hord)].
  - rewrite Hac. simpl. by destruct (ConvergePlanned s plan mode st1) as [[?|?] ?].
  - destruct Hord as [Hkf|[Hpf Hinc]].
    + rewrite Hkf. simpl.
      pose proof (sees_ConvergePlanned (view (oenv st1)) s p plan mode Hs ltac:(by rewrite Hkf) st1 eq_refl) as Hc.
      destruct (ConvergePlanned s plan mode st1) as [[plan'|?] st2]; [|done]. destruct Hc as (_ & Hg & r & Hr & Hrun).
      assert (at_release (S i) (view (oenv st2))) as Hat2 by (exists next; split; [done|congruence]).
      pose proof (rounds_left_release (S i) i _ _ ltac:(by destruct Hat as (? & -> & _)) ltac:(lia) Hg Hat2).
      eapply (IH (S i)); [done|lia..].
    + rewrite Hpf. simpl. pose proof (handoff_view st1) as Hh. destruct (ocall handoff st1) as [[?|?] st2]; [|done].
      destruct Hh as (H1 & H2 & H3).
      assert (at_release i (view (oenv st2))) as Hat2.
      { destruct Hat as (r & Hr & Hka & Hca). exists r. split; [done|]. split; congruence. }
      eapply (IH i); [done| |lia..]. unfold rounds_left in *. rewrite H3. rewrite Hinc in Hn. lia.
Qed.

(** From any start: an install first when there is no cluster. *)
Lemma rounds_from_start k k' applied st : (length releases + 2 <= k)%nat -> (length releases + 2 <= k')%nat ->
  rounds k applied st = rounds k' applied st.
Proof.
  intros Hk Hk'. pose proof (sees_Plan (view (oenv st)) st eq_refl) as Hp.
  destruct (Plan s st) as [[plan|e] st1] eqn:HP.
  2: { destruct k, k'; try lia. simpl. by rewrite HP. }
  destruct Hp as [Hv1 [(Hit & Hk0 & target & Ht & Hst)|(i & Hat & _)]].
  - destruct k as [|k], k' as [|k']; try lia. simpl. rewrite HP. destruct (ValidatePlan s plan mode); [|done].
    rewrite Hit. simpl.
    pose proof (sees_ConvergePlanned (view (oenv st1)) s p plan mode Hs ltac:(by rewrite Hit) st1 eq_refl) as Hc.
    destruct (ConvergePlanned s plan mode st1) as [[plan'|?] st2]; [|done]. destruct Hc as (_ & Hg & r & Hr & Hrun).
    eapply (rounds_enough 2 (pred (length releases))); [|unfold rounds_left|..].
    + exists target. split; [done|congruence].
    + apply lookup_lt_Some in Ht. destruct (rootComplete _); lia.
    + apply lookup_lt_Some in Ht. lia.
    + apply lookup_lt_Some in Ht. lia.
  - eapply (rounds_enough (length releases + 2)); [exact Hat|unfold rounds_left; destruct (rootComplete _); lia|lia..].
Qed.
End Rounds.
End Bound.
End UpgradeBound.
