(* ===== verification/UpgradeClaims.v ===== *)
(** What upgrades guarantee: a plan follows the cluster that was observed, a
    step runs on a healthy cluster only, and the rounds of a convergence
    suffice; with a concrete cluster on which every statement is exercised. *)
From stdpp Require Import prelude gmap strings list.
From Stdlib Require Import Ascii ZArith Lia.
From S2P Require Import Prelude GoStrings Release Upgrade UpgradeTheorems UpgradeBound.

Module UpgradeClaims.
Import Release Upgrade UpgradeTheorems UpgradeBound.

(** ** A concrete semver and a concrete cluster *)

(** Versions [x.y.z] in canonical form; constraints [>=x.y.z] *)
Definition version3 : Type := N * N * N.
Definition print3 (v : version3) : string := ItoaN v.1.1 +:+ "." +:+ ItoaN v.1.2 +:+ "." +:+ ItoaN v.2.
Definition number (s : string) : option N := Z.to_N <$> parse_digits s 0.
Definition parse3 (s : string) : option version3 :=
  match Split s "." with
  | [a; b; c] =>
      match number a, number b, number c with
      | Some a, Some b, Some c => if String.eqb (print3 (a, b, c)) s then Some (a, b, c) else None
      | _, _, _ => None
      end
  | _ => None
  end.

Definition thenC (a b : comparison) : comparison := match a with Eq => b | _ => a end.
Definition compare3 (v w : version3) : comparison :=
  thenC (N.compare v.1.1 w.1.1) (thenC (N.compare v.1.2 w.1.2) (N.compare v.2 w.2)).

Lemma parse3_print s v : parse3 s = Some v -> parse3 (print3 v) = Some v.
Proof.
  intros H. enough (print3 v = s) as -> by done. unfold parse3 in H.
  destruct (Split s ".") as [|a [|b [|c [|? ?]]]]; try done.
  destruct (number a), (number b), (number c); try done.
  destruct (String.eqb_spec (print3 (n, n0, n1)) s); [|done]. by injection H as <-.
Qed.

Lemma compare3_antisym v w : compare3 w v = CompOpp (compare3 v w).
Proof.
  unfold compare3. rewrite (N.compare_antisym v.1.1), (N.compare_antisym v.1.2), (N.compare_antisym v.2).
  destruct (v.1.1 ?= w.1.1)%N, (v.1.2 ?= w.1.2)%N, (v.2 ?= w.2)%N; done.
Qed.

Lemma compare3_lt v w : compare3 v w = Lt <->
  (v.1.1 < w.1.1)%N \/ v.1.1 = w.1.1 /\ ((v.1.2 < w.1.2)%N \/ v.1.2 = w.1.2 /\ (v.2 < w.2)%N).
Proof.
  unfold compare3. destruct (N.compare_spec v.1.1 w.1.1), (N.compare_spec v.1.2 w.1.2), (N.compare_spec v.2 w.2);
    simpl; split; intros; try done; try lia.
Qed.

#[export] Instance semver3 : Semver.
Proof.
  refine {| version := version3; NewVersion := parse3; VString := print3; compareV := compare3;
            Major v := v.1.1; Minor v := v.1.2; Prerelease _ := ""; Metadata _ := "";
            constraint := version3;
            NewConstraint s := if HasPrefix s ">=" then parse3 (TrimPrefix s ">=") else None;
            CheckC c v := match compare3 v c with Lt => false | _ => true end;
            CString c := ">=" +:+ print3 c |}.
  - exact parse3_print.
  - exact compare3_antisym.
  - intros u v w H1 H2. rewrite compare3_lt in *. lia.
Defined.

(** A cluster that does what it is told: Kubespray installs the release of its
    toolchain, the handoff completes the platform. *)
Record world := { w_config : bool; w_version : string; w_complete : bool }.

Definition tool (r : ClusterRelease) : Toolchain :=
  {| TRelease := r; TSource := "/cache/kubespray"; AnsibleAdHoc := "ansible"; Ansible := "ansible-playbook";
     TEnvironment := []; IdentitySHA256 := "" |}.

#[export] Instance cluster : Outside := {|
  env := world;
  kubeNew w := (if w_config w then Ok tt else Err ErrKubeconfigAbsent, w);
  contextDone _ := false;
  ServerVersion w := (Ok (w_version w), w);
  Nodes w := (Ok [{| NodeName := "cp-0"; Unschedulable := false; KubeletVersion := w_version w; NodeReady := true; ControlPlane := true |}], w);
  ListPods _ w := (Ok {| Items := [{| PodName := "coredns"; Phase := "Running"; Deleting := false; PodReady := true |}]; Continue_ := "" |}, w);
  bigBangObservation w := (Ok {| Found := true; TargetCurrent := w_complete w; ObservedTag := ""; SourceReady := true;
    SourceMessage := ""; HelmReleaseReady := true; HelmMessage := "" |}, w);
  prepareReleases rs w := (Ok (tool <$> rs), w);
  waitForInstallConnections _ w := (Ok tt, w);
  runKubespray t _ w := (Ok tt, {| w_config := true; w_version := "v" +:+ Kubernetes (TRelease t); w_complete := w_complete w |});
  orchestrationInputSHA256 w := (Ok "sha", w);
  tick w := (true, w)
|}.

Definition handoff0 (w : world) : result oerr unit * world :=
  (Ok tt, {| w_config := w_config w; w_version := w_version w; w_complete := true |}).

#[export] Instance cluster_quiet : Quiet handoff0.
Proof.
  refine {| view w := {| kubeconfig := w_config w; serverVersion := w_version w; rootComplete := w_complete w |} |};
    try done; simpl.
  - intros en r en' [= <- <-]. by destruct (w_config en).
  - intros en r en' [= <- <-]. split; [done|]. by intros raw [= <-].
  - intros en r en' [= <- <-]. split; [done|]. intros root [= <-]. unfold Complete. simpl. by destruct (w_complete en).
  - by intros ? ? en r en' [= <- <-].
  - by intros en r en' [= <- <-].
Defined.

Definition commit0 : string := "0123456789012345678901234567890123456789".
Definition digest0 : string := "sha256:0123456789012345678901234567890123456789012345678901234567890123".
Definition release0 (kubernetes kubespray : string) : ClusterRelease := {|
  Kubernetes := kubernetes;
  Kubespray := {| URL := "https://github.com/kubernetes-sigs/kubespray"; Version := kubespray; Ref := ""; Branch := "";
                  Commit := commit0; Patches := []; KubeVersion := kubernetes; Assets := [] |};
  Checksums := {| Kubelet := digest0; Kubeadm := digest0; Kubectl := digest0 |}
|}.

Definition project0 : Project := {|
  Desired := {| Directory := "."; Inventory := "inventory"; AnsibleUser := "atum"; Forks := 20; AutomaticUpgrade := true;
                Releases := [release0 "1.31.4" "2.27.0"; release0 "1.31.9" "2.27.1"; release0 "1.32.5" "2.28.0"] |};
  LockConstraints := [{| CID := "big-bang"; CConstraint := ">=1.30.0" |}]
|}.
Definition service0 : Service := {| ServiceProject := Some project0 |}.
Definition world0 : world := {| w_config := true; w_version := "v1.31.4"; w_complete := false |}.
Definition step0 : UpgradePlan :=
  {| Current := "1.31.4"; Target := "1.32.5"; Order := KubernetesFirst; Steps := [release0 "1.31.9" "2.27.1"] |}.

(** The whole climb: a handoff, two upgrades, the final check *)
Example climb0 :
  let '(applied, r, st) := convergeOrchestration service0 project0 FullConvergence (Some handoff0) (OSt world0 []) in
  (applied, r, w_version (oenv st)) = (true, Ok tt, "v1.32.5").
Proof. vm_compute. reflexivity. Qed.

(** ** The theorems *)

Section Claims.
Context `{SV : Semver} `{OU : Outside}.

(** What a plan sees of the cluster: the version it serves and its Flux root *)
Definition observes (en : env) (live : string) (root : FluxRootObservation) : Prop :=
  exists e1 raw e2 e3, kubeNew en = (Ok tt, e1) /\ ServerVersion e1 = (Ok raw, e2) /\
    canonicalKubernetesVersion raw = Ok live /\ bigBangObservation e2 = (Ok root, e3).

(** Every constraint of the locked platform admits both versions. *)
Definition platformSupports (p : Project) (v w : version) : Prop :=
  exists constraints, parsePlatformConstraints (LockConstraints p) = Ok constraints /\
    forall c, c ∈ constraints -> CheckC (nc_constraint c) v = true /\ CheckC (nc_constraint c) w = true.

Lemma Plan_inv s p st plan st' : ServiceProject s = Some p -> Plan s st = (Ok plan, st') ->
  exists target, targetRelease p = Ok target /\
    ((exists e, kubeNew (oenv st) = (Err ErrKubeconfigAbsent, e)) /\
       plan = {| Current := ""; Target := Kubernetes target; Order := InstallTarget; Steps := [target] |} \/
     exists live position root, observes (oenv st) live root /\
       liveReleasePosition p {| LiveKubernetes := live |} target = Ok position /\ upgradePlan p root position = Ok plan).
Proof.
  intros Hs. unfold Plan, mbind, O_bind, olift, ocatch. rewrite Hs.
  destruct (targetRelease p) as [target|]; [|done]. intros H. exists target. split; [done|].
  unfold clusterClient, mbind, O_bind, call in H. destruct (kubeNew (oenv st)) as [[[]|[]] e1] eqn:E1; cbn in H; [right|left|done].
  - unfold discoverState, mbind, O_bind, call in H. cbn [oenv] in H. destruct (ServerVersion e1) as [[raw|err] e2] eqn:E2; cbn in H.
    2: { by destruct (contextDone e2), err. }
    destruct (canonicalKubernetesVersion raw) as [live|] eqn:E3; [|done]. cbn in H.
    destruct (liveReleasePosition p {| LiveKubernetes := live |} target) as [position|] eqn:Hpos; [|done]. cbn in H.
    unfold ocall, mbind, O_bind, call in H. cbn [oenv] in H.
    destruct (bigBangObservation e2) as [[root|] e3] eqn:E4; [|done]. cbn in H. injection H as Hplan _.
    exists live, position, root. split; [|done]. by exists e1, raw, e2, e3.
  - injection H as <- _. eauto.
Qed.

Lemma supported_iff constraints v w : String.eqb (firstUnsupportedConstraint constraints [v; w]) "" = true <->
  forall c, c ∈ constraints -> CheckC (nc_constraint c) v = true /\ CheckC (nc_constraint c) w = true.
Proof.
  unfold firstUnsupportedConstraint. destruct (List.find _ _) as [[u c]|] eqn:E.
  - apply List.find_some in E as [Hin Hno]. apply negb_true_iff in Hno. simpl in Hno. split.
    + intros H%String.eqb_eq. apply (f_equal String.length) in H. rewrite !str_length_append in H. simpl in H. lia.
    + intros H. apply list_elem_of_In, list_elem_of_bind in Hin as (x & (c' & [= -> ->] & Hc)%list_elem_of_fmap & Hx).
      destruct (H c' Hc) as [Hv Hw]. rewrite !elem_of_cons, elem_of_nil in Hx. destruct Hx as [->|[->|[]]]; congruence.
  - split; [|done]. intros _ c Hc. assert (forall u, u ∈ [v; w] -> CheckC (nc_constraint c) u = true) as H.
    { intros u Hu. assert (In (u, c) ([v; w] ≫= (fun v => (fun c => (v, c)) <$> constraints))) as Hin.
      { apply list_elem_of_In, list_elem_of_bind. exists u. split; [|done]. apply list_elem_of_fmap. by exists c. }
      pose proof (List.find_none _ _ E _ Hin) as Hf. by apply negb_false_iff in Hf. }
    split; apply H; rewrite !elem_of_cons; auto.
Qed.
Lemma live_current p live target position root en : observes en live root ->
  liveReleasePosition p {| LiveKubernetes := live |} target = Ok position -> live = VString (current position).
Proof.
  intros (e1 & raw & e2 & e3 & _ & _ & Hraw & _) Hpos. unfold canonicalKubernetesVersion in Hraw.
  destruct (NewVersion (TrimPrefix raw "v")) as [v|] eqn:Ev; [|done]. destruct (_ || _); [done|]. injection Hraw as <-.
  unfold liveReleasePosition in Hpos. cbn [LiveKubernetes] in Hpos. rewrite (semver_print _ _ Ev) in Hpos.
  destruct (NewVersion (Kubernetes target)); [|done]. destruct (GreaterThan _ _); [done|].
  destruct (releaseIndex _ _); [|done]. destruct (releaseIndex _ _); [|done]. destruct (_ || _); [done|]. by injection Hpos as <-.
Qed.
Lemma upgradePlan_order p root position plan next w : upgradePlan p root position = Ok plan -> Steps plan = [next] ->
  Releases (Desired p) !! S (currentIndex position) = Some next -> canonical next w ->
  Equal (current position) (target position) = false /\
  (Order plan = PlatformFirst <-> Complete root = false /\ platformSupports p (current position) w).
Proof.
  intros Hup Hsteps Hnext Hc. unfold upgradePlan in Hup. destruct (Equal _ _); [by injection Hup as <-|]. split; [done|].
  rewrite Hnext, (canonical_parse next w Hc) in Hup. destruct (_ || _); [done|]. unfold platformSupports.
  destruct (parsePlatformConstraints (LockConstraints p)) as [cs|]; [|done].
  assert ((exists constraints, Ok cs = Ok (E := oerr) constraints /\
      forall c, c ∈ constraints -> CheckC (nc_constraint c) (current position) = true /\ CheckC (nc_constraint c) w = true) <->
    String.eqb (firstUnsupportedConstraint cs [current position; w]) "" = true) as ->.
  { rewrite supported_iff. split; [by intros (? & [= <-] & H)|eauto]. }
  destruct (Complete root), (String.eqb _ ""); cbn [negb andb] in Hup; injection Hup as <-; split; try done; by intros [].
Qed.

Lemma install_validates s p target : ServiceProject s = Some p -> targetRelease p = Ok target ->
  ValidatePlan s {| Current := ""; Target := Kubernetes target; Order := InstallTarget; Steps := [target] |} FullConvergence = Ok tt.
Proof.
  intros Hs Ht. unfold ValidatePlan. rewrite Hs, Ht. simpl. rewrite String.eqb_refl. simpl.
  by rewrite bool_decide_eq_true_2.
Qed.

(** C12. Kubespray runs only behind its gates.  Whatever the cluster, the
    toolchains, the run itself and the inputs answer, and whether
    [ConvergePlanned] succeeds or fails: every run it makes is preceded by
    exactly the checks of its order of upgrade.  An upgrade runs
    [upgrade-cluster.yml] once, with the toolchain of the one release that
    follows the live one on the ladder, after the live version was discovered
    to be the planned one and every node and system pod was seen healthy at
    it, and only when upgrades are automatic or asked for; a converged cluster
    is reconfigured only in apply mode and behind the same gate at the target;
    an install runs only for a plan without a live version; a platform-first
    plan runs nothing. *)
Theorem ConvergePlanned_gated s p plan mode en : ServiceProject s = Some p ->
  runs_gated (plan_gate p plan mode) (otrace (ConvergePlanned s plan mode (OSt en [])).2).
Proof.
  intros Hs. pose proof (ConvergePlanned_triple s p plan mode Hs (OSt en []) eq_refl) as H.
  destruct (ConvergePlanned s plan mode (OSt en [])) as [[?|?] st']; [|exact H]. by destruct H as [(_ & _ & H) _].
Qed.

(** C13. A convergence that succeeds has done all of it: the trace is the full
    sequence of its order of upgrade, ending with the planned version
    discovered live (or healthy at the target), every node and system pod
    healthy at that version after the run, and the same orchestration inputs
    before and after. *)
Theorem ConvergePlanned_success s p plan mode en plan' st' : ServiceProject s = Some p ->
  ConvergePlanned s plan mode (OSt en []) = (Ok plan', st') ->
  plan' = plan /\ ValidatePlan s plan mode = Ok tt /\ converged p plan mode (otrace st').
Proof.
  intros Hs Hrun. pose proof (ConvergePlanned_triple s p plan mode Hs (OSt en []) eq_refl) as H.
  rewrite Hrun in H. by destruct H as [(-> & Hc & _) Hv].
Qed.

(** C14. On a validated ladder a plan follows what the cluster shows.  Without a
    kubeconfig it is the install of the last release.  Otherwise the cluster
    answered with a version of the ladder, which the plan records, and the plan is
    nothing when that is the last release, and else exactly one step: the release
    that follows the live one, which advances it by patches or by one minor of the
    same major; the platform goes first exactly when its root is not complete and
    its constraints admit the live and the next version.  Every such plan passes
    [ValidatePlan] in full convergence when automatic upgrades are enabled. *)
Theorem Plan_next_release s p st plan st' :
  ServiceProject s = Some p -> validateClusterReleases (Releases (Desired p)) = [] -> Plan s st = (Ok plan, st') ->
  (AutomaticUpgrade (Desired p) = true -> ValidatePlan s plan FullConvergence = Ok tt) /\
  exists target, last (Releases (Desired p)) = Some target /\ Target plan = Kubernetes target /\
  ((exists e, kubeNew (oenv st) = (Err ErrKubeconfigAbsent, e)) /\ Order plan = InstallTarget /\ Current plan = "" /\ Steps plan = [target] \/
   exists live root, observes (oenv st) live root /\ Current plan = live /\
     (live = Kubernetes target /\ Order plan = AlreadyCurrent /\ Steps plan = [] \/
      live <> Kubernetes target /\ exists i release next v w,
        Releases (Desired p) !! i = Some release /\ Kubernetes release = live /\ canonical release v /\
        Releases (Desired p) !! S i = Some next /\ canonical next w /\ advances v w /\ Steps plan = [next] /\
        (Order plan = PlatformFirst \/ Order plan = KubernetesFirst) /\
        (Order plan = PlatformFirst <-> Complete root = false /\ platformSupports p v w))).
Proof.
  intros Hs Hval Hplan. destruct (validated_ladder _ Hval) as [vs Hl].
  destruct (Plan_inv s p st plan st' Hs Hplan) as (final & Ht & Hcase).
  destruct (target_last p vs Hl) as (r0 & Hr0 & Hlast). assert (r0 = final) as -> by congruence.
  split; [intros Ha; destruct Hcase as [[_ ->]|(live & position & root & _ & Hpos & Hup)]; [by apply (install_validates s p)|by eapply plan_validates]|].
  exists final. rewrite last_lookup_. split; [congruence|]. destruct Hcase as [[He ->]|(live & position & root & Hobs & Hpos & Hup)]; [by split; [|left]|].
  destruct (position_spec p vs Hl _ final position Ht Hpos) as (r & Hr & Hc & Hk & Hct & _).
  pose proof (live_current p live final position root (oenv st) Hobs Hpos) as Hlive.
  destruct (upgradePlan_spec p vs Hl _ final position root Ht Hpos)
    as [(Hp & Hcur & _)|(next & order & w & Hnext & Hcn & Hadv & Hord & Hp)].
  - rewrite Hp in Hup. injection Hup as <-. split; [done|]. right. exists live, root. split; [done|]. split; [done|]. left. split; [congruence|done].
  - destruct (parsePlatformConstraints (LockConstraints p)); [|congruence]. pose proof Hup as Hup'. rewrite Hp in Hup'. injection Hup' as <-.
    split; [done|]. right. exists live, root. split; [done|]. split; [done|]. right.
    destruct (upgradePlan_order p root position _ next w Hup eq_refl Hnext Hcn) as [Hne Horder].
    split; [|exists (currentIndex position), r, next, (current position), w; split_and!; try done; congruence].
    intros E. destruct Hct as (Hpt & Ekt & _). rewrite Hlive, Ekt in E. destruct Hc as (Hpc & _).
    assert (current position = target position) as Heq.
    { pose proof (semver_print _ _ Hpc) as P1. pose proof (semver_print _ _ Hpt) as P2. congruence. }
    unfold Equal in Hne. by rewrite Heq, compareV_refl in Hne.
Qed.

(** C15. The bound of the convergence loop is never what ends it.  In a world
    where only Kubespray runs and the platform handoff change the cluster, on
    a validated ladder of any length, the loop of [convergeOrchestration]
    returns before its [2 * releases + 3] rounds are used: any larger bound
    gives the same result and the same trace, whether it succeeds or fails. *)
Theorem convergence_bound_suffices handoff `{QU : !Quiet handoff} s p mode extra st :
  ServiceProject s = Some p -> validateClusterReleases (Releases (Desired p)) = [] ->
  convergeRounds (convergenceLimit p + extra) s mode (Some handoff) false st =
  convergeOrchestration s p mode (Some handoff) st.
Proof.
  intros Hs Hval. destruct (validated_ladder _ Hval) as [vs Hl].
  apply (rounds_from_start handoff s p vs mode Hs Hl); unfold convergenceLimit; lia.
Qed.
End Claims.

(** *** On the concrete cluster *)

Definition world1 : world := {| w_config := true; w_version := "v1.31.4"; w_complete := true |}.
Definition state0 : @ost cluster := OSt (OU := cluster) world0 [].
Definition state1 : @ost cluster := OSt (OU := cluster) world1 [].

Lemma ConvergePlanned_gated_witness : ServiceProject service0 = Some project0 /\
  (exists toolchain, In (EvRun toolchain "upgrade-cluster.yml")
     (otrace (ConvergePlanned service0 step0 FullConvergence state1).2)) /\
  runs_gated (plan_gate project0 step0 FullConvergence)
    (otrace (ConvergePlanned service0 step0 FullConvergence state1).2).
Proof.
  split; [reflexivity|]. split.
  - exists (tool (release0 "1.31.9" "2.27.1")). vm_compute. do 3 right. left. reflexivity.
  - apply (ConvergePlanned_gated (SV := semver3) (OU := cluster) service0 project0 step0 FullConvergence world1). reflexivity.
Defined.

Lemma ConvergePlanned_success_witness :
  converged project0 step0 FullConvergence (otrace (ConvergePlanned service0 step0 FullConvergence state1).2).
Proof.
  destruct (ConvergePlanned_success (SV := semver3) (OU := cluster) service0 project0 step0 FullConvergence world1 step0
    (ConvergePlanned service0 step0 FullConvergence state1).2) as (_ & _ & H).
  - reflexivity.
  - vm_compute. reflexivity.
  - exact H.
Defined.

Lemma Plan_next_release_witness : exists plan,
  (Plan service0 state1).1 = Ok plan /\ Steps plan = [release0 "1.31.9" "2.27.1"] /\
  ValidatePlan service0 plan FullConvergence = Ok tt.
Proof.
  exists step0. split; [vm_compute; reflexivity|]. split; [reflexivity|].
  apply (Plan_next_release (SV := semver3) (OU := cluster) service0 project0 state1 step0 (Plan service0 state1).2).
  - reflexivity.
  - vm_compute. reflexivity.
  - vm_compute. reflexivity.
  - reflexivity.
Defined.

Lemma convergence_bound_suffices_witness :
  convergeRounds (convergenceLimit project0 + 100) service0 FullConvergence (Some handoff0) false state0 =
  convergeOrchestration service0 project0 FullConvergence (Some handoff0) state0.
Proof.
  apply (convergence_bound_suffices (SV := semver3) (OU := cluster) handoff0 service0 project0 FullConvergence 100 state0).
  - reflexivity.
  - vm_compute. reflexivity.
Defined.
End UpgradeClaims.
