(* ===== verification/Tail.v ===== *)
(** The bounded tail of the raw log: [cli/tui/tail.go].  A ring of 128 lines
    of at most 4 KiB each is fed by writes of any size; the theorems relate it
    to the whole stream. *)
From stdpp Require Import prelude strings list.
From Stdlib Require Import Ascii ZArith Lia.
From S2P Require Import Prelude GoStrings Utf8.

Module Tail.
Import Utf8.

Definition logTailLineLimit : nat := 128.
Definition logTailByteLimit : nat := Eval vm_compute in (4 * 1024)%nat.

Definition cr : ascii := "013".
Definition lf : ascii := "010".
Definition tab : N := 9.
Definition ellipsis : string := EncodeRune 8230.

Record logSnapshotMsg := { s_lines : list string; s_start : nat; s_count : nat; s_partial : string }.

(** The counters [revision] and [published] are [uint64]. *)
Record logTail := {
  lines : list string;
  partial : string;
  start : nat;
  count : nat;
  revision : Z;
  published : Z;
  truncated : bool
}.

Definition newLogTail : logTail :=
  {| lines := replicate logTailLineLimit ""; partial := ""; start := 0; count := 0;
     revision := 0; published := 0; truncated := false |}.

Definition incr (z : Z) : Z := (z + 1) mod 2 ^ 64.

Section Tail.
(** [github.com/charmbracelet/x/ansi]: removes escape sequences *)
Context (Strip : string -> string).

Definition dropControl (r : N) : option N :=
  if (r =? tab)%N then Some 32%N else if IsControl r then None else Some r.

Definition sanitizeLogLine (line : string) : string :=
  let line := if bool_decide (is_Some (IndexByte line "027")) then Strip line else line in
  if existsb (fun d => IsControl d.1) (runes line) then Map dropControl line else line.

Definition appendPartial (data : string) (t : logTail) : logTail :=
  let remaining := (Z.of_nat logTailByteLimit - Z.of_nat (String.length (partial t)))%Z in
  if (remaining <=? 0)%Z then
    if truncated t then t
    else {| lines := lines t; partial := partial t; start := start t; count := count t;
            revision := incr (revision t); published := published t; truncated := true |}
  else
    let '(data, cut) :=
      if (remaining <? Z.of_nat (String.length data))%Z then (str_take (Z.to_nat remaining) data, true)
      else (data, truncated t) in
    {| lines := lines t; partial := partial t +:+ data; start := start t; count := count t;
       revision := incr (revision t); published := published t; truncated := cut |}.

(** The line as it is shown *)
Definition shown (t : logTail) : string :=
  sanitizeLogLine (partial t) +:+ (if truncated t then ellipsis else "").

Definition commitPartial (t : logTail) : logTail :=
  let line := shown t in
  let '(index, start', count') :=
    if (count t =? logTailLineLimit)%nat
    then (start t, (start t + 1) mod logTailLineLimit, count t)
    else ((start t + count t) mod logTailLineLimit, start t, S (count t))%nat in
  {| lines := <[index := line]> (lines t); partial := ""; start := start'; count := count';
     revision := incr (revision t); published := published t; truncated := false |}.

(** The loop of [Write]; every round but the last consumes a separator, so the
    length of the data bounds the rounds. *)
Fixpoint write (fuel : nat) (data : string) (t : logTail) : logTail :=
  match fuel with
  | O => t
  | S fuel =>
      if String.eqb data "" then t
      else
        match IndexAny data (String cr (String lf "")) with
        | None => appendPartial data t
        | Some separator =>
            let t := commitPartial (appendPartial (str_take separator data) t) in
            let rest := str_drop (S separator) data in
            let rest :=
              match String.get separator data, rest with
              | Some c, String d rest' => if Ascii.eqb c cr && Ascii.eqb d lf then rest' else rest
              | _, _ => rest
              end in
            write fuel rest t
        end
  end.
Definition Write (data : string) (t : logTail) : logTail := write (S (String.length data)) data t.

Definition snapshot (t : logTail) : option logSnapshotMsg * logTail :=
  if (revision t =? published t)%Z then (None, t)
  else
    (Some {| s_lines := lines t; s_start := start t; s_count := count t; s_partial := shown t |},
     {| lines := lines t; partial := partial t; start := start t; count := count t;
        revision := revision t; published := revision t; truncated := truncated t |}).

(** ** The ring *)

Definition ring (ls : list string) (start count : nat) : list string :=
  (fun k => default "" (ls !! ((start + k) mod logTailLineLimit)%nat)) <$> seq 0 count.
Definition shownLines (t : logTail) : list string := ring (lines t) (start t) (count t).

(** [s[len(s)-n:]], all of it when shorter *)
Definition lastn {A} (n : nat) (l : list A) : list A := drop (length l - n) l.

Definition ring_ok (t : logTail) : Prop :=
  length (lines t) = logTailLineLimit /\ (start t < logTailLineLimit)%nat /\ (count t <= logTailLineLimit)%nat /\
  ((count t < logTailLineLimit)%nat -> start t = 0%nat).

Lemma ring_length ls st c : length (ring ls st c) = c.
Proof. unfold ring. by rewrite length_fmap, length_seq. Qed.

Lemma ring_lookup ls st c k : (k < c)%nat ->
  ring ls st c !! k = Some (default "" (ls !! ((st + k) mod logTailLineLimit)%nat)).
Proof. intros H. unfold ring. by rewrite list_lookup_fmap, lookup_seq_lt. Qed.

Lemma mod_limit n : (n < logTailLineLimit)%nat -> (n mod logTailLineLimit = n)%nat.
Proof. apply Nat.mod_small. Qed.

Lemma mod_next st k : (st < logTailLineLimit)%nat -> (k < logTailLineLimit)%nat ->
  ((st + 1) mod logTailLineLimit + k) mod logTailLineLimit = ((st + S k) mod logTailLineLimit)%nat.
Proof. intros H1 H2. rewrite Nat.Div0.add_mod_idemp_l. f_equal. lia. Qed.

Lemma mod_other st k : (st < logTailLineLimit)%nat -> (0 < k < logTailLineLimit)%nat ->
  ((st + k) mod logTailLineLimit <> st)%nat.
Proof.
  intros H1 H2. destruct (decide (st + k < logTailLineLimit)%nat) as [H|H]; [rewrite mod_limit by done; lia|].
  replace ((st + k) mod logTailLineLimit)%nat with (st + k - logTailLineLimit)%nat; [lia|].
  symmetry. replace (st + k)%nat with (st + k - logTailLineLimit + 1 * logTailLineLimit)%nat at 1 by lia.
  rewrite Nat.Div0.mod_add. apply mod_limit. lia.
Qed.

Lemma limit_pos : (0 < logTailLineLimit)%nat.
Proof. apply Nat.lt_0_succ. Qed.

#[local] Opaque Nat.modulo logTailLineLimit.

(** Committing a line appends it to the ring and drops the oldest of too many. *)
Lemma commit_ring t : ring_ok t ->
  ring_ok (commitPartial t) /\
  shownLines (commitPartial t) = lastn logTailLineLimit (shownLines t ++ [shown t]).
Proof.
  intros (Hl & Hst & Hc & H0). unfold commitPartial, shownLines, ring_ok.
  destruct (Nat.eqb_spec (count t) logTailLineLimit) as [Hfull|Hroom]; cbn [lines partial start count].
  - split.
    { rewrite length_insert. split; [done|]. split; [apply Nat.mod_upper_bound; lia|]. split; [lia|]. lia. }
    unfold lastn. rewrite length_app, ring_length. simpl length.
    replace (count t + 1 - logTailLineLimit)%nat with 1%nat by lia. apply list_eq. intros k.
    destruct (decide (k < logTailLineLimit)%nat) as [Hk|Hk].
    2: { rewrite !lookup_ge_None_2; [done| |rewrite ring_length; lia].
         rewrite length_drop, length_app, ring_length. simpl. lia. }
    rewrite ring_lookup by lia. rewrite lookup_drop, mod_next by lia. simpl.
    destruct (decide (S k = logTailLineLimit)) as [Heq|Hne].
    + rewrite Heq. replace ((start t + logTailLineLimit) mod logTailLineLimit)%nat with (start t).
      2: { replace (start t + logTailLineLimit)%nat with (start t + 1 * logTailLineLimit)%nat by lia.
           rewrite Nat.Div0.mod_add. by rewrite mod_limit. }
      rewrite list_lookup_insert_eq by lia. rewrite lookup_app_r; rewrite ring_length; [|lia].
      by replace (logTailLineLimit - count t)%nat with 0%nat by lia.
    + rewrite list_lookup_insert_ne by (intros Heq; symmetry in Heq; by apply mod_other in Heq; lia).
      rewrite lookup_app_l by (rewrite ring_length; lia). by rewrite ring_lookup by lia.
  - rewrite H0 by lia. split.
    { rewrite length_insert. split; [done|]. split; [lia|]. split; lia. }
    unfold lastn. rewrite length_app, ring_length. simpl length.
    replace (count t + 1 - logTailLineLimit)%nat with 0%nat by lia. rewrite drop_0. apply list_eq. intros k.
    destruct (decide (k < count t)%nat) as [Hk|Hk].
    + rewrite ring_lookup by lia. rewrite lookup_app_l by (rewrite ring_length; lia). rewrite ring_lookup by lia.
      rewrite !mod_limit by lia. by rewrite list_lookup_insert_ne by lia.
    + destruct (decide (k = count t)) as [->|Hne].
      * rewrite ring_lookup by lia. rewrite lookup_app_r; rewrite ring_length; [|lia]. rewrite Nat.sub_diag.
        rewrite !mod_limit by lia. by rewrite list_lookup_insert_eq by lia.
      * rewrite !lookup_ge_None_2; [done| |]; rewrite ?length_app, ?ring_length; simpl; lia.
Qed.

Lemma append_ring t data : ring_ok t -> ring_ok (appendPartial data t) /\ shownLines (appendPartial data t) = shownLines t.
Proof.
  unfold appendPartial. destruct (_ <=? _)%Z; [by destruct (truncated t)|]. by destruct (_ <? _)%Z.
Qed.

Lemma lastn_lastn {A} n (l : list A) x : (0 < n)%nat -> lastn n (lastn n l ++ [x]) = lastn n (l ++ [x]).
Proof.
  intros Hn. unfold lastn. rewrite !length_app, length_drop. simpl.
  destruct (decide (length l <= n)%nat) as [H|H].
  - replace (length l - n)%nat with 0%nat by lia. rewrite drop_0, Nat.sub_0_r. done.
  - rewrite (drop_app_le l) by lia. rewrite (drop_app_le (drop _ l)) by (rewrite length_drop; lia).
    rewrite drop_drop. f_equal. f_equal. lia.
Qed.

(** ** The stream *)

(** A chunk as lines: [cur] is the unfinished line before it; what is finished
    and what remains after it.  CR LF, CR and LF end a line. *)
Fixpoint feed (data cur : string) : list string * string :=
  match data with
  | "" => ([], cur)
  | String c rest =>
      if Ascii.eqb c lf then let '(ls, r) := feed rest "" in (cur :: ls, r)
      else if Ascii.eqb c cr then
        match rest with
        | String d rest' =>
            if Ascii.eqb d lf then let '(ls, r) := feed rest' "" in (cur :: ls, r)
            else let '(ls, r) := feed rest "" in (cur :: ls, r)
        | "" => ([cur], "")
        end
      else feed rest (cur +:+ String c "")
  end.

Fixpoint feeds (chunks : list string) (cur : string) : list string * string :=
  match chunks with
  | [] => ([], cur)
  | data :: chunks =>
      let '(ls, r) := feed data cur in let '(ls', r') := feeds chunks r in (ls ++ ls', r')
  end.

(** [line] is [raw] as the tail shows it: its first 4 KiB without control
    characters, and an ellipsis for what is missing; a line of exactly 4 KiB
    may have one too. *)
Definition cut_ok (raw : string) (cut : bool) : Prop :=
  ((logTailByteLimit < String.length raw)%nat -> cut = true) /\ (cut = true -> (logTailByteLimit <= String.length raw)%nat).

Definition renders (raw line : string) : Prop :=
  exists cut, cut_ok raw cut /\
    line = sanitizeLogLine (str_take logTailByteLimit raw) +:+ (if cut : bool then ellipsis else "").

(** The tail [t] stands for the finished lines [all] and the unfinished [cur]. *)
Definition tails (t : logTail) (all : list string) (cur : string) : Prop :=
  ring_ok t /\ partial t = str_take logTailByteLimit cur /\ cut_ok cur (truncated t) /\
  exists shown_all, Forall2 renders all shown_all /\ shownLines t = lastn logTailLineLimit shown_all.

Lemma str_take_append_le n s t : (n <= String.length s)%nat -> str_take n (s +:+ t) = str_take n s.
Proof.
  revert s. induction n as [|n IH]; intros [|c s] H; cbn in H; try lia; [by destruct t|done|].
  rewrite str_append_cons. cbn [str_take]. rewrite IH by lia. done.
Qed.

Lemma str_take_append_ge n s t : (String.length s <= n)%nat ->
  str_take n (s +:+ t) = s +:+ str_take (n - String.length s) t.
Proof.
  revert n. induction s as [|c s IH]; intros n H; [by rewrite !str_append_nil_l, Nat.sub_0_r|].
  destruct n as [|n]; cbn in H; [lia|]. rewrite !str_append_cons. cbn [str_take String.length]. rewrite IH by lia. done.
Qed.

#[local] Opaque logTailByteLimit.

Lemma append_tails t all cur data : tails t all cur -> tails (appendPartial data t) all (cur +:+ data).
Proof.
  intros (Hr & Hp & [Hc1 Hc2] & Hall). destruct (append_ring t data Hr) as [Hr' Hs'].
  split; [done|]. rewrite Hs'. split; [|split; [|done]]; clear Hr' Hs' Hall Hr; unfold appendPartial;
    pose proof (str_length_take logTailByteLimit cur) as Hlen; rewrite <- Hp in Hlen;
    destruct (Z.leb_spec (Z.of_nat logTailByteLimit - Z.of_nat (String.length (partial t))) 0) as [Hle|Hgt].
  - rewrite str_take_append_le by lia. by destruct (truncated t).
  - assert (partial t = cur) as Hcur by (rewrite Hp; apply str_take_ge; lia). rewrite Hcur in *.
    destruct (Z.ltb_spec (Z.of_nat logTailByteLimit - Z.of_nat (String.length cur)) (Z.of_nat (String.length data))) as [Hlt|Hge];
      cbn [partial]; rewrite str_take_append_ge by lia.
    + f_equal. f_equal. lia.
    + rewrite (str_take_ge _ data) by lia. done.
  - unfold cut_ok. rewrite str_length_append. destruct (truncated t) eqn:Ht; [rewrite Ht|]; cbn [truncated]; split; intros; try done; lia.
  - assert (partial t = cur) as Hcur by (rewrite Hp; apply str_take_ge; lia). rewrite Hcur in *.
    unfold cut_ok. rewrite str_length_append.
    destruct (Z.ltb_spec (Z.of_nat logTailByteLimit - Z.of_nat (String.length cur)) (Z.of_nat (String.length data))) as [Hlt|Hge];
      cbn [truncated]; split; intros H; try done; try lia. specialize (Hc2 H). lia.
Qed.

Lemma commit_tails t all cur : tails t all cur -> tails (commitPartial t) (all ++ [cur]) "".
Proof.
  intros (Hr & Hp & Hc & shown_all & HF & Hs). destruct (commit_ring t Hr) as [Hr' Hs'].
  split; [done|]. split; [|split].
  - unfold commitPartial. destruct (_ =? _)%nat; cbn [partial]; by rewrite str_take_ge by (cbn; lia).
  - unfold commitPartial, cut_ok. destruct (_ =? _)%nat; cbn [truncated String.length]; (split; [lia|done]).
  - exists (shown_all ++ [shown t]). split.
    + apply Forall2_app; [done|]. constructor; [|constructor]. exists (truncated t). split; [done|].
      unfold shown. by rewrite Hp.
    + rewrite Hs', Hs. apply lastn_lastn, limit_pos.
Qed.

(** *** Writing is feeding *)

Lemma feed_plain data cur : IndexAny data (String cr (String lf "")) = None -> feed data cur = ([], cur +:+ data).
Proof.
  revert cur. induction data as [|c data IH]; intros cur H; [by rewrite str_append_nil_r|].
  cbn [IndexAny str_elem] in H. cbn [feed].
  destruct (Ascii.eqb c cr) eqn:Hcr; [done|]. destruct (Ascii.eqb c lf) eqn:Hlf; [done|]. simpl in H.
  destruct (IndexAny data (String cr (String lf ""))) eqn:Hi; [done|]. rewrite IH by done.
  by rewrite str_append_assoc, str_append_cons, str_append_nil_l.
Qed.

(** What [write] leaves of the data after the separator at [i] *)
Definition after_separator (i : nat) (data : string) : string :=
  match String.get i data, str_drop (S i) data with
  | Some c, String d rest' => if Ascii.eqb c cr && Ascii.eqb d lf then rest' else str_drop (S i) data
  | _, _ => str_drop (S i) data
  end.

Lemma feed_separator data cur i : IndexAny data (String cr (String lf "")) = Some i ->
  feed data cur = (let '(ls, r) := feed (after_separator i data) "" in ((cur +:+ str_take i data) :: ls, r)) /\
  (String.length (after_separator i data) < String.length data)%nat.
Proof.
  revert cur i. induction data as [|c data IH]; intros cur i H; [done|].
  cbn [IndexAny str_elem] in H.
  destruct (Ascii.eqb c cr) eqn:Hcr; [|destruct (Ascii.eqb c lf) eqn:Hlf]; simpl in H.
  - injection H as <-. unfold after_separator. cbn [str_take str_drop String.get]. rewrite str_append_nil_r.
    apply Ascii.eqb_eq in Hcr as ->. cbn [feed]. change (Ascii.eqb cr lf) with false. change (Ascii.eqb cr cr) with true. cbv iota.
    destruct data as [|d data]; [by cbn; split; [|lia]|]. cbn [andb str_drop].
    destruct (Ascii.eqb d lf); cbn [String.length]; split; try done; lia.
  - injection H as <-. unfold after_separator. cbn [str_take str_drop String.get]. rewrite str_append_nil_r.
    apply Ascii.eqb_eq in Hlf as ->. cbn [feed]. change (Ascii.eqb lf lf) with true. change (Ascii.eqb lf cr) with false. cbv iota.
    destruct data as [|d data]; cbn [andb str_drop String.length]; split; try done; lia.
  - destruct (IndexAny data (String cr (String lf ""))) as [j|] eqn:Hj; [|done]. simpl in H. injection H as <-.
    destruct (IH (cur +:+ String c "") j eq_refl) as [Hf Hlen].
    change (after_separator (S j) (String c data)) with (after_separator j data).
    cbn [feed str_take String.length]. rewrite Hlf, Hcr. split; [|lia]. rewrite Hf.
    destruct (feed (after_separator j data) "") as [ls r]. by rewrite str_append_assoc, str_append_cons, str_append_nil_l.
Qed.

Lemma write_tails fuel data t all cur ls r : (String.length data < fuel)%nat -> tails t all cur ->
  feed data cur = (ls, r) -> tails (write fuel data t) (all ++ ls) r.
Proof.
  revert data t all cur ls r. induction fuel as [|fuel IH]; intros data t all cur ls r Hf Ht Hfeed; [lia|].
  cbn [write]. destruct (String.eqb_spec data "") as [->|Hne].
  { injection Hfeed as <- <-. by rewrite app_nil_r. }
  destruct (IndexAny data (String cr (String lf ""))) as [i|] eqn:Hi.
  - destruct (feed_separator data cur i Hi) as [Hs Hlen]. rewrite Hs in Hfeed.
    destruct (feed (after_separator i data) "") as [ls' r'] eqn:Hrest. injection Hfeed as <- <-.
    replace (all ++ (cur +:+ str_take i data) :: ls') with ((all ++ [cur +:+ str_take i data]) ++ ls') by (by rewrite <- app_assoc).
    change (match String.get i data with Some c => _ | None => _ end) with (after_separator i data).
    eapply (IH (after_separator i data)); [lia| |exact Hrest]. by apply commit_tails, append_tails.
  - rewrite (feed_plain data cur Hi) in Hfeed. injection Hfeed as <- <-. rewrite app_nil_r. by apply append_tails.
Qed.

Lemma Write_tails data t all cur ls r : tails t all cur -> feed data cur = (ls, r) -> tails (Write data t) (all ++ ls) r.
Proof. apply write_tails. lia. Qed.

Definition writes (chunks : list string) (t : logTail) : logTail := fold_left (fun t data => Write data t) chunks t.

Lemma writes_tails chunks t all cur ls r : tails t all cur -> feeds chunks cur = (ls, r) ->
  tails (writes chunks t) (all ++ ls) r.
Proof.
  revert t all cur ls r. induction chunks as [|data chunks IH]; intros t all cur ls r Ht Hfeed.
  { injection Hfeed as <- <-. by rewrite app_nil_r. }
  cbn [feeds] in Hfeed. destruct (feed data cur) as [ls1 r1] eqn:H1. destruct (feeds chunks r1) as [ls2 r2] eqn:H2.
  injection Hfeed as <- <-. rewrite app_assoc. cbn [writes fold_left]. eapply IH; [|exact H2]. by eapply Write_tails.
Qed.

Lemma new_tails : tails newLogTail [] "".
Proof.
  split; [|split; [|split]].
  - unfold ring_ok, newLogTail. cbn [lines start count]. rewrite length_replicate. split; [done|]. split; [apply limit_pos|].
    split; [lia|done].
  - cbn. symmetry. apply str_take_ge. cbn. lia.
  - split; cbn; [lia|done].
  - exists []. split; [constructor|]. done.
Qed.

(** ** Chunk boundaries *)

Definition splits_crlf (a b : string) : Prop := (exists a', a = a' +:+ String cr "") /\ exists b', b = String lf b'.

Lemma feed_append a b cur : ~ splits_crlf a b ->
  feed (a +:+ b) cur = (let '(ls, r) := feed a cur in let '(ls', r') := feed b r in (ls ++ ls', r')).
Proof.
  revert cur. induction a as [a IH] using (induction_ltof1 _ String.length). unfold ltof in IH. intros cur Hno.
  destruct a as [|c a]; [rewrite str_append_nil_l; cbn; by destruct (feed b cur)|].
  assert (forall a1, (exists h, String c a = h +:+ a1) -> ~ splits_crlf a1 b) as Hsub.
  { intros a1 [h Hh] [[a' ->] Hb]. apply Hno. split; [|done]. exists (h +:+ a'). by rewrite Hh, str_append_assoc. }
  rewrite str_append_cons. cbn [feed]. destruct (Ascii.eqb c lf) eqn:Hlf.
  - rewrite IH; [|cbn; lia|apply Hsub; by exists (String c "")].
    destruct (feed a "") as [ls r]. by destruct (feed b r).
  - destruct (Ascii.eqb c cr) eqn:Hcr.
    + apply Ascii.eqb_eq in Hcr as ->. destruct a as [|d a].
      * rewrite str_append_nil_l. destruct b as [|d b]; [done|].
        destruct (Ascii.eqb d lf) eqn:Hd; [|by destruct (feed (String d b) "")].
        apply Ascii.eqb_eq in Hd as ->. exfalso. apply Hno. split; [by exists ""|by exists b].
      * rewrite str_append_cons. destruct (Ascii.eqb d lf).
        -- rewrite IH; [|cbn; lia|apply Hsub; by exists (String cr (String d ""))].
           destruct (feed a "") as [ls r]. by destruct (feed b r).
        -- rewrite <- str_append_cons. rewrite IH; [|cbn; lia|apply Hsub; by exists (String cr "")].
           destruct (feed (String d a) "") as [ls r]. by destruct (feed b r).
    + apply IH; [cbn; lia|apply Hsub; by exists (String c "")].
Qed.

Lemma dropControl_ok r r' : dropControl r = Some r' -> IsControl r' = false.
Proof.
  unfold dropControl. destruct (r =? tab)%N; [by intros [= <-]|]. destruct (IsControl r) eqn:Hc; [done|]. by intros [= <-].
Qed.

Lemma Forall_omap_ {A B} (f : A -> option B) (P : B -> Prop) l :
  (forall a b, f a = Some b -> P b) -> Forall P (omap f l).
Proof.
  intros H. induction l as [|a l IH]; [constructor|]. simpl. destruct (f a) eqn:Hf; [|done]. constructor; eauto.
Qed.

(** The log tail of the dashboard refines the stream it is fed: after any
    writes of any sizes, the ring holds, in order and without gaps, the last
    128 lines of the stream, every one cut to its first 4 KiB with an ellipsis
    for what is missing, and the partial line is the unfinished rest. *)
Theorem tail_refines_stream chunks :
  tails (writes chunks newLogTail) (feeds chunks "").1 (feeds chunks "").2.
Proof.
  destruct (feeds chunks "") as [ls r] eqn:H. apply (writes_tails chunks newLogTail [] "" ls r); [apply new_tails|done].
Qed.

(** No control character reaches the terminal through the log view:
    whatever bytes a subprocess writes and whatever the escape stripper leaves,
    a sanitized line has no rune of the category Cc. *)
Theorem sanitized_no_control line : Forall (fun d => IsControl d.1 = false) (runes (sanitizeLogLine line)).
Proof.
  unfold sanitizeLogLine. generalize (if bool_decide (is_Some (IndexByte line "027")) then Strip line else line) as l.
  intros l. cbv zeta. destruct (existsb (fun d => IsControl d.1) (runes l)) eqn:He.
  - assert (Forall (fun r => IsControl r = false) (runes (Map dropControl l)).*1) as HF.
    { rewrite runes_Map.
      - apply Forall_omap_. intros d r' Hd. by eapply dropControl_ok.
      - intros r r'. unfold dropControl. destruct (r =? tab)%N; [by intros [= <-]|]. destruct (IsControl r); [done|]. by intros [= <-]. }
    by rewrite Forall_fmap in HF.
  - apply Forall_forall. intros d Hd. destruct (IsControl d.1) eqn:Hc; [|done]. exfalso.
    rewrite <- not_true_iff_false in He. apply He. apply existsb_exists. exists d. split; [by apply list_elem_of_In|done].
Qed.

(** The lines do not depend on how the stream is cut into writes, except
    inside CR LF: two writes feed the same lines as one of their
    concatenation unless the first ends in CR and the second starts with LF. *)
Theorem feed_chunks a b cur : ~ splits_crlf a b -> feeds [a; b] cur = feed (a +:+ b) cur.
Proof.
  intros H. rewrite feed_append by done. cbn [feeds]. destruct (feed a cur) as [ls r]. destruct (feed b r) as [ls' r'].
  by rewrite app_nil_r.
Qed.

Lemma feed_chunks_witness : feeds ["one" +:+ String lf "tw"; "o" +:+ String cr "" ] "" = (["one"; "two"], "").
Proof.
  rewrite (feed_chunks ("one" +:+ String lf "tw") ("o" +:+ String cr "") ""); [reflexivity|].
  intros [[a' _] [b' Hb]]. discriminate Hb.
Defined.
End Tail.

(** Inside CR LF, and at exactly 4 KiB, they do: a CR LF cut by two writes
    leaves a blank line that one write does not, and a line of exactly 4 KiB
    whose newline comes in the next write is marked as cut although nothing is
    missing. *)
Theorem chunk_boundary_artifacts :
  let show chunks := shownLines (writes (fun s => s) chunks newLogTail) in
  let full := String.string_of_list_ascii (replicate logTailByteLimit "x"%char) in
  show ["a" +:+ String cr ""; String lf "b"] = ["a"; ""] /\
  show ["a" +:+ String cr (String lf "b")] = ["a"] /\
  show [full; String lf ""] = [full +:+ ellipsis] /\
  show [full +:+ String lf ""] = [full].
Proof. cbv zeta. split_and!; vm_compute; reflexivity. Qed.
End Tail.
