(* ===== verification/Progress.v ===== *)
(** The progress events of [cli/progress/progress.go] and the display names of
    [cli/tui/spec.go]. *)
From stdpp Require Import prelude gmap strings list.
From Stdlib Require Import Ascii ZArith Lia.
From S2P Require Import Prelude GoStrings Utf8.

Module Progress.
Import Utf8.

(** [type Phase string] *)
Definition Preflight : string := "preflight".
Definition Credentials : string := "credentials".
Definition Infrastructure : string := "infrastructure".
Definition Orchestration : string := "orchestration".
Definition Platform : string := "platform".
Definition Updates : string := "updates".

Inductive State := Pending | Running | Complete | Failed.
#[export] Instance State_eq_dec : EqDecision State.
Proof. solve_decision. Defined.

(** Counters are [int] and [int64]; a [time.Time] is a [Z], zero the zero
    time. *)
Record Event := {
  Phase : string;
  ID : string;
  Label : string;
  Detail : string;
  EState : State;
  Restart : bool;
  ECurrent : Z;
  Total : Z;
  BytesCurrent : Z;
  BytesTotal : Z;
  Time : Z
}.

Record Target := { TPhase : string; TID : string; TLabel : string }.

Definition event (phase id label detail : string) (state : State) : Event :=
  {| Phase := phase; ID := id; Label := label; Detail := detail; EState := state; Restart := false;
     ECurrent := 0; Total := 0; BytesCurrent := 0; BytesTotal := 0; Time := 0 |}.

Definition Start (phase id label detail : string) : Event :=
  {| Phase := phase; ID := id; Label := label; Detail := detail; EState := Running; Restart := true;
     ECurrent := 0; Total := 0; BytesCurrent := 0; BytesTotal := 0; Time := 0 |}.

Definition UpdateBytes (phase id label detail : string) (current total bytesCurrent bytesTotal : Z) : Event :=
  {| Phase := phase; ID := id; Label := label; Detail := detail; EState := Running; Restart := false;
     ECurrent := current; Total := total; BytesCurrent := bytesCurrent; BytesTotal := bytesTotal; Time := 0 |}.

Definition Update (phase id label detail : string) (current total : Z) : Event :=
  UpdateBytes phase id label detail current total 0 0.

Definition Done (phase id label detail : string) : Event := event phase id label detail Complete.

(** [err] is the text of a non-nil error. *)
Definition Fail (phase id label : string) (err : option string) : Event :=
  event phase id label (default "failed" err) Failed.

Definition Finish (phase : string) (state : State) (detail : string) : Event :=
  event phase "*" "" detail state.

(** [Report]: a zero time becomes the current one. *)
Definition stamp (now : Z) (e : Event) : Event :=
  if (Time e =? 0)%Z
  then {| Phase := Phase e; ID := ID e; Label := Label e; Detail := Detail e; EState := EState e; Restart := Restart e;
          ECurrent := ECurrent e; Total := Total e; BytesCurrent := BytesCurrent e; BytesTotal := BytesTotal e; Time := now |}
  else e.

(** ** Letter case

    The tables of [unicode.ToLower] and [unicode.ToUpper] beyond ASCII are not
    written out. *)
Class UnicodeCase := {
  ToLowerRune : N -> N;
  ToUpperRune : N -> N;
  lower_ascii r : (r < 128)%N -> ToLowerRune r = (if within 65 90 r then r + 32 else r)%N;
  upper_ascii r : (r < 128)%N -> ToUpperRune r = (if within 97 122 r then r - 32 else r)%N
}.

Section Case.
Context `{UC : UnicodeCase}.

Definition isASCII (s : string) : bool := str_forallb (fun c => (byte_of c <? 128)%N) s.

(** [strings.ToLower]: bytes for ASCII text, else [Map(unicode.ToLower, s)] *)
Definition ToLower (s : string) : string :=
  if isASCII s then str_map to_lower_byte s else Map (fun r => Some (ToLowerRune r)) s.

(** ** [spec.go] *)

Definition displayNames : list (string * string) :=
  [("authservice", "Authservice"); ("cert-manager", "cert-manager");
   ("buildx", "Docker Buildx"); ("docker", "Docker Engine");
   ("fluent-bit", "Fluent Bit"); ("forgejo", "Forgejo"); ("gitlab", "GitLab");
   ("grafana", "Grafana"); ("harbor", "Big Bang Harbor"); ("headlamp", "Headlamp"); ("istio-crds", "Istio CRDs");
   ("istio-gateway", "Istio gateways"); ("istiod", "Istiod"); ("keycloak", "Keycloak");
   ("kiali", "Kiali"); ("kube-vip", "kube-vip"); ("kube-vip-cloud-provider", "kube-vip cloud provider");
   ("kyverno", "Kyverno"); ("kyverno-policies", "Kyverno policies");
   ("kyverno-reporter", "Kyverno reporter"); ("local-path-provisioner", "Local-path storage");
   ("local-certificates", "Local certificates"); ("local-dns", "Local DNS");
   ("monitoring", "Monitoring"); ("openssh", "OpenSSH client"); ("opensearch", "OpenSearch");
   ("opensearch-dashboards", "OpenSearch Dashboards");
   ("platform-profile-access", "Platform profile access"); ("platform-profile-prep", "Platform profile prerequisites");
   ("prometheus-operator-crds", "Prometheus operator CRDs"); ("python", "Python");
   ("systemd-resolved", "systemd-resolved"); ("terraform-cli", "Terraform CLI");
   ("tempo", "Tempo"); ("vault", "Vault"); ("velero", "Velero"); ("virsh", "virsh")].

(** [strings.FieldsFunc] on the three separators; they are single bytes, so
    the bytes of the other runes never match. *)
Fixpoint words (s acc : string) : list string :=
  let flush := if String.eqb acc "" then [] else [str_rev acc] in
  match s with
  | "" => flush
  | String c s => if str_elem c "-_." then flush ++ words s "" else words s (String c acc)
  end.

Definition capitalize (word : string) : string :=
  match (runes word).*1 with
  | [] => word
  | r :: rs => encode (ToUpperRune r :: rs)
  end.

Definition displayName (id : string) : string :=
  match List.find (fun kv => String.eqb kv.1 id) displayNames with
  | Some kv => kv.2
  | None => Join (capitalize <$> words id "") " "
  end.
End Case.
End Progress.
