(* ===== verification/Dashboard.v ===== *)
(** The dashboard model of [cli/tui/model.go]: phases with their rows, the
    messages that change them and the layout of the log and phase views.  A
    phase is shared by [phases] and [byPhase] in the code; here [byPhase] holds
    its position in [phases].  [None] is a nil dereference. *)
From stdpp Require Import prelude gmap strings list.
From Stdlib Require Import Ascii ZArith Lia.
From S2P Require Import Prelude GoStrings Utf8 Progress Tail.

Module Dashboard.
Import Utf8 Progress.

Record itemModel := {
  iid : string; ilabel : string; idetail : string; istate : State;
  icurrent : Z; itotal : Z; ibytesCurrent : Z; ibytesTotal : Z; iupdated : Z
}.

Record phaseModel := {
  pid : string; plabel : string; visible : bool; order : list string; items : gmap string itemModel
}.

Record itemSpec := { spec_id : string; spec_label : string }.
Record phaseSpec := { phase_id : string; phase_label : string; phase_items : list itemSpec }.

(** [queuedProgress]; the sequence is [uint64] *)
Record queuedProgress := { sequence : Z; qevent : Event }.

Section Dashboard.
Context `{UC : UnicodeCase}.
(** [completion.go]: what is shown after success *)
Context (Completion : Type) (Valid : Completion -> bool).

Record model := {
  title : string; logPath : string;
  phases : list phaseModel; byPhase : gmap string nat;
  mstart : Z; width : Z; height : Z; frame : Z;
  ticking : bool; finished : bool; canceled : bool; showLogs : bool;
  logs : Tail.logSnapshotMsg;
  lastItem : string; lastAt : Z;
  merr : option string;
  completion : option Completion;
  (** calls of [cancel] so far *)
  cancels : nat
}.

Definition set_phases (ps : list phaseModel) (m : model) : model :=
  {| title := title m; logPath := logPath m; phases := ps; byPhase := byPhase m; mstart := mstart m; width := width m;
     height := height m; frame := frame m; ticking := ticking m; finished := finished m; canceled := canceled m;
     showLogs := showLogs m; logs := logs m; lastItem := lastItem m; lastAt := lastAt m; merr := merr m;
     completion := completion m; cancels := cancels m |}.
Definition set_ticking (t : bool) (m : model) : model :=
  {| title := title m; logPath := logPath m; phases := phases m; byPhase := byPhase m; mstart := mstart m; width := width m;
     height := height m; frame := frame m; ticking := t; finished := finished m; canceled := canceled m;
     showLogs := showLogs m; logs := logs m; lastItem := lastItem m; lastAt := lastAt m; merr := merr m;
     completion := completion m; cancels := cancels m |}.

Definition newItem (spec : itemSpec) : itemModel :=
  {| iid := spec_id spec; ilabel := spec_label spec; idetail := ""; istate := Pending; icurrent := 0; itotal := 0;
     ibytesCurrent := 0; ibytesTotal := 0; iupdated := 0 |}.

Definition newPhase (spec : phaseSpec) : phaseModel :=
  {| pid := phase_id spec; plabel := phase_label spec; visible := false;
     order := spec_id <$> phase_items spec;
     items := fold_left (fun m i => <[spec_id i := newItem i]> m) (phase_items spec) ∅ |}.

Definition noLogs : Tail.logSnapshotMsg :=
  {| Tail.s_lines := replicate Tail.logTailLineLimit ""; Tail.s_start := 0; Tail.s_count := 0; Tail.s_partial := "" |}.

Definition newModel (title logPath : string) (specs : list phaseSpec) (now : Z) : model :=
  let ps := newPhase <$> specs in
  {| title := title; logPath := logPath; phases := ps;
     byPhase := fold_left (fun m ip => <[pid ip.2 := ip.1]> m) (zip (seq 0 (length ps)) ps) ∅;
     mstart := now; width := 100; height := 24; frame := 0; ticking := false; finished := false; canceled := false;
     showLogs := false; logs := noLogs; lastItem := ""; lastAt := 0; merr := None; completion := None; cancels := 0 |}.

(** ** [apply] *)

Definition terminal (s : State) : bool := match s with Complete | Failed => true | _ => false end.

(** A phase-wide event *)
Definition sweepItem (e : Event) (item : itemModel) : itemModel :=
  if terminal (istate item) then item
  else {| iid := iid item; ilabel := ilabel item;
          idetail := if String.eqb (Detail e) "" then idetail item else Detail e;
          istate := EState e; icurrent := icurrent item; itotal := itotal item; ibytesCurrent := ibytesCurrent item;
          ibytesTotal := ibytesTotal item; iupdated := iupdated item |}.

Fixpoint sweep (f : itemModel -> itemModel) (ids : list string) (its : gmap string itemModel) : option (gmap string itemModel) :=
  match ids with
  | [] => Some its
  | id :: ids => item ← its !! id; sweep f ids (<[id := f item]> its)
  end.

(** An event of one row *)
Definition updateItem (e : Event) (item : itemModel) : itemModel :=
  let label := if String.eqb (Label e) "" then ilabel item else Label e in
  if terminal (istate item) && bool_decide (EState e = Running) && negb (Restart e)
  then {| iid := iid item; ilabel := label; idetail := idetail item; istate := istate item; icurrent := icurrent item;
          itotal := itotal item; ibytesCurrent := ibytesCurrent item; ibytesTotal := ibytesTotal item; iupdated := iupdated item |}
  else {| iid := iid item; ilabel := label; idetail := Detail e; istate := EState e; icurrent := ECurrent e;
          itotal := Total e; ibytesCurrent := BytesCurrent e; ibytesTotal := BytesTotal e; iupdated := Time e |}.

Definition freshItem (e : Event) : itemModel :=
  {| iid := ID e; ilabel := if String.eqb (Label e) "" then displayName (ID e) else Label e; idetail := ""; istate := Pending;
     icurrent := 0; itotal := 0; ibytesCurrent := 0; ibytesTotal := 0; iupdated := 0 |}.

Definition applyPhase (e : Event) (phase : phaseModel) : option phaseModel :=
  if String.eqb (ID e) "*" then
    its ← sweep (sweepItem e) (order phase) (items phase);
    Some {| pid := pid phase; plabel := plabel phase; visible := true; order := order phase; items := its |}
  else
    let '(item, order') :=
      match items phase !! ID e with
      | Some item => (item, order phase)
      | None => (freshItem e, order phase ++ [ID e])
      end in
    Some {| pid := pid phase; plabel := plabel phase; visible := true; order := order';
            items := <[ID e := updateItem e item]> (items phase) |}.

Definition apply (now : Z) (e : Event) (m : model) : option model :=
  let '(ps, table, index) :=
    match byPhase m !! Phase e with
    | Some i => (phases m, byPhase m, i)
    | None =>
        (phases m ++ [{| pid := Phase e; plabel := displayName (Phase e); visible := false; order := []; items := ∅ |}],
         <[Phase e := length (phases m)]> (byPhase m), length (phases m))
    end in
  phase ← ps !! index;
  phase' ← applyPhase e phase;
  Some {| title := title m; logPath := logPath m; phases := <[index := phase']> ps; byPhase := table; mstart := mstart m;
          width := width m; height := height m; frame := frame m; ticking := ticking m; finished := finished m;
          canceled := canceled m; showLogs := showLogs m; logs := logs m;
          lastItem := if negb (String.eqb (Label e) "") then Label e
                      else if String.eqb (ID e) "*" then plabel phase else displayName (ID e);
          lastAt := if (Time e =? 0)%Z then now else Time e;
          merr := merr m; completion := completion m; cancels := cancels m |}.

(** ** [Update] *)

Inductive Cmd := CmdNone | CmdTick | CmdQuit.

Inductive Msg :=
  | WindowSizeMsg (w h : Z)
  | KeyMsg (key : string)
  | EventMsg (e : Event)
  | progressBatchMsg (batch : list queuedProgress)
  | LogMsg (s : Tail.logSnapshotMsg)
  | tickMsg
  | finishMsg (c : option Completion) (err : option string)
  | OtherMsg.

Definition Init (m : model) : model * Cmd := (set_ticking true m, CmdTick).

(** Start ticking again when something runs *)
Definition wake (running : bool) (m : model) : model * Cmd :=
  if running && negb (ticking m) then (set_ticking true m, CmdTick) else (m, CmdNone).

Fixpoint applyBatch (now : Z) (batch : list queuedProgress) (m : model) : option model :=
  match batch with
  | [] => Some m
  | q :: batch => m ← apply now (qevent q) m; applyBatch now batch m
  end.

Definition finishItem (err : option string) (item : itemModel) : itemModel :=
  if bool_decide (istate item = Running)
  then {| iid := iid item; ilabel := ilabel item;
          idetail := match err with None => idetail item | Some e => e end;
          istate := match err with None => Complete | Some _ => Failed end;
          icurrent := icurrent item; itotal := itotal item; ibytesCurrent := ibytesCurrent item;
          ibytesTotal := ibytesTotal item; iupdated := iupdated item |}
  else item.

Definition finishPhase (err : option string) (phase : phaseModel) : option phaseModel :=
  its ← sweep (finishItem err) (order phase) (items phase);
  Some {| pid := pid phase; plabel := plabel phase; visible := visible phase; order := order phase; items := its |}.

Definition updateModel (now : Z) (message : Msg) (m : model) : option (model * Cmd) :=
  match message with
  | WindowSizeMsg w h =>
      Some ({| title := title m; logPath := logPath m; phases := phases m; byPhase := byPhase m; mstart := mstart m;
               width := Z.max w 40; height := Z.max h 10; frame := frame m; ticking := ticking m; finished := finished m;
               canceled := canceled m; showLogs := showLogs m; logs := logs m; lastItem := lastItem m; lastAt := lastAt m;
               merr := merr m; completion := completion m; cancels := cancels m |}, CmdNone)
  | KeyMsg key =>
      if String.eqb key "l" then
        Some ({| title := title m; logPath := logPath m; phases := phases m; byPhase := byPhase m; mstart := mstart m;
                 width := width m; height := height m; frame := frame m; ticking := ticking m; finished := finished m;
                 canceled := canceled m; showLogs := negb (showLogs m); logs := logs m; lastItem := lastItem m;
                 lastAt := lastAt m; merr := merr m; completion := completion m; cancels := cancels m |}, CmdNone)
      else if String.eqb key "q" || String.eqb key "ctrl+c" then
        if finished m || canceled m then Some (m, CmdNone)
        else
          Some ({| title := title m; logPath := logPath m; phases := phases m; byPhase := byPhase m; mstart := mstart m;
                   width := width m; height := height m; frame := frame m; ticking := ticking m; finished := finished m;
                   canceled := true; showLogs := showLogs m; logs := logs m; lastItem := lastItem m; lastAt := lastAt m;
                   merr := merr m; completion := completion m; cancels := S (cancels m) |}, CmdQuit)
      else Some (m, CmdNone)
  | EventMsg e =>
      m ← apply now e m; Some (wake (bool_decide (EState e = Running)) m)
  | progressBatchMsg batch =>
      m ← applyBatch now batch m;
      Some (wake (existsb (fun q => bool_decide (EState (qevent q) = Running)) batch) m)
  | LogMsg s =>
      Some ({| title := title m; logPath := logPath m; phases := phases m; byPhase := byPhase m; mstart := mstart m;
               width := width m; height := height m; frame := frame m; ticking := ticking m; finished := finished m;
               canceled := canceled m; showLogs := showLogs m; logs := s; lastItem := lastItem m; lastAt := lastAt m;
               merr := merr m; completion := completion m; cancels := cancels m |}, CmdNone)
  | tickMsg =>
      let live := negb (finished m) && negb (canceled m) in
      Some ({| title := title m; logPath := logPath m; phases := phases m; byPhase := byPhase m; mstart := mstart m;
               width := width m; height := height m; frame := frame m + 1; ticking := live; finished := finished m;
               canceled := canceled m; showLogs := showLogs m; logs := logs m; lastItem := lastItem m; lastAt := lastAt m;
               merr := merr m; completion := completion m; cancels := cancels m |}, if live then CmdTick else CmdNone)
  | finishMsg c err =>
      ps ← mapM (finishPhase err) (phases m);
      Some ({| title := title m; logPath := logPath m; phases := ps; byPhase := byPhase m; mstart := mstart m;
               width := width m; height := height m; frame := frame m; ticking := ticking m; finished := true;
               canceled := canceled m; showLogs := showLogs m; logs := logs m; lastItem := lastItem m; lastAt := lastAt m;
               merr := err;
               completion := match err, c with
                             | None, Some c => if Valid c then Some c else completion m
                             | _, _ => completion m
                             end;
               cancels := cancels m |}, CmdQuit)
  | OtherMsg => Some (m, CmdNone)
  end.

(** [running]; a missing row is a nil dereference *)
Fixpoint anyRunning (ids : list string) (its : gmap string itemModel) : option bool :=
  match ids with
  | [] => Some false
  | id :: ids => item ← its !! id; if bool_decide (istate item = Running) then Some true else anyRunning ids its
  end.

Fixpoint runningPhases (ps : list phaseModel) : option bool :=
  match ps with
  | [] => Some false
  | p :: ps => r ← anyRunning (order p) (items p); if r : bool then Some true else runningPhases ps
  end.

Definition running (m : model) : option bool := if finished m then Some false else runningPhases (phases m).

(** ** Views *)

(** [lipgloss] styles and [ansi.Truncate] *)
Context (heading_ muted : string -> string) (Truncate : string -> Z -> string).

(** The lines of the log view, oldest first *)
Definition logWindow (height : Z) (l : Tail.logSnapshotMsg) : list string :=
  let available := (Z.of_nat (Tail.s_count l) + if String.eqb (Tail.s_partial l) "" then 0 else 1)%Z in
  let lineLimit := Z.min (Z.max (height - 7) 1) available in
  let first := (available - lineLimit)%Z in
  (fun k =>
     let offset := (Z.to_nat first + k)%nat in
     if (offset <? Tail.s_count l)%nat
     then default "" (Tail.s_lines l !! ((Tail.s_start l + offset) mod Tail.logTailLineLimit)%nat)
     else Tail.s_partial l) <$> seq 0 (Z.to_nat lineLimit).

Definition newline : string := String "010" "".

Definition renderLogs (m : model) (width : Z) : string :=
  match logWindow (height m) (logs m) with
  | [] => Join [heading_ "Streaming raw log"; muted "waiting for log output"] newline
  | ls => Join (heading_ "Streaming raw log" :: ((fun line => muted (Truncate line width)) <$> ls)) newline
  end.

(** The rows of a phase in columns: [renderPhase] *)
Definition columnCount (width : Z) (rows : nat) : nat :=
  if (112 <=? width)%Z && (9 <=? rows)%nat then 3
  else if (76 <=? width)%Z && (6 <=? rows)%nat then 2 else 1.

Definition columnWidth (width : Z) (columns : nat) : Z :=
  Z.max ((width - (Z.of_nat columns - 1) * 2) / Z.of_nat columns) 24.

Definition columnRows {A} (columns : nat) (rows : list A) : list (list A) :=
  let columnHeight := ((length rows + columns - 1) / columns)%nat in
  omap (fun column =>
          let start := (column * columnHeight)%nat in
          if (length rows <=? start)%nat then None
          else Some (take (Nat.min (start + columnHeight) (length rows) - start) (drop start rows)))
    (seq 0 columns).

Definition completeCount (phase : phaseModel) : option nat :=
  states ← mapM (fun id => istate <$> items phase !! id) (order phase);
  Some (length (List.filter (fun s => bool_decide (s = Complete)) states)).
End Dashboard.

(** ** [projectPhases] of [spec.go]

    Of the project it reads whether the target has local access and the
    identifiers of its charts and packages. *)
Record projectView := {
  localAccess : bool; bootstrapCharts : list string; packages : list string; charts : list string
}.

Definition ScopeInfrastructure : N := 1.
Definition ScopeOrchestration : N := 2.
Definition ScopePlatform : N := 4.
Definition ScopeUpdates : N := 8.
Definition ScopeAll : N := N.lor (N.lor ScopeInfrastructure ScopeOrchestration) ScopePlatform.
Definition inScope (scope bit : N) : bool := negb (N.land scope bit =? 0)%N.

Definition spec (id label : string) : itemSpec := {| spec_id := id; spec_label := label |}.

Definition updateItems : list itemSpec :=
  [spec "update-releases" "Upstream releases"; spec "update-render" "Candidate rendering";
   spec "kubespray-artifacts" "Kubespray artifacts"; spec "update-exact-render" "Exact applied rendering";
   spec "update-charts" "Chart packaging"; spec "update-packaged-render" "Packaged chart rendering";
   spec "update-images" "Image admission"; spec "update-state" "Declarative state"].

Definition platformItems : list itemSpec :=
  [spec "publication" "Publication inputs"; spec "seed-artifacts" "Seed artifacts";
   spec "compatibility-builds" "Compatibility builds"; spec "image-publication" "Image publication";
   spec "chart-publication" "Chart publication"; spec "harbor-publication" "Harbor publication";
   spec "forgejo" "Forgejo sources"; spec "flux" "Flux"; spec "prep" "Platform prerequisites";
   spec "platform-profile-prep" "Platform profile prerequisites"; spec "sources" "Internal sources";
   spec "images" "Runtime images"; spec "bigbang" "Big Bang";
   spec "platform-profile-access" "Platform profile access"].

Definition platformSeen : gset string := list_to_set
  ["publication"; "seed-artifacts"; "compatibility-builds"; "image-publication"; "chart-publication"; "harbor-publication";
   "forgejo"; "flux"; "prep"; "sources"; "images"; "bigbang"; "platform-profile-prep"; "platform-profile-access"].

Definition appendItem `{UC : UnicodeCase} (st : gset string * list itemSpec) (id : string) : gset string * list itemSpec :=
  if String.eqb id "" || bool_decide (id ∈ st.1) then st
  else ({[id]} ∪ st.1, st.2 ++ [spec id (displayName id)]).

Definition projectPhases `{UC : UnicodeCase} (p : projectView) (scope : N) : list phaseSpec :=
  if inScope scope ScopeUpdates
  then [{| phase_id := Updates; phase_label := "Updates"; phase_items := updateItems |}]
  else
    [{| phase_id := Preflight; phase_label := "Preflight"; phase_items := [] |};
     {| phase_id := Credentials; phase_label := "Credentials"; phase_items := [spec "secrets" "Platform secrets"] |}]
    ++ (if inScope scope ScopeInfrastructure then
          [{| phase_id := Infrastructure; phase_label := "Infrastructure";
              phase_items :=
                spec "terraform" "Terraform state" ::
                (if localAccess p then
                   [spec "network" "Network"; spec "load-balancer" "Load balancer"; spec "bastion" "Bastion";
                    spec "seed-forgejo" "Forgejo"; spec "seed-harbor" "Seed Harbor"; spec "nodes" "Nodes";
                    spec "storage" "Storage"]
                 else []) |}]
        else [])
    ++ (if inScope scope ScopeOrchestration
        then [{| phase_id := Orchestration; phase_label := "Orchestration"; phase_items := [] |}] else [])
    ++ (if inScope scope ScopePlatform then
          let local := if localAccess p then ["local-dns"; "local-certificates"] else [] in
          [{| phase_id := Platform; phase_label := "Platform";
              phase_items := (fold_left appendItem (bootstrapCharts p ++ local ++ packages p ++ charts p)
                                (platformSeen, platformItems)).2 |}]
        else []).
End Dashboard.
