(* ===== verification/DashboardTheorems.v ===== *)
(** The dashboard never dereferences a missing row, a terminal row is only
    reopened by an explicit restart, at most one frame tick is pending, and the
    views show every row and the newest log lines. *)
From stdpp Require Import prelude gmap strings list.
From Stdlib Require Import Ascii ZArith Lia.
From S2P Require Import Prelude GoStrings Utf8 Progress Tail Dashboard.

Module DashboardTheorems.
Import Utf8 Progress Dashboard.

Section Theorems.
Context `{UC : UnicodeCase} {Completion : Type} (Valid : Completion -> bool).
Abbreviation model := (model Completion).
Abbreviation updateModel := (updateModel Completion Valid).

(** ** Well-formed models *)

Definition phase_wf (p : phaseModel) : Prop :=
  NoDup (order p) /\ forall id, id ∈ order p <-> is_Some (items p !! id).

Definition model_wf (m : model) : Prop :=
  Forall phase_wf (phases Completion m) /\
  forall k i, byPhase Completion m !! k = Some i -> exists p, phases Completion m !! i = Some p /\ pid p = k.

Lemma sweep_spec f ids its : NoDup ids -> (forall id, id ∈ ids -> is_Some (its !! id)) ->
  exists its', sweep f ids its = Some its' /\
    forall id, its' !! id = if bool_decide (id ∈ ids) then f <$> its !! id else its !! id.
Proof.
  revert its. induction ids as [|id ids IH]; intros its Hnd Hin.
  { exists its. split; [done|]. intros id. by rewrite bool_decide_eq_false_2 by set_solver. }
  apply NoDup_cons in Hnd as [Hni Hnd]. destruct (Hin id ltac:(set_solver)) as [item Hitem].
  destruct (IH (<[id := f item]> its) Hnd) as (its' & Hs & Hl).
  { intros j Hj. destruct (decide (j = id)) as [->|Hne]; [by rewrite lookup_insert_eq|].
    rewrite lookup_insert_ne by done. apply Hin. set_solver. }
  exists its'. cbn [sweep]. rewrite Hitem. simpl. split; [done|]. intros j. rewrite Hl.
  destruct (decide (j = id)) as [->|Hne].
  - rewrite bool_decide_eq_false_2 by done. rewrite bool_decide_eq_true_2 by set_solver. by rewrite lookup_insert_eq, Hitem.
  - rewrite lookup_insert_ne by done. destruct (decide (j ∈ ids)).
    + rewrite !bool_decide_eq_true_2 by set_solver. done.
    + rewrite !bool_decide_eq_false_2 by set_solver. done.
Qed.

(** What sweeping a well-formed phase does to its rows *)
Lemma sweep_wf f p : phase_wf p -> exists its, sweep f (order p) (items p) = Some its /\ forall id, its !! id = f <$> items p !! id.
Proof.
  intros [Hnd Hdom]. destruct (sweep_spec f (order p) (items p) Hnd ltac:(by intros id ?; apply Hdom)) as (its & Hs & Hl).
  exists its. split; [done|]. intros id. rewrite Hl. case_bool_decide as Hin; [done|].
  destruct (items p !! id) eqn:Hi; [|done]. exfalso. apply Hin, Hdom. by rewrite Hi.
Qed.

Lemma applyPhase_wf e p : phase_wf p -> exists p', applyPhase e p = Some p' /\ phase_wf p' /\ pid p' = pid p /\
  forall id, items p' !! id =
    if String.eqb (ID e) "*" then sweepItem e <$> items p !! id
    else if String.eqb id (ID e) then Some (updateItem e (default (freshItem e) (items p !! id))) else items p !! id.
Proof.
  intros Hwf. unfold applyPhase. destruct (String.eqb_spec (ID e) "*") as [He|He].
  - destruct (sweep_wf (sweepItem e) p Hwf) as (its & Hs & Hl). rewrite Hs. eexists. split; [done|]. cbn.
    split; [|done]. destruct Hwf as [Hnd Hdom]. split; [done|]. intros id. rewrite Hdom, Hl, fmap_is_Some. done.
  - destruct Hwf as [Hnd Hdom].
    destruct (items p !! ID e) as [item|] eqn:Hi; eexists; (split; [reflexivity|]); unfold phase_wf; cbn [order items pid]; split.
    + split; [done|]. intros id. rewrite Hdom. destruct (decide (id = ID e)) as [->|Hne].
      * rewrite lookup_insert_eq, Hi. by split; eauto.
      * by rewrite lookup_insert_ne.
    + split; [done|]. intros id. destruct (String.eqb_spec id (ID e)) as [->|Hne];
        [by rewrite lookup_insert_eq, Hi|by rewrite lookup_insert_ne].
    + assert (ID e ∉ order p) as Hni by (rewrite Hdom, Hi; by intros [? ?]). split.
      * apply NoDup_app. split; [done|]. split; [set_solver|apply NoDup_singleton].
      * intros id. rewrite elem_of_app, list_elem_of_singleton, Hdom. destruct (decide (id = ID e)) as [->|Hne].
        -- rewrite lookup_insert_eq. split; [by eauto|by right].
        -- rewrite lookup_insert_ne by done. split; [by intros [?|?]|by left].
    + split; [done|]. intros id. destruct (String.eqb_spec id (ID e)) as [->|Hne];
        [by rewrite lookup_insert_eq, Hi|by rewrite lookup_insert_ne].
Qed.

(** ** Rows *)

Definition rowAt (m : model) (phase id : string) : option itemModel :=
  i ← byPhase Completion m !! phase; p ← phases Completion m !! i; items p !! id.

(** What an event does to one row *)
Definition rowEvent (e : Event) (phase id : string) (row : option itemModel) : option itemModel :=
  if String.eqb phase (Phase e) then
    if String.eqb (ID e) "*" then sweepItem e <$> row
    else if String.eqb id (ID e) then Some (updateItem e (default (freshItem e) row)) else row
  else row.

(** A model extended by the phase of an event it does not know *)
Definition emptyPhase (name : string) : phaseModel :=
  {| pid := name; plabel := displayName name; visible := false; order := []; items := ∅ |}.

Lemma emptyPhase_wf name : phase_wf (emptyPhase name).
Proof. split; [constructor|]. intros id. cbn. rewrite lookup_empty. split; [by intros ?%elem_of_nil|by intros [? ?]]. Qed.

Lemma insert_phase_rows (ps : list phaseModel) (table : gmap string nat) index p p' k :
  (forall k i, table !! k = Some i -> exists p, ps !! i = Some p /\ pid p = k) ->
  ps !! index = Some p -> pid p' = pid p ->
  (forall k i, table !! k = Some i -> exists q, <[index := p']> ps !! i = Some q /\ pid q = k) /\
  (table !! pid p = Some index ->
   (i ← table !! k; <[index := p']> ps !! i) = if String.eqb k (pid p) then Some p' else i ← table !! k; ps !! i).
Proof.
  intros Ht Hp Hpid. split.
  - intros k' i Hk. destruct (Ht k' i Hk) as (q & Hq & Hqp). destruct (decide (i = index)) as [->|Hne].
    + exists p'. rewrite list_lookup_insert_eq by (by eapply lookup_lt_Some). split; [done|]. congruence.
    + exists q. by rewrite list_lookup_insert_ne.
  - intros Hidx. destruct (String.eqb_spec k (pid p)) as [->|Hne].
    + rewrite Hidx. simpl. by rewrite list_lookup_insert_eq by (by eapply lookup_lt_Some).
    + destruct (table !! k) as [i|] eqn:Hk; [|done]. simpl. destruct (decide (i = index)) as [->|Hi].
      * destruct (Ht k index Hk) as (q & Hq & Hqp). congruence.
      * by rewrite list_lookup_insert_ne.
Qed.

(** The phases and table with the phase of the event in them *)
Definition withPhase (e : Event) (m : model) : list phaseModel * gmap string nat * nat :=
  match byPhase Completion m !! Phase e with
  | Some i => (phases Completion m, byPhase Completion m, i)
  | None => (phases Completion m ++ [emptyPhase (Phase e)], <[Phase e := length (phases Completion m)]> (byPhase Completion m),
             length (phases Completion m))
  end.

Lemma withPhase_spec e m : model_wf m -> let '(ps, table, index) := withPhase e m in
  Forall phase_wf ps /\ (forall k i, table !! k = Some i -> exists p, ps !! i = Some p /\ pid p = k) /\
  table !! Phase e = Some index /\ (exists p, ps !! index = Some p /\ pid p = Phase e) /\
  forall phase id, (i ← table !! phase; p ← ps !! i; items p !! id) = rowAt m phase id.
Proof.
  intros [Hwf Ht]. unfold withPhase, rowAt. destruct (byPhase Completion m !! Phase e) as [i|] eqn:Hi.
  - split; [done|]. split; [done|]. split; [done|]. split; [by apply Ht|done].
  - split; [|split; [|split; [|split]]].
    + apply Forall_app. split; [done|]. constructor; [apply emptyPhase_wf|constructor].
    + intros k j. destruct (decide (k = Phase e)) as [->|Hne].
      * rewrite lookup_insert_eq. intros [= <-]. exists (emptyPhase (Phase e)).
        rewrite lookup_app_r, Nat.sub_diag by lia. done.
      * rewrite lookup_insert_ne by done. intros Hk. destruct (Ht k j Hk) as (p & Hp & Hpid). exists p.
        rewrite lookup_app_l by (by eapply lookup_lt_Some). done.
    + by rewrite lookup_insert_eq.
    + exists (emptyPhase (Phase e)). rewrite lookup_app_r, Nat.sub_diag by lia. done.
    + intros phase id. destruct (decide (phase = Phase e)) as [->|Hne].
      * rewrite lookup_insert_eq, Hi. simpl. rewrite lookup_app_r, Nat.sub_diag by lia. simpl. apply lookup_empty.
      * rewrite lookup_insert_ne by done. destruct (byPhase Completion m !! phase) as [j|] eqn:Hj; [|done]. simpl.
        destruct (Ht phase j Hj) as (p & Hp & _). by rewrite lookup_app_l by (by eapply lookup_lt_Some).
Qed.

(** The fields that events and batches do not touch *)
Definition same_control (m m' : model) : Prop :=
  ticking Completion m' = ticking Completion m /\ finished Completion m' = finished Completion m /\
  canceled Completion m' = canceled Completion m /\ cancels Completion m' = cancels Completion m.

Lemma apply_spec now e m : model_wf m -> exists m', Dashboard.apply Completion now e m = Some m' /\ model_wf m' /\ same_control m m' /\
  forall phase id, rowAt m' phase id = rowEvent e phase id (rowAt m phase id).
Proof.
  intros Hwf. pose proof (withPhase_spec e m Hwf) as H. unfold Dashboard.apply. fold (withPhase e m).
  change (match byPhase Completion m !! Phase e with Some i => _ | None => _ end) with (withPhase e m).
  destruct (withPhase e m) as [[ps table] index]. destruct H as (Hps & Ht & Hidx & (p & Hp & Hpid) & Hrows).
  rewrite Hp. simpl. destruct (applyPhase_wf e p) as (p' & Ha & Hwf' & Hpid' & Hitems); [by eapply Forall_lookup_1|].
  rewrite Ha. simpl. eexists. split; [reflexivity|].
  destruct (insert_phase_rows ps table index p p' (Phase e) Ht Hp Hpid') as [Ht' _].
  split; [|split; [done|]].
  - split; [|exact Ht']. by apply Forall_insert.
  - intros phase id. rewrite <- Hrows. unfold rowAt, rowEvent. cbn [byPhase phases].
    destruct (insert_phase_rows ps table index p p' phase Ht Hp Hpid') as [_ Hlk].
    rewrite Hpid in Hlk. specialize (Hlk Hidx).
    destruct (table !! phase) as [i|] eqn:Hk.
    2: { destruct (String.eqb_spec phase (Phase e)) as [->|]; [congruence|done]. }
    simpl in *. rewrite Hlk. destruct (String.eqb_spec phase (Phase e)) as [->|]; [|done]. simpl. rewrite Hitems.
    replace i with index by congruence. by rewrite Hp.
Qed.

(** Batches, row by row *)
Definition rowEvents (es : list Event) (phase id : string) (row : option itemModel) : option itemModel :=
  fold_left (fun row e => rowEvent e phase id row) es row.

Lemma applyBatch_spec now batch m : model_wf m -> exists m', applyBatch Completion now batch m = Some m' /\ model_wf m' /\
  same_control m m' /\ forall phase id, rowAt m' phase id = rowEvents (qevent <$> batch) phase id (rowAt m phase id).
Proof.
  revert m. induction batch as [|q batch IH]; intros m Hwf; [by exists m|].
  destruct (apply_spec now (qevent q) m Hwf) as (m1 & Ha & Hwf1 & Hc1 & Hr1).
  destruct (IH m1 Hwf1) as (m2 & Hb & Hwf2 & Hc2 & Hr2). exists m2. cbn [applyBatch]. rewrite Ha. simpl.
  split; [done|]. split; [done|]. split; [unfold same_control in *; intuition congruence|].
  intros phase id. rewrite Hr2, Hr1. done.
Qed.

(** ** [finishMsg] *)

Lemma finishPhase_wf err p : phase_wf p -> exists p', finishPhase err p = Some p' /\ phase_wf p' /\ pid p' = pid p /\
  forall id, items p' !! id = finishItem err <$> items p !! id.
Proof.
  intros Hwf. unfold finishPhase. destruct (sweep_wf (finishItem err) p Hwf) as (its & -> & Hl). simpl.
  eexists. split; [reflexivity|]. unfold phase_wf. cbn [order items pid]. split; [|done]. destruct Hwf as [Hnd Hdom].
  split; [done|]. intros id. by rewrite Hdom, Hl, fmap_is_Some.
Qed.

Lemma finishPhases_spec err ps : Forall phase_wf ps -> exists ps', mapM (finishPhase err) ps = Some ps' /\ Forall phase_wf ps' /\
  Forall2 (fun p p' => pid p' = pid p /\ forall id, items p' !! id = finishItem err <$> items p !! id) ps ps'.
Proof.
  induction 1 as [|p ps Hp _ IH]; [by exists []|]. destruct IH as (ps' & Hm & Hwf & HF).
  destruct (finishPhase_wf err p Hp) as (p' & Hf & Hwf' & Hpid & Hit). exists (p' :: ps').
  cbn [mapM]. rewrite Hf. simpl. rewrite Hm. simpl. split; [done|]. split; by constructor.
Qed.

Lemma finish_spec now c err m : model_wf m -> exists m', updateModel now (finishMsg Completion c err) m = Some (m', CmdQuit) /\
  model_wf m' /\ finished Completion m' = true /\ ticking Completion m' = ticking Completion m /\
  cancels Completion m' = cancels Completion m /\
  forall phase id, rowAt m' phase id = finishItem err <$> rowAt m phase id.
Proof.
  intros [Hwf Ht]. destruct (finishPhases_spec err (phases Completion m) Hwf) as (ps & Hm & Hwf' & HF).
  cbn [Dashboard.updateModel]. rewrite Hm. simpl. eexists. split; [reflexivity|].
  assert (forall i p, phases Completion m !! i = Some p -> exists p', ps !! i = Some p' /\ pid p' = pid p /\
    forall id, items p' !! id = finishItem err <$> items p !! id) as Hlk.
  { intros i p Hi. destruct (Forall2_lookup_l _ _ _ _ _ HF Hi) as (p' & Hp' & ?). eauto. }
  split; [|split; [done|split; [done|split; [done|]]]].
  - split; [done|]. cbn [byPhase phases]. intros k i Hk. destruct (Ht k i Hk) as (p & Hp & Hpid).
    destruct (Hlk i p Hp) as (p' & Hp' & Hpid' & _). exists p'. split; [done|]. congruence.
  - intros phase id. unfold rowAt. cbn [byPhase phases]. destruct (byPhase Completion m !! phase) as [i|] eqn:Hi; [|done].
    simpl. destruct (Ht phase i Hi) as (p & Hp & _). destruct (Hlk i p Hp) as (p' & Hp' & _ & Hit). rewrite Hp, Hp'. simpl. apply Hit.
Qed.

(** ** Every message *)

(** What a message does to one row *)
Definition rowMsg (msg : Msg Completion) (phase id : string) (row : option itemModel) : option itemModel :=
  match msg with
  | EventMsg _ e => rowEvent e phase id row
  | progressBatchMsg _ batch => rowEvents (qevent <$> batch) phase id row
  | finishMsg _ _ err => finishItem err <$> row
  | _ => row
  end.

Lemma wake_wf r m : model_wf m -> model_wf (wake Completion r m).1 /\
  (forall phase id, rowAt (wake Completion r m).1 phase id = rowAt m phase id).
Proof. unfold wake. by destruct (r && negb (ticking Completion m)). Qed.

Lemma update_spec now msg m : model_wf m -> exists m' cmd, updateModel now msg m = Some (m', cmd) /\ model_wf m' /\
  forall phase id, rowAt m' phase id = rowMsg msg phase id (rowAt m phase id).
Proof.
  intros Hwf. destruct msg as [w h|key|e|batch|l| |c err|]; cbn [Dashboard.updateModel rowMsg].
  - eexists _, _. by split.
  - destruct (String.eqb key "l"); [eexists _, _; by split|].
    destruct (String.eqb key "q" || String.eqb key "ctrl+c"); [|eexists _, _; by split].
    destruct (finished Completion m || canceled Completion m); eexists _, _; by split.
  - destruct (apply_spec now e m Hwf) as (m1 & -> & Hwf1 & _ & Hr). simpl.
    destruct (wake_wf (bool_decide (EState e = Running)) m1 Hwf1) as [Hw Hrow].
    destruct (wake Completion (bool_decide (EState e = Running)) m1) as [m2 cmd]. exists m2, cmd. split; [done|].
    split; [done|]. intros phase id. specialize (Hrow phase id). cbn [fst] in Hrow. by rewrite Hrow, Hr.
  - destruct (applyBatch_spec now batch m Hwf) as (m1 & -> & Hwf1 & _ & Hr). simpl.
    match goal with |- context [wake Completion ?b m1] => destruct (wake_wf b m1 Hwf1) as [Hw Hrow]; destruct (wake Completion b m1) as [m2 cmd] end.
    exists m2, cmd. split; [done|]. split; [done|]. intros phase id. specialize (Hrow phase id). cbn [fst] in Hrow. by rewrite Hrow, Hr.
  - eexists _, _. by split.
  - eexists _, _. by split.
  - destruct (finish_spec now c err m Hwf) as (m' & Hu & Hwf' & _ & _ & _ & Hr). exists m', CmdQuit. done.
  - eexists _, _. by split.
Qed.

(** ** The start *)

Lemma newPhase_items (l : list itemSpec) (its : gmap string itemModel) id :
  fold_left (fun m i => <[spec_id i := newItem i]> m) l its !! id <> None <-> its !! id <> None \/ id ∈ spec_id <$> l.
Proof.
  revert its. induction l as [|i l IH]; intros its; [set_solver|]. cbn [fold_left fmap list_fmap]. rewrite IH, elem_of_cons.
  destruct (decide (id = spec_id i)) as [->|Hne]; [rewrite lookup_insert_eq; naive_solver|].
  rewrite lookup_insert_ne by done. naive_solver.
Qed.

Lemma newPhase_wf sp : NoDup (spec_id <$> phase_items sp) -> phase_wf (newPhase sp).
Proof.
  intros Hnd. split; [done|]. intros id. cbn [order items newPhase]. rewrite <- not_eq_None_Some, newPhase_items, lookup_empty. naive_solver.
Qed.

Lemma table_spec (ps : list phaseModel) base (table : gmap string nat) k i :
  fold_left (fun m ip => <[pid ip.2 := ip.1]> m) (zip (seq base (length ps)) ps) table !! k = Some i ->
  table !! k = Some i \/ exists p, (base <= i)%nat /\ ps !! (i - base)%nat = Some p /\ pid p = k.
Proof.
  revert base table. induction ps as [|p ps IH]; intros base table H; [by left|]. cbn [length seq zip zip_with fold_left] in H.
  apply IH in H as [H|(q & Hb & Hq & Hk)].
  - destruct (decide (k = pid p)) as [->|Hne].
    + rewrite lookup_insert_eq in H. injection H as <-. right. exists p. rewrite Nat.sub_diag. simpl. done.
    + rewrite lookup_insert_ne in H by done. by left.
  - right. exists q. split; [lia|]. split; [|done]. replace (i - base)%nat with (S (i - S base)) by lia. done.
Qed.

Lemma newModel_wf t path specs now : Forall (fun sp => NoDup (spec_id <$> phase_items sp)) specs ->
  model_wf (newModel Completion t path specs now).
Proof.
  intros Hnd. split.
  - cbn [phases newModel]. apply Forall_fmap. eapply Forall_impl; [exact Hnd|]. intros sp. apply newPhase_wf.
  - cbn [phases byPhase newModel]. intros k i H. apply table_spec in H as [H|(p & _ & Hp & Hk)]; [by rewrite lookup_empty in H|].
    exists p. by rewrite Nat.sub_0_r in Hp.
Qed.

Lemma appendItem_nodup st id : NoDup (spec_id <$> st.2) -> (forall x, x ∈ spec_id <$> st.2 -> x ∈ st.1) ->
  NoDup (spec_id <$> (appendItem st id).2) /\ (forall x, x ∈ spec_id <$> (appendItem st id).2 -> x ∈ (appendItem st id).1).
Proof.
  intros Hnd Hin. unfold appendItem. destruct (String.eqb id "" || bool_decide (id ∈ st.1)) eqn:Hc; [done|].
  apply orb_false_iff in Hc as [_ Hni%bool_decide_eq_false]. cbn [fst snd]. rewrite fmap_app. split.
  - apply NoDup_app. split; [done|]. split; [|apply NoDup_singleton]. intros x Hx Hx'%list_elem_of_singleton. simpl in Hx'. subst x. auto.
  - intros x Hx. apply elem_of_app in Hx as [Hx|Hx%list_elem_of_singleton]; [set_solver|]. simpl in Hx. set_solver.
Qed.

Lemma appendItems_nodup ids st : NoDup (spec_id <$> st.2) -> (forall x, x ∈ spec_id <$> st.2 -> x ∈ st.1) ->
  NoDup (spec_id <$> (fold_left appendItem ids st).2).
Proof.
  revert st. induction ids as [|id ids IH]; intros st Hnd Hin; [done|]. cbn [fold_left].
  destruct (appendItem_nodup st id Hnd Hin) as [Hnd' Hin']. by apply IH.
Qed.

Lemma nodup_dec (l : list string) : bool_decide (NoDup l) = true -> NoDup l.
Proof. by intros ?%bool_decide_eq_true. Qed.

Lemma projectPhases_nodup p scope : Forall (fun sp => NoDup (spec_id <$> phase_items sp)) (projectPhases p scope).
Proof.
  unfold projectPhases. destruct (inScope scope ScopeUpdates).
  { constructor; [|constructor]. by apply nodup_dec. }
  repeat apply Forall_app_2.
  - constructor; [|constructor; [|constructor]]; by apply nodup_dec.
  - destruct (inScope scope ScopeInfrastructure); [|constructor]. constructor; [|constructor].
    destruct (localAccess p); by apply nodup_dec.
  - destruct (inScope scope ScopeOrchestration); [|constructor]. constructor; [|constructor]. by apply nodup_dec.
  - destruct (inScope scope ScopePlatform); [|constructor]. constructor; [|constructor]. cbn [phase_items].
    apply appendItems_nodup; [by apply nodup_dec|].
    intros x Hx. apply elem_of_list_to_set.
    assert (bool_decide (Forall (fun x => x ∈ ["publication"; "seed-artifacts"; "compatibility-builds"; "image-publication"; "chart-publication"; "harbor-publication";
   "forgejo"; "flux"; "prep"; "sources"; "images"; "bigbang"; "platform-profile-prep"; "platform-profile-access"]) (spec_id <$> platformItems)) = true) as HF%bool_decide_eq_true by reflexivity.
    rewrite Forall_forall in HF. by apply HF.
Qed.

(** ** Runs of the program *)

Fixpoint runMsgs (msgs : list (Z * Msg Completion)) (m : model) : option model :=
  match msgs with
  | [] => Some m
  | msg :: msgs => r ← updateModel msg.1 msg.2 m; runMsgs msgs r.1
  end.

Lemma runMsgs_wf msgs m : model_wf m -> exists m', runMsgs msgs m = Some m' /\ model_wf m'.
Proof.
  revert m. induction msgs as [|msg msgs IH]; intros m Hwf; [by exists m|]. cbn [runMsgs].
  destruct (update_spec msg.1 msg.2 m Hwf) as (m1 & cmd & -> & Hwf1 & _). by apply IH.
Qed.

(** C20. The dashboard never panics: from the rows of any project and scope, no
    sequence of messages makes it dereference a row that is not there, and
    every phase always lists each of its rows exactly once. *)
Theorem dashboard_never_panics p scope t path now msgs :
  exists m, runMsgs msgs (newModel Completion t path (projectPhases p scope) now) = Some m /\ model_wf m.
Proof. apply runMsgs_wf, newModel_wf, projectPhases_nodup. Qed.

(** *** Terminal rows *)

Definition core (row : itemModel) : State * string * Z * Z * Z * Z * Z :=
  (istate row, idetail row, icurrent row, itotal row, ibytesCurrent row, ibytesTotal row, iupdated row).

(** The event targets the row and is a restart or a terminal state. *)
Definition reopens (e : Event) (phase id : string) : Prop :=
  Phase e = phase /\ ID e = id /\ (Restart e = true \/ EState e <> Running).

Definition events_of (msg : Msg Completion) : list Event :=
  match msg with EventMsg _ e => [e] | progressBatchMsg _ batch => qevent <$> batch | _ => [] end.

Lemma rowEvent_terminal e phase id row : terminal (istate row) = true -> ~ reopens e phase id ->
  exists row', rowEvent e phase id (Some row) = Some row' /\ core row' = core row.
Proof.
  intros Ht Hno. unfold rowEvent. destruct (String.eqb_spec phase (Phase e)) as [->|]; [|by exists row].
  destruct (String.eqb_spec (ID e) "*"). { simpl. exists (sweepItem e row). unfold sweepItem. by rewrite Ht. }
  destruct (String.eqb_spec id (ID e)) as [->|]; [|by exists row]. simpl. eexists. split; [done|]. unfold updateItem. rewrite Ht.
  case_bool_decide as Hr; [|exfalso; apply Hno; by repeat split; right].
  destruct (Restart e) eqn:Hre; [exfalso; apply Hno; repeat split; by left|]. done.
Qed.

Lemma rowEvents_terminal es phase id row : terminal (istate row) = true -> (forall e, e ∈ es -> ~ reopens e phase id) ->
  exists row', rowEvents es phase id (Some row) = Some row' /\ core row' = core row.
Proof.
  revert row. induction es as [|e es IH]; intros row Ht Hno; [by exists row|]. cbn [rowEvents fold_left].
  destruct (rowEvent_terminal e phase id row Ht) as (row1 & Hr1 & Hc1); [apply Hno; set_solver|]. rewrite Hr1.
  destruct (IH row1) as (row2 & Hr2 & Hc2); [|intros; apply Hno; set_solver|].
  - unfold core in Hc1. by injection Hc1 as -> _.
  - exists row2. split; [done|]. congruence.
Qed.

(** A row that is complete or failed keeps its state, detail and counters
    through every message, unless the message carries an event for that very
    row that is an explicit restart or itself not a running update: late
    output of a subprocess, phase-wide transitions and the end of the session
    never reopen or overwrite it. *)
Theorem terminal_row_sticks now msg m m' cmd phase id row :
  model_wf m -> updateModel now msg m = Some (m', cmd) ->
  rowAt m phase id = Some row -> terminal (istate row) = true ->
  (forall e, e ∈ events_of msg -> ~ reopens e phase id) ->
  exists row', rowAt m' phase id = Some row' /\ core row' = core row.
Proof.
  intros Hwf Hu Hrow Ht Hno. destruct (update_spec now msg m Hwf) as (m1 & cmd1 & Hu1 & _ & Hr).
  rewrite Hu in Hu1. injection Hu1 as <- <-. rewrite Hr, Hrow.
  destruct msg as [w h|key|e|batch|l| |c err|]; cbn [rowMsg events_of] in *; try by exists row.
  - apply rowEvent_terminal; [done|]. apply Hno. set_solver.
  - by apply rowEvents_terminal.
  - simpl. exists (finishItem err row). split; [done|]. unfold finishItem.
    rewrite bool_decide_eq_false_2; [done|]. by intros Heq; rewrite Heq in Ht.
Qed.

(** *** Ticks *)

Definition ticks (cmd : Cmd) : nat := match cmd with CmdTick => 1 | _ => 0 end.

(** The runtime delivers a tick for every tick command it was given. *)
Inductive step : model * nat -> model * nat -> Prop :=
  | step_msg now msg m m' cmd n : msg <> tickMsg Completion -> updateModel now msg m = Some (m', cmd) ->
      step (m, n) (m', n + ticks cmd)%nat
  | step_tick now m m' cmd n : updateModel now (tickMsg Completion) m = Some (m', cmd) ->
      step (m, S n) (m', n + ticks cmd)%nat.

Definition initial (m : model) : model * nat := ((Init Completion m).1, ticks (Init Completion m).2).

Definition one_tick (s : model * nat) : Prop :=
  model_wf s.1 /\ s.2 = (if ticking Completion s.1 then 1 else 0)%nat /\
  cancels Completion s.1 = (if canceled Completion s.1 then 1 else 0)%nat.

Lemma wake_tick r m n : n = (if ticking Completion m then 1 else 0)%nat ->
  (n + ticks (wake Completion r m).2)%nat = (if ticking Completion (wake Completion r m).1 then 1 else 0)%nat /\
  canceled Completion (wake Completion r m).1 = canceled Completion m /\
  cancels Completion (wake Completion r m).1 = cancels Completion m.
Proof. unfold wake. intros ->. destruct r, (ticking Completion m) eqn:Ht; simpl; rewrite ?Ht; done. Qed.

Lemma step_one_tick s s' : one_tick s -> step s s' -> one_tick s'.
Proof.
  intros (Hwf & Hn & Hc) Hstep.
  assert (model_wf s'.1) as Hwf'.
  { destruct Hstep as [now msg m m' cmd n _ Hu|now m m' cmd n Hu];
      [destruct (update_spec now msg m Hwf) as (m1 & cmd1 & Hu1 & H1 & _)
      |destruct (update_spec now (tickMsg Completion) m Hwf) as (m1 & cmd1 & Hu1 & H1 & _)];
      rewrite Hu in Hu1; by injection Hu1 as <- <-. }
  split; [done|]. clear Hwf'. destruct Hstep as [now msg m m' cmd n Hmsg Hu|now m m' cmd n Hu]; simpl in *.
  2: { injection Hu as <- <-. cbn [ticking canceled cancels]. destruct (ticking Completion m); [|done]. injection Hn as ->.
       split; [by destruct (_ && _)|done]. }
  destruct msg as [w h|key|e|batch|l| |c err|]; cbn [Dashboard.updateModel] in Hu.
  - injection Hu as <- <-. cbn. split; [lia|done].
  - destruct (String.eqb key "l"); [injection Hu as <- <-; cbn; split; [lia|done]|].
    destruct (String.eqb key "q" || String.eqb key "ctrl+c"); [|injection Hu as <- <-; split; [simpl; lia|done]].
    destruct (finished Completion m || canceled Completion m) eqn:Hf; injection Hu as <- <-; cbn; (split; [lia|]); [done|].
    apply orb_false_iff in Hf as [_ Hf]. by rewrite Hc, Hf.
  - destruct (apply_spec now e m Hwf) as (m1 & Ha & _ & (Ht & _ & Hcan & Hcs) & _). rewrite Ha in Hu. simpl in Hu.
    destruct (wake_tick (bool_decide (EState e = Running)) m1 n ltac:(by rewrite Ht)) as (H1 & H2 & H3).
    injection Hu as Hu. rewrite Hu in *. cbn [fst snd] in *. split; [done|]. by rewrite H3, H2, Hcs, Hcan.
  - destruct (applyBatch_spec now batch m Hwf) as (m1 & Ha & _ & (Ht & _ & Hcan & Hcs) & _). rewrite Ha in Hu. simpl in Hu.
    injection Hu as Hu. match type of Hu with wake Completion ?b _ = _ => destruct (wake_tick b m1 n ltac:(by rewrite Ht)) as (H1 & H2 & H3) end.
    rewrite Hu in *. cbn [fst snd] in *. split; [done|]. by rewrite H3, H2, Hcs, Hcan.
  - injection Hu as <- <-. cbn. split; [lia|done].
  - done.
  - destruct (mapM (finishPhase err) (phases Completion m)); [|done]. injection Hu as <- <-. cbn. split; [lia|done].
  - injection Hu as <- <-. split; [simpl; lia|done].
Qed.

Lemma initial_one_tick p scope t path now :
  one_tick (initial (newModel Completion t path (projectPhases p scope) now)).
Proof. split; [|done]. pose proof (newModel_wf t path _ now (projectPhases_nodup p scope)) as H. exact H. Qed.

(** Exactly one frame tick is pending while the dashboard is ticking and
    none otherwise, in every state reachable from the start by messages and
    ticks in any order, and the running operation is cancelled at most once. *)
Theorem one_pending_tick p scope t path now s :
  rtc step (initial (newModel Completion t path (projectPhases p scope) now)) s ->
  s.2 = (if ticking Completion s.1 then 1 else 0)%nat /\
  cancels Completion s.1 = (if canceled Completion s.1 then 1 else 0)%nat.
Proof.
  intros Hr. enough (one_tick s) as (_ & H) by exact H.
  pose proof (initial_one_tick p scope t path now) as H0. induction Hr as [|x y z Hxy Hyz IH]; [done|].
  apply IH. by eapply step_one_tick.
Qed.

(** *** Views *)

Lemma lastn_app_seq (l : list string) (n : nat) : (n <= length l)%nat ->
  (fun k => default "" (l !! (length l - n + k)%nat)) <$> seq 0 n = Tail.lastn n l.
Proof.
  intros Hn. unfold Tail.lastn. apply list_eq. intros k. rewrite list_lookup_fmap, lookup_drop.
  destruct (decide (k < n)%nat) as [Hk|Hk].
  - rewrite lookup_seq_lt by done. simpl. destruct (lookup_lt_is_Some_2 l (length l - n + k)%nat ltac:(lia)) as [x Hx].
    by rewrite Hx.
  - rewrite lookup_seq_ge by lia. simpl. symmetry. apply lookup_ge_None. lia.
Qed.

Lemma window_lines (t : Tail.logTail) (Strip : string -> string) h : Tail.ring_ok t ->
  logWindow h {| Tail.s_lines := Tail.lines t; Tail.s_start := Tail.start t; Tail.s_count := Tail.count t;
                 Tail.s_partial := Tail.shown Strip t |} =
  Tail.lastn (Z.to_nat (Z.max (h - 7) 1))
    (Tail.shownLines t ++ if String.eqb (Tail.shown Strip t) "" then [] else [Tail.shown Strip t]).
Proof.
  intros _. unfold logWindow. cbn [Tail.s_lines Tail.s_start Tail.s_count Tail.s_partial].
  set (all := Tail.shownLines t ++ _).
  assert (length all = (Tail.count t + if String.eqb (Tail.shown Strip t) "" then 0 else 1)%nat) as Hlen.
  { unfold all. rewrite length_app. unfold Tail.shownLines. rewrite Tail.ring_length. by destruct (String.eqb _ ""). }
  set (a := (Z.of_nat (Tail.count t) + _)%Z). assert (a = Z.of_nat (length all)) as Ha.
  { unfold a. rewrite Hlen. destruct (String.eqb _ ""); lia. }
  set (n := Z.to_nat (Z.min (Z.max (h - 7) 1) a)).
  assert (Tail.lastn (Z.to_nat (Z.max (h - 7) 1)) all = Tail.lastn n all) as ->.
  { unfold Tail.lastn. f_equal. lia. }
  rewrite <- lastn_app_seq by lia. apply list_fmap_ext. intros i k Hk. apply lookup_seq in Hk as [-> Hk].
  replace (Z.to_nat (a - Z.min (Z.max (h - 7) 1) a) + (0 + i))%nat with (length all - n + (0 + i))%nat by lia.
  set (o := (length all - n + (0 + i))%nat). assert (o < length all)%nat as Ho by lia. unfold all at 1.
  destruct (Nat.ltb_spec o (Tail.count t)) as [Hlt|Hge].
  - rewrite lookup_app_l by (unfold Tail.shownLines; by rewrite Tail.ring_length). unfold Tail.shownLines.
    by rewrite Tail.ring_lookup by lia.
  - rewrite lookup_app_r by (unfold Tail.shownLines; by rewrite Tail.ring_length). unfold Tail.shownLines. rewrite Tail.ring_length.
    destruct (String.eqb (Tail.shown Strip t) ""); [lia|]. by replace (o - Tail.count t)%nat with 0%nat by lia.
Qed.

(** The log view shows the newest lines: after any writes, the lines drawn
    from the snapshot are the last ones that fit the height (at least one) of
    the committed lines followed by the unfinished one, in order. *)
Theorem log_view_shows_newest (Strip : string -> string) chunks h s t :
  Tail.snapshot Strip (Tail.writes Strip chunks Tail.newLogTail) = (Some s, t) ->
  logWindow h s =
  Tail.lastn (Z.to_nat (Z.max (h - 7) 1))
    (Tail.shownLines t ++ if String.eqb (Tail.shown Strip t) "" then [] else [Tail.shown Strip t]).
Proof.
  set (w := Tail.writes Strip chunks Tail.newLogTail). unfold Tail.snapshot. destruct (_ =? _)%Z; [done|].
  intros [= <- <-]. apply (window_lines w Strip h).
  destruct (Tail.feeds chunks "") as [ls r] eqn:Hf.
  by destruct (Tail.writes_tails Strip chunks Tail.newLogTail [] "" ls r (Tail.new_tails Strip) Hf).
Qed.

Lemma take_split {A} (l : list A) a b : take a l ++ take b (drop a l) = take (a + b) l.
Proof. revert l. induction a as [|a IH]; intros [|x l]; simpl; [done|done|by rewrite take_nil|by rewrite IH]. Qed.

Lemma columns_concat {A} (rows : list A) (hgt k n : nat) :
  concat (omap (fun column => if (length rows <=? column * hgt)%nat then None
    else Some (take (Nat.min (column * hgt + hgt) (length rows) - column * hgt) (drop (column * hgt) rows))) (seq k n)) =
  take (n * hgt) (drop (k * hgt) rows).
Proof.
  revert k. induction n as [|n IH]; intros k; [by rewrite take_0|]. cbn [seq omap list_omap].
  destruct (Nat.leb_spec (length rows) (k * hgt)) as [Hle|Hgt].
  - rewrite IH, !drop_ge by lia. by rewrite !take_nil.
  - cbn [concat]. rewrite IH. replace (take (Nat.min (k * hgt + hgt) (length rows) - k * hgt) (drop (k * hgt) rows)) with (take hgt (drop (k * hgt) rows)).
    + set (l := drop (k * hgt) rows). replace (drop (S k * hgt) rows) with (drop hgt l) by (unfold l; rewrite drop_drop; f_equal; lia).
      replace (S n * hgt)%nat with (hgt + n * hgt)%nat by lia. apply take_split.
    + destruct (decide (k * hgt + hgt <= length rows)%nat); [f_equal; lia|]. rewrite !take_ge; [done|rewrite length_drop; lia..].
Qed.

(** The columns of a phase show every row exactly once, in order, whatever
    the width: the columns concatenated are the rows. *)
Theorem columns_partition (width : Z) (rows : list string) :
  concat (columnRows (columnCount width (length rows)) rows) = rows.
Proof.
  unfold columnRows. rewrite columns_concat. simpl. rewrite take_ge; [done|].
  set (c := columnCount width (length rows)). assert (0 < c)%nat as Hc.
  { unfold c, columnCount. destruct (_ && _); [lia|]. destruct (_ && _); lia. }
  rewrite drop_0. pose proof (Nat.div_mod_eq (length rows + c - 1) c). pose proof (Nat.mod_upper_bound (length rows + c - 1) c). nia.
Qed.
End Theorems.

(** ** On a concrete dashboard *)

#[export] Instance asciiCase : UnicodeCase.
Proof.
  refine {| ToLowerRune r := if within 65 90 r then (r + 32)%N else r; ToUpperRune r := if within 97 122 r then (r - 32)%N else r |}; done.
Defined.

Definition view0 : projectView :=
  {| localAccess := true; bootstrapCharts := ["kube-vip"]; packages := ["istiod"; "flux"]; charts := [] |}.
Definition valid0 (_ : unit) : bool := true.
Definition model0 : Dashboard.model unit := newModel unit "apply" "logs/apply.log" (projectPhases view0 ScopeAll) 1.
Definition done0 : Event := Done Orchestration "node:cp-0" "Node cp-0" "upgrade complete; schedulable".
Definition late0 : Event := event Orchestration "node:cp-0" "Node cp-0" "upgrading" Running.

Definition after (msg : Msg unit) (m : Dashboard.model unit) : Dashboard.model unit * Cmd :=
  default (m, CmdNone) (Dashboard.updateModel unit valid0 1 msg m).

Lemma after_update msg m : model_wf m -> Dashboard.updateModel unit valid0 1 msg m = Some (after msg m) /\ model_wf (after msg m).1.
Proof.
  intros Hwf. unfold after. destruct (update_spec valid0 1 msg m Hwf) as (m' & cmd & -> & Hwf' & _). done.
Qed.

Lemma model0_wf : model_wf model0.
Proof. apply newModel_wf, projectPhases_nodup. Qed.

Definition model1 : Dashboard.model unit := (after (EventMsg unit done0) model0).1.
Lemma model1_wf : model_wf model1.
Proof. apply after_update, model0_wf. Qed.

Lemma terminal_row_sticks_witness : exists row row',
  rowAt model1 Orchestration "node:cp-0" = Some row /\ istate row = Complete /\
  rowAt (after (EventMsg unit late0) model1).1 Orchestration "node:cp-0" = Some row' /\ core row' = core row.
Proof.
  destruct (rowAt model1 Orchestration "node:cp-0") as [row|] eqn:Hrow.
  2: { exfalso. apply (f_equal (fun o => match o with None => true | Some _ => false end)) in Hrow. vm_compute in Hrow. discriminate Hrow. }
  assert (istate row = Complete) as Hst.
  { apply (f_equal (fun o => match o with None => Pending | Some r => istate r end)) in Hrow. vm_compute in Hrow. symmetry. exact Hrow. }
  destruct (terminal_row_sticks valid0 1 (EventMsg unit late0) model1 (after (EventMsg unit late0) model1).1
    (after (EventMsg unit late0) model1).2 Orchestration "node:cp-0" row) as (row' & Hr & Hc).
  - exact model1_wf.
  - rewrite (proj1 (after_update (EventMsg unit late0) model1 model1_wf)). by destruct (after _ _).
  - exact Hrow.
  - by rewrite Hst.
  - intros e He. apply list_elem_of_singleton in He as ->. intros (_ & _ & [H|H]); [discriminate H|by apply H].
  - exists row, row'. done.
Defined.

Lemma one_pending_tick_witness :
  let s := (after (KeyMsg unit "q") (set_ticking unit true model0)).1 in
  cancels unit s = 1%nat.
Proof.
  cbv zeta. destruct (one_pending_tick valid0 view0 ScopeAll "apply" "logs/apply.log" 1
    ((after (KeyMsg unit "q") (set_ticking unit true model0)).1, 1%nat)) as [_ H].
  - eapply rtc_l; [|apply rtc_refl].
    apply (step_msg valid0 1 (KeyMsg unit "q") (set_ticking unit true model0) _ CmdQuit 1); [discriminate|].
    reflexivity.
  - exact H.
Defined.

Lemma log_view_shows_newest_witness :
  let w := Tail.writes (fun s => s) ["one" +:+ newline; "two" +:+ newline; "thr"] Tail.newLogTail in
  (fun s => logWindow 9 s) <$> (Tail.snapshot (fun s => s) w).1 = Some ["two"; "thr"].
Proof.
  cbv zeta. destruct (Tail.snapshot (fun s => s) (Tail.writes (fun s => s) ["one" +:+ newline; "two" +:+ newline; "thr"] Tail.newLogTail))
    as [[s|] t] eqn:Hs; [|vm_compute in Hs; discriminate Hs].
  cbn [fst fmap option_fmap option_map]. rewrite (log_view_shows_newest (fun s => s) _ 9 s t Hs).
  unfold Tail.snapshot in Hs. vm_compute in Hs. injection Hs as <- <-. vm_compute. reflexivity.
Defined.
End DashboardTheorems.
