(* ===== verification/Session.v ===== *)
(** The reporting session of [cli/tui/session.go]: deduplication, the coalesced
    queue of the interactive mode, the compact mode, the batch sent to the
    dashboard, and the stream writers between a subprocess and its observers. *)
From stdpp Require Import prelude gmap strings list sorting.
From Stdlib Require Import Ascii ZArith Lia.
From S2P Require Import Prelude GoStrings Utf8 Progress Tail Dashboard.

Module Session.
Import Utf8 Progress Dashboard.

Record eventSignature := {
  sg_state : State; sg_detail : string; sg_current : Z; sg_total : Z; sg_bytesCurrent : Z; sg_bytesTotal : Z
}.
#[export] Instance eventSignature_eq_dec : EqDecision eventSignature.
Proof. solve_decision. Defined.

(** The zero value a missing map entry reads as *)
Definition zeroSignature : eventSignature :=
  {| sg_state := Pending; sg_detail := ""; sg_current := 0; sg_total := 0; sg_bytesCurrent := 0; sg_bytesTotal := 0 |}.

(** Of the writers, the events are kept that a line was written for. *)
Record session := {
  raw : bool;
  interactive : bool;
  lastEvents : gmap string eventSignature;
  activeEvents : gset string;
  compactState : gmap string eventSignature;
  pendingEvents : gmap string queuedProgress;
  eventSequence : Z;
  closed : bool;
  logged : list Event;
  console : list Event
}.

Definition newSession (raw terminal : bool) : session :=
  {| raw := raw; interactive := negb raw && terminal; lastEvents := ∅; activeEvents := ∅; compactState := ∅;
     pendingEvents := ∅; eventSequence := 0; closed := false; logged := []; console := [] |}.

Definition sessionMode (raw terminal : bool) : string :=
  if raw then "raw" else if terminal then "tui" else "compact".

(** ** Details *)

Definition displayDetailLimit : nat := Eval vm_compute in (4 * 1024)%nat.

(** The longest valid prefix of at most [limit] bytes *)
Fixpoint validEnd (limit : nat) (detail : string) : nat :=
  match limit with
  | O => 0
  | S limit' => if ValidString (str_take limit detail) then limit else validEnd limit' detail
  end.

Definition boundedDetail (detail : string) : string :=
  if (String.length detail <=? displayDetailLimit)%nat then detail
  else str_take (validEnd displayDetailLimit detail) detail +:+ Tail.ellipsis.

(** [singleLineReplacer] *)
Definition singleLine (s : string) : string :=
  str_map (fun c => if Ascii.eqb c "013" || Ascii.eqb c "010" then " "%char else c) s.

Definition stateName (s : State) : string :=
  match s with Running => "running" | Complete => "complete" | Failed => "failed" | Pending => "pending" end.

(** ** [reportUnlocked] *)

Definition eventKey (e : Event) : string := Phase e +:+ "/" +:+ ID e.

Definition signatureOf (e : Event) : eventSignature :=
  {| sg_state := EState e; sg_detail := Detail e; sg_current := ECurrent e; sg_total := Total e;
     sg_bytesCurrent := BytesCurrent e; sg_bytesTotal := BytesTotal e |}.

Definition with_detail (detail : string) (e : Event) : Event :=
  {| Phase := Phase e; ID := ID e; Label := Label e; Detail := detail; EState := EState e; Restart := Restart e;
     ECurrent := ECurrent e; Total := Total e; BytesCurrent := BytesCurrent e; BytesTotal := BytesTotal e; Time := Time e |}.
Definition with_restart (e : Event) : Event :=
  {| Phase := Phase e; ID := ID e; Label := Label e; Detail := Detail e; EState := EState e; Restart := true;
     ECurrent := ECurrent e; Total := Total e; BytesCurrent := BytesCurrent e; BytesTotal := BytesTotal e; Time := Time e |}.

(** The event as it enters the session *)
Definition normalize (now : Z) (e : Event) : Event := let e := stamp now e in with_detail (boundedDetail (Detail e)) e.

Definition activeAfter (e : Event) (active : gset string) : gset string :=
  if String.eqb (ID e) "*" then filter (fun k => HasPrefix k (Phase e +:+ "/") = false) active
  else if bool_decide (EState e = Running) then {[eventKey e]} ∪ active
  else active ∖ {[eventKey e]}.

(** The queue keeps one event per row: a terminal event is not overwritten by a
    running one, and a running one inherits the restart it replaces. *)
Definition merged (pending : option queuedProgress) (e : Event) : Event :=
  match pending with
  | Some p => if Restart (qevent p) && bool_decide (EState e = Running) then with_restart e else e
  | None => e
  end.

Definition enqueue (e : Event) (sequence : Z) (queue : gmap string queuedProgress) : Z * gmap string queuedProgress :=
  let pending := queue !! eventKey e in
  let e' := merged pending e in
  let terminalPending := match pending with Some p => terminal (EState (qevent p)) | None => false end in
  if negb terminalPending || negb (bool_decide (EState e' = Running)) || Restart e'
  then let sequence := ((sequence + 1) mod 2 ^ 64)%Z in
       (sequence, <[eventKey e := {| sequence := sequence; qevent := e' |}]> queue)
  else (sequence, queue).

Definition compactChanged (key : string) (sg : eventSignature) (state : gmap string eventSignature) : bool :=
  match state !! key with
  | None => true
  | Some previous =>
      negb (bool_decide (sg_state previous = sg_state sg)) || negb (sg_current previous =? sg_current sg)%Z
      || negb (sg_total previous =? sg_total sg)%Z || negb (sg_bytesCurrent previous =? sg_bytesCurrent sg)%Z
      || negb (sg_bytesTotal previous =? sg_bytesTotal sg)%Z
  end.

Definition duplicate (e : Event) (s : session) : bool :=
  bool_decide (default zeroSignature (lastEvents s !! eventKey e) = signatureOf e).

Definition reportUnlocked (now : Z) (e : Event) (s : session) : session :=
  let e := normalize now e in
  let key := eventKey e in
  if closed s then s
  else
    let active := activeAfter e (activeEvents s) in
    if duplicate e s then
      {| raw := raw s; interactive := interactive s; lastEvents := lastEvents s; activeEvents := active;
         compactState := compactState s; pendingEvents := pendingEvents s; eventSequence := eventSequence s;
         closed := closed s; logged := logged s; console := console s |}
    else
      let '(sequence, queue) :=
        if interactive s then enqueue e (eventSequence s) (pendingEvents s) else (eventSequence s, pendingEvents s) in
      (** an interactive event is printed nowhere else *)
      let compact := negb (raw s) && negb (interactive s) in
      let printed := raw s || (compact && compactChanged key (signatureOf e) (compactState s)) in
      {| raw := raw s; interactive := interactive s; lastEvents := <[key := signatureOf e]> (lastEvents s);
         activeEvents := active;
         compactState := if compact then <[key := signatureOf e]> (compactState s) else compactState s;
         pendingEvents := queue; eventSequence := sequence; closed := closed s;
         logged := logged s ++ [e]; console := if printed then console s ++ [e] else console s |}.

(** ** [sendPendingEvents]

    Go's maps are iterated in any order: [iteration] is the one of this call. *)
Definition earlier (a b : queuedProgress) : Prop := (sequence a <= sequence b)%Z.
#[export] Instance earlier_dec : RelDecision earlier.
Proof. intros a b. unfold earlier. apply _. Defined.

Definition sortBatch (iteration : list queuedProgress) : list queuedProgress := merge_sort earlier iteration.

Definition sendPendingEvents (s : session) : list queuedProgress * session :=
  (sortBatch (map_to_list (pendingEvents s)).*2,
   {| raw := raw s; interactive := interactive s; lastEvents := lastEvents s; activeEvents := activeEvents s;
      compactState := compactState s; pendingEvents := ∅; eventSequence := eventSequence s; closed := closed s;
      logged := logged s; console := console s |}).

(** [Finish] closes the session before anything else. *)
Definition closeSession (s : session) : session :=
  {| raw := raw s; interactive := interactive s; lastEvents := lastEvents s; activeEvents := activeEvents s;
     compactState := compactState s; pendingEvents := pendingEvents s; eventSequence := eventSequence s; closed := true;
     logged := logged s; console := console s |}.

(** ** Streams *)

Section Streams.
(** A writer: bytes taken and error *)
Context {W : Type}.
Definition writer : Type := string -> W -> (nat * option string) * W.

Definition writeStream (destination : option writer) (data : string) (w : W) : option string * W :=
  match destination with
  | None => (None, w)
  | Some write =>
      let '((written, err), w) := write data w in
      match err with
      | Some e => (Some e, w)
      | None => (if (written =? String.length data)%nat then None else Some "short write", w)
      end
  end.

(** [streamWriter.Write]: log, console, observer, stopping at the first error *)
Definition streamWrite (log console observer : option writer) (data : string) (w : W) : (nat * option string) * W :=
  let '(e1, w) := writeStream log data w in
  match e1 with
  | Some e => ((0%nat, Some e), w)
  | None =>
      let '(e2, w) := writeStream console data w in
      match e2 with
      | Some e => ((0%nat, Some e), w)
      | None =>
          let '(e3, w) := writeStream observer data w in
          match e3 with
          | Some e => ((0%nat, Some e), w)
          | None => ((String.length data, None), w)
          end
      end
  end.
End Streams.
End Session.
