(* ===== verification/SessionTheorems.v ===== *)
(** Coalescing the events of single rows is invisible: the dashboard behind the
    queue ends with the rows it would have had without one; with the end of a
    phase in the queue it may not.  The batch does not depend on map order, a
    closed session changes nothing, and details are cut at rune boundaries. *)
From stdpp Require Import prelude gmap strings list sorting.
From Stdlib Require Import Ascii ZArith Lia.
From S2P Require Import Prelude GoStrings Utf8 Progress Tail Dashboard DashboardTheorems Session.

Module SessionTheorems.
Import Utf8 Progress Dashboard DashboardTheorems Session.

(** ** Keys *)

(** An event of one row: no phase-wide event, a phase name without a slash, a
    state the program reports, and restarts only on running events. *)
Definition rowable (e : Event) : Prop :=
  ID e <> "*" /\ IndexByte (Phase e) "/" = None /\ EState e <> Pending /\ (Restart e = true -> EState e = Running).

Lemma key_inj_strings p i p' i' : IndexByte p "/" = None -> IndexByte p' "/" = None ->
  p +:+ "/" +:+ i = p' +:+ "/" +:+ i' -> p = p' /\ i = i'.
Proof.
  intros Hp Hp' H. assert (forall q j, IndexByte q "/" = None -> IndexByte (q +:+ "/" +:+ j) "/" = Some (String.length q)) as Hidx.
  { intros q j Hq. rewrite (IndexByte_append_None q _ _ Hq). change ("/" +:+ j) with (String "/" j). cbn [IndexByte].
    rewrite Ascii.eqb_refl. simpl. f_equal. lia. }
  pose proof (Hidx p i Hp) as H1. rewrite H, (Hidx p' i' Hp') in H1. injection H1 as Hlen.
  assert (p = p') as ->.
  { apply (f_equal (str_take (String.length p))) in H. rewrite str_take_append in H. by rewrite H, <- Hlen, str_take_append. }
  split; [done|]. apply str_append_inj_l in H. change ("/" +:+ i) with (String "/" i) in H. by injection H.
Qed.

Lemma key_inj e e' : rowable e -> rowable e' -> eventKey e = eventKey e' -> Phase e = Phase e' /\ ID e = ID e'.
Proof. intros (_ & Hp & _) (_ & Hp' & _). by apply key_inj_strings. Qed.

Lemma rowable_normalize now e : rowable e -> rowable (normalize now e).
Proof. unfold rowable, normalize, stamp. by destruct (Time e =? 0)%Z. Qed.

Lemma rowable_merged pending e : rowable e -> rowable (merged pending e) /\ eventKey (merged pending e) = eventKey e /\
  EState (merged pending e) = EState e.
Proof.
  intros He. unfold merged. destruct pending as [p|]; [|done]. destruct (Restart (qevent p)); [|done]. simpl.
  case_bool_decide as Hr; [|done]. destruct He as (H1 & H2 & H3 & _). by repeat split.
Qed.

(** ** One row *)

Section Rows.
Context `{UC : UnicodeCase}.

Definition ocore (row : option itemModel) : option (State * string * Z * Z * Z * Z * Z) := core <$> row.

(** What the row of [e] becomes *)
Definition stepRow (e : Event) (row : option itemModel) : option itemModel := Some (updateItem e (default (freshItem e) row)).

Lemma updateItem_core e item item' : core item = core item' -> core (updateItem e item) = core (updateItem e item').
Proof.
  unfold core, updateItem. intros [= H1 H2 H3 H4 H5 H6 H7]. rewrite H1.
  destruct (terminal (istate item') && bool_decide (EState e = Running) && negb (Restart e)); simpl; congruence.
Qed.

Lemma stepRow_core e e' row row' : core (updateItem e (default (freshItem e) row)) = core (updateItem e' (default (freshItem e) row)) ->
  ocore row = ocore row' -> ocore (stepRow e row) = ocore (stepRow e' row').
Proof.
  intros He Hrow. unfold ocore, stepRow in *. simpl. f_equal. rewrite He. apply updateItem_core.
  destruct row, row'; simpl in *; try done; congruence.
Qed.

Definition applied (e : Event) (item : itemModel) : bool :=
  negb (terminal (istate item) && bool_decide (EState e = Running) && negb (Restart e)).

Lemma core_update e item : core (updateItem e item) =
  if applied e item then (EState e, Detail e, ECurrent e, Total e, BytesCurrent e, BytesTotal e, Time e) else core item.
Proof. unfold core, updateItem, applied. by destruct (_ && _ && _). Qed.

(** Merging a newer event into a queued one: applying the merged event alone
    has the effect of applying both. *)
Lemma merged_effect p e item : rowable (qevent p) -> rowable e ->
  core (updateItem e (updateItem (qevent p) item)) =
  core (updateItem (if negb (terminal (EState (qevent p))) || negb (bool_decide (EState (merged (Some p) e) = Running)) || Restart (merged (Some p) e)
        then merged (Some p) e else qevent p) item).
Proof.
  intros (_ & _ & Hp1 & Hp2) (_ & _ & He1 & He2). unfold merged.
  destruct (Restart (qevent p)) eqn:Hrp, (EState (qevent p)) eqn:Hsp, (EState e) eqn:Hse; try done; simpl;
    try (specialize (Hp2 eq_refl); discriminate);
    try (destruct (Restart e) eqn:Hre; [specialize (He2 eq_refl); discriminate|]);
    try (destruct (Restart e) eqn:Hre);
    rewrite ?core_update; unfold applied, updateItem; rewrite ?Hrp, ?Hsp, ?Hse, ?Hre; simpl; rewrite ?Hrp, ?Hsp, ?Hse, ?Hre; simpl;
    destruct (terminal (istate item)) eqn:Hti; simpl; rewrite ?Hsp, ?Hti; simpl; rewrite ?Hse, ?Hsp, ?Hre, ?Hti; simpl; done.
Qed.

Definition targets (e : Event) (phase id : string) : Prop := Phase e = phase /\ ID e = id.

Lemma rowEvent_target e phase id row : rowable e -> targets e phase id -> rowEvent e phase id row = stepRow e row.
Proof.
  intros (Hs & _) [<- <-]. unfold rowEvent. rewrite !String.eqb_refl. by destruct (String.eqb_spec (ID e) "*").
Qed.

Lemma rowEvent_other e phase id row : rowable e -> ~ targets e phase id -> rowEvent e phase id row = row.
Proof.
  intros (Hs & _) Hno. unfold rowEvent. destruct (String.eqb_spec phase (Phase e)) as [->|]; [|done].
  destruct (String.eqb_spec (ID e) "*"); [done|]. destruct (String.eqb_spec id (ID e)) as [->|]; [|done]. exfalso. by apply Hno.
Qed.

(** A list of events with different keys touches a row at most once. *)
Lemma rowEvents_none es phase id row : Forall rowable es -> (forall e, e ∈ es -> ~ targets e phase id) ->
  rowEvents es phase id row = row.
Proof.
  intros HF. induction HF as [|e es He _ IH]; intros Hno; [done|]. cbn [rowEvents fold_left].
  rewrite rowEvent_other; [|done|apply Hno; set_solver]. apply IH. intros; apply Hno; set_solver.
Qed.

Lemma rowEvents_one es phase id row e : Forall rowable es -> NoDup (eventKey <$> es) -> e ∈ es -> targets e phase id ->
  rowEvents es phase id row = stepRow e row.
Proof.
  intros HF. induction HF as [|x es Hx HF IH]; intros Hnd He Ht; [by apply elem_of_nil in He|].
  cbn [fmap list_fmap] in Hnd. apply NoDup_cons in Hnd as [Hni Hnd]. cbn [rowEvents fold_left].
  apply elem_of_cons in He as [->|He].
  - rewrite rowEvent_target by done. apply rowEvents_none; [done|]. intros y Hy Hty. apply Hni.
    apply list_elem_of_fmap. exists y. split; [|done]. unfold eventKey. destruct Ht as [-> ->], Hty as [-> ->]. done.
  - rewrite rowEvent_other; [by apply IH|done|]. intros Htx. apply Hni. apply list_elem_of_fmap. exists e. split; [|done].
    unfold eventKey. destruct Ht as [-> ->], Htx as [-> ->]. done.
Qed.

(** ** The queue *)

Definition queue_ok (queue : gmap string queuedProgress) : Prop :=
  forall k q, queue !! k = Some q -> eventKey (qevent q) = k /\ rowable (qevent q).

Definition queued (queue : gmap string queuedProgress) (phase id : string) (row : option itemModel) : option itemModel :=
  match queue !! (phase +:+ "/" +:+ id) with Some q => stepRow (qevent q) row | None => row end.

Lemma batch_keys queue : queue_ok queue -> eventKey <$> (qevent <$> (map_to_list queue).*2) = (map_to_list queue).*1.
Proof.
  intros Hok. rewrite <- !list_fmap_compose. apply list_fmap_ext. intros i [k q] Hi. simpl.
  apply list_elem_of_lookup_2, elem_of_map_to_list in Hi. by apply (Hok k q).
Qed.

(** Sending the queue applies its event to each row. *)
Lemma flush_rows queue phase id row : queue_ok queue -> IndexByte phase "/" = None ->
  rowEvents (qevent <$> sortBatch (map_to_list queue).*2) phase id row = queued queue phase id row.
Proof.
  intros Hok Hp. set (es := qevent <$> sortBatch _).
  assert (es ≡ₚ qevent <$> (map_to_list queue).*2) as Hperm by (by unfold es, sortBatch; rewrite merge_sort_Permutation).
  assert (Forall rowable es) as HF.
  { rewrite Hperm. apply Forall_fmap, Forall_fmap, Forall_forall. intros [k q] Hq%elem_of_map_to_list. by apply (Hok k q). }
  assert (NoDup (eventKey <$> es)) as Hnd.
  { rewrite Hperm, batch_keys by done. apply NoDup_fst_map_to_list. }
  assert (forall e, e ∈ es <-> exists k q, queue !! k = Some q /\ e = qevent q) as Hin.
  { intros e. rewrite Hperm, list_elem_of_fmap. setoid_rewrite list_elem_of_fmap. split.
    - intros (q & -> & ([k q'] & -> & Hq%elem_of_map_to_list)). eauto.
    - intros (k & q & Hq & ->). exists q. split; [done|]. exists (k, q). split; [done|]. by apply elem_of_map_to_list. }
  unfold queued. destruct (queue !! (phase +:+ "/" +:+ id)) as [q|] eqn:Hq.
  - destruct (Hok _ _ Hq) as [Hk Hr]. apply rowEvents_one; [done|done|apply Hin; eauto|].
    destruct Hr as (_ & Hs & _). by apply key_inj_strings in Hk.
  - apply rowEvents_none; [done|]. intros e (k & q & Hkq & ->)%Hin [<- <-]. destruct (Hok _ _ Hkq) as [Hk _].
    unfold eventKey in Hk. congruence.
Qed.

Lemma enqueue_ok e n queue : queue_ok queue -> rowable e -> queue_ok (enqueue e n queue).2.
Proof.
  intros Hok He. unfold enqueue. cbv zeta. destruct (_ || _ || _); [|done]. cbn [snd]. intros k q.
  destruct (rowable_merged (queue !! eventKey e) e He) as (Hm & Hk & _).
  destruct (decide (k = eventKey e)) as [->|Hne]; [rewrite lookup_insert_eq; intros [= <-]; done|].
  rewrite lookup_insert_ne by done. apply Hok.
Qed.

(** Queueing an event has the effect of applying it after what is queued. *)
Lemma enqueue_rows e n queue phase id row : queue_ok queue -> rowable e -> IndexByte phase "/" = None ->
  ocore (queued (enqueue e n queue).2 phase id row) = ocore (rowEvent e phase id (queued queue phase id row)).
Proof.
  intros Hok He Hp. destruct (decide (Phase e = phase /\ ID e = id)) as [Ht|Hno].
  - rewrite (rowEvent_target e) by done. destruct Ht as [<- <-]. unfold queued, enqueue. cbv zeta. fold (eventKey e).
    destruct (queue !! eventKey e) as [p|] eqn:Hpend.
    + destruct (Hok _ _ Hpend) as [_ Hrp].
      pose proof (merged_effect p e (default (freshItem (qevent p)) row) Hrp He) as Hm.
      destruct (_ || _ || _) eqn:Hc; cbn [snd].
      * rewrite lookup_insert_eq. unfold stepRow at 1 2. unfold ocore, stepRow. simpl. f_equal. rewrite Hm.
        apply updateItem_core. by destruct row.
      * rewrite Hpend. unfold ocore, stepRow. simpl. f_equal. by rewrite Hm.
    + simpl. by rewrite lookup_insert_eq.
  - rewrite (rowEvent_other e) by done. unfold queued, enqueue. cbv zeta. destruct (_ || _ || _); [|done]. cbn [snd].
    rewrite lookup_insert_ne; [done|]. intros Hk. apply Hno. destruct He as (_ & Hs & _). by apply key_inj_strings in Hk.
Qed.

(** ** Runs of a session *)

Inductive op := OReport (now : Z) (e : Event) | OFlush (now : Z).

Context {Completion : Type}.
Abbreviation model := (Dashboard.model Completion).

(** The session and the dashboard behind its queue *)
Definition opStep (st : session * option model) (o : op) : session * option model :=
  match o with
  | OReport now e => (reportUnlocked now e st.1, st.2)
  | OFlush now => let '(batch, s) := sendPendingEvents st.1 in (s, m ← st.2; applyBatch Completion now batch m)
  end.
Definition runOps (ops : list op) (s : session) (m : model) : session * option model := fold_left opStep ops (s, Some m).

Definition op_ok (o : op) : Prop := match o with OReport _ e => rowable e | OFlush _ => True end.

(** The rows with the queue applied are the rows of the log replayed. *)
Definition coalesced (m0 : model) (s : session) (m : model) : Prop :=
  interactive s = true /\ closed s = false /\ model_wf m /\ queue_ok (pendingEvents s) /\
  forall phase id, IndexByte phase "/" = None ->
    ocore (queued (pendingEvents s) phase id (rowAt m phase id)) = ocore (rowEvents (logged s) phase id (rowAt m0 phase id)).

Lemma report_coalesced m0 s m now e : coalesced m0 s m -> rowable e -> coalesced m0 (reportUnlocked now e s) m.
Proof.
  intros (Hi & Hc & Hwf & Hq & Hrows) He. pose proof (rowable_normalize now e He) as Hn. unfold reportUnlocked.
  rewrite Hc, Hi. destruct (duplicate (normalize now e) s); [done|].
  destruct (enqueue (normalize now e) (eventSequence s) (pendingEvents s)) as [n queue] eqn:Henq.
  pose proof (enqueue_ok _ (eventSequence s) _ Hq Hn) as Hq'. rewrite Henq in Hq'.
  split; [done|]. split; [done|]. split; [done|]. split; [done|]. intros phase id Hp. cbn [pendingEvents logged].
  pose proof (enqueue_rows (normalize now e) (eventSequence s) _ phase id (rowAt m phase id) Hq Hn Hp) as Hr.
  rewrite Henq in Hr. cbn [snd] in Hr. rewrite Hr. unfold rowEvents. rewrite fold_left_app. cbn [fold_left].
  fold (rowEvents (logged s) phase id (rowAt m0 phase id)). specialize (Hrows phase id Hp).
  destruct (decide (targets (normalize now e) phase id)) as [Ht|Ht].
  - rewrite !rowEvent_target by done. by apply stepRow_core.
  - by rewrite !rowEvent_other.
Qed.

Lemma flush_coalesced m0 s m now : coalesced m0 s m ->
  let '(batch, s') := sendPendingEvents s in
  exists m', applyBatch Completion now batch m = Some m' /\ coalesced m0 s' m' /\ pendingEvents s' = ∅ /\ logged s' = logged s.
Proof.
  intros (Hi & Hc & Hwf & Hq & Hrows). unfold sendPendingEvents.
  destruct (applyBatch_spec now (sortBatch (map_to_list (pendingEvents s)).*2) m Hwf) as (m' & Ha & Hwf' & _ & Hr).
  exists m'. split; [done|]. split; [|done]. split; [done|]. split; [done|]. split; [done|]. cbn [pendingEvents logged].
  split; [by intros k q Hk; rewrite lookup_empty in Hk|]. intros phase id Hp.
  rewrite <- Hrows by done. unfold queued at 1. rewrite lookup_empty, Hr. by rewrite flush_rows.
Qed.

Lemma runOps_coalesced ops m0 s m : Forall op_ok ops -> coalesced m0 s m ->
  exists s' m', fold_left opStep ops (s, Some m) = (s', Some m') /\ coalesced m0 s' m'.
Proof.
  intros HF. revert s m. induction HF as [|o ops Ho _ IH]; intros s m Hco; [by exists s, m|]. cbn [fold_left].
  destruct o as [now e|now]; cbn [opStep fst snd].
  - apply IH. by apply report_coalesced.
  - pose proof (flush_coalesced m0 s m now Hco) as H. destruct (sendPendingEvents s) as [batch s'].
    destruct H as (m' & Ha & Hco' & _). simpl. rewrite Ha. by apply IH.
Qed.

Lemma new_coalesced m0 : model_wf m0 -> coalesced m0 (newSession false true) m0.
Proof.
  intros Hwf. split; [done|]. split; [done|]. split; [done|]. split; [intros k q Hk; cbn [pendingEvents newSession] in Hk; by rewrite lookup_empty in Hk|].
  intros phase id _. unfold queued. cbn [pendingEvents logged newSession]. by rewrite lookup_empty.
Qed.

(** C25. Coalescing the events of single rows is invisible.  Where every reported
    event is one of a row (not the [*] that ends a phase) of a phase whose name
    has no slash, is running, complete or failed, and restarts only when it runs,
    and whenever the queue is sent in between: once it is sent, the state, detail,
    counters and time of every row of the dashboard are those of replaying, one by
    one and in order, every event the session logged.  Labels are not compared,
    and with the end of a phase in the queue the claim is false
    ([late_update_outlives_finish]). *)
Theorem coalescing_faithful ops now m0 : Forall op_ok ops -> model_wf m0 ->
  exists s m, runOps (ops ++ [OFlush now]) (newSession false true) m0 = (s, Some m) /\
    forall phase id, IndexByte phase "/" = None ->
      ocore (rowAt m phase id) = ocore (rowEvents (logged s) phase id (rowAt m0 phase id)).
Proof.
  intros HF Hwf. unfold runOps. rewrite fold_left_app. cbn [fold_left].
  destruct (runOps_coalesced ops m0 (newSession false true) m0 HF (new_coalesced m0 Hwf)) as (s & m & -> & Hco).
  cbn [opStep fst snd]. pose proof (flush_coalesced m0 s m now Hco) as H. destruct (sendPendingEvents s) as [batch s'].
  destruct H as (m' & Ha & (_ & _ & _ & _ & Hrows) & Hp & _). exists s', m'. split; [simpl; by rewrite Ha|].
  intros phase id Hph. specialize (Hrows phase id Hph). unfold queued in Hrows. by rewrite Hp, lookup_empty in Hrows.
Qed.

(** ** The order of a batch *)

Definition sequences_ok (s : session) (bound : Z) : Prop :=
  (0 <= eventSequence s <= bound)%Z /\
  (forall k q, pendingEvents s !! k = Some q -> (sequence q <= eventSequence s)%Z) /\
  (forall k k' q q', pendingEvents s !! k = Some q -> pendingEvents s !! k' = Some q' -> sequence q = sequence q' -> k = k').

Lemma enqueue_sequences s e bound n queue : sequences_ok s bound -> (bound + 1 < 2 ^ 64)%Z ->
  enqueue e (eventSequence s) (pendingEvents s) = (n, queue) ->
  (0 <= n <= bound + 1)%Z /\ (forall k q, queue !! k = Some q -> (sequence q <= n)%Z) /\
  (forall k k' q q', queue !! k = Some q -> queue !! k' = Some q' -> sequence q = sequence q' -> k = k').
Proof.
  intros (Hb & Hle & Hinj) Hmax. unfold enqueue. cbv zeta. destruct (_ || _ || _); intros [= <- <-]; [|split; [lia|done]].
  rewrite Z.mod_small by lia. split; [lia|]. split.
  - intros k q Hk. destruct (decide (k = eventKey e)) as [->|Hne]; [rewrite lookup_insert_eq in Hk; injection Hk as <-; simpl; lia|].
    rewrite lookup_insert_ne in Hk by done. specialize (Hle k q Hk). lia.
  - intros k k' q q' Hk Hk' Heq.
    destruct (decide (k = eventKey e)) as [->|Hne], (decide (k' = eventKey e)) as [->|Hne']; [done|..];
      rewrite ?lookup_insert_eq, ?lookup_insert_ne in Hk by done; rewrite ?lookup_insert_eq, ?lookup_insert_ne in Hk' by done.
    + injection Hk as <-. specialize (Hle k' q' Hk'). simpl in Heq. lia.
    + injection Hk' as <-. specialize (Hle k q Hk). simpl in Heq. lia.
    + by eapply Hinj.
Qed.

Lemma step_sequences st o bound : sequences_ok st.1 bound -> (bound + 1 < 2 ^ 64)%Z -> sequences_ok (opStep st o).1 (bound + 1).
Proof.
  intros Hok Hmax. assert (sequences_ok st.1 (bound + 1)) as Hok' by (destruct Hok as (H1 & H2); split; [lia|done]).
  destruct o as [now e|now]; cbn [opStep].
  - cbn [fst]. unfold reportUnlocked. destruct (closed st.1); [done|]. destruct (duplicate _ _); [done|].
    destruct (interactive st.1).
    + destruct (enqueue (normalize now e) (eventSequence st.1) (pendingEvents st.1)) as [n queue] eqn:Henq.
      by apply (enqueue_sequences st.1 _ bound n queue) in Henq.
    + done.
  - simpl. destruct Hok' as (H1 & _). split; [done|]. split; intros *; cbn [pendingEvents]; by rewrite lookup_empty.
Qed.

Lemma run_sequences ops st bound : sequences_ok st.1 bound -> (bound + Z.of_nat (length ops) < 2 ^ 64)%Z ->
  sequences_ok (fold_left opStep ops st).1 (bound + Z.of_nat (length ops)).
Proof.
  revert st bound. induction ops as [|o ops IH]; intros st bound Hok Hmax; [by rewrite Z.add_0_r|]. cbn [fold_left length] in *.
  replace (bound + Z.of_nat (S (length ops)))%Z with ((bound + 1) + Z.of_nat (length ops))%Z by lia.
  apply IH; [|lia]. apply step_sequences; [done|lia].
Qed.

(** Sorting by distinct sequence numbers has one result. *)
Lemma sortBatch_perm l l' : NoDup (sequence <$> l) -> l ≡ₚ l' -> sortBatch l = sortBatch l'.
Proof.
  intros Hnd Hperm. unfold sortBatch.
  assert (Transitive earlier) by (intros a b c; unfold earlier; lia).
  assert (stdpp.base.Total earlier) by (intros a b; unfold earlier; lia).
  apply (StronglySorted_unique_strong earlier).
  - intros a b Ha Hb H1 H2. rewrite merge_sort_Permutation in Ha, Hb. rewrite <- Hperm in Hb.
    unfold earlier in *. apply list_elem_of_lookup in Ha as [i Hi]. apply list_elem_of_lookup in Hb as [j Hj].
    enough (i = j) as -> by congruence. eapply (NoDup_lookup _ i j (sequence a) Hnd); rewrite list_lookup_fmap, ?Hi, ?Hj; simpl; [done|]. f_equal. lia.
  - by apply StronglySorted_merge_sort.
  - by apply StronglySorted_merge_sort.
  - by rewrite !merge_sort_Permutation.
Qed.

(** The batch does not depend on the order in which Go iterates the map:
    in every session of fewer than 2^64 reports, sorting any iteration of the
    queue by sequence number gives the same batch, so the dashboard applies
    queued events in the order of their last update. *)
Theorem batch_independent_of_map_order ops m0 iteration :
  let s := (runOps ops (newSession false true) m0).1 in
  (Z.of_nat (length ops) < 2 ^ 64)%Z -> iteration ≡ₚ (map_to_list (pendingEvents s)).*2 ->
  sortBatch iteration = (sendPendingEvents s).1.
Proof.
  intros s Hlen Hperm. symmetry. apply sortBatch_perm; [|done].
  assert (sequences_ok s (0 + Z.of_nat (length ops))) as (_ & _ & Hinj).
  { apply (run_sequences ops (newSession false true, Some m0) 0); [|simpl; lia].
    split; [simpl; lia|]. split; intros *; cbn [pendingEvents fst newSession]; by rewrite lookup_empty. }
  rewrite <- list_fmap_compose. apply NoDup_fmap_2_strong; [|apply NoDup_map_to_list].
  intros [k q] [k' q'] Hk%elem_of_map_to_list Hk'%elem_of_map_to_list Heq. simpl in Heq.
  pose proof (Hinj k k' q q' Hk Hk' Heq) as ->. congruence.
Qed.
End Rows.

(** ** Details *)

Lemma validEnd_spec limit detail : (validEnd limit detail <= limit)%nat /\
  (validEnd limit detail = 0%nat \/ ValidString (str_take (validEnd limit detail) detail) = true) /\
  forall k, (k <= limit)%nat -> ValidString (str_take k detail) = true -> (k <= validEnd limit detail)%nat.
Proof.
  induction limit as [|limit (IH1 & IH2 & IH3)]; [cbn; split; [lia|]; split; [by left|lia]|].
  cbn [validEnd]. destruct (ValidString (str_take (S limit) detail)) eqn:Hv; [split; [lia|]; split; [by right|lia]|].
  split; [lia|]. split; [done|]. intros k Hk Hvk. destruct (decide (k = S limit)) as [->|]; [congruence|]. apply IH3; [lia|done].
Qed.

Lemma ellipsis_length : String.length Tail.ellipsis = 3%nat.
Proof. reflexivity. Qed.

#[local] Opaque displayDetailLimit Tail.ellipsis.

(** A displayed detail is at most 4 KiB plus an ellipsis, and cutting it
    never breaks a rune: a valid UTF-8 detail stays valid and loses, of its
    first 4 KiB, at most the three bytes of one cut rune. *)
Theorem boundedDetail_cut detail :
  (String.length (boundedDetail detail) <= displayDetailLimit + 3)%nat /\
  (ValidString detail = true -> ValidString (boundedDetail detail) = true /\
     ((displayDetailLimit < String.length detail)%nat ->
      exists k, (displayDetailLimit < k + 4)%nat /\ boundedDetail detail = str_take k detail +:+ Tail.ellipsis)).
Proof.
  unfold boundedDetail. destruct (validEnd_spec displayDetailLimit detail) as (Hle & Hor & Hmax).
  destruct (Nat.leb_spec (String.length detail) displayDetailLimit) as [Hs|Hl].
  - split; [lia|]. intros Hv. split; [done|]. intros ?. lia.
  - split; [rewrite str_length_append, str_length_take, ellipsis_length; lia|]. intros Hv.
    destruct (valid_prefix detail displayDetailLimit Hv ltac:(lia)) as (k & Hk & Hvk).
    pose proof (Hmax k ltac:(lia) Hvk) as Hkm. split.
    + rewrite ValidString_append; [done|]. destruct Hor as [H0|H]; [|done].
      rewrite H0. done.
    + intros _. exists (validEnd displayDetailLimit detail). split; [lia|done].
Qed.

#[local] Transparent displayDetailLimit Tail.ellipsis.

(** ** Concrete sessions *)

Definition opsA : list op :=
  [OReport 1 (Start Orchestration "node:cp-0" "Node cp-0" "cordoning");
   OReport 2 (Done Orchestration "node:cp-0" "Node cp-0" "upgrade complete; schedulable");
   OReport 3 (event Orchestration "node:cp-0" "Node cp-0" "upgrading" Running);
   OFlush 4;
   OReport 5 (Start Orchestration "node:cp-1" "Node cp-1" "cordoning")].

Lemma opsA_ok : Forall op_ok opsA.
Proof. repeat constructor; discriminate. Qed.

Lemma coalescing_faithful_witness : exists s m,
  runOps (opsA ++ [OFlush 6]) (newSession false true) model0 = (s, Some m) /\ length (logged s) = 4%nat /\
  ocore (rowAt m Orchestration "node:cp-0") = ocore (rowEvents (logged s) Orchestration "node:cp-0" (rowAt model0 Orchestration "node:cp-0")).
Proof.
  destruct (coalescing_faithful opsA 6 model0 opsA_ok model0_wf) as (s & m & Hrun & Hrows). exists s, m. split; [exact Hrun|].
  split; [|apply Hrows; reflexivity].
  apply (f_equal (fun r => length (logged r.1))) in Hrun. vm_compute in Hrun. symmetry. exact Hrun.
Defined.

Lemma batch_independent_of_map_order_witness :
  let s := (runOps opsA (newSession false true) model0).1 in
  sortBatch (reverse (map_to_list (pendingEvents s)).*2) = (sendPendingEvents s).1.
Proof.
  apply (batch_independent_of_map_order opsA model0); [reflexivity|apply reverse_Permutation].
Defined.

(** Deduplication ignores restarts: a restart whose detail equals that of
    a late update before it is dropped, so the row stays complete although a
    new lifecycle was started. *)
Theorem restart_deduplicated :
  let ops :=
    [OReport 1 (Start Orchestration "health" "Health" "checking cluster health");
     OReport 2 (Done Orchestration "health" "Health" "3/3 nodes healthy");
     OReport 3 (Update Orchestration "health" "Health" "checking cluster health" 0 0);
     OReport 4 (Start Orchestration "health" "Health" "checking cluster health");
     OFlush 5] in
  (m ← (runOps ops (newSession false true) model0).2; istate <$> rowAt m Orchestration "health") = Some Complete.
Proof. vm_compute. reflexivity. Qed.

(** The end of a phase is an entry of its own in the queue: an update that comes
    after it moves the queued event of its row behind it.  The row is running,
    where the replay of the log leaves it complete. *)
Example late_update_outlives_finish :
  let ops :=
    [OReport 1 (Start Orchestration "health" "Health" "checking cluster health");
     OReport 2 (Finish Orchestration Complete "cluster ready");
     OReport 3 (Update Orchestration "health" "Health" "2/3 nodes healthy" 0 0);
     OFlush 4] in
  let '(s, m) := runOps ops (newSession false true) model0 in
  (m ← m; istate <$> rowAt m Orchestration "health") = Some Running /\
  (istate <$> rowEvents (logged s) Orchestration "health" (rowAt model0 Orchestration "health")) = Some Complete.
Proof. vm_compute. by split. Qed.
End SessionTheorems.
