(* ===== verification/Observer.v ===== *)
(** The line splitter between a subprocess and the output parser:
    [lineObserver] of [cli/tui/parser.go]. *)
From stdpp Require Import prelude strings list.
From Stdlib Require Import Ascii ZArith Lia.
From S2P Require Import Prelude GoStrings.

Module Observer.

Definition observedLineLimit : N := 128 * 1024.
Definition lf : ascii := "010".

Record lineObserver := { buffer : string; drop : bool }.
Definition newObserver : lineObserver := {| buffer := ""; drop := false |}.

(** [flush]: the line passed to [observeLine], and the observer after it *)
Definition flush (o : lineObserver) : list string * lineObserver :=
  (if negb (drop o) && negb (String.eqb (buffer o) "") then [buffer o] else [], newObserver).

(** The buffering of one part without a newline *)
Definition take_part (part : string) (o : lineObserver) : lineObserver :=
  if drop o then o
  else
    let remaining := (Z.of_N observedLineLimit - Z.of_nat (String.length (buffer o)))%Z in
    if (Z.of_nat (String.length part) <=? remaining)%Z
    then {| buffer := buffer o +:+ part; drop := false |}
    else {| buffer := ""; drop := true |}.

(** The loop of [Write]: bytes consumed, lines observed, observer *)
Fixpoint write (fuel : nat) (data : string) (o : lineObserver) : nat * list string * lineObserver :=
  match fuel with
  | O => (0, [], o)
  | S fuel =>
      if String.eqb data "" then (0, [], o)
      else
        match IndexByte data lf with
        | None => (String.length data, [], take_part data o)
        | Some newline =>
            let part := str_take newline data in
            let '(lines, o) := flush (take_part part o) in
            let '(consumed, rest, o) := write fuel (str_drop (S newline) data) o in
            (S (String.length part + consumed), lines ++ rest, o)
        end
  end.
Definition Write (data : string) (o : lineObserver) : nat * list string * lineObserver :=
  write (S (String.length data)) data o.

Definition Close (o : lineObserver) : list string * lineObserver :=
  let '(lines, o) := if negb (String.eqb (buffer o) "") && negb (drop o) then flush o else ([], o) in
  (lines, {| buffer := ""; drop := drop o |}).

(** ** The stream *)

(** The observer after the unfinished line [cur] *)
Definition observing (cur : string) : lineObserver :=
  if (N.of_nat (String.length cur) <=? observedLineLimit)%N then {| buffer := cur; drop := false |} else {| buffer := ""; drop := true |}.

(** The lines that are passed on: not empty and not too long *)
Definition observed (line : string) : bool :=
  negb (String.eqb line "") && (N.of_nat (String.length line) <=? observedLineLimit)%N.

Lemma take_part_observing part cur : take_part part (observing cur) = observing (cur +:+ part).
Proof.
  unfold take_part, observing. rewrite str_length_append. 
  destruct (N.leb_spec (N.of_nat (String.length cur)) observedLineLimit) as [H|H]; cbn [drop buffer].
  - destruct (Z.leb_spec (Z.of_nat (String.length part)) (Z.of_N observedLineLimit - Z.of_nat (String.length cur)));
      destruct (N.leb_spec (N.of_nat (String.length cur + String.length part)) observedLineLimit); done || lia.
  - destruct (N.leb_spec (N.of_nat (String.length cur + String.length part)) observedLineLimit); done || lia.
Qed.

Lemma flush_observing cur : flush (observing cur) = (if observed cur then [cur] else [], newObserver).
Proof.
  unfold flush, observing, observed. destruct (_ <=? _)%N; cbn [drop buffer]; by destruct (String.eqb cur "").
Qed.

(** The lines of a stream: all but the last piece between newlines *)
Definition completeLines (s : string) : list string := removelast (Split s lf).
Definition lastLine (s : string) : string := default "" (last (Split s lf)).

Lemma removelast_app_cons {A} (x : A) r : r <> [] -> removelast (x :: r) = x :: removelast r.
Proof. by destruct r. Qed.

Lemma Split_prefix cur data newline : IndexByte data lf = Some newline -> IndexByte cur lf = None ->
  Split (cur +:+ data) lf = (cur +:+ str_take newline data) :: Split (str_drop (S newline) data) lf.
Proof.
  intros Hi Hc. apply IndexByte_Some in Hi as (Hd & Hno).
  rewrite Hd at 1. rewrite <- str_append_assoc. rewrite <- Split_append_sep; [done|].
  rewrite IndexByte_append_None by done. by rewrite Hno.
Qed.

Lemma write_spec fuel data cur : (String.length data < fuel)%nat -> IndexByte cur lf = None ->
  write fuel data (observing cur) =
  (String.length data, List.filter observed (completeLines (cur +:+ data)), observing (lastLine (cur +:+ data))) /\
  IndexByte (lastLine (cur +:+ data)) lf = None.
Proof.
  revert data cur. induction fuel as [|fuel IH]; intros data cur Hf Hc; [lia|]. cbn [write]. unfold completeLines, lastLine.
  destruct (String.eqb_spec data "") as [->|Hne].
  { rewrite str_append_nil_r, Split_word by done. done. }
  destruct (IndexByte data lf) as [newline|] eqn:Hi.
  - rewrite take_part_observing, flush_observing. rewrite (Split_prefix cur data newline Hi Hc).
    assert (newline < String.length data)%nat as Hlen.
    { apply IndexByte_Some in Hi as [Hd _]. apply (f_equal String.length) in Hd. rewrite str_length_append, str_length_take in Hd.
      cbn [String.length] in Hd. lia. }
    destruct (IH (str_drop (S newline) data) "") as [Hw Hl]; [rewrite str_length_drop; lia|done|].
    change newObserver with (observing ""). rewrite Hw. rewrite str_append_nil_l in *. unfold completeLines, lastLine in *.
    pose proof (Split_nonempty (str_drop (S newline) data) lf) as Hsn.
    rewrite removelast_app_cons by done. split.
    + f_equal; [|by destruct (Split (str_drop (S newline) data) lf)]. cbn [List.filter]. f_equal.
      * rewrite str_length_take, str_length_drop. lia.
      * by destruct (observed (cur +:+ str_take newline data)).
    + by destruct (Split (str_drop (S newline) data) lf).
  - rewrite take_part_observing.
    assert (IndexByte (cur +:+ data) lf = None) as Hno by (rewrite IndexByte_append_None, Hi; done).
    rewrite Split_word by done. done.
Qed.

Lemma Split_append a b : Split (a +:+ b) lf = completeLines a ++ Split (lastLine a +:+ b) lf.
Proof.
  unfold completeLines, lastLine. induction a as [|c a IH]; [done|]. rewrite str_append_cons. cbn [Split].
  pose proof (Split_nonempty a lf) as Hne. pose proof (Split_no_sep a lf) as Hno.
  destruct (Ascii.eqb c lf) eqn:Hc.
  - rewrite IH, removelast_app_cons by done. cbn [app]. f_equal. by destruct (Split a lf).
  - destruct (Split a lf) as [|w ws] eqn:Hs; [done|]. rewrite IH. destruct ws as [|w' ws].
    + cbn. rewrite str_append_cons. cbn [Split]. rewrite Hc. done.
    + by rewrite !removelast_app_cons by done.
Qed.

Lemma lines_append a b : completeLines (a +:+ b) = completeLines a ++ completeLines (lastLine a +:+ b) /\
  lastLine (a +:+ b) = lastLine (lastLine a +:+ b).
Proof.
  pose proof (Split_nonempty (lastLine a +:+ b) lf) as Hne. split.
  - unfold completeLines at 1 3. by rewrite Split_append, removelast_app.
  - change (lastLine (a +:+ b)) with (default "" (last (Split (a +:+ b) lf))). rewrite Split_append, last_app.
    change (lastLine (lastLine a +:+ b)) with (default "" (last (Split (lastLine a +:+ b) lf))).
    by destruct (last (Split (lastLine a +:+ b) lf)) eqn:He; [|apply last_None in He].
Qed.

(** Writes one after the other: what each consumed, and every line observed *)
Fixpoint writes (chunks : list string) (o : lineObserver) : list nat * list string * lineObserver :=
  match chunks with
  | [] => ([], [], o)
  | data :: chunks =>
      let '(n, lines, o) := Write data o in
      let '(ns, rest, o) := writes chunks o in (n :: ns, lines ++ rest, o)
  end.

Definition stream (chunks : list string) : string := fold_right (fun a s => a +:+ s) "" chunks.

Lemma writes_spec chunks cur : IndexByte cur lf = None ->
  writes chunks (observing cur) =
  (String.length <$> chunks, List.filter observed (completeLines (cur +:+ stream chunks)), observing (lastLine (cur +:+ stream chunks))).
Proof.
  revert cur. induction chunks as [|data chunks IH]; intros cur Hc.
  { cbn [writes stream fold_right]. unfold completeLines, lastLine. rewrite str_append_nil_r, Split_word by done. done. }
  cbn [writes stream fold_right]. unfold Write. destruct (write_spec (S (String.length data)) data cur ltac:(lia) Hc) as [-> Hl].
  rewrite IH by done. fold (stream chunks). rewrite <- (str_append_assoc cur data).
  destruct (lines_append (cur +:+ data) (stream chunks)) as [-> ->]. by rewrite List.filter_app.
Qed.

Lemma Close_observing cur : (Close (observing cur)).1 = if observed cur then [cur] else [].
Proof.
  unfold Close. pose proof (flush_observing cur) as Hf. unfold observing, observed in *.
  destruct (_ <=? _)%N; cbn [drop buffer] in *; destruct (String.eqb cur ""); try done. by rewrite Hf.
Qed.

(** What the parser observes does not depend on how a subprocess writes:
    over any writes followed by the close, every byte is consumed and the
    lines passed on are exactly the lines of the whole output, in order, that
    are not empty and at most 128 KiB long. *)
Theorem observer_stream chunks :
  let '(consumed, lines, o) := writes chunks newObserver in
  consumed = String.length <$> chunks /\
  lines ++ (Close o).1 = List.filter observed (Split (stream chunks) lf).
Proof.
  change newObserver with (observing ""). rewrite writes_spec by done. rewrite str_append_nil_l. split; [done|].
  rewrite Close_observing. unfold completeLines, lastLine.
  destruct (Split (stream chunks) lf) as [|w ws] eqn:Hs using rev_ind; [by apply Split_nonempty in Hs|].
  rewrite removelast_last, last_snoc. cbn [default]. rewrite List.filter_app. done.
Qed.
End Observer.
