(* ===== verification/OutputParser.v ===== *)
(** What the dashboard learns from the output of Terraform and Ansible:
    [outputParser] of [cli/tui/parser.go].  Every operation returns the events
    it reports to the session and the parser after it; [None] is a slice out of
    range. *)
From stdpp Require Import prelude gmap strings list.
From Stdlib Require Import Ascii ZArith Lia.
From S2P Require Import Prelude GoStrings Utf8 Json Progress.

Module OutputParser.
Import Utf8 Progress.

Definition observedResourceLimit : nat := 512.

(** The fields of [process.Command] the parser reads *)
Record Command := { Name : string; Args : list string; Activity : Target }.

Record resourceSet := { expected : gset string; complete : gset string; failed : gset string }.

Inductive ansibleNodeStage :=
  | ansibleNodeIdle | ansibleNodeCordon | ansibleNodeDrain | ansibleNodeUpgrade | ansibleNodeUncordon.
#[export] Instance stage_eq_dec : EqDecision ansibleNodeStage.
Proof. solve_decision. Defined.

(** [activityTimer] is the target of the armed timer. *)
Record outputParser := {
  resources : gmap string resourceSet;
  seedActivity : bool;
  activity : string;
  activityTimer : option Target;
  nodeStage : ansibleNodeStage;
  activeNodes : gset string
}.

Definition newOutputParser : outputParser :=
  {| resources := ∅; seedActivity := false; activity := ""; activityTimer := None; nodeStage := ansibleNodeIdle; activeNodes := ∅ |}.

Definition set_resources (r : gmap string resourceSet) (p : outputParser) : outputParser :=
  {| resources := r; seedActivity := seedActivity p; activity := activity p; activityTimer := activityTimer p;
     nodeStage := nodeStage p; activeNodes := activeNodes p |}.
Definition set_seed (b : bool) (p : outputParser) : outputParser :=
  {| resources := resources p; seedActivity := b; activity := activity p; activityTimer := activityTimer p;
     nodeStage := nodeStage p; activeNodes := activeNodes p |}.
Definition set_activity (a : string) (t : option Target) (p : outputParser) : outputParser :=
  {| resources := resources p; seedActivity := seedActivity p; activity := a; activityTimer := t;
     nodeStage := nodeStage p; activeNodes := activeNodes p |}.
Definition set_stage (st : ansibleNodeStage) (p : outputParser) : outputParser :=
  {| resources := resources p; seedActivity := seedActivity p; activity := activity p; activityTimer := activityTimer p;
     nodeStage := st; activeNodes := activeNodes p |}.
Definition set_nodes (ns : gset string) (p : outputParser) : outputParser :=
  {| resources := resources p; seedActivity := seedActivity p; activity := activity p; activityTimer := activityTimer p;
     nodeStage := nodeStage p; activeNodes := ns |}.

(** ** Regular expressions *)

(** [ansiPattern]: ESC [ parameters intermediates final, the classes being
    disjoint; the length of a match at the start *)
Fixpoint span_while (p : ascii -> bool) (s : string) : string * string :=
  match s with
  | String c r => if p c then let '(a, b) := span_while p r in (String c a, b) else ("", s)
  | "" => ("", "")
  end.

Definition ansi_match (s : string) : option string :=
  match s with
  | String e (String b rest) =>
      if Ascii.eqb e "027" && Ascii.eqb b "[" then
        let '(_, rest) := span_while (in_range "0" "?") rest in
        let '(_, rest) := span_while (in_range " " "/") rest in
        match rest with
        | String f rest => if in_range "@" "~" f then Some rest else None
        | "" => None
        end
      else None
  | _ => None
  end.

(** [ReplaceAllString(line, "")] *)
Fixpoint stripAnsi (fuel : nat) (s : string) : string :=
  match fuel, s with
  | O, _ | _, "" => s
  | S fuel, String c r =>
      match ansi_match s with
      | Some rest => stripAnsi fuel rest
      | None => String c (stripAnsi fuel r)
      end
  end.

Definition resourceKinds : list string :=
  ["libvirt_network."; "libvirt_domain."; "libvirt_volume."; "libvirt_cloudinit_disk."].

(** A resource address at the start: its kind, then at least one character
    that is not [stop] *)
Definition resourceAddress (stop : ascii) (s : string) : option (string * string) :=
  kind ← List.find (fun k => HasPrefix s k) resourceKinds;
  let '(name, rest) := span_while (fun c => negb (Ascii.eqb c stop)) (TrimPrefix s kind) in
  if String.eqb name "" then None else Some (kind +:+ name, rest).

(** [terraformPlanPattern] and [terraformActionPattern] *)
Definition terraformPlan (line : string) : option string :=
  if HasPrefix line "# " then
    '(address, rest) ← resourceAddress " " (TrimPrefix line "# ");
    if String.eqb rest " will be created" || String.eqb rest " will be destroyed" then Some address else None
  else None.

Definition terraformVerbs : list string :=
  ["Creating"; "Creation complete"; "Destroying"; "Destruction complete"; "Refreshing state"].

Definition terraformAction (line : string) : option (string * string) :=
  '(address, rest) ← resourceAddress ":" line;
  if HasPrefix rest ": " then
    verb ← List.find (fun v => HasPrefix (TrimPrefix rest ": ") v) terraformVerbs; Some (address, verb)
  else None.

(** ** Terraform's JSON events *)

Record terraformHook := { HResource : string; HAction : string; HOutput : string; ElapsedSeconds : Z }.
Record terraformChange := { CResource : string; CAction : string }.
Record terraformChanges := { Add_ : Z; Change_ : Z; Remove_ : Z; Operation : string }.
Record terraformEvent := {
  Level : string; Message : string; TModule : string; TType : string; UI : string;
  Hook : terraformHook; Change : terraformChange; Changes : terraformChanges
}.

Definition zeroEvent : terraformEvent :=
  {| Level := ""; Message := ""; TModule := ""; TType := ""; UI := "";
     Hook := {| HResource := ""; HAction := ""; HOutput := ""; ElapsedSeconds := 0 |};
     Change := {| CResource := ""; CAction := "" |};
     Changes := {| Add_ := 0; Change_ := 0; Remove_ := 0; Operation := "" |} |}.

(** Decoded strings are coerced to valid UTF-8; an [int] is a literal of digits
    in range. *)
Definition asText (v : Json.value) (old : string) : option string := Map Some <$> Json.asString v old.
Definition asInt (v : Json.value) (old : Z) : option Z :=
  match v with Json.JNull => Some old | Json.JNum literal => ParseInt64 literal | _ => None end.

(** Unknown members are skipped. *)
Fixpoint looseMembers {A} (fields : list (string * Json.setter A)) (l : list (string * Json.value)) (a : A) : option A :=
  match l with
  | [] => Some a
  | (key, v) :: rest =>
      match Json.find_field fields (Map Some key) with
      | Some set => a ← set v a; looseMembers fields rest a
      | None => looseMembers fields rest a
      end
  end.
Definition looseStruct {A} (fields : list (string * Json.setter A)) : Json.setter A := fun v a =>
  match v with Json.JNull => Some a | Json.JObj l => looseMembers fields l a | _ => None end.

Definition resourceFields : list (string * Json.setter string) := [("addr", fun v a => asText v a)].

Definition hookFields : list (string * Json.setter terraformHook) :=
  [("resource", fun v h => x ← looseStruct resourceFields v (HResource h);
      Some {| HResource := x; HAction := HAction h; HOutput := HOutput h; ElapsedSeconds := ElapsedSeconds h |});
   ("action", fun v h => x ← asText v (HAction h);
      Some {| HResource := HResource h; HAction := x; HOutput := HOutput h; ElapsedSeconds := ElapsedSeconds h |});
   ("output", fun v h => x ← asText v (HOutput h);
      Some {| HResource := HResource h; HAction := HAction h; HOutput := x; ElapsedSeconds := ElapsedSeconds h |});
   ("elapsed_seconds", fun v h => x ← asInt v (ElapsedSeconds h);
      Some {| HResource := HResource h; HAction := HAction h; HOutput := HOutput h; ElapsedSeconds := x |})].

Definition changeFields : list (string * Json.setter terraformChange) :=
  [("resource", fun v c => x ← looseStruct resourceFields v (CResource c); Some {| CResource := x; CAction := CAction c |});
   ("action", fun v c => x ← asText v (CAction c); Some {| CResource := CResource c; CAction := x |})].

Definition changesFields : list (string * Json.setter terraformChanges) :=
  [("add", fun v c => x ← asInt v (Add_ c); Some {| Add_ := x; Change_ := Change_ c; Remove_ := Remove_ c; Operation := Operation c |});
   ("change", fun v c => x ← asInt v (Change_ c); Some {| Add_ := Add_ c; Change_ := x; Remove_ := Remove_ c; Operation := Operation c |});
   ("remove", fun v c => x ← asInt v (Remove_ c); Some {| Add_ := Add_ c; Change_ := Change_ c; Remove_ := x; Operation := Operation c |});
   ("operation", fun v c => x ← asText v (Operation c);
      Some {| Add_ := Add_ c; Change_ := Change_ c; Remove_ := Remove_ c; Operation := x |})].

Definition eventFields : list (string * Json.setter terraformEvent) :=
  let upd level message mod_ type ui hook change changes :=
    Some {| Level := level; Message := message; TModule := mod_; TType := type; UI := ui; Hook := hook; Change := change;
            Changes := changes |} in
  [("@level", fun v e => x ← asText v (Level e); upd x (Message e) (TModule e) (TType e) (UI e) (Hook e) (Change e) (Changes e));
   ("@message", fun v e => x ← asText v (Message e); upd (Level e) x (TModule e) (TType e) (UI e) (Hook e) (Change e) (Changes e));
   ("@module", fun v e => x ← asText v (TModule e); upd (Level e) (Message e) x (TType e) (UI e) (Hook e) (Change e) (Changes e));
   ("type", fun v e => x ← asText v (TType e); upd (Level e) (Message e) (TModule e) x (UI e) (Hook e) (Change e) (Changes e));
   ("ui", fun v e => x ← asText v (UI e); upd (Level e) (Message e) (TModule e) (TType e) x (Hook e) (Change e) (Changes e));
   ("hook", fun v e => x ← looseStruct hookFields v (Hook e);
      upd (Level e) (Message e) (TModule e) (TType e) (UI e) x (Change e) (Changes e));
   ("change", fun v e => x ← looseStruct changeFields v (Change e);
      upd (Level e) (Message e) (TModule e) (TType e) (UI e) (Hook e) x (Changes e));
   ("changes", fun v e => x ← looseStruct changesFields v (Changes e);
      upd (Level e) (Message e) (TModule e) (TType e) (UI e) (Hook e) (Change e) x)].

Definition unmarshalEvent (line : string) : option terraformEvent :=
  v ← Json.parse_document line; looseStruct eventFields v zeroEvent.

Definition terraformOperation (arguments : list string) : string :=
  match List.find (fun a => negb (HasPrefix a "-")) arguments with
  | Some a => if String.eqb a "apply" || String.eqb a "destroy" || String.eqb a "plan" then a else ""
  | None => ""
  end.

Definition terraformActionDetail (action : string) (done : bool) : string :=
  let is_ a := String.eqb action a in
  if done then
    if is_ "create" then "created" else if is_ "delete" then "destroyed" else if is_ "read" then "refreshed"
    else if is_ "replace" then "replaced" else if is_ "update" then "updated" else "complete"
  else
    if is_ "create" then "creating" else if is_ "delete" then "destroying" else if is_ "read" then "refreshing"
    else if is_ "replace" then "replacing" else if is_ "update" then "updating" else if is_ "noop" then "unchanged"
    else "planned".

Definition terraformResource (address : string) : string * string * bool :=
  let has p := HasPrefix address p in
  if has "libvirt_network." then ("network", "Network", false)
  else if has "libvirt_domain.load_balancer" then ("load-balancer", "Load balancer", false)
  else if has "libvirt_domain.bastion" then ("bastion", "Bastion", false)
  else if has "libvirt_domain.node[" then ("nodes", "Nodes", true)
  else if has "libvirt_volume." || has "libvirt_cloudinit_disk." then ("storage", "Storage", true)
  else ("", "", false).

(** ** Resources *)

Definition emptySet : resourceSet := {| expected := ∅; complete := ∅; failed := ∅ |}.

Definition markResource (address : string) (state : State) (set : resourceSet) : resourceSet :=
  let expected := {[address]} ∪ expected set in
  match state with
  | Complete => {| expected := expected; complete := {[address]} ∪ complete set; failed := failed set ∖ {[address]} |}
  | Failed => {| expected := expected; complete := complete set ∖ {[address]}; failed := {[address]} ∪ failed set |}
  | _ => {| expected := expected; complete := complete set ∖ {[address]}; failed := failed set ∖ {[address]} |}
  end.

Definition aggregateState (set : resourceSet) : State :=
  if negb (size (failed set) =? 0)%nat then Failed
  else if negb (size (expected set) =? 0)%nat && (size (complete set) =? size (expected set))%nat then Complete
  else Running.

Definition seedItems : list (string * string) := [("seed-forgejo", "Forgejo"); ("seed-harbor", "Seed Harbor")].

Definition with_counts (current total : Z) (e : Event) : Event :=
  {| Phase := Phase e; ID := ID e; Label := Label e; Detail := Detail e; EState := EState e; Restart := Restart e;
     ECurrent := current; Total := total; BytesCurrent := BytesCurrent e; BytesTotal := BytesTotal e; Time := Time e |}.
Definition with_bytes (current total : Z) (e : Event) : Event :=
  {| Phase := Phase e; ID := ID e; Label := Label e; Detail := Detail e; EState := EState e; Restart := Restart e;
     ECurrent := ECurrent e; Total := Total e; BytesCurrent := current; BytesTotal := total; Time := Time e |}.

Definition updateResource (address : string) (state : State) (detail : string) (p : outputParser) : list Event * outputParser :=
  if HasPrefix address "terraform_data.seed_plane" then
    if bool_decide (state = Running) && seedActivity p then ([], p)
    else ((fun item => event Infrastructure item.1 item.2 detail state) <$> seedItems, p)
  else
    let '(id, label, aggregate) := terraformResource address in
    if String.eqb id "" then ([], p)
    else
      let set := default emptySet (resources p !! id) in
      let p := set_resources (<[id := set]> (resources p)) p in
      if negb (bool_decide (address ∈ expected set)) && (observedResourceLimit <=? size (expected set))%nat then ([], p)
      else
        let set := markResource address state set in
        let e := event Infrastructure id label detail (aggregateState set) in
        ([if aggregate : bool then with_counts (Z.of_nat (size (complete set))) (Z.of_nat (size (expected set))) e else e],
         set_resources (<[id := set]> (resources p)) p).

(** ** The seed plane *)

Definition seedPlaneBytes (detail : string) : Z :=
  default 0%Z (head (omap (fun field =>
    let '(raw, found) := CutPrefix field "bytes=" in
    if found : bool then match ParseInt64 raw with Some v => if (0 <? v)%Z then Some v else None | None => None end else None)
    (Fields detail))).

Definition seedReport (id label message : string) (state : State) : Event := event Infrastructure id label message state.

Definition reportSeedService (id label state : string) : Event :=
  if HasPrefix state "ready" then seedReport id label "healthy" Complete else seedReport id label state Running.

(** The last value of each key, as the loop over the fields leaves them *)
Definition seedState (key : string) (fields : list string) : string :=
  fold_left (fun old field =>
    let '(k, v, found) := Cut field "=" in if (found : bool) && String.eqb k key then v else old) fields "waiting".

Section Parser.
Context `{UC : UnicodeCase}.

Definition marker : string := "seed plane:".

Definition seedEvents (detail lower : string) : list Event :=
  if HasPrefix lower "forgejo=" then
    let fields := Fields lower in
    [reportSeedService "seed-forgejo" "Forgejo" (seedState "forgejo" fields);
     reportSeedService "seed-harbor" "Seed Harbor" (seedState "harbor" fields)]
  else if Contains lower "loading exact forgejo and harbor images" || Contains lower "loaded exact forgejo and harbor images" then
    let total := seedPlaneBytes lower in
    let loaded := Contains lower "loaded exact" in
    let message := if loaded then "loaded exact seed images" else "loading exact seed images" in
    (fun item => with_bytes (if loaded then total else 0%Z) total (event Infrastructure item.1 item.2 message Running)) <$> seedItems
  else if HasPrefix lower "preparing harbor" then [seedReport "seed-harbor" "Seed Harbor" detail Running]
  else if Contains lower "reconciling forgejo administrator" then
    [seedReport "seed-forgejo" "Forgejo" "reconciling administrator" Running]
  else if Contains lower "timeout" || HasPrefix lower "invalid " then
    [seedReport "seed-forgejo" "Forgejo" detail Failed; seedReport "seed-harbor" "Seed Harbor" detail Failed]
  else [].

(** The index is found in the lowered line and used in the line itself. *)
Definition observeSeedPlane (line : string) (p : outputParser) : option (bool * list Event * outputParser) :=
  match Index (ToLower line) marker with
  | None => Some (false, [], p)
  | Some i =>
      if (i + String.length marker <=? String.length line)%nat then
        let detail := TrimSpace (str_drop (i + String.length marker) line) in
        Some (true, seedEvents detail (ToLower detail), set_seed true p)
      else None
  end.

(** ** Terraform *)

Definition terraformCommand (name : string) : bool := String.eqb name "terraform" || HasSuffix name "/terraform".

Definition terraformRow (detail : string) (state : State) : Event := event Infrastructure "terraform" "Terraform" detail state.

(** The cases of the event type; [Some] when the line was an event *)
Definition terraformEventStep (command : Command) (e : terraformEvent) (p : outputParser) : option (list Event * outputParser) :=
  let is_ t := String.eqb (TType e) t in
  let hook := HResource (Hook e) in
  if is_ "version" then
    Some (if negb (String.eqb (UI e) "") && negb (HasPrefix (UI e) "1.")
          then [terraformRow ("Terraform JSON UI " +:+ UI e +:+ "; retaining raw output") Running] else [], p)
  else if is_ "planned_change" then
    Some (updateResource (CResource (Change e)) Running (terraformActionDetail (CAction (Change e)) false) p)
  else if is_ "apply_start" || is_ "refresh_start" then
    Some (updateResource hook Running (terraformActionDetail (HAction (Hook e)) false) p)
  else if is_ "provision_start" then Some (updateResource hook Running "provisioning" p)
  else if is_ "apply_progress" || is_ "refresh_progress" then
    let detail := terraformActionDetail (HAction (Hook e)) false in
    let detail := if (0 <? ElapsedSeconds (Hook e))%Z then detail +:+ " · " +:+ Itoa (ElapsedSeconds (Hook e)) +:+ "s" else detail in
    Some (updateResource hook Running detail p)
  else if is_ "apply_complete" then Some (updateResource hook Complete (terraformActionDetail (HAction (Hook e)) true) p)
  else if is_ "refresh_complete" then Some (updateResource hook Running "refreshed" p)
  else if is_ "provision_complete" then Some (updateResource hook Running "provisioner complete" p)
  else if is_ "apply_errored" || is_ "refresh_errored" || is_ "provision_errored" then Some (updateResource hook Failed "failed" p)
  else if is_ "provision_progress" then
    '(seen, es, p) ← observeSeedPlane (HOutput (Hook e)) p;
    if negb seen && negb (String.eqb hook "") then
      let '(es', p) := updateResource hook Running "provisioning" p in Some (es ++ es', p)
    else Some (es, p)
  else if is_ "change_summary" then
    Some (if negb (String.eqb (Operation (Changes e)) "plan") || String.eqb (terraformOperation (Args command)) "plan" then
            [event Infrastructure "*" ""
               (Itoa (Add_ (Changes e)) +:+ " added, " +:+ Itoa (Change_ (Changes e)) +:+ " changed, " +:+
                Itoa (Remove_ (Changes e)) +:+ " removed") Complete] else [], p)
  else if is_ "init_output" || is_ "log" then
    Some (if negb (String.eqb (Message e) "") then [terraformRow (Message e) Running] else [], p)
  else if is_ "diagnostic" then
    Some (if negb (String.eqb (Message e) "")
          then [terraformRow (Message e) (if String.eqb (Level e) "error" then Failed else Running)] else [], p)
  else Some ([], p).

Definition observeTerraformEvent (command : Command) (line : string) (p : outputParser) : option (bool * list Event * outputParser) :=
  if (String.length line <? 2)%nat || negb (HasPrefix line "{") then Some (false, [], p)
  else
    match unmarshalEvent line with
    | None => Some (false, [], p)
    | Some e =>
        if negb (String.eqb (TModule e) "terraform.ui") || String.eqb (TType e) "" then Some (false, [], p)
        else '(es, p) ← terraformEventStep command e p; Some (true, es, p)
    end.

(** ** Ansible *)

Definition ansibleCommand (name : string) : bool := String.eqb name "ansible-playbook" || HasSuffix name "/ansible-playbook".

Definition ansibleActivity (command : Command) : Target :=
  if negb (String.eqb (TID (Activity command)) "") then Activity command
  else {| TPhase := Orchestration; TID := "activity"; TLabel := "Ansible activity" |}.

Definition ansibleTaskDetail (line : string) : string * bool :=
  if negb (HasPrefix line "TASK [") && negb (HasPrefix line "PLAY [") && negb (HasPrefix line "RUNNING HANDLER [") then ("", false)
  else
    match IndexByte line "[", LastIndexByte line "]" with
    | Some o, Some c => if (o <? c)%nat then (str_take (c - S o) (str_drop (S o) line), true) else ("", true)
    | _, _ => ("", true)
    end.

Definition ansibleNodeStageFor (task : string) : ansibleNodeStage :=
  let task := ToLower task in
  if Contains task "uncordon" then ansibleNodeUncordon
  else if Contains task "cordon" then ansibleNodeCordon
  else if Contains task "drain" then ansibleNodeDrain
  else if Contains task "kubeadm" && Contains task "upgrade" then ansibleNodeUpgrade
  else ansibleNodeIdle.

Definition startDetail (stage : ansibleNodeStage) : string :=
  match stage with
  | ansibleNodeCordon => "cordoning"
  | ansibleNodeDrain => "draining workloads"
  | ansibleNodeUpgrade => "upgrading Kubernetes components"
  | ansibleNodeUncordon => "validating and uncordoning"
  | ansibleNodeIdle => "upgrading"
  end.

Definition completion (stage : ansibleNodeStage) : State * string :=
  match stage with
  | ansibleNodeCordon => (Running, "cordoned; preparing to drain")
  | ansibleNodeDrain => (Running, "drained; upgrading components")
  | ansibleNodeUpgrade => (Running, "components upgraded; validating node")
  | ansibleNodeUncordon => (Complete, "upgrade complete; schedulable")
  | ansibleNodeIdle => (Running, "upgrading")
  end.

(** [EqualFold] with an ASCII word: beyond ASCII only U+017F folds into it, and
    [true] has no s. *)
Definition ansiblePullDetail (line : string) : option string :=
  let prefix := String "034" ("msg" +:+ String "034" (": " +:+ String "034" "Pull ")) in
  let separator := " required is: " in
  if negb (HasPrefix line prefix) then None
  else
    let payload := TrimSuffix (TrimPrefix line prefix) (String "034" "") in
    match LastIndex payload separator with
    | Some (S _ as i) =>
        let image := str_take i payload in
        let required := str_drop (i + String.length separator) payload in
        Some (if EqualFold required "true" then "pulling " +:+ image else "using cached " +:+ image)
    | _ => None
    end.

Definition ansibleResultHost (line : string) : string :=
  let has p := HasPrefix line p in
  let raw :=
    if has "ok: [" || has "changed: [" || has "fatal: [" || has "failed: [" || has "skipping: [" || has "FAILED - RETRYING: [" then
      o ← IndexByte line "["; c ← IndexByte (str_drop (S o) line) "]"; Some (str_take c (str_drop (S o) line))
    else if has "ASYNC POLL on " || has "ASYNC OK on " || has "ASYNC FAILED on " then
      i ← Index line " on "; let start := (i + 4)%nat in
      e ← IndexByte (str_drop start line) ":"; Some (str_take e (str_drop start line))
    else if has "included: " then
      i ← LastIndex line " for ";
      let raw := str_drop (i + 5) line in
      Some (match IndexAny raw " =>" with Some e => str_take e raw | None => raw end)
    else None in
  match raw with
  | None => ""
  | Some raw =>
      let raw := match Index raw " -> " with Some i => str_take i raw | None => raw end in
      let raw := TrimSpace raw in
      if String.eqb raw "" || (253 <? String.length raw)%nat then "" else raw
  end.

Definition nodeEvent (host : string) (state : State) (detail : string) : Event :=
  event Orchestration ("node:" +:+ host) ("Node " +:+ host) detail state.

Definition reportNode (host : string) (state : State) (detail : string) (p : outputParser) : list Event * outputParser :=
  let found := bool_decide (host ∈ activeNodes p) in
  if negb found && (bool_decide (state = Complete) || (observedResourceLimit <=? size (activeNodes p))%nat) then ([], p)
  else
    let nodes := {[host]} ∪ activeNodes p in
    let nodes := if bool_decide (state = Running) then nodes else nodes ∖ {[host]} in
    ([nodeEvent host state detail], set_nodes nodes p).

Definition observeAnsibleResult (line : string) (p : outputParser) : list Event * outputParser :=
  let host := ansibleResultHost line in
  if String.eqb host "" then ([], p)
  else
    let p := if Contains line "Drain node" || (bool_decide (nodeStage p = ansibleNodeCordon) && HasPrefix line "ASYNC ")
             then set_stage ansibleNodeDrain p else p in
    if bool_decide (nodeStage p = ansibleNodeIdle) then ([], p)
    else if HasPrefix line "fatal: [" || HasPrefix line "failed: [" || HasPrefix line "ASYNC FAILED on " then
      reportNode host Failed (startDetail (nodeStage p) +:+ " failed") p
    else if HasPrefix line "FAILED - RETRYING: [" then
      let detail := startDetail (nodeStage p) +:+ "; retrying" in
      let detail :=
        match LastIndexByte line "(", LastIndexByte line ")" with
        | Some o, Some c => if (o <? c)%nat then detail +:+ " " +:+ str_take (c - S o) (str_drop (S o) line) else detail
        | _, _ => detail
        end in
      reportNode host Running detail p
    else if HasPrefix line "ASYNC POLL on " then reportNode host Running (startDetail (nodeStage p) +:+ "; waiting") p
    else let '(state, detail) := completion (nodeStage p) in reportNode host state detail p.

(** ** [observe] and the timer *)

Definition observeAnsible (command : Command) (line : string) (p : outputParser) : list Event * outputParser :=
  let target := ansibleActivity command in
  match ansibleTaskDetail line with
  | (detail, true) =>
      let p := set_stage (ansibleNodeStageFor detail) p in
      ([], set_activity line (match activityTimer p with None => Some target | t => t end) p)
  | (_, false) =>
      match ansiblePullDetail line with
      | Some detail => ([event (TPhase target) (TID target) (TLabel target) detail Running], set_activity "" None p)
      | None => observeAnsibleResult line p
      end
  end.

Definition observeTerraformText (line : string) (p : outputParser) : list Event * outputParser :=
  if String.eqb line "No changes. Your infrastructure matches the configuration."
     || HasPrefix line "Apply complete!" || HasPrefix line "Destroy complete!"
  then ([event Infrastructure "*" "" "converged" Complete], p)
  else
    match terraformPlan line with
    | Some address => updateResource address Running "planned" p
    | None =>
        match terraformAction line with
        | Some (address, verb) =>
            let state := if String.eqb verb "Creation complete" || String.eqb verb "Destruction complete" then Complete else Running in
            updateResource address state (ToLower verb) p
        | None => ([], p)
        end
    end.

Definition observe (command : Command) (raw : string) (p : outputParser) : option (list Event * outputParser) :=
  let line := TrimSpace (stripAnsi (String.length raw) raw) in
  if String.eqb line "" then Some ([], p)
  else if ansibleCommand (Name command) then Some (observeAnsible command line p)
  else if negb (terraformCommand (Name command)) then Some ([], p)
  else
    '(seen, es, p) ← observeTerraformEvent command line p;
    if seen : bool then Some (es, p)
    else
      '(_, es1, p) ← observeSeedPlane line p;
      let '(es2, p) := observeTerraformText line p in Some (es ++ es1 ++ es2, p).

(** The timer fires. *)
Definition emitActivity (target : Target) (p : outputParser) : list Event * outputParser :=
  let line := activity p in
  let p := set_activity line None p in
  if String.eqb line "" then ([], p)
  else
    let detail :=
      match IndexByte line "[", IndexByte line "]" with
      | Some o, Some c => if (o <? c)%nat then str_take (c - S o) (str_drop (S o) line) else line
      | _, _ => line
      end in
    ([event (TPhase target) (TID target) (TLabel target) detail Running], p).

Fixpoint reportNodes (hosts : list string) (state : State) (detail : string) (p : outputParser) : list Event * outputParser :=
  match hosts with
  | [] => ([], p)
  | host :: hosts =>
      let '(es, p) := reportNode host state detail p in
      let '(es', p) := reportNodes hosts state detail p in (es ++ es', p)
  end.

Definition finishCommand (command : Command) (commandErr : bool) (p : outputParser) : list Event * outputParser :=
  if negb (ansibleCommand (Name command)) then ([], p)
  else
    let p := set_activity "" None (set_stage ansibleNodeIdle p) in
    let '(state, detail) :=
      if commandErr then (Failed, "playbook failed") else (Complete, "playbook complete; health check pending") in
    let '(es, p) := reportNodes (elements (activeNodes p)) state detail p in
    (es, set_nodes ∅ p).
End Parser.
End OutputParser.
