(* ===== verification/OutputParserTheorems.v ===== *)
(** Invariants of the output parser: bounded state, truthful aggregates, and a
    life cycle of node rows in which only a running node completes. *)
From stdpp Require Import prelude gmap fin_sets strings list.
From Stdlib Require Import Ascii ZArith Lia.
From S2P Require Import Prelude GoStrings Utf8 Json Progress Dashboard DashboardTheorems OutputParser.

Module OutputParserTheorems.
Import Utf8 Progress OutputParser.

(** ** Bounded state *)

Definition set_ok (s : resourceSet) : Prop :=
  complete s ⊆ expected s /\ failed s ⊆ expected s /\ complete s ## failed s /\ (size (expected s) <= observedResourceLimit)%nat.

Definition parser_ok (p : outputParser) : Prop :=
  map_Forall (fun _ => set_ok) (resources p) /\ (size (activeNodes p) <= observedResourceLimit)%nat.

(** An event counts at most what is expected, and within the limit. *)
Definition counts_ok (e : Event) : Prop := (0 <= ECurrent e <= Total e)%Z /\ (Total e <= Z.of_nat observedResourceLimit)%Z.

Definition step_ok (r : list Event * outputParser) : Prop := parser_ok r.2 /\ Forall counts_ok r.1.

Lemma size_grow (x : string) (X : gset string) n : (size X <= n)%nat -> (x ∈ X \/ (size X < n)%nat) -> (size ({[x]} ∪ X) <= n)%nat.
Proof.
  intros Hle [Hin|Hlt].
  - replace ({[x]} ∪ X) with X by set_solver. done.
  - pose proof (size_union_alt {[x]} X) as H. rewrite size_singleton in H. rewrite H.
    pose proof (subseteq_size (X ∖ {[x]}) X ltac:(set_solver)). lia.
Qed.

Lemma mark_ok address state s : set_ok s -> (address ∈ expected s \/ (size (expected s) < observedResourceLimit)%nat) ->
  set_ok (markResource address state s).
Proof.
  intros (H1 & H2 & H3 & H4) Hroom. unfold set_ok. destruct state; cbn [markResource expected complete failed];
    (split; [set_solver|]); (split; [set_solver|]); (split; [set_solver|]); by apply size_grow.
Qed.

Lemma empty_ok : set_ok emptySet.
Proof. unfold set_ok, emptySet. cbn [expected complete failed]. rewrite size_empty. split; [set_solver|]. split; [set_solver|]. split; [set_solver|lia]. Qed.

Lemma plain_counts phase id label detail state : counts_ok (event phase id label detail state).
Proof. split; simpl; lia. Qed.

Lemma update_ok address state detail p : parser_ok p -> step_ok (updateResource address state detail p).
Proof.
  intros [Hr Hn]. unfold updateResource. destruct (HasPrefix address "terraform_data.seed_plane").
  { destruct (bool_decide (state = Running) && seedActivity p); (split; [done|]); repeat constructor; simpl; lia. }
  destruct (terraformResource address) as [[id label] aggregate]. destruct (String.eqb id ""); [split; [done|constructor]|].
  set (s := default emptySet (resources p !! id)).
  assert (set_ok s) as Hs.
  { unfold s. destruct (resources p !! id) as [s0|] eqn:H0; [by apply (Hr id)|apply empty_ok]. }
  assert (parser_ok (set_resources (<[id:=s]> (resources p)) p)) as Hp1 by (split; [by apply map_Forall_insert_2|done]).
  cbv zeta. destruct (negb (bool_decide (address ∈ expected s)) && (observedResourceLimit <=? size (expected s))%nat) eqn:Hfull.
  { split; [done|constructor]. }
  assert (set_ok (markResource address state s)) as Hm.
  { apply mark_ok; [done|]. apply andb_false_iff in Hfull as [Hf|Hf].
    - left. by apply negb_false_iff, bool_decide_eq_true in Hf.
    - right. by apply Nat.leb_gt in Hf. }
  split.
  - split; [|done]. cbn. apply map_Forall_insert_2; [done|]. by apply map_Forall_insert_2.
  - constructor; [|constructor]. destruct aggregate; [|apply plain_counts]. destruct Hm as (Hc & _ & _ & Hb).
    pose proof (subseteq_size _ _ Hc). split; simpl; lia.
Qed.

Section Parser.
Context `{UC : UnicodeCase}.

Lemma seedEvents_counts detail lower : Forall counts_ok (seedEvents detail lower).
Proof.
  unfold seedEvents, reportSeedService. repeat case_match; repeat constructor; simpl; try lia.
Qed.

Lemma seed_ok line p b es p' : parser_ok p -> observeSeedPlane line p = Some (b, es, p') -> step_ok (es, p').
Proof.
  intros Hp. unfold observeSeedPlane. destruct (Index _ _); [|intros [= <- <- <-]; split; [done|constructor]].
  destruct (_ <=? _)%nat; [|done]. intros [= <- <- <-]. split; [done|]. apply seedEvents_counts.
Qed.

Ltac ok_row := split; [assumption|repeat case_match; repeat constructor; simpl; lia].

Lemma step_event_ok command e p r : parser_ok p -> terraformEventStep command e p = Some r -> step_ok r.
Proof.
  intros Hp. unfold terraformEventStep. cbv zeta.
  repeat lazymatch goal with |- (if ?b then _ else _) = Some r -> _ =>
    destruct b; [first [solve [intros [= <-]; apply update_ok; assumption] | solve [intros [= <-]; ok_row] | idtac]|] end.
  - destruct (observeSeedPlane (HOutput (Hook e)) p) as [[[seen es] p1]|] eqn:Hs; [|done]. simpl.
    pose proof (seed_ok _ _ _ _ _ Hp Hs) as [Hp1 Hes]. destruct (_ && _); [|intros [= <-]; done].
    pose proof (update_ok (HResource (Hook e)) Running "provisioning" p1 Hp1) as [Hp2 Hes2].
    destruct (updateResource (HResource (Hook e)) Running "provisioning" p1) as [es' p2]. intros [= <-].
    split; [done|]. by apply Forall_app.
  - intros [= <-]. ok_row.
Qed.

Lemma event_ok command line p b es p' : parser_ok p -> observeTerraformEvent command line p = Some (b, es, p') -> step_ok (es, p').
Proof.
  intros Hp. unfold observeTerraformEvent. destruct (_ || _); [intros [= <- <- <-]; split; [done|constructor]|].
  destruct (unmarshalEvent line) as [e|]; [|intros [= <- <- <-]; split; [done|constructor]].
  destruct (_ || _); [intros [= <- <- <-]; split; [done|constructor]|].
  destruct (terraformEventStep command e p) as [[es1 p1]|] eqn:Hs; [|done]. simpl. intros [= <- <- <-].
  by apply (step_event_ok command e p).
Qed.

Lemma reportNode_ok host state detail p : parser_ok p -> step_ok (reportNode host state detail p).
Proof.
  intros [Hr Hn]. unfold reportNode. destruct (_ && _) eqn:Hc; [split; [by split|constructor]|]. split.
  - split; [done|]. cbn [snd set_nodes activeNodes]. assert (size ({[host]} ∪ activeNodes p) <= observedResourceLimit)%nat as Hsz.
    { apply size_grow; [done|]. apply andb_false_iff in Hc as [Hc|Hc].
      - left. by apply negb_false_iff, bool_decide_eq_true in Hc.
      - right. apply orb_false_iff in Hc as [_ Hc]. by apply Nat.leb_gt in Hc. }
    destruct (bool_decide (state = Running)); [exact Hsz|]. etransitivity; [|exact Hsz]. apply subseteq_size. set_solver.
  - repeat constructor; simpl; lia.
Qed.

Lemma stage_ok st p : parser_ok p -> parser_ok (set_stage st p).
Proof. done. Qed.

Lemma result_ok line p : parser_ok p -> step_ok (observeAnsibleResult line p).
Proof.
  intros Hp. unfold observeAnsibleResult. destruct (String.eqb _ ""); [split; [done|constructor]|]. cbv zeta.
  set (q := if Contains line "Drain node" || _ then _ else p). assert (parser_ok q) as Hq by (unfold q; by destruct (_ || _)).
  clearbody q. destruct (bool_decide (nodeStage q = ansibleNodeIdle)); [split; [exact Hq|constructor]|]. destruct (_ || _); [by apply reportNode_ok|].
  destruct (HasPrefix line "FAILED - RETRYING: ["); [by apply reportNode_ok|].
  destruct (HasPrefix line "ASYNC POLL on "); [by apply reportNode_ok|]. destruct (completion (nodeStage q)). by apply reportNode_ok.
Qed.

Lemma ansible_ok command line p : parser_ok p -> step_ok (observeAnsible command line p).
Proof.
  intros Hp. unfold observeAnsible. destruct (ansibleTaskDetail line) as [detail []]; [split; [done|constructor]|].
  destruct (ansiblePullDetail line); [split; [done|repeat constructor; simpl; lia]|]. by apply result_ok.
Qed.

Lemma text_ok line p : parser_ok p -> step_ok (observeTerraformText line p).
Proof.
  intros Hp. unfold observeTerraformText. destruct (_ || _ || _); [split; [done|repeat constructor; simpl; lia]|].
  destruct (terraformPlan line); [by apply update_ok|]. destruct (terraformAction line) as [[address verb]|]; [by apply update_ok|].
  split; [done|constructor].
Qed.

Lemma observe_ok command raw p r : parser_ok p -> observe command raw p = Some r -> step_ok r.
Proof.
  intros Hp. unfold observe. destruct (String.eqb _ ""); [intros [= <-]; split; [done|constructor]|].
  destruct (ansibleCommand (Name command)); [intros [= <-]; by apply ansible_ok|].
  destruct (negb _); [intros [= <-]; split; [done|constructor]|].
  set (line := TrimSpace _). destruct (observeTerraformEvent command line p) as [[[seen es] p1]|] eqn:He; [|done]. simpl.
  pose proof (event_ok _ _ _ _ _ _ Hp He) as [Hp1 Hes]. destruct seen; [intros [= <-]; done|].
  destruct (observeSeedPlane line p1) as [[[b es1] p2]|] eqn:Hs; [|done]. simpl.
  pose proof (seed_ok _ _ _ _ _ Hp1 Hs) as [Hp2 Hes1]. pose proof (text_ok line p2 Hp2) as [Hp3 Hes2].
  destruct (observeTerraformText line p2) as [es2 p3]. intros [= <-]. split; [done|]. cbn [fst]. rewrite !Forall_app. done.
Qed.

Lemma emit_ok target p : parser_ok p -> step_ok (emitActivity target p).
Proof.
  intros Hp. unfold emitActivity. destruct (String.eqb _ ""); (split; [done|]); repeat constructor; simpl; lia.
Qed.

Lemma reportNodes_ok hosts state detail p : parser_ok p -> step_ok (reportNodes hosts state detail p).
Proof.
  revert p. induction hosts as [|host hosts IH]; intros p Hp; [split; [done|constructor]|]. cbn [reportNodes].
  pose proof (reportNode_ok host state detail p Hp) as [Hp1 He1]. destruct (reportNode host state detail p) as [es p1].
  specialize (IH p1 Hp1) as [Hp2 He2]. destruct (reportNodes hosts state detail p1) as [es' p2]. split; [done|]. by apply Forall_app.
Qed.

Lemma finish_ok command err p : parser_ok p -> step_ok (finishCommand command err p).
Proof.
  intros Hp. unfold finishCommand. destruct (negb _); [split; [done|constructor]|].
  assert (forall state detail, step_ok (let '(es, q) := reportNodes (elements (activeNodes (set_activity "" None (set_stage ansibleNodeIdle p))))
      state detail (set_activity "" None (set_stage ansibleNodeIdle p)) in (es, set_nodes ∅ q))) as H.
  { intros state detail. pose proof (reportNodes_ok (elements (activeNodes (set_activity "" None (set_stage ansibleNodeIdle p)))) state detail
      (set_activity "" None (set_stage ansibleNodeIdle p)) Hp) as [[Hr _] He].
    destruct (reportNodes _ _ _ _) as [es q]. split; [split; [done|cbn [snd set_nodes activeNodes]; rewrite size_empty; lia]|done]. }
  destruct err; apply H.
Qed.

(** ** Runs *)

(** A line of a command, the timer, the end of a command *)
Inductive pop := PObserve (command : Command) (raw : string) | PFire | PFinish (command : Command) (err : bool).

Definition popStep (o : pop) (p : outputParser) : option (list Event * outputParser) :=
  match o with
  | PObserve command raw => observe command raw p
  | PFire => Some (match activityTimer p with Some target => emitActivity target p | None => ([], p) end)
  | PFinish command err => Some (finishCommand command err p)
  end.

Fixpoint runParser (ops : list pop) (p : outputParser) : option (list Event * outputParser) :=
  match ops with
  | [] => Some ([], p)
  | o :: ops => '(es, p) ← popStep o p; '(es', p) ← runParser ops p; Some (es ++ es', p)
  end.

Lemma popStep_ok o p r : parser_ok p -> popStep o p = Some r -> step_ok r.
Proof.
  intros Hp. destruct o as [command raw| |command err]; cbn [popStep].
  - by apply observe_ok.
  - intros [= <-]. destruct (activityTimer p); [by apply emit_ok|split; [done|constructor]].
  - intros [= <-]. by apply finish_ok.
Qed.

Lemma runParser_ok ops p r : parser_ok p -> runParser ops p = Some r -> step_ok r.
Proof.
  revert p r. induction ops as [|o ops IH]; intros p r Hp; cbn [runParser]; [intros [= <-]; split; [done|constructor]|].
  destruct (popStep o p) as [[es p1]|] eqn:Ho; [|done]. simpl. destruct (popStep_ok _ _ _ Hp Ho) as [Hp1 He1].
  destruct (runParser ops p1) as [[es' p2]|] eqn:Hr; [|done]. simpl. intros [= <-].
  destruct (IH _ _ Hp1 Hr) as [Hp2 He2]. split; [done|]. by apply Forall_app.
Qed.

Lemma new_parser_ok : parser_ok newOutputParser.
Proof. split; [apply map_Forall_empty|]. cbn [newOutputParser activeNodes]. rewrite size_empty. lia. Qed.

(** The state learned from output is bounded and its counts are sound:
    over any lines of any commands, timers and ends of commands, no group of
    resources and no set of nodes exceeds 512 members, completed and failed
    resources are disjoint subsets of the expected ones, and every event
    reported counts at most what it expects. *)
Theorem parser_bounded ops es p : runParser ops newOutputParser = Some (es, p) -> parser_ok p /\ Forall counts_ok es.
Proof. intros H. apply (runParser_ok ops newOutputParser (es, p) new_parser_ok H). Qed.

(** A resource group is reported complete exactly when all its expected
    members are complete and none failed, and failed exactly when a member
    failed. *)
Theorem aggregate_truthful address state detail p e p' id label aggregate :
  parser_ok p -> terraformResource address = (id, label, aggregate) -> id <> "" ->
  HasPrefix address "terraform_data.seed_plane" = false ->
  updateResource address state detail p = ([e], p') ->
  exists set, resources p' !! id = Some set /\ address ∈ expected set /\
    (EState e = Failed <-> failed set <> ∅) /\
    (EState e = Complete <-> failed set = ∅ /\ complete set = expected set).
Proof.
  intros [Hr Hn] Ht Hid Hseed. unfold updateResource. rewrite Hseed, Ht. destruct (String.eqb_spec id ""); [done|].
  cbv zeta. set (s := default emptySet (resources p !! id)). destruct (_ && _) eqn:Hfull; [done|].
  assert (set_ok (markResource address state s)) as Hm.
  { apply mark_ok.
    - unfold s. destruct (resources p !! id) as [s0|] eqn:H0; [by apply (Hr id)|apply empty_ok].
    - apply andb_false_iff in Hfull as [Hf|Hf]; [left; by apply negb_false_iff, bool_decide_eq_true in Hf|right; by apply Nat.leb_gt in Hf]. }
  intros [= <- <-]. exists (markResource address state s). cbn [set_resources resources]. rewrite lookup_insert_eq.
  assert (address ∈ expected (markResource address state s)) as Hin by (destruct state; cbn [markResource expected]; set_solver).
  split; [done|]. split; [done|].
  assert (EState (if aggregate then with_counts (Z.of_nat (size (complete (markResource address state s))))
    (Z.of_nat (size (expected (markResource address state s)))) (event Infrastructure id label detail (aggregateState (markResource address state s)))
    else event Infrastructure id label detail (aggregateState (markResource address state s))) = aggregateState (markResource address state s)) as ->
    by (by destruct aggregate).
  set (m := markResource address state s) in *. destruct Hm as (Hc & Hf & _ & _). unfold aggregateState.
  destruct (Nat.eqb_spec (size (failed m)) 0) as [H0|H0]; cbn [negb].
  - apply size_empty_iff in H0. assert (failed m = ∅) as He by set_solver.
    destruct (Nat.eqb_spec (size (expected m)) 0) as [He0|_]; [apply size_empty_iff in He0; set_solver|]. cbn [negb andb].
    destruct (Nat.eqb_spec (size (complete m)) (size (expected m))) as [Heq|Hne].
    + assert (complete m = expected m) by (apply set_eq, (set_subseteq_size_equiv _ _ Hc); lia). naive_solver.
    + split; [naive_solver|]. split; [done|]. intros [_ Heq]. by rewrite Heq in Hne.
  - assert (failed m <> ∅) by (intros He; apply H0; by rewrite He, size_empty). naive_solver.
Qed.

(** ** The life cycle of a node row *)

Definition nodeOf (host : string) (e : Event) : bool :=
  String.eqb (Phase e) Orchestration && String.eqb (ID e) ("node:" +:+ host).

(** The states reported for a node *)
Definition nodeStates (host : string) (es : list Event) : list State := EState <$> List.filter (nodeOf host) es.

(** Only a running node completes. *)
Definition lifecycle (l : list State) : Prop := forall l1 l2, l = l1 ++ Complete :: l2 -> last l1 = Some Running.

Definition nodes_track (es : list Event) (p : outputParser) : Prop :=
  forall host, (host ∈ activeNodes p <-> last (nodeStates host es) = Some Running) /\ lifecycle (nodeStates host es).

(** An event that is not about a node *)
Definition other (e : Event) : Prop := forall host, nodeOf host e = false.

Lemma nodeStates_app host es es' : nodeStates host (es ++ es') = nodeStates host es ++ nodeStates host es'.
Proof. unfold nodeStates. by rewrite List.filter_app, fmap_app. Qed.

Lemma nodeStates_other host es : Forall other es -> nodeStates host es = [].
Proof.
  unfold nodeStates. induction 1 as [|e es He _ IH]; [done|]. cbn [List.filter]. by rewrite (He host).
Qed.

Lemma track_other es es' p p' : Forall other es' -> activeNodes p' = activeNodes p -> nodes_track es p -> nodes_track (es ++ es') p'.
Proof.
  intros Ho Ha Ht host. rewrite nodeStates_app, (nodeStates_other host es' Ho), app_nil_r, Ha. apply Ht.
Qed.

Lemma lifecycle_snoc l s : lifecycle l -> (s = Complete -> last l = Some Running) -> lifecycle (l ++ [s]).
Proof.
  intros Hl Hs l1 l2 Heq. destruct (exists_last (l := Complete :: l2)) as (l2' & x & Hx); [discriminate|].
  rewrite Hx, app_assoc in Heq. apply app_inj_tail in Heq as [Heq ->]. destruct l2' as [|y l2'].
  - simplify_eq/=. rewrite app_nil_r in *. subst. by apply Hs.
  - simplify_eq/=. by eapply Hl.
Qed.

Lemma nodeEvent_states host host' state detail :
  nodeStates host' [nodeEvent host state detail] = if String.eqb host' host then [state] else [].
Proof.
  unfold nodeStates. cbn [List.filter]. unfold nodeOf, nodeEvent, event. cbn [Phase ID].
  change (String.eqb Orchestration Orchestration) with true. cbn [andb].
  destruct (String.eqb_spec host' host) as [->|Hne].
  - by rewrite String.eqb_refl.
  - destruct (String.eqb_spec ("node:" +:+ host) ("node:" +:+ host')) as [Heq|]; [|done]. apply str_append_inj_l in Heq. congruence.
Qed.

Lemma track_report es p host state detail : nodes_track es p ->
  nodes_track (es ++ (reportNode host state detail p).1) (reportNode host state detail p).2.
Proof.
  intros Ht. unfold reportNode. destruct (_ && _) eqn:Hc.
  { cbn [fst snd]. by rewrite app_nil_r. }
  cbn [fst snd]. intros host'. rewrite nodeStates_app, nodeEvent_states. cbn [set_nodes activeNodes].
  destruct (Ht host') as [Hact Hlife]. destruct (String.eqb_spec host' host) as [->|Hne].
  - rewrite last_snoc. split.
    + destruct (bool_decide (state = Running)) eqn:Hs.
      * apply bool_decide_eq_true in Hs as ->. set_solver.
      * apply bool_decide_eq_false in Hs. split; [set_solver|congruence].
    + apply lifecycle_snoc; [done|]. intros ->. apply Hact. apply andb_false_iff in Hc as [Hc|Hc]; [|done].
      by apply negb_false_iff, bool_decide_eq_true in Hc.
  - rewrite app_nil_r. split; [|done]. rewrite <- Hact. destruct (bool_decide (state = Running)); set_solver.
Qed.

(** Events of the other phases, and of activities that are not node rows *)
Lemma infra_other id label detail state : other (event Infrastructure id label detail state).
Proof. by intros host. Qed.

Definition target_ok (t : Target) : Prop := forall host, ~ (TPhase t = Orchestration /\ TID t = "node:" +:+ host).

Lemma target_other t detail : target_ok t -> other (event (TPhase t) (TID t) (TLabel t) detail Running).
Proof.
  intros Ht host. unfold nodeOf, event. cbn [Phase ID]. apply andb_false_iff.
  destruct (String.eqb_spec (TPhase t) Orchestration) as [H1|]; [|by left].
  destruct (String.eqb_spec (TID t) ("node:" +:+ host)) as [H2|]; [|by right]. exfalso. by apply (Ht host).
Qed.

Lemma update_other address state detail p :
  Forall other (updateResource address state detail p).1 /\
  activeNodes (updateResource address state detail p).2 = activeNodes p /\
  activityTimer (updateResource address state detail p).2 = activityTimer p.
Proof.
  unfold updateResource. destruct (HasPrefix address "terraform_data.seed_plane").
  { destruct (_ && _); (split; [|done]); repeat constructor; apply infra_other. }
  destruct (terraformResource address) as [[id label] aggregate]. destruct (String.eqb id ""); [by split; [constructor|]|].
  cbv zeta. destruct (_ && _); [by split; [constructor|]|]. split; [|done]. repeat constructor. by destruct aggregate.
Qed.

Lemma seed_other line p b es p' : observeSeedPlane line p = Some (b, es, p') ->
  Forall other es /\ activeNodes p' = activeNodes p /\ activityTimer p' = activityTimer p.
Proof.
  unfold observeSeedPlane. destruct (Index _ _); [|intros [= <- <- <-]; by split; [constructor|]].
  destruct (_ <=? _)%nat; [|done]. intros [= <- <- <-]. split; [|done]. unfold seedEvents, reportSeedService.
  repeat case_match; repeat constructor; by intros host.
Qed.

Ltac other_row := split; [repeat case_match; repeat constructor; by intros host|done].

Lemma step_other command e p r : terraformEventStep command e p = Some r ->
  Forall other r.1 /\ activeNodes r.2 = activeNodes p /\ activityTimer r.2 = activityTimer p.
Proof.
  unfold terraformEventStep. cbv zeta.
  repeat lazymatch goal with |- (if ?b then _ else _) = Some r -> _ =>
    destruct b; [first [solve [intros [= <-]; apply update_other] | solve [intros [= <-]; other_row] | idtac]|] end.
  - destruct (observeSeedPlane (HOutput (Hook e)) p) as [[[seen es] p1]|] eqn:Hs; [|done]. simpl.
    destruct (seed_other _ _ _ _ _ Hs) as (Ho & Ha & Htm). destruct (_ && _); [|intros [= <-]; done].
    destruct (update_other (HResource (Hook e)) Running "provisioning" p1) as (Ho2 & Ha2 & Htm2).
    destruct (updateResource (HResource (Hook e)) Running "provisioning" p1) as [es' p2]. cbn [fst snd] in *. intros [= <-]. cbn [fst snd].
    split; [by apply Forall_app|]. split; congruence.
  - intros [= <-]. other_row.
Qed.

Lemma text_other line p : Forall other (observeTerraformText line p).1 /\
  activeNodes (observeTerraformText line p).2 = activeNodes p /\ activityTimer (observeTerraformText line p).2 = activityTimer p.
Proof.
  unfold observeTerraformText. destruct (_ || _ || _); [split; [repeat constructor; by intros host|done]|].
  destruct (terraformPlan line); [apply update_other|]. destruct (terraformAction line) as [[address verb]|]; [apply update_other|].
  by split; [constructor|].
Qed.

Definition timer_ok (p : outputParser) : Prop := forall t, activityTimer p = Some t -> target_ok t.
Definition tracked (es : list Event) (p : outputParser) : Prop := nodes_track es p /\ timer_ok p.

Lemma tracked_other es es' p p' : Forall other es' -> activeNodes p' = activeNodes p -> activityTimer p' = activityTimer p ->
  tracked es p -> tracked (es ++ es') p'.
Proof. intros Ho Ha Htm [Ht Hti]. split; [by eapply track_other|]. intros t. rewrite Htm. apply Hti. Qed.

Lemma tracked_report es p host state detail : tracked es p ->
  tracked (es ++ (reportNode host state detail p).1) (reportNode host state detail p).2.
Proof.
  intros [Ht Hti]. split; [by apply track_report|]. unfold reportNode. by destruct (_ && _).
Qed.

Lemma tracked_result es line p : tracked es p ->
  tracked (es ++ (observeAnsibleResult line p).1) (observeAnsibleResult line p).2.
Proof.
  intros Ht. unfold observeAnsibleResult. destruct (String.eqb _ ""); [by rewrite app_nil_r|]. cbv zeta.
  set (q := if Contains line "Drain node" || _ then _ else p). assert (tracked es q) as Hq by (unfold q; by destruct (_ || _)).
  clearbody q. destruct (bool_decide (nodeStage q = ansibleNodeIdle)); [by rewrite app_nil_r|]. destruct (_ || _); [by apply tracked_report|].
  destruct (HasPrefix line "FAILED - RETRYING: ["); [by apply tracked_report|].
  destruct (HasPrefix line "ASYNC POLL on "); [by apply tracked_report|]. destruct (completion (nodeStage q)). by apply tracked_report.
Qed.

Lemma tracked_ansible es command line p : target_ok (ansibleActivity command) -> tracked es p ->
  tracked (es ++ (observeAnsible command line p).1) (observeAnsible command line p).2.
Proof.
  intros Hc [Ht Hti]. unfold observeAnsible. destruct (ansibleTaskDetail line) as [detail []].
  - rewrite app_nil_r. split; [done|]. intros t. cbn. destruct (activityTimer p) as [t0|] eqn:Htm; intros [= <-]; [by apply Hti|done].
  - destruct (ansiblePullDetail line).
    + split; [apply (track_other es _ p); [|done|done]|done]. constructor; [by apply target_other|constructor].
    + by apply tracked_result.
Qed.

Lemma tracked_observe es command raw p es' p' : target_ok (ansibleActivity command) -> tracked es p ->
  observe command raw p = Some (es', p') -> tracked (es ++ es') p'.
Proof.
  intros Hc Ht. unfold observe. destruct (String.eqb _ ""); [intros [= <- <-]; by rewrite app_nil_r|].
  set (line := TrimSpace _). destruct (ansibleCommand (Name command)).
  { intros [= He]. pose proof (tracked_ansible es command line p Hc Ht) as H. by rewrite He in H. }
  destruct (negb _); [intros [= <- <-]; by rewrite app_nil_r|].
  destruct (observeTerraformEvent command line p) as [[[seen es0] p1]|] eqn:He; [|done]. simpl.
  assert (Forall other es0 /\ activeNodes p1 = activeNodes p /\ activityTimer p1 = activityTimer p) as (Ho0 & Ha0 & Htm0).
  { unfold observeTerraformEvent in He. destruct (_ || _); [injection He as <- <- <-; by split; [constructor|]|].
    destruct (unmarshalEvent line) as [e|]; [|injection He as <- <- <-; by split; [constructor|]].
    destruct (_ || _); [injection He as <- <- <-; by split; [constructor|]|].
    destruct (terraformEventStep command e p) as [[es1 p2]|] eqn:Hs; [|done]. injection He as <- <- <-. apply (step_other command e p (es1, p2) Hs). }
  destruct seen; [intros [= <- <-]; by apply (tracked_other es es0 p)|].
  destruct (observeSeedPlane line p1) as [[[b es1] p2]|] eqn:Hs; [|done]. simpl.
  destruct (seed_other _ _ _ _ _ Hs) as (Ho1 & Ha1 & Htm1). destruct (text_other line p2) as (Ho2 & Ha2 & Htm2).
  destruct (observeTerraformText line p2) as [es2 p3]. cbn [fst snd] in *. intros [= <- <-].
  apply (tracked_other es _ p); [by rewrite !Forall_app|congruence..|done].
Qed.

Lemma tracked_nodes es hosts state detail p : tracked es p ->
  tracked (es ++ (reportNodes hosts state detail p).1) (reportNodes hosts state detail p).2.
Proof.
  revert es p. induction hosts as [|host hosts IH]; intros es p Ht; [by rewrite app_nil_r|]. cbn [reportNodes].
  pose proof (tracked_report es p host state detail Ht) as H. destruct (reportNode host state detail p) as [es1 p1]. cbn [fst snd] in H.
  specialize (IH _ _ H). destruct (reportNodes hosts state detail p1) as [es2 p2]. cbn [fst snd] in *. by rewrite app_assoc.
Qed.

(** Ending a command ends every active node. *)
Lemma reportNodes_drain hosts state detail p : state <> Running -> NoDup hosts -> (forall h, h ∈ hosts -> h ∈ activeNodes p) ->
  activeNodes (reportNodes hosts state detail p).2 = activeNodes p ∖ list_to_set hosts.
Proof.
  intros Hs. revert p. induction hosts as [|host hosts IH]; intros p Hnd Hin; [cbn; set_solver|]. cbn [reportNodes].
  apply NoDup_cons in Hnd as [Hni Hnd].
  assert (activeNodes (reportNode host state detail p).2 = activeNodes p ∖ {[host]}) as H1.
  { unfold reportNode. rewrite bool_decide_eq_true_2 by (apply Hin; set_solver). cbn [negb andb].
    rewrite bool_decide_eq_false_2 by done. cbn [snd set_nodes activeNodes]. set_solver. }
  destruct (reportNode host state detail p) as [es1 p1]. cbn [snd] in H1.
  specialize (IH p1 Hnd). rewrite H1 in IH. destruct (reportNodes hosts state detail p1) as [es2 p2]. cbn [snd] in *.
  rewrite IH by (intros h Hh; assert (h ∈ activeNodes p) by (apply Hin; set_solver); set_solver). cbn [list_to_set]. set_solver.
Qed.

Lemma tracked_finish es command err p : tracked es p ->
  tracked (es ++ (finishCommand command err p).1) (finishCommand command err p).2 /\
  (ansibleCommand (Name command) = true -> activeNodes (finishCommand command err p).2 = ∅ /\ activityTimer (finishCommand command err p).2 = None).
Proof.
  intros Ht. unfold finishCommand. destruct (ansibleCommand (Name command)); cbn [negb]; [|by rewrite app_nil_r].
  set (q := set_activity "" None (set_stage ansibleNodeIdle p)).
  assert (tracked es q) as Hq by (destruct Ht as [Ht _]; split; [exact Ht|done]).
  assert (forall state detail, state <> Running ->
    let r := (let '(es', q') := reportNodes (elements (activeNodes q)) state detail q in (es', set_nodes ∅ q')) in
    tracked (es ++ r.1) r.2 /\ activeNodes r.2 = ∅ /\ activityTimer r.2 = None) as H.
  { intros state detail Hs. pose proof (tracked_nodes es (elements (activeNodes q)) state detail q Hq) as [Htr Hti].
    pose proof (reportNodes_drain (elements (activeNodes q)) state detail q Hs (NoDup_elements _) ltac:(set_solver)) as Hd.
    assert (activityTimer (reportNodes (elements (activeNodes q)) state detail q).2 = None) as Htm.
    { clear. assert (activityTimer q = None) as H by done. revert H. clearbody q. generalize (elements (activeNodes q)) as l. intros l.
      revert q. induction l as [|h l IH]; intros q Hn; [done|]. cbn [reportNodes].
      assert (activityTimer (reportNode h state detail q).2 = None) as H1 by (unfold reportNode; by destruct (_ && _)).
      destruct (reportNode h state detail q) as [e1 q1]. specialize (IH q1 H1). by destruct (reportNodes l state detail q1). }
    destruct (reportNodes (elements (activeNodes q)) state detail q) as [es' q']. cbn [fst snd] in *.
    assert (activeNodes q' = ∅) as He by set_solver. split; [|done]. split; [|intros t; cbn; by rewrite Htm].
    intros host. cbn [set_nodes activeNodes]. rewrite <- He. apply Htr. }
  destruct err; cbv zeta in H |- *; [destruct (H Failed "playbook failed" ltac:(done)) as (H1 & H2 & H3)
    |destruct (H Complete "playbook complete; health check pending" ltac:(done)) as (H1 & H2 & H3)]; done.
Qed.

Definition pop_ok (o : pop) : Prop := match o with PObserve command _ => target_ok (ansibleActivity command) | _ => True end.

Lemma tracked_step o es p es' p' : pop_ok o -> tracked es p -> popStep o p = Some (es', p') -> tracked (es ++ es') p'.
Proof.
  intros Ho Ht. destruct o as [command raw| |command err]; cbn [popStep pop_ok] in *.
  - by apply tracked_observe.
  - intros [= He]. destruct (activityTimer p) as [t|] eqn:Htm; [|injection He as <- <-; by rewrite app_nil_r].
    unfold emitActivity in He. destruct Ht as [Ht Hti].
    destruct (String.eqb _ ""); injection He as <- <-; (split; [|done]); (apply (track_other es _ p); [|done|done]); [constructor|].
    constructor; [apply target_other; by apply Hti|constructor].
  - intros [= He]. pose proof (proj1 (tracked_finish es command err p Ht)) as H. by rewrite He in H.
Qed.

Lemma tracked_run ops es p es' p' : Forall pop_ok ops -> tracked es p -> runParser ops p = Some (es', p') -> tracked (es ++ es') p'.
Proof.
  intros HF. revert es p es' p'. induction HF as [|o ops Ho _ IH]; intros es p es' p' Ht; cbn [runParser].
  { intros [= <- <-]. by rewrite app_nil_r. }
  destruct (popStep o p) as [[es1 p1]|] eqn:Hs; [|done]. simpl. destruct (runParser ops p1) as [[es2 p2]|] eqn:Hr; [|done]. simpl.
  intros [= <- <-]. rewrite app_assoc. eapply IH; [|exact Hr]. by eapply tracked_step.
Qed.

Lemma new_tracked : tracked [] newOutputParser.
Proof. split; [|done]. intros host. split; [|by intros [|? ?] ? ?]. cbn. split; [set_solver|done]. Qed.

(** C7. The life cycle of a node row.  Over any output and any ends of
    commands, every completion reported for a node directly follows a running
    report for it; the parser considers a node active exactly when the last
    state reported for it is running; and when an Ansible command ends, no
    node is left running and no timer is armed. *)
Theorem node_lifecycle ops command err es p :
  Forall pop_ok ops -> ansibleCommand (Name command) = true -> runParser ops newOutputParser = Some (es, p) ->
  nodes_track es p /\
  (let '(es', p') := finishCommand command err p in
   nodes_track (es ++ es') p' /\ activityTimer p' = None /\ forall host, last (nodeStates host (es ++ es')) <> Some Running).
Proof.
  intros HF Hc Hrun. pose proof (tracked_run ops [] newOutputParser es p HF new_tracked Hrun) as Ht. split; [apply Ht|].
  destruct (tracked_finish es command err p Ht) as [[Htr _] Hend]. destruct (Hend Hc) as [Ha Htm].
  destruct (finishCommand command err p) as [es' p']. cbn [fst snd] in *. split; [done|]. split; [done|].
  intros host Hl. apply Htr in Hl. rewrite Ha in Hl. set_solver.
Qed.

(** ** Slices *)

Lemma Index_le s sub i : Index s sub = Some i -> (i + String.length sub <= String.length s)%nat.
Proof.
  revert i. induction s as [|c s IH]; intros i; cbn [Index].
  - destruct (String.prefix sub "") eqn:Hp; [|done]. intros [= <-]. apply prefix_append_iff in Hp as [r Hr].
    apply (f_equal String.length) in Hr. rewrite str_length_append in Hr. cbn in *. lia.
  - destruct (String.prefix sub (String c s)) eqn:Hp.
    + intros [= <-]. apply prefix_append_iff in Hp as [r Hr]. apply (f_equal String.length) in Hr. rewrite str_length_append in Hr. lia.
    + destruct (Index s sub) as [j|] eqn:Hj; [|done]. intros [= <-]. specialize (IH j eq_refl). cbn [String.length]. lia.
Qed.

Lemma str_map_length f s : String.length (str_map f s) = String.length s.
Proof. induction s as [|c s IH]; [done|]. cbn. by rewrite IH. Qed.

(** ASCII lines are safe. *)
Lemma seed_ascii line p : isASCII line = true -> is_Some (observeSeedPlane line p).
Proof.
  intros Ha. unfold observeSeedPlane. destruct (Index (ToLower line) marker) as [i|] eqn:Hi; [|eauto].
  apply Index_le in Hi. unfold ToLower in Hi. rewrite Ha, str_map_length in Hi. rewrite (proj2 (Nat.leb_le _ _) Hi). eauto.
Qed.
End Parser.

(** ** Concrete output *)

#[local] Existing Instance DashboardTheorems.asciiCase.

Definition noTarget : Target := {| TPhase := ""; TID := ""; TLabel := "" |}.
Definition playbook : Command := {| Name := "/venv/bin/ansible-playbook"; Args := []; Activity := noTarget |}.
Definition terraform0 : Command := {| Name := "terraform"; Args := ["apply"]; Activity := noTarget |}.

Definition upgradeOutput : list pop :=
  [PObserve playbook "TASK [upgrade : Cordon node] ***"; PObserve playbook "changed: [cp-0]"; PFire;
   PObserve playbook "TASK [upgrade : Uncordon node] ***"; PObserve playbook "ok: [cp-0]";
   PObserve playbook "TASK [upgrade : Drain node] ***"; PObserve playbook "ok: [cp-1 -> bastion]"].

Lemma upgradeOutput_ok : Forall pop_ok upgradeOutput.
Proof. repeat constructor; intros host [_ H]; vm_compute in H; discriminate H. Qed.

Example upgradeOutput_events : (fun r : list Event * outputParser => (fun e => (ID e, Detail e, EState e)) <$> r.1) <$> runParser upgradeOutput newOutputParser =
  Some [("node:cp-0", "cordoned; preparing to drain", Running); ("activity", "upgrade : Cordon node", Running);
        ("node:cp-0", "upgrade complete; schedulable", Complete); ("node:cp-1", "drained; upgrading components", Running)].
Proof. vm_compute. reflexivity. Qed.

Lemma parser_bounded_witness : exists es p, runParser upgradeOutput newOutputParser = Some (es, p) /\ parser_ok p /\ length es = 4%nat.
Proof.
  destruct (runParser upgradeOutput newOutputParser) as [[es p]|] eqn:Hrun.
  2: { apply (f_equal (fun r => match r with None => true | _ => false end)) in Hrun. vm_compute in Hrun. discriminate Hrun. }
  exists es, p. split; [reflexivity|]. split; [apply (parser_bounded upgradeOutput es p Hrun)|].
  apply (f_equal (fun r => match r with None => 0%nat | Some q => length q.1 end)) in Hrun. vm_compute in Hrun. symmetry. exact Hrun.
Defined.

Lemma aggregate_truthful_witness :
  exists e p', updateResource "libvirt_network.mesh" Complete "created" newOutputParser = ([e], p') /\ EState e = Complete.
Proof.
  destruct (updateResource "libvirt_network.mesh" Complete "created" newOutputParser) as [es p'] eqn:Hu.
  assert (exists e, es = [e]) as [e ->].
  { unfold updateResource in Hu. cbn in Hu. injection Hu as <- _. eexists. reflexivity. }
  exists e, p'. split; [reflexivity|].
  destruct (aggregate_truthful "libvirt_network.mesh" Complete "created" newOutputParser e p' "network" "Network" false) as (set & _ & _ & _ & _).
  - apply new_parser_ok.
  - reflexivity.
  - discriminate.
  - reflexivity.
  - exact Hu.
  - apply (f_equal (fun r => EState <$> r.1)) in Hu. vm_compute in Hu. injection Hu as Hu. symmetry. exact Hu.
Defined.

Lemma node_lifecycle_witness : exists es p,
  runParser upgradeOutput newOutputParser = Some (es, p) /\ nodes_track es p /\
  last (nodeStates "cp-1" (es ++ (finishCommand playbook false p).1)) <> Some Running.
Proof.
  destruct (runParser upgradeOutput newOutputParser) as [[es p]|] eqn:Hrun.
  2: { apply (f_equal (fun r => match r with None => true | _ => false end)) in Hrun. vm_compute in Hrun. discriminate Hrun. }
  exists es, p. split; [reflexivity|].
  destruct (node_lifecycle upgradeOutput playbook false es p upgradeOutput_ok) as [Ht Hend]; [reflexivity|exact Hrun|].
  split; [exact Ht|]. destruct (finishCommand playbook false p) as [es' p']. apply Hend.
Defined.

(** The case of U+023A, whose lower case is a byte longer *)
Definition caseWithStroke : UnicodeCase.
Proof.
  refine {| ToLowerRune r := if (r =? 570)%N then 11365%N else if within 65 90 r then (r + 32)%N else r;
            ToUpperRune r := if within 97 122 r then (r - 32)%N else r |}.
  - intros r Hr. destruct (N.eqb_spec r 570); [lia|done].
  - done.
Defined.

(** A line whose lower case is longer than the line crashes the parser:
    the marker is found in the lowered line and its index used to slice the
    line itself, out of range for two letters A with stroke before it. *)
Theorem seed_marker_out_of_range :
  observe (UC := caseWithStroke) terraform0 (encode [570; 570]%N +:+ " seed plane:") newOutputParser = None /\
  forall line p, isASCII line = true -> is_Some (observeSeedPlane (UC := caseWithStroke) line p).
Proof. split; [vm_compute; reflexivity|]. intros line p. apply seed_ascii. Qed.
End OutputParserTheorems.
