(* ===== verification/NetUrl.v ===== *)
(** Go's [net/url] as the provider clients use it: [PathEscape],
    [QueryEscape], [ParseQuery], [Values.Encode] and their round trips. *)
From stdpp Require Import prelude gmap strings list sorting.
From Stdlib Require Import Ascii ZArith Lia.
From S2P Require Import Prelude GoStrings Fs Treehash.

Module NetUrl.
Import Fs Treehash.

(** ** Escaping *)

Definition upperhex (n : N) : ascii := ascii_of_N (if (n <? 10)%N then 48 + n else 55 + n)%N.
Definition percent : ascii := "%".

Definition escape_byte (c : ascii) : string :=
  String percent (String (upperhex (N_of_ascii c / 16)) (String (upperhex (N_of_ascii c mod 16)) "")).

Definition unreserved (c : ascii) : bool :=
  is_lower c || is_upper c || is_digit c || str_elem c "-_.~".

(** [shouldEscape] for a path segment and for a query component *)
Definition escapeInSegment (c : ascii) : bool := negb (unreserved c || str_elem c "$&+:=@").
Definition escapeInQuery (c : ascii) : bool := negb (unreserved c).

Fixpoint PathEscape (s : string) : string :=
  match s with
  | "" => ""
  | String c s => (if escapeInSegment c then escape_byte c else String c "") +:+ PathEscape s
  end.

Definition query_byte (c : ascii) : string :=
  if Ascii.eqb c " " then "+" else if escapeInQuery c then escape_byte c else String c "".

Fixpoint QueryEscape (s : string) : string :=
  match s with
  | "" => ""
  | String c s => query_byte c +:+ QueryEscape s
  end.

Definition unhex (c : ascii) : option N :=
  let n := N_of_ascii c in
  if is_digit c then Some (n - 48)%N
  else if in_range "a" "f" c then Some (n - 87)%N
  else if in_range "A" "F" c then Some (n - 55)%N
  else None.

Fixpoint QueryUnescape (s : string) : option string :=
  match s with
  | "" => Some ""
  | String c rest =>
      if Ascii.eqb c percent then
        match rest with
        | String a (String b rest) =>
            x ← unhex a; y ← unhex b; String (ascii_of_N (16 * x + y)) <$> QueryUnescape rest
        | _ => None
        end
      else String (if Ascii.eqb c "+" then " "%char else c) <$> QueryUnescape rest
  end.

(** ** [url.Values] *)

Abbreviation Values := (gmap string (list string)).

(** One [key=value] pair of a query; [Err] is an invalid escape or a
    semicolon.  [ParseQuery] goes on after an error but returns the first. *)
Definition parse_pair (pair : string) (m : Values) : option Values :=
  if Contains pair ";" then None
  else if String.eqb pair "" then Some m
  else
    let '(key, value, _) := Cut pair "=" in
    k ← QueryUnescape key; v ← QueryUnescape value;
    Some (<[k := default [] (m !! k) ++ [v]]> m).

Definition ParseQuery (query : string) : option Values :=
  foldl (fun acc pair => m ← acc; parse_pair pair m) (Some ∅) (Split query "&").

Definition Has (m : Values) (key : string) : bool := bool_decide (is_Some (m !! key)).
Definition Set_ (m : Values) (key value : string) : Values := <[key := [value]]> m.

Definition encode_key (m : Values) (key : string) : list string :=
  (fun v => QueryEscape key +:+ "=" +:+ QueryEscape v) <$> default [] (m !! key).
Definition Encode (m : Values) : string :=
  Join (mjoin (encode_key m <$> SortStrings (map_to_list m).*1)) "&".

(** ** Round trips *)

Lemma unhex_upperhex n : (n < 16)%N -> unhex (upperhex n) = Some n.
Proof.
  intros H. assert (exists k, (k < 16)%nat /\ n = N.of_nat k) as (k & Hk & ->) by (exists (N.to_nat n); lia).
  do 16 (destruct k as [|k]; [by vm_compute|]). lia.
Qed.

Lemma unescape_byte c s :
  QueryUnescape (escape_byte c +:+ s) = String c <$> QueryUnescape s.
Proof.
  unfold escape_byte. rewrite !str_append_cons. cbn [QueryUnescape String.append].
  replace (Ascii.eqb percent percent) with true by done.
  pose proof (N_ascii_bounded c) as Hc.
  rewrite !unhex_upperhex; [|apply N.Div0.div_lt_upper_bound; lia|by apply N.mod_lt]. cbn [mbind option_bind].
  rewrite <- N.div_mod by done. by rewrite ascii_N_embedding.
Qed.

Lemma unescape_query_byte c s :
  QueryUnescape (query_byte c +:+ s) = String c <$> QueryUnescape s.
Proof.
  unfold query_byte. destruct (Ascii.eqb c " ") eqn:Hsp.
  { apply Ascii.eqb_eq in Hsp as ->. done. }
  destruct (escapeInQuery c) eqn:He; [apply unescape_byte|].
  rewrite str_append_cons. cbn [QueryUnescape String.append].
  destruct (Ascii.eqb c percent) eqn:Hp; [apply Ascii.eqb_eq in Hp; subst; done|].
  destruct (Ascii.eqb c "+") eqn:Hq; [apply Ascii.eqb_eq in Hq; subst; done|done].
Qed.

Lemma QueryUnescape_Escape s : QueryUnescape (QueryEscape s) = Some s.
Proof. induction s as [|c s IH]; [done|]. cbn [QueryEscape]. rewrite unescape_query_byte, IH. done. Qed.

(** Nothing that separates pairs survives the escaping. *)
Definition query_safe (c : ascii) : bool := negb (str_elem c "&;=#").

Lemma upperhex_safe n : (n < 16)%N -> query_safe (upperhex n) = true.
Proof.
  intros H. assert (exists k, (k < 16)%nat /\ n = N.of_nat k) as (k & Hk & ->) by (exists (N.to_nat n); lia).
  do 16 (destruct k as [|k]; [by vm_compute|]). lia.
Qed.

Lemma query_byte_safe c : str_forallb query_safe (query_byte c) = true.
Proof.
  unfold query_byte. destruct (Ascii.eqb c " "); [done|].
  destruct (escapeInQuery c) eqn:He; cbn [str_forallb escape_byte].
  - pose proof (N_ascii_bounded c). rewrite !upperhex_safe; [done|by apply N.mod_lt|apply N.Div0.div_lt_upper_bound; lia].
  - apply andb_true_intro. split; [|done]. unfold query_safe. apply negb_true_iff.
    destruct (str_elem c "&;=#") eqn:Hel; [|done]. exfalso. revert He. unfold escapeInQuery.
    cbn [str_elem] in Hel. rewrite orb_false_r in Hel. repeat (apply orb_prop in Hel; destruct Hel as [Hel|Hel]);
      apply Ascii.eqb_eq in Hel; by subst.
Qed.

Lemma QueryEscape_safe s : str_forallb query_safe (QueryEscape s) = true.
Proof.
  induction s as [|c s IH]; [done|]. cbn [QueryEscape]. by rewrite str_forallb_append, query_byte_safe, IH.
Qed.

End NetUrl.
