(* ===== verification/IdentityApi.v ===== *)
(** The custom resource of the identity operator,
    [operator/api/v1alpha1/platformidentityconfiguration_types.go]: what a
    declaration and its status hold. *)
From stdpp Require Import prelude strings list.
From Stdlib Require Import ZArith.
From S2P Require Import Prelude.

Module IdentityApi.

Definition SingletonName : string := "atum".
Definition SingletonNamespace : string := "atum-system".
Definition ConditionKeycloak : string := "KeycloakReady".
Definition ConditionVault : string := "VaultReady".
Definition ConditionReady : string := "Ready".

Record Administrator := { Username : string; Group : string; RealmRole : string }.
Record GroupsScope := { ClaimName : string }.

(** [type ClientKind string] *)
Definition ClientPublicPKCE : string := "PublicPKCE".
Definition ClientConfidential : string := "Confidential".

(** [WebOrigins] may be a nil slice, [None]. *)
Record KeycloakClient :=
  { KID : string; Kind : string; RedirectURIs : list string; WebOrigins : option (list string); Audience : bool }.

Record KeycloakIntent :=
  { Realm : string; KAdministrator : Administrator; KGroupsScope : GroupsScope;
    Scopes : list string; Clients : list KeycloakClient }.

(** [type VaultPolicyPurpose string] *)
Definition VaultPlatformAdministration : string := "PlatformAdministration".
Definition VaultPlatformAdministrationRoleName : string := "atum-admin".

Record VaultPolicy := { PName : string; Purpose : string }.
Record VaultRole :=
  { RName : string; RClientID : string; RRedirectURIs : list string; RScopes : list string; GroupsClaim : string }.
Record VaultExternalGroup := { GName : string; Claim : string; PolicyName : string }.
Record VaultIntent :=
  { AuthPath : string; VPolicy : VaultPolicy; VRole : VaultRole; ExternalGroup : VaultExternalGroup }.

Record PlatformIdentityConfigurationSpec :=
  { Domain : string; SKeycloak : KeycloakIntent; SVault : VaultIntent }.

(** [metav1.Condition] without the time of its last transition; the status of
    a condition is [True] or [False]. *)
Record Condition :=
  { CType : string; CStatus : bool; CReason : string; CMessage : string; CGeneration : Z }.
Record PlatformIdentityConfigurationStatus :=
  { ObservedGeneration : Z; FailureCount : Z; Conditions : list Condition }.

(** Of the metadata, what the controller reads: the generation, whether the
    deletion timestamp is set, and the finalizers. *)
Record PlatformIdentityConfiguration :=
  { Generation : Z; Deleted : bool; Finalizers : list string;
    Spec : PlatformIdentityConfigurationSpec; Status : PlatformIdentityConfigurationStatus }.

End IdentityApi.
