(* ===== verification/Provider.v ===== *)
(** The HTTP client of the operator's providers,
    [operator/internal/provider/http.go], and the programs it is used in.  A
    program is a tree of effects, one constructor per call that leaves the
    process: an HTTP exchange, the context, the iteration order of a map and
    the calls to the Kubernetes API; what the world answers is not
    constrained, so a statement about a program holds for every server. *)
From stdpp Require Import prelude gmap strings list.
From Stdlib Require Import Ascii ZArith Lia.
From S2P Require Import Prelude GoStrings Utf8 Json NetUrl IdentityApi.

Module Provider.
Import Utf8 Json NetUrl IdentityApi.

(** ** Errors *)

(** [terminalError], an error of the Kubernetes API, [errors.New] and
    [fmt.Errorf], [%w] and [errors.Join] *)
#[warnings="-register-all"]
Inductive error :=
  | New (text : string)
  | Terminal (text : string)
  | Api (notFound : bool) (text : string)
  | Wrapped (prefix : string) (e : error)
  | Joined (es : list error).

Definition Conflict (text : string) : error := Terminal text.

Fixpoint Error (e : error) : string :=
  match e with
  | New t | Terminal t | Api _ t => t
  | Wrapped p e => p +:+ ": " +:+ Error e
  | Joined es => Join (map Error es) (String "010" "")
  end.

(** [errors.As] looks through [%w] and [errors.Join]. *)
Fixpoint errorsAs (p : error -> bool) (e : error) : bool :=
  p e ||
  match e with
  | Wrapped _ e => errorsAs p e
  | Joined es => existsb (errorsAs p) es
  | _ => false
  end.

Definition IsTerminal (e : error) : bool :=
  errorsAs (fun e => match e with Terminal _ => true | _ => false end) e.
Definition IsNotFound (e : error) : bool :=
  errorsAs (fun e => match e with Api true _ => true | _ => false end) e.

(** [errors.Join] drops the nil errors and is nil when nothing is left. *)
Definition errorsJoin (es : list (option error)) : option error :=
  match omap id es with [] => None | es => Some (Joined es) end.

(** ** Requests *)

Inductive authentication :=
  | anonymous
  | keycloakBearer (token : string)
  | vaultToken (token : string).

Record Client := { baseURL : string; auth : authentication }.

Inductive payload :=
  | NoBody
  | JsonBody (v : value)
  | FormBody (values : Values).

(** The endpoint, the token [authenticate] puts in the headers, and the rest *)
Record request := { r_base : string; r_auth : authentication; r_method : string; r_path : string; r_body : payload }.

(** The answer of a server: its status and body, or the errors of [Do] and of
    reading the body *)
Abbreviation response := (result string (Z * result string string)).

(** ** Programs *)

Inductive op :=
  | Do (r : request)
  | CtxErr
  | Range (keys : list string)
  | GetObject
  | PatchFinalizers (finalizers : list string)
  | PatchStatus (s : PlatformIdentityConfigurationStatus)
  | GetSecret (namespace name : string).

Definition answer (o : op) : Type :=
  match o with
  | Do _ => response
  | CtxErr => option string
  | Range keys => { l : list string | l ≡ₚ keys }
  | GetObject => result (bool * string) PlatformIdentityConfiguration
  | PatchFinalizers _ => result (bool * string) unit
  | PatchStatus _ => result (bool * string) PlatformIdentityConfigurationStatus
  | GetSecret _ _ => result (bool * string) (gmap string string)
  end.

(** [Panic] is a nil dereference or a negative shift. *)
Inductive prog (A : Type) : Type :=
  | Done (a : A)
  | Panic
  | Vis (o : op) (k : answer o -> prog A).
Arguments Done {A} a.
Arguments Panic {A}.
Arguments Vis {A} o k.

Fixpoint bind {A B} (p : prog A) (f : A -> prog B) : prog B :=
  match p with
  | Done a => f a
  | Panic => Panic
  | Vis o k => Vis o (fun r => bind (k r) f)
  end.

Definition call (o : op) : prog (answer o) := Vis o Done.

(** [(T, error)] *)
Definition M (A : Type) : Type := prog (result error A).
#[export] Instance M_ret : MRet M := fun _ a => Done (Ok a).
#[export] Instance M_bind : MBind M := fun _ _ f m =>
  bind m (fun r => match r with Ok a => f a | Err e => Done (Err e) end).

Definition succeed {A} (a : A) : M A := Done (Ok a).
Definition fail {A} (e : error) : M A := Done (Err e).
Definition lift {A} (r : result error A) : M A := Done r.
Definition require (b : bool) (e : error) : M unit := if b then mret tt else fail e.
(** [if err != nil { return fmt.Errorf("prefix: %w", err) }] *)
Definition wrapped {A} (prefix : string) (m : M A) : M A :=
  bind m (fun r => Done (wrap_err (Wrapped prefix) r)).
(** The error of a call as a value *)
Definition catch {A} (m : M A) : prog (result error (result error A)) := bind m (fun r => Done (Ok r)).

Fixpoint for_each {A} (l : list A) (f : A -> M unit) : M unit :=
  match l with [] => mret tt | x :: l => f x;; for_each l f end.

(** [for { ... }], up to [2 ^ n] rounds of the body, which returns the next
    state or the value of the loop *)
Fixpoint rounds {S A} (n : nat) (body : S -> M (S + A)) (s : S) : M (S + A) :=
  match n with
  | O => body s
  | Datatypes.S n =>
      x ← rounds n body s;
      match x with inl s => rounds n body s | inr a => mret (inr a) end
  end.

(** ** Libraries

    [url.Parse] is an interface, because what it accepts as a host changes
    between releases of Go; so are the PEM decoder of [crypto/x509] and the
    Unicode table behind [%q].  The theorems need no more of them than their
    types. *)

(** The parts of [*url.URL] the code reads *)
Record URL := { Scheme : string; Hostname : string; Port : string; User : option string;
                RawQuery : string; Fragment : string; UrlPath : string }.

Class Libraries := {
  Parse : string -> option URL;               (** [None]: nil and an error *)
  AppendCertsFromPEM : string -> bool;
  IsPrint : N -> bool                         (** of a rune above U+007F *)
}.

Section Clients.
Context {LI : Libraries}.

(** [strconv.Quote] *)
Definition hexdigits (k : nat) (n : N) : string :=
  foldr (fun i s => String (hex_char (N.shiftr n (4 * N.of_nat i) mod 16)) s) "" (rev (seq 0 k)).
Definition bs : string := "\".
Definition quoteRune (r : N) (raw : string) : string :=
  if (r =? 34)%N then bs +:+ dquote
  else if (r =? 92)%N then bs +:+ bs
  else if within 32 126 r then raw
  else if (r =? 7)%N then bs +:+ "a" else if (r =? 8)%N then bs +:+ "b"
  else if (r =? 12)%N then bs +:+ "f" else if (r =? 10)%N then bs +:+ "n"
  else if (r =? 13)%N then bs +:+ "r" else if (r =? 9)%N then bs +:+ "t"
  else if (r =? 11)%N then bs +:+ "v"
  else if (128 <=? r)%N && IsPrint r then raw
  else if (r <? 32)%N || (r =? 127)%N then bs +:+ "x" +:+ hexdigits 2 r
  else if (r <? 65536)%N then bs +:+ "u" +:+ hexdigits 4 r
  else bs +:+ "U" +:+ hexdigits 8 r.

(** An invalid byte is printed as [\x] and its value. *)
Fixpoint quote_runes (s : string) (ds : list (N * nat)) : string :=
  match ds with
  | [] => ""
  | (r, w) :: ds =>
      (if (r =? RuneError)%N && (w =? 1)%nat
       then match s with String c _ => bs +:+ "x" +:+ hexdigits 2 (byte_of c) | "" => "" end
       else quoteRune r (str_take w s)) +:+ quote_runes (str_drop w s) ds
  end.
Definition q (s : string) : string := dquote +:+ quote_runes s (runes s) +:+ dquote.

(** ** [Client] *)

Definition maxResponseBytes : N := 2097152.
Definition maxDiagnosticBytes : nat := 512.

(** [strings.TrimRight(s, "/")] *)
Fixpoint trim_slashes (s : string) : string :=
  match s with String "/" s => trim_slashes s | _ => s end.
Definition TrimRightSlash (s : string) : string := str_rev (trim_slashes (str_rev s)).

(** The runes below the space and DEL become spaces. *)
Definition blankControl (r : N) : option N :=
  if (r <? 32)%N || (r =? 127)%N then Some 32%N else Some r.

Definition operation (method path : string) : string :=
  let value := Map blankControl (method +:+ " " +:+ path) in
  if (maxDiagnosticBytes <? String.length value)%nat then str_take maxDiagnosticBytes value else value.

Definition newClient (baseURL : string) (auth : authentication) (ca : string) : result error Client :=
  match auth with
  | anonymous => Ok tt
  | keycloakBearer token | vaultToken token =>
      if String.eqb token "" then Err (New "authenticated provider client requires a token") else Ok tt
  end ≫= fun _ =>
  match Parse baseURL with
  | None => Err (New "provider endpoint must be an absolute HTTPS URL")
  | Some endpoint =>
      if negb (String.eqb (Scheme endpoint) "https") || String.eqb (Hostname endpoint) "" ||
         bool_decide (is_Some (User endpoint)) || negb (String.eqb (RawQuery endpoint) "") ||
         negb (String.eqb (Fragment endpoint) "")
      then Err (New "provider endpoint must be an absolute HTTPS URL")
      else if String.eqb ca "" || negb (AppendCertsFromPEM ca)
      then Err (New "provider CA bundle contains no certificate")
      else Ok {| baseURL := TrimRightSlash baseURL; auth := auth |}
  end.
(** ** Decoding

    [json.Unmarshal] skips the members of an object a struct has no field for. *)
Definition skips {A} (fields : list (string * setter A)) (key : string) : bool :=
  match find_field fields key with Some _ => false | None => true end.

Definition decode_open {A} (fields : list (string * setter A)) : setter A := fun v a =>
  match v with
  | JNull => Some a
  | JObj l => decode_members fields (filter (fun kv => skips fields kv.1 = false) l) a
  | _ => None
  end.

Fixpoint decode_list {A} (zero : A) (f : setter A) (l : list value) : option (list A) :=
  match l with
  | [] => Some []
  | v :: l => a ← f v zero; as_ ← decode_list zero f l; Some (a :: as_)
  end.
(** A slice that was nil before *)
Definition asList {A} (zero : A) (f : setter A) : setter (list A) := fun v _ =>
  match v with JNull => Some [] | JArr l => decode_list zero f l | _ => None end.

Fixpoint decode_entries {A} (zero : A) (f : setter A) (l : list (string * value)) (m : gmap string A) :
    option (gmap string A) :=
  match l with
  | [] => Some m
  | (k, v) :: l => a ← f v zero; decode_entries zero f l (<[k := a]> m)
  end.
Definition asMap {A} (zero : A) (f : setter A) : setter (gmap string A) := fun v m =>
  match v with JNull => Some ∅ | JObj l => decode_entries zero f l m | _ => None end.

(** A [map[string]any] keeps the last of repeated members; its members are kept
    in the order in which [json.Marshal] writes them. *)
Fixpoint obj_insert {A} (k : string) (v : A) (l : list (string * A)) : list (string * A) :=
  match l with
  | [] => [(k, v)]
  | (k', v') :: l' =>
      if String.eqb k k' then (k, v) :: l'
      else if String.ltb k k' then (k, v) :: l
      else (k', v') :: obj_insert k v l'
  end.
Definition obj {A} (l : list (string * A)) : list (string * A) :=
  foldl (fun acc kv => obj_insert kv.1 kv.2 acc) [] l.
Fixpoint obj_get {A} (k : string) (l : list (string * A)) : option A :=
  match l with [] => None | (k', v) :: l => if String.eqb k k' then Some v else obj_get k l end.

Fixpoint canon (v : value) : value :=
  match v with
  | JArr l => JArr (map canon l)
  | JObj l => JObj (obj (map (fun kv => (kv.1, canon kv.2)) l))
  | v => v
  end.
Definition asAnyMap : setter (list (string * value)) := fun v old =>
  match v with
  | JNull => Some []
  | JObj l => Some (foldl (fun acc kv => obj_insert kv.1 (canon kv.2) acc) old l)
  | _ => None
  end.
Definition strs (l : list string) : value := JArr (map JStr l).

(** ** [Client.JSON] and [Client.Form] *)

Definition accepts (accepted : list Z) (status : Z) : bool :=
  match accepted with
  | [] => (200 <=? status)%Z && (status <? 300)%Z
  | _ => existsb (Z.eqb status) accepted
  end.

(** What both do with the answer, up to the decoding *)
Definition receive (method path : string) (accepted : list Z) (r : response) : result error string :=
  match r with
  | Err text => Err (Wrapped (operation method path) (New text))
  | Ok (_, Err text) => Err (Wrapped ("read " +:+ operation method path +:+ " response") (New text))
  | Ok (status, Ok data) =>
      if (maxResponseBytes <? N.of_nat (String.length data))%N
      then Err (New (operation method path +:+ " response exceeds 2097152 bytes"))
      else if negb (accepts accepted status)
      then Err (New (operation method path +:+ " returned HTTP " +:+ Itoa status))
      else Ok data
  end.

(** The text of the decoder's own error is not modelled. *)
Definition unmarshal {A} (method path : string) (f : setter A) (zero : A) (data : string) : result error A :=
  match v ← parse_document data; f v zero with
  | Some a => Ok a
  | None => Err (Wrapped ("decode " +:+ operation method path +:+ " response") (New "invalid JSON"))
  end.

(** [output] is nil when [f] is [None]; an empty body leaves it as it was. *)
Definition JSON {A} (c : Client) (method path : string) (input : option value) (f : option (setter A)) (zero : A)
    (accepted : list Z) : M A :=
  match Parse (baseURL c +:+ path) with
  | None => fail (Wrapped "create provider request" (New "invalid URL"))
  | Some _ =>
      bind (call (Do {| r_base := baseURL c; r_auth := auth c; r_method := method; r_path := path;
                        r_body := match input with Some v => JsonBody v | None => NoBody end |}))
        (fun r => Done (data ← receive method path accepted r;
                        match f with
                        | Some f => if String.eqb data "" then Ok zero else unmarshal method path f zero data
                        | None => Ok zero
                        end))
  end.

Definition Form {A} (c : Client) (path : string) (values : Values) (f : setter A) (zero : A) : M A :=
  match Parse (baseURL c +:+ path) with
  | None => fail (New "invalid URL")
  | Some _ =>
      bind (call (Do {| r_base := baseURL c; r_auth := anonymous; r_method := "POST"; r_path := path;
                        r_body := FormBody values |}))
        (fun r => Done (data ← receive "POST" path [] r; unmarshal "POST" path f zero data))
  end.

(** A request without an output, with the statuses of success *)
Definition send (c : Client) (method path : string) (input : option value) : M unit :=
  JSON c method path input None tt [].
End Clients.
End Provider.
