(* ===== verification/Vault.v ===== *)
(** The Vault provider of the identity operator,
    [operator/internal/provider/vault.go]: every operation, as a program over
    HTTP exchanges. *)
From stdpp Require Import prelude gmap strings list.
From Stdlib Require Import Ascii ZArith Lia.
From S2P Require Import Prelude GoStrings Treehash Json NetUrl IdentityApi Provider.

Module Vault.
Import Treehash Json NetUrl IdentityApi Provider.

Definition ownerMarkerKey : string := "atum_owner".
Definition ownerMarkerValue : string := "atum-system/atum".

Definition lf : string := String "010" "".
Definition vaultMountDescription : string := ownerMarkerKey +:+ "=" +:+ ownerMarkerValue.
Definition vaultPolicyMarker : string := "# " +:+ ownerMarkerKey +:+ "=" +:+ ownerMarkerValue +:+ lf.
Definition vaultPlatformAdminPolicy : string :=
  "path " +:+ dquote +:+ "*" +:+ dquote +:+ " {" +:+ lf +:+
  "  capabilities = [" +:+
  Join (map (fun s => dquote +:+ s +:+ dquote) ["create"; "read"; "update"; "patch"; "delete"; "list"; "sudo"]) ", " +:+
  "]" +:+ lf +:+ "}".

(** ** What the server returns *)

Record jsonMount := { Accessor : string; Description : string }.
Record vaultGroup := { ID : string; Name : string; Metadata : gmap string string }.
Record vaultGroupAlias := { AID : string; AName : string; MountAccessor : string; CanonicalID : string }.

Definition zeroMount : jsonMount := {| Accessor := ""; Description := "" |}.
Definition zeroGroup : vaultGroup := {| ID := ""; Name := ""; Metadata := ∅ |}.
Definition zeroAlias : vaultGroupAlias := {| AID := ""; AName := ""; MountAccessor := ""; CanonicalID := "" |}.

Definition decodeMount : setter jsonMount := decode_open
  [("accessor", fun v m => x ← asString v (Accessor m); Some {| Accessor := x; Description := Description m |});
   ("description", fun v m => x ← asString v (Description m); Some {| Accessor := Accessor m; Description := x |})].

Definition decodeGroup : setter vaultGroup := decode_open
  [("id", fun v g => x ← asString v (ID g); Some {| ID := x; Name := Name g; Metadata := Metadata g |});
   ("name", fun v g => x ← asString v (Name g); Some {| ID := ID g; Name := x; Metadata := Metadata g |});
   ("metadata", fun v g => x ← asMap "" asString v (Metadata g);
      Some {| ID := ID g; Name := Name g; Metadata := x |})].

Definition decodeAlias : setter vaultGroupAlias := decode_open
  [("id", fun v a => x ← asString v (AID a);
      Some {| AID := x; AName := AName a; MountAccessor := MountAccessor a; CanonicalID := CanonicalID a |});
   ("name", fun v a => x ← asString v (AName a);
      Some {| AID := AID a; AName := x; MountAccessor := MountAccessor a; CanonicalID := CanonicalID a |});
   ("mount_accessor", fun v a => x ← asString v (MountAccessor a);
      Some {| AID := AID a; AName := AName a; MountAccessor := x; CanonicalID := CanonicalID a |});
   ("canonical_id", fun v a => x ← asString v (CanonicalID a);
      Some {| AID := AID a; AName := AName a; MountAccessor := MountAccessor a; CanonicalID := x |})].

(** A response whose only field is [data] *)
Definition underData {A} (f : setter A) : setter A := decode_open [("data", f)].
Definition oneString (field : string) : setter string := decode_open [(field, asString)].

Section Vault.
Context {LI : Libraries}.

Definition NewVault (baseURL ca token : string) : result error Client := newClient baseURL (vaultToken token) ca.

Section Operations.
Variable v : Client.

Definition read {A} (path : string) (f : setter A) (zero : A) (accepted : list Z) : M A :=
  JSON v "GET" path None (Some (underData f)) zero accepted.

Definition authMounts : M (gmap string jsonMount) :=
  wrapped "read auth mounts" (read "/v1/sys/auth" (asMap zeroMount decodeMount) ∅ []).

Definition ensureMount (authPath : string) : M jsonMount :=
  mounts ← authMounts;
  let mountKey := authPath +:+ "/" in
  mount ← match mounts !! mountKey with
          | Some mount =>
              require (String.eqb (Description mount) vaultMountDescription)
                (Conflict ("Vault auth mount " +:+ q authPath +:+ " exists without " +:+ vaultMountDescription));;
              mret mount
          | None =>
              wrapped "enable OIDC auth"
                (send v "POST" ("/v1/sys/auth/" +:+ PathEscape authPath)
                   (Some (JObj (obj [("type", JStr "oidc"); ("description", JStr vaultMountDescription)]))));;
              mounts ← authMounts;
              let mount := default zeroMount (mounts !! mountKey) in
              require (bool_decide (is_Some (mounts !! mountKey)) &&
                       String.eqb (Description mount) vaultMountDescription)
                (New "created OIDC auth mount was not observable with its ownership marker");;
              mret mount
          end;
  require (negb (String.eqb (Accessor mount) ""))
    (New ("OIDC auth mount " +:+ q authPath +:+ " has no accessor"));;
  mret mount.

Definition policyBody (purpose : string) : result error string :=
  if String.eqb purpose VaultPlatformAdministration then Ok (vaultPolicyMarker +:+ vaultPlatformAdminPolicy)
  else Err (New ("unsupported Vault policy purpose " +:+ q purpose)).

(** The policy and whether it exists *)
Definition readPolicy (name : string) : M (string * bool) :=
  body ← read ("/v1/sys/policies/acl/" +:+ PathEscape name) (oneString "policy") "" [200; 404]%Z;
  mret (body, negb (String.eqb body "")).

Definition vaultPolicyDescription : string := TrimSpace vaultPolicyMarker.

Definition reconcilePolicy (policy : VaultPolicy) : M unit :=
  body ← lift (policyBody (Purpose policy));
  current ← readPolicy (PName policy);
  require (negb (current.2 && negb (HasPrefix current.1 vaultPolicyMarker)))
    (Conflict ("Vault policy " +:+ q (PName policy) +:+ " exists without " +:+ vaultPolicyDescription));;
  wrapped ("policy " +:+ PName policy)
    (send v "PUT" ("/v1/sys/policies/acl/" +:+ PathEscape (PName policy))
       (Some (JObj (obj [("policy", JStr body)])))).

Definition ownedMetadata (g : vaultGroup) : bool :=
  String.eqb (default "" (Metadata g !! ownerMarkerKey)) ownerMarkerValue.

Definition groupBody (desired : VaultExternalGroup) : value :=
  JObj (obj [("name", JStr (GName desired)); ("type", JStr "external"); ("policies", strs [PolicyName desired]);
             ("metadata", JObj [(ownerMarkerKey, JStr ownerMarkerValue)])]).

Definition upsertExternalGroup (desired : VaultExternalGroup) : M string :=
  current ← read ("/v1/identity/group/name/" +:+ PathEscape (GName desired)) decodeGroup zeroGroup [200; 404]%Z;
  let exists_ := negb (String.eqb (ID current) "") in
  require (negb (exists_ && negb (ownedMetadata current)))
    (Conflict ("external group " +:+ q (GName desired) +:+ " exists without Atum ownership"));;
  let endpoint := if exists_ then "/v1/identity/group/id/" +:+ PathEscape (ID current) else "/v1/identity/group" in
  written ← wrapped "external group"
    (JSON v "POST" endpoint (Some (groupBody desired)) (Some (underData (oneString "id"))) "" []);
  if negb (String.eqb written "") then mret written
  else if exists_ then mret (ID current)
  else fail (New "Vault did not return the external group identity").

Definition groupIsOwned (id : string) : M bool :=
  if String.eqb id "" then mret false
  else
    g ← read ("/v1/identity/group/id/" +:+ PathEscape id) decodeGroup zeroGroup [200; 404]%Z;
    mret (negb (String.eqb (ID g) "") && ownedMetadata g).

Definition listIDs (endpoint : string) : M (list string) :=
  read (endpoint +:+ "?list=true") (decode_open [("keys", asList "" asString)]) [] [200; 404]%Z.

Definition readAlias (id : string) : M vaultGroupAlias :=
  read ("/v1/identity/group-alias/id/" +:+ PathEscape id) decodeAlias zeroAlias [].

Fixpoint aliasLoop (ids : list string) (name accessor : string) (found : vaultGroupAlias) (matches : nat) :
    M (vaultGroupAlias * nat) :=
  match ids with
  | [] => mret (found, matches)
  | id :: ids =>
      a ← readAlias id;
      if String.eqb (AName a) name && String.eqb (MountAccessor a) accessor
      then aliasLoop ids name accessor a (S matches)
      else aliasLoop ids name accessor found matches
  end.

Definition findGroupAlias (name accessor : string) : M (vaultGroupAlias * bool) :=
  ids ← listIDs "/v1/identity/group-alias/id";
  found ← aliasLoop ids name accessor zeroAlias 0;
  require (found.2 <=? 1)%nat (Conflict ("external group alias " +:+ q name +:+ " is duplicated"));;
  mret (found.1, (found.2 =? 1)%nat).

Definition upsertGroupAlias (mountAccessor groupID : string) (desired : VaultExternalGroup) : M unit :=
  found ← findGroupAlias (Claim desired) mountAccessor;
  let alias : vaultGroupAlias := fst found in
  let exists_ : bool := snd found in
  (if exists_ && negb (String.eqb (CanonicalID alias) groupID) then
     owned ← groupIsOwned (CanonicalID alias);
     require owned (Conflict ("external group alias " +:+ q (Claim desired) +:+
                              " points outside Atum-owned provider state"))
   else mret tt);;
  let endpoint := if exists_ then "/v1/identity/group-alias/id/" +:+ PathEscape (AID alias)
                  else "/v1/identity/group-alias" in
  send v "POST" endpoint
    (Some (JObj (obj [("name", JStr (Claim desired)); ("canonical_id", JStr groupID);
                      ("mount_accessor", JStr mountAccessor)]))).

(** ** Pruning *)

Definition nul : string := String "000" "".
Definition desiredAliasKey (name accessor groupID : string) : string :=
  name +:+ nul +:+ accessor +:+ nul +:+ groupID.

(** [checked] holds the groups asked for so far, with the answers. *)
Fixpoint pruneAliasLoop (ids : list string) (desired : gset string) (checked : gmap string bool) : M unit :=
  match ids with
  | [] => mret tt
  | id :: ids =>
      alias ← readAlias id;
      if bool_decide (desiredAliasKey (AName alias) (MountAccessor alias) (CanonicalID alias) ∈ desired)
      then pruneAliasLoop ids desired checked
      else
        owned ← match checked !! CanonicalID alias with
                | Some owned => mret owned
                | None => groupIsOwned (CanonicalID alias)
                end;
        let checked := <[CanonicalID alias := owned]> checked in
        (if (owned : bool) then send v "DELETE" ("/v1/identity/group-alias/id/" +:+ PathEscape (AID alias)) None
         else mret tt);;
        pruneAliasLoop ids desired checked
  end.
Definition pruneAliases (desired : gset string) : M unit :=
  ids ← listIDs "/v1/identity/group-alias/id";
  pruneAliasLoop ids desired ∅.

Definition pruneGroups (desired : gset string) : M unit :=
  ids ← listIDs "/v1/identity/group/id";
  for_each ids (fun id =>
    group ← read ("/v1/identity/group/id/" +:+ PathEscape id) decodeGroup zeroGroup [];
    if negb (ownedMetadata group) then mret tt
    else if bool_decide (Name group ∈ desired) then mret tt
    else send v "DELETE" ("/v1/identity/group/id/" +:+ PathEscape (ID group)) None).

Definition prunePolicies (desired : gset string) : M unit :=
  names ← listIDs "/v1/sys/policies/acl";
  for_each names (fun name =>
    body ← readPolicy name;
    if negb body.2 || negb (HasPrefix body.1 vaultPolicyMarker) then mret tt
    else if bool_decide (name ∈ desired) then mret tt
    else send v "DELETE" ("/v1/sys/policies/acl/" +:+ PathEscape name) None).

Definition roleName : string := VaultPlatformAdministrationRoleName.

Definition cleanupMount (authPath : string) : M unit :=
  mounts ← authMounts;
  match mounts !! (authPath +:+ "/") with
  | None => mret tt
  | Some mount =>
      require (String.eqb (Description mount) vaultMountDescription)
        (Conflict ("refusing to clean unowned Vault auth mount " +:+ q authPath));;
      roles ← listIDs ("/v1/auth/" +:+ PathEscape authPath +:+ "/role");
      let foreign := filter (fun role => role <> roleName) roles in
      let declaredRoleExists := bool_decide (roleName ∈ roles) in
      require (length foreign =? 0)%nat
        (Conflict ("Vault auth mount " +:+ q authPath +:+ " contains foreign roles [" +:+
                   Join (SortStrings foreign) ", " +:+ "]; remove them before cleanup"));;
      (if declaredRoleExists then
         wrapped ("retire declared Vault OIDC role " +:+ roleName)
           (send v "DELETE" ("/v1/auth/" +:+ PathEscape authPath +:+ "/role/" +:+ PathEscape roleName) None)
       else mret tt);;
      send v "DELETE" ("/v1/sys/auth/" +:+ PathEscape authPath) None
  end.

(** [for key, mount := range mounts]: the mounts with the marker, except the
    declared one, in the order of the iteration. *)
Definition cleanupMounts (keep : option string) : M unit :=
  mounts ← authMounts;
  bind (call (Range (map_to_list mounts).*1)) (fun keys =>
    for_each (`keys) (fun key =>
      match mounts !! key with
      | Some mount =>
          if negb (String.eqb (Description mount) vaultMountDescription) || bool_decide (keep = Some key) then mret tt
          else cleanupMount (TrimSuffix key "/")
      | None => mret tt
      end)).

Definition prune (intent : VaultIntent) (desiredMount : jsonMount) (groupID : string) : M unit :=
  pruneAliases {[desiredAliasKey (Claim (ExternalGroup intent)) (Accessor desiredMount) groupID]};;
  pruneGroups {[GName (ExternalGroup intent)]};;
  prunePolicies {[PName (VPolicy intent)]};;
  cleanupMounts (Some (AuthPath intent +:+ "/")).

Definition Cleanup : M unit :=
  pruneAliases ∅;;
  pruneGroups ∅;;
  prunePolicies ∅;;
  cleanupMounts None.

(** ** [Reconcile] *)

(** [strings.ToUpper(strings.ReplaceAll(clientID, "-", "_")) + "_CLIENT_SECRET"];
    a client identifier is ASCII. *)
Definition to_upper_byte (c : ascii) : ascii := if is_lower c then ascii_of_N (N_of_ascii c - 32) else c.
Definition CredentialKey (clientID : string) : string :=
  str_map to_upper_byte (ReplaceByte "-" "_" clientID) +:+ "_CLIENT_SECRET".

Definition configBody (issuer ca clientSecret : string) (role : VaultRole) : value :=
  JObj (obj [("oidc_discovery_url", JStr issuer); ("oidc_client_id", JStr (RClientID role));
             ("oidc_discovery_ca_pem", JStr ca); ("oidc_client_secret", JStr clientSecret);
             ("default_role", JStr (RName role))]).

Definition roleBody (intent : VaultIntent) : value :=
  let role := VRole intent in
  JObj (obj [("role_type", JStr "oidc"); ("user_claim", JStr "preferred_username");
             ("groups_claim", JStr (GroupsClaim role)); ("allowed_redirect_uris", strs (RRedirectURIs role));
             ("oidc_scopes", strs (RScopes role)); ("bound_audiences", strs [RClientID role]);
             ("policies", strs [PName (VPolicy intent)]); ("ttl", JStr "1h");
             ("bound_claims", JObj [("groups", strs [Claim (ExternalGroup intent)])])]).

Definition Reconcile (issuer ca : string) (intent : VaultIntent) (secrets : gmap string string) : M unit :=
  mount ← ensureMount (AuthPath intent);
  let role := VRole intent in
  let credentialKey := CredentialKey (RClientID role) in
  let clientSecret := default "" (secrets !! credentialKey) in
  require (negb (String.eqb clientSecret ""))
    (New ("fixed Vault client credential key " +:+ q credentialKey +:+ " is empty"));;
  wrapped "configure OIDC auth"
    (send v "POST" ("/v1/auth/" +:+ PathEscape (AuthPath intent) +:+ "/config")
       (Some (configBody issuer ca clientSecret role)));;
  reconcilePolicy (VPolicy intent);;
  wrapped ("OIDC role " +:+ RName role)
    (send v "POST" ("/v1/auth/" +:+ PathEscape (AuthPath intent) +:+ "/role/" +:+ PathEscape (RName role))
       (Some (roleBody intent)));;
  groupID ← upsertExternalGroup (ExternalGroup intent);
  upsertGroupAlias (Accessor mount) groupID (ExternalGroup intent);;
  prune intent mount groupID.
End Operations.
End Vault.
End Vault.
