(* ===== verification/Keycloak.v ===== *)
(** The Keycloak provider of the identity operator,
    [operator/internal/provider/keycloak.go]: every operation, as a program
    over HTTP exchanges. *)
From stdpp Require Import prelude gmap strings list.
From Stdlib Require Import Ascii ZArith Lia.
From S2P Require Import Prelude GoStrings Json NetUrl IdentityApi Provider Vault.

Module Keycloak.
Import Json NetUrl IdentityApi Provider.

Abbreviation ownerMarkerKey := Vault.ownerMarkerKey.
Abbreviation ownerMarkerValue := Vault.ownerMarkerValue.
Definition keycloakPageSize : Z := 100.
Definition maxInt : Z := 2 ^ 63 - 1.

(** [map[string]any] *)
Abbreviation anymap := (list (string * value)).

(** ** Collections *)

Inductive keycloakCollection :=
  | realmClients
  | realmGroups
  | realmUsers
  | realmClientScopes
  | clientProtocolMappers (parentID : string)
  | clientScopeProtocolMappers (parentID : string).

(** The path of a collection and whether it is paginated *)
Definition path (c : keycloakCollection) : result error (string * bool) :=
  match c with
  | realmClients => Ok ("/clients", true)
  | realmGroups => Ok ("/groups", true)
  | realmUsers => Ok ("/users", true)
  | realmClientScopes => Ok ("/client-scopes", false)
  | clientProtocolMappers parentID =>
      if String.eqb parentID "" then Err (New "client mapper collection has no parent")
      else Ok ("/clients/" +:+ PathEscape parentID +:+ "/protocol-mappers/models", false)
  | clientScopeProtocolMappers parentID =>
      if String.eqb parentID "" then Err (New "client-scope mapper collection has no parent")
      else Ok ("/client-scopes/" +:+ PathEscape parentID +:+ "/protocol-mappers/models", false)
  end.

Definition withBrief (c : keycloakCollection) : bool :=
  match c with realmUsers | realmGroups => true | _ => false end.

(** ** What the server returns *)

Record keycloakObject :=
  { ID : string; Name : string; OUsername : string; ClientID : string; Attributes : anymap; Config : anymap }.
Definition zeroObject : keycloakObject :=
  {| ID := ""; Name := ""; OUsername := ""; ClientID := ""; Attributes := []; Config := [] |}.

Definition decodeObject : setter keycloakObject := decode_open
  [("id", fun v o => x ← asString v (ID o);
      Some {| ID := x; Name := Name o; OUsername := OUsername o; ClientID := ClientID o;
              Attributes := Attributes o; Config := Config o |});
   ("name", fun v o => x ← asString v (Name o);
      Some {| ID := ID o; Name := x; OUsername := OUsername o; ClientID := ClientID o;
              Attributes := Attributes o; Config := Config o |});
   ("username", fun v o => x ← asString v (OUsername o);
      Some {| ID := ID o; Name := Name o; OUsername := x; ClientID := ClientID o;
              Attributes := Attributes o; Config := Config o |});
   ("clientId", fun v o => x ← asString v (ClientID o);
      Some {| ID := ID o; Name := Name o; OUsername := OUsername o; ClientID := x;
              Attributes := Attributes o; Config := Config o |});
   ("attributes", fun v o => x ← asAnyMap v (Attributes o);
      Some {| ID := ID o; Name := Name o; OUsername := OUsername o; ClientID := ClientID o;
              Attributes := x; Config := Config o |});
   ("config", fun v o => x ← asAnyMap v (Config o);
      Some {| ID := ID o; Name := Name o; OUsername := OUsername o; ClientID := ClientID o;
              Attributes := Attributes o; Config := x |})].

Definition decodeObjects : setter (list keycloakObject) := asList zeroObject decodeObject.

(** A nil map and an empty one are different to the encoder. *)
Definition asRole : setter (option anymap) := fun v old =>
  match v with JNull => Some None | _ => Some <$> asAnyMap v (default [] old) end.

(** ** Ownership *)

Definition isMarkerValue (v : value) : bool :=
  match v with JStr s => String.eqb s ownerMarkerValue | _ => false end.

Definition marked (values : anymap) : bool :=
  match obj_get ownerMarkerKey values with
  | Some (JStr s) => String.eqb s ownerMarkerValue
  | Some (JArr [v]) => isMarkerValue v
  | _ => false
  end.

Definition objectMarked (o : keycloakObject) : bool := marked (Attributes o) || marked (Config o).

Definition fieldOf (field : string) (o : keycloakObject) : string :=
  if String.eqb field "username" then OUsername o
  else if String.eqb field "clientId" then ClientID o
  else Name o.

Section Keycloak.
Context {LI : Libraries}.

Definition exact (items : list keycloakObject) (field wanted : string) : result error (keycloakObject * bool) :=
  match filter (fun o => fieldOf field o = wanted) items with
  | [] => Ok (zeroObject, false)
  | [o] => Ok (o, true)
  | _ => Err (Conflict (field +:+ " " +:+ q wanted +:+ " is duplicated"))
  end.

(** ** The profile attribute that marks users *)

Definition ownershipProfileAttribute : anymap :=
  obj [("name", JStr ownerMarkerKey); ("displayName", JStr "Atum provider ownership");
       ("permissions", JObj [("edit", strs ["admin"]); ("view", strs ["admin"])]);
       ("multivalued", JBool false);
       ("annotations", JObj [(ownerMarkerKey, JStr ownerMarkerValue)])].

Fixpoint profileAttributesFrom (index : nat) (values : list value) : result error (list anymap) :=
  match values with
  | [] => Ok []
  | v :: values =>
      match v with
      | JObj attribute =>
          match obj_get "name" attribute with
          | Some (JStr _) => rest ← profileAttributesFrom (S index) values; Ok (attribute :: rest)
          | _ => Err (New ("Keycloak user profile attribute " +:+ Itoa (Z.of_nat index) +:+ " has no valid name"))
          end
      | _ => Err (New ("Keycloak user profile attribute " +:+ Itoa (Z.of_nat index) +:+ " is invalid"))
      end
  end.

Definition profileAttributes (profile : anymap) : result error (list anymap) :=
  match obj_get "attributes" profile with
  | None => Err (New "Keycloak user profile has no attributes collection")
  | Some (JArr values) => profileAttributesFrom 0 values
  | Some _ => Err (New "Keycloak user profile attributes collection is invalid")
  end.

Definition namedMarker (attribute : anymap) : bool :=
  match obj_get "name" attribute with Some (JStr s) => String.eqb s ownerMarkerKey | _ => false end.
Definition annotated (attribute : anymap) : bool :=
  match obj_get "annotations" attribute with Some (JObj annotations) => marked annotations | _ => false end.

(** The index of the ownership attribute *)
Definition profileOwnershipAttribute (attributes : list anymap) : result error (option nat) :=
  match filter (fun ia => namedMarker ia.2 = true) (imap pair attributes) with
  | [] => Ok None
  | [(index, attribute)] =>
      if annotated attribute then Ok (Some index)
      else Err (Conflict ("user profile attribute " +:+ q ownerMarkerKey +:+ " exists without " +:+
                          ownerMarkerKey +:+ "=" +:+ ownerMarkerValue))
  | _ => Err (Conflict ("user profile attribute " +:+ q ownerMarkerKey +:+ " is duplicated"))
  end.

Definition adminOnly (v : option value) : bool :=
  match v with Some (JArr [JStr s]) => String.eqb s "admin" | _ => false end.

Definition profileOwnershipAttributeCurrent (attribute : anymap) : bool :=
  match obj_get "permissions" attribute with
  | Some (JObj permissions) =>
      match obj_get "displayName" attribute with
      | Some (JStr s) => String.eqb s "Atum provider ownership" | _ => false end &&
      match obj_get "multivalued" attribute with Some (JBool b) => negb b | _ => false end &&
      adminOnly (obj_get "view" permissions) && adminOnly (obj_get "edit" permissions)
  | _ => false
  end.

Definition currentAt (attributes : list anymap) (index : option nat) : bool :=
  match index with
  | Some i => profileOwnershipAttributeCurrent (default [] (attributes !! i))
  | None => false
  end.

Definition withAttributes (profile : anymap) (attributes : list anymap) : value :=
  JObj (obj_insert "attributes" (JArr (map JObj attributes)) profile).

(** ** Reading *)

Fixpoint identitiesFrom (collectionPath : string) (index : nat) (items : list keycloakObject) (seen : gset string) :
    result error (gset string) :=
  match items with
  | [] => Ok seen
  | o :: items =>
      if String.eqb (ID o) ""
      then Err (New ("Keycloak " +:+ collectionPath +:+ " collection returned an empty identity at index " +:+ Itoa (Z.of_nat index)))
      else if bool_decide (ID o ∈ seen)
      then Err (New ("Keycloak " +:+ collectionPath +:+ " collection returned duplicate identity " +:+ q (ID o)))
      else identitiesFrom collectionPath (S index) items ({[ID o]} ∪ seen)
  end.
Definition validateKeycloakIdentities (collectionPath : string) (items : list keycloakObject) (seen : gset string) :
    result error (gset string) := identitiesFrom collectionPath 0 items seen.

Fixpoint keycloakPageSignature (items : list keycloakObject) : string :=
  match items with [] => "" | o :: items => ID o +:+ String "000" (keycloakPageSignature items) end.

Record Keycloak := { client : Client; realm : string }.

Definition token_ : setter string := decode_open [("access_token", asString)].

Definition NewKeycloak (baseURL ca realm username password : string) : M Keycloak :=
  anonymousClient ← lift (newClient baseURL anonymous ca);
  token ← wrapped "authenticate Keycloak administrator"
    (Form anonymousClient ("/realms/" +:+ PathEscape realm +:+ "/protocol/openid-connect/token")
       (list_to_map [("grant_type", ["password"]); ("client_id", ["admin-cli"]);
                     ("username", [username]); ("password", [password])]) token_ "");
  require (negb (String.eqb token "")) (New "Keycloak returned an empty administrator token");;
  c ← lift (newClient baseURL (keycloakBearer token) ca);
  mret {| client := c; realm := realm |}.

Section Operations.
Variable k : Keycloak.

Definition admin (pathValue : string) : string := "/admin/realms/" +:+ PathEscape (realm k) +:+ pathValue.

(** The state of the loop over the pages *)
Record pages := { items : list keycloakObject; seenIDs : gset string; seenPages : gset string; offset : Z }.

Definition pageQuery (collectionPath : string) (filter : Values) (offset : Z) : string :=
  admin collectionPath +:+ "?" +:+
  Encode (Set_ (Set_ filter "first" (Itoa offset)) "max" (Itoa keycloakPageSize)).

Definition nextPage (collectionPath : string) (filter : Values) (s : pages) : M (pages + list keycloakObject) :=
  bind (call CtxErr) (fun ctx =>
  match ctx with
  | Some text => fail (Wrapped ("enumerate Keycloak " +:+ collectionPath +:+ " collection") (New text))
  | None =>
      page ← JSON (client k) "GET" (pageQuery collectionPath filter (offset s)) None (Some decodeObjects) [] [];
      let len := Z.of_nat (length page) in
      if (len =? 0)%Z then mret (inr (items s))
      else if (keycloakPageSize <? len)%Z then
        fail (New ("Keycloak " +:+ collectionPath +:+ " collection returned " +:+ Itoa len +:+
                   " records for maximum page size " +:+ Itoa keycloakPageSize))
      else
        let signature := keycloakPageSignature page in
        if (len =? keycloakPageSize)%Z && bool_decide (signature ∈ seenPages s) then
          fail (New ("Keycloak " +:+ collectionPath +:+ " collection repeated full page at offset " +:+ Itoa (offset s)))
        else
          let seenPages' := if (len =? keycloakPageSize)%Z then {[signature]} ∪ seenPages s else seenPages s in
          seenIDs' ← lift (validateKeycloakIdentities collectionPath page (seenIDs s));
          let items' := items s ++ page in
          if (len <? keycloakPageSize)%Z then mret (inr items')
          else if (maxInt - offset s <? len)%Z then
            fail (New ("Keycloak " +:+ collectionPath +:+ " collection offset overflow at " +:+ Itoa (offset s)))
          else
            let next := (offset s + len)%Z in
            if (next <=? offset s)%Z then
              fail (New ("Keycloak " +:+ collectionPath +:+ " collection made no progress at offset " +:+ Itoa (offset s)))
            else mret (inl {| items := items'; seenIDs := seenIDs'; seenPages := seenPages'; offset := next |})
  end).

(** The offset overflows before [2 ^ 57] pages. *)
Definition paginatedList (collectionPath : string) (filter : Values) : M (list keycloakObject) :=
  x ← rounds 57 (nextPage collectionPath filter) {| items := []; seenIDs := ∅; seenPages := ∅; offset := 0 |};
  match x with inr l => mret l | inl _ => Panic end.

Definition listObjects (c : keycloakCollection) (query : string) : M (list keycloakObject) :=
  cp ← lift (path c);
  let collectionPath : string := cp.1 in
  match ParseQuery query with
  | None => fail (Wrapped ("parse Keycloak " +:+ collectionPath +:+ " collection filter") (New "invalid query"))
  | Some filter =>
      if Has filter "first" || Has filter "max"
      then fail (New ("Keycloak " +:+ collectionPath +:+ " collection filter cannot set first or max"))
      else
        let filter := if withBrief c then Set_ filter "briefRepresentation" "false" else filter in
        if (cp.2 : bool) then paginatedList collectionPath filter
        else
          let encoded := Encode filter in
          let p := if String.eqb encoded "" then admin collectionPath else admin collectionPath +:+ "?" +:+ encoded in
          found ← JSON (client k) "GET" p None (Some decodeObjects) [] [];
          lift (validateKeycloakIdentities collectionPath found ∅);;
          mret found
  end.

Definition userProfile : M (anymap * list anymap) :=
  profile ← JSON (client k) "GET" (admin "/users/profile") None (Some asAnyMap) [] [];
  attributes ← lift (profileAttributes profile);
  mret (profile, attributes).

(** ** Writing *)

Definition reconcileOwnershipProfileAttribute : M unit :=
  pa ← userProfile;
  let attributes : list anymap := pa.2 in
  index ← lift (profileOwnershipAttribute attributes);
  if currentAt attributes index then mret tt
  else
    let attributes := match index with
                      | Some i => <[i := ownershipProfileAttribute]> attributes
                      | None => attributes ++ [ownershipProfileAttribute]
                      end in
    send (client k) "PUT" (admin "/users/profile") (Some (withAttributes pa.1 attributes));;
    now ← userProfile;
    index ← lift (profileOwnershipAttribute now.2);
    require (currentAt now.2 index) (New "Keycloak user ownership profile attribute was not observable").

Definition cleanupOwnershipProfileAttribute : M unit :=
  pa ← userProfile;
  let attributes : list anymap := pa.2 in
  index ← lift (profileOwnershipAttribute attributes);
  match (index : option nat) with
  | None => mret tt
  | Some i => send (client k) "PUT" (admin "/users/profile") (Some (withAttributes pa.1 (delete i attributes)))
  end.

Definition upsert (c : keycloakCollection) (query field name : string) (body : anymap) : M string :=
  cp ← lift (path c);
  let collectionPath : string := cp.1 in
  found ← listObjects c query;
  current ← lift (exact found field name);
  require (negb (current.2 && negb (objectMarked current.1)))
    (Conflict (collectionPath +:+ " " +:+ q name +:+ " exists without " +:+ ownerMarkerKey +:+ "=" +:+ ownerMarkerValue));;
  target ← (if (current.2 : bool) then mret current.1
            else
              send (client k) "POST" (admin collectionPath) (Some (JObj body));;
              found ← listObjects c query;
              created ← lift (exact found field name);
              require (created.2 && objectMarked created.1)
                (New ("created " +:+ collectionPath +:+ " " +:+ q name +:+
                      " was not observable with its ownership marker"));;
              mret created.1);
  send (client k) "PUT" (admin (collectionPath +:+ "/" +:+ PathEscape (ID target))) (Some (JObj body));;
  mret (ID target).

Definition marker : anymap := [(ownerMarkerKey, JStr ownerMarkerValue)].
Definition listMarker : anymap := [(ownerMarkerKey, strs [ownerMarkerValue])].

(** The part [upsertGroupsMapper] and [upsertAudienceMapper] share *)
Definition upsertMapper (c : keycloakCollection) (name : string) (conflict : error) (body : anymap) : M unit :=
  cp ← lift (path c);
  mappers ← listObjects c "";
  current ← lift (exact mappers "name" name);
  if negb current.2 then send (client k) "POST" (admin cp.1) (Some (JObj body))
  else if negb (objectMarked current.1) then fail conflict
  else send (client k) "PUT" (admin (cp.1 +:+ "/" +:+ PathEscape (ID current.1)))
         (Some (JObj (obj_insert "id" (JStr (ID current.1)) body))).

Definition groupsMapperBody (scope : GroupsScope) : anymap :=
  obj [("name", JStr (ClaimName scope)); ("protocol", JStr "openid-connect");
       ("protocolMapper", JStr "oidc-group-membership-mapper");
       ("config", JObj (obj [("claim.name", JStr (ClaimName scope)); ("full.path", JStr "false");
                             ("id.token.claim", JStr "true"); ("access.token.claim", JStr "true");
                             ("userinfo.token.claim", JStr "true"); (ownerMarkerKey, JStr ownerMarkerValue)]))].
Definition upsertGroupsMapper (scopeID : string) (scope : GroupsScope) : M unit :=
  upsertMapper (clientScopeProtocolMappers scopeID) (ClaimName scope)
    (Conflict ("groups mapper " +:+ q (ClaimName scope) +:+ " exists without Atum ownership")) (groupsMapperBody scope).

Definition audienceMapperBody (name audience : string) : anymap :=
  obj [("name", JStr name); ("protocol", JStr "openid-connect"); ("protocolMapper", JStr "oidc-audience-mapper");
       ("config", JObj (obj [("included.client.audience", JStr audience); ("access.token.claim", JStr "true");
                             ("id.token.claim", JStr "true"); (ownerMarkerKey, JStr ownerMarkerValue)]))].
Definition upsertAudienceMapper (clientUUID audience : string) : M unit :=
  let name := "audience-" +:+ audience in
  upsertMapper (clientProtocolMappers clientUUID) name
    (Conflict ("audience mapper " +:+ q name +:+ " exists without Atum ownership")) (audienceMapperBody name audience).

Definition deleteAudienceMapper (clientUUID audience : string) : M unit :=
  cp ← lift (path (clientProtocolMappers clientUUID));
  mappers ← listObjects (clientProtocolMappers clientUUID) "";
  let name := "audience-" +:+ audience in
  current ← lift (exact mappers "name" name);
  if negb current.2 then mret tt
  else if negb (objectMarked current.1)
  then fail (Conflict ("audience mapper " +:+ q name +:+ " exists without Atum ownership"))
  else send (client k) "DELETE" (admin (cp.1 +:+ "/" +:+ PathEscape (ID current.1))) None.

Definition reconcileRealmRole (userID realmRole : string) : M unit :=
  role ← wrapped ("realm role " +:+ realmRole)
    (JSON (client k) "GET" (admin ("/roles/" +:+ PathEscape realmRole)) None (Some asRole) None []);
  wrapped "administrator realm role"
    (send (client k) "POST" (admin ("/users/" +:+ PathEscape userID +:+ "/role-mappings/realm"))
       (Some (JArr [match (role : option anymap) with Some role => JObj role | None => JNull end]))).

Definition reconcileAdministratorAuthority (userID realmRole password : string) : M unit :=
  reconcileRealmRole userID realmRole;;
  wrapped "administrator password"
    (send (client k) "PUT" (admin ("/users/" +:+ PathEscape userID +:+ "/reset-password"))
       (Some (JObj (obj [("type", JStr "password"); ("value", JStr password); ("temporary", JBool false)])))).

Fixpoint scopesByName (scopes : list keycloakObject) (byName : gmap string string) : result error (gmap string string) :=
  match scopes with
  | [] => Ok byName
  | scope :: scopes =>
      match byName !! Name scope with
      | Some _ => Err (Conflict ("client scope " +:+ q (Name scope) +:+ " is duplicated"))
      | None => scopesByName scopes (<[Name scope := ID scope]> byName)
      end
  end.

Fixpoint requiredScopes (names : list string) (groupsName : string) (byName : gmap string string) :
    result error (list string) :=
  match names with
  | [] => Ok []
  | name :: names =>
      if String.eqb name "openid" then requiredScopes names groupsName byName
      else
        let lookup := if String.eqb name "groups" then groupsName else name in
        let id := default "" (byName !! lookup) in
        if String.eqb id "" then Err (New ("required client scope " +:+ q lookup +:+ " is absent"))
        else rest ← requiredScopes names groupsName byName; Ok (id :: rest)
  end.

(** [make([]string, 0, len(names)-1)] panics without names. *)
Definition defaultScopeIDs (names : list string) (groupsID groupsName : string) : M (list string) :=
  scopes ← listObjects realmClientScopes "";
  byName ← lift (scopesByName scopes ∅);
  if (length names =? 0)%nat then Panic
  else lift (requiredScopes names groupsName (<[groupsName := groupsID]> byName)).

Definition keycloakClientBody (desired : KeycloakClient) (secrets : gmap string string) : result error anymap :=
  let confidential := String.eqb (Kind desired) ClientConfidential in
  let attributes := if confidential then marker
                    else obj [(ownerMarkerKey, JStr ownerMarkerValue); ("pkce.code.challenge.method", JStr "S256")] in
  let body := obj [("clientId", JStr (KID desired)); ("enabled", JBool true); ("protocol", JStr "openid-connect");
                   ("publicClient", JBool (negb confidential)); ("standardFlowEnabled", JBool true);
                   ("directAccessGrantsEnabled", JBool false); ("redirectUris", strs (RedirectURIs desired));
                   ("webOrigins", match WebOrigins desired with Some l => strs l | None => JNull end); ("attributes", JObj attributes)] in
  if confidential then
    let key := Vault.CredentialKey (KID desired) in
    let secret := default "" (secrets !! key) in
    if String.eqb secret "" then Err (New ("fixed credential key " +:+ q key +:+ " is empty"))
    else Ok (obj_insert "secret" (JStr secret) body)
  else Ok body.

Definition reconcileClient (scopeIDs : list string) (desired : KeycloakClient) (secrets : gmap string string) : M unit :=
  body ← lift (keycloakClientBody desired secrets);
  clientID ← upsert realmClients ("clientId=" +:+ QueryEscape (KID desired)) "clientId" (KID desired) body;
  for_each scopeIDs (fun scopeID =>
    wrapped "default scope"
      (send (client k) "PUT"
         (admin ("/clients/" +:+ PathEscape clientID +:+ "/default-client-scopes/" +:+ PathEscape scopeID)) None));;
  if Audience desired then upsertAudienceMapper clientID (KID desired)
  else deleteAudienceMapper clientID (KID desired).

(** The deletions go on after an error; their errors are joined. *)
Fixpoint pruneItems (collectionPath field : string) (desired : gset string) (found : list keycloakObject) :
    prog (list error) :=
  match found with
  | [] => Done []
  | item :: found =>
      if negb (objectMarked item) then pruneItems collectionPath field desired found
      else if bool_decide (fieldOf field item ∈ desired) then pruneItems collectionPath field desired found
      else bind (send (client k) "DELETE" (admin (collectionPath +:+ "/" +:+ PathEscape (ID item))) None) (fun r =>
           bind (pruneItems collectionPath field desired found) (fun errs =>
           Done (match r with Ok _ => errs | Err e => e :: errs end)))
  end.

Definition joined (errs : list error) : result error unit :=
  match errs with [] => Ok tt | _ => Err (Joined errs) end.

Definition pruneCollection (c : keycloakCollection) (field : string) (desired : gset string) : M unit :=
  cp ← lift (path c);
  found ← listObjects c "";
  bind (pruneItems cp.1 field desired found) (fun errs => Done (joined errs)).

Definition prune (intent : KeycloakIntent) : M unit :=
  wrapped "prune clients" (pruneCollection realmClients "clientId" (list_to_set (KID <$> Clients intent)));;
  wrapped "prune users" (pruneCollection realmUsers "username" {[Username (KAdministrator intent)]});;
  wrapped "prune groups" (pruneCollection realmGroups "name" {[Group (KAdministrator intent)]});;
  wrapped "prune client scopes" (pruneCollection realmClientScopes "name" {[ClaimName (KGroupsScope intent)]}).

Fixpoint cleanupCollections (cs : list keycloakCollection) : prog (list error) :=
  match cs with
  | [] => Done []
  | c :: cs =>
      bind (pruneCollection c "" ∅) (fun r =>
      bind (cleanupCollections cs) (fun errs => Done (match r with Ok _ => errs | Err e => e :: errs end)))
  end.

Definition Cleanup : M unit :=
  bind (cleanupCollections [realmClients; realmGroups; realmClientScopes; realmUsers]) (fun errs =>
    if (length errs =? 0)%nat then
      bind cleanupOwnershipProfileAttribute (fun r => Done (match r with Ok _ => Ok tt | Err e => Err (Joined [e]) end))
    else Done (joined errs)).

Definition userBody (admin : Administrator) (domain : string) : anymap :=
  obj [("username", JStr (Username admin)); ("enabled", JBool true);
       ("email", JStr (Username admin +:+ "@" +:+ domain)); ("emailVerified", JBool true);
       ("firstName", JStr (Username admin)); ("lastName", JStr "Administrator"); ("attributes", JObj listMarker)].
Definition groupBody (admin : Administrator) : anymap :=
  obj [("name", JStr (Group admin)); ("attributes", JObj listMarker)].
Definition scopeBody (scope : GroupsScope) : anymap :=
  obj [("name", JStr (ClaimName scope)); ("protocol", JStr "openid-connect");
       ("attributes", JObj (obj [("include.in.token.scope", JStr "true"); ("display.on.consent.screen", JStr "false");
                                 (ownerMarkerKey, JStr ownerMarkerValue)]))].

Definition Reconcile (domain : string) (intent : KeycloakIntent) (secrets : gmap string string) : M unit :=
  wrapped "user ownership profile" reconcileOwnershipProfileAttribute;;
  let adm := KAdministrator intent in
  userID ← wrapped "administrator"
    (upsert realmUsers ("exact=true&username=" +:+ QueryEscape (Username adm)) "username" (Username adm)
       (userBody adm domain));
  reconcileAdministratorAuthority userID (RealmRole adm) (default "" (secrets !! "ATUM_IDENTITY_ADMIN_PASSWORD"));;
  groupID ← wrapped "administrator group"
    (upsert realmGroups ("exact=true&search=" +:+ QueryEscape (Group adm)) "name" (Group adm) (groupBody adm));
  wrapped "administrator group membership"
    (send (client k) "PUT" (admin ("/users/" +:+ PathEscape userID +:+ "/groups/" +:+ PathEscape groupID)) None);;
  scopeID ← wrapped "groups scope"
    (upsert realmClientScopes "" "name" (ClaimName (KGroupsScope intent)) (scopeBody (KGroupsScope intent)));
  upsertGroupsMapper scopeID (KGroupsScope intent);;
  scopeIDs ← defaultScopeIDs (Scopes intent) scopeID (ClaimName (KGroupsScope intent));
  for_each (Clients intent) (fun desired =>
    wrapped ("client " +:+ KID desired) (reconcileClient scopeIDs desired secrets));;
  prune intent.
End Operations.
End Keycloak.
End Keycloak.
