(* ===== verification/Operator.v ===== *)
(** The controller of the identity operator,
    [operator/internal/controller/platformidentityconfiguration_controller.go]:
    the reconciliation of the singleton, its status and its finalizer.  The
    helpers of controller-runtime and apimachinery are an interface with
    their documented behaviour. *)
From stdpp Require Import prelude gmap strings list.
From Stdlib Require Import Ascii ZArith Lia.
From S2P Require Import Prelude GoStrings Utf8 IdentityApi Provider Vault Keycloak.

Module Operator.
Import Utf8 IdentityApi Provider.

Definition finalizerName : string := "platform.atum.dev/provider-cleanup".
Definition credentialSecretName : string := "atum-provider-credentials".
Definition caSecretName : string := "atum-provider-ca".
Definition vaultTokenNamespace : string := "vault".
Definition vaultTokenSecretName : string := "vault-token".
Definition vaultTokenKey : string := "key".
Definition providerCAKey : string := "ca.crt".
(** [time.Duration] counts nanoseconds. *)
Definition second : Z := 1000000000.
Definition successInterval : Z := 600 * second.
Definition initialFailureInterval : Z := 5 * second.
Definition maxFailureInterval : Z := 300 * second.
Definition maxConditionMessage : nat := 512.

(** [meta.SetStatusCondition] replaces the condition of a type or adds it;
    [controllerutil] keeps the finalizers as a set. *)
Class ControllerRuntime := {
  SetStatusCondition : Condition -> list Condition -> list Condition;
  ContainsFinalizer : list string -> string -> bool;
  AddFinalizer : list string -> string -> list string;
  RemoveFinalizer : list string -> string -> list string;
  SetStatusCondition_spec c cs : NoDup (CType <$> cs) ->
    NoDup (CType <$> SetStatusCondition c cs) /\
    forall c', c' ∈ SetStatusCondition c cs <-> c' = c \/ (c' ∈ cs /\ CType c' <> CType c);
  ContainsFinalizer_spec l f : ContainsFinalizer l f = true <-> f ∈ l;
  AddFinalizer_spec l f g : g ∈ AddFinalizer l f <-> g = f \/ g ∈ l;
  RemoveFinalizer_spec l f g : g ∈ RemoveFinalizer l f <-> g ∈ l /\ g <> f
}.

(** [ctrl.Result] *)
Record Result := { Requeue : bool; RequeueAfter : Z }.
Definition noResult : Result := {| Requeue := false; RequeueAfter := 0 |}.

Record providerState := { ready : bool; reason : string; message : string; terminal : bool }.

Definition stateFor (success : string) (err : option error) : providerState :=
  match err with
  | None => {| ready := true; reason := success; message := "Declared provider state is current"; terminal := false |}
  | Some e =>
      {| ready := false; reason := if IsTerminal e then "ProviderConflict" else "ProviderError";
         message := Error e; terminal := IsTerminal e |}
  end.

Definition failureState (reason : string) (e : error) : providerState :=
  {| ready := false; reason := reason; message := Error e; terminal := false |}.

Definition notReady : providerState :=
  {| ready := false; reason := "DependencyNotReady";
     message := "Keycloak provider reconciliation must complete first"; terminal := false |}.

Definition boundedMessage (message : string) : string :=
  let message := Map blankControl message in
  if (String.length message <=? maxConditionMessage)%nat then message else str_take maxConditionMessage message.

Definition credentialSourceGone (err : option error) : bool :=
  match err with Some e => IsNotFound e || Contains (Error e) " is empty" | None => false end.

(** Two's complement of 64 bits *)
Definition wrap64 (z : Z) : Z := ((z + 2 ^ 63) mod 2 ^ 64 - 2 ^ 63)%Z.

Section Controller.
Context {LI : Libraries} {CR : ControllerRuntime}.

(** ** Admission at run time *)

(** [None] is the panic of [parsed.Hostname()] on the nil pointer that
    [url.Parse] returns beside an error. *)
Fixpoint validatePlatformURIs (domain owner : string) (values : list string) : option (result error unit) :=
  match values with
  | [] => Some (Ok tt)
  | value :: values =>
      match Parse value with
      | None => None
      | Some parsed =>
          let host := Hostname parsed in
          if negb (String.eqb (Scheme parsed) "https") || bool_decide (is_Some (User parsed)) ||
             negb (String.eqb (Port parsed) "") || negb (String.eqb (RawQuery parsed) "") ||
             negb (String.eqb (Fragment parsed) "") ||
             (String.length host <=? String.length domain + 1)%nat || negb (HasSuffix host ("." +:+ domain))
          then Some (Err (New (owner +:+ " URI " +:+ q value +:+ " is outside the platform domain")))
          else validatePlatformURIs domain owner values
      end
  end.

(** [if err := first; err != nil { return err }] over possible panics *)
Definition andThen (a b : option (result error unit)) : option (result error unit) :=
  match a with Some (Ok _) => b | r => r end.

Fixpoint validateClients (domain : string) (clients : list KeycloakClient) : option (result error unit) :=
  match clients with
  | [] => Some (Ok tt)
  | item :: clients =>
      andThen (validatePlatformURIs domain ("client " +:+ KID item) (RedirectURIs item))
        (andThen (validatePlatformURIs domain ("client " +:+ KID item) (default [] (WebOrigins item)))
           (validateClients domain clients))
  end.

Definition validateRuntime (spec : PlatformIdentityConfigurationSpec) : option (result error unit) :=
  andThen (validateClients (Domain spec) (Clients (SKeycloak spec)))
    (validatePlatformURIs (Domain spec) ("Vault role " +:+ RName (VRole (SVault spec)))
       (RRedirectURIs (VRole (SVault spec)))).

(** ** Status *)

Definition setCondition (generation : Z) (conditionType : string) (state : providerState) (cs : list Condition) :
    list Condition :=
  SetStatusCondition {| CType := conditionType; CStatus := ready state; CReason := reason state;
                        CMessage := boundedMessage (message state); CGeneration := generation |} cs.

Definition readyState (keycloak vault : providerState) : providerState :=
  let ok := ready keycloak && ready vault in
  {| ready := ok;
     reason := if ok then "ProvidersReady" else "ProvidersNotReady";
     message := if ok then "Keycloak and Vault provider state is current"
                else "One or more provider states are not current";
     terminal := terminal keycloak || terminal vault |}.

(** The status [recordAttempt] writes *)
Definition nextStatus (generation : Z) (s : PlatformIdentityConfigurationStatus) (keycloak vault : providerState) :
    PlatformIdentityConfigurationStatus :=
  let count := if (ObservedGeneration s =? generation)%Z then FailureCount s else 0%Z in
  let rs := readyState keycloak vault in
  {| ObservedGeneration := generation;
     FailureCount := if ready rs then 0%Z else if (count <? 6)%Z then (count + 1)%Z else count;
     Conditions := setCondition generation ConditionReady rs
                     (setCondition generation ConditionVault vault
                        (setCondition generation ConditionKeycloak keycloak (Conditions s))) |}.

Definition apiError (e : bool * string) : error := Api e.1 e.2.

(** [initialFailureInterval << count], at most [maxFailureInterval]; a negative
    count panics. *)
Definition failureDelay (count : Z) : option Z :=
  if (count <? 0)%Z then None
  else
    let delay := if (64 <=? count)%Z then 0%Z else wrap64 (initialFailureInterval * 2 ^ count) in
    Some (if (maxFailureInterval <? delay)%Z then maxFailureInterval else delay).

(** After the patch the object is what the API server returned. *)
Definition recordAttempt (object : PlatformIdentityConfiguration) (keycloak vault : providerState)
    (retryTerminal : bool) : M Result :=
  let rs := readyState keycloak vault in
  bind (call (PatchStatus (nextStatus (Generation object) (Status object) keycloak vault))) (fun patched =>
  match patched with
  | Err e => fail (Wrapped "record PlatformIdentityConfiguration status" (apiError e))
  | Ok status =>
      if ready rs then succeed {| Requeue := false; RequeueAfter := successInterval |}
      else if terminal rs && negb retryTerminal then succeed noResult
      else match failureDelay (FailureCount status) with
           | Some delay => succeed {| Requeue := false; RequeueAfter := delay |}
           | None => Panic
           end
  end).

Definition record (object : PlatformIdentityConfiguration) (keycloak vault : providerState) : M Result :=
  recordAttempt object keycloak vault false.
Definition recordCleanup (object : PlatformIdentityConfiguration) (keycloak vault : providerState) : M Result :=
  recordAttempt object keycloak vault true.

(** ** Credentials *)

Definition allowedSecret (namespace name : string) : bool :=
  (String.eqb namespace SingletonNamespace && String.eqb name credentialSecretName) ||
  (String.eqb namespace SingletonNamespace && String.eqb name caSecretName) ||
  (String.eqb namespace vaultTokenNamespace && String.eqb name vaultTokenSecretName).

Definition secret (namespace name : string) : M (gmap string string) :=
  if negb (allowedSecret namespace name)
  then fail (New ("Secret read " +:+ namespace +:+ "/" +:+ name +:+
                  " is outside the fixed provider credential contract"))
  else bind (call (GetSecret namespace name)) (fun r =>
       match r with
       | Ok data => succeed data
       | Err e => fail (Wrapped ("read " +:+ namespace +:+ "/" +:+ name) (apiError e))
       end).

Definition emptyKey (namespace name key : string) : error :=
  New (namespace +:+ "/" +:+ name +:+ " key " +:+ q key +:+ " is empty").

Definition secretKey (namespace name key : string) : M string :=
  data ← secret namespace name;
  let value := default "" (data !! key) in
  if String.eqb value "" then fail (emptyKey namespace name key) else succeed value.

Fixpoint requireKeys (data : gmap string string) (keys : list string) : result error unit :=
  match keys with
  | [] => Ok tt
  | key :: keys =>
      if String.eqb (default "" (data !! key)) "" then Err (emptyKey SingletonNamespace credentialSecretName key)
      else requireKeys data keys
  end.

Definition keycloakCredentials : M (gmap string string) :=
  data ← secret SingletonNamespace credentialSecretName;
  lift (requireKeys data
          ["ATUM_IDENTITY_ADMIN_USERNAME"; "ATUM_IDENTITY_ADMIN_PASSWORD"; "ATUM_IDENTITY_BOOTSTRAP_PASSWORD"]);;
  succeed data.

(** ** Providers *)

Definition keycloakURL (o : PlatformIdentityConfiguration) : string :=
  "https://keycloak." +:+ Domain (Spec o) +:+ "/auth".
Definition vaultURL (o : PlatformIdentityConfiguration) : string := "https://vault." +:+ Domain (Spec o).

Definition keycloak (o : PlatformIdentityConfiguration) (credentials : gmap string string) (ca : string) :
    M Keycloak.Keycloak :=
  let realm := Realm (SKeycloak (Spec o)) in
  admin ← catch (Keycloak.NewKeycloak (keycloakURL o) ca realm
                   (default "" (credentials !! "ATUM_IDENTITY_ADMIN_USERNAME"))
                   (default "" (credentials !! "ATUM_IDENTITY_ADMIN_PASSWORD")));
  match (admin : result error Keycloak.Keycloak) with
  | Ok k => succeed k
  | Err adminErr =>
      bootstrap ← catch (Keycloak.NewKeycloak (keycloakURL o) ca realm "atum-bootstrap"
                           (default "" (credentials !! "ATUM_IDENTITY_BOOTSTRAP_PASSWORD")));
      match (bootstrap : result error Keycloak.Keycloak) with
      | Ok k => succeed k
      | Err bootstrapErr =>
          fail (Wrapped "authenticate Keycloak administrator or bootstrap account" (Joined [adminErr; bootstrapErr]))
      end
  end.

Definition reconcileKeycloak (o : PlatformIdentityConfiguration) (credentials : gmap string string) (ca : string) :
    M unit :=
  k ← keycloak o credentials ca;
  Keycloak.Reconcile k (Domain (Spec o)) (SKeycloak (Spec o)) credentials.

Definition reconcileVault (o : PlatformIdentityConfiguration) (credentials : gmap string string) (ca token : string) :
    M unit :=
  v ← lift (Vault.NewVault (vaultURL o) ca token);
  Vault.Reconcile v (keycloakURL o +:+ "/realms/" +:+ Realm (SKeycloak (Spec o))) ca (SVault (Spec o)) credentials.

(** The error of a call, nil as [None] *)
Definition errOf {A} (r : result error A) : option error := match r with Ok _ => None | Err e => Some e end.

(** The provider part of [finalize]: with both credentials the cleanup runs;
    otherwise their errors count unless one says the source is gone. *)
Definition cleanupWith {A B} (ca : result error A) (cred : result error B) (cleanup : A -> B -> M unit) :
    prog (option error) :=
  match ca, cred with
  | Ok ca, Ok cred => bind (cleanup ca cred) (fun r => Done (errOf r))
  | _, _ =>
      Done (if negb (credentialSourceGone (errOf ca)) && negb (credentialSourceGone (errOf cred))
            then errorsJoin [errOf ca; errOf cred] else None)
  end.

Definition finalize (o : PlatformIdentityConfiguration) : M Result :=
  if negb (ContainsFinalizer (Finalizers o) finalizerName) then succeed noResult
  else
    bind (secretKey SingletonNamespace caSecretName providerCAKey) (fun ca =>
    bind keycloakCredentials (fun credentials =>
    bind (cleanupWith ca credentials (fun ca credentials => k ← keycloak o credentials ca; Keycloak.Cleanup k))
      (fun keycloakErr =>
    bind (secretKey vaultTokenNamespace vaultTokenSecretName vaultTokenKey) (fun token =>
    bind (cleanupWith ca token (fun ca token => v ← lift (Vault.NewVault (vaultURL o) ca token); Vault.Cleanup v))
      (fun vaultErr =>
    match errorsJoin [keycloakErr; vaultErr] with
    | Some _ => recordCleanup o (stateFor "KeycloakCleanup" keycloakErr) (stateFor "VaultCleanup" vaultErr)
    | None =>
        bind (call (PatchFinalizers (RemoveFinalizer (Finalizers o) finalizerName))) (fun r =>
        match r with
        | Err (false, text) => fail (Wrapped "remove PlatformIdentityConfiguration finalizer" (Api false text))
        | _ => succeed noResult
        end)
    end))))).

(** ** [Reconcile] *)

Definition reconcileProviders (o : PlatformIdentityConfiguration) : M Result :=
  bind (secretKey SingletonNamespace caSecretName providerCAKey) (fun ca =>
  match ca with
  | Err e => record o (failureState "ProviderTrustUnavailable" e) notReady
  | Ok ca =>
  bind keycloakCredentials (fun credentials =>
  match credentials with
  | Err e => record o (failureState "CredentialsUnavailable" e) notReady
  | Ok credentials =>
  bind (reconcileKeycloak o credentials ca) (fun r =>
  let keycloakState := stateFor "KeycloakReconciled" (errOf r) in
  match r with
  | Err _ => record o keycloakState notReady
  | Ok _ =>
  bind (secretKey vaultTokenNamespace vaultTokenSecretName vaultTokenKey) (fun token =>
  match token with
  | Err e => record o keycloakState (failureState "VaultCredentialsUnavailable" e)
  | Ok token =>
  bind (reconcileVault o credentials ca token) (fun r =>
  record o keycloakState (stateFor "VaultReconciled" (errOf r)))
  end)
  end)
  end)
  end).

Definition invalidIntent (e : error) : providerState :=
  {| ready := false; reason := "InvalidIntent"; message := Error e; terminal := true |}.

Definition Reconcile (namespace name : string) : M Result :=
  if negb (String.eqb namespace SingletonNamespace) || negb (String.eqb name SingletonName) then succeed noResult
  else
    bind (call GetObject) (fun r =>
    match r with
    | Err (notFound, text) => if notFound then succeed noResult else fail (Api notFound text)
    | Ok o =>
        if Deleted o then finalize o
        else
          match validateRuntime (Spec o) with
          | None => Panic
          | Some (Err e) => record o (invalidIntent e) (invalidIntent e)
          | Some (Ok _) =>
              if negb (ContainsFinalizer (Finalizers o) finalizerName) then
                bind (call (PatchFinalizers (AddFinalizer (Finalizers o) finalizerName))) (fun r =>
                match r with
                | Err e => fail (apiError e)
                | Ok _ => succeed {| Requeue := true; RequeueAfter := 0 |}
                end)
              else reconcileProviders o
          end
    end).
End Controller.
End Operator.
