(* ===== verification/ProviderLogic.v ===== *)
(** A logic for the programs of the operator: [exec] runs a program against
    any handler of its effects and records the exchanges; [wpt] says that
    every effect of a program is allowed by a policy that sees what happened
    before, whatever the answers are; a policy may also allow a panic, the
    effect [None]. *)
From stdpp Require Import prelude gmap strings list.
From Stdlib Require Import Ascii ZArith Lia.
From S2P Require Import Prelude GoStrings Json NetUrl IdentityApi Provider.

Module ProviderLogic.
Import Json NetUrl IdentityApi Provider.

(** ** Runs *)

(** An effect with its answer *)
Definition event : Type := { o : op & answer o }.
Abbreviation trace := (list event).
Definition ev (o : op) (r : answer o) : event := existT o r.

Definition handler (W : Type) : Type := forall o, W -> answer o * W.

(** [None] is a panic. *)
Fixpoint exec {W A} (h : handler W) (p : prog A) (w : W) (t : trace) : option A * trace * W :=
  match p with
  | Done a => (Some a, t, w)
  | Panic => (None, t, w)
  | Vis o k => let '(r, w) := h o w in exec h (k r) w (t ++ [ev o r])
  end.

Lemma exec_bind {W A B} (h : handler W) (p : prog A) (f : A -> prog B) w t :
  exec h (bind p f) w t =
  let '(r, t', w') := exec h p w t in
  match r with Some a => exec h (f a) w' t' | None => (None, t', w') end.
Proof.
  revert w t. induction p as [a| |o k IH]; intros w t; simpl; [done|done|].
  destruct (h o w) as [r w']. apply IH.
Qed.

(** Every effect of [s], after [t], is allowed by what precedes it. *)
Definition policy : Type := trace -> option op -> Prop.
Definition obeys (allowed : policy) (t s : trace) : Prop :=
  forall s1 o r s2, s = s1 ++ ev o r :: s2 -> allowed (t ++ s1) (Some o).

(** ** Policies *)

Section Logic.
Variable allowed : policy.

Fixpoint wpt {A} (p : prog A) (t : trace) (Q : A -> trace -> Prop) : Prop :=
  match p with
  | Done a => Q a t
  | Panic => allowed t None
  | Vis o k => allowed t (Some o) /\ forall r, wpt (k r) (t ++ [ev o r]) Q
  end.

Lemma wpt_mono {A} (p : prog A) t (Q Q' : A -> trace -> Prop) :
  wpt p t Q -> (forall a t', t `prefix_of` t' -> Q a t' -> Q' a t') -> wpt p t Q'.
Proof.
  revert t. induction p as [a| |o k IH]; simpl; intros t H HQ; [by apply HQ|done|].
  destruct H as [Ha H]. split; [done|]. intros r. apply (IH r); [apply H|].
  intros a t' Hp. apply HQ. etrans; [|done]. by exists [ev o r].
Qed.

Lemma wpt_bind {A B} (p : prog A) (f : A -> prog B) t Q :
  wpt p t (fun a t' => wpt (f a) t' Q) -> wpt (bind p f) t Q.
Proof.
  revert t. induction p as [a| |o k IH]; simpl; intros t H; [done|done|].
  destruct H as [Ha H]. split; [done|]. intros r. by apply IH.
Qed.

Lemma wpt_exec {W A} (h : handler W) (p : prog A) w t Q :
  wpt p t Q ->
  exists a s w', exec h p w t = (a, t ++ s, w') /\ obeys allowed t s /\
    match a with Some a => Q a (t ++ s) | None => allowed (t ++ s) None end.
Proof.
  revert w t. induction p as [a| |o k IH]; simpl; intros w t H.
  - exists (Some a), [], w. rewrite app_nil_r. split_and!; try done. intros [|] ? ? ? ?; done.
  - exists None, [], w. rewrite app_nil_r. split_and!; try done. intros [|] ? ? ? ?; done.
  - destruct H as [Ha H]. destruct (h o w) as [r w'] eqn:Hh.
    destruct (IH r w' (t ++ [ev o r]) (H r)) as (a & s & w'' & -> & Hs & HQ).
    exists a, (ev o r :: s), w''. rewrite <- app_assoc in HQ |- *. split_and!; try done.
    intros [|e s1] o' r' s2 Heq.
    + apply (f_equal (fun l => default o (projT1 <$> head l))) in Heq. simpl in Heq. subst o'. by rewrite app_nil_r.
    + assert (e = ev o r) as -> by (by apply (f_equal (fun l => default e (head l))) in Heq).
      apply (f_equal tail) in Heq. specialize (Hs s1 o' r' s2 Heq). rewrite <- app_assoc in Hs. apply Hs.
Qed.

(** ** Fallible programs *)

(** [m] only does what is allowed; when it succeeds, [Q] holds. *)
Definition safe {A} (m : M A) (t : trace) (Q : A -> trace -> Prop) : Prop :=
  wpt m t (fun r t' => match r with Ok a => Q a t' | Err _ => True end).

Lemma safe_mono {A} (m : M A) t (Q Q' : A -> trace -> Prop) :
  safe m t Q -> (forall a t', t `prefix_of` t' -> Q a t' -> Q' a t') -> safe m t Q'.
Proof. intros H HQ. eapply wpt_mono; [exact H|]. intros [a|e] t' Hp; [by apply HQ|done]. Qed.

Lemma safe_bind {A B} (m : M A) (f : A -> M B) t Q :
  safe m t (fun a t' => t `prefix_of` t' -> safe (f a) t' Q) -> safe (m ≫= f) t Q.
Proof.
  intros H. apply wpt_bind. eapply wpt_mono; [exact H|]. intros [a|e] t' Hp; [|done]. intros Hf. by apply Hf.
Qed.

Lemma safe_wrapped {A} prefix (m : M A) t Q : safe m t Q -> safe (wrapped prefix m) t Q.
Proof.
  intros H. apply wpt_bind. eapply wpt_mono; [exact H|]. by intros [a|e] t' _.
Qed.

Lemma safe_ret {A} (a : A) t (Q : A -> trace -> Prop) : Q a t -> safe (mret a) t Q.
Proof. done. Qed.
Lemma safe_fail {A} e t (Q : A -> trace -> Prop) : safe (fail e) t Q.
Proof. done. Qed.
Lemma safe_value {A} (r : result error A) t (Q : A -> trace -> Prop) :
  (forall a, r = Ok a -> Q a t) -> safe (lift r) t Q.
Proof. destruct r; [intros H; by apply H|done]. Qed.
Lemma safe_guard (b : bool) e t (Q : unit -> trace -> Prop) : (b = true -> Q tt t) -> safe (require b e) t Q.
Proof. destruct b; [intros H; by apply H|done]. Qed.

Lemma safe_for_each {A} (l : list A) (f : A -> M unit) t (Q : unit -> trace -> Prop) :
  (forall x t', x ∈ l -> t `prefix_of` t' -> safe (f x) t' (fun _ _ => True)) ->
  (forall t', t `prefix_of` t' -> Q tt t') ->
  safe (for_each l f) t Q.
Proof.
  revert t. induction l as [|x l IH]; intros t Hf HQ; [by apply HQ|]. apply safe_bind.
  eapply safe_mono; [apply Hf; [by left|done]|]. intros _ t' Hp _ _. apply IH.
  - intros y t'' Hy Hp'. apply Hf; [by right|by etrans].
  - intros t'' Hp'. apply HQ. by etrans.
Qed.
End Logic.

(** A program that keeps to one policy keeps to another that allows as much
    after what happened before. *)
Lemma wpt_from (relied allowed : policy) t0 {A} (p : prog A) t Q :
  (forall t o, t0 `prefix_of` t -> relied t o -> allowed t o) -> t0 `prefix_of` t ->
  wpt relied p t Q -> wpt allowed p t Q.
Proof.
  intros H. revert t. induction p as [a| |o k IH]; simpl; intros t Ht; [done|by apply H|].
  intros [Ho Hk]. split; [by apply H|]. intros r. apply IH; [|apply Hk]. etrans; [exact Ht|]. by eexists.
Qed.

(** ** Requests *)

Section Requests.
Context {LI : Libraries}.

Definition jsonRequest (c : Client) (method path : string) (input : option value) : request :=
  {| r_base := baseURL c; r_auth := auth c; r_method := method; r_path := path;
     r_body := match input with Some v => JsonBody v | None => NoBody end |}.

Definition decoded {A} (method path : string) (f : setter A) (zero : A) (accepted : list Z) (r : response) :
    result error A :=
  data ← receive method path accepted r;
  if String.eqb data "" then Ok zero else unmarshal method path f zero data.

(** The server answered the request with [a]. *)
Definition answered {A} (c : Client) (method path : string) (input : option value) (f : setter A) (zero : A)
    (accepted : list Z) (a : A) (t : trace) : Prop :=
  exists r, ev (Do (jsonRequest c method path input)) r ∈ t /\ decoded method path f zero accepted r = Ok a.

Lemma answered_grow {A} c method path input (f : setter A) zero accepted a t t' :
  answered c method path input f zero accepted a t -> t `prefix_of` t' ->
  answered c method path input f zero accepted a t'.
Proof. intros (r & Hr & Hd) [s ->]. exists r. split; [apply elem_of_app; by left|done]. Qed.

Lemma safe_JSON allowed {A} c method path input (f : setter A) zero accepted t (Q : A -> trace -> Prop) :
  allowed t (Some (Do (jsonRequest c method path input))) ->
  (forall a t', t `prefix_of` t' -> answered c method path input f zero accepted a t' -> Q a t') ->
  safe allowed (JSON c method path input (Some f) zero accepted) t Q.
Proof.
  intros Ha HQ. unfold JSON. destruct (Parse _); [|done]. split; [exact Ha|]. intros r. cbn [bind call safe wpt].
  fold (decoded method path f zero accepted r). unfold safe. cbn [wpt].
  destruct (decoded method path f zero accepted r) as [a|e] eqn:Hd; [|done].
  apply HQ; [by eexists|]. exists r. split; [|done]. apply elem_of_app. right. apply list_elem_of_singleton. done.
Qed.

Lemma safe_send allowed c method path input t (Q : unit -> trace -> Prop) :
  allowed t (Some (Do (jsonRequest c method path input))) ->
  (forall t', t `prefix_of` t' -> Q tt t') ->
  safe allowed (send c method path input) t Q.
Proof.
  intros Ha HQ. unfold send, JSON. destruct (Parse _); [|done]. split; [exact Ha|]. intros r.
  cbn [bind call]. unfold safe. cbn [wpt]. destruct (receive method path [] r) as [d|e]; [|done]. apply HQ. by eexists.
Qed.
End Requests.

(** ** Concrete libraries, for the witnesses

    URLs of the form [https://host/path] without query, port and user *)
Definition plainParse (s : string) : option URL :=
  let '(rest, https) := CutPrefix s "https://" in
  if negb https then None
  else
    let '(host, _, _) := Cut rest "/" in
    Some {| Scheme := "https"; Hostname := host; Port := ""; User := None; RawQuery := ""; Fragment := ""; UrlPath := "" |}.
Definition plainLibraries : Libraries :=
  {| Parse := plainParse; AppendCertsFromPEM := fun s => negb (String.eqb s ""); IsPrint := fun _ => true |}.

(** A server that answers every request with one function of it *)
Definition serving (f : request -> response) : handler unit := fun o w =>
  match o return answer o * unit with
  | Do r => (f r, w)
  | CtxErr => (None, w)
  | Range keys => (exist _ keys (Permutation_refl keys), w)
  | GetObject => (Err (true, "not found"), w)
  | PatchFinalizers _ => (Err (true, "not found"), w)
  | PatchStatus _ => (Err (true, "not found"), w)
  | GetSecret _ _ => (Err (true, "not found"), w)
  end.

End ProviderLogic.
