(* ===== verification/VaultTheorems.v ===== *)
(** What the Vault provider may do to a Vault it does not own alone: the
    policy [vault_allowed] lists every request it is entitled to, with the
    answers that entitle it, and every run obeys it, whatever Vault answers. *)
From stdpp Require Import prelude gmap strings list.
From Stdlib Require Import Ascii ZArith Lia.
From S2P Require Import Prelude GoStrings Json NetUrl IdentityApi Provider Vault ProviderLogic.

Module VaultTheorems.
Import Json NetUrl IdentityApi Provider Vault ProviderLogic.

(** What the declaration names, which no run may delete *)
Record keeps := { keepGroups : gset string; keepPolicies : gset string; keepMount : option string }.
Definition keepNothing : keeps := {| keepGroups := ∅; keepPolicies := ∅; keepMount := None |}.
Definition declared (intent : VaultIntent) : keeps :=
  {| keepGroups := {[GName (ExternalGroup intent)]}; keepPolicies := {[PName (VPolicy intent)]};
     keepMount := Some (AuthPath intent +:+ "/") |}.

Section Policy.
Context {LI : Libraries}.
Variable v : Client.

(** ** What the answers so far show *)

Definition sawMounts (m : gmap string jsonMount) (t : trace) : Prop :=
  answered v "GET" "/v1/sys/auth" None (underData (asMap zeroMount decodeMount)) ∅ [] m t.
Definition sawPolicy (name body : string) (t : trace) : Prop :=
  answered v "GET" ("/v1/sys/policies/acl/" +:+ PathEscape name) None (underData (oneString "policy")) ""
    [200; 404]%Z body t.
Definition sawNamedGroup (name : string) (g : vaultGroup) (t : trace) : Prop :=
  answered v "GET" ("/v1/identity/group/name/" +:+ PathEscape name) None (underData decodeGroup) zeroGroup
    [200; 404]%Z g t.
Definition sawGroup (accepted : list Z) (id : string) (g : vaultGroup) (t : trace) : Prop :=
  answered v "GET" ("/v1/identity/group/id/" +:+ PathEscape id) None (underData decodeGroup) zeroGroup accepted g t.
Definition sawAlias (id : string) (a : vaultGroupAlias) (t : trace) : Prop :=
  answered v "GET" ("/v1/identity/group-alias/id/" +:+ PathEscape id) None (underData decodeAlias) zeroAlias [] a t.
Definition sawRoles (authPath : string) (roles : list string) (t : trace) : Prop :=
  answered v "GET" ("/v1/auth/" +:+ PathEscape authPath +:+ "/role?list=true") None
    (underData (decode_open [("keys", asList "" asString)])) [] [200; 404]%Z roles t.

(** The mount carries the marker. *)
Definition ownedMount (key : string) (mount : jsonMount) (t : trace) : Prop :=
  exists m, sawMounts m t /\ m !! key = Some mount /\ Description mount = vaultMountDescription.

(** The group with this identity carries the marker. *)
Definition ownedGroup (id : string) (t : trace) : Prop :=
  exists g, sawGroup [200; 404]%Z id g t /\ ID g <> "" /\ ownedMetadata g = true.

(** The identity of the declared group: read with the marker, or returned when
    the group was written with it *)
Definition declaredGroup (desired : VaultExternalGroup) (id : string) (t : trace) : Prop :=
  id <> "" /\
  ((exists g, sawNamedGroup (GName desired) g t /\ ID g = id /\ ownedMetadata g = true) \/
   exists endpoint, answered v "POST" endpoint (Some (groupBody desired)) (underData (oneString "id")) "" [] id t).

(** ** The requests the provider is entitled to *)

Definition asked (method path : string) (input : option value) : request := jsonRequest v method path input.

Inductive vault_allowed (keep : keeps) (t : trace) : request -> Prop :=
  | allow_read path : vault_allowed keep t (asked "GET" path None)
  (** nothing is mounted there *)
  | allow_mount m authPath :
      sawMounts m t -> m !! (authPath +:+ "/") = None ->
      vault_allowed keep t (asked "POST" ("/v1/sys/auth/" +:+ PathEscape authPath)
        (Some (JObj (obj [("type", JStr "oidc"); ("description", JStr vaultMountDescription)]))))
  | allow_config authPath mount body :
      ownedMount (authPath +:+ "/") mount t ->
      vault_allowed keep t (asked "POST" ("/v1/auth/" +:+ PathEscape authPath +:+ "/config") (Some body))
  | allow_role authPath mount role body :
      ownedMount (authPath +:+ "/") mount t ->
      vault_allowed keep t
        (asked "POST" ("/v1/auth/" +:+ PathEscape authPath +:+ "/role/" +:+ PathEscape role) (Some body))
  (** the policy is absent or carries the marker, and will carry it *)
  | allow_policy name body rest :
      sawPolicy name body t -> body = "" \/ HasPrefix body vaultPolicyMarker = true ->
      vault_allowed keep t (asked "PUT" ("/v1/sys/policies/acl/" +:+ PathEscape name)
        (Some (JObj (obj [("policy", JStr (vaultPolicyMarker +:+ rest))]))))
  | allow_group_create desired g :
      sawNamedGroup (GName desired) g t -> ID g = "" ->
      vault_allowed keep t (asked "POST" "/v1/identity/group" (Some (groupBody desired)))
  | allow_group_update desired g :
      sawNamedGroup (GName desired) g t -> ID g <> "" -> ownedMetadata g = true ->
      vault_allowed keep t
        (asked "POST" ("/v1/identity/group/id/" +:+ PathEscape (ID g)) (Some (groupBody desired)))
  (** an alias of an owned mount, for the declared group *)
  | allow_alias_create key mount desired groupID :
      ownedMount key mount t -> declaredGroup desired groupID t ->
      vault_allowed keep t (asked "POST" "/v1/identity/group-alias"
        (Some (JObj (obj [("name", JStr (Claim desired)); ("canonical_id", JStr groupID);
                          ("mount_accessor", JStr (Accessor mount))]))))
  (** the alias belongs to that mount and points to the declared group or to
      another owned one *)
  | allow_alias_update key mount desired groupID id a :
      ownedMount key mount t -> declaredGroup desired groupID t ->
      sawAlias id a t -> AName a = Claim desired -> MountAccessor a = Accessor mount ->
      CanonicalID a = groupID \/ ownedGroup (CanonicalID a) t ->
      vault_allowed keep t (asked "POST" ("/v1/identity/group-alias/id/" +:+ PathEscape (AID a))
        (Some (JObj (obj [("name", JStr (Claim desired)); ("canonical_id", JStr groupID);
                          ("mount_accessor", JStr (Accessor mount))]))))
  | allow_alias_delete id a :
      sawAlias id a t -> ownedGroup (CanonicalID a) t ->
      vault_allowed keep t (asked "DELETE" ("/v1/identity/group-alias/id/" +:+ PathEscape (AID a)) None)
  | allow_group_delete id g :
      sawGroup [] id g t -> ownedMetadata g = true -> Name g ∉ keepGroups keep ->
      vault_allowed keep t (asked "DELETE" ("/v1/identity/group/id/" +:+ PathEscape (ID g)) None)
  | allow_policy_delete name body :
      sawPolicy name body t -> HasPrefix body vaultPolicyMarker = true -> name ∉ keepPolicies keep ->
      vault_allowed keep t (asked "DELETE" ("/v1/sys/policies/acl/" +:+ PathEscape name) None)
  (** the mount is owned and holds no role but the declared one *)
  | allow_role_delete authPath mount roles :
      ownedMount (authPath +:+ "/") mount t -> sawRoles authPath roles t -> Forall (eq roleName) roles ->
      vault_allowed keep t
        (asked "DELETE" ("/v1/auth/" +:+ PathEscape authPath +:+ "/role/" +:+ PathEscape roleName) None)
  | allow_unmount key listed authPath mount roles :
      ownedMount key listed t -> keepMount keep <> Some key -> authPath = TrimSuffix key "/" ->
      ownedMount (authPath +:+ "/") mount t -> sawRoles authPath roles t -> Forall (eq roleName) roles ->
      vault_allowed keep t (asked "DELETE" ("/v1/sys/auth/" +:+ PathEscape authPath) None).

(** The provider does nothing but exchanges with Vault. *)
Definition vault_policy (keep : keeps) : policy := fun t o =>
  match o with Some (Do r) => vault_allowed keep t r | Some (Range _) => True | _ => False end.

(** ** Every operation keeps to the policy *)

Lemma ownedMount_grow key mount t t' : ownedMount key mount t -> t `prefix_of` t' -> ownedMount key mount t'.
Proof. intros (m & H & ?) Hp. exists m. split; [by eapply answered_grow|done]. Qed.
Lemma ownedGroup_grow id t t' : ownedGroup id t -> t `prefix_of` t' -> ownedGroup id t'.
Proof. intros (g & H & ?) Hp. exists g. split; [by eapply answered_grow|done]. Qed.
Lemma declaredGroup_grow desired id t t' : declaredGroup desired id t -> t `prefix_of` t' -> declaredGroup desired id t'.
Proof.
  intros [Hne [(g & H & ?)|(endpoint & H)]] Hp; (split; [done|]); [left|right].
  - exists g. split; [by eapply answered_grow|done].
  - exists endpoint. by eapply answered_grow.
Qed.

Section Steps.
Variable policy : policy.
Variable keep : keeps.
Hypothesis policy_allows : forall t r, vault_allowed keep t r -> policy t (Some (Do r)).
Hypothesis policy_range : forall t keys, policy t (Some (Range keys)).

Lemma safe_read {A} path (f : setter A) zero accepted t (Q : A -> trace -> Prop) :
  (forall a t', t `prefix_of` t' -> answered v "GET" path None (underData f) zero accepted a t' -> Q a t') ->
  safe policy (read v path f zero accepted) t Q.
Proof. intros HQ. apply safe_JSON; [apply policy_allows; constructor|done]. Qed.

Lemma safe_authMounts t : safe policy (authMounts v) t sawMounts.
Proof. apply safe_wrapped, safe_read. by intros a t' _ H. Qed.

Lemma safe_ensureMount authPath t :
  safe policy (ensureMount v authPath) t (ownedMount (authPath +:+ "/")).
Proof.
  apply safe_bind. eapply safe_mono; [apply safe_authMounts|]. intros mounts t1 Hp1 Hm _. apply safe_bind.
  assert (forall mount t', ownedMount (authPath +:+ "/") mount t' ->
            safe policy (require (negb (String.eqb (Accessor mount) ""))
                           (New ("OIDC auth mount " +:+ q authPath +:+ " has no accessor"));; mret mount) t'
              (ownedMount (authPath +:+ "/"))) as Hend.
  { intros mount t' Ho. apply safe_bind, safe_guard. intros _ _. by apply safe_ret. }
  destruct (mounts !! (authPath +:+ "/")) as [mount|] eqn:Hl.
  - apply safe_bind, safe_guard. intros Hd _. apply String.eqb_eq in Hd.
    apply safe_ret. intros _. apply Hend. by exists mounts.
  - apply safe_bind, safe_wrapped, safe_send; [apply policy_allows; by eapply allow_mount|].
    intros t2 Hp2 _. apply safe_bind. eapply safe_mono; [apply safe_authMounts|]. intros mounts' t3 Hp3 Hm' _.
    apply safe_bind, safe_guard. intros Hb _. apply safe_ret. intros _. apply Hend.
    apply andb_prop in Hb as [[mount Hl']%bool_decide_eq_true Hd]. rewrite Hl' in Hd |- *. simpl in *.
    apply String.eqb_eq in Hd. by exists mounts'.
Qed.

Lemma safe_readPolicy name t :
  safe policy (readPolicy v name) t (fun r t' => sawPolicy name r.1 t' /\ r.2 = negb (String.eqb r.1 "")).
Proof. apply safe_bind, safe_read. intros body t' _ H _. by apply safe_ret. Qed.

Lemma safe_reconcilePolicy p t : safe policy (reconcilePolicy v p) t (fun _ _ => True).
Proof.
  apply safe_bind, safe_value. intros body Hb _. apply safe_bind.
  eapply safe_mono; [apply safe_readPolicy|]. intros [cur ex] t1 _ [Hs Hex] _. simpl in *.
  apply safe_bind, safe_guard. intros Hr _. apply safe_wrapped, safe_send; [|done]. apply policy_allows.
  unfold policyBody in Hb. destruct (String.eqb _ _); [|done]. simplify_eq.
  eapply allow_policy; [done|]. apply negb_true_iff, andb_false_iff in Hr.
  destruct Hr as [Hr%negb_false_iff|Hr%negb_false_iff]; [left; by apply String.eqb_eq|by right].
Qed.

Lemma safe_upsertExternalGroup desired t :
  safe policy (upsertExternalGroup v desired) t (declaredGroup desired).
Proof.
  apply safe_bind, safe_read. intros g t1 _ Hg _. apply safe_bind, safe_guard. intros Hr _.
  apply safe_bind, safe_wrapped.
  assert (ID g <> "" -> ownedMetadata g = true) as Hown.
  { intros Hne. apply String.eqb_neq in Hne. rewrite Hne in Hr. simpl in Hr. by apply negb_true_iff, negb_false_iff in Hr. }
  apply safe_JSON.
  - apply policy_allows. destruct (String.eqb (ID g) "") eqn:He; simpl.
    + apply String.eqb_eq in He. by eapply allow_group_create.
    + apply String.eqb_neq in He. eapply allow_group_update; eauto.
  - intros id t2 Hp Hid _. destruct (negb (String.eqb id "")) eqn:He;
      [|destruct (negb (String.eqb (ID g) "")) eqn:He'; [|apply safe_fail]]; apply safe_ret.
    + apply negb_true_iff, String.eqb_neq in He. split; [done|]. right. by eexists.
    + apply negb_true_iff, String.eqb_neq in He'. split; [done|]. left. exists g.
      split; [by eapply answered_grow|]. eauto.
Qed.

Lemma safe_groupIsOwned id t :
  safe policy (groupIsOwned v id) t (fun owned t' => owned = true -> ownedGroup id t').
Proof.
  unfold groupIsOwned. destruct (String.eqb id ""); [by apply safe_ret|].
  apply safe_bind, safe_read. intros g t' _ Hg _. apply safe_ret. intros [Hne Ho]%andb_prop.
  exists g. split_and!; [done| |done]. by apply negb_true_iff, String.eqb_neq in Hne.
Qed.

Lemma safe_listIDs endpoint t :
  safe policy (listIDs v endpoint) t (fun ids t' =>
    answered v "GET" (endpoint +:+ "?list=true") None (underData (decode_open [("keys", asList "" asString)])) []
      [200; 404]%Z ids t').
Proof. apply safe_read. by intros a t' _ H. Qed.

Lemma safe_aliasLoop ids name accessor found matches t :
  (matches <> 0%nat -> exists id, sawAlias id found t /\ AName found = name /\ MountAccessor found = accessor) ->
  safe policy (aliasLoop v ids name accessor found matches) t (fun r t' =>
    r.2 <> 0%nat -> exists id, sawAlias id r.1 t' /\ AName r.1 = name /\ MountAccessor r.1 = accessor).
Proof.
  revert found matches t. induction ids as [|id ids IH]; intros found matches t Hf; [by apply safe_ret|].
  apply safe_bind, safe_read. intros a t1 Hp Ha _.
  destruct (_ && _) eqn:Hm; apply IH.
  - intros _. apply andb_prop in Hm as [H1%String.eqb_eq H2%String.eqb_eq]. by exists id.
  - intros Hne. destruct (Hf Hne) as (id' & Hs & ?). exists id'. split; [by eapply answered_grow|done].
Qed.

Lemma safe_upsertGroupAlias key mount groupID desired t :
  ownedMount key mount t -> declaredGroup desired groupID t ->
  safe policy (upsertGroupAlias v (Accessor mount) groupID desired) t (fun _ _ => True).
Proof.
  intros Hm Hg. apply safe_bind, safe_bind. eapply safe_mono; [apply safe_listIDs|]. intros ids t1 Hp1 _ _.
  apply safe_bind. eapply safe_mono; [by apply safe_aliasLoop|]. intros [a n] t2 Hp2 Ha _. simpl in *.
  apply safe_bind, safe_guard. intros Hn _. apply safe_ret. intros _. simpl.
  apply safe_bind.
  assert (t `prefix_of` t2) as Hp by (by etrans).
  assert (forall t', t2 `prefix_of` t' ->
     ((n =? 1)%nat = true -> CanonicalID a = groupID \/ ownedGroup (CanonicalID a) t') ->
     policy t' (Some (Do (jsonRequest v "POST"
       (if (n =? 1)%nat then "/v1/identity/group-alias/id/" +:+ PathEscape (AID a) else "/v1/identity/group-alias")
       (Some (JObj (obj [("name", JStr (Claim desired)); ("canonical_id", JStr groupID);
                         ("mount_accessor", JStr (Accessor mount))]))))))) as Hsend.
  { intros t' Hp' Hc. apply policy_allows. assert (t `prefix_of` t') as Hpt by (by etrans).
    destruct (n =? 1)%nat eqn:Hn1.
    - destruct Ha as (id & Hs & Hname & Hacc); [by apply Nat.eqb_eq in Hn1; subst|].
      apply (allow_alias_update keep t' key mount desired groupID id a); auto;
        [by eapply ownedMount_grow|by eapply declaredGroup_grow|eapply answered_grow; [exact Hs|]; done].
    - eapply allow_alias_create; eauto using ownedMount_grow, declaredGroup_grow. }
  destruct (_ && _) eqn:Hex.
  - apply safe_bind. eapply safe_mono; [apply safe_groupIsOwned|]. intros owned t3 Hp3 Ho _.
    apply safe_guard. intros -> _. apply safe_send; [|done]. apply Hsend; auto.
  - apply safe_ret. intros _. apply safe_send; [|done]. apply Hsend; [done|]. intros Hn1. left.
    rewrite Hn1 in Hex. simpl in Hex. by apply negb_false_iff, String.eqb_eq in Hex.
Qed.

Lemma safe_pruneAliasLoop ids desired checked t :
  (forall id, checked !! id = Some true -> ownedGroup id t) ->
  safe policy (pruneAliasLoop v ids desired checked) t (fun _ _ => True).
Proof.
  revert checked t. induction ids as [|id ids IH]; intros checked t Hc; [by apply safe_ret|].
  apply safe_bind, safe_read. intros a t1 Hp1 Ha _. destruct (bool_decide _).
  { apply IH. intros id' Hid. eapply ownedGroup_grow; eauto. }
  apply safe_bind. eapply safe_mono with (Q := fun owned t' => owned = true -> ownedGroup (CanonicalID a) t').
  { destruct (checked !! CanonicalID a) as [b|] eqn:Hl; [|apply safe_groupIsOwned].
    apply safe_ret. intros ->. eapply ownedGroup_grow; eauto. }
  intros owned t2 Hp2 Ho _. assert (t `prefix_of` t2) as Hp by (by etrans).
  assert (forall id', <[CanonicalID a := owned]> checked !! id' = Some true -> ownedGroup id' t2) as Hc'.
  { intros id'. destruct (decide (id' = CanonicalID a)) as [->|Hne].
    - rewrite lookup_insert_eq. intros [= ->]. auto.
    - rewrite lookup_insert_ne by done. intros Hid. eapply ownedGroup_grow; eauto. }
  apply safe_bind. destruct owned; [|apply safe_ret; intros _; by apply IH].
  apply safe_send.
  - apply policy_allows. eapply allow_alias_delete; [by eapply answered_grow|auto].
  - intros t3 Hp3 _. apply IH. intros id' Hid. eapply ownedGroup_grow; eauto.
Qed.

Lemma safe_pruneAliases desired t : safe policy (pruneAliases v desired) t (fun _ _ => True).
Proof.
  apply safe_bind. eapply safe_mono; [apply safe_listIDs|]. intros ids t1 _ _ _. by apply safe_pruneAliasLoop.
Qed.

Lemma safe_pruneGroups t : safe policy (pruneGroups v (keepGroups keep)) t (fun _ _ => True).
Proof.
  apply safe_bind. eapply safe_mono; [apply safe_listIDs|]. intros ids t1 _ _ _. apply safe_for_each; [|done].
  intros id t2 _ _. apply safe_bind, safe_read. intros g t3 _ Hg _.
  destruct (negb _) eqn:Ho; [by apply safe_ret|]. case_bool_decide as Hk; [by apply safe_ret|].
  apply safe_send; [|done]. apply policy_allows. eapply allow_group_delete; [done| |done].
  by apply negb_false_iff in Ho.
Qed.

Lemma safe_prunePolicies t : safe policy (prunePolicies v (keepPolicies keep)) t (fun _ _ => True).
Proof.
  apply safe_bind. eapply safe_mono; [apply safe_listIDs|]. intros names t1 _ _ _. apply safe_for_each; [|done].
  intros name t2 _ _. apply safe_bind. eapply safe_mono; [apply safe_readPolicy|]. intros [body ex] t3 _ [Hs _] _. simpl in *.
  destruct (_ || _) eqn:Ho; [by apply safe_ret|]. case_bool_decide as Hk; [by apply safe_ret|].
  apply safe_send; [|done]. apply policy_allows. eapply allow_policy_delete; [done| |done].
  apply orb_false_iff in Ho as [_ Ho]. by apply negb_false_iff in Ho.
Qed.

Lemma no_foreign roles :
  (length (filter (fun role => role <> roleName) roles) =? 0)%nat = true -> Forall (eq roleName) roles.
Proof.
  intros H%Nat.eqb_eq%length_zero_iff_nil. apply Forall_forall. intros role Hr.
  destruct (decide (role = roleName)) as [->|Hne]; [done|]. exfalso.
  assert (role ∈ filter (fun role => role <> roleName) roles) as Hin by (by apply list_elem_of_filter).
  rewrite H in Hin. by apply elem_of_nil in Hin.
Qed.

Lemma safe_cleanupMount key listed t :
  ownedMount key listed t -> keepMount keep <> Some key ->
  safe policy (cleanupMount v (TrimSuffix key "/")) t (fun _ _ => True).
Proof.
  intros Hl Hk. set (authPath := TrimSuffix key "/"). apply safe_bind.
  eapply safe_mono; [apply safe_authMounts|]. intros mounts t1 Hp1 Hm _.
  destruct (mounts !! (authPath +:+ "/")) as [mount|] eqn:Hmount; [|by apply safe_ret].
  apply safe_bind, safe_guard. intros Hd%String.eqb_eq _. apply safe_bind.
  eapply safe_mono; [apply safe_listIDs|]. intros roles t2 Hp2 Hr _. rewrite !str_append_assoc in Hr.
  apply safe_bind, safe_guard. intros Hf%no_foreign _.
  assert (forall t', t2 `prefix_of` t' -> ownedMount (authPath +:+ "/") mount t' /\ sawRoles authPath roles t') as Hgrow.
  { intros t' Hp'. split; [|by eapply answered_grow]. exists mounts. split; [|done].
    eapply answered_grow; [exact Hm|]. by etrans. }
  assert (forall t', t2 `prefix_of` t' ->
    safe policy (send v "DELETE" ("/v1/sys/auth/" +:+ PathEscape authPath) None) t' (fun _ _ => True)) as Hun.
  { intros t' Hp'. apply safe_send; [|done]. apply policy_allows. destruct (Hgrow t' Hp').
    apply (allow_unmount keep t' key listed authPath mount roles); try done.
    eapply ownedMount_grow; [exact Hl|]. etrans; [done|]. by etrans. }
  apply safe_bind. case_bool_decide; [|by apply safe_ret; intros _; apply Hun].
  apply safe_wrapped, safe_send.
  - apply policy_allows. destruct (Hgrow t2 ltac:(done)). by eapply allow_role_delete.
  - intros t3 Hp3 _. by apply Hun.
Qed.

Lemma safe_cleanupMounts t : safe policy (cleanupMounts v (keepMount keep)) t (fun _ _ => True).
Proof.
  apply safe_bind. eapply safe_mono; [apply safe_authMounts|]. intros mounts t1 _ Hm _.
  apply wpt_bind. split; [apply policy_range|]. intros keys. cbn [wpt]. apply safe_for_each; [|done].
  intros key t2 _ Hp. destruct (mounts !! key) as [mount|] eqn:Hl; [|by apply safe_ret].
  destruct (_ || _) eqn:Ho; [by apply safe_ret|]. apply orb_false_iff in Ho as [Hd Hk].
  apply negb_false_iff, String.eqb_eq in Hd. apply bool_decide_eq_false in Hk.
  eapply safe_cleanupMount; [|done]. exists mounts. split; [|done]. eapply answered_grow; [exact Hm|].
  etrans; [|done]. by eexists.
Qed.
End Steps.

Lemma safe_vault_Cleanup policy t :
  (forall t r, vault_allowed keepNothing t r -> policy t (Some (Do r))) -> (forall t keys, policy t (Some (Range keys))) ->
  safe policy (Cleanup v) t (fun _ _ => True).
Proof.
  intros Hp Hr. apply safe_bind. eapply safe_mono; [by apply (safe_pruneAliases policy keepNothing)|]. intros _ t1 _ _ _.
  apply safe_bind. eapply safe_mono; [by apply (safe_pruneGroups policy keepNothing)|]. intros _ t2 _ _ _.
  apply safe_bind. eapply safe_mono; [by apply (safe_prunePolicies policy keepNothing)|]. intros _ t3 _ _ _.
  by apply (safe_cleanupMounts policy keepNothing).
Qed.

Lemma safe_vault_prune policy intent mount groupID t :
  (forall t r, vault_allowed (declared intent) t r -> policy t (Some (Do r))) -> (forall t keys, policy t (Some (Range keys))) ->
  safe policy (prune v intent mount groupID) t (fun _ _ => True).
Proof.
  intros Hp Hr. apply safe_bind. eapply safe_mono; [by apply (safe_pruneAliases policy (declared intent))|]. intros _ t1 _ _ _.
  apply safe_bind. eapply safe_mono; [by apply (safe_pruneGroups policy (declared intent))|]. intros _ t2 _ _ _.
  apply safe_bind. eapply safe_mono; [by apply (safe_prunePolicies policy (declared intent))|]. intros _ t3 _ _ _.
  by apply (safe_cleanupMounts policy (declared intent)).
Qed.

Lemma safe_vault_Reconcile policy issuer ca intent secrets t :
  (forall t r, vault_allowed (declared intent) t r -> policy t (Some (Do r))) -> (forall t keys, policy t (Some (Range keys))) ->
  safe policy (Reconcile v issuer ca intent secrets) t (fun _ _ => True).
Proof.
  intros Hpol Hr. apply safe_bind. eapply safe_mono; [by apply (safe_ensureMount policy (declared intent))|].
  intros mount t1 _ Hm _. apply safe_bind, safe_guard. intros _ _. apply safe_bind, safe_wrapped, safe_send.
  { apply Hpol. by eapply allow_config. }
  intros t2 Hp2 _. apply safe_bind. eapply safe_mono; [by apply (safe_reconcilePolicy policy (declared intent))|].
  intros _ t3 Hp3 _ _. assert (ownedMount (AuthPath intent +:+ "/") mount t3) as Hm3.
  { eapply ownedMount_grow; [exact Hm|]. by etrans. }
  apply safe_bind, safe_wrapped, safe_send; [apply Hpol; by eapply allow_role|]. intros t4 Hp4 _.
  apply safe_bind. eapply safe_mono; [by apply (safe_upsertExternalGroup policy (declared intent))|].
  intros groupID t5 Hp5 Hg _. apply safe_bind.
  eapply safe_mono; [apply (safe_upsertGroupAlias policy (declared intent) Hpol (AuthPath intent +:+ "/")); [|exact Hg]|].
  { eapply ownedMount_grow; [exact Hm3|]. by etrans. }
  intros _ t6 _ _ _. by apply safe_vault_prune.
Qed.
End Policy.

(** C34. Custody of Vault.  Whatever Vault answers, a reconciliation and a
    cleanup run to an end without a panic, and every request is one of
    [vault_allowed]: what is written carries the ownership marker or lies
    under a mount that does; a policy, group, alias or mount is overwritten or
    deleted only after an answer of this run showed that it, or the group an
    alias points to, carries the marker; nothing declared is pruned; and a
    mount is removed only after its roles were listed and none is foreign. *)
Theorem vault_custody {LI : Libraries} {W} (h : handler W) (v : Client) issuer ca intent secrets w :
  (exists r s w', exec h (Reconcile v issuer ca intent secrets) w [] = (Some r, s, w') /\
     obeys (vault_policy v (declared intent)) [] s) /\
  (exists r s w', exec h (Cleanup v) w [] = (Some r, s, w') /\ obeys (vault_policy v keepNothing) [] s).
Proof.
  split.
  - destruct (wpt_exec (vault_policy v (declared intent)) h (Reconcile v issuer ca intent secrets) w []
                _ (safe_vault_Reconcile v (vault_policy v (declared intent)) issuer ca intent secrets [] ltac:(done) ltac:(done)))
      as ([r|] & s & w' & He & Ho & Hr); [by eauto|destruct Hr].
  - destruct (wpt_exec (vault_policy v keepNothing) h (Cleanup v) w []
                _ (safe_vault_Cleanup v (vault_policy v keepNothing) [] ltac:(done) ltac:(done))) as ([r|] & s & w' & He & Ho & Hr); [by eauto|destruct Hr].
Qed.

End VaultTheorems.
