(* ===== verification/KeycloakTheorems.v ===== *)
(** What the Keycloak provider may do to a realm it shares: the policy
    [keycloak_allowed] lists every request it is entitled to, with the answers
    that entitle it, and every run obeys it, whatever Keycloak answers. *)
From stdpp Require Import prelude gmap strings list.
From Stdlib Require Import Ascii ZArith Lia.
From S2P Require Import Prelude GoStrings Json NetUrl IdentityApi Provider Vault Keycloak ProviderLogic.

Module KeycloakTheorems.
Import Json NetUrl IdentityApi Provider Keycloak ProviderLogic.

(** A loop whose measure grows by [c] in every round *)
Section Rounds.
Context {S A : Type}.
Variables (policy : policy) (body : S -> M (S + A)) (I : S -> trace -> Prop) (Q : A -> trace -> Prop).
Variables (mu : S -> Z) (c : Z).

Definition advances (k : Z) (s : S) (x : S + A) (t : trace) : Prop :=
  match x with inl s' => I s' t /\ (mu s + k <= mu s')%Z | inr a => Q a t end.

Lemma safe_rounds n s t :
  (forall s t, I s t -> safe policy (body s) t (advances c s)) -> I s t ->
  safe policy (rounds n body s) t (advances (c * 2 ^ Z.of_nat n) s).
Proof.
  intros Hbody. revert s t. induction n as [|n IH]; intros s t Hs.
  { rewrite Z.pow_0_r, Z.mul_1_r. by apply Hbody. }
  apply safe_bind. eapply safe_mono; [by apply IH|]. intros [s'|a] t1 _ H _; [|by apply safe_ret].
  destruct H as [Hs' Hmu]. eapply safe_mono; [by apply IH|]. intros [s''|a] t2 _; [|done].
  intros [HI Hmu']. split; [done|]. rewrite Nat2Z.inj_succ, Z.pow_succ_r by lia. lia.
Qed.
End Rounds.

Section Policy.
Context {LI : Libraries}.
Variable k : Keycloak.

(** ** What the answers so far show *)

(** The object is in an answered listing of the collection. *)
Definition sawObject (c : keycloakCollection) (o : keycloakObject) (t : trace) : Prop :=
  exists cp paginated p found,
    path c = Ok (cp, paginated) /\ (p = admin k cp \/ exists query, p = admin k cp +:+ "?" +:+ query) /\
    answered (client k) "GET" p None decodeObjects [] [] found t /\ o ∈ found.

Definition ownedObject (c : keycloakCollection) (id : string) (t : trace) : Prop :=
  exists o, sawObject c o t /\ ID o = id /\ objectMarked o = true.

Definition sawProfile (profile : anymap) (attributes : list anymap) (t : trace) : Prop :=
  answered (client k) "GET" (admin k "/users/profile") None asAnyMap [] [] profile t /\
  profileAttributes profile = Ok attributes.

(** The collection of mappers belongs to an owned object. *)
Definition parentOwned (c : keycloakCollection) (t : trace) : Prop :=
  match c with
  | clientProtocolMappers id => ownedObject realmClients id t
  | clientScopeProtocolMappers id => ownedObject realmClientScopes id t
  | _ => True
  end.

(** The body of a request marks what it creates. *)
Definition carriesMarker (body : anymap) : bool :=
  match obj_get "attributes" body with Some (JObj a) => marked a | _ => false end ||
  match obj_get "config" body with Some (JObj a) => marked a | _ => false end.

(** Only the ownership attribute differs, and an existing one is owned. *)
Definition profileEdit (old new : list anymap) : Prop :=
  filter (fun a => namedMarker a = false) new = filter (fun a => namedMarker a = false) old /\
  Forall (fun a => namedMarker a = true -> annotated a = true) old /\
  Forall (fun a => namedMarker a = true -> a = ownershipProfileAttribute) new.

(** The names a declaration keeps, by collection *)
Definition keeps : Type := keycloakCollection -> gset string.
Definition keepNothing : keeps := fun _ => ∅.
Definition declared (intent : KeycloakIntent) : keeps := fun c =>
  match c with
  | realmClients => list_to_set (KID <$> Clients intent)
  | realmUsers => {[Username (KAdministrator intent)]}
  | realmGroups => {[Group (KAdministrator intent)]}
  | realmClientScopes => {[ClaimName (KGroupsScope intent)]}
  | _ => ∅
  end.
Definition fieldFor (c : keycloakCollection) : string :=
  match c with realmClients => "clientId" | realmUsers => "username" | _ => "name" end.

(** ** The requests the provider is entitled to *)

Definition asked (method path : string) (input : option value) : request :=
  jsonRequest (client k) method (admin k path) input.

Inductive keycloak_allowed (keep : keeps) (t : trace) : request -> Prop :=
  | allow_read path : keycloak_allowed keep t (asked "GET" path None)
  | allow_create c cp paginated body :
      path c = Ok (cp, paginated) -> parentOwned c t -> carriesMarker body = true ->
      keycloak_allowed keep t (asked "POST" cp (Some (JObj body)))
  | allow_update c cp paginated id body :
      path c = Ok (cp, paginated) -> ownedObject c id t -> carriesMarker body = true ->
      keycloak_allowed keep t (asked "PUT" (cp +:+ "/" +:+ PathEscape id) (Some (JObj body)))
  | allow_delete c cp paginated o :
      path c = Ok (cp, paginated) -> sawObject c o t -> objectMarked o = true -> fieldOf (fieldFor c) o ∉ keep c ->
      keycloak_allowed keep t (asked "DELETE" (cp +:+ "/" +:+ PathEscape (ID o)) None)
  | allow_profile profile attributes attributes' :
      sawProfile profile attributes t -> profileEdit attributes attributes' ->
      keycloak_allowed keep t (asked "PUT" "/users/profile" (Some (withAttributes profile attributes')))
  | allow_role userID body :
      ownedObject realmUsers userID t ->
      keycloak_allowed keep t (asked "POST" ("/users/" +:+ PathEscape userID +:+ "/role-mappings/realm") (Some body))
  | allow_password userID body :
      ownedObject realmUsers userID t ->
      keycloak_allowed keep t (asked "PUT" ("/users/" +:+ PathEscape userID +:+ "/reset-password") (Some body))
  | allow_membership userID groupID :
      ownedObject realmUsers userID t -> ownedObject realmGroups groupID t ->
      keycloak_allowed keep t
        (asked "PUT" ("/users/" +:+ PathEscape userID +:+ "/groups/" +:+ PathEscape groupID) None)
  | allow_default_scope clientID scopeID :
      ownedObject realmClients clientID t ->
      keycloak_allowed keep t
        (asked "PUT" ("/clients/" +:+ PathEscape clientID +:+ "/default-client-scopes/" +:+ PathEscape scopeID) None).

(** The provider does nothing but exchanges with Keycloak, under its context. *)
Definition keycloak_policy (keep : keeps) : policy := fun t o =>
  match o with Some (Do r) => keycloak_allowed keep t r | Some (CtxErr) => True | _ => False end.

(** ** Every operation keeps to the policy *)

Lemma sawObject_grow c o t t' : sawObject c o t -> t `prefix_of` t' -> sawObject c o t'.
Proof.
  intros (cp & pg & p & found & ? & ? & Ha & ?) Hp. exists cp, pg, p, found. split_and!; try done.
  by eapply answered_grow.
Qed.
Lemma ownedObject_grow c id t t' : ownedObject c id t -> t `prefix_of` t' -> ownedObject c id t'.
Proof. intros (o & H & ?) Hp. exists o. split; [by eapply sawObject_grow|done]. Qed.

Lemma exact_Ok found field wanted o b : exact found field wanted = Ok (o, b) -> b = true -> o ∈ found.
Proof.
  unfold exact. destruct (filter _ found) as [|x [|]] eqn:Hf; intros H Hb; simplify_eq.
  assert (o ∈ filter (fun o => fieldOf field o = wanted) found) as Hin by (rewrite Hf; by left).
  by apply list_elem_of_filter in Hin as [_ ?].
Qed.

(** *** The profile attribute *)

Lemma indexed_nil (g : nat -> nat) l :
  filter (fun ia : nat * anymap => namedMarker ia.2 = true) (imap (fun j x => (g j, x)) l) = [] ->
  Forall (fun a => namedMarker a = false) l.
Proof.
  revert g. induction l as [|x l IH]; intros g H; [done|]. rewrite imap_cons, filter_cons in H. simpl in H.
  destruct (decide _) as [Hx|Hx]; [done|]. constructor; [by apply not_true_is_false|]. by apply (IH (g ∘ S)).
Qed.

Lemma indexed_one (g : nat -> nat) l i a :
  filter (fun ia : nat * anymap => namedMarker ia.2 = true) (imap (fun j x => (g j, x)) l) = [(i, a)] ->
  exists l1 l2, l = l1 ++ a :: l2 /\ g (length l1) = i /\ namedMarker a = true /\
    Forall (fun a => namedMarker a = false) (l1 ++ l2).
Proof.
  revert g. induction l as [|x l IH]; intros g H; [done|]. rewrite imap_cons, filter_cons in H. simpl in H.
  destruct (decide _) as [Hx|Hx].
  - injection H as Hg -> Hrest. exists [], l. split_and!; try done. by apply (indexed_nil (g ∘ S)).
  - destruct (IH (g ∘ S) H) as (l1 & l2 & -> & Hg & Ha & HF). exists (x :: l1), l2.
    split_and!; try done. constructor; [by apply not_true_is_false|done].
Qed.

Lemma ownership_index attributes index :
  profileOwnershipAttribute attributes = Ok index ->
  match index with
  | None => Forall (fun a => namedMarker a = false) attributes
  | Some i => exists l1 a l2, attributes = l1 ++ a :: l2 /\ length l1 = i /\ namedMarker a = true /\
                annotated a = true /\ Forall (fun a => namedMarker a = false) (l1 ++ l2)
  end.
Proof.
  unfold profileOwnershipAttribute.
  destruct (filter _ (imap pair attributes)) as [|[i a] [|]] eqn:Hf; [| |done].
  - intros [= <-]. by apply (indexed_nil id).
  - destruct (annotated a) eqn:Ha; [|done]. intros [= <-].
    destruct (indexed_one id attributes i a Hf) as (l1 & l2 & ? & ? & ? & ?). by exists l1, a, l2.
Qed.

Lemma unnamed_owned l : Forall (fun a => namedMarker a = false) l ->
  Forall (fun a => namedMarker a = true -> annotated a = true) l /\
  Forall (fun a => namedMarker a = true -> a = ownershipProfileAttribute) l.
Proof. intros H. split; (eapply Forall_impl; [exact H|]); simpl; intros a ->; done. Qed.

Lemma edit_append l : Forall (fun a => namedMarker a = false) l -> profileEdit l (l ++ [ownershipProfileAttribute]).
Proof.
  intros H. destruct (unnamed_owned l H). split_and!; [|done|].
  - rewrite filter_app, filter_cons_False by done. by rewrite filter_nil, app_nil_r.
  - apply Forall_app. split; [done|]. by constructor.
Qed.

Lemma edit_at l1 a l2 new :
  namedMarker a = true -> annotated a = true -> Forall (fun a => namedMarker a = false) (l1 ++ l2) ->
  new = [] \/ new = [ownershipProfileAttribute] -> profileEdit (l1 ++ a :: l2) (l1 ++ new ++ l2).
Proof.
  intros Hn Ha HF Hnew. destruct (unnamed_owned _ HF) as [HF1 HF2].
  apply Forall_app in HF as [H1 H2], HF1 as [H11 H12], HF2 as [H21 H22].
  split_and!.
  - rewrite !filter_app. f_equal. rewrite filter_cons_False by (by rewrite Hn).
    by destruct Hnew as [-> | ->].
  - apply Forall_app. split; [done|]. by constructor.
  - apply Forall_app. split; [done|]. apply Forall_app. split; [|done]. destruct Hnew as [-> | ->]; by constructor.
Qed.

Section Steps.
Variable policy : policy.
Variable keep : keeps.
Hypothesis policy_allows : forall t r, keycloak_allowed keep t r -> policy t (Some (Do r)).
Hypothesis policy_ctx : forall t, policy t (Some CtxErr).

Lemma safe_get {A} path (f : setter A) zero t (Q : A -> trace -> Prop) :
  (forall a t', t `prefix_of` t' -> answered (client k) "GET" (admin k path) None f zero [] a t' -> Q a t') ->
  safe policy (JSON (client k) "GET" (admin k path) None (Some f) zero []) t Q.
Proof. intros HQ. apply safe_JSON; [apply policy_allows, allow_read|done]. Qed.

Lemma admin_append p q : admin k p +:+ q = admin k (p +:+ q).
Proof. unfold admin. by rewrite !str_append_assoc. Qed.

(** *** Listings *)

Definition allSeen (c : keycloakCollection) (found : list keycloakObject) (t : trace) : Prop :=
  Forall (fun o => sawObject c o t) found.

Lemma allSeen_grow c found t t' : allSeen c found t -> t `prefix_of` t' -> allSeen c found t'.
Proof. intros H Hp. eapply Forall_impl; [exact H|]. intros o Ho. exact (sawObject_grow c o t t' Ho Hp). Qed.

Definition pagesOk (c : keycloakCollection) (s : pages) (t : trace) : Prop :=
  allSeen c (items s) t /\ (0 <= offset s <= maxInt)%Z.

Lemma safe_nextPage c cp paginated filter s t :
  path c = Ok (cp, paginated) -> pagesOk c s t ->
  safe policy (nextPage k cp filter s) t (advances (pagesOk c) (allSeen c) offset keycloakPageSize s).
Proof.
  intros Hc [Hseen Hoff]. split; [apply policy_ctx|]. intros [text|]; [apply safe_fail|]. cbn [bind].
  set (t1 := t ++ _). assert (t `prefix_of` t1) as Hp1 by (by eexists).
  apply safe_bind. unfold pageQuery. rewrite admin_append. apply safe_get. intros page t2 Hp2 Hpage _.
  assert (allSeen c (items s) t2) as Hseen2 by (eapply allSeen_grow; [exact Hseen|by etrans]).
  assert (allSeen c (items s ++ page) t2) as Hboth.
  { apply Forall_app. split; [done|]. apply Forall_forall. intros o Ho.
    eexists cp, paginated, _, page. split_and!; [done| |exact Hpage|done]. right. eexists.
    by rewrite admin_append. }
  cbv zeta. destruct (_ =? 0)%Z; [by apply safe_ret|]. destruct (_ <? _)%Z eqn:H1; [apply safe_fail|].
  destruct (_ && _); [apply safe_fail|]. apply safe_bind, safe_value. intros ids _ _.
  destruct (Z.of_nat (length page) <? keycloakPageSize)%Z eqn:H2; [by apply safe_ret|].
  destruct (maxInt - offset s <? Z.of_nat (length page))%Z eqn:H3; [apply safe_fail|].
  destruct (_ <=? _)%Z; [apply safe_fail|]. apply safe_ret. unfold advances, pagesOk. cbn [items offset].
  apply Z.ltb_ge in H1, H2, H3. split_and!; [done|lia|lia|lia].
Qed.

Lemma safe_listObjects c query t : safe policy (listObjects k c query) t (allSeen c).
Proof.
  apply safe_bind, safe_value. intros [cp paginated] Hc _. cbn [fst snd].
  destruct (ParseQuery query) as [flt|]; [|apply safe_fail]. destruct (_ || _); [apply safe_fail|].
  cbv zeta. set (flt' := if withBrief c then _ else _). destruct paginated.
  - apply safe_bind. eapply safe_mono.
    + apply (safe_rounds policy _ (pagesOk c) (allSeen c) offset keycloakPageSize); [intros s t'; by apply (safe_nextPage c cp true)|].
      split; [by constructor|done].
    + intros [s|found] t1 _ H _; [|by apply safe_ret]. destruct H as [[_ Hoff] Hmu]. exfalso.
      cbn [offset] in Hmu. unfold maxInt, keycloakPageSize in *. vm_compute (100 * 2 ^ Z.of_nat 57)%Z in Hmu.
      vm_compute (2 ^ 63 - 1)%Z in Hoff. lia.
  - apply safe_bind. destruct (String.eqb (Encode flt') ""); [|rewrite admin_append]; apply safe_get;
      intros found t1 _ Hf _; apply safe_bind, safe_value; intros ids _ _; apply safe_ret, Forall_forall; intros o Ho.
    + eexists cp, false, _, found. split_and!; [done|by left|exact Hf|done].
    + eexists cp, false, _, found. split_and!; [done| |exact Hf|done]. right. eexists. by rewrite admin_append.
Qed.

Lemma safe_post path input t (Q : unit -> trace -> Prop) method :
  keycloak_allowed keep t (asked method path input) -> (forall t', t `prefix_of` t' -> Q tt t') ->
  safe policy (send (client k) method (admin k path) input) t Q.
Proof. intros Ha HQ. apply safe_send; [by apply policy_allows|done]. Qed.

Lemma safe_userProfile t : safe policy (userProfile k) t (fun pa t' => sawProfile pa.1 pa.2 t').
Proof.
  apply safe_bind, safe_get. intros profile t1 _ Hp _. apply safe_bind, safe_value. intros attributes Ha _.
  by apply safe_ret.
Qed.

Lemma safe_reconcileProfile t : safe policy (reconcileOwnershipProfileAttribute k) t (fun _ _ => True).
Proof.
  apply safe_bind. eapply safe_mono; [apply safe_userProfile|]. intros [profile attributes] t1 _ Hs _. cbn [fst snd] in *.
  apply safe_bind, safe_value. intros index Hi%ownership_index _. destruct (currentAt _ _); [by apply safe_ret|].
  cbv zeta. apply safe_bind, safe_post.
  - eapply allow_profile; [exact Hs|]. destruct index as [i|]; [|by apply edit_append].
    destruct Hi as (l1 & a & l2 & -> & <- & Hn & Ha & HF). rewrite insert_app_r_alt by lia.
    rewrite Nat.sub_diag. cbn [insert list_insert]. apply (edit_at l1 a l2 [_]); auto.
  - intros t2 _ _. apply safe_bind. eapply safe_mono; [apply safe_userProfile|]. intros [p' a'] t3 _ _ _. cbn [fst snd].
    apply safe_bind, safe_value. intros index' _ _. by apply safe_guard.
Qed.

Lemma safe_cleanupProfile t : safe policy (cleanupOwnershipProfileAttribute k) t (fun _ _ => True).
Proof.
  apply safe_bind. eapply safe_mono; [apply safe_userProfile|]. intros [profile attributes] t1 _ Hs _. cbn [fst snd] in *.
  cbv zeta. apply safe_bind, safe_value. intros [i|] Hi%ownership_index _; [|by apply safe_ret].
  destruct Hi as (l1 & a & l2 & -> & <- & Hn & Ha & HF). apply safe_post; [|done].
  eapply allow_profile; [exact Hs|]. rewrite delete_middle. apply (edit_at l1 a l2 []); auto.
Qed.

(** *** Objects *)

Lemma safe_upsert c query field name body t :
  (forall t, parentOwned c t) -> carriesMarker body = true ->
  safe policy (upsert k c query field name body) t (ownedObject c).
Proof.
  intros Hc Hb. apply safe_bind, safe_value. intros [cp paginated] Hpath _. cbn [fst].
  apply safe_bind. eapply safe_mono; [apply safe_listObjects|]. intros found t1 _ Hf _.
  apply safe_bind, safe_value. intros [cur ex] Hex _. cbn [fst snd]. apply safe_bind, safe_guard. intros Hr _.
  apply safe_bind.
  assert (forall o t', ownedObject c (ID o) t' ->
    safe policy (send (client k) "PUT" (admin k (cp +:+ "/" +:+ PathEscape (ID o))) (Some (JObj body));; mret (ID o)) t'
      (ownedObject c)) as Hput.
  { intros o t' Ho. apply safe_bind, safe_post; [by eapply allow_update|]. intros t'' Hp _.
    apply safe_ret. by eapply ownedObject_grow. }
  assert (forall found o t', allSeen c found t' -> exact found field name = Ok (o, true) -> objectMarked o = true ->
    ownedObject c (ID o) t') as Hown.
  { intros l o t' Hl He Hm. exists o. split_and!; [|done|done]. apply exact_Ok in He; [|done].
    exact (proj1 (Forall_forall (fun o => sawObject c o t') l) Hl o He). }
  destruct ex.
  - apply safe_ret. intros _. apply Hput. eapply Hown; [exact Hf|exact Hex|].
    by apply negb_true_iff, negb_false_iff in Hr.
  - apply safe_bind, safe_post.
    { eapply allow_create; [exact Hpath|apply Hc|done]. }
    intros t2 _ _. apply safe_bind. eapply safe_mono; [apply safe_listObjects|]. intros found' t3 _ Hf' _.
    apply safe_bind, safe_value. intros [o ex] He _. cbn [fst snd]. apply safe_bind, safe_guard.
    intros [-> Hm]%andb_prop _. apply safe_ret. intros _. apply Hput. by eapply Hown.
Qed.

Lemma obj_get_insert_ne {A} key key' (v : A) l : key <> key' -> obj_get key (obj_insert key' v l) = obj_get key l.
Proof.
  intros Hne%String.eqb_neq. induction l as [|[k' v'] l IH]; cbn [obj_insert obj_get]; [by rewrite Hne|].
  destruct (String.eqb key' k') eqn:H1.
  - apply String.eqb_eq in H1 as <-. cbn [obj_get]. by rewrite Hne.
  - destruct (String.ltb key' k'); cbn [obj_get]; [by rewrite Hne|]. by rewrite IH.
Qed.

Lemma carriesMarker_id body v : carriesMarker body = true -> carriesMarker (obj_insert "id" v body) = true.
Proof. unfold carriesMarker. by rewrite !obj_get_insert_ne. Qed.

Lemma safe_upsertMapper c name conflict body t :
  parentOwned c t -> (forall t', t `prefix_of` t' -> parentOwned c t') -> carriesMarker body = true ->
  safe policy (upsertMapper k c name conflict body) t (fun _ _ => True).
Proof.
  intros Ht Hc Hb. apply safe_bind, safe_value. intros [cp paginated] Hpath _. cbn [fst].
  apply safe_bind. eapply safe_mono; [apply safe_listObjects|]. intros found t1 Hp1 Hf _.
  apply safe_bind, safe_value. intros [cur ex] Hex _. cbn [fst snd]. destruct ex; simpl.
  - destruct (objectMarked cur) eqn:Hm; simpl; [|apply safe_fail]. apply safe_post; [|done].
    eapply allow_update; [exact Hpath| |by apply carriesMarker_id]. exists cur. split_and!; [|done|done].
    apply exact_Ok in Hex; [|done]. exact (proj1 (Forall_forall (fun o => sawObject c o t1) found) Hf cur Hex).
  - apply safe_post; [|done]. eapply allow_create; [exact Hpath|by apply Hc|done].
Qed.

Lemma parentOwned_grow c t t' : parentOwned c t -> t `prefix_of` t' -> parentOwned c t'.
Proof. destruct c; simpl; try done; intros; by eapply ownedObject_grow. Qed.

Lemma safe_mapper c name conflict body t :
  parentOwned c t -> carriesMarker body = true ->
  safe policy (upsertMapper k c name conflict body) t (fun _ _ => True).
Proof. intros Hc Hb. apply safe_upsertMapper; [done| |done]. intros t' Hp. by eapply parentOwned_grow. Qed.

Hypothesis keeps_mappers : forall id, keep (clientProtocolMappers id) = ∅.

Lemma safe_deleteAudienceMapper id audience t :
  safe policy (deleteAudienceMapper k id audience) t (fun _ _ => True).
Proof.
  apply safe_bind, safe_value. intros [cp paginated] Hpath _. apply safe_bind.
  eapply safe_mono; [apply safe_listObjects|]. intros found t1 _ Hf _. cbv zeta.
  apply safe_bind, safe_value. intros [cur ex] Hex _. cbn [fst snd]. destruct ex; simpl; [|by apply safe_ret].
  destruct (objectMarked cur) eqn:Hm; simpl; [|apply safe_fail]. apply safe_post; [|done].
  eapply allow_delete; [exact Hpath| |done|rewrite keeps_mappers; set_solver].
  apply exact_Ok in Hex; [|done].
  exact (proj1 (Forall_forall (fun o => sawObject _ o t1) found) Hf cur Hex).
Qed.

Lemma safe_authority userID role password t :
  ownedObject realmUsers userID t ->
  safe policy (reconcileAdministratorAuthority k userID role password) t (fun _ _ => True).
Proof.
  intros Hu. apply safe_bind, safe_bind, safe_wrapped, safe_get. intros r t1 Hp1 _ _.
  apply safe_wrapped, safe_post; [eapply allow_role, ownedObject_grow; [exact Hu|done]|].
  intros t2 Hp2 _. apply safe_wrapped, safe_post; [|done]. eapply allow_password, ownedObject_grow; [exact Hu|by etrans].
Qed.

Lemma safe_defaultScopeIDs names id name t :
  names <> [] \/ (forall t', t `prefix_of` t' -> policy t' None) ->
  safe policy (defaultScopeIDs k names id name) t (fun _ _ => True).
Proof.
  intros Hne. apply safe_bind. eapply safe_mono; [apply safe_listObjects|]. intros scopes t1 Hp1 _ _.
  apply safe_bind, safe_value. intros byName _ _. destruct names; [|by apply safe_value].
  destruct Hne as [?|Hpan]; [done|]. by apply Hpan.
Qed.

Lemma clientBody_marks desired secrets body :
  keycloakClientBody desired secrets = Ok body -> carriesMarker body = true.
Proof.
  unfold keycloakClientBody. destruct (String.eqb (Kind desired) _).
  - destruct (String.eqb _ ""); [done|]. intros [= <-]. done.
  - intros [= <-]. done.
Qed.

Lemma safe_reconcileClient scopeIDs desired secrets t :
  safe policy (reconcileClient k scopeIDs desired secrets) t (fun _ _ => True).
Proof.
  apply safe_bind, safe_value. intros body Hb%clientBody_marks _. apply safe_bind.
  eapply safe_mono; [by apply safe_upsert|]. intros clientID t1 _ Hc _. apply safe_bind, safe_for_each.
  - intros scopeID t2 _ Hp. apply safe_wrapped, safe_post; [|done].
    eapply allow_default_scope, ownedObject_grow; [exact Hc|done].
  - intros t2 Hp2 _. destruct (Audience desired); [|apply safe_deleteAudienceMapper].
    apply safe_mapper; [|done]. by eapply ownedObject_grow.
Qed.

(** *** Pruning *)

Lemma wpt_pruneItems c cp paginated field found t :
  path c = Ok (cp, paginated) -> allSeen c found t ->
  (forall o, fieldOf field o ∉ keep c -> fieldOf (fieldFor c) o ∉ keep c) ->
  wpt policy (pruneItems k cp field (keep c) found) t (fun _ _ => True).
Proof.
  intros Hpath Hf Hfield. revert t Hf. induction found as [|o found IH]; intros t Hf; [done|].
  apply Forall_cons in Hf as [Ho Hf]. simpl. destruct (negb (objectMarked o)) eqn:Hm; [by apply IH|].
  case_bool_decide as Hk; [by apply IH|]. apply wpt_bind. eapply wpt_mono; [apply safe_post with (Q := fun _ _ => True)|].
  - eapply allow_delete; [exact Hpath|exact Ho|by apply negb_false_iff|by apply Hfield].
  - done.
  - intros r t1 Hp1 _. apply wpt_bind. eapply wpt_mono; [apply IH; by eapply allSeen_grow|]. done.
Qed.

Lemma safe_pruneCollection c field t :
  (forall o, fieldOf field o ∉ keep c -> fieldOf (fieldFor c) o ∉ keep c) ->
  safe policy (pruneCollection k c field (keep c)) t (fun _ _ => True).
Proof.
  intros Hfield. apply safe_bind, safe_value. intros [cp paginated] Hpath _. apply safe_bind.
  eapply safe_mono; [apply safe_listObjects|]. intros found t1 _ Hf _. apply wpt_bind.
  eapply wpt_mono; [by eapply wpt_pruneItems|]. intros errs t2 _ _. unfold joined. by destruct errs.
Qed.
End Steps.

Lemma safe_keycloak_Cleanup policy t :
  (forall t r, keycloak_allowed keepNothing t r -> policy t (Some (Do r))) -> (forall t, policy t (Some CtxErr)) ->
  safe policy (Cleanup k) t (fun _ _ => True).
Proof.
  intros Hpol Hctx. apply wpt_bind.
  assert (forall cs t, wpt policy (cleanupCollections k cs) t (fun _ _ => True)) as Hcs.
  { clear t. induction cs as [|c cs IH]; intros t; [done|]. simpl. apply wpt_bind.
    eapply wpt_mono; [apply (safe_pruneCollection policy keepNothing Hpol Hctx c ""); done|].
    intros r t1 _ _. apply wpt_bind. eapply wpt_mono; [apply IH|]. done. }
  eapply wpt_mono; [apply Hcs|]. intros errs t1 _ _. destruct (_ =? 0)%nat; [|by unfold joined; destruct errs].
  apply wpt_bind. eapply wpt_mono; [by apply (safe_cleanupProfile policy keepNothing)|]. by intros [] t2 _ _.
Qed.

Lemma safe_keycloak_prune policy intent t :
  (forall t r, keycloak_allowed (declared intent) t r -> policy t (Some (Do r))) -> (forall t, policy t (Some CtxErr)) ->
  safe policy (prune k intent) t (fun _ _ => True).
Proof.
  intros Hpol Hctx. pose proof (safe_pruneCollection policy (declared intent) Hpol Hctx) as H.
  apply safe_bind, safe_wrapped. eapply safe_mono; [by apply (H realmClients)|]. intros _ t1 _ _ _.
  apply safe_bind, safe_wrapped. eapply safe_mono; [by apply (H realmUsers)|]. intros _ t2 _ _ _.
  apply safe_bind, safe_wrapped. eapply safe_mono; [by apply (H realmGroups)|]. intros _ t3 _ _ _.
  by apply safe_wrapped, (H realmClientScopes).
Qed.

Lemma safe_keycloak_Reconcile policy domain intent secrets t :
  (forall t r, keycloak_allowed (declared intent) t r -> policy t (Some (Do r))) -> (forall t, policy t (Some CtxErr)) ->
  Scopes intent <> [] \/ (forall t', t `prefix_of` t' -> policy t' None) ->
  safe policy (Reconcile k domain intent secrets) t (fun _ _ => True).
Proof.
  intros Hpol Hctx Hne. apply safe_bind, safe_wrapped.
  eapply safe_mono; [by apply (safe_reconcileProfile policy (declared intent))|]. intros _ t1 Hp1 _ _.
  apply safe_bind, safe_wrapped. eapply safe_mono; [by apply (safe_upsert policy (declared intent))|].
  intros userID t2 Hp2 Hu _. apply safe_bind.
  eapply safe_mono; [by apply (safe_authority policy (declared intent))|]. intros _ t3 Hp3 _ _.
  apply safe_bind, safe_wrapped. eapply safe_mono; [by apply (safe_upsert policy (declared intent))|].
  intros groupID t4 Hp4 Hg _. apply safe_bind, safe_wrapped, (safe_post policy (declared intent) Hpol).
  { apply allow_membership; [|done]. eapply ownedObject_grow; [exact Hu|by etrans]. }
  intros t5 Hp5 _. apply safe_bind, safe_wrapped.
  eapply safe_mono; [by apply (safe_upsert policy (declared intent))|]. intros scopeID t6 Hp6 Hs _.
  apply safe_bind. eapply safe_mono; [by apply (safe_mapper policy (declared intent))|]. intros _ t7 Hp7 _ _.
  apply safe_bind. eapply safe_mono; [apply (safe_defaultScopeIDs policy (declared intent) Hpol Hctx)|].
  { destruct Hne as [?|Hpan]; [by left|right]. intros t' Hp'. apply Hpan. repeat (etrans; [eassumption|]). done. }
  intros scopeIDs t8 _ _ _. apply safe_bind, safe_for_each.
  - intros desired t9 _ _. by apply safe_wrapped, (safe_reconcileClient policy (declared intent)).
  - intros t9 _ _. by apply safe_keycloak_prune.
Qed.
End Policy.

(** ** Pagination *)

Lemma terminated_inj a b x y : IndexByte a "000" = None -> IndexByte b "000" = None ->
  a +:+ String "000" x = b +:+ String "000" y -> a = b /\ x = y.
Proof.
  revert b. induction a as [|c a IH]; intros [|d b]; cbn [IndexByte String.append]; intros Ha Hb H.
  - by simplify_eq.
  - injection H as <- _. done.
  - injection H as -> _. done.
  - injection H as -> H. destruct (Ascii.eqb d "000"); [done|].
    destruct (IndexByte a "000") eqn:Ea; [done|]. destruct (IndexByte b "000") eqn:Eb; [done|].
    destruct (IH b eq_refl Eb H) as [-> ->]. done.
Qed.

(** The identity is not empty and holds no NUL. *)
Definition identityOk (o : keycloakObject) : Prop := ID o <> "" /\ IndexByte (ID o) "000" = None.

Lemma signature_inj l l' : Forall identityOk l -> Forall identityOk l' ->
  keycloakPageSignature l = keycloakPageSignature l' -> ID <$> l = ID <$> l'.
Proof.
  intros H. revert l'. induction H as [|o l [_ Ho] _ IH]; intros [|o' l'] H'; cbn [keycloakPageSignature]; [done| | |].
  - destruct (ID o'); done.
  - destruct (ID o); done.
  - apply Forall_cons in H' as [[_ Ho'] H']. intros [Hid Hs]%terminated_inj; [|done|done].
    rewrite !fmap_cons, Hid. f_equal. by apply IH.
Qed.

Lemma identities_accepted {LI : Libraries} cp index page seen :
  Forall identityOk page -> NoDup (ID <$> page) -> (forall o, o ∈ page -> ID o ∉ seen) ->
  exists seen', identitiesFrom cp index page seen = Ok seen' /\
    forall x, x ∈ seen' <-> x ∈ seen \/ x ∈ ID <$> page.
Proof.
  intros Hok. revert index seen. induction Hok as [|o page [Hne _] _ IH]; intros index seen Hnd Hseen; simpl.
  { exists seen. split; [done|]. set_solver. }
  apply String.eqb_neq in Hne. rewrite Hne. rewrite bool_decide_eq_false_2 by (apply Hseen; by left).
  rewrite fmap_cons in Hnd. apply NoDup_cons in Hnd as [Hnin Hnd].
  destruct (IH (S index) ({[ID o]} ∪ seen) Hnd) as (seen' & -> & Hs).
  - intros o' Ho'. apply not_elem_of_union. split; [|apply Hseen; by right].
    apply not_elem_of_singleton. intros Heq. apply Hnin. rewrite <- Heq. by apply list_elem_of_fmap_2.
  - exists seen'. split; [done|]. intros x. rewrite Hs. set_solver.
Qed.

Section Pages.
Context {LI : Libraries} {W : Type}.
Variables (h : handler W) (k : Keycloak) (cp : string) (flt : Values) (objs : list keycloakObject).

Definition pageAt (i : nat) : list keycloakObject := take 100 (drop (100 * i) objs).

(** The server answers the window of every page with the objects in it. *)
Definition servesPages : Prop :=
  (forall w, (h CtxErr w).1 = None) /\
  forall (i : nat) w, let url := pageQuery k cp flt (Z.of_nat (100 * i)) in
    (exists u, Parse (baseURL (client k) +:+ url) = Some u) /\
    decoded "GET" url decodeObjects [] [] (h (Do (jsonRequest (client k) "GET" url None)) w).1 = Ok (pageAt i).

Definition atPage (i : nat) (s : pages) : Prop :=
  items s = take (100 * i) objs /\ offset s = Z.of_nat (100 * i) /\
  (forall x, x ∈ seenIDs s -> x ∈ ID <$> take (100 * i) objs) /\
  (forall x, x ∈ seenPages s -> exists j, (j < i)%nat /\ x = keycloakPageSignature (pageAt j)).

Hypothesis serves : servesPages.
Hypothesis objs_ok : Forall identityOk objs.
Hypothesis objs_distinct : NoDup (ID <$> objs).
Hypothesis objs_bound : (Z.of_nat (length objs) <= maxInt)%Z.

Lemma split_at i : objs = take (100 * i) objs ++ pageAt i ++ drop (100 * S i) objs.
Proof.
  unfold pageAt. rewrite <- (take_drop (100 * i) objs) at 1. f_equal.
  rewrite <- (take_drop 100 (drop (100 * i) objs)) at 1. f_equal. rewrite drop_drop. f_equal. lia.
Qed.

Lemma take_next i : take (100 * i) objs ++ pageAt i = take (100 * S i) objs.
Proof.
  unfold pageAt. replace (100 * S i)%nat with (100 * i + 100)%nat by lia. apply take_take_drop.
Qed.

Lemma page_in i o : o ∈ pageAt i -> o ∈ objs.
Proof. intros H. rewrite (split_at i). apply elem_of_app. right. apply elem_of_app. by left. Qed.

Lemma page_sub i : Forall identityOk (pageAt i) /\ NoDup (ID <$> pageAt i) /\
  forall o, o ∈ pageAt i -> ID o ∉ ID <$> take (100 * i) objs.
Proof.
  pose proof objs_ok as Hok. pose proof objs_distinct as Hnd. rewrite (split_at i) in Hok, Hnd.
  rewrite !fmap_app in Hnd. apply Forall_app in Hok as [_ [Hok _]%Forall_app].
  apply NoDup_app in Hnd as (_ & Hd & [Hnd _]%NoDup_app). split_and!; [done|done|].
  intros o Ho Hin. apply (Hd _ Hin), elem_of_app. left. by apply list_elem_of_fmap_2.
Qed.

(** Different full pages have different signatures. *)
Lemma signature_fresh i j : (j < i)%nat -> pageAt i <> [] ->
  keycloakPageSignature (pageAt i) <> keycloakPageSignature (pageAt j).
Proof.
  intros Hlt Hne Heq. destruct (page_sub i) as (Hi & _ & Hfresh), (page_sub j) as (Hj & _).
  apply signature_inj in Heq; [|done|done]. destruct (pageAt i) as [|o page] eqn:Hp; [done|].
  apply (Hfresh o); [by left|].
  assert (ID o ∈ ID <$> pageAt j) as Hin by (rewrite <- Heq; by left).
  apply list_elem_of_fmap in Hin as (o' & -> & Ho'). apply list_elem_of_fmap_2.
  unfold pageAt in Ho'. rewrite take_drop_commute in Ho'.
  assert (o' ∈ take (100 * j + 100) objs) as Ht.
  { rewrite <- (take_drop (100 * j) (take _ objs)). apply elem_of_app. by right. }
  replace (100 * i)%nat with (100 * j + 100 + (100 * i - (100 * j + 100)))%nat by lia.
  rewrite <- take_take_drop. apply elem_of_app. by left.
Qed.
Lemma exec_nextPage i s w t : atPage i s -> (100 * i <= length objs)%nat ->
  exists x t' w', exec h (nextPage k cp flt s) w t = (Some (Ok x), t', w') /\
    match x with inl s' => atPage (S i) s' /\ (100 * S i <= length objs)%nat | inr l => l = objs end.
Proof.
  intros (Hit & Hoff & Hids & Hpgs) Hle. destruct serves as [Hctx Hserve].
  destruct (Hserve i (h CtxErr w).2) as [[u Hu] Hd]. rewrite <- Hoff in Hu, Hd. unfold nextPage. cbn [bind call exec]. destruct (h CtxErr w) as [ctx w1] eqn:Hc.
  specialize (Hctx w). rewrite Hc in Hctx. cbn [fst snd] in *. subst ctx. unfold mbind, M_bind.
  unfold JSON. rewrite Hu. cbn [bind call exec]. fold (jsonRequest (client k) "GET" (pageQuery k cp flt (offset s)) None).
  destruct (h (Do _) w1) as [r w2] eqn:Hr. cbn [fst] in Hd. fold (decoded "GET" (pageQuery k cp flt (offset s)) decodeObjects [] [] r).
  rewrite Hd. cbv zeta. destruct (page_sub i) as (Hok & Hnd & Hfresh).
  assert (length (pageAt i) <= 100)%nat as Hmax by (unfold pageAt; rewrite length_take; lia).
  assert (length (pageAt i) = 100 \/ take (100 * S i) objs = objs)%nat as Hfull.
  { destruct (decide (length objs <= 100 * S i)%nat); [right; by apply take_ge|left].
    unfold pageAt. rewrite length_take, length_drop. lia. }
  destruct (Z.of_nat (length (pageAt i)) =? 0)%Z eqn:H0.
  { eexists (inr _), _, _. split; [reflexivity|]. rewrite Hit. apply Z.eqb_eq in H0.
    destruct Hfull as [?|Hfull]; [lia|]. rewrite <- take_next in Hfull.
    destruct (pageAt i); [by rewrite app_nil_r in Hfull|done]. }
  replace (keycloakPageSize <? Z.of_nat (length (pageAt i)))%Z with false by (symmetry; apply Z.ltb_ge; unfold keycloakPageSize; lia).
  assert (bool_decide (keycloakPageSignature (pageAt i) ∈ seenPages s) = false) as ->.
  { apply bool_decide_eq_false. intros (j & Hj & Heq)%Hpgs. apply (signature_fresh i j Hj); [|done].
    intros Hnil. rewrite Hnil in H0. done. }
  rewrite andb_false_r. unfold validateKeycloakIdentities, lift.
  destruct (identities_accepted cp 0 (pageAt i) (seenIDs s) Hok Hnd) as (ids & -> & Hids').
  { intros o Ho Hin. by apply (Hfresh o Ho), Hids. }
  cbn [bind]. destruct (_ <? keycloakPageSize)%Z eqn:H1.
  { eexists (inr _), _, _. split; [reflexivity|]. rewrite Hit, take_next. apply Z.ltb_lt in H1. unfold keycloakPageSize in H1.
    destruct Hfull; [lia|done]. }
  apply Z.ltb_ge in H1. unfold keycloakPageSize in H1. assert (length (pageAt i) = 100)%nat as Hlen by lia.
  assert (100 * S i <= length objs)%nat as Hle'.
  { unfold pageAt in Hlen. rewrite length_take, length_drop in Hlen. lia. }
  replace (maxInt - offset s <? Z.of_nat (length (pageAt i)))%Z with false by (symmetry; apply Z.ltb_ge; lia).
  replace (offset s + Z.of_nat (length (pageAt i)) <=? offset s)%Z with false by (symmetry; apply Z.leb_gt; lia).
  eexists (inl _), _, _. split; [reflexivity|]. split; [|done]. rewrite Hlen. unfold atPage. cbn [items offset seenIDs seenPages].
  split_and!.
  - by rewrite Hit, take_next.
  - lia.
  - intros x Hx. rewrite <- take_next, fmap_app. apply elem_of_app. apply Hids' in Hx as [Hx|Hx]; [left; by apply Hids|by right].
  - intros x [Hx|Hx]%elem_of_union; [exists i; apply elem_of_singleton in Hx; split; [lia|done]|].
    destruct (Hpgs x Hx) as (j & Hj & ->). exists j. split; [lia|done].
Qed.

Lemma exec_rounds n i s w t : atPage i s -> (100 * i <= length objs)%nat ->
  exists x t' w', exec h (rounds n (nextPage k cp flt) s) w t = (Some (Ok x), t', w') /\
    match x with
    | inl s' => exists j, (Z.of_nat i + 2 ^ Z.of_nat n <= Z.of_nat j)%Z /\ atPage j s' /\ (100 * j <= length objs)%nat
    | inr l => l = objs
    end.
Proof.
  revert i s w t. induction n as [|n IH]; intros i s w t Hs Hle.
  - destruct (exec_nextPage i s w t Hs Hle) as ([s'|l] & t' & w' & He & Hx); eexists _, t', w'; (split; [exact He|]); [|done].
    exists (S i). destruct Hx. split_and!; [cbn; lia|done|done].
  - cbn [rounds]. unfold mbind, M_bind. rewrite exec_bind.
    destruct (IH i s w t Hs Hle) as ([s'|l] & t' & w' & -> & Hx); [|by eexists _, t', w'].
    destruct Hx as (j & Hj & Hs' & Hle'). destruct (IH j s' w' t' Hs' Hle') as (x & t'' & w'' & -> & Hx).
    eexists x, t'', w''. split; [done|]. destruct x as [s''|]; [|done]. destruct Hx as (j' & Hj' & ? & ?).
    exists j'. split_and!; [|done|done]. rewrite Nat2Z.inj_succ, Z.pow_succ_r by lia. lia.
Qed.
End Pages.

(** Pagination is complete: when the server answers every window of a
    collection with the objects in it, their identities being distinct, not
    empty and free of NUL, the listing is the collection, every object once
    and in order, whatever the number of pages. *)
Theorem pagination_complete {LI : Libraries} {W} (h : handler W) k cp flt objs w t :
  servesPages h k cp flt objs -> Forall identityOk objs -> NoDup (ID <$> objs) ->
  (Z.of_nat (length objs) <= maxInt)%Z ->
  exists t' w', exec h (paginatedList k cp flt) w t = (Some (Ok objs), t', w').
Proof.
  intros Hserve Hok Hnd Hmax. unfold paginatedList, mbind, M_bind. rewrite exec_bind.
  destruct (exec_rounds h k cp flt objs Hserve Hok Hnd Hmax 57 0
              {| items := []; seenIDs := ∅; seenPages := ∅; offset := 0 |} w t) as ([s|l] & t' & w' & -> & Hx).
  - split_and!; [done|done| |]; intros x Hx; by apply elem_of_empty in Hx.
  - lia.
  - destruct Hx as (j & Hj & _ & Hle). exfalso. unfold maxInt in Hmax.
    change (Z.of_nat 0 + 2 ^ Z.of_nat 57)%Z with 144115188075855872%Z in Hj.
    change (2 ^ 63 - 1)%Z with 9223372036854775807%Z in Hmax. lia.
  - subst l. by eexists t', w'.
Qed.

(** C35. Custody of the realm.  Whatever Keycloak answers, a reconciliation
    (of a declaration with scopes) and a cleanup run to an end without a
    panic, and every request is one of [keycloak_allowed]: what is created
    carries the ownership marker; only objects that a listing of this run
    showed with the marker are updated, extended or deleted; no declared name
    is pruned; and the user profile changes in its ownership attribute only. *)
Theorem keycloak_custody {LI : Libraries} {W} (h : handler W) (k : Keycloak) domain intent secrets w :
  Scopes intent <> [] ->
  (exists r s w', exec h (Reconcile k domain intent secrets) w [] = (Some r, s, w') /\
     obeys (keycloak_policy k (declared intent)) [] s) /\
  (exists r s w', exec h (Cleanup k) w [] = (Some r, s, w') /\ obeys (keycloak_policy k keepNothing) [] s).
Proof.
  intros Hne. split.
  - destruct (wpt_exec (keycloak_policy k (declared intent)) h (Reconcile k domain intent secrets) w []
                _ (safe_keycloak_Reconcile k (keycloak_policy k (declared intent)) domain intent secrets [] ltac:(done) ltac:(done) (or_introl Hne)))
      as ([r|] & s & w' & He & Ho & Hr); [by eauto|destruct Hr].
  - destruct (wpt_exec (keycloak_policy k keepNothing) h (Cleanup k) w []
                _ (safe_keycloak_Cleanup k (keycloak_policy k keepNothing) [] ltac:(done) ltac:(done))) as ([r|] & s & w' & He & Ho & Hr); [by eauto|destruct Hr].
Qed.

(** ** Concrete runs *)

(** A declaration as the platform has it *)
Definition intent0 : KeycloakIntent :=
  {| Realm := "master"; KAdministrator := {| Username := "atum-admin"; Group := "atum-admins"; RealmRole := "admin" |};
     KGroupsScope := {| ClaimName := "groups" |}; Scopes := ["openid"; "profile"; "email"; "groups"];
     Clients := [{| KID := "vault"; Kind := ClientConfidential; RedirectURIs := ["https://vault.example.com/cb"];
                    WebOrigins := None; Audience := false |}] |}.
Definition keycloak0 : Keycloak :=
  {| client := {| baseURL := "https://keycloak.example.com/auth"; auth := keycloakBearer "t" |}; realm := "master" |}.
(** Every collection is empty, the profile has no attributes. *)
Definition emptyRealm (r : request) : response :=
  Ok (200%Z, Ok (if HasSuffix (r_path r) "/users/profile"
                 then "{" +:+ dquote +:+ "attributes" +:+ dquote +:+ ":[]}" else "[]")).

Lemma keycloak_custody_witness :
  (exists r s w', exec (serving emptyRealm) (Reconcile (LI := plainLibraries) keycloak0 "example.com" intent0 ∅) tt [] = (Some r, s, w') /\
     obeys (keycloak_policy keycloak0 (declared intent0)) [] s) /\
  (exists r s w', exec (serving emptyRealm) (Cleanup (LI := plainLibraries) keycloak0) tt [] = (Some r, s, w') /\
     obeys (keycloak_policy keycloak0 keepNothing) [] s).
Proof. apply (keycloak_custody (LI := plainLibraries) (serving emptyRealm) keycloak0 "example.com" intent0 ∅ tt). done. Defined.

(** A collection of 101 clients, on two pages *)
Definition object0 (i : nat) : keycloakObject :=
  {| ID := "c" +:+ Itoa (Z.of_nat i); Name := ""; OUsername := ""; ClientID := ""; Attributes := []; Config := [] |}.
Definition objects0 : list keycloakObject := Eval vm_compute in object0 <$> seq 0 101.
Definition text0 (l : list keycloakObject) : string :=
  "[" +:+ Join ((fun o => "{" +:+ dquote +:+ "id" +:+ dquote +:+ ":" +:+ dquote +:+ ID o +:+ dquote +:+ "}") <$> l) "," +:+ "]".

(** The server reads the offset back from the query. *)
Definition first0 : string := "/admin/realms/master/clients?first=".
Definition offset0 (path : string) : Z :=
  default 0%Z (s ← QueryUnescape (TrimSuffix (TrimPrefix path first0) "&max=100"); parse_digits s 0).
Definition pages0 (r : request) : response :=
  let off := Z.to_nat (offset0 (r_path r)) in Ok (200%Z, Ok (text0 (take 100 (drop off objects0)))).

Lemma pageQuery0 off :
  pageQuery keycloak0 "/clients" ∅ off = first0 +:+ QueryEscape (Itoa off) +:+ "&max=100".
Proof. unfold pageQuery. generalize (Itoa off). intros s. vm_compute. reflexivity. Qed.

Lemma offset0_ok i : offset0 (pageQuery keycloak0 "/clients" ∅ (Z.of_nat i)) = Z.of_nat i.
Proof.
  rewrite pageQuery0. unfold offset0. rewrite TrimPrefix_append, TrimSuffix_append, QueryUnescape_Escape.
  cbn [mbind option_bind]. unfold Itoa. replace (Z.of_nat i <? 0)%Z with false by (symmetry; apply Z.ltb_ge; lia).
  rewrite parse_ItoaN. simpl. lia.
Qed.

Lemma received0 path data : (String.length data <= 2000)%nat ->
  decoded "GET" path decodeObjects [] [] (Ok (200%Z, Ok data)) =
  (if String.eqb data "" then Ok [] else unmarshal "GET" path decodeObjects [] data).
Proof.
  intros Hl. unfold decoded, receive. replace (maxResponseBytes <? N.of_nat (String.length data))%N with false; [done|].
  symmetry. apply N.ltb_ge. unfold maxResponseBytes. lia.
Qed.

Definition parsed0 (i : nat) : option (list keycloakObject) :=
  v ← parse_document (text0 (take 100 (drop (100 * i) objects0))); decodeObjects v [].

Lemma decoded0 path i : (i < 2)%nat ->
  decoded "GET" path decodeObjects [] [] (Ok (200%Z, Ok (text0 (take 100 (drop (100 * i) objects0)))))
  = Ok (pageAt objects0 i).
Proof.
  intros Hi. assert (parsed0 i = Some (pageAt objects0 i)) as Hp.
  { destruct i as [|[|i]]; [vm_compute; reflexivity|vm_compute; reflexivity|lia]. }
  assert (String.length (text0 (take 100 (drop (100 * i) objects0))) <= 2000)%nat as Hl.
  { destruct i as [|[|i]]; [apply Nat.leb_le; vm_compute; reflexivity|apply Nat.leb_le; vm_compute; reflexivity|lia]. }
  rewrite received0 by done. unfold unmarshal. fold (parsed0 i). rewrite Hp.
  by destruct i as [|[|i]]; [| |lia].
Qed.

Lemma servesPages0 : servesPages (LI := plainLibraries) (serving pages0) keycloak0 "/clients" ∅ objects0.
Proof.
  split; [done|]. intros i []. cbv zeta. split; [eexists; rewrite pageQuery0; cbn; reflexivity|].
  cbn [serving fst]. unfold pages0. cbn [jsonRequest r_path]. rewrite offset0_ok, Nat2Z.id.
  destruct (decide (i < 2)%nat) as [Hi|Hi]; [by apply decoded0|].
  unfold pageAt. rewrite !(drop_ge objects0) by (vm_compute (length objects0); lia). done.
Qed.

Lemma objects0_ok : Forall identityOk objects0 /\ NoDup (ID <$> objects0).
Proof.
  split.
  - apply Forall_forall. intros o Ho.
    assert (forallb (fun o => negb (String.eqb (ID o) "") && bool_decide (IndexByte (ID o) "000" = None)) objects0 = true) as H
      by (vm_compute; reflexivity).
    rewrite forallb_forall in H. specialize (H o ltac:(by apply list_elem_of_In)).
    apply andb_prop in H as [H1%negb_true_iff H2%bool_decide_eq_true]. split; [by apply String.eqb_neq|done].
  - apply (bool_decide_unpack _). vm_compute. exact I.
Qed.

Lemma pagination_complete_witness :
  exists t' w', exec (serving pages0) (paginatedList (LI := plainLibraries) keycloak0 "/clients" ∅) tt [] = (Some (Ok objects0), t', w').
Proof.
  apply (pagination_complete (LI := plainLibraries) (serving pages0) keycloak0 "/clients" ∅ objects0 tt []).
  - exact servesPages0.
  - exact (proj1 objects0_ok).
  - exact (proj2 objects0_ok).
  - vm_compute. discriminate.
Defined.
End KeycloakTheorems.
