(* ===== verification/OperatorTheorems.v ===== *)
(** What the controller of the identity operator promises: which calls it
    makes and what entitles it to them, the status it writes, and when it
    lets a deleted declaration go. *)
From stdpp Require Import prelude gmap strings list.
From Stdlib Require Import Ascii ZArith Lia.
From S2P Require Import Prelude GoStrings Utf8 Json NetUrl IdentityApi Provider Vault Keycloak Operator ProviderLogic VaultTheorems KeycloakTheorems.

Module OperatorTheorems.
Import Utf8 Json NetUrl IdentityApi Provider Operator ProviderLogic.

Section Policy.
Context {LI : Libraries} {CR : ControllerRuntime}.

(** ** What the answers so far show *)

Definition readObject (o : PlatformIdentityConfiguration) (t : trace) : Prop := ev GetObject (Ok o) ∈ t.
Definition readKey (namespace name key value : string) (t : trace) : Prop :=
  value <> "" /\ exists data, ev (GetSecret namespace name) (Ok data) ∈ t /\ data !! key = Some value.

Definition keycloakBase (o : PlatformIdentityConfiguration) : string := TrimRightSlash (keycloakURL o).
Definition vaultBase (o : PlatformIdentityConfiguration) : string := TrimRightSlash (vaultURL o).

Definition loginRequest (o : PlatformIdentityConfiguration) (username password : string) : request :=
  {| r_base := keycloakBase o; r_auth := anonymous; r_method := "POST";
     r_path := "/realms/" +:+ PathEscape (Realm (SKeycloak (Spec o))) +:+ "/protocol/openid-connect/token";
     r_body := FormBody (list_to_map [("grant_type", ["password"]); ("client_id", ["admin-cli"]);
                                      ("username", [username]); ("password", [password])]) |}.

(** Keycloak answered a login with the token. *)
Definition loggedIn (o : PlatformIdentityConfiguration) (token : string) (t : trace) : Prop :=
  token <> "" /\ exists username password r, ev (Do (loginRequest o username password)) r ∈ t /\
    (data ← receive "POST" (r_path (loginRequest o username password)) [] r;
     unmarshal "POST" (r_path (loginRequest o username password)) Keycloak.token_ "" data) = Ok token.

Definition keycloakOf (o : PlatformIdentityConfiguration) (token : string) : Keycloak.Keycloak :=
  {| Keycloak.client := {| baseURL := keycloakBase o; auth := keycloakBearer token |};
     Keycloak.realm := Realm (SKeycloak (Spec o)) |}.
Definition vaultOf (o : PlatformIdentityConfiguration) (token : string) : Client :=
  {| baseURL := vaultBase o; auth := vaultToken token |}.

Definition keycloakKeeps (o : PlatformIdentityConfiguration) : KeycloakTheorems.keeps :=
  if Deleted o then KeycloakTheorems.keepNothing else KeycloakTheorems.declared (SKeycloak (Spec o)).
Definition vaultKeeps (o : PlatformIdentityConfiguration) : VaultTheorems.keeps :=
  if Deleted o then VaultTheorems.keepNothing else VaultTheorems.declared (SVault (Spec o)).

(** ** The calls the controller is entitled to *)

Inductive provider_allowed (o : PlatformIdentityConfiguration) (t : trace) : request -> Prop :=
  (** a login with a password of the credential Secret *)
  | provider_login username password key :
      readKey SingletonNamespace credentialSecretName key password t ->
      provider_allowed o t (loginRequest o username password)
  (** the token of a login goes to Keycloak only *)
  | provider_keycloak token r :
      loggedIn o token t -> KeycloakTheorems.keycloak_allowed (keycloakOf o token) (keycloakKeeps o) t r ->
      provider_allowed o t r
  (** the token of the Vault Secret goes to Vault only *)
  | provider_vault token r :
      readKey vaultTokenNamespace vaultTokenSecretName vaultTokenKey token t ->
      VaultTheorems.vault_allowed (vaultOf o token) (vaultKeeps o) t r ->
      provider_allowed o t r.

(** The reasons of the states the reconciliation records *)
Definition stateReasons : list string :=
  ["KeycloakReconciled"; "VaultReconciled"; "KeycloakCleanup"; "VaultCleanup"; "ProviderError"; "ProviderConflict";
   "InvalidIntent"; "ProviderTrustUnavailable"; "CredentialsUnavailable"; "VaultCredentialsUnavailable"; "DependencyNotReady"].
Definition known (state : providerState) : Prop := reason state ∈ stateReasons.

Lemma known_stateFor success err : success ∈ stateReasons -> known (stateFor success err).
Proof.
  intros H. destruct err as [e|]; [|exact H]. unfold known, stateFor. cbn [reason].
  destruct (IsTerminal e); by apply (bool_decide_eq_true_1 _).
Qed.

Ltac known_state := first
  [ apply known_stateFor; by apply (bool_decide_eq_true_1 _) | unfold known; cbn [reason]; by apply (bool_decide_eq_true_1 _) ].

Definition operator_policy : policy := fun t call =>
  match call with
  | Some GetObject | Some CtxErr | Some (Range _) => True
  | Some (GetSecret namespace name) => allowedSecret namespace name = true
  (** the finalizer is on the object that was read *)
  | Some (Do r) => exists o, readObject o t /\ finalizerName ∈ Finalizers o /\ provider_allowed o t r
  | Some (PatchFinalizers l) =>
      exists o, readObject o t /\
        l = (if Deleted o then RemoveFinalizer else AddFinalizer) (Finalizers o) finalizerName
  | Some (PatchStatus s) =>
      exists o keycloak vault, readObject o t /\ known keycloak /\ known vault /\
        s = nextStatus (Generation o) (Status o) keycloak vault
  (** a panic: a URI that does not parse, no scopes, or a negative count *)
  | None =>
      (exists o, readObject o t /\ (validateRuntime (Spec o) = None \/ Scopes (SKeycloak (Spec o)) = [])) \/
      (exists s s', ev (PatchStatus s) (Ok s') ∈ t /\ (FailureCount s' < 0)%Z)
  end.

Lemma elem_of_grow (e : event) (t t' : trace) : e ∈ t -> t `prefix_of` t' -> e ∈ t'.
Proof. intros H [s ->]. apply elem_of_app. by left. Qed.
Lemma readKey_grow ns name key value t t' : readKey ns name key value t -> t `prefix_of` t' -> readKey ns name key value t'.
Proof. intros (Hne & data & H & ?) Hp. split; [done|]. exists data. split; [by eapply elem_of_grow|done]. Qed.
Lemma loggedIn_grow o token t t' : loggedIn o token t -> t `prefix_of` t' -> loggedIn o token t'.
Proof. intros (Hne & u & p & r & H & ?) Hp. split; [done|]. exists u, p, r. split; [by eapply elem_of_grow|done]. Qed.
Lemma last_event (t : trace) e : e ∈ t ++ [e].
Proof. apply elem_of_app. right. by left. Qed.

(** ** The calls keep to the policy *)

Lemma safe_secret ns name t Q :
  allowedSecret ns name = true ->
  (forall data t', t `prefix_of` t' -> ev (GetSecret ns name) (Ok data) ∈ t' -> Q data t') ->
  safe operator_policy (secret ns name) t Q.
Proof.
  intros Ha HQ. unfold secret. rewrite Ha. cbn [negb]. split; [exact Ha|]. intros [data|e]; cbn [bind].
  - apply HQ; [by eexists|apply last_event].
  - apply safe_fail.
Qed.

Lemma safe_secretKey ns name key t :
  allowedSecret ns name = true ->
  safe operator_policy (secretKey ns name key) t (fun value t' => readKey ns name key value t').
Proof.
  intros Ha. apply safe_bind, safe_secret; [done|]. intros data t' _ Hd _. cbv zeta.
  destruct (String.eqb _ "") eqn:He; [apply safe_fail|]. apply String.eqb_neq in He. split; [done|].
  exists data. split; [done|]. by destruct (data !! key).
Qed.

(** The credentials that were read, with the passwords in them *)
Definition credentialsRead (data : gmap string string) (t : trace) : Prop :=
  ev (GetSecret SingletonNamespace credentialSecretName) (Ok data) ∈ t /\
  forall key, key ∈ ["ATUM_IDENTITY_ADMIN_USERNAME"; "ATUM_IDENTITY_ADMIN_PASSWORD"; "ATUM_IDENTITY_BOOTSTRAP_PASSWORD"] ->
    default "" (data !! key) <> "".

Lemma requireKeys_ok data keys : requireKeys data keys = Ok tt -> forall key, key ∈ keys -> default "" (data !! key) <> "".
Proof.
  induction keys as [|k keys IH]; simpl; intros H key Hin; [by apply elem_of_nil in Hin|].
  destruct (String.eqb _ "") eqn:He; [done|]. apply elem_of_cons in Hin as [->|Hin]; [by apply String.eqb_neq|by apply IH].
Qed.

Lemma safe_keycloakCredentials t : safe operator_policy keycloakCredentials t credentialsRead.
Proof.
  apply safe_bind, safe_secret; [done|]. intros data t1 _ Hd _. apply safe_bind, safe_value. intros [] Hk _.
  split; [done|]. by apply requireKeys_ok.
Qed.

Lemma credentialsRead_key data t key :
  credentialsRead data t ->
  key ∈ ["ATUM_IDENTITY_ADMIN_USERNAME"; "ATUM_IDENTITY_ADMIN_PASSWORD"; "ATUM_IDENTITY_BOOTSTRAP_PASSWORD"] ->
  readKey SingletonNamespace credentialSecretName key (default "" (data !! key)) t.
Proof.
  intros [Hd Hk] Hin. specialize (Hk key Hin). split; [done|]. exists data. split; [done|].
  by destruct (data !! key).
Qed.

Section Object.
Variable o : PlatformIdentityConfiguration.
(** The object was read with the finalizer on it. *)
Definition entitled (t : trace) : Prop := readObject o t /\ finalizerName ∈ Finalizers o.
Lemma entitled_grow t t' : entitled t -> t `prefix_of` t' -> entitled t'.
Proof. intros [? ?] ?. split; [by eapply elem_of_grow|done]. Qed.

Lemma newClient_base base auth_ ca c : newClient base auth_ ca = Ok c -> c = {| baseURL := TrimRightSlash base; auth := auth_ |}.
Proof.
  unfold newClient. intros H. apply bind_ok_inv in H as (_ & _ & H). destruct (Parse base); [|done].
  destruct (_ || _); [done|]. destruct (_ || _); [done|]. by simplify_eq.
Qed.

Lemma newClient_token base token ca c : newClient base (vaultToken token) ca = Ok c -> token <> "".
Proof. unfold newClient. destruct (String.eqb token "") eqn:He; [done|]. intros _. by apply String.eqb_neq. Qed.

Lemma safe_NewKeycloak ca username password key t :
  entitled t -> readKey SingletonNamespace credentialSecretName key password t ->
  safe operator_policy (Keycloak.NewKeycloak (keycloakURL o) ca (Realm (SKeycloak (Spec o))) username password) t
    (fun k t' => exists token, k = keycloakOf o token /\ loggedIn o token t').
Proof.
  intros [Ho Hf] Hk. apply safe_bind, safe_value. intros c ->%newClient_base _. apply safe_bind, safe_wrapped.
  unfold Form. destruct (Parse _); [|apply safe_fail]. split.
  { exists o. split_and!; [done|done|]. by apply (provider_login o t username password key). }
  intros r. cbn [bind call]. unfold safe. cbn [wpt].
  destruct (data ← receive _ _ _ _; _) as [token|e] eqn:Hd; [|done]. intros _.
  apply safe_bind, safe_guard. intros Hne _. apply safe_bind, safe_value. intros c ->%newClient_base _.
  apply safe_ret. exists token. split; [done|]. split; [by apply negb_true_iff, String.eqb_neq in Hne|].
  exists username, password, r. split; [apply last_event|exact Hd].
Qed.

Lemma safe_keycloak credentials ca t :
  entitled t -> credentialsRead credentials t ->
  safe operator_policy (keycloak o credentials ca) t (fun k t' => exists token, k = keycloakOf o token /\ loggedIn o token t').
Proof.
  intros He Hc. apply safe_bind. unfold catch. apply wpt_bind.
  eapply wpt_mono; [eapply (safe_NewKeycloak ca _ _ "ATUM_IDENTITY_ADMIN_PASSWORD"); [done|]|].
  { apply credentialsRead_key; [done|]. right. by left. }
  intros [k|e] t1 Hp1 Hk; cbn [wpt]; intros _; [done|]. apply safe_bind. unfold catch. apply wpt_bind.
  eapply wpt_mono; [eapply (safe_NewKeycloak ca _ _ "ATUM_IDENTITY_BOOTSTRAP_PASSWORD"); [by eapply entitled_grow|]|].
  { eapply readKey_grow; [|exact Hp1]. apply credentialsRead_key; [done|]. right. right. by left. }
  intros [k|e'] t2 Hp2 Hk'; cbn [wpt]; intros _; [done|apply safe_fail].
Qed.

(** A provider's policy, after the object and its token were read *)
Lemma from_keycloak {A} token (p : M A) t Q :
  entitled t -> loggedIn o token t ->
  safe (fun t' call => match call with
        | Some (Do r) => KeycloakTheorems.keycloak_allowed (keycloakOf o token) (keycloakKeeps o) t' r
        | Some CtxErr => True
        | None => Scopes (SKeycloak (Spec o)) = []
        | _ => False end) p t Q ->
  safe operator_policy p t Q.
Proof.
  intros He Hl. apply (wpt_from _ _ t); [|done]. intros t' [[]|] Hp; simpl; try done.
  - intros Hr. destruct (entitled_grow _ _ He Hp). exists o. split_and!; [done|done|].
    eapply provider_keycloak; [by eapply loggedIn_grow|done].
  - intros Hs. left. exists o. split; [by eapply elem_of_grow; [apply He|]|by right].
Qed.

Lemma from_vault {A} token (p : M A) t Q :
  entitled t -> readKey vaultTokenNamespace vaultTokenSecretName vaultTokenKey token t ->
  safe (VaultTheorems.vault_policy (vaultOf o token) (vaultKeeps o)) p t Q ->
  safe operator_policy p t Q.
Proof.
  intros He Hl. apply (wpt_from _ _ t); [|done]. intros t' [[]|] Hp; simpl; try done.
  intros Hr. destruct (entitled_grow _ _ He Hp). exists o. split_and!; [done|done|].
  eapply provider_vault; [by eapply readKey_grow|done].
Qed.

Lemma safe_reconcileKeycloak credentials ca t :
  Deleted o = false -> entitled t -> credentialsRead credentials t ->
  safe operator_policy (reconcileKeycloak o credentials ca) t (fun _ _ => True).
Proof.
  intros Hd He Hc. apply safe_bind. eapply safe_mono; [by apply safe_keycloak|].
  intros k t1 Hp1 (token & -> & Hl) _. eapply from_keycloak; [by eapply entitled_grow|exact Hl|].
  apply KeycloakTheorems.safe_keycloak_Reconcile.
  - intros t' r. unfold keycloakKeeps. by rewrite Hd.
  - done.
  - destruct (Scopes (SKeycloak (Spec o))) eqn:Hs; [by right|by left].
Qed.

Lemma safe_cleanupKeycloak credentials ca t :
  Deleted o = true -> entitled t -> credentialsRead credentials t ->
  safe operator_policy (k ← keycloak o credentials ca; Keycloak.Cleanup k) t (fun _ _ => True).
Proof.
  intros Hd He Hc. apply safe_bind. eapply safe_mono; [by apply safe_keycloak|].
  intros k t1 Hp1 (token & -> & Hl) _. eapply from_keycloak; [by eapply entitled_grow|exact Hl|].
  apply KeycloakTheorems.safe_keycloak_Cleanup; [|done]. intros t' r. unfold keycloakKeeps. by rewrite Hd.
Qed.

Lemma safe_reconcileVault credentials ca token t :
  Deleted o = false -> entitled t -> readKey vaultTokenNamespace vaultTokenSecretName vaultTokenKey token t ->
  safe operator_policy (reconcileVault o credentials ca token) t (fun _ _ => True).
Proof.
  intros Hd He Hk. apply safe_bind, safe_value. intros v Hv _. unfold Vault.NewVault in Hv. apply newClient_base in Hv as ->. eapply from_vault; [done|exact Hk|].
  apply VaultTheorems.safe_vault_Reconcile; [|done]. intros t' r. unfold vaultKeeps. by rewrite Hd.
Qed.

Lemma safe_cleanupVault ca token t :
  Deleted o = true -> entitled t -> readKey vaultTokenNamespace vaultTokenSecretName vaultTokenKey token t ->
  safe operator_policy (v ← lift (Vault.NewVault (vaultURL o) ca token); Vault.Cleanup v) t (fun _ _ => True).
Proof.
  intros Hd He Hk. apply safe_bind, safe_value. intros v Hv _. unfold Vault.NewVault in Hv. apply newClient_base in Hv as ->. eapply from_vault; [done|exact Hk|].
  apply VaultTheorems.safe_vault_Cleanup; [|done]. intros t' r. unfold vaultKeeps. by rewrite Hd.
Qed.

Lemma safe_recordAttempt keycloak vault retry t :
  readObject o t -> known keycloak -> known vault -> safe operator_policy (recordAttempt o keycloak vault retry) t (fun _ _ => True).
Proof.
  intros Ho Hk Hv. split; [by exists o, keycloak, vault|]. intros [s|e]; cbn [bind]; [|apply safe_fail].
  destruct (ready _); [done|]. destruct (_ && _); [done|]. unfold failureDelay.
  destruct (_ <? 0)%Z eqn:Hn; [|done]. right. eexists _, s. split; [apply last_event|]. by apply Z.ltb_lt.
Qed.

(** A program whose error is a value *)
Lemma wpt_caught {A B} (m : M A) (f : result error A -> prog B) t (Q : A -> trace -> Prop) R :
  safe operator_policy m t Q ->
  (forall r t', t `prefix_of` t' -> (forall a, r = Ok a -> Q a t') -> wpt operator_policy (f r) t' R) ->
  wpt operator_policy (bind m f) t R.
Proof.
  intros Hm Hf. apply wpt_bind. eapply wpt_mono; [exact Hm|]. intros [a|e] t' Hp Hr; apply Hf; try done.
  by intros a' [= <-].
Qed.

Lemma wpt_cleanupWith {A B} (ca : result error A) (cred : result error B) cleanup t R :
  (forall a b, ca = Ok a -> cred = Ok b -> safe operator_policy (cleanup a b) t (fun _ _ => True)) ->
  (forall e t', t `prefix_of` t' -> R e t') ->
  wpt operator_policy (cleanupWith ca cred cleanup) t R.
Proof.
  intros Hc HR. destruct ca as [a|e], cred as [b|e']; simpl; try (by apply HR).
  eapply wpt_caught; [by apply Hc|]. intros r t' Hp _. by apply HR.
Qed.

Lemma safe_finalize t : Deleted o = true -> readObject o t -> safe operator_policy (finalize o) t (fun _ _ => True).
Proof.
  intros Hd Ho. unfold finalize. destruct (ContainsFinalizer _ _) eqn:Hf; [|done]. cbn [negb].
  apply ContainsFinalizer_spec in Hf. assert (entitled t) as He by done.
  eapply wpt_caught; [by apply safe_secretKey|]. intros ca t1 Hp1 _.
  eapply wpt_caught; [by apply safe_keycloakCredentials|]. intros credentials t2 Hp2 Hc. apply wpt_bind.
  assert (entitled t2) as He2 by (eapply entitled_grow; [exact He|by etrans]).
  apply wpt_cleanupWith.
  { intros ca' cred' _ ->. apply safe_cleanupKeycloak; [done|done|by apply Hc]. }
  intros keycloakErr t3 Hp3. eapply wpt_caught; [by apply safe_secretKey|]. intros token t4 Hp4 Ht. apply wpt_bind.
  assert (entitled t4) as He4 by (eapply entitled_grow; [exact He2|by etrans]).
  apply wpt_cleanupWith.
  { intros ca' token' _ ->. apply safe_cleanupVault; [done|done|by apply Ht]. }
  intros vaultErr t5 Hp5. assert (readObject o t5) as Ho5 by (apply (entitled_grow _ _ He4 Hp5)).
  destruct (errorsJoin _); [apply safe_recordAttempt; [done|known_state..]|]. split.
  - exists o. split; [done|]. by rewrite Hd.
  - intros [[]|[[] text]]; done.
Qed.

Lemma safe_reconcileProviders t :
  Deleted o = false -> entitled t -> safe operator_policy (reconcileProviders o) t (fun _ _ => True).
Proof.
  intros Hd He. eapply wpt_caught; [by apply safe_secretKey|]. intros [ca|e] t1 Hp1 _;
    [|apply safe_recordAttempt; [apply (entitled_grow _ _ He Hp1)|known_state..]].
  eapply wpt_caught; [by apply safe_keycloakCredentials|]. intros [cred|e] t2 Hp2 Hc;
    assert (entitled t2) as He2 by (eapply entitled_grow; [exact He|by etrans]); [|apply safe_recordAttempt; [apply He2|known_state..]].
  eapply wpt_caught; [apply safe_reconcileKeycloak; [done|done|by apply Hc]|]. intros [[]|e] t3 Hp3 _;
    assert (entitled t3) as He3 by (eapply entitled_grow; [exact He2|done]); cbv zeta; [|apply safe_recordAttempt; [apply He3|known_state..]].
  eapply wpt_caught; [by apply safe_secretKey|]. intros [token|e] t4 Hp4 Ht;
    assert (entitled t4) as He4 by (eapply entitled_grow; [exact He3|done]); [|apply safe_recordAttempt; [apply He4|known_state..]].
  eapply wpt_caught; [apply safe_reconcileVault; [done|done|by apply Ht]|]. intros r t5 Hp5 _.
  apply safe_recordAttempt; [apply (entitled_grow _ _ He4 Hp5)|known_state..].
Qed.
End Object.

Lemma safe_operator_Reconcile namespace name t : safe operator_policy (Reconcile namespace name) t (fun _ _ => True).
Proof.
  unfold Reconcile. destruct (_ || _); [done|]. split; [done|]. intros [o|[[] text]]; cbn [bind]; [|done|done].
  assert (readObject o (t ++ [ev GetObject (Ok o)])) as Ho by apply last_event.
  destruct (Deleted o) eqn:Hd; [by apply safe_finalize|].
  destruct (validateRuntime (Spec o)) as [[[]|e]|] eqn:Hv.
  - destruct (ContainsFinalizer _ _) eqn:Hf; cbn [negb].
    + apply safe_reconcileProviders; [done|]. split; [done|]. by apply ContainsFinalizer_spec.
    + split; [exists o; split; [done|]; by rewrite Hd|]. intros [[]|e]; done.
  - apply safe_recordAttempt; [done|known_state..].
  - left. exists o. split; [done|by left].
Qed.
End Policy.

(** C37. Custody of the platform's credentials.  Whatever Kubernetes, Keycloak
    and Vault answer, every call a reconciliation makes is one of
    [operator_policy]: the providers are contacted only while the declaration
    that was read carries the finalizer; a login sends a password of the
    credential Secret to Keycloak; the token it returns goes to Keycloak only
    and the token of the Vault Secret to Vault only, both at the fixed host of
    the declared domain; every provider request keeps to that provider's
    policy; no other Secret is read; the finalizer comes off a deleted
    declaration only.  A panic has one of three causes: a declared URI that
    does not parse, a declaration without scopes or a negative failure count. *)
Theorem operator_custody {LI : Libraries} {CR : ControllerRuntime} {W} (h : handler W) namespace name w :
  exists r s w', exec h (Reconcile namespace name) w [] = (r, s, w') /\ obeys operator_policy [] s /\
    (r = None -> operator_policy s None).
Proof.
  destruct (wpt_exec operator_policy h (Reconcile namespace name) w [] _ (safe_operator_Reconcile namespace name []))
    as (r & s & w' & He & Ho & Hr).
  exists r, s, w'. split_and!; [done|done|]. by intros ->.
Qed.

(** ** The status *)

(** The bytes of a message that are neither control characters nor DEL *)
Definition plain_byte (c : ascii) : bool := (32 <=? byte_of c)%N && negb (byte_of c =? 127)%N.

(** [^[A-Za-z]([A-Za-z0-9_,:]*[A-Za-z0-9_])?$], of at most 1024 bytes *)
Definition is_letter (c : ascii) : bool := is_upper c || is_lower c.
Definition reason_end (c : ascii) : bool := is_letter c || is_digit c || Ascii.eqb c "_".
Definition reason_ok (s : string) : bool :=
  match s with
  | "" => false
  | String c rest =>
      is_letter c && str_forallb (fun c => reason_end c || Ascii.eqb c "," || Ascii.eqb c ":") rest &&
      match str_rev rest with String l _ => reason_end l | "" => true end && (String.length s <=? 1024)%nat
  end.

(** A generation that is not negative, of 64 bits *)
Definition generation_ok (g : Z) : Prop := (0 <= g < 2 ^ 63)%Z.

(** What the schema of the resource admits
    ([platform.atum.dev_platformidentityconfigurations.yaml]): generations that are
    not negative, a count between 0 and 6, at most one condition of each of the
    three types, reasons of the pattern, and messages of at most 512 characters,
    here bytes.  The time of the last transition, which is required, is set by
    [SetStatusCondition] and left out of the model. *)
Definition conditionTypes : list string := [ConditionKeycloak; ConditionVault; ConditionReady].
Definition condition_ok (c : Condition) : Prop :=
  CType c ∈ conditionTypes /\ reason_ok (CReason c) = true /\ generation_ok (CGeneration c) /\ (String.length (CMessage c) <= 512)%nat /\ str_forallb plain_byte (CMessage c) = true.
Definition status_ok (s : PlatformIdentityConfigurationStatus) : Prop :=
  generation_ok (ObservedGeneration s) /\ (0 <= FailureCount s <= 6)%Z /\ NoDup (CType <$> Conditions s) /\ Forall condition_ok (Conditions s).







Section Status.
Context {CR : ControllerRuntime}.




End Status.



(** ** The finalizer *)

Definition is_release (o : op) : bool := match o with PatchFinalizers _ => true | _ => false end.
Definition keeps_finalizer : policy := fun _ call =>
  match call with Some o => is_release o = false | None => True end.
Definition releases (t : trace) : Prop := exists o r, ev o r ∈ t /\ is_release o = true.

Section Finalizer.
Context {LI : Libraries} {CR : ControllerRuntime} {W : Type}.
Variable h : handler W.

(** A run of [p] that ended with [a] before [t] *)
Definition ended {A} (p : prog A) (a : A) (t : trace) : Prop :=
  exists w1 t1 w2 t2, exec h p w1 t1 = (Some a, t2, w2) /\ t2 `prefix_of` t.

(** The credentials are gone: a Secret was not there, or a key in it was
    empty, or the error says so. *)
Definition sourceGone {A} (read : M A) (t : trace) : Prop :=
  exists e, ended read (Err e) t /\ credentialSourceGone (Some e) = true.

Definition caSource : M string := secretKey SingletonNamespace caSecretName providerCAKey.
Definition tokenSource : M string := secretKey vaultTokenNamespace vaultTokenSecretName vaultTokenKey.

Definition keycloakSettled (o : PlatformIdentityConfiguration) (t : trace) : Prop :=
  (exists k, baseURL (Keycloak.client k) = keycloakBase o /\ ended (Keycloak.Cleanup k) (Ok tt) t) \/
  sourceGone caSource t \/ sourceGone keycloakCredentials t.
Definition vaultSettled (o : PlatformIdentityConfiguration) (t : trace) : Prop :=
  (exists v, baseURL v = vaultBase o /\ ended (Vault.Cleanup v) (Ok tt) t) \/
  sourceGone caSource t \/ sourceGone tokenSource t.

Lemma ended_grow {A} (p : prog A) a t t' : ended p a t -> t `prefix_of` t' -> ended p a t'.
Proof. intros (w1 & t1 & w2 & t2 & He & Hp) Hp'. exists w1, t1, w2, t2. split; [done|by etrans]. Qed.
Lemma sourceGone_grow {A} (m : M A) t t' : sourceGone m t -> t `prefix_of` t' -> sourceGone m t'.
Proof. intros (e & He & ?) Hp. exists e. split; [by eapply ended_grow|done]. Qed.
Lemma keycloakSettled_grow o t t' : keycloakSettled o t -> t `prefix_of` t' -> keycloakSettled o t'.
Proof.
  intros [(k & Hb & He)|[H|H]] Hp; [left; exists k; split; [done|by eapply ended_grow]|right; left|right; right];
    by eapply sourceGone_grow.
Qed.

Lemma vaultSettled_grow o t t' : vaultSettled o t -> t `prefix_of` t' -> vaultSettled o t'.
Proof.
  intros [(v & Hb & He)|[H|H]] Hp; [left; exists v; split; [done|by eapply ended_grow]|right; left|right; right];
    by eapply sourceGone_grow.
Qed.

(** A program that keeps the finalizer, in a longer run *)
Lemma keeping {A} (p : M A) (Q : A -> trace -> Prop) w t r T w' :
  safe keeps_finalizer p t Q -> exec h p w t = (r, T, w') ->
  exists s, T = t ++ s /\ ~ releases s /\ forall a, r = Some (Ok a) -> Q a T.
Proof.
  intros Hw He. destruct (wpt_exec _ h p w t _ Hw) as (a & s & w'' & He' & Ho & HQ). rewrite He in He'. simplify_eq.
  exists s. split_and!; [done| |by intros a' ->]. intros (o & r' & (s1 & s2 & ->)%list_elem_of_split & Hr).
  specialize (Ho s1 o r' s2 eq_refl). simpl in Ho. congruence.
Qed.

Lemma keeps_secret ns name t : safe keeps_finalizer (secret ns name) t (fun _ _ => True).
Proof. unfold secret. destruct (negb _); [done|]. split; [done|]. by intros [d|e]. Qed.
Lemma keeps_secretKey ns name key t : safe keeps_finalizer (secretKey ns name key) t (fun _ _ => True).
Proof.
  apply safe_bind. eapply safe_mono; [apply keeps_secret|]. intros d t' _ _ _. cbv zeta. by destruct (String.eqb _ _).
Qed.
Lemma keeps_credentials t : safe keeps_finalizer keycloakCredentials t (fun _ _ => True).
Proof.
  apply safe_bind. eapply safe_mono; [apply keeps_secret|]. intros d t' _ _ _. apply safe_bind, safe_value.
  by intros [] _ _.
Qed.

Lemma keeps_NewKeycloak base ca realm user pass t :
  safe keeps_finalizer (Keycloak.NewKeycloak base ca realm user pass) t
    (fun k _ => baseURL (Keycloak.client k) = TrimRightSlash base).
Proof.
  apply safe_bind, safe_value. intros c _ _. apply safe_bind, safe_wrapped. unfold Form.
  destruct (Parse _); [|apply safe_fail]. split; [done|]. intros r. cbn [bind call]. unfold safe. cbn [wpt].
  destruct (data ← receive _ _ _ _; _) as [token|e]; [|done]. intros _.
  apply safe_bind, safe_guard. intros _ _. apply safe_bind, safe_value. by intros c' ->%newClient_base _.
Qed.

Lemma keeps_keycloak o credentials ca t :
  safe keeps_finalizer (keycloak o credentials ca) t (fun k _ => baseURL (Keycloak.client k) = keycloakBase o).
Proof.
  apply safe_bind, wpt_bind. eapply wpt_mono; [apply keeps_NewKeycloak|].
  intros [k|e] t1 _ Hk; cbn [wpt]; intros _; [done|]. apply safe_bind, wpt_bind.
  eapply wpt_mono; [apply keeps_NewKeycloak|]. intros [k|e'] t2 _ Hk'; cbn [wpt]; intros _; [done|apply safe_fail].
Qed.

Lemma keeps_Vault v t : safe keeps_finalizer (Vault.Cleanup v) t (fun _ _ => True).
Proof. by apply VaultTheorems.safe_vault_Cleanup. Qed.
Lemma keeps_Keycloak k t : safe keeps_finalizer (Keycloak.Cleanup k) t (fun _ _ => True).
Proof. by apply KeycloakTheorems.safe_keycloak_Cleanup. Qed.

(** One provider: no error means that its cleanup ended well or that its
    credentials are gone. *)
Lemma cleanupWith_settled {A B} (ca : result error A) (cred : result error B) cleanup (settled : trace -> Prop) w t r T w' :
  (forall a b, safe keeps_finalizer (cleanup a b) t (fun _ _ => True)) ->
  (forall a b w1 T w', exec h (cleanup a b) w1 t = (Some (Ok tt), T, w') -> settled T) ->
  (credentialSourceGone (errOf ca) = true -> settled t) -> (credentialSourceGone (errOf cred) = true -> settled t) ->
  exec h (cleanupWith ca cred cleanup) w t = (Some r, T, w') ->
  exists s, T = t ++ s /\ ~ releases s /\ (r = None -> settled T).
Proof.
  intros Hsafe Hrun Hca Hcred. assert (forall e : option error, exec h (Done e) w t = (Some r, T, w') ->
    (e = None -> settled t) -> exists s, T = t ++ s /\ ~ releases s /\ (r = None -> settled T)) as Hdone.
  { intros e He Hs. simpl in He. simplify_eq. exists []. rewrite app_nil_r. split_and!; [done| |done].
    intros (o & r' & Hin & _). by apply elem_of_nil in Hin. }
  assert (forall e f : option error, (e <> None \/ f <> None) ->
    (credentialSourceGone e = true -> settled t) -> (credentialSourceGone f = true -> settled t) ->
    (if negb (credentialSourceGone e) && negb (credentialSourceGone f) then errorsJoin [e; f] else None) = None ->
    settled t) as Hgone.
  { intros e f Hne He Hf. destruct (credentialSourceGone e) eqn:H1; [auto|]. destruct (credentialSourceGone f) eqn:H2; [auto|].
    destruct e, f; simpl; try done. by destruct Hne. }
  unfold cleanupWith. destruct ca as [a|e], cred as [b|e'].
  - rewrite exec_bind. destruct (exec h (cleanup a b) w t) as [[[r1|] T1] w1] eqn:He; [|done].
    simpl. intros Heq. simplify_eq. destruct (keeping _ _ _ _ _ _ _ (Hsafe a b) He) as (s & -> & Hs & _).
    exists s. split_and!; [done|done|]. destruct r1 as [[]|e]; [|done]. intros _. by eapply Hrun.
  - intros He. eapply Hdone; [exact He|]. apply Hgone; auto.
  - intros He. eapply Hdone; [exact He|]. apply Hgone; auto.
  - intros He. eapply Hdone; [exact He|]. apply Hgone; auto.
Qed.
(** Between [t] and [T] no finalizer was patched. *)
Definition quietly (t T : trace) : Prop := exists s, T = t ++ s /\ ~ releases s.

Lemma quietly_trans t1 t2 t3 : quietly t1 t2 -> quietly t2 t3 -> quietly t1 t3.
Proof.
  intros (s1 & -> & H1) (s2 & -> & H2). exists (s1 ++ s2). split; [by rewrite app_assoc|].
  intros (o & r & [H|H]%elem_of_app & Hr); [apply H1|apply H2]; by exists o, r.
Qed.
Lemma quietly_prefix t T : quietly t T -> t `prefix_of` T.
Proof. intros (s & -> & _). by eexists. Qed.

Lemma ended_now {A} (p : prog A) w t a T w' : exec h p w t = (Some a, T, w') -> ended p a T.
Proof. intros He. by exists w, t, w', T. Qed.

Lemma gone_source {A} (m : M A) w t r T w' :
  exec h m w t = (Some r, T, w') -> credentialSourceGone (errOf r) = true -> sourceGone m T.
Proof. destruct r as [a|e]; [done|]. intros He Hg. exists e. split; [by eapply ended_now|done]. Qed.

(** The first step of a sequence keeps the finalizer. *)
Lemma step {A B} (m : M A) (Q : A -> trace -> Prop) (f : result error A -> prog B) w t r T w' :
  safe keeps_finalizer m t Q -> exec h (bind m f) w t = (r, T, w') ->
  quietly t T \/
  exists a T1 w1, exec h m w t = (Some a, T1, w1) /\ quietly t T1 /\ exec h (f a) w1 T1 = (r, T, w').
Proof.
  intros Hm. rewrite exec_bind. destruct (exec h m w t) as [[[a|] T1] w1] eqn:He;
    destruct (keeping _ _ _ _ _ _ _ Hm He) as (s1 & -> & Hs & _).
  - intros H. right. exists a, (t ++ s1), w1. split_and!; [done|by exists s1|done].
  - intros [= <- <- <-]. left. by exists s1.
Qed.

Lemma keycloak_settles o credentials ca w t T w' :
  exec h (k ← keycloak o credentials ca; Keycloak.Cleanup k) w t = (Some (Ok tt), T, w') -> keycloakSettled o T.
Proof.
  unfold mbind, M_bind. rewrite exec_bind. destruct (exec h (keycloak o credentials ca) w t) as [[[[k|e]|] T1] w1] eqn:He; [|done|done].
  destruct (keeping _ _ _ _ _ _ _ (keeps_keycloak o credentials ca t) He) as (s1 & -> & _ & Hk).
  intros Hc. left. exists k. split; [by apply Hk|by eapply ended_now].
Qed.

Lemma vault_settles o ca token w t T w' :
  exec h (v ← lift (Vault.NewVault (vaultURL o) ca token); Vault.Cleanup v) w t = (Some (Ok tt), T, w') -> vaultSettled o T.
Proof.
  unfold mbind, M_bind, lift. cbn [bind]. destruct (Vault.NewVault _ _ _) as [v|e] eqn:Hv; [|done].
  unfold Vault.NewVault in Hv. apply newClient_base in Hv as ->. intros Hc. left. eexists. split; [|by eapply ended_now].
  done.
Qed.

Lemma cleanup_step {A B C} (ca : result error A) (cred : result error B) cleanup settled (f : option error -> prog C) w t r T w' :
  (forall a b, safe keeps_finalizer (cleanup a b) t (fun _ _ => True)) ->
  (forall a b w1 T w', exec h (cleanup a b) w1 t = (Some (Ok tt), T, w') -> settled T) ->
  (credentialSourceGone (errOf ca) = true -> settled t) -> (credentialSourceGone (errOf cred) = true -> settled t) ->
  exec h (bind (cleanupWith ca cred cleanup) f) w t = (r, T, w') ->
  quietly t T \/
  exists e T1 w1, quietly t T1 /\ (e = None -> settled T1) /\ exec h (f e) w1 T1 = (r, T, w').
Proof.
  intros Hsafe Hrun Hca Hcred. rewrite exec_bind.
  destruct (exec h (cleanupWith ca cred cleanup) w t) as [[[e|] T1] w1] eqn:He.
  - intros H. destruct (cleanupWith_settled ca cred cleanup settled w t e T1 w1) as (s & -> & Hs & Hn); try done.
    right. exists e, (t ++ s), w1. split_and!; [by exists s|done|done].
  - intros [= <- <- <-]. left. unfold cleanupWith in He. destruct ca as [a|], cred as [b|]; simpl in He; try done.
    rewrite exec_bind in He. destruct (exec h (cleanup a b) w t) as [[[x|] T2] w2] eqn:Hc; [done|].
    simplify_eq. destruct (keeping _ _ _ _ _ _ _ (Hsafe a b) Hc) as (s & -> & Hs & _). by exists s.
Qed.

Lemma keeps_recordAttempt o kc va retry t : safe keeps_finalizer (recordAttempt o kc va retry) t (fun _ _ => True).
Proof.
  split; [done|]. intros [s|e]; cbn [bind]; [|done]. destruct (ready _); [done|]. destruct (_ && _); [done|].
  by destruct (failureDelay _).
Qed.

Lemma finalize_settled o w t r T w' :
  exec h (finalize o) w t = (r, T, w') -> quietly t T \/ (keycloakSettled o T /\ vaultSettled o T).
Proof.
  assert (forall t, quietly t t) as Hrefl.
  { intros t0. exists []. split; [by rewrite app_nil_r|]. intros (? & ? & Hin & _). by apply elem_of_nil in Hin. }
  unfold finalize. destruct (negb _); [intros [= <- <- <-]; by left|]. intros H.
  apply (step _ _ _ _ _ _ _ _ (keeps_secretKey _ _ _ _)) in H as [?|(ca & T1 & w1 & E1 & Q1 & H)]; [by left|].
  apply (step _ _ _ _ _ _ _ _ (keeps_credentials _)) in H as [?|(cred & T2 & w2 & E2 & Q2 & H)]; [left; by eapply quietly_trans|].
  pose proof (quietly_trans _ _ _ Q1 Q2) as Q12.
  apply (cleanup_step _ _ _ (keycloakSettled o)) in H as [?|(ke & T3 & w3 & Q3 & Hk & H)]; [left; by eapply quietly_trans| | | | |].
  2: { intros a b. apply safe_bind. eapply safe_mono; [apply keeps_keycloak|]. intros k ? _ _ _. apply keeps_Keycloak. }
  2: { intros a b v1 V v2. apply keycloak_settles. }
  2: { intros Hg. right. left. eapply sourceGone_grow; [eapply gone_source; [exact E1|done]|by apply quietly_prefix]. }
  2: { intros Hg. right. right. by eapply gone_source. }
  pose proof (quietly_trans _ _ _ Q12 Q3) as Q13.
  apply (step _ _ _ _ _ _ _ _ (keeps_secretKey _ _ _ _)) in H as [?|(token & T4 & w4 & E4 & Q4 & H)]; [left; by eapply quietly_trans|].
  pose proof (quietly_trans _ _ _ Q13 Q4) as Q14.
  apply (cleanup_step _ _ _ (vaultSettled o)) in H as [?|(ve & T5 & w5 & Q5 & Hv & H)]; [left; by eapply quietly_trans| | | | |].
  2: { intros a b. apply safe_bind, safe_value. intros v _ _. apply keeps_Vault. }
  2: { intros a b v1 V v2. apply vault_settles. }
  2: { intros Hg. right. left. eapply sourceGone_grow; [eapply gone_source; [exact E1|done]|].
       apply quietly_prefix. eapply quietly_trans; [exact Q2|]. by eapply quietly_trans. }
  2: { intros Hg. right. right. by eapply gone_source. }
  destruct (errorsJoin [ke; ve]) eqn:Hj.
  { left. eapply quietly_trans; [exact Q14|]. eapply quietly_trans; [exact Q5|].
    destruct (keeping _ _ _ _ _ _ _ (keeps_recordAttempt _ _ _ _ _) H) as (s & -> & Hs & _). by exists s. }
  right. destruct ke, ve; try done. cbn [bind call exec] in H. destruct (h _ w5) as [a w6].
  assert (T5 `prefix_of` T) as Hp.
  { destruct a as [[]|[[] text]]; simpl in H; simplify_eq; by eexists. }
  split.
  - eapply keycloakSettled_grow; [by apply Hk|]. etrans; [|exact Hp].
    apply quietly_prefix. eapply quietly_trans; [exact Q4|done].
  - eapply vaultSettled_grow; [by apply Hv|done].
Qed.
End Finalizer.

(** C39. A deleted declaration is let go only when nothing is left to clean:
    whatever the world answers, when [finalize] patches the finalizers, then
    for Keycloak and for Vault the cleanup ran to its end without an error, at
    the provider of the declared domain, or the credentials for it are gone. *)
Theorem finalizer_custody {LI : Libraries} {CR : ControllerRuntime} {W} (h : handler W) o w t r s w' :
  exec h (finalize o) w t = (r, t ++ s, w') -> releases s ->
  keycloakSettled h o (t ++ s) /\ vaultSettled h o (t ++ s).
Proof.
  intros H Hr. destruct (finalize_settled h o w t r (t ++ s) w' H) as [(s' & ->%app_inv_head & Hn)|?]; [|done].
  by destruct Hn.
Qed.

(** ** Concrete runs *)

(** [meta.SetStatusCondition] and [controllerutil] on lists *)
Fixpoint setInPlace (c : Condition) (cs : list Condition) : list Condition :=
  match cs with
  | [] => [c]
  | c' :: cs => if String.eqb (CType c') (CType c) then c :: cs else c' :: setInPlace c cs
  end.

Lemma setInPlace_elem c cs : NoDup (CType <$> cs) ->
  forall c', c' ∈ setInPlace c cs <-> c' = c \/ (c' ∈ cs /\ CType c' <> CType c).
Proof.
  induction cs as [|d cs IH]; cbn [setInPlace]; [set_solver|]. rewrite fmap_cons, NoDup_cons. intros [Hd Hnd] c'.
  destruct (String.eqb (CType d) (CType c)) eqn:He; rewrite !elem_of_cons.
  - apply String.eqb_eq in He. split; [|naive_solver]. intros [->|Hc]; [by left|]. right. split; [by right|].
    rewrite <- He. intros Heq. apply Hd. rewrite <- Heq. by apply list_elem_of_fmap_2.
  - apply String.eqb_neq in He. rewrite IH by done. naive_solver.
Qed.

Lemma setInPlace_nodup c cs : NoDup (CType <$> cs) -> NoDup (CType <$> setInPlace c cs).
Proof.
  induction cs as [|d cs IH]; cbn [setInPlace]; [intros _; by apply NoDup_singleton|].
  rewrite fmap_cons, NoDup_cons. intros [Hd Hnd]. destruct (String.eqb (CType d) (CType c)) eqn:He; rewrite fmap_cons.
  - apply String.eqb_eq in He. apply NoDup_cons. by rewrite <- He.
  - apply NoDup_cons. split; [|by apply IH]. intros (c' & Ht & Hc')%list_elem_of_fmap.
    apply setInPlace_elem in Hc' as [->|[Hc' _]]; [|apply Hd; rewrite Ht; by apply list_elem_of_fmap_2|done].
    apply String.eqb_neq in He. by apply He.
Qed.

Definition addOnce (l : list string) (f : string) : list string := if bool_decide (f ∈ l) then l else l ++ [f].
Lemma addOnce_spec l f g : g ∈ addOnce l f <-> g = f \/ g ∈ l.
Proof. unfold addOnce. case_bool_decide; set_solver. Qed.
Definition without (l : list string) (f : string) : list string := filter (fun g => g <> f) l.
Lemma without_spec l f g : g ∈ without l f <-> g ∈ l /\ g <> f.
Proof. unfold without. rewrite list_elem_of_filter. naive_solver. Qed.

Definition runtime0 : ControllerRuntime :=
  {| SetStatusCondition := setInPlace;
     ContainsFinalizer := fun l f => bool_decide (f ∈ l);
     AddFinalizer := addOnce;
     RemoveFinalizer := without;
     SetStatusCondition_spec := fun c cs Hnd => conj (setInPlace_nodup c cs Hnd) (setInPlace_elem c cs Hnd);
     ContainsFinalizer_spec := fun l f => bool_decide_eq_true (f ∈ l);
     AddFinalizer_spec := addOnce_spec;
     RemoveFinalizer_spec := without_spec |}.

Definition spec0 : PlatformIdentityConfigurationSpec :=
  {| Domain := "example.com"; SKeycloak := KeycloakTheorems.intent0;
     SVault := {| AuthPath := "oidc"; VPolicy := {| PName := "atum-admin"; Purpose := VaultPlatformAdministration |};
                  VRole := {| RName := "atum-admin"; RClientID := "vault"; RRedirectURIs := ["https://vault.example.com/cb"];
                              RScopes := ["openid"; "profile"; "email"; "groups"]; GroupsClaim := "groups" |};
                  ExternalGroup := {| GName := "atum-admins"; Claim := "atum-admins"; PolicyName := "atum-admin" |} |} |}.
Definition status0 : PlatformIdentityConfigurationStatus :=
  {| ObservedGeneration := 3; FailureCount := 6;
     Conditions := [{| CType := "Ready"; CStatus := false; CReason := "ProvidersNotReady"; CMessage := "down"; CGeneration := 3 |}] |}.
Definition object0 (deleted : bool) : PlatformIdentityConfiguration :=
  {| Generation := 4; Deleted := deleted; Finalizers := [finalizerName]; Spec := spec0; Status := status0 |}.

(** Empty providers, and the three Secrets *)
Definition providers0 (r : request) : response :=
  let field k v := "{" +:+ dquote +:+ k +:+ dquote +:+ ":" +:+ v +:+ "}" in
  Ok (200%Z, Ok (if HasSuffix (r_path r) "/token" then field "access_token" (dquote +:+ "t" +:+ dquote)
                 else if HasSuffix (r_path r) "/users/profile" then field "attributes" "[]"
                 else if HasPrefix (r_path r) "/v1/" then field "data" "{}" else "[]")).
Definition world0 (deleted : bool) : handler unit := fun o w =>
  match o return answer o * unit with
  | Do r => (providers0 r, w)
  | CtxErr => (None, w)
  | Range keys => (exist _ keys (Permutation_refl keys), w)
  | GetObject => (Ok (object0 deleted), w)
  | PatchFinalizers _ => (Ok tt, w)
  | PatchStatus s => (Ok s, w)
  | GetSecret _ _ => (Ok (list_to_map [("ca.crt", "pem"); ("key", "v"); ("ATUM_IDENTITY_ADMIN_USERNAME", "a");
                                       ("ATUM_IDENTITY_ADMIN_PASSWORD", "b"); ("ATUM_IDENTITY_BOOTSTRAP_PASSWORD", "c")]), w)
  end.

Definition releasesb (t : trace) : bool := existsb (fun e => is_release (projT1 e)) t.
Lemma releasesb_sound t : releasesb t = true -> releases t.
Proof.
  intros ([o r] & Hin & Hr)%existsb_exists. exists o, r. split; [by apply list_elem_of_In|done].
Qed.

(** The run on a deleted declaration *)
Definition deletedRun : option (result error Result) * trace * unit :=
  exec (world0 true) (finalize (LI := plainLibraries) (CR := runtime0) (object0 true)) tt [].

Lemma finalizer_custody_witness :
  releases deletedRun.1.2 /\
  keycloakSettled (LI := plainLibraries) (world0 true) (object0 true) deletedRun.1.2 /\
  vaultSettled (LI := plainLibraries) (world0 true) (object0 true) deletedRun.1.2.
Proof.
  assert (releases deletedRun.1.2) as Hr by (apply releasesb_sound; vm_compute; reflexivity).
  split; [exact Hr|].
  apply (finalizer_custody (LI := plainLibraries) (CR := runtime0) (world0 true) (object0 true) tt []
           deletedRun.1.1 deletedRun.1.2 deletedRun.2); [|exact Hr].
  rewrite app_nil_l. unfold deletedRun. destruct (exec _ _ _ _) as [[? ?] ?]. reflexivity.
Defined.

Lemma operator_custody_witness :
  exists r s w', exec (world0 false) (Reconcile (LI := plainLibraries) (CR := runtime0) "atum-system" "atum") tt [] = (r, s, w') /\
    obeys (operator_policy (LI := plainLibraries) (CR := runtime0)) [] s /\
    (r = None -> operator_policy (LI := plainLibraries) (CR := runtime0) s None).
Proof. apply (operator_custody (LI := plainLibraries) (CR := runtime0) (world0 false) "atum-system" "atum" tt). Defined.

Lemma status0_ok : status_ok status0.
Proof.
  unfold status_ok, condition_ok, generation_ok. split; [by vm_compute|]. split; [done|]. split; [by apply NoDup_singleton|].
  constructor; [|done]. split; [right; right; by left|]. split; [done|]. split; [by vm_compute|]. split; [cbn; lia|done].
Qed.



(** A declared URI that does not parse makes the reconciliation panic instead
    of reporting an invalid intent. *)
Definition badSpec : PlatformIdentityConfigurationSpec :=
  {| Domain := "example.com"; SKeycloak := KeycloakTheorems.intent0;
     SVault := {| AuthPath := "oidc"; VPolicy := VPolicy (SVault spec0);
                  VRole := {| RName := "atum-admin"; RClientID := "vault"; RRedirectURIs := ["%zz"];
                              RScopes := []; GroupsClaim := "groups" |};
                  ExternalGroup := ExternalGroup (SVault spec0) |} |}.
Lemma malformed_uri_panics : validateRuntime (LI := plainLibraries) badSpec = None.
Proof. vm_compute. reflexivity. Qed.

End OperatorTheorems.
