(* ===== verification/LocalAccess.v ===== *)
(** The access of a local infrastructure target, [validateLocalAccess] of
    [cli/config/config.go] with the validators of names next to it: DNS names,
    the addresses Atum hands out and the range of the load balancer. *)
From stdpp Require Import prelude gmap strings list.
From Stdlib Require Import Ascii ZArith Lia.
From S2P Require Import Prelude GoStrings.

Module LocalAccess.

Record LocalAccess :=
  { Domain : string; DNSServer : string; PublicIngressVIP : string; PassthroughIngressVIP : string;
    LoadBalancerRange : string; PassthroughHosts : list string }.
Definition MaxPassthroughHosts : nat := 32.

(** ** Names

    A rune outside ASCII is refused by every validator, as its bytes are. *)
Definition is_ldh (c : ascii) : bool := is_lower c || is_digit c || Ascii.eqb c "-".

Definition last_byte (s : string) : option ascii := String.get (String.length s - 1) s.

Definition validDNSLabel (value : string) : bool :=
  if (String.length value =? 0)%nat || (63 <? String.length value)%nat ||
     bool_decide (String.get 0 value = Some "-"%char) || bool_decide (last_byte value = Some "-"%char)
  then false
  else str_forallb is_ldh value.

Definition validDNSDomain (value : string) : bool :=
  if (String.length value =? 0)%nat || (253 <? String.length value)%nat || HasPrefix value "." ||
     HasSuffix value "." || negb (Contains value ".")
  then false
  else forallb validDNSLabel (Split value ".").

Definition validResourceID (value : string) : bool :=
  match value with
  | "" => false
  | String first rest => (is_lower first || is_digit first) && str_forallb is_ldh rest
  end.

Definition ValidKubesprayDownloadID (value : string) : bool :=
  match value with
  | "" => false
  | String first rest =>
      is_lower first && str_forallb (fun c => is_lower c || is_digit c || Ascii.eqb c "_" || Ascii.eqb c "-") rest
  end.

(** ** IPv4 addresses

    [netip.ParseAddr] accepts an IPv4 address exactly when it is four decimal
    octets without leading zeros; anything with a colon is not [Is4].  The
    scan keeps the value and the digits of the current octet, the octets so
    far as one number and how many there are. *)
Fixpoint parseIPv4Fields (s : string) (val : Z) (digLen : nat) (acc : Z) (pos : nat) : option Z :=
  match s with
  | "" => if (pos <? 3)%nat || (digLen =? 0)%nat then None else Some (acc * 256 + val)%Z
  | String c s =>
      if is_digit c then
        if (digLen =? 1)%nat && (val =? 0)%Z then None
        else
          let val := (val * 10 + (Z.of_N (N_of_ascii c) - 48))%Z in
          if (255 <? val)%Z then None else parseIPv4Fields s val (S digLen) acc pos
      else if Ascii.eqb c "." then
        if (digLen =? 0)%nat || (pos =? 3)%nat then None
        else parseIPv4Fields s 0 0 (acc * 256 + val)%Z (S pos)
      else None
  end.
Definition ParseIPv4 (s : string) : option Z := parseIPv4Fields s 0 0 0 0.

(** ** [validateLocalAccess] *)

Inductive problem :=
  | InvalidDomain
  | TooManyHosts
  | InvalidHost (host : string)
  | InvalidHostDomain (host : string)
  | DuplicateHost (host : string)
  | KeycloakNotOnce
  | NotIPv4 (name value : string)
  | DuplicateAddress (name previous : string) (address : Z)
  | RangeShape
  | RangeNotIPv4
  | RangeDescending
  | RangeOverlaps (name : string) (address : Z).

Fixpoint hostProblems (domain : string) (domainValid : bool) (hosts : list string) (seen : gset string) : list problem :=
  match hosts with
  | [] => []
  | host :: hosts =>
      (if negb (validDNSLabel host) then [InvalidHost host]
       else if domainValid && negb (validDNSDomain (host +:+ "." +:+ domain)) then [InvalidHostDomain host] else []) ++
      (if bool_decide (host ∈ seen) then [DuplicateHost host] else []) ++
      hostProblems domain domainValid hosts ({[host]} ∪ seen)
  end.

Definition static (access : LocalAccess) : list (string * string) :=
  [("DNS server", DNSServer access); ("public ingress VIP", PublicIngressVIP access);
   ("passthrough ingress VIP", PassthroughIngressVIP access)].

Fixpoint staticAddresses (l : list (string * string)) : list problem * list (string * Z) :=
  match l with
  | [] => ([], [])
  | (name, value) :: l =>
      let '(problems, addresses) := staticAddresses l in
      match ParseIPv4 value with
      | None => (NotIPv4 name value :: problems, addresses)
      | Some a => (problems, (name, a) :: addresses)
      end
  end.

Fixpoint ownerProblems (addresses : list (string * Z)) (owners : gmap Z string) : list problem :=
  match addresses with
  | [] => []
  | (name, a) :: addresses =>
      match owners !! a with
      | Some previous => DuplicateAddress name previous a :: ownerProblems addresses owners
      | None => ownerProblems addresses (<[a := name]> owners)
      end
  end.

Definition parseIPv4Range (value : string) : result problem (Z * Z) :=
  let '(firstValue, lastValue, found) := Cut value "-" in
  if negb found || String.eqb firstValue "" || String.eqb lastValue "" || Contains lastValue "-"
  then Err RangeShape
  else match ParseIPv4 firstValue, ParseIPv4 lastValue with
       | Some first, Some last => Ok (first, last)
       | _, _ => Err RangeNotIPv4
       end.

Definition overlapProblems (first last : Z) (addresses : list (string * Z)) : list problem :=
  omap (fun '(name, a) => if (first <=? a)%Z && (a <=? last)%Z then Some (RangeOverlaps name a) else None) addresses.

Definition rangeProblems (value : string) (addresses : list (string * Z)) : list problem :=
  match parseIPv4Range value with
  | Err p => [p]
  | Ok (first, last) =>
      if (last <? first)%Z then [RangeDescending] else overlapProblems first last addresses
  end.

Definition validateLocalAccess (access : LocalAccess) : list problem :=
  let baseDomainValid := validDNSDomain (Domain access) in
  let hosts := PassthroughHosts access in
  let '(notIPv4, addresses) := staticAddresses (static access) in
  (if baseDomainValid then [] else [InvalidDomain]) ++
  (if (MaxPassthroughHosts <? length hosts)%nat then [TooManyHosts] else []) ++
  hostProblems (Domain access) baseDomainValid hosts ∅ ++
  (if (length (filter (eq "keycloak") hosts) =? 1)%nat then [] else [KeycloakNotOnce]) ++
  notIPv4 ++ ownerProblems addresses ∅ ++ rangeProblems (LoadBalancerRange access) addresses.

(** ** What an admitted access is *)

Definition octet (n : Z) : Prop := (0 <= n <= 255)%Z.
(** The text of an address and its value *)
Definition dotted (os : list Z) : string := Join (Itoa <$> os) ".".
Definition shift (acc n : Z) : Z := (acc * 256 + n)%Z.

(** The part of an octet that was scanned: nothing, or its digits *)
Definition scanned (val : Z) (digLen : nat) : string := if (digLen =? 0)%nat then "" else Itoa val.
Definition scan_ok (val : Z) (digLen : nat) : Prop :=
  octet val /\ (digLen = 0%nat -> val = 0%Z) /\ (digLen = 1%nat <-> (digLen <> 0%nat /\ (val < 10)%Z)).

Definition digit (d : nat) : ascii := ascii_of_nat (48 + d).
Lemma digit_value c : is_digit c = true -> exists d, (d < 10)%nat /\ c = digit d.
Proof.
  intros H. exists (N.to_nat (N_of_ascii c) - 48)%nat. unfold is_digit, in_range in H.
  apply andb_prop in H as [H1%N.leb_le H2%N.leb_le]. unfold byte_of in H1, H2.
  change (N_of_ascii "0") with 48%N in H1. change (N_of_ascii "9") with 57%N in H2. split; [lia|]. unfold digit.
  replace (48 + (N.to_nat (N_of_ascii c) - 48))%nat with (N.to_nat (N_of_ascii c)) by lia.
  change (N.to_nat (N_of_ascii c)) with (nat_of_ascii c). by rewrite ascii_nat_embedding.
Qed.

(** One more digit *)
Lemma Itoa_digit v d : (v < 26)%nat -> (d < 10)%nat -> v <> 0%nat ->
  Itoa (Z.of_nat v) +:+ String (digit d) "" = Itoa (Z.of_nat v * 10 + Z.of_nat d)%Z.
Proof.
  intros Hv Hd Hne. do 26 (destruct v as [|v]; [do 10 (destruct d as [|d]; [by vm_compute|]); lia|]). lia.
Qed.
Lemma Itoa_one d : (d < 10)%nat -> String (digit d) "" = Itoa (Z.of_nat d).
Proof. intros Hd. do 10 (destruct d as [|d]; [by vm_compute|]). lia. Qed.
Lemma digit_code d : (d < 10)%nat -> (Z.of_N (N_of_ascii (digit d)) - 48)%Z = Z.of_nat d /\ is_digit (digit d) = true.
Proof. intros Hd. do 10 (destruct d as [|d]; [by vm_compute|]). lia. Qed.

Lemma scanned_digit val digLen d :
  scan_ok val digLen -> (d < 10)%nat -> (digLen =? 1)%nat && (val =? 0)%Z = false -> (val * 10 + Z.of_nat d <= 255)%Z ->
  scan_ok (val * 10 + Z.of_nat d) (S digLen) /\
  scanned (val * 10 + Z.of_nat d) (S digLen) = scanned val digLen +:+ String (digit d) "".
Proof.
  intros ([H0 H255] & Hz & Hone) Hd Hlead Hmax. unfold scanned. cbn [Nat.eqb]. destruct (digLen =? 0)%nat eqn:Hn.
  - apply Nat.eqb_eq in Hn. rewrite (Hz Hn) in *. split; [|by rewrite str_append_nil_l, Itoa_one].
    split_and!; [split; lia|done|]. split; [lia|]. intros _. by rewrite Hn.
  - apply Nat.eqb_neq in Hn. assert (1 <= val)%Z as Hpos.
    { destruct (decide (digLen = 1%nat)) as [->|Hne]; [apply andb_false_iff in Hlead as [?|Hv%Z.eqb_neq]; [done|lia]|].
      destruct (decide (val < 10)%Z) as [Hlt|]; [|lia]. exfalso. by apply Hne, Hone. }
    split.
    + split_and!; [split; lia|done|]. split; [lia|]. intros [_ Hlt]. lia.
    + assert (exists v, (v < 26)%nat /\ v <> 0%nat /\ val = Z.of_nat v) as (v & Hv & Hv0 & ->) by (exists (Z.to_nat val); lia).
      by rewrite Itoa_digit.
Qed.

Lemma scan_sound s : forall val digLen acc pos x,
  scan_ok val digLen -> (pos <= 3)%nat -> parseIPv4Fields s val digLen acc pos = Some x ->
  exists os, length os = (4 - pos)%nat /\ Forall octet os /\ scanned val digLen +:+ s = dotted os /\ x = foldl shift acc os.
Proof.
  induction s as [|c s IH]; intros val digLen acc pos x Hok Hpos; cbn [parseIPv4Fields].
  - destruct (_ || _) eqn:Hend; [done|]. intros [= <-]. apply orb_false_iff in Hend as [H1%Nat.ltb_ge H2].
    exists [val]. split_and!; [simpl; lia|constructor; [apply Hok|done]| |done].
    unfold scanned, dotted. rewrite H2, str_append_nil_r. done.
  - destruct (is_digit c) eqn:Hc.
    + destruct (digit_value c Hc) as (d & Hd & ->). destruct (digit_code d Hd) as [Hcode _].
      destruct (_ && _) eqn:Hlead; [done|]. cbv zeta. rewrite Hcode. destruct (_ <? _)%Z eqn:Hmax; [done|].
      apply Z.ltb_ge in Hmax. destruct (scanned_digit val digLen d Hok Hd Hlead Hmax) as [Hok' Hs].
      intros Hp. destruct (IH _ _ _ _ _ Hok' Hpos Hp) as (os & ? & ? & Ht & ?). exists os. split_and!; try done.
      rewrite Hs, str_append_assoc in Ht. exact Ht.
    + destruct (Ascii.eqb c ".") eqn:Hdot; [|done]. apply Ascii.eqb_eq in Hdot as ->.
      destruct (_ || _) eqn:Hend; [done|]. apply orb_false_iff in Hend as [H1 H2%Nat.eqb_neq]. intros Hp.
      destruct (IH 0%Z 0%nat (acc * 256 + val)%Z (S pos) x) as (os & Hl & HF & Ht & Hx); [|lia|done|].
      { split_and!; [split; lia|done|lia]. }
      exists (val :: os). split_and!; [simpl; lia|constructor; [apply Hok|done]| |done].
      unfold scanned in Ht |- *. rewrite H1. unfold dotted. rewrite fmap_cons, Join_cons by (by destruct os; [simpl in Hl; lia|]).
      fold (dotted os). rewrite <- Ht. by rewrite str_append_nil_l.
Qed.

Lemma parse_octet n s acc pos : octet n ->
  exists k, parseIPv4Fields (Itoa n +:+ s) 0 0 acc pos = parseIPv4Fields s n (S k) acc pos.
Proof.
  intros [H0 H255]. assert (exists k, (k < 256)%nat /\ n = Z.of_nat k) as (k & Hk & ->) by (exists (Z.to_nat n); lia).
  clear H0 H255. do 256 (destruct k as [|k]; [eexists; reflexivity|]). lia.
Qed.

Lemma scan_complete os : forall acc pos, os <> [] -> length os = (4 - pos)%nat -> (pos <= 3)%nat -> Forall octet os ->
  parseIPv4Fields (dotted os) 0 0 acc pos = Some (foldl shift acc os).
Proof.
  induction os as [|n os IH]; intros acc pos Hne Hl Hpos HF; [done|]. apply Forall_cons in HF as [Hn HF].
  destruct os as [|n' os].
  - unfold dotted. rewrite <- (str_append_nil_r (Join _ _)). destruct (parse_octet n "" acc pos Hn) as (k & Hk).
    cbn [fmap list_fmap Join]. rewrite Hk. cbn [parseIPv4Fields]. simpl in Hl.
    replace (pos <? 3)%nat with false by (symmetry; apply Nat.ltb_ge; lia). done.
  - unfold dotted. rewrite fmap_cons, Join_cons by done. fold (dotted (n' :: os)).
    destruct (parse_octet n ("." +:+ dotted (n' :: os)) acc pos Hn) as (k & Hk). rewrite Hk. simpl in Hl.
    rewrite str_append_cons. cbn [parseIPv4Fields]. replace (pos =? 3)%nat with false by (symmetry; apply Nat.eqb_neq; lia).
    cbn [Nat.eqb orb]. replace (Ascii.eqb "." ".") with true by done. replace (is_digit ".") with false by done.
    rewrite str_append_nil_l. by apply IH; [|simpl; lia|lia|].
Qed.

(** An address is read exactly when it is four octets with dots between. *)
Lemma ParseIPv4_iff s x :
  ParseIPv4 s = Some x <-> exists os, length os = 4%nat /\ Forall octet os /\ s = dotted os /\ x = foldl shift 0%Z os.
Proof.
  unfold ParseIPv4. split.
  - intros H. destruct (scan_sound s 0 0 0 0 x) as (os & Hl & HF & Hs & Hx); [|lia|done|by exists os].
    split_and!; [split; lia|done|lia].
  - intros (os & Hl & HF & -> & ->). apply scan_complete; [by destruct os|done|lia|done].
Qed.

(** ** When no problem is reported *)

Lemma hostProblems_nil domain hosts seen :
  hostProblems domain true hosts seen = [] <->
  Forall (fun h => validDNSLabel h = true /\ validDNSDomain (h +:+ "." +:+ domain) = true) hosts /\
  NoDup hosts /\ Forall (fun h => h ∉ seen) hosts.
Proof.
  revert seen. induction hosts as [|h hosts IH]; intros seen; cbn [hostProblems].
  { split; [intros _; by split_and!; constructor|done]. }
  rewrite !app_nil, IH, !Forall_cons, NoDup_cons. rewrite (Forall_forall (fun h => h ∉ {[_]} ∪ seen)), (Forall_forall (fun h => h ∉ seen)).
  destruct (validDNSLabel h); cbn [negb andb]; [|naive_solver].
  destruct (validDNSDomain _); cbn [negb]; [|naive_solver]. case_bool_decide; set_solver.
Qed.

Lemma keycloak_once hosts : NoDup hosts ->
  (length (filter (eq "keycloak") hosts) =? 1)%nat = true <-> "keycloak" ∈ hosts.
Proof.
  rewrite Nat.eqb_eq. induction hosts as [|h hosts IH]; [set_solver|]. rewrite NoDup_cons, filter_cons. intros [Hh Hnd].
  destruct (decide ("keycloak" = h)) as [<-|Hne]; [|rewrite IH by done; set_solver].
  replace (filter (eq "keycloak") hosts) with (@nil string); [simpl; set_solver|]. symmetry.
  destruct (filter _ hosts) as [|x l] eqn:Hf; [done|]. assert (x ∈ filter (eq "keycloak") hosts) as Hx by (rewrite Hf; by left).
  apply list_elem_of_filter in Hx as [<- Hx]. done.
Qed.

Lemma ownerProblems_nil addresses owners :
  ownerProblems addresses owners = [] <-> NoDup addresses.*2 /\ Forall (fun a => owners !! a = None) addresses.*2.
Proof.
  revert owners. induction addresses as [|[name a] l IH]; intros owners; cbn [ownerProblems].
  { split; [intros _; split; by constructor|done]. }
  rewrite fmap_cons, NoDup_cons, Forall_cons. cbn [snd]. destruct (owners !! a) as [prev|] eqn:Ho; [naive_solver|].
  rewrite IH, !Forall_forall. split.
  - intros [Hnd Hf]. split_and!; [|done|done|].
    + intros Ha. specialize (Hf a Ha). by rewrite lookup_insert_eq in Hf.
    + intros x Hx. specialize (Hf x Hx). apply lookup_insert_None in Hf. tauto.
  - intros ((Ha & Hnd) & _ & Hf). split; [done|]. intros x Hx. rewrite lookup_insert_ne; [by apply Hf|]. by intros <-.
Qed.

Lemma address_chars s x : ParseIPv4 s = Some x -> str_forallb (fun c => is_digit c || Ascii.eqb c ".") s = true.
Proof.
  assert (forall val k acc pos, parseIPv4Fields s val k acc pos = Some x ->
    str_forallb (fun c => is_digit c || Ascii.eqb c ".") s = true) as H; [|apply H].
  induction s as [|c s IH]; intros val k acc pos; cbn [parseIPv4Fields str_forallb]; [done|].
  destruct (is_digit c); [|destruct (Ascii.eqb c "."); [|done]]; cbn [orb andb].
  - destruct (_ && _); [done|]. cbv zeta. destruct (_ <? _)%Z; [done|]. apply IH.
  - destruct (_ || _); [done|]. apply IH.
Qed.

Lemma prefix_hyphen c s : String.prefix "-" (String c s) = Ascii.eqb c "-".
Proof.
  cbn [String.prefix]. destruct (ascii_dec "-" c) as [<-|Hne]; [by destruct s|]. symmetry. apply Ascii.eqb_neq. congruence.
Qed.

Lemma no_hyphen s : str_forallb (fun c => is_digit c || Ascii.eqb c ".") s = true -> Index s "-" = None.
Proof.
  induction s as [|c s IH]; [done|]. cbn [str_forallb]. intros [Hc Hs]%andb_prop. cbn [Index].
  rewrite prefix_hyphen. destruct (Ascii.eqb c "-") eqn:He; [apply Ascii.eqb_eq in He; by subst|]. by rewrite IH.
Qed.

Lemma Index_hyphen f l : Index f "-" = None -> Index (f +:+ "-" +:+ l) "-" = Some (String.length f).
Proof.
  induction f as [|c f IH]; [by destruct l|]. rewrite str_append_cons. cbn [Index String.length].
  rewrite !prefix_hyphen. destruct (Ascii.eqb c "-"); [done|].
  destruct (Index f "-") eqn:Hf; [done|]. intros _. by rewrite IH.
Qed.

Lemma Index_split s i : Index s "-" = Some i -> s = str_take i s +:+ "-" +:+ str_drop (i + 1) s.
Proof.
  revert i. induction s as [|c s IH]; intros i; [done|]. cbn [Index]. rewrite prefix_hyphen. destruct (Ascii.eqb c "-") eqn:He.
  - intros [= <-]. apply Ascii.eqb_eq in He as ->. by destruct s.
  - destruct (Index s "-") as [j|] eqn:Hj; [|done]. intros [= <-]. cbn [str_take str_drop Nat.add].
    rewrite str_append_cons. f_equal. by apply IH.
Qed.

(** The range is two addresses with a hyphen between. *)
Lemma parseIPv4Range_iff value first last :
  parseIPv4Range value = Ok (first, last) <->
  exists f l, value = f +:+ "-" +:+ l /\ ParseIPv4 f = Some first /\ ParseIPv4 l = Some last.
Proof.
  unfold parseIPv4Range, Cut. split.
  - destruct (Index value "-") as [i|] eqn:Hi; cbn [negb orb]; [|done].
    destruct (_ || _); [done|]. destruct (ParseIPv4 (str_take i value)) as [a|] eqn:Hf; [|done].
    destruct (ParseIPv4 (str_drop _ value)) as [b|] eqn:Hl; [|done]. intros [= <- <-].
    eexists _, _. split_and!; [|exact Hf|exact Hl]. apply Index_split in Hi. exact Hi.
  - intros (f & l & -> & Hf & Hl). pose proof (no_hyphen f (address_chars f _ Hf)) as Nf.
    pose proof (no_hyphen l (address_chars l _ Hl)) as Nl. rewrite (Index_hyphen f l Nf).
    rewrite str_take_append. change (String.length "-") with 1%nat.
    replace (str_drop (String.length f + 1) (f +:+ "-" +:+ l)) with l.
    2: { rewrite <- (str_append_assoc f "-" l). rewrite <- (str_drop_append (f +:+ "-") l) at 1.
         by rewrite str_length_append. }
    rewrite Hf, Hl. cbn [negb orb]. replace (Contains l "-") with false by (unfold Contains; by rewrite Nl).
    replace (String.eqb f "") with false by (destruct f; [done|done]).
    replace (String.eqb l "") with false by (destruct l; [done|done]). done.
Qed.

(** What a local target needs for its DNS and its load balancer: a domain, at
    most 32 distinct host labels that form names under it, Keycloak's among
    them, three distinct addresses, and an ascending range that holds none of
    them. *)
Record admitted (access : LocalAccess) (dns public passthrough first last : Z) : Prop := {
  admitted_domain : validDNSDomain (Domain access) = true;
  admitted_count : (length (PassthroughHosts access) <= 32)%nat;
  admitted_hosts : Forall (fun h => validDNSLabel h = true /\ validDNSDomain (h +:+ "." +:+ Domain access) = true)
                     (PassthroughHosts access);
  admitted_distinct : NoDup (PassthroughHosts access);
  admitted_keycloak : "keycloak" ∈ PassthroughHosts access;
  admitted_dns : ParseIPv4 (DNSServer access) = Some dns;
  admitted_public : ParseIPv4 (PublicIngressVIP access) = Some public;
  admitted_passthrough : ParseIPv4 (PassthroughIngressVIP access) = Some passthrough;
  admitted_addresses : NoDup [dns; public; passthrough];
  admitted_range : exists f l, LoadBalancerRange access = f +:+ "-" +:+ l /\
                     ParseIPv4 f = Some first /\ ParseIPv4 l = Some last;
  admitted_ascending : (first <= last)%Z;
  admitted_outside : Forall (fun a => a < first \/ last < a)%Z [dns; public; passthrough]
}.

Lemma overlapProblems_nil first last addresses :
  overlapProblems first last addresses = [] <-> Forall (fun a => a < first \/ last < a)%Z addresses.*2.
Proof.
  unfold overlapProblems. induction addresses as [|[name a] l IH]; [by split|]. rewrite fmap_cons, Forall_cons. simpl.
  destruct (_ && _) eqn:Hb.
  - split; [done|]. intros [H _]. apply andb_prop in Hb as [H1%Z.leb_le H2%Z.leb_le]. lia.
  - rewrite IH. apply andb_false_iff in Hb as [H%Z.leb_gt|H%Z.leb_gt]; naive_solver lia.
Qed.

Lemma rangeProblems_nil value addresses :
  rangeProblems value addresses = [] <->
  exists first last, (exists f l, value = f +:+ "-" +:+ l /\ ParseIPv4 f = Some first /\ ParseIPv4 l = Some last) /\
    (first <= last)%Z /\ Forall (fun a => a < first \/ last < a)%Z addresses.*2.
Proof.
  unfold rangeProblems. split.
  - destruct (parseIPv4Range value) as [[first last]|p] eqn:Hr; [|done]. destruct (last <? first)%Z eqn:Hlt; [done|].
    intros Ho%overlapProblems_nil. exists first, last. split_and!; [by apply parseIPv4Range_iff|by apply Z.ltb_ge|done].
  - intros (first & last & Hr%parseIPv4Range_iff & Hle & Ho). rewrite Hr.
    replace (last <? first)%Z with false by (symmetry; by apply Z.ltb_ge). by apply overlapProblems_nil.
Qed.

(** C40. A local target is admitted without a problem exactly when its access
    satisfies [admitted]: in particular its VIPs are distinct IPv4 addresses
    outside the range the load balancer hands out, and every passthrough host
    is a name under its domain, Keycloak's exactly once. *)
Theorem local_access_admitted access :
  validateLocalAccess access = [] <-> exists dns public passthrough first last,
    admitted access dns public passthrough first last.
Proof.
  unfold validateLocalAccess, static. cbn [staticAddresses]. split.
  - destruct (ParseIPv4 (DNSServer access)) as [dns|] eqn:H1, (ParseIPv4 (PublicIngressVIP access)) as [public|] eqn:H2,
      (ParseIPv4 (PassthroughIngressVIP access)) as [pass|] eqn:H3; rewrite !app_nil; try naive_solver.
    intros (Hd & Hn & Hh & Hk & _ & Ho & Hr). destruct (validDNSDomain (Domain access)) eqn:Hdom; [|done].
    apply hostProblems_nil in Hh as (Hh & Hnd & _). apply ownerProblems_nil in Ho as [Ho _].
    apply rangeProblems_nil in Hr as (first & last & Hr & Hle & Hout). exists dns, public, pass, first, last.
    destruct (_ <? _)%nat eqn:Hc; [done|]. apply Nat.ltb_ge in Hc. destruct (_ =? 1)%nat eqn:Hone; [|done].
    apply keycloak_once in Hone; [|done]. by constructor.
  - intros (dns & public & pass & first & last & []). rewrite admitted_dns0, admitted_public0, admitted_passthrough0, admitted_domain0.
    rewrite !app_nil. split_and!; [done| | | |done| |].
    + by replace (_ <? _)%nat with false by (symmetry; by apply Nat.ltb_ge).
    + apply hostProblems_nil. split_and!; [done|done|]. apply Forall_forall. set_solver.
    + by rewrite (proj2 (keycloak_once _ admitted_distinct0) admitted_keycloak0).
    + apply ownerProblems_nil. split; [done|]. apply Forall_forall. done.
    + apply rangeProblems_nil. by exists first, last.
Qed.

(** The access of a development machine *)
Definition local0 : LocalAccess :=
  {| Domain := "atum.local"; DNSServer := "192.168.100.2"; PublicIngressVIP := "192.168.100.200";
     PassthroughIngressVIP := "192.168.100.201"; LoadBalancerRange := "192.168.100.210-192.168.100.240";
     PassthroughHosts := ["keycloak"; "vault"] |}.
Example local0_admitted : validateLocalAccess local0 = [].
Proof. vm_compute. reflexivity. Qed.
End LocalAccess.
