(* ===== verification/VaultServer.v ===== *)
(** Cleaning a Vault that behaves as its API documents: a state with its
    mounts, roles, policies, groups and aliases, the answers to reads and the
    effects of deletions as laws on any server, save of what a server builds in,
    and the proof that [Vault.Cleanup] ends well and leaves exactly what is not
    owned. *)
From stdpp Require Import prelude gmap strings list.
From Stdlib Require Import Ascii ZArith Lia.
From S2P Require Import Prelude GoStrings Json NetUrl IdentityApi Provider Vault ProviderLogic VaultTheorems.

Module VaultServer.
Import Json NetUrl IdentityApi Provider Vault ProviderLogic.

Record vaultState := {
  s_mounts : gmap string jsonMount;
  s_roles : gmap string (list string);     (** by the path of the mount *)
  s_policies : gmap string string;
  s_groups : gmap string vaultGroup;       (** by identity *)
  s_aliases : gmap string vaultGroupAlias  (** by identity *)
}.

Definition with_aliases (x : gmap string vaultGroupAlias) (s : vaultState) : vaultState :=
  {| s_mounts := s_mounts s; s_roles := s_roles s; s_policies := s_policies s; s_groups := s_groups s; s_aliases := x |}.
Definition with_groups (x : gmap string vaultGroup) (s : vaultState) : vaultState :=
  {| s_mounts := s_mounts s; s_roles := s_roles s; s_policies := s_policies s; s_groups := x; s_aliases := s_aliases s |}.
Definition with_policies (x : gmap string string) (s : vaultState) : vaultState :=
  {| s_mounts := s_mounts s; s_roles := s_roles s; s_policies := x; s_groups := s_groups s; s_aliases := s_aliases s |}.
Definition with_mounts (x : gmap string jsonMount) (s : vaultState) : vaultState :=
  {| s_mounts := x; s_roles := s_roles s; s_policies := s_policies s; s_groups := s_groups s; s_aliases := s_aliases s |}.
Definition with_roles (x : gmap string (list string)) (s : vaultState) : vaultState :=
  {| s_mounts := s_mounts s; s_roles := x; s_policies := s_policies s; s_groups := s_groups s; s_aliases := s_aliases s |}.

(** Groups and aliases know their identities; mount paths end in a slash. *)
Record state_ok (s : vaultState) : Prop := {
  ok_groups : map_Forall (fun id g => ID g = id /\ id <> "") (s_groups s);
  ok_aliases : map_Forall (fun id a => AID a = id) (s_aliases s);
  ok_mounts : map_Forall (fun key _ => exists p, key = p +:+ "/") (s_mounts s)
}.

Definition ownedM (m : jsonMount) : bool := String.eqb (Description m) vaultMountDescription.
Definition ownedP (body : string) : bool := HasPrefix body vaultPolicyMarker.

(** What Vault creates itself and does not give up *)
Definition builtinPolicies : list string := ["default"; "root"; "response-wrapping"; "control-group"].
Definition builtinMount : string := "token/".

(** Nobody wrote the markers on these. *)
Record unprotected (s : vaultState) : Prop := {
  un_policies : map_Forall (fun name body => ownedP body = true -> name ∉ builtinPolicies) (s_policies s);
  un_mounts : map_Forall (fun key m => ownedM m = true -> key <> builtinMount) (s_mounts s)
}.

(** The paths a cleanup asks for *)
Inductive cleanupPath : string -> Prop :=
  | path_auth : cleanupPath "/v1/sys/auth"
  | path_list endpoint : endpoint ∈ ["/v1/identity/group-alias/id"; "/v1/identity/group/id"; "/v1/sys/policies/acl"] ->
      cleanupPath (endpoint +:+ "?list=true")
  | path_entry prefix name :
      prefix ∈ ["/v1/identity/group-alias/id/"; "/v1/identity/group/id/"; "/v1/sys/policies/acl/"; "/v1/sys/auth/"] ->
      cleanupPath (prefix +:+ PathEscape name)
  | path_roles authPath : cleanupPath (("/v1/auth/" +:+ PathEscape authPath +:+ "/role") +:+ "?list=true")
  | path_role authPath : cleanupPath ("/v1/auth/" +:+ PathEscape authPath +:+ "/role/" +:+ PathEscape roleName).

(** The path in the goal is one of them. *)
Ltac cleanup_path := first
  [ apply path_auth | apply path_roles | apply path_role
  | apply path_list; repeat constructor | apply path_entry; repeat constructor ].

Definition ownedIn (groups : gmap string vaultGroup) (id : string) : bool :=
  match groups !! id with Some g => ownedMetadata g | None => false end.

Lemma map_Forall_weaken {A} (P : string -> A -> Prop) (m m' : gmap string A) : m' ⊆ m -> map_Forall P m -> map_Forall P m'.
Proof. intros Hsub H k x Hx. apply H. by eapply lookup_weaken. Qed.

Section Server.
Context {LI : Libraries} {W : Type}.
Variables (h : handler W) (v : Client) (view : W -> vaultState).

Definition reply (method path : string) (w : W) : response * W := h (Do (jsonRequest v method path None)) w.

(** A read answers [a] and changes nothing. *)
Definition shows {A} (path : string) (f : setter A) (zero : A) (accepted : list Z) (w : W) (a : A) : Prop :=
  decoded "GET" path (underData f) zero accepted (reply "GET" path w).1 = Ok a /\
  view (reply "GET" path w).2 = view w.
Definition lists (endpoint : string) (w : W) (ids : list string) : Prop :=
  shows (endpoint +:+ "?list=true") (decode_open [("keys", asList "" asString)]) [] [200; 404]%Z w ids.
(** A deletion is accepted. *)
Definition removes (path : string) (w : W) (s : vaultState) : Prop :=
  is_ok (receive "DELETE" path [] (reply "DELETE" path w).1) = true /\ view (reply "DELETE" path w).2 = s.

(** The documented behaviour the cleanup relies on, of a Vault that is up and that
    nobody else changes meanwhile.  The base address parses with what is appended
    to it, whose variable parts are escaped.  The roles and the end of a mount are
    those of an OIDC mount of Atum's; built-in policies and the token mount are
    listed and read, but no law lets them be deleted. *)
Record vault_laws : Prop := {
  law_url path : cleanupPath path -> Parse (baseURL v +:+ path) <> None;
  law_range keys w : view (h (Range keys) w).2 = view w;
  law_aliases w : exists ids, ids ≡ₚ (map_to_list (s_aliases (view w))).*1 /\ lists "/v1/identity/group-alias/id" w ids;
  law_alias w id a : s_aliases (view w) !! id = Some a ->
    shows ("/v1/identity/group-alias/id/" +:+ PathEscape id) decodeAlias zeroAlias [] w a;
  law_alias_delete w id a : s_aliases (view w) !! id = Some a ->
    removes ("/v1/identity/group-alias/id/" +:+ PathEscape id) w (with_aliases (delete id (s_aliases (view w))) (view w));
  law_groups w : exists ids, ids ≡ₚ (map_to_list (s_groups (view w))).*1 /\ lists "/v1/identity/group/id" w ids;
  law_group w id g : s_groups (view w) !! id = Some g ->
    shows ("/v1/identity/group/id/" +:+ PathEscape id) decodeGroup zeroGroup [] w g;
  (** the group an alias points to, absent as the empty answer of a 404 *)
  law_alias_group w id a : s_aliases (view w) !! id = Some a -> CanonicalID a <> "" ->
    shows ("/v1/identity/group/id/" +:+ PathEscape (CanonicalID a)) decodeGroup zeroGroup [200; 404]%Z w
      (default zeroGroup (s_groups (view w) !! CanonicalID a));
  (** the aliases of a group go with it *)
  law_group_delete w id g : s_groups (view w) !! id = Some g ->
    removes ("/v1/identity/group/id/" +:+ PathEscape id) w
      (with_aliases (filter (fun ka => CanonicalID ka.2 <> id) (s_aliases (view w)))
         (with_groups (delete id (s_groups (view w))) (view w)));
  law_policies w : exists names, names ≡ₚ (map_to_list (s_policies (view w))).*1 /\ lists "/v1/sys/policies/acl" w names;
  law_policy w name body : s_policies (view w) !! name = Some body ->
    shows ("/v1/sys/policies/acl/" +:+ PathEscape name) (oneString "policy") "" [200; 404]%Z w body;
  law_policy_delete w name body : s_policies (view w) !! name = Some body -> name ∉ builtinPolicies ->
    removes ("/v1/sys/policies/acl/" +:+ PathEscape name) w (with_policies (delete name (s_policies (view w))) (view w));
  law_mounts w : shows "/v1/sys/auth" (asMap zeroMount decodeMount) ∅ [] w (s_mounts (view w));
  law_roles w p m : s_mounts (view w) !! (p +:+ "/") = Some m -> ownedM m = true ->
    lists ("/v1/auth/" +:+ PathEscape p +:+ "/role") w (default [] (s_roles (view w) !! p));
  law_role_delete w p m : s_mounts (view w) !! (p +:+ "/") = Some m -> ownedM m = true -> roleName ∈ default [] (s_roles (view w) !! p) ->
    removes ("/v1/auth/" +:+ PathEscape p +:+ "/role/" +:+ PathEscape roleName) w
      (with_roles (<[p := filter (fun r => r <> roleName) (default [] (s_roles (view w) !! p))]> (s_roles (view w))) (view w));
  (** a mount goes with its roles; which aliases go with it is left open *)
  law_unmount w p m : s_mounts (view w) !! (p +:+ "/") = Some m -> ownedM m = true -> p +:+ "/" <> builtinMount ->
    exists aliases, aliases ⊆ s_aliases (view w) /\
      removes ("/v1/sys/auth/" +:+ PathEscape p) w
        (with_aliases aliases (with_roles (delete p (s_roles (view w)))
           (with_mounts (delete (p +:+ "/") (s_mounts (view w))) (view w))))
}.

(** ** Programs on the state *)

(** From every server in the state [s], [m] returns [a] and leaves a server
    in a state that satisfies [Q]. *)
Definition reaches {A} (m : M A) (s : vaultState) (Q : A -> vaultState -> Prop) : Prop :=
  forall w t, view w = s -> exists a t' w', exec h m w t = (Some (Ok a), t', w') /\ Q a (view w').

Lemma reaches_ret {A} (a : A) s (Q : A -> vaultState -> Prop) : Q a s -> reaches (mret a) s Q.
Proof. intros H w t <-. by exists a, t, w. Qed.
Lemma reaches_bind {A B} (m : M A) (f : A -> M B) s (Q : B -> vaultState -> Prop) :
  reaches m s (fun a s' => reaches (f a) s' Q) -> reaches (m ≫= f) s Q.
Proof.
  intros H w t Hw. destruct (H w t Hw) as (a & t1 & w1 & He & Hf). destruct (Hf w1 t1 eq_refl) as (b & t2 & w2 & He2 & HQ).
  exists b, t2, w2. split; [|done]. unfold mbind, M_bind. by rewrite exec_bind, He.
Qed.
Lemma reaches_mono {A} (m : M A) s (Q Q' : A -> vaultState -> Prop) :
  reaches m s Q -> (forall a s', Q a s' -> Q' a s') -> reaches m s Q'.
Proof. intros H HQ w t Hw. destruct (H w t Hw) as (a & t1 & w1 & He & Hf). exists a, t1, w1. auto. Qed.
Lemma reaches_wrapped {A} prefix (m : M A) s (Q : A -> vaultState -> Prop) : reaches m s Q -> reaches (wrapped prefix m) s Q.
Proof.
  intros H w t Hw. destruct (H w t Hw) as (a & t1 & w1 & He & Hf). exists a, t1, w1. split; [|done].
  unfold wrapped. by rewrite exec_bind, He.
Qed.
Lemma reaches_require (b : bool) e s (Q : unit -> vaultState -> Prop) : b = true -> Q tt s -> reaches (require b e) s Q.
Proof. intros ->. by apply reaches_ret. Qed.

Hypothesis laws : vault_laws.

Lemma reaches_read {A} path (f : setter A) zero accepted s (Q : A -> vaultState -> Prop) : cleanupPath path ->
  (forall w, view w = s -> exists a, shows path f zero accepted w a /\ Q a s) ->
  reaches (read v path f zero accepted) s Q.
Proof.
  intros Hpath H w t Hw. destruct (H w Hw) as (a & [Hd Hv] & HQ). unfold read, JSON.
  destruct (Parse _) eqn:Hp; [|by apply (law_url laws) in Hpath]. cbn [bind call exec].
  unfold reply in Hd, Hv. unfold jsonRequest in Hd, Hv. destruct (h _ w) as [r w'] eqn:Hh. cbn [fst snd] in Hd, Hv.
  exists a, (t ++ [ev (Do _) r]), w'. split; [|by rewrite Hv, Hw].
  fold (decoded "GET" path (underData f) zero accepted r). by rewrite Hd.
Qed.

Lemma reaches_send path s (Q : unit -> vaultState -> Prop) : cleanupPath path ->
  (forall w, view w = s -> exists s', removes path w s' /\ Q tt s') -> reaches (send v "DELETE" path None) s Q.
Proof.
  intros Hpath H w t Hw. destruct (H w Hw) as (s' & [Hok Hv] & HQ). unfold send, JSON.
  destruct (Parse _) eqn:Hp; [|by apply (law_url laws) in Hpath]. cbn [bind call exec].
  unfold reply, jsonRequest in Hok, Hv. destruct (h _ w) as [r w'] eqn:Hh. cbn [fst snd] in Hok, Hv.
  exists tt, (t ++ [ev (Do _) r]), w'. split; [|by rewrite Hv]. by destruct (receive "DELETE" path [] r).
Qed.

(** ** Aliases *)

(** The aliases without those in [ids] that point to owned groups *)
Definition keptAliases (ids : list string) (s : vaultState) : gmap string vaultGroupAlias :=
  filter (fun ka => bool_decide (ka.1 ∈ ids) && ownedIn (s_groups s) (CanonicalID ka.2) = false) (s_aliases s).

Lemma keptAliases_nil s : with_aliases (keptAliases [] s) s = s.
Proof.
  unfold keptAliases. rewrite (map_filter_id _ (s_aliases s)); [by destruct s|].
  intros id a _. by rewrite bool_decide_eq_false_2 by (by intros ?%elem_of_nil).
Qed.

Lemma keptAliases_skip id ids s a : s_aliases s !! id = Some a -> ownedIn (s_groups s) (CanonicalID a) = false ->
  keptAliases (id :: ids) s = keptAliases ids s.
Proof.
  intros Ha Ho. apply map_filter_ext. intros k b Hb. cbn [fst snd].
  destruct (decide (k = id)) as [->|Hne]; [rewrite Ha in Hb; simplify_eq; by rewrite Ho, !andb_false_r|].
  assert (bool_decide (k ∈ id :: ids) = bool_decide (k ∈ ids)) as -> by (apply bool_decide_ext; set_solver). done.
Qed.

Lemma keptAliases_drop id ids s a : id ∉ ids -> s_aliases s !! id = Some a -> ownedIn (s_groups s) (CanonicalID a) = true ->
  keptAliases (id :: ids) s = keptAliases ids (with_aliases (delete id (s_aliases s)) s).
Proof.
  intros Hnin Ha Ho. unfold keptAliases. cbn [s_groups s_aliases with_aliases]. apply map_eq. intros k.
  apply option_eq. intros b. rewrite !map_lookup_filter_Some. cbn [fst snd].
  destruct (decide (k = id)) as [->|Hne].
  - rewrite lookup_delete_eq, Ha. split; [|naive_solver]. intros [[= <-] Hb].
    rewrite Ho, andb_true_r in Hb. apply bool_decide_eq_false in Hb. set_solver.
  - rewrite lookup_delete_ne by done.
    assert (bool_decide (k ∈ id :: ids) = bool_decide (k ∈ ids)) as -> by (apply bool_decide_ext; set_solver). done.
Qed.

Lemma reaches_groupIsOwned s id a :
  state_ok s -> s_aliases s !! id = Some a ->
  reaches (groupIsOwned v (CanonicalID a)) s (fun b s' => b = ownedIn (s_groups s) (CanonicalID a) /\ s' = s).
Proof.
  intros Hok Ha. unfold groupIsOwned, ownedIn. destruct (String.eqb (CanonicalID a) "") eqn:He.
  { apply String.eqb_eq in He. apply reaches_ret. split; [|done]. rewrite He.
    destruct (s_groups s !! "") as [g|] eqn:Hg; [|done]. by destruct (ok_groups s Hok "" g Hg). }
  apply String.eqb_neq in He. apply reaches_bind, reaches_read; [cleanup_path|]. intros w <-. eexists. split; [by eapply law_alias_group|].
  apply reaches_ret. split; [|done]. destruct (s_groups (view w) !! CanonicalID a) as [g|] eqn:Hg; [|done]. simpl.
  destruct (ok_groups _ Hok _ _ Hg) as [-> Hne]. by apply String.eqb_neq in Hne as ->.
Qed.

Lemma reaches_pruneAliasLoop ids : forall s checked,
  state_ok s -> NoDup ids -> (forall id, id ∈ ids -> is_Some (s_aliases s !! id)) ->
  (forall g b, checked !! g = Some b -> b = ownedIn (s_groups s) g) ->
  reaches (pruneAliasLoop v ids ∅ checked) s (fun _ s' => s' = with_aliases (keptAliases ids s) s).
Proof.
  induction ids as [|id ids IH]; intros s checked Hok Hnd Hin Hc.
  { apply reaches_ret. by rewrite keptAliases_nil. }
  apply NoDup_cons in Hnd as [Hnin Hnd]. destruct (Hin id ltac:(by left)) as [a Ha].
  apply reaches_bind, reaches_read; [cleanup_path|]. intros w Hw. exists a. split; [apply law_alias; [done|by rewrite Hw]|].
  rewrite bool_decide_eq_false_2 by set_solver. apply reaches_bind.
  eapply reaches_mono with (Q := fun b s' => b = ownedIn (s_groups s) (CanonicalID a) /\ s' = s).
  { destruct (checked !! CanonicalID a) as [b|] eqn:Hl; [apply reaches_ret; split; [by apply Hc|done]|].
    by eapply reaches_groupIsOwned. }
  intros b s' [Hb ->]. assert (forall g b', <[CanonicalID a := b]> checked !! g = Some b' -> b' = ownedIn (s_groups s) g) as Hc'.
  { intros g b'. destruct (decide (g = CanonicalID a)) as [->|Hne].
    - rewrite lookup_insert_eq. by intros [= <-].
    - rewrite lookup_insert_ne by done. apply Hc. }
  apply reaches_bind. destruct b; symmetry in Hb.
  - pose proof (ok_aliases s Hok id a Ha) as ->. apply reaches_send; [cleanup_path|].
    intros w' Hw'. eexists. split; [eapply law_alias_delete; [done|by rewrite Hw']|]. rewrite Hw'.
    rewrite (keptAliases_drop id ids s a Hnin Ha Hb).
    apply (IH (with_aliases (delete id (s_aliases s)) s)); [|done| |done].
    + split; [apply Hok|by apply map_Forall_delete, Hok|apply Hok].
    + intros id' Hid'. cbn [s_aliases with_aliases]. rewrite lookup_delete_ne by (by intros ->). apply Hin. by right.
  - apply reaches_ret. rewrite (keptAliases_skip id ids s a Ha Hb). apply IH; [done|done| |done].
    intros id' Hid'. apply Hin. by right.
Qed.

Lemma listed_in {A} (m : gmap string A) ids : ids ≡ₚ (map_to_list m).*1 ->
  NoDup ids /\ (forall id, id ∈ ids <-> is_Some (m !! id)).
Proof.
  intros Hp. split; [rewrite Hp; apply NoDup_fst_map_to_list|]. intros id. rewrite Hp, list_elem_of_fmap. split.
  - intros ([k x] & -> & Hin%elem_of_map_to_list). by exists x.
  - intros [x Hx]. exists (id, x). split; [done|]. by apply elem_of_map_to_list.
Qed.

(** What is left of each kind *)
Definition foreignAliases (s : vaultState) : gmap string vaultGroupAlias :=
  filter (fun ka => ownedIn (s_groups s) (CanonicalID ka.2) = false) (s_aliases s).
Definition foreignGroups (s : vaultState) : gmap string vaultGroup :=
  filter (fun kg => ownedMetadata kg.2 = false) (s_groups s).
Definition foreignPolicies (s : vaultState) : gmap string string :=
  filter (fun kp => HasPrefix kp.2 vaultPolicyMarker = false) (s_policies s).
Definition foreignMounts (s : vaultState) : gmap string jsonMount :=
  filter (fun km => String.eqb (Description km.2) vaultMountDescription = false) (s_mounts s).

Lemma keptAliases_all ids s : ids ≡ₚ (map_to_list (s_aliases s)).*1 -> keptAliases ids s = foreignAliases s.
Proof.
  intros [_ Hin]%listed_in. apply map_filter_ext. intros k a Ha. cbn [fst snd].
  rewrite bool_decide_eq_true_2; [done|]. apply Hin. by exists a.
Qed.

Lemma reaches_pruneAliases s : state_ok s ->
  reaches (pruneAliases v ∅) s (fun _ s' => s' = with_aliases (foreignAliases s) s).
Proof.
  intros Hok. apply reaches_bind, reaches_read; [cleanup_path|]. intros w Hw. destruct (law_aliases laws w) as (ids & Hids & Hl).
  exists ids. split; [exact Hl|]. rewrite Hw in Hids. rewrite <- (keptAliases_all ids s Hids).
  destruct (listed_in _ _ Hids) as [Hnd Hin]. apply reaches_pruneAliasLoop; [done|done|by intros id ?%Hin|].
  intros g b. by rewrite lookup_empty.
Qed.


(** ** A loop that visits the keys of a map *)

Lemma reaches_for_each {A} (l : list A) (f : A -> M unit) s (J : list A -> vaultState -> Prop) :
  (forall x l s, J (x :: l) s -> reaches (f x) s (fun _ s' => J l s')) -> J l s ->
  reaches (for_each l f) s (fun _ s' => J [] s').
Proof.
  intros Hf. revert s. induction l as [|x l IH]; intros s HJ; [by apply reaches_ret|].
  apply reaches_bind. eapply reaches_mono; [by apply Hf|]. intros ? s' HJ'. by apply IH.
Qed.

Section Kept.
Context {A : Type}.
Variables (owned : A -> bool) (m : gmap string A).
(** Owned entries are still there while their keys are to be visited. *)
Definition kept (rest : list string) : gmap string A :=
  filter (fun kx => negb (owned kx.2) || bool_decide (kx.1 ∈ rest) = true) m.

Lemma kept_all ids : ids ≡ₚ (map_to_list m).*1 -> kept ids = m.
Proof.
  intros [_ Hin]%listed_in. apply map_filter_id. intros k x Hx. cbn [fst snd].
  rewrite bool_decide_eq_true_2 by (apply Hin; by exists x). apply orb_true_r.
Qed.
Lemma kept_nil : kept [] = filter (fun kx => owned kx.2 = false) m.
Proof.
  apply map_filter_ext. intros k x _. cbn [fst snd]. rewrite bool_decide_eq_false_2 by (by intros ?%elem_of_nil).
  rewrite orb_false_r. apply negb_true_iff.
Qed.
Lemma kept_here k rest x : m !! k = Some x -> kept (k :: rest) !! k = Some x.
Proof.
  intros Hx. apply map_lookup_filter_Some. split; [done|]. cbn [fst snd].
  rewrite bool_decide_eq_true_2 by (by left). apply orb_true_r.
Qed.
Lemma kept_skip k rest x : m !! k = Some x -> owned x = false -> kept (k :: rest) = kept rest.
Proof.
  intros Hx Ho. apply map_filter_ext. intros k' x' Hx'. cbn [fst snd]. destruct (decide (k' = k)) as [->|Hne].
  - rewrite Hx in Hx'. simplify_eq. by rewrite Ho.
  - assert (bool_decide (k' ∈ k :: rest) = bool_decide (k' ∈ rest)) as -> by (apply bool_decide_ext; set_solver). done.
Qed.
Lemma kept_drop k rest x : m !! k = Some x -> owned x = true -> k ∉ rest -> kept rest = delete k (kept (k :: rest)).
Proof.
  intros Hx Ho Hnin. apply map_eq. intros k'. apply option_eq. intros x'. rewrite lookup_delete_Some. unfold kept.
  rewrite !map_lookup_filter_Some. cbn [fst snd]. destruct (decide (k' = k)) as [->|Hne].
  - rewrite Hx. split; [|naive_solver]. intros [[= <-] H]. rewrite Ho in H. cbn in H. by apply bool_decide_eq_true in H.
  - assert (bool_decide (k' ∈ k :: rest) = bool_decide (k' ∈ rest)) as -> by (apply bool_decide_ext; set_solver). naive_solver.
Qed.
End Kept.

(** ** Groups and policies *)

Lemma reaches_pruneGroups s : state_ok s ->
  map_Forall (fun _ a => ownedIn (s_groups s) (CanonicalID a) = false) (s_aliases s) ->
  reaches (pruneGroups v ∅) s (fun _ s' => s' = with_groups (foreignGroups s) s).
Proof.
  intros Hok Hal. apply reaches_bind, reaches_read; [cleanup_path|]. intros w Hw. destruct (law_groups laws w) as (ids & Hids & Hl).
  exists ids. split; [exact Hl|]. rewrite Hw in Hids. destruct (listed_in _ _ Hids) as [Hnd Hin].
  eapply reaches_mono; [apply reaches_for_each with (J := fun rest s' => NoDup rest /\ (forall id, id ∈ rest -> id ∈ ids) /\
    s' = with_groups (kept ownedMetadata (s_groups s) rest) s)|].
  - intros id rest s1 ([Hnin Hnd']%NoDup_cons & Hsub & ->). destruct (proj1 (Hin id) ltac:(apply Hsub; by left)) as [g Hg].
    pose proof (kept_here ownedMetadata (s_groups s) id rest g Hg) as Hhere.
    apply reaches_bind, reaches_read; [cleanup_path|]. intros w1 Hw1. exists g. split; [apply law_group; [done|by rewrite Hw1]|].
    assert (forall id', id' ∈ rest -> id' ∈ ids) as Hsub' by set_solver.
    destruct (ownedMetadata g) eqn:Ho; cbn [negb].
    + rewrite bool_decide_eq_false_2 by set_solver. destruct (ok_groups s Hok id g Hg) as [-> _].
      apply reaches_send; [cleanup_path|]. intros w2 Hw2. eexists. split; [eapply law_group_delete; [done|by rewrite Hw2]|].
      split_and!; [done|done|]. rewrite Hw2. cbn [s_groups s_aliases with_groups].
      rewrite (kept_drop ownedMetadata (s_groups s) id rest g Hg Ho Hnin). rewrite (map_filter_id _ (s_aliases s)); [by destruct s|].
      intros k a Ha Heq. cbn [snd] in Heq. specialize (Hal k a Ha). unfold ownedIn in Hal. rewrite Heq, Hg in Hal. congruence.
    + apply reaches_ret. split_and!; [done|done|]. by rewrite (kept_skip _ _ id rest g Hg Ho).
  - split_and!; [done|done|]. rewrite kept_all by done. by destruct s.
  - intros ? s' (_ & _ & ->). by rewrite kept_nil.
Qed.

Lemma reaches_prunePolicies s : unprotected s ->
  reaches (prunePolicies v ∅) s (fun _ s' => s' = with_policies (foreignPolicies s) s).
Proof.
  intros Hun. apply reaches_bind, reaches_read; [cleanup_path|]. intros w Hw. destruct (law_policies laws w) as (ids & Hids & Hl).
  exists ids. split; [exact Hl|]. rewrite Hw in Hids. destruct (listed_in _ _ Hids) as [Hnd Hin].
  set (owned := ownedP).
  eapply reaches_mono; [apply reaches_for_each with (J := fun rest s' => NoDup rest /\ (forall id, id ∈ rest -> id ∈ ids) /\
    s' = with_policies (kept owned (s_policies s) rest) s)|].
  - intros id rest s1 ([Hnin Hnd']%NoDup_cons & Hsub & ->). destruct (proj1 (Hin id) ltac:(apply Hsub; by left)) as [b Hb].
    pose proof (kept_here owned (s_policies s) id rest b Hb) as Hhere.
    apply reaches_bind, reaches_bind, reaches_read; [cleanup_path|]. intros w1 Hw1. exists b. split; [apply law_policy; [done|by rewrite Hw1]|].
    apply reaches_ret. cbn [fst snd]. assert (forall id', id' ∈ rest -> id' ∈ ids) as Hsub' by set_solver.
    fold (ownedP b). fold owned. destruct (owned b) eqn:Ho; cbn [negb].
    + assert (String.eqb b "" = false) as -> by (unfold owned in Ho; destruct b; done). cbn [negb orb].
      rewrite bool_decide_eq_false_2 by set_solver.
      apply reaches_send; [cleanup_path|]. intros w2 Hw2. eexists. split; [eapply law_policy_delete; [done|by rewrite Hw2|by apply (un_policies s Hun id b)]|].
      split_and!; [done|done|]. rewrite Hw2. by rewrite (kept_drop owned (s_policies s) id rest b Hb Ho Hnin).
    + rewrite orb_true_r. apply reaches_ret. split_and!; [done|done|]. by rewrite (kept_skip owned _ id rest b Hb Ho).
  - split_and!; [done|done|]. rewrite kept_all by done. by destruct s.
  - intros ? s' (_ & _ & ->). by rewrite kept_nil.
Qed.

(** ** Mounts *)

(** The owned mounts hold no foreign role. *)
Definition roles_clean (s : vaultState) : Prop :=
  forall p m, s_mounts s !! (p +:+ "/") = Some m -> ownedM m = true -> Forall (eq roleName) (default [] (s_roles s !! p)).

(** Only this mount, its roles and aliases are gone. *)
Definition unmounted (p : string) (s s' : vaultState) : Prop :=
  s_mounts s' = delete (p +:+ "/") (s_mounts s) /\ s_policies s' = s_policies s /\ s_groups s' = s_groups s /\
  s_aliases s' ⊆ s_aliases s /\ forall q, q <> p -> s_roles s' !! q = s_roles s !! q.

Lemma no_foreign_filter roles : Forall (eq roleName) roles ->
  (length (filter (fun role => role <> roleName) roles) =? 0)%nat = true.
Proof.
  intros H. apply Nat.eqb_eq. induction H as [|r roles <- _ IH]; [done|]. by rewrite filter_cons_False by naive_solver.
Qed.

Lemma reaches_unmount p m s0 s : unmounted p s0 (with_mounts (delete (p +:+ "/") (s_mounts s)) s) ->
  s_mounts s !! (p +:+ "/") = Some m -> ownedM m = true -> p +:+ "/" <> builtinMount ->
  reaches (send v "DELETE" ("/v1/sys/auth/" +:+ PathEscape p) None) s (fun _ s' => unmounted p s0 s').
Proof.
  intros (H1 & H2 & H3 & H4 & H5) Hm Ho Hbuilt. apply reaches_send; [cleanup_path|]. intros w Hw.
  destruct (law_unmount laws w p m ltac:(by rewrite Hw) Ho Hbuilt) as (aliases & Hsub & Hr). eexists. split; [exact Hr|].
  rewrite Hw in Hsub |- *. split_and!; [done|done|done|by etrans|]. intros q Hq. cbn [s_roles with_aliases with_roles].
  rewrite lookup_delete_ne by done. by apply H5.
Qed.

Lemma reaches_cleanupMount p m s :
  s_mounts s !! (p +:+ "/") = Some m -> ownedM m = true -> p +:+ "/" <> builtinMount ->
  Forall (eq roleName) (default [] (s_roles s !! p)) ->
  reaches (cleanupMount v p) s (fun _ s' => unmounted p s s').
Proof.
  intros Hm Ho Hbuilt Hroles. apply reaches_bind, reaches_wrapped, reaches_read; [cleanup_path|]. intros w Hw. exists (s_mounts s).
  split; [rewrite <- Hw; apply (law_mounts laws)|]. rewrite Hm. apply reaches_bind, reaches_require; [done|].
  apply reaches_bind, reaches_read; [cleanup_path|]. intros w1 Hw1. exists (default [] (s_roles s !! p)).
  split; [rewrite <- Hw1; eapply law_roles; [done|by rewrite Hw1|done]|]. cbv zeta.
  apply reaches_bind, reaches_require; [by apply no_foreign_filter|]. apply reaches_bind. case_bool_decide as Hin.
  - apply reaches_wrapped, reaches_send; [cleanup_path|]. intros w2 Hw2. eexists. split; [eapply law_role_delete; [done| |done|]; by rewrite Hw2|].
    rewrite Hw2. eapply reaches_unmount; [|exact Hm|done..]. split_and!; [done|done|done|done|]. intros q Hq.
    cbn [s_roles with_mounts with_roles]. by rewrite lookup_insert_ne.
  - apply reaches_ret. eapply reaches_unmount; [|exact Hm|done..]. by split_and!.
Qed.

Lemma reaches_cleanupMounts s : state_ok s -> unprotected s -> roles_clean s ->
  reaches (cleanupMounts v None) s (fun _ s' =>
    s_mounts s' = foreignMounts s /\ s_policies s' = s_policies s /\ s_groups s' = s_groups s /\ s_aliases s' ⊆ s_aliases s).
Proof.
  intros Hok Hun Hclean. apply reaches_bind, reaches_wrapped, reaches_read; [cleanup_path|]. intros w Hw. exists (s_mounts s).
  split; [rewrite <- Hw; apply (law_mounts laws)|].
  intros w1 t Hw1. rewrite exec_bind. cbn [call exec]. pose proof (law_range laws (map_to_list (s_mounts s)).*1 w1) as Hr.
  destruct (h (Range _) w1) as [[keys Hkeys] w2]. cbn [snd] in Hr. cbn [proj1_sig].
  destruct (listed_in _ _ Hkeys) as [Hnd Hin].
  set (J := fun rest s' => NoDup rest /\ (forall id, id ∈ rest -> id ∈ keys) /\
    s_mounts s' = kept ownedM (s_mounts s) rest /\ s_policies s' = s_policies s /\ s_groups s' = s_groups s /\
    s_aliases s' ⊆ s_aliases s /\ forall p, p +:+ "/" ∈ rest -> s_roles s' !! p = s_roles s !! p).
  match goal with |- context [exec h (for_each keys ?f) _ _] =>
    destruct (reaches_for_each keys f s J) with (w := w2) (t := t ++ [ev (Range _) (exist _ keys Hkeys)])
      as (u & t' & w' & He & HJ) end.
  - intros key rest s1 ([Hnin Hnd']%NoDup_cons & Hsub & Hm & Hp & Hg & Ha & Hro).
    destruct (proj1 (Hin key) ltac:(apply Hsub; by left)) as [m Hmount]. rewrite Hmount.
    destruct (ok_mounts s Hok key m Hmount) as [p ->].
    rewrite bool_decide_eq_false_2 by done. rewrite orb_false_r. fold (ownedM m).
    assert (forall id', id' ∈ rest -> id' ∈ keys) as Hsub' by set_solver.
    assert (forall p', p' +:+ "/" ∈ rest -> p' <> p) as Hne by (intros p' Hp' ->; done).
    destruct (ownedM m) eqn:Ho; cbn [negb].
    + rewrite TrimSuffix_append. eapply reaches_mono; [eapply (reaches_cleanupMount p m)|].
      * rewrite Hm. by apply kept_here.
      * done.
      * by apply (un_mounts s Hun _ m).
      * rewrite (Hro p) by (by left). by eapply Hclean.
      * intros ? s2 (U1 & U2 & U3 & U4 & U5). unfold J.
        split_and!; [done|done| |congruence|congruence|by etrans|].
        -- rewrite U1, Hm. symmetry. by eapply kept_drop.
        -- intros p' Hp'. rewrite U5 by (by apply Hne). apply Hro. by right.
    + apply reaches_ret. unfold J. split_and!; try done.
      * rewrite Hm. by eapply kept_skip.
      * intros p' Hp'. apply Hro. by right.
  - unfold J. split_and!; try done. by rewrite kept_all.
  - congruence.
  - destruct u. exists tt, t', w'. split; [exact He|]. destruct HJ as (_ & _ & Hm & Hp & Hg & Ha & _).
    split_and!; try done. by rewrite Hm, kept_nil.
Qed.
End Server.

(** C24. Against a Vault that behaves as documented, in which no built-in policy
    and not the token mount carries the marker and whose owned mounts hold no
    foreign role, a cleanup succeeds and leaves exactly what Atum does not
    own: every policy, group and mount without the marker is as it was, every
    one with it is gone, and no alias of an owned group is left. *)
Theorem vault_cleaned {LI : Libraries} {W} (h : handler W) (v : Client) (view : W -> vaultState) w t :
  vault_laws h v view -> state_ok (view w) -> unprotected (view w) -> roles_clean (view w) ->
  exists t' w', exec h (Cleanup v) w t = (Some (Ok tt), t', w') /\
    s_policies (view w') = foreignPolicies (view w) /\ s_groups (view w') = foreignGroups (view w) /\
    s_mounts (view w') = foreignMounts (view w) /\ s_aliases (view w') ⊆ foreignAliases (view w).
Proof.
  intros Hlaws Hok Hun Hclean. set (s := view w).
  assert (reaches h view (Cleanup v) s (fun _ s' =>
    s_policies s' = foreignPolicies s /\ s_groups s' = foreignGroups s /\
    s_mounts s' = foreignMounts s /\ s_aliases s' ⊆ foreignAliases s)) as H.
  { apply reaches_bind. eapply reaches_mono; [by apply reaches_pruneAliases|]. intros _ s1 ->. set (s1 := with_aliases _ _).
    assert (state_ok s1) as Hok1.
    { split; [apply Hok| |apply Hok]. eapply map_Forall_weaken; [apply map_filter_subseteq|apply Hok]. }
    apply reaches_bind. eapply reaches_mono; [apply reaches_pruneGroups; [done|done|]|].
    { intros k a Ha. apply map_lookup_filter_Some in Ha. apply Ha. }
    intros _ s2 ->. set (s2 := with_groups _ _).
    apply reaches_bind. eapply reaches_mono; [apply reaches_prunePolicies; [done|split; apply Hun]|]. intros _ s3 ->. set (s3 := with_policies _ _).
    eapply reaches_mono; [apply reaches_cleanupMounts; [done| |split; [|apply Hun]|exact Hclean]|].
    { split; [|apply Hok1|apply Hok1]. eapply map_Forall_weaken; [apply map_filter_subseteq|apply Hok1]. }
    { eapply map_Forall_weaken; [apply map_filter_subseteq|apply Hun]. }
    intros _ s4 (Hm & Hp & Hg & Ha). by split_and!. }
  destruct (H w t eq_refl) as ([] & t' & w' & He & HQ). by exists t', w'.
Qed.

(** ** A concrete Vault

    It holds a policy, a group with its alias and a mount with its role that
    are Atum's, each until it is deleted, and its own policies and token mount,
    which it refuses to delete. *)
Record small := { p1 : bool; g1 : bool; a1 : bool; m1 : bool; r1 : bool }.

Definition policy1 : string := vaultPolicyMarker +:+ "x".
Definition builtins : gmap string string := {["default" := "y"; "root" := ""]}.
Definition group1 : vaultGroup := {| ID := "g1"; Name := "admins"; Metadata := {[ownerMarkerKey := ownerMarkerValue]} |}.
Definition alias1 : vaultGroupAlias := {| AID := "a1"; AName := "admins"; MountAccessor := "acc"; CanonicalID := "g1" |}.
Definition tokenMount : gmap string jsonMount :=
  {["token/" := {| Accessor := "auth_token"; Description := "token based credentials" |}]}.
Definition mount1 : jsonMount := {| Accessor := "acc"; Description := vaultMountDescription |}.

Definition only {A} (b : bool) (k : string) (x : A) : gmap string A := if b then {[k := x]} else ∅.
Definition view0 (w : small) : vaultState :=
  {| s_mounts := only (m1 w) "oidc/" mount1 ∪ tokenMount;
     s_roles := only (m1 w) "oidc" (if r1 w then [roleName] else []);
     s_policies := only (p1 w) "atum-admin" policy1 ∪ builtins;
     s_groups := only (g1 w) "g1" group1;
     s_aliases := only (a1 w) "a1" alias1 |}.

(** JSON with single quotes *)
Definition js (s : string) : string := ReplaceByte "'" qchar s.
Definition keys0 (l : list (bool * string)) : string :=
  "{'data':{'keys':[" +:+ Join ((fun bk => "'" +:+ bk.2 +:+ "'") <$> filter (fun bk => bk.1 = true) l) "," +:+ "]}}".

Definition get0 (path : string) (w : small) : string :=
  if String.eqb path "/v1/identity/group-alias/id?list=true" then keys0 [(a1 w, "a1")]
  else if String.eqb path "/v1/identity/group-alias/id/a1" then
    "{'data':{'id':'a1','name':'admins','mount_accessor':'acc','canonical_id':'g1'}}"
  else if String.eqb path "/v1/identity/group/id?list=true" then keys0 [(g1 w, "g1")]
  else if String.eqb path "/v1/identity/group/id/g1" then
    if g1 w then "{'data':{'id':'g1','name':'admins','metadata':{'atum_owner':'atum-system/atum'}}}" else "{'errors':[]}"
  else if String.eqb path "/v1/sys/policies/acl?list=true" then keys0 [(p1 w, "atum-admin"); (true, "default"); (true, "root")]
  else if String.eqb path "/v1/sys/policies/acl/atum-admin" then "{'data':{'policy':'# atum_owner=atum-system/atum\nx'}}"
  else if String.eqb path "/v1/sys/policies/acl/default" then "{'data':{'policy':'y'}}"
  else if String.eqb path "/v1/sys/policies/acl/root" then "{'data':{'policy':''}}"
  else if String.eqb path "/v1/sys/auth" then
    "{'data':{" +:+ (if m1 w then "'oidc/':{'accessor':'acc','description':'atum_owner=atum-system/atum'}," else "") +:+
    "'token/':{'accessor':'auth_token','description':'token based credentials'}}}"
  else if String.eqb path "/v1/auth/oidc/role?list=true" then keys0 [(r1 w, "atum-admin")]
  else "{}".

Definition delete0 (path : string) (w : small) : small :=
  let flag k old := if String.eqb path k then false else old in
  {| p1 := flag "/v1/sys/policies/acl/atum-admin" (p1 w);
     g1 := flag "/v1/identity/group/id/g1" (g1 w);
     a1 := flag "/v1/identity/group/id/g1" (flag "/v1/identity/group-alias/id/a1" (a1 w));
     m1 := flag "/v1/sys/auth/oidc" (m1 w); r1 := flag "/v1/auth/oidc/role/atum-admin" (r1 w) |}.

Definition refuses0 (path : string) : bool :=
  bool_decide (path ∈ ["/v1/sys/policies/acl/default"; "/v1/sys/policies/acl/root"; "/v1/sys/auth/token"]).

Definition handler0 : handler small := fun o w =>
  match o return answer o * small with
  | Do r => if String.eqb (r_method r) "DELETE" then
              if refuses0 (r_path r) then (Ok (400%Z, Ok "{}"), w) else (Ok (204%Z, Ok ""), delete0 (r_path r) w)
            else (Ok (200%Z, Ok (js (get0 (r_path r) w))), w)
  | CtxErr => (None, w)
  | Range keys => (exist _ keys (Permutation_refl keys), w)
  | GetObject => (Err (true, "not found"), w)
  | PatchFinalizers _ => (Err (true, "not found"), w)
  | PatchStatus _ => (Err (true, "not found"), w)
  | GetSecret _ _ => (Err (true, "not found"), w)
  end.
Definition vault0 : Client := {| baseURL := "https://vault.example.com"; auth := vaultToken "t" |}.

Lemma only_Some {A} b k (x : A) k' x' : only b k x !! k' = Some x' -> b = true /\ k' = k /\ x' = x.
Proof. unfold only. destruct b; [|done]. intros [-> ->]%lookup_singleton_Some. done. Qed.

Lemma policies_Some b k x : (only b "atum-admin" policy1 ∪ builtins) !! k = Some x ->
  (b = true /\ k = "atum-admin" /\ x = policy1) \/ (k = "default" /\ x = "y") \/ (k = "root" /\ x = "").
Proof.
  intros [H|[_ H]]%lookup_union_Some_raw; [left; by apply only_Some in H|right]. unfold builtins in H.
  apply lookup_insert_Some in H as [[<- <-]|[_ H]]; [by left|]. apply lookup_singleton_Some in H as [<- <-]. by right.
Qed.

Lemma mounts_Some b k m : (only b "oidc/" mount1 ∪ tokenMount) !! k = Some m -> ownedM m = true -> b = true /\ k = "oidc/" /\ m = mount1.
Proof.
  intros [H|[_ H]]%lookup_union_Some_raw Ho; [by apply only_Some in H|]. unfold tokenMount in H.
  apply lookup_singleton_Some in H as [_ <-]. discriminate Ho.
Qed.

Lemma oidc p : p +:+ "/" = "oidc/" -> p = "oidc".
Proof. intros H. apply (f_equal (fun s => TrimSuffix s "/")) in H. by rewrite TrimSuffix_append in H. Qed.

(** The deletions, state by state *)
Ltac same_state := unfold removes, reply; cbn [fst snd]; split; [by vm_compute|];
  unfold view0, with_aliases, with_groups, with_policies, with_mounts, with_roles; cbn -[only delete insert filter union]; f_equal.

Lemma laws0 : vault_laws (LI := plainLibraries) handler0 vault0 view0.
Proof.
  split.
  - intros path _. change (plainParse ("https://" +:+ ("vault.example.com" +:+ path)) <> None). unfold plainParse, CutPrefix.
    rewrite HasPrefix_append. by destruct (Cut _ "/") as [[] ?].
  - done.
  - intros [p1 g1 a1 m1 r1]. exists (if a1 then ["a1"] else []). destruct a1; split; try reflexivity; (split; [by vm_compute|done]).
  - intros [p1 g1 a1 m1 r1] id a (_ & -> & ->)%only_Some. split; [by vm_compute|done].
  - intros [p1 g1 a1 m1 r1] id a (Ha & -> & ->)%only_Some. cbn in Ha. subst. same_state.
  - intros [p1 g1 a1 m1 r1]. exists (if g1 then ["g1"] else []). destruct g1; split; try reflexivity; (split; [by vm_compute|done]).
  - intros [p1 g1 a1 m1 r1] id g (Hg & -> & ->)%only_Some. cbn in Hg. subst. split; [by vm_compute|done].
  - intros [p1 g1 a1 m1 r1] id a (_ & -> & ->)%only_Some _. destruct g1; (split; [by vm_compute|done]).
  - intros [p1 g1 a1 m1 r1] id g (Hg & -> & ->)%only_Some. cbn in Hg. subst. destruct a1; same_state.
  - intros [p1 g1 a1 m1 r1]. exists ((if p1 then ["atum-admin"] else []) ++ ["default"; "root"]).
    destruct p1; (split; [|split; [by vm_compute|done]]); apply (bool_decide_eq_true_1 _); by vm_compute.
  - intros [p1 g1 a1 m1 r1] name body [(_ & -> & ->)|[[-> ->]|[-> ->]]]%policies_Some; (split; [by vm_compute|done]).
  - intros [p1 g1 a1 m1 r1] name body [(Hp & -> & ->)|[[-> ->]|[-> ->]]]%policies_Some Hb; [|exfalso; set_solver..].
    cbn in Hp. subst. same_state.
  - intros [p1 g1 a1 m1 r1]. destruct m1; (split; [by vm_compute|done]).
  - intros [p1 g1 a1 m1 r1] p m Hm Ho. destruct (mounts_Some _ _ _ Hm Ho) as (Hm1 & ->%oidc & ->). cbn in Hm1. subst.
    destruct r1; (split; [by vm_compute|done]).
  - intros [p1 g1 a1 m1 r1] p m Hm Ho Hr. destruct (mounts_Some _ _ _ Hm Ho) as (Hm1 & ->%oidc & ->). cbn in Hm1. subst.
    destruct r1; [|by apply elem_of_nil in Hr]. same_state.
  - intros [p1 g1 a1 m1 r1] p m Hm Ho _. destruct (mounts_Some _ _ _ Hm Ho) as (Hm1 & ->%oidc & ->). cbn in Hm1. subst.
    eexists. split; [reflexivity|]. same_state.
Qed.

Definition full : small := {| p1 := true; g1 := true; a1 := true; m1 := true; r1 := true |}.

Lemma vault_cleaned_witness :
  exists t' w', exec handler0 (Cleanup (LI := plainLibraries) vault0) full [] = (Some (Ok tt), t', w') /\
    s_policies (view0 w') = builtins /\ s_groups (view0 w') = ∅ /\
    s_mounts (view0 w') = tokenMount /\ s_aliases (view0 w') ⊆ ∅.
Proof.
  destruct (vault_cleaned (LI := plainLibraries) handler0 vault0 view0 full [] laws0) as (t' & w' & He & Hp & Hg & Hm & Ha).
  - split.
    + intros id g (_ & -> & ->)%only_Some. by split.
    + intros id a (_ & -> & ->)%only_Some. done.
    + intros key m [(_ & -> & ->)%only_Some|[_ H]]%lookup_union_Some_raw; [by exists "oidc"|].
      unfold tokenMount in H. apply lookup_singleton_Some in H as [<- _]. by exists "token".
  - split.
    + intros k x [(_ & -> & ->)|[[-> ->]|[-> ->]]]%policies_Some; [|done..]. intros _. set_solver.
    + intros key m Hm Ho. by destruct (mounts_Some _ _ _ Hm Ho) as (_ & -> & _).
  - intros p m Hm Ho. destruct (mounts_Some _ _ _ Hm Ho) as (_ & ->%oidc & _). by constructor.
  - exists t', w'. split_and!; [exact He|rewrite Hp|rewrite Hg|rewrite Hm|etrans; [exact Ha|]]; by vm_compute.
Defined.
End VaultServer.
