(* ===== verification/BakeGraph.v ===== *)
(** The build graph of the delivery images: [cli/config/bakegraph.go] and
    [cli/config/buildgraph.go].  A Bake file is evaluated into targets, whose
    Dockerfiles, named contexts and tags are validated, and its content is
    reduced to one digest.  An accessor of cty that panics ends the evaluation
    ([EvaluationPanic], [Panicked]). *)
From stdpp Require Import prelude gmap strings list sorting.
From Stdlib Require Import Ascii ZArith Lia.
From S2P Require Import Prelude GoStrings FsPath Utf8 Sha256 Fs Treehash Transaction Progress.

Module BakeGraph.
Import FsPath Sha256 Fs Treehash Transaction Progress.

(** ** Strings *)

(** [strings.Split] with a separator of several bytes *)
Fixpoint splitFuel (fuel : nat) (s sub : string) : list string :=
  match fuel, Index s sub with
  | S fuel, Some i => str_take i s :: splitFuel fuel (str_drop (i + String.length sub) s) sub
  | _, _ => [s]
  end.
Definition SplitBy (s sub : string) : list string := splitFuel (String.length s) s sub.

(** [filepath.Base]: the last element that is not empty *)
Definition Base (path : string) : string :=
  match last (filter (fun e => e <> "") (Split path sep)) with
  | Some e => e
  | None => if String.eqb path "" then "." else "/"
  end.

Definition lowerHex (value : string) : bool := str_forallb is_hex_lower value.

Definition queryValue (raw key : string) : string :=
  match Index raw "?" with
  | None => ""
  | Some i =>
      default "" (head (omap (fun parameter =>
        let '(name, value, found) := Cut parameter "=" in
        if found && String.eqb name key then Some value else None) (Split (str_drop (S i) raw) "&")))
  end.

(** The position of the last [b], or -1 *)
Definition lastIndex (s : string) (b : ascii) : Z :=
  match LastIndexByte s b with Some i => Z.of_nat i | None => -1 end.

Definition imageReferenceTag (reference : string) : string :=
  let lastSlash := lastIndex reference "/" in
  let colon := lastIndex reference ":" in
  if (colon <=? lastSlash)%Z || (colon =? Z.of_nat (String.length reference) - 1)%Z then ""
  else str_drop (S (Z.to_nat colon)) reference.

Definition imageReferenceRepository (reference : string) : string :=
  let '(before, _, found) := Cut reference "@" in
  let reference := if found : bool then before else reference in
  let lastSlash := lastIndex reference "/" in
  let colon := lastIndex reference ":" in
  if (lastSlash <? colon)%Z then str_take (Z.to_nat colon) reference else reference.

Definition normalizedImageReferenceRepository (reference : string) : string :=
  let repository := imageReferenceRepository reference in
  let '(registry, remainder, qualified) := Cut repository "/" in
  if negb qualified then "docker.io/library/" +:+ repository
  else if String.eqb registry "docker.io" || String.eqb registry "index.docker.io" then "docker.io/" +:+ remainder
  else if negb (String.eqb registry "localhost") && negb (ContainsAny registry ".:") then "docker.io/" +:+ repository
  else repository.

(** [compactStrings]: the first of equal values is kept *)
Fixpoint compactLoop (values : list string) (seen : gset string) : list string :=
  match values with
  | [] => []
  | value :: values =>
      if bool_decide (value ∈ seen) then compactLoop values seen
      else value :: compactLoop values ({[value]} ∪ seen)
  end.
Definition compactStrings (values : list string) : list string := compactLoop values ∅.

(** [for k, v := range m]: the entries in an order of the runtime's choice.
    A loop is named by its function and the target it is about; no loop below
    runs twice under one name in one call, so that this covers every order. *)
Class MapRange := {
  range_ {A} : string -> string -> gmap string A -> list (string * A);
  range_perm {A} f name (m : gmap string A) : range_ f name m ≡ₚ map_to_list m
}.

(** ** The data of a project *)

Record DeliveryChoice :=
  { DType : string; Source : string; Digest : string; BakeTarget : string; Materials : list string }.
Record ImageVersionMapping := { MSource : string; UpstreamTagPrefix : string }.
Record Image :=
  { ImageID : string; Version : string; Target : string; Discovery : string;
    VersionMapping : option ImageVersionMapping; Default : DeliveryChoice }.
Record DeliveryPolicy :=
  { BuildBase : string; BuildParallelism : Z; ForbiddenArtifactPrefixes : list string }.

(** Of [Desired] the registry host, the platform, the policy and the images, of
    [Lock.Delivery] the profile and the digest *)
Record Project :=
  { RegistryHost : string; Platform : string; Policy : DeliveryPolicy; Images : list Image;
    LockProfile : string; LockGraphSHA256 : string }.

Definition buildGraphPath : string := "platform/build/docker-bake.hcl".
Definition buildGraphDir : string := "platform/build".

Record bakeTarget :=
  { name : string; context : string; dockerfile : string; stage : string; tags : list string;
    contexts : gmap string string; args : gmap string string }.

(** ** Libraries

    HCL: documents, expressions with their evaluation, and the values of cty.
    An evaluation context is its chain of variables, innermost first; nil is
    the empty chain.  [IsString] is [Type().Equals(cty.String)].  The accessors
    panic on values they are not made for, which is their [None]: [AsString] on a
    null, also one of type string, [LengthInt] and the iterator, here [Elements],
    on a null collection, and [AsValueMap] on a list or a tuple, whose keys are
    numbers. *)
Class Hcl := {
  Value : Type;
  Expr : Type;
  exprValue : Expr -> list (gmap string Value) -> option Value;
  IsKnown : Value -> bool;
  IsString : Value -> bool;
  AsString : Value -> option string;
  CanIterateElements : Value -> bool;
  Elements : Value -> option (list (Value * Value));
  AsValueMap : Value -> option (gmap string Value)
}.
Record Block `{Hcl} := { BlockType : string; Labels : list string; Attributes : gmap string Expr }.
Class HclParser := { #[global] hcl :: Hcl; ParseHCL : string -> result goerr (list Block) }.

(** The Dockerfile parser of BuildKit and what the code reads of its result; a
    location is the start lines of its ranges. *)
Inductive Command :=
  | CopyCommand (From : string) (Location : list Z)
  | RunCommand (MountsFrom : list string) (Location : list Z)
  | AddCommand (SourcePaths : list string) (Checksum : string) (Location : list Z)
  | OtherCommand.
Record Stage := { StageName : string; BaseName : string; SLocation : list Z; Commands : list Command }.
Class DockerfileParser := { ParseDockerfile : string -> result goerr (list Stage) }.

Definition dockerfileLine (location : list Z) : Z := default 0%Z (head location).

(** ** Evaluation of the Bake file *)

Inductive bakeError :=
  | NotHcl (e : goerr)
  | NonStaticVariable (label : string)
  | RepeatedTemplate (label : string)
  | MatrixError (label : string)
  | EmptyDimension (label dimension : string)
  | MissingTemplate (label : string)
  | InheritanceCycle (label : string)
  | BadAttribute (label attribute : string)
  | EmptyName (label : string)
  | RepeatedTarget (label : string)
  | EvaluationPanic.   (** not an error of the code: an accessor of cty panicked *)

(** What a call that may panic ends with *)
Inductive ended (A : Type) := Done (a : A) | Panicked.
Arguments Done {A} a.
Arguments Panicked {A}.

(** What an evaluation ends with when not with a value: the error the code
    returns, or a panic *)
Inductive unevaluated := Unsuitable | AccessorPanic.

Section Evaluation.
Context {HP : HclParser}.

Abbreviation EvalContext := (list (gmap string Value)).

Record bakeGraph := { variables : gmap string Value; targets : gmap string bakeTarget }.

(** [None] is a panic. *)
Definition variableString (graph : bakeGraph) (name : string) : option string :=
  match variables graph !! name with
  | Some value => if IsKnown value && IsString value then AsString value else Some ""
  | None => Some ""
  end.

(** The result of an accessor *)
Definition access {A} (r : option A) : result unevaluated A :=
  match r with Some a => Ok a | None => Err AccessorPanic end.

Definition suitable (cond : bool) : result unevaluated unit := if cond then Ok tt else Err Unsuitable.

Definition evaluate (e : Expr) (ctx : EvalContext) : result unevaluated Value :=
  match exprValue e ctx with Some value => Ok value | None => Err Unsuitable end.

Definition evaluateString (e : Expr) (ctx : EvalContext) : result unevaluated string :=
  value ← evaluate e ctx;
  suitable (IsKnown value && IsString value);;
  access (AsString value).

Definition evaluateElements (e : Expr) (ctx : EvalContext) : result unevaluated (list (Value * Value)) :=
  value ← evaluate e ctx;
  suitable (IsKnown value && CanIterateElements value);;
  access (Elements value).

Definition evaluateStringList (e : Expr) (ctx : EvalContext) : result unevaluated (list string) :=
  items ← evaluateElements e ctx;
  mapM (fun item : Value * Value =>
    suitable (IsKnown item.2 && IsString item.2);;
    access (AsString item.2)) items.

Definition evaluateStringMap (e : Expr) (ctx : EvalContext) : result unevaluated (gmap string string) :=
  items ← evaluateElements e ctx;
  pairs ← mapM (fun item : Value * Value =>
    suitable (IsKnown item.1 && IsString item.1 && IsKnown item.2 && IsString item.2);;
    k ← access (AsString item.1); v ← access (AsString item.2); Ok (k, v)) items;
  Ok (foldl (fun m kv => <[kv.1 := kv.2]> m) ∅ pairs).

(** The dimensions of a matrix, by name *)
Fixpoint matrixLoop (label : string) (matrix : gmap string Value) (names : list string)
    (contexts : list EvalContext) : result bakeError (list EvalContext) :=
  match names with
  | [] => Ok contexts
  | name :: names =>
      match matrix !! name with
      | None => Err (MatrixError label)
      | Some collection =>
          if negb (IsKnown collection) || negb (CanIterateElements collection) then Err (MatrixError label)
          else
            match Elements collection with
            | None => Err EvaluationPanic
            | Some [] => Err (EmptyDimension label name)
            | Some items =>
                matrixLoop label matrix names
                  (current ← contexts; (fun item : Value * Value => {[name := item.2]} :: current) <$> items)
            end
      end
  end.

Definition matrixContexts (label : string) (block : Block) (base : EvalContext) : result bakeError (list EvalContext) :=
  match Attributes block !! "matrix" with
  | None => Ok [base]
  | Some e =>
      match exprValue e base with
      | None => Err (MatrixError label)
      | Some value =>
          if negb (IsKnown value) || negb (CanIterateElements value) then Err (MatrixError label)
          else
            match AsValueMap value with
            | None => Err EvaluationPanic
            | Some matrix => matrixLoop label matrix (SortStrings (map_to_list matrix).*1) [∅ :: base]
            end
      end
  end.

Definition emptyTarget (label : string) : bakeTarget :=
  {| name := label; context := ""; dockerfile := ""; stage := ""; tags := []; contexts := ∅; args := ∅ |}.

Definition orElse (new old : string) : string := if String.eqb new "" then old else new.

Definition mergeBakeTarget (destination source : bakeTarget) : bakeTarget :=
  {| name := name destination;
     context := orElse (context source) (context destination);
     dockerfile := orElse (dockerfile source) (dockerfile destination);
     stage := orElse (stage source) (stage destination);
     tags := match tags source with [] => tags destination | ts => ts end;
     contexts := contexts source ∪ contexts destination;
     args := args source ∪ args destination |}.

(** An attribute that may be missing, evaluated *)
Definition attribute {A} (label : string) (block : Block) (key : string)
    (evaluate : Expr -> EvalContext -> result unevaluated A) (ctx : EvalContext) (absent : A) : result bakeError A :=
  match Attributes block !! key with
  | None => Ok absent
  | Some e =>
      match evaluate e ctx with
      | Ok a => Ok a
      | Err Unsuitable => Err (BadAttribute label key)
      | Err AccessorPanic => Err EvaluationPanic
      end
  end.

(** The attributes of the block itself, after what it inherits.  The maps of
    contexts and arguments are visited in either order, which shows only in
    which of two errors is reported: the first one ends the evaluation, so one
    choice [argsFirst] serves for a whole evaluation. *)
Definition ownAttributes (argsFirst : bool) (label : string) (block : Block) (ctx : EvalContext)
    (result : bakeTarget) : Prelude.result bakeError bakeTarget :=
  name' ← attribute label block "name" evaluateString ctx (name result);
  context' ← attribute label block "context" evaluateString ctx (context result);
  dockerfile' ← attribute label block "dockerfile" evaluateString ctx (dockerfile result);
  stage' ← attribute label block "target" evaluateString ctx (stage result);
  tags' ← attribute label block "tags" evaluateStringList ctx (tags result);
  (if argsFirst then _ ← attribute label block "args" evaluateStringMap ctx ∅; Ok tt else Ok tt);;
  contexts' ← attribute label block "contexts" evaluateStringMap ctx ∅;
  args' ← attribute label block "args" evaluateStringMap ctx ∅;
  Ok {| name := name'; context := context'; dockerfile := dockerfile'; stage := stage'; tags := tags';
        contexts := contexts' ∪ contexts result; args := args' ∪ args result |}.

(** The loop over the parents: each is resolved and merged, a later one over
    an earlier one. *)
Fixpoint inheritParents (resolve : string -> option (result bakeError bakeTarget)) (parents : list string)
    (result : bakeTarget) : option (Prelude.result bakeError bakeTarget) :=
  match parents with
  | [] => Some (Ok result)
  | parent :: parents =>
      match resolve parent with
      | None => None
      | Some (Err e) => Some (Err e)
      | Some (Ok inherited) => inheritParents resolve parents (mergeBakeTarget result inherited)
      end
  end.

(** [None] when the fuel is used up.  The stack is shared by the calls and
    every call takes its label off again, so it is an argument. *)
Fixpoint resolveBakeTarget (argsFirst : bool) (fuel : nat) (templates : gmap string Block)
    (ctx : EvalContext) (stack : gset string) (label : string) : option (result bakeError bakeTarget) :=
  match fuel with
  | O => None
  | S fuel =>
      match templates !! label with
      | None => Some (Err (MissingTemplate label))
      | Some block =>
          if bool_decide (label ∈ stack) then Some (Err (InheritanceCycle label))
          else
            match attribute label block "inherits" evaluateStringList ctx [] with
            | Err e => Some (Err e)
            | Ok parents =>
                match inheritParents (resolveBakeTarget argsFirst fuel templates ctx ({[label]} ∪ stack))
                        parents (emptyTarget label) with
                | Some (Ok result) => Some (ownAttributes argsFirst label block ctx result)
                | r => r
                end
            end
      end
  end.

(** The blocks of the document: the variables with a default and the target
    templates *)
Fixpoint collectBlocks (blocks : list Block) (variables : gmap string Value) (templates : gmap string Block)
    : result bakeError (gmap string Value * gmap string Block) :=
  match blocks with
  | [] => Ok (variables, templates)
  | block :: blocks =>
      match Labels block with
      | [label] =>
          if String.eqb (BlockType block) "variable" then
            match Attributes block !! "default" with
            | None => collectBlocks blocks variables templates
            | Some e =>
                match exprValue e [] with
                | Some value =>
                    if IsKnown value then collectBlocks blocks (<[label := value]> variables) templates
                    else Err (NonStaticVariable label)
                | None => Err (NonStaticVariable label)
                end
            end
          else if String.eqb (BlockType block) "target" then
            if bool_decide (is_Some (templates !! label)) then Err (RepeatedTemplate label)
            else collectBlocks blocks variables (<[label := block]> templates)
          else collectBlocks blocks variables templates
      | _ => collectBlocks blocks variables templates
      end
  end.

(** The targets of one template, one for every point of its matrix *)
Fixpoint resolveContexts (argsFirst : bool) (label : string) (templates : gmap string Block)
    (ctxs : list EvalContext) (acc : gmap string bakeTarget) : option (result bakeError (gmap string bakeTarget)) :=
  match ctxs with
  | [] => Some (Ok acc)
  | ctx :: ctxs =>
      match resolveBakeTarget argsFirst (S (size templates)) templates ctx ∅ label with
      | None => None
      | Some (Err e) => Some (Err e)
      | Some (Ok target) =>
          if String.eqb (name target) "" then Some (Err (EmptyName label))
          else if bool_decide (is_Some (acc !! name target)) then Some (Err (RepeatedTarget (name target)))
          else resolveContexts argsFirst label templates ctxs (<[name target := target]> acc)
      end
  end.

Fixpoint resolveLabels (argsFirst : bool) (labels : list string) (templates : gmap string Block)
    (base : EvalContext) (acc : gmap string bakeTarget) : option (result bakeError (gmap string bakeTarget)) :=
  match labels with
  | [] => Some (Ok acc)
  | label :: labels =>
      match templates !! label with
      | None => Some (Err (MissingTemplate label))
      | Some block =>
          match matrixContexts label block base with
          | Err e => Some (Err e)
          | Ok ctxs =>
              match resolveContexts argsFirst label templates ctxs acc with
              | Some (Ok acc) => resolveLabels argsFirst labels templates base acc
              | r => r
              end
          end
      end
  end.

Definition parseBakeGraph (argsFirst : bool) (data : string) : option (result bakeError bakeGraph) :=
  match ParseHCL data with
  | Err e => Some (Err (NotHcl e))
  | Ok blocks =>
      match collectBlocks blocks ∅ ∅ with
      | Err e => Some (Err e)
      | Ok (vars, templates) =>
          match resolveLabels argsFirst (SortStrings (map_to_list templates).*1) templates [vars] ∅ with
          | None => None
          | Some (Err e) => Some (Err e)
          | Some (Ok ts) => Some (Ok {| variables := vars; targets := ts |})
          end
      end
  end.

End Evaluation.

(** ** Targets that can be reached *)

Inductive problem :=
  | GraphPathInvalid (e : goerr)
  | GraphUnreadable (e : goerr)
  | GraphInvalid (e : bakeError)
  | BaseMismatch (base : string)
  | ContextNotRoot (target : string)
  | DockerfilePathInvalid (target : string)
  | ContextNameInvalid (target context : string)
  | ContextTargetMissing (target context dependency : string)
  | GitNotPinned (target context source : string)
  | ContextUnsupported (target context source : string)
  | ForbiddenArtifact (label material : string)
  | LocalInputInvalid (label material : string)
  | HttpsNotPinned (label material : string)
  | ImageNotPinned (label material : string)
  | OpaqueInput (label material : string)
  | ImageTargetMissing (id target : string)
  | ImageTargetTags (id target : string)
  | UnexpectedTarget (target : string)
  | SourceTagMismatch (id : string)
  | TargetCycle (target : string)
  | DockerfileUnparsed (target : string) (e : goerr)
  | StageMissing (target stage : string)
  | StageInvalid (file : string) (line : Z) (target instruction reference : string)
  | StageNotPrior (file : string) (line : Z) (target instruction reference : string)
  | ExternalSource (file : string) (line : Z) (target instruction reference : string)
  | DynamicAdd (file : string) (line : Z) (target source : string)
  | RemoteAdd (file : string) (line : Z) (target source : string)
  | IdentityUnresolved (e : goerr)
  | IdentityMismatch (got want : string).

Definition targetPrefix : string := "target:".

(** The candidate files that stand for what is on disk *)
Abbreviation overlay := (gmap string string).

Section Graph.
Context {HP : HclParser} {MR : MapRange}.

(** The targets a target takes contexts from *)
Definition dependencies (f : string) (target : string) (t : bakeTarget) : list string :=
  omap (fun '(_, source) => let '(dependency, found) := CutPrefix source targetPrefix in
                            if found : bool then Some dependency else None)
       (range_ f target (contexts t)).

(** [pending] is kept with its last element first. *)
Fixpoint reachableLoop (fuel : nat) (graph : bakeGraph) (pending : list string) (reachable : gmap string unit)
    : option (gmap string unit) :=
  match pending with
  | [] => Some reachable
  | name :: pending =>
      match fuel with
      | O => None
      | S fuel =>
          if bool_decide (is_Some (reachable !! name)) then reachableLoop fuel graph pending reachable
          else
            let reachable := <[name := tt]> reachable in
            match targets graph !! name with
            | None => reachableLoop fuel graph pending reachable
            | Some target =>
                reachableLoop fuel graph (reverse (dependencies "reachable" name target) ++ pending) reachable
            end
      end
  end.

(** Every round takes one name off, and a target's contexts are added once. *)
Definition reachableFuel (graph : bakeGraph) (roots : list string) : nat :=
  length roots + sum_list ((fun kt => size (contexts kt.2)) <$> map_to_list (targets graph)).

Definition reachable (graph : bakeGraph) (roots : list string) : option (gmap string unit) :=
  reachableLoop (reachableFuel graph roots) graph (reverse roots) ∅.

(** ** Pinned inputs *)

Definition isFirstParty (material : string) : bool :=
  String.eqb material "go.mod" || String.eqb material "go.sum" ||
  String.eqb material "cmd/atum-operator" || String.eqb material "operator".

Definition localPrefix : string := buildGraphDir +:+ "/".

Definition validatePinnedBuildMaterial (policy : DeliveryPolicy) (label material : string) : list problem :=
  omap (fun prefix => if HasPrefix material prefix then Some (ForbiddenArtifact label material) else None)
       (ForbiddenArtifactPrefixes policy) ++
  (if HasPrefix material localPrefix then
     if is_ok (Relative (TrimPrefix material localPrefix)) then [] else [LocalInputInvalid label material]
   else if isFirstParty material then
     if is_ok (Relative material) then [] else [LocalInputInvalid label material]
   else if HasPrefix material "https://" then
     match LastIndex material "#sha256:" with
     | Some index => if validHexSHA256 (str_drop (index + 8) material) then [] else [HttpsNotPinned label material]
     | None => [HttpsNotPinned label material]
     end
   else if Contains material "/" then
     match SplitBy material "@sha256:" with
     | [_; digest] => if validHexSHA256 digest then [] else [ImageNotPinned label material]
     | _ => [ImageNotPinned label material]
     end
   else [OpaqueInput label material]).

Definition isSourceTarget (name : string) : bool :=
  String.eqb name "build-job" || String.eqb name "delivery-build-job" || String.eqb name "atum-operator".

Definition validateContext (graph : bakeGraph) (policy : DeliveryPolicy) (name contextName source : string) : list problem :=
  if String.eqb contextName "" || ContainsAny contextName "/\:$" then [ContextNameInvalid name contextName]
  else if HasPrefix source targetPrefix then
    let dependency := TrimPrefix source targetPrefix in
    if bool_decide (is_Some (targets graph !! dependency)) then [] else [ContextTargetMissing name contextName dependency]
  else if HasPrefix source "docker-image://" then
    validatePinnedBuildMaterial policy ("Bake context " +:+ name +:+ "/" +:+ contextName) (TrimPrefix source "docker-image://")
  else if HasPrefix source "https://" && Contains source ".git?" then
    let checksum := queryValue source "checksum" in
    if (String.length checksum =? 40)%nat && lowerHex checksum then [] else [GitNotPinned name contextName source]
  else if String.eqb source "../.." && String.eqb contextName "atum_source" && isSourceTarget name then []
  else [ContextUnsupported name contextName source].

Definition dockerfilePathProblems (name : string) (target : bakeTarget) : list problem :=
  if String.eqb (dockerfile target) "" then []
  else match Relative (dockerfile target) with
       | Ok relative =>
           if String.eqb (Dir relative) "docker" && HasPrefix (Base relative) "Dockerfile" then []
           else [DockerfilePathInvalid name]
       | Err _ => [DockerfilePathInvalid name]
       end.

Definition validateOne (graph : bakeGraph) (policy : DeliveryPolicy) (name : string) : list problem :=
  match targets graph !! name with
  | None => []
  | Some target =>
      (if String.eqb (context target) "." then [] else [ContextNotRoot name]) ++
      dockerfilePathProblems name target ++
      ('(contextName, source) ← range_ "validate" name (contexts target);
       validateContext graph policy name contextName source)
  end.

Definition validate (graph : bakeGraph) (policy : DeliveryPolicy) (roots : list string) : option (list problem) :=
  reached ← reachable graph roots;
  Some ((range_ "validate" "" reached).*1 ≫= validateOne graph policy).

(** ** Files of the graph *)

Definition graphFile (relative : string) (files : overlay) : M (string * Z) :=
  path ← Resolve relative false;
  info ← lstat path;
  match info with
  | NFile mode _ =>
      match files !! Clean relative with
      | Some data => mret (data, mode)
      | None => data ← read_file path; mret (data, mode)
      end
  | _ => fail (Msg "build graph input is not a regular file")
  end.

(** [ReachableBakeTargets]: the names in order, and an undefined one is an
    error.  [None] when an evaluation ran out of fuel, [Panicked] when it ends in
    a panic. *)
Definition reachableTargets (graph : bakeGraph) (roots : list string) : option (result goerr (list string)) :=
  reached ← reachable graph roots;
  let names := (range_ "ReachableBakeTargets" "" reached).*1 in
  if forallb (fun name => bool_decide (is_Some (targets graph !! name))) names
  then Some (Ok (SortStrings names))
  else Some (Err (Msg "Bake dependency is not defined")).

Definition ReachableBakeTargets (argsFirst : bool) (roots : list string) : M (option (ended (list string))) :=
  file ← graphFile buildGraphPath ∅;
  match parseBakeGraph argsFirst file.1 with
  | None => mret None
  | Some (Err EvaluationPanic) => mret (Some Panicked)
  | Some (Err _) => fail (Msg "build graph is invalid")
  | Some (Ok graph) =>
      match reachableTargets graph roots with
      | None => mret None
      | Some (Err e) => fail e
      | Some (Ok names) => mret (Some (Done names))
      end
  end.

End Graph.
End BakeGraph.
