(* ===== verification/BakeTheorems.v ===== *)
(** The evaluation of a Bake file ends, it panics only on values that an accessor
    refuses after the checks of the code, its inheritance is well founded, and
    the targets it reaches are exactly the ones a path of contexts leads to. *)
From stdpp Require Import prelude gmap strings list sorting.
From Stdlib Require Import Ascii ZArith Lia.
From S2P Require Import Prelude GoStrings FsPath Fs Treehash BakeGraph.

Module BakeTheorems.
Import FsPath Fs Treehash BakeGraph.

Lemma CutPrefix_true s p d : CutPrefix s p = (d, true) <-> s = p +:+ d.
Proof.
  unfold CutPrefix. destruct (HasPrefix s p) eqn:Hp.
  - apply HasPrefix_true in Hp as [r ->]. rewrite str_drop_append. split; [by intros [= ->]|].
    by intros ->%str_append_inj_l.
  - split; [done|]. intros ->. assert (HasPrefix (p +:+ d) p = true) by (apply HasPrefix_true; eauto). congruence.
Qed.

(** ** Where a search found something *)

Lemma prefix_at sub s : String.prefix sub s = true -> s = sub +:+ str_drop (String.length sub) s.
Proof. intros [r ->]%prefix_append_iff. by rewrite str_drop_append. Qed.

Lemma Index_sound s sub i : Index s sub = Some i -> s = str_take i s +:+ sub +:+ str_drop (i + String.length sub) s.
Proof.
  revert i. induction s as [|c s IH]; intros i; cbn [Index]; destruct (String.prefix sub _) eqn:Hp; try done.
  1,2: intros [= <-]; by apply prefix_at.
  destruct (Index s sub) as [j|]; [|done]. intros [= <-]. cbn [str_take str_drop Nat.add].
  rewrite str_append_cons. f_equal. by apply IH.
Qed.

Lemma LastIndex_sound s sub i : LastIndex s sub = Some i -> s = str_take i s +:+ sub +:+ str_drop (i + String.length sub) s.
Proof.
  revert i. induction s as [|c s IH]; intros i; cbn [LastIndex].
  - destruct (String.prefix sub "") eqn:Hp; [|done]. intros [= <-]. by apply prefix_at.
  - destruct (LastIndex s sub) as [j|].
    + intros [= <-]. cbn [str_take str_drop Nat.add]. rewrite str_append_cons. f_equal. by apply IH.
    + destruct (String.prefix sub (String c s)) eqn:Hp; [|done]. intros [= <-]. by apply prefix_at.
Qed.

Lemma SplitBy_two s sub a b : SplitBy s sub = [a; b] -> s = a +:+ sub +:+ b.
Proof.
  unfold SplitBy. destruct (String.length s) as [|fuel]; [done|]. cbn [splitFuel].
  destruct (Index s sub) as [i|] eqn:Hi; [|done]. apply Index_sound in Hi.
  intros [= Ha Hb]. rewrite Hi at 1. rewrite Ha. do 2 f_equal.
  destruct fuel; cbn [splitFuel] in Hb; [by injection Hb|]. destruct (Index _ sub); [|by injection Hb].
  destruct fuel; cbn [splitFuel] in Hb; [done|]. by destruct (Index _ sub).
Qed.

Section Reach.
Context {HP : HclParser} {MR : MapRange} (graph : bakeGraph).
Implicit Types (m seen : gmap string unit).

(** ** Reachable targets *)

(** [name] takes a context from the target [dependency]. *)
Definition takes (name dependency : string) : Prop :=
  exists t key, targets graph !! name = Some t /\ contexts t !! key = Some (targetPrefix +:+ dependency).

Definition reaches (roots : list string) (name : string) : Prop :=
  exists root, root ∈ roots /\ rtc takes root name.

Lemma elem_of_dependencies f name t dependency :
  dependency ∈ dependencies f name t <-> exists key, contexts t !! key = Some (targetPrefix +:+ dependency).
Proof.
  unfold dependencies. rewrite list_elem_of_omap. split.
  - intros ([key source] & Hin & Hc). destruct (CutPrefix source targetPrefix) as [d []] eqn:Hcut; [|done].
    injection Hc as ->. apply CutPrefix_true in Hcut as ->. exists key.
    by rewrite range_perm, elem_of_map_to_list in Hin.
  - intros [key Hkey]. exists (key, targetPrefix +:+ dependency).
    rewrite range_perm, elem_of_map_to_list. split; [done|].
    by rewrite (proj2 (CutPrefix_true _ _ _) eq_refl).
Qed.

Lemma omap_length {A B} (f : A -> option B) l : length (omap f l) <= length l.
Proof. induction l as [|x l IH]; csimpl; [done|]. destruct (f x); simpl; lia. Qed.

Lemma dependencies_length f name t : length (dependencies f name t) <= size (contexts t).
Proof.
  unfold dependencies. etransitivity; [apply omap_length|]. by rewrite range_perm, length_map_to_list.
Qed.

(** The contexts of the targets that were not visited yet *)
Definition fresh (seen : gmap string unit) : gmap string bakeTarget :=
  filter (fun kt => seen !! kt.1 = None) (targets graph).
Definition weight (ts : gmap string bakeTarget) : nat :=
  sum_list ((fun kt => size (contexts kt.2)) <$> map_to_list ts).

Lemma weight_delete ts name t : ts !! name = Some t ->
  weight ts = size (contexts t) + weight (delete name ts).
Proof. intros Ht. unfold weight. by rewrite <- (map_to_list_delete ts name t Ht). Qed.

Lemma fresh_insert seen name : fresh (<[name := tt]> seen) = delete name (fresh seen).
Proof.
  apply map_eq. intros k. unfold fresh. destruct (decide (k = name)) as [->|Hk].
  - rewrite lookup_delete_eq, map_lookup_filter_None. right. intros t _. by rewrite lookup_insert_eq.
  - rewrite lookup_delete_ne by done. apply option_eq. intros t.
    rewrite !map_lookup_filter_Some. simpl. by rewrite lookup_insert_ne.
Qed.

Lemma weight_insert seen name t : seen !! name = None -> targets graph !! name = Some t ->
  weight (fresh seen) = size (contexts t) + weight (fresh (<[name := tt]> seen)).
Proof.
  intros Hs Ht. rewrite fresh_insert. apply weight_delete. unfold fresh. by apply map_lookup_filter_Some.
Qed.

Lemma weight_insert_le seen name : weight (fresh (<[name := tt]> seen)) <= weight (fresh seen).
Proof.
  rewrite fresh_insert. destruct (fresh seen !! name) as [t|] eqn:Ht.
  - rewrite (weight_delete _ _ _ Ht). lia.
  - by rewrite delete_id.
Qed.

(** Everything a visited target takes is visited or pending. *)
Definition closed (pending : list string) seen : Prop :=
  forall name dependency, is_Some (seen !! name) -> takes name dependency ->
  is_Some (seen !! dependency) \/ dependency ∈ pending.

Lemma closed_insert pending seen name : closed (name :: pending) seen ->
  forall more, (forall dependency, takes name dependency -> dependency ∈ more) ->
  closed (more ++ pending) (<[name := tt]> seen).
Proof.
  intros Hc more Hmore a b Ha Hab. destruct (decide (b = name)) as [->|Hb]; [left; by rewrite lookup_insert_eq|].
  rewrite lookup_insert_ne by done. destruct (decide (a = name)) as [->|Hn].
  - right. apply elem_of_app. auto.
  - rewrite lookup_insert_ne in Ha by done. destruct (Hc a b Ha Hab) as [?|[->|?]%elem_of_cons]; [by left|done|].
    right. apply elem_of_app. auto.
Qed.

Lemma is_Some_insert seen name k : is_Some (<[name := tt]> seen !! k) <-> k = name \/ is_Some (seen !! k).
Proof. rewrite lookup_insert_is_Some'. naive_solver. Qed.

Lemma reachableLoop_spec fuel pending seen (P : string -> Prop) :
  length pending + weight (fresh seen) <= fuel -> closed pending seen ->
  (forall name, name ∈ pending -> P name) -> (forall name, is_Some (seen !! name) -> P name) ->
  (forall a b, P a -> takes a b -> P b) ->
  exists m, reachableLoop fuel graph pending seen = Some m /\ closed [] m /\
    (forall name, is_Some (m !! name) -> P name) /\
    (forall name, name ∈ pending \/ is_Some (seen !! name) -> is_Some (m !! name)).
Proof.
  intros Hfuel Hcl Hp Hs Hstep. revert pending seen Hfuel Hcl Hp Hs.
  induction fuel as [|fuel IH]; intros [|name pending] seen Hfuel Hcl Hp Hs; simpl in *;
    try (exists seen; split_and!; [done..|]; intros n [[]%elem_of_nil|]; done); [lia|].
  case_bool_decide as Hseen.
  - destruct (IH pending seen) as (m & Hm & Hc & HPm & Hin); [lia| |set_solver|done|].
    { intros a b Ha Hab. destruct (Hcl a b Ha Hab) as [?|[->|?]%elem_of_cons]; auto. }
    exists m. split_and!; [done..|]. intros n [[->|?]%elem_of_cons|?]; auto.
  - assert (seen !! name = None) as Hnone by (by apply eq_None_not_Some).
    assert (forall n, is_Some (<[name := tt]> seen !! n) -> P n) as Hs'.
    { intros n [->|?]%is_Some_insert; [apply Hp|]; set_solver. }
    assert (forall m, (forall n, (n ∈ pending \/ is_Some (<[name := tt]> seen !! n)) -> is_Some (m !! n)) ->
      forall n, n ∈ name :: pending \/ is_Some (seen !! n) -> is_Some (m !! n)) as Hmem.
    { intros m Hm n Hn. apply Hm. rewrite is_Some_insert. set_solver. }
    destruct (targets graph !! name) as [t|] eqn:Ht.
    + destruct (IH (reverse (dependencies "reachable" name t) ++ pending) (<[name := tt]> seen))
        as (m & Hm & Hc & HPm & Hin); [| | |done|].
      * rewrite length_app, length_reverse. pose proof (dependencies_length "reachable" name t).
        rewrite (weight_insert _ _ _ Hnone Ht) in Hfuel. lia.
      * apply closed_insert; [done|]. intros d (t' & key & Ht' & Hkey). rewrite elem_of_reverse.
        apply elem_of_dependencies. exists key. congruence.
      * intros n [Hn|Hn]%elem_of_app; [|set_solver]. apply elem_of_reverse, elem_of_dependencies in Hn as [key Hkey].
        apply (Hstep name); [apply Hp; left|]. by exists t, key.
      * exists m. split_and!; [done..|]. apply Hmem. intros n [Hn|Hn]; apply Hin; [left; set_solver|by right].
    + destruct (IH pending (<[name := tt]> seen)) as (m & Hm & Hc & HPm & Hin); [| |set_solver|done|].
      * pose proof (weight_insert_le seen name). lia.
      * apply (closed_insert pending seen name Hcl []). intros d (t & key & Ht' & _). congruence.
      * exists m. split_and!; [done..|]. by apply Hmem.
Qed.

Lemma reachable_spec roots : exists m, reachable graph roots = Some m /\
  forall name, is_Some (m !! name) <-> reaches roots name.
Proof.
  unfold reachable. edestruct (reachableLoop_spec (reachableFuel graph roots) (reverse roots) ∅ (reaches roots))
    as (m & Hm & Hc & HPm & Hin).
  - unfold reachableFuel, fresh. rewrite length_reverse. fold (weight (targets graph)).
    rewrite map_filter_id; [lia|]. by intros.
  - intros a b Ha. rewrite lookup_empty in Ha. by destruct Ha.
  - intros name Hn. rewrite elem_of_reverse in Hn. exists name. split; [exact Hn|apply rtc_refl].
  - intros name Hn. rewrite lookup_empty in Hn. by destruct Hn.
  - intros a b (root & Hr & Ha) Hab. exists root. split; [done|]. by eapply rtc_r.
  - exists m. split; [done|]. intros name. split; [apply HPm|]. intros (root & Hr & Hpath).
    assert (is_Some (m !! root)) as Hroot by (apply Hin; left; by apply elem_of_reverse).
    clear Hr. induction Hpath as [|a b c Hab _ IH]; [done|]. apply IH.
    destruct (Hc a b Hroot Hab) as [?|[]%elem_of_nil]. done.
Qed.
End Reach.

(** ** Inheritance *)

Section Inherit.
Context {HP : HclParser} (argsFirst : bool) (templates : gmap string Block) (ctx : list (gmap string Value)).

Definition parentsOf (label : string) (block : Block) : result bakeError (list string) :=
  attribute label block "inherits" evaluateStringList ctx [].

(** [label] inherits from [parent]. *)
Definition inherits (label parent : string) : Prop :=
  exists block parents, templates !! label = Some block /\ parentsOf label block = Ok parents /\ parent ∈ parents.

(** What a template stands for: its parents in order, then its own
    attributes.  No stack and no fuel. *)
Inductive resolves : string -> bakeTarget -> Prop :=
  | resolves_intro label block parents merged t :
      templates !! label = Some block -> parentsOf label block = Ok parents ->
      mergesAll parents (emptyTarget label) merged ->
      ownAttributes argsFirst label block ctx merged = Ok t -> resolves label t
with mergesAll : list string -> bakeTarget -> bakeTarget -> Prop :=
  | merges_nil t : mergesAll [] t t
  | merges_cons parent parents acc t r :
      resolves parent t -> mergesAll parents (mergeBakeTarget acc t) r -> mergesAll (parent :: parents) acc r.

Scheme resolves_mut := Induction for resolves Sort Prop
  with mergesAll_mut := Induction for mergesAll Sort Prop.

Abbreviation resolve fuel stack := (resolveBakeTarget argsFirst fuel templates ctx stack).

Lemma inheritParents_total f parents acc :
  (forall parent, parent ∈ parents -> is_Some (f parent)) -> is_Some (inheritParents f parents acc).
Proof.
  revert acc. induction parents as [|parent parents IH]; intros acc Hf; simpl; [eauto|].
  destruct (Hf parent) as [[t|e] ->]; [left| |eauto]. apply IH. intros p Hp. apply Hf. by right.
Qed.

Lemma resolve_total fuel stack label :
  stack ⊆ dom templates -> size templates < fuel + size stack -> is_Some (resolve fuel stack label).
Proof.
  revert stack label. induction fuel as [|fuel IH]; intros stack label Hs Hf; simpl.
  { apply subseteq_size in Hs. rewrite size_dom in Hs. lia. }
  destruct (templates !! label) as [block|] eqn:Hb; [|eauto]. case_bool_decide as Hl; [eauto|].
  destruct (attribute _ _ _ _ _ _) as [parents|]; [|eauto].
  destruct (inheritParents_total (resolve fuel ({[label]} ∪ stack)) parents (emptyTarget label)) as [[t|e] ->]; [|eauto..].
  intros parent _. apply IH.
  - apply elem_of_dom_2 in Hb. set_solver.
  - rewrite size_union, size_singleton by set_solver. lia.
Qed.

Lemma inheritParents_merges f parents acc r :
  (forall parent t, f parent = Some (Ok t) -> resolves parent t) ->
  inheritParents f parents acc = Some (Ok r) -> mergesAll parents acc r.
Proof.
  intros Hf. revert acc. induction parents as [|parent parents IH]; intros acc; simpl.
  { intros [= ->]. constructor. }
  destruct (f parent) as [[t|e]|] eqn:Ht; [|done..]. intros Hr. econstructor; eauto.
Qed.

Lemma resolve_sound fuel stack label t : resolve fuel stack label = Some (Ok t) -> resolves label t.
Proof.
  revert stack label t. induction fuel as [|fuel IH]; intros stack label t; simpl; [done|].
  destruct (templates !! label) as [block|] eqn:Hb; [|done]. case_bool_decide; [done|].
  destruct (attribute _ _ _ _ _ _) as [parents|] eqn:Hp; [|done].
  destruct (inheritParents _ _ _) as [[merged|]|] eqn:Hm; [|done..]. intros [= Ht].
  eapply inheritParents_merges in Hm; [|by apply IH]. by econstructor.
Qed.

Lemma resolves_acc label t : resolves label t -> Acc (fun parent child => inherits child parent) label.
Proof.
  intros H. induction H as [label block parents merged t Hb Hp _ IH _| |parent parents acc t r _ IH1 _ IH2]
    using resolves_mut with (P0 := fun parents _ _ _ => Forall (Acc (fun parent child => inherits child parent)) parents).
  - constructor. intros parent (block' & parents' & Hb' & Hp' & Hin). simplify_eq.
    rewrite Hp in Hp'. simplify_eq. by eapply Forall_forall in IH.
  - constructor.
  - by constructor.
Qed.

Lemma acc_no_cycle {A} (R : A -> A -> Prop) x : Acc (fun a b => R b a) x -> ~ tc R x x.
Proof.
  induction 1 as [x _ IH]. intros Hc. inversion Hc as [? ? Hxx|? y ? Hxy Hyx]; subst; [by apply (IH x Hxx), tc_once|].
  apply (IH y Hxy). eapply tc_transitive; [exact Hyx|by apply tc_once].
Qed.

Lemma resolve_complete fuel stack label t :
  resolves label t -> stack ⊆ dom templates -> size templates < fuel + size stack ->
  (forall above, above ∈ stack -> tc inherits above label) -> resolve fuel stack label = Some (Ok t).
Proof.
  intros H. revert fuel stack. induction H as [label block parents merged t Hb Hp Hm IH Ht| |parent parents acc t r Hr IH1 Hm IH2]
    using resolves_mut with (P0 := fun parents acc r _ => forall fuel stack, stack ⊆ dom templates ->
      size templates < fuel + size stack ->
      (forall parent above, parent ∈ parents -> above ∈ stack -> tc inherits above parent) ->
      inheritParents (resolve fuel stack) parents acc = Some (Ok r)).
  - intros [|fuel] stack Hs Hf Habove; simpl.
    { apply subseteq_size in Hs. rewrite size_dom in Hs. lia. }
    rewrite Hb. case_bool_decide as Hl.
    { destruct (acc_no_cycle inherits label); [|by apply Habove]. eapply resolves_acc. by econstructor. }
    unfold parentsOf in Hp. rewrite Hp, IH, Ht; [done| | |].
    + apply elem_of_dom_2 in Hb. set_solver.
    + rewrite size_union, size_singleton by set_solver. lia.
    + intros parent above Hin Hab. assert (inherits label parent) by (by exists block, parents).
      apply elem_of_union in Hab as [->%elem_of_singleton|Hab]; [by apply tc_once|]. eapply tc_r; eauto.
  - done.
  - intros fuel stack Hs Hf Habove. simpl. rewrite IH1; [|done..|].
    + apply IH2; [done..|]. intros p above Hp. apply Habove. by right.
    + intros above. apply Habove. left.
Qed.
End Inherit.

(** The targets of [ReachableBakeTargets] are, in order and once each, the
    ones a path of contexts leads to from a root, whatever the order of the
    maps; a path to an undefined target is an error, and nothing else is. *)
Theorem reachable_targets {HP : HclParser} {MR : MapRange} (graph : bakeGraph) (roots : list string) :
  exists r, reachableTargets graph roots = Some r /\
  match r with
  | Ok l => StronglySorted str_le l /\ NoDup l /\
      forall name, (name ∈ l <-> reaches graph roots name) /\ (name ∈ l -> is_Some (targets graph !! name))
  | Err _ => exists name, reaches graph roots name /\ targets graph !! name = None
  end.
Proof.
  destruct (reachable_spec graph roots) as (m & Hm & Hin). unfold reachableTargets. rewrite Hm. simpl.
  set (names := (range_ _ _ _).*1).
  assert (forall name, name ∈ names <-> is_Some (m !! name)) as Hnames.
  { intros name. unfold names. rewrite range_perm, list_elem_of_fmap. split.
    - intros ([k []] & -> & Hk%elem_of_map_to_list). eauto.
    - intros [[] Hk]. exists (name, tt). split; [done|]. by apply elem_of_map_to_list. }
  destruct (forallb _ names) eqn:Hall; eexists; (split; [reflexivity|]); simpl.
  - rewrite forallb_forall in Hall. split_and!; [apply SortStrings_sorted| |].
    + rewrite SortStrings_perm. unfold names. rewrite range_perm. apply NoDup_fst_map_to_list.
    + intros name. rewrite SortStrings_perm, Hnames, Hin. split; [done|]. intros H%Hin%Hnames.
      apply list_elem_of_In, Hall in H. by apply bool_decide_eq_true in H.
  - apply not_true_iff_false in Hall. rewrite forallb_forall in Hall.
    destruct (decide (Exists (fun name => targets graph !! name = None) names)) as [H|H].
    + apply Exists_exists in H as (name & Hn & Hnone). exists name. by rewrite <- Hin, <- Hnames.
    + destruct Hall. intros name Hn. apply bool_decide_eq_true. destruct (targets graph !! name) eqn:Ht; [eauto|].
      destruct H. apply Exists_exists. exists name. by rewrite list_elem_of_In.
Qed.

(** C26. A template is resolved exactly when it stands for something: the
    evaluation ends for every document, its value is the one of the definition
    by parents and own attributes, and an error, or the panic of an accessor,
    means that there is no such value; in particular no cycle is accepted. *)
Theorem inheritance_resolved {HP : HclParser} (argsFirst : bool) (templates : gmap string Block)
    (ctx : list (gmap string Value)) (label : string) :
  exists r, resolveBakeTarget argsFirst (S (size templates)) templates ctx ∅ label = Some r /\
  match r with
  | Ok t => resolves argsFirst templates ctx label t /\
      Acc (fun parent child => inherits templates ctx child parent) label
  | Err _ => forall t, ~ resolves argsFirst templates ctx label t
  end.
Proof.
  destruct (resolve_total argsFirst templates ctx (S (size templates)) ∅ label) as [r Hr]; [set_solver|rewrite size_empty; lia|].
  exists r. split; [done|]. destruct r as [t|e].
  - apply resolve_sound in Hr. split; [done|]. by eapply resolves_acc.
  - intros t Ht. rewrite (resolve_complete argsFirst templates ctx (S (size templates)) ∅ label t) in Hr; [done|done|set_solver| |set_solver].
    rewrite size_empty. lia.
Qed.

(** The evaluation of a whole document ends. *)
Lemma resolveContexts_total {HP : HclParser} argsFirst label templates ctxs acc :
  is_Some (resolveContexts argsFirst label templates ctxs acc).
Proof.
  revert acc. induction ctxs as [|ctx ctxs IH]; intros acc; cbn [resolveContexts]; [eauto|].
  destruct (resolve_total argsFirst templates ctx (S (size templates)) ∅ label) as [[t|e] ->]; [set_solver|rewrite size_empty; lia| |eauto].
  repeat case_match; eauto.
Qed.

Lemma parseBakeGraph_total {HP : HclParser} argsFirst data : is_Some (parseBakeGraph argsFirst data).
Proof.
  unfold parseBakeGraph. destruct (ParseHCL data) as [blocks|]; [|eauto].
  destruct (collectBlocks blocks ∅ ∅) as [[vars templates]|]; [|eauto].
  assert (forall labels acc, is_Some (resolveLabels argsFirst labels templates [vars] acc)) as Hl.
  { induction labels as [|label labels IH]; intros acc; simpl; [eauto|].
    destruct (templates !! label) as [block|]; [|eauto]. destruct (matrixContexts _ _ _) as [ctxs|]; [|eauto].
    destruct (resolveContexts_total argsFirst label templates ctxs acc) as [[acc'|e] ->]; eauto. }
  destruct (Hl (SortStrings (map_to_list templates).*1) ∅) as [[ts|e] ->]; eauto.
Qed.

(** ** Where a panic comes from *)

Lemma mapM_Err {E A B} (f : A -> result E B) l e : mapM f l = Err e -> exists x, x ∈ l /\ f x = Err e.
Proof.
  induction l as [|x l IH]; simpl; [done|]. destruct (f x) as [b|e'] eqn:Hx; simpl; [|intros [= ->]; set_solver].
  destruct (mapM f l) as [k|e'']; simpl; [done|]. intros [= ->]. destruct (IH eq_refl) as (y & Hy & Hf). set_solver.
Qed.

Section Panics.
Context {HP : HclParser} (blocks : list Block).

(** The values of a document: of its attributes, and what these hold *)
Inductive arises : Value -> Prop :=
  | arises_attribute block key e ctx v : block ∈ blocks -> Attributes block !! key = Some e ->
      exprValue e ctx = Some v -> arises v
  | arises_key u items k v : arises u -> Elements u = Some items -> (k, v) ∈ items -> arises k
  | arises_element u items k v : arises u -> Elements u = Some items -> (k, v) ∈ items -> arises v
  | arises_entry u m k v : arises u -> AsValueMap u = Some m -> m !! k = Some v -> arises v.

(** The value passes what the code checks, and the accessor it then calls
    panics. *)
Definition panics (v : Value) : Prop :=
  IsKnown v = true /\
  (IsString v = true /\ AsString v = None \/ CanIterateElements v = true /\ (Elements v = None \/ AsValueMap v = None)).

Definition refused : Prop := exists v, arises v /\ panics v.

(** An evaluation of an expression of the document panics on a value of the
    document only. *)
Definition panicsRightly {A} (evaluate : Expr -> list (gmap string Value) -> result unevaluated A) : Prop :=
  forall block key e ctx, block ∈ blocks -> Attributes block !! key = Some e -> evaluate e ctx = Err AccessorPanic -> refused.

Lemma string_panic v : arises v -> (suitable (IsKnown v && IsString v);; access (AsString v)) = Err AccessorPanic -> refused.
Proof.
  intros Hv. destruct (IsKnown v) eqn:H1, (IsString v) eqn:H2; try done. destruct (AsString v) eqn:H3; [done|]. intros _.
  exists v. split; [done|]. split; [done|]. by left.
Qed.

Lemma evaluateString_panic : panicsRightly evaluateString.
Proof.
  intros block key e ctx Hb He. unfold evaluateString, evaluate. destruct (exprValue e ctx) as [v|] eqn:Hv; [|done].
  apply string_panic. by eapply arises_attribute.
Qed.

Lemma evaluateElements_panic block key e ctx : block ∈ blocks -> Attributes block !! key = Some e ->
  match evaluateElements e ctx with
  | Ok items => forall k v, (k, v) ∈ items -> arises k /\ arises v
  | Err AccessorPanic => refused
  | Err Unsuitable => True
  end.
Proof.
  intros Hb He. unfold evaluateElements, evaluate. destruct (exprValue e ctx) as [u|] eqn:Hu; [|done].
  assert (arises u) as Hau by (by eapply arises_attribute). cbn. unfold suitable.
  destruct (IsKnown u && CanIterateElements u) eqn:H1; [|done]. apply andb_prop in H1 as [H1 H2]. cbn.
  destruct (Elements u) as [items|] eqn:H3; cbn; [|exists u; split; [done|split; auto]].
  intros k v Hin. split; [by eapply arises_key|by eapply arises_element].
Qed.

Lemma evaluateStringList_panic : panicsRightly evaluateStringList.
Proof.
  intros block key e ctx Hb He. unfold evaluateStringList. pose proof (evaluateElements_panic block key e ctx Hb He) as H.
  destruct (evaluateElements e ctx) as [items|[]]; cbn; [|done..]. intros ([k v] & Hin & Hx)%mapM_Err.
  eapply string_panic; [|exact Hx]. by apply (H k v).
Qed.

Lemma evaluateStringMap_panic : panicsRightly evaluateStringMap.
Proof.
  intros block key e ctx Hb He. unfold evaluateStringMap. pose proof (evaluateElements_panic block key e ctx Hb He) as H.
  destruct (evaluateElements e ctx) as [items|[]]; cbn; [|done..]. destruct (mapM _ items) as [|err] eqn:Hm; cbn; [done|].
  intros [= ->]. apply mapM_Err in Hm as ([k v] & Hin & Hx). destruct (H k v Hin) as [Hk Hv]. cbn in Hx.
  destruct (IsKnown k) eqn:H1, (IsString k) eqn:H2, (IsKnown v) eqn:H3, (IsString v) eqn:H4; try done. cbn in Hx.
  destruct (AsString k) eqn:H5; cbn in Hx; [|exists k; split; [done|split; auto]].
  destruct (AsString v) eqn:H6; cbn in Hx; [done|exists v; split; [done|split; auto]].
Qed.

Lemma attribute_panic {A} label block key (evaluate : Expr -> _ -> result unevaluated A) ctx absent :
  panicsRightly evaluate -> block ∈ blocks -> attribute label block key evaluate ctx absent = Err EvaluationPanic -> refused.
Proof.
  intros He Hb. unfold attribute. destruct (Attributes block !! key) as [e|] eqn:Ha; [|done].
  destruct (evaluate e ctx) as [|[]] eqn:Hr; try done. intros _. by eapply He.
Qed.

Lemma own_panic argsFirst label block ctx t : block ∈ blocks ->
  ownAttributes argsFirst label block ctx t = Err EvaluationPanic -> refused.
Proof.
  intros Hb H. unfold ownAttributes in H.
  do 5 (apply bind_err_inv in H as [H|(? & _ & H)];
        [eapply attribute_panic, H; [|done]; first [apply evaluateString_panic|apply evaluateStringList_panic]|]).
  apply bind_err_inv in H as [H|(? & _ & H)].
  { destruct argsFirst; [|done]. apply bind_err_inv in H as [H|(? & _ & H)]; [|done]. eapply attribute_panic, H; [apply evaluateStringMap_panic|done]. }
  do 2 (apply bind_err_inv in H as [H|(? & _ & H)]; [eapply attribute_panic, H; [apply evaluateStringMap_panic|done]|]). done.
Qed.

Context (templates : gmap string Block).
Hypothesis templates_blocks : forall label block, templates !! label = Some block -> block ∈ blocks.

Lemma inheritParents_Err f parents acc e : inheritParents f parents acc = Some (Err e) ->
  exists parent, f parent = Some (Err e).
Proof.
  revert acc. induction parents as [|parent parents IH]; intros acc; simpl; [done|].
  destruct (f parent) as [[t|e']|] eqn:Hf; [apply IH| |done]. intros [= ->]. eauto.
Qed.

Lemma resolve_panic argsFirst fuel ctx stack label :
  resolveBakeTarget argsFirst fuel templates ctx stack label = Some (Err EvaluationPanic) -> refused.
Proof.
  revert stack label. induction fuel as [|fuel IH]; intros stack label; simpl; [done|].
  destruct (templates !! label) as [block|] eqn:Hb; [|done]. apply templates_blocks in Hb.
  case_bool_decide; [done|]. destruct (attribute _ _ _ _ _ _) as [parents|] eqn:Hp.
  - destruct (inheritParents _ _ _) as [[t|e]|] eqn:Hi; [| |done]; intros [= Ht]; [by eapply own_panic|]. subst e.
    apply inheritParents_Err in Hi as [parent Hi]. by eapply IH.
  - intros [= ->]. eapply attribute_panic, Hp; [|done]. apply evaluateStringList_panic.
Qed.

Lemma matrixLoop_panic label m names ctxs : (forall k v, m !! k = Some v -> arises v) ->
  matrixLoop label m names ctxs = Err EvaluationPanic -> refused.
Proof.
  intros Hm. revert ctxs. induction names as [|name names IH]; intros ctxs; simpl; [done|].
  destruct (m !! name) as [v|] eqn:Hv; [|done]. destruct (negb (IsKnown v) || negb (CanIterateElements v)) eqn:Hc; [done|].
  apply orb_false_iff in Hc as [H1%negb_false_iff H2%negb_false_iff].
  destruct (Elements v) as [[|item items]|] eqn:He; [done|apply IH|]. intros _.
  exists v. split; [by eapply Hm|]. split; auto.
Qed.

Lemma matrixContexts_panic label block base : block ∈ blocks ->
  matrixContexts label block base = Err EvaluationPanic -> refused.
Proof.
  intros Hb. unfold matrixContexts. destruct (Attributes block !! "matrix") as [e|] eqn:Ha; [|done].
  destruct (exprValue e base) as [v|] eqn:Hv; [|done]. destruct (negb (IsKnown v) || negb (CanIterateElements v)) eqn:Hc; [done|].
  apply orb_false_iff in Hc as [H1%negb_false_iff H2%negb_false_iff].
  assert (arises v) as Hav by (by eapply arises_attribute). destruct (AsValueMap v) as [m|] eqn:Hm.
  - apply matrixLoop_panic. intros k w Hk. by eapply arises_entry.
  - intros _. exists v. split; [done|]. split; auto.
Qed.

Lemma resolveContexts_panic argsFirst label ctxs acc :
  resolveContexts argsFirst label templates ctxs acc = Some (Err EvaluationPanic) -> refused.
Proof.
  revert acc. induction ctxs as [|ctx ctxs IH]; intros acc; cbn [resolveContexts]; [done|].
  destruct (resolveBakeTarget _ _ _ _ _ _) as [[t|e]|] eqn:Hr; [|intros [= ->]; by eapply resolve_panic|done].
  destruct (String.eqb _ _); [done|]. case_bool_decide; [done|apply IH].
Qed.

Lemma resolveLabels_panic argsFirst labels base acc :
  resolveLabels argsFirst labels templates base acc = Some (Err EvaluationPanic) -> refused.
Proof.
  revert acc. induction labels as [|label labels IH]; intros acc; simpl; [done|].
  destruct (templates !! label) as [block|] eqn:Hb; [|done]. apply templates_blocks in Hb.
  destruct (matrixContexts label block base) as [ctxs|e] eqn:Hm; [|intros [= ->]; by eapply matrixContexts_panic].
  destruct (resolveContexts _ _ _ _ _) as [[acc'|e]|] eqn:Hr; [apply IH| |done]. intros [= ->]. by eapply resolveContexts_panic.
Qed.
End Panics.

(** The templates are blocks of the document, the variables its values. *)
Lemma collectBlocks_spec {HP : HclParser} all blocks vars templates vars' templates' :
  (forall block, block ∈ blocks -> block ∈ all) ->
  (forall k v, vars !! k = Some v -> arises all v) -> (forall k b, templates !! k = Some b -> b ∈ all) ->
  collectBlocks blocks vars templates <> Err EvaluationPanic /\
  (collectBlocks blocks vars templates = Ok (vars', templates') ->
   (forall k v, vars' !! k = Some v -> arises all v) /\ (forall k b, templates' !! k = Some b -> b ∈ all)).
Proof.
  revert vars templates. induction blocks as [|block blocks IH]; intros vars templates Hall Hv Ht; simpl.
  { split; [done|]. by intros [= -> ->]. }
  assert (forall b, b ∈ blocks -> b ∈ all) as Hall' by set_solver. assert (block ∈ all) as Hb by set_solver.
  pose proof (IH vars templates Hall' Hv Ht) as Hsame.
  destruct (Labels block) as [|label [|]]; [exact Hsame| |exact Hsame].
  destruct (String.eqb (BlockType block) "variable").
  - destruct (Attributes block !! "default") as [e|] eqn:Ha; [|exact Hsame].
    destruct (exprValue e []) as [v|] eqn:He; [|done]. destruct (IsKnown v); [|done]. apply IH; [done| |done].
    intros k w [[<- <-]|[_ Hk]]%lookup_insert_Some; [by eapply arises_attribute|eauto].
  - destruct (String.eqb (BlockType block) "target"); [|exact Hsame]. case_bool_decide; [done|]. apply IH; [done|done|].
    intros k b [[<- <-]|[_ Hk]]%lookup_insert_Some; [done|eauto].
Qed.

Lemma parseBakeGraph_panic {HP : HclParser} argsFirst data : parseBakeGraph argsFirst data = Some (Err EvaluationPanic) ->
  exists blocks, ParseHCL data = Ok blocks /\ refused blocks.
Proof.
  unfold parseBakeGraph. destruct (ParseHCL data) as [blocks|]; [|done]. intros H. exists blocks. split; [done|].
  destruct (collectBlocks_spec blocks blocks ∅ ∅ ∅ ∅) as [Hno _]; [done..|].
  destruct (collectBlocks blocks ∅ ∅) as [[vars templates]|e] eqn:Hc; [|congruence].
  destruct (collectBlocks_spec blocks blocks ∅ ∅ vars templates) as [_ Hs]; [done..|]. destruct (Hs Hc) as [_ Ht].
  destruct (resolveLabels _ _ _ _ _) as [[ts|e]|] eqn:Hr; [done| |done]. injection H as ->.
  by eapply resolveLabels_panic.
Qed.

Lemma variableString_panic {HP : HclParser} argsFirst data graph name : parseBakeGraph argsFirst data = Some (Ok graph) ->
  variableString graph name = None -> exists blocks, ParseHCL data = Ok blocks /\ refused blocks.
Proof.
  unfold parseBakeGraph. destruct (ParseHCL data) as [blocks|]; [|done]. intros H Hname. exists blocks. split; [done|].
  destruct (collectBlocks blocks ∅ ∅) as [[vars templates]|e] eqn:Hc; [|done].
  destruct (collectBlocks_spec blocks blocks ∅ ∅ vars templates) as [_ Hs]; [done..|]. destruct (Hs Hc) as [Hv _].
  destruct (resolveLabels _ _ _ _ _) as [[ts|e]|]; [|done..]. injection H as <-. unfold variableString in Hname. cbn in Hname.
  destruct (vars !! name) as [v|] eqn:Hk; [|done]. exists v. split; [by eapply Hv|]. unfold panics.
  destruct (IsKnown v), (IsString v); try done. split; auto.
Qed.
End BakeTheorems.
