(* ===== verification/BuildGraph.v ===== *)
(** The validation of the build graph against the repository:
    [bakeTargetValidator] of [cli/config/bakegraph.go], which follows the
    Dockerfiles of the delivery targets, and [validateBuildGraph] and
    [deliveryGraphSHA256] of [cli/config/buildgraph.go]. *)
From stdpp Require Import prelude gmap strings list sorting.
From Stdlib Require Import Ascii ZArith Lia.
From S2P Require Import Prelude GoStrings FsPath Sha256 Fs Treehash Transaction Progress BakeGraph.

Module BuildGraph.
Import FsPath Sha256 Fs Treehash Transaction Progress BakeGraph.

(** ** [bakeTargetValidator] *)

Record parsedDockerfile := { dname : string; stages : list Stage; byName : gmap string nat }.

Record validator :=
  { problems : list problem; dockerfiles : gmap string parsedDockerfile;
    visited : gset string; visiting : gset string }.

Definition newValidator : validator := {| problems := []; dockerfiles := ∅; visited := ∅; visiting := ∅ |}.

(** Programs over the validator and the file system; [None] is fuel used up. *)
Definition V (A : Type) : Type := validator -> M (option A * validator).

#[export] Instance V_ret : MRet V := fun A a s => mret (Some a, s).
#[export] Instance V_bind : MBind V := fun A B f m s =>
  r ← (m s : M (option A * validator));
  match r with (Some a, s) => f a s | (None, s) => mret (None, s) end.

Definition outOfFuel {A} : V A := fun s => mret (None, s).
Definition state : V validator := fun s => mret (Some s, s).
Definition modify (f : validator -> validator) : V unit := fun s => mret (Some tt, f s).
Definition attempt {A} (m : M A) : V (result goerr A) := fun s => r ← catch m; mret (Some r, s).

Definition with_dockerfiles d (s : validator) : validator :=
  {| problems := problems s; dockerfiles := d; visited := visited s; visiting := visiting s |}.
Definition with_visited v (s : validator) : validator :=
  {| problems := problems s; dockerfiles := dockerfiles s; visited := v; visiting := visiting s |}.
Definition with_visiting v (s : validator) : validator :=
  {| problems := problems s; dockerfiles := dockerfiles s; visited := visited s; visiting := v |}.
Definition report (p : problem) : V unit := modify (fun s =>
  {| problems := problems s ++ [p]; dockerfiles := dockerfiles s; visited := visited s; visiting := visiting s |}).

Fixpoint vfor {A S} (l : list A) (body : A -> S -> V S) (acc : S) : V S :=
  match l with
  | [] => mret acc
  | x :: l => acc ← body x acc; vfor l body acc
  end.

Definition expandBakeReference (reference : string) (args : gmap string string) : string :=
  let plain :=
    if HasPrefix reference "$" then default reference (args !! TrimPrefix reference "$") else reference in
  if HasPrefix reference "${" && HasSuffix reference "}" then
    default plain (args !! TrimSuffix (TrimPrefix reference "${") "}")
  else plain.

(** [path.Join] of the directory of the graph *)
Definition graphRelative (relative : string) : string := JoinPath buildGraphDir relative.

Section Validator.
Context {HP : HclParser} {MR : MapRange} {DP : DockerfileParser} {UC : UnicodeCase}.
Variables (graph : bakeGraph) (policy : DeliveryPolicy) (files : overlay).

(** The stages by lower-case name; a later stage replaces an earlier one. *)
Definition stageNames (l : list Stage) : gmap string nat :=
  foldl (fun m '(i, st) => if String.eqb (StageName st) "" then m else <[ToLower (StageName st) := i]> m) ∅
        (imap pair l).

Definition parsedOf (relative data : string) : result goerr parsedDockerfile :=
  l ← ParseDockerfile data;
  match l with
  | [] => Err (Msg "contains no stages")
  | _ => Ok {| dname := Base relative; stages := l; byName := stageNames l |}
  end.

Definition dockerfile_ (relative : string) : V (result goerr parsedDockerfile) :=
  if String.eqb relative "" then mret (Err (Msg "no Dockerfile is configured"))
  else
    s ← state;
    match dockerfiles s !! relative with
    | Some parsed => mret (Ok parsed)
    | None =>
        file ← attempt (graphFile (graphRelative relative) files);
        match file with
        | Err e => mret (Err e)
        | Ok (data, _) =>
            match parsedOf relative data with
            | Err e => mret (Err e)
            | Ok parsed =>
                modify (with_dockerfiles (<[relative := parsed]> (dockerfiles s)));;
                mret (Ok parsed)
            end
        end
    end.

(** [visitStage] and [visitTarget] are the calls back into the validator; the
    set of stages visited for the target goes in and comes out. *)
Definition validateReference (visitStage : nat -> gset nat -> V (gset nat)) (visitTarget : string -> V unit)
    (targetName : string) (target : bakeTarget) (file : parsedDockerfile) (currentStage : nat)
    (reference : string) (line : Z) (instruction : string) (seen : gset nat) : V (gset nat) :=
  let reference := expandBakeReference reference (args target) in
  if String.eqb reference "scratch" || String.eqb reference (BuildBase policy) then mret seen
  else
    match ParseInt64 reference with
    | Some stage =>
        if (stage <? 0)%Z || (Z.of_nat currentStage <=? stage)%Z
        then report (StageInvalid (dname file) line targetName instruction reference);; mret seen
        else visitStage (Z.to_nat stage) seen
    | None =>
        match byName file !! ToLower reference with
        | Some stage =>
            if (currentStage <=? stage)%nat
            then report (StageNotPrior (dname file) line targetName instruction reference);; mret seen
            else visitStage stage seen
        | None =>
            match contexts target !! reference with
            | None => report (ExternalSource (dname file) line targetName instruction reference);; mret seen
            | Some source =>
                let '(dependency, isTarget) := CutPrefix source targetPrefix in
                if isTarget : bool then visitTarget dependency;; mret seen else mret seen
            end
        end
    end.

Definition isRemote (source : string) : bool := Contains source "://" || HasPrefix source "git@".

Definition pinnedAdd (source checksum : string) : bool :=
  HasPrefix source "https://" && HasPrefix checksum "sha256:" && validHexSHA256 (TrimPrefix checksum "sha256:").

Definition validateAdd (targetName : string) (file : parsedDockerfile) (line : Z) (checksum source : string) : V unit :=
  if Contains source "$" then report (DynamicAdd (dname file) line targetName source)
  else if negb (isRemote source) then mret tt
  else if negb (pinnedAdd source checksum) then report (RemoteAdd (dname file) line targetName source)
  else mret tt.

Definition validateCommand (reference : string -> Z -> string -> gset nat -> V (gset nat))
    (targetName : string) (file : parsedDockerfile) (command : Command) (seen : gset nat) : V (gset nat) :=
  match command with
  | CopyCommand from location =>
      if String.eqb from "" then mret seen else reference from (dockerfileLine location) "COPY --from" seen
  | RunCommand mounts location =>
      vfor mounts (fun from seen =>
        if String.eqb from "" then mret seen
        else reference from (dockerfileLine location) "RUN --mount=from" seen) seen
  | AddCommand sources checksum location =>
      vfor sources (fun source _ => validateAdd targetName file (dockerfileLine location) checksum source) tt;;
      mret seen
  | OtherCommand => mret seen
  end.

(** A reference only leads to an earlier stage: [bound] is more than [index]. *)
Fixpoint validateStage (visitTarget : string -> V unit) (targetName : string) (target : bakeTarget)
    (file : parsedDockerfile) (bound : nat) (index : nat) (seen : gset nat) : V (gset nat) :=
  match stages file !! index with
  | None => mret seen
  | Some stage =>
      if bool_decide (index ∈ seen) then mret seen
      else
        match bound with
        | O => outOfFuel
        | S bound =>
            let reference := validateReference (validateStage visitTarget targetName target file bound) visitTarget
                               targetName target file index in
            seen ← reference (BaseName stage) (dockerfileLine (SLocation stage)) "FROM" ({[index]} ∪ seen);
            vfor (Commands stage) (validateCommand reference targetName file) seen
        end
  end.

(** The stage a target builds *)
Definition startStage (target : bakeTarget) (file : parsedDockerfile) : option nat :=
  if String.eqb (stage target) "" then Some (length (stages file) - 1)
  else byName file !! ToLower (stage target).

Fixpoint validateTarget (fuel : nat) (name : string) : V unit :=
  s ← state;
  if bool_decide (name ∈ visited s) then mret tt
  else if bool_decide (name ∈ visiting s) then report (TargetCycle name)
  else
    match targets graph !! name with
    | None => mret tt
    | Some target =>
        match fuel with
        | O => outOfFuel
        | S fuel =>
            modify (fun s => with_visiting ({[name]} ∪ visiting s) s);;
            parsed ← dockerfile_ (dockerfile target);
            match parsed with
            | Err e => report (DockerfileUnparsed name e)
            | Ok file =>
                match startStage target file with
                | None => report (StageMissing name (stage target))
                | Some index =>
                    validateStage (validateTarget fuel) name target file (length (stages file)) index ∅;;
                    modify (fun s => with_visited ({[name]} ∪ visited s) s)
                end
            end;;
            modify (fun s => with_visiting (visiting s ∖ {[name]}) s)
        end
    end.

(** [validateDeliveryTargets] *)
Definition validateDeliveryTargets (images : list Image) : V unit :=
  vfor images (fun image _ =>
    let target := BakeTarget (Default image) in
    if String.eqb target "" then mret tt else validateTarget (size (targets graph)) target) tt.

End Validator.

(** ** The digest of the graph *)

Definition dq : string := String "034" "".
Definition tagPrefix : string := "  tags       = [" +:+ dq.
Definition tagSuffix : string := dq +:+ "]".
Definition tagReplacement : string := tagPrefix +:+ "<build-input-sha256>" +:+ tagSuffix.

(** The loop over the lines; every round takes at least one byte. *)
Fixpoint normalizeLoop (fuel : nat) (data result : string) (replaced : nat) : Prelude.result goerr (string * nat) :=
  match fuel, data with
  | _, "" | O, _ => Ok (result, replaced)
  | S fuel, _ =>
      let '(line, rest) :=
        match IndexByte data "010" with
        | Some n => (str_take (S n) data, str_drop (S n) data)
        | None => (data, "")
        end in
      let body := TrimSuffix line newline in
      if HasPrefix body tagPrefix then
        if negb (HasSuffix body tagSuffix)
        then Err (Msg "delivery build graph has a non-canonical target tag")
        else
          normalizeLoop fuel rest
            (result +:+ tagReplacement +:+ (if (String.length line =? String.length body)%nat then "" else newline)) (S replaced)
      else normalizeLoop fuel rest (result +:+ line) replaced
  end.

Definition normalizeBuildGraphTargetTags (data : string) : result goerr (string * nat) :=
  normalizeLoop (String.length data) data "" 0.

(** [WalkRegularFiles] below a directory, with the visitor that collects the
    paths; the order of the walk is lost in the sort that follows. *)
Definition walkEntry (dir : path) (qn : path * node) : option (result goerr string) :=
  match strip dir qn.1, qn.2 with
  | None, _ | _, NDir => None
  | Some rel, NFile _ _ => Some (Ok (Join rel seps))
  | Some _, _ => Some (Err (Msg "tree contains unsupported file"))
  end.

Definition materialFiles (clean relative : string) : M (list string) :=
  path ← Resolve relative false;
  info ← lstat path;
  match info with
  | NFile _ _ => mret [clean]
  | NDir =>
      entries ← observe (fun d => Ok (all_ok (omap (walkEntry path) (map_to_list d))));
      entries ← lift entries;
      mret (JoinPath clean <$> entries)
  | _ => fail (Msg "material is not a regular file or directory")
  end.

Definition localGraphMaterialFiles (relative : string) : M (list string) :=
  clean ← relative_ relative;
  materialFiles clean (graphRelative clean).

Definition repositoryGraphMaterialFiles (relative : string) : M (list string) :=
  clean ← relative_ relative;
  materialFiles clean clean.

(** [%o] *)
Fixpoint stripZeros (s : string) : string :=
  match s with
  | String "0" (String _ _ as rest) => stripZeros rest
  | _ => s
  end.
Definition octal (perm : Z) : string := stripZeros (octal4 perm).

(** The files the materials of the built images name: of the graph's directory
    and of the repository *)
Fixpoint collectMaterials (firstParty : bool) (materials : list string) (acc : list string * list string)
    : M (list string * list string) :=
  match materials with
  | [] => mret acc
  | material :: materials =>
      let '(local, exists_) := CutPrefix material localPrefix in
      acc ← (if exists_ : bool then
               found ← wrapped "resolve build material" (localGraphMaterialFiles local);
               mret (acc.1 ++ found, acc.2)
             else if firstParty then
               found ← wrapped "resolve first-party build material" (repositoryGraphMaterialFiles material);
               mret (acc.1, acc.2 ++ found)
             else mret acc);
      collectMaterials firstParty materials acc
  end.

Fixpoint collectImages (images : list Image) (acc : list string * list string) : M (list string * list string) :=
  match images with
  | [] => mret acc
  | image :: images =>
      acc ← (if String.eqb (DType (Default image)) "build"
             then collectMaterials (String.eqb (Discovery image) "first-party") (Materials (Default image)) acc
             else mret acc);
      collectImages images acc
  end.

Fixpoint hashFiles (locate : string -> string) (relatives : list string) (files : overlay) (hash : string) : M string :=
  match relatives with
  | [] => mret hash
  | relative :: relatives =>
      file ← graphFile (locate relative) files;
      hashFiles locate relatives files
        (hash +:+ relative +:+ nul +:+ octal (Perm file.2) +:+ newline +:+
         hashBytes file.1 +:+ "  " +:+ relative +:+ newline)
  end.

(** The last mirrored image of an id, with its digest *)
Definition mirrorReference (id : string) (images : list Image) : string :=
  foldl (fun found image =>
    let choice := Default image in
    if negb (String.eqb (DType choice) "mirror") || String.eqb (Source choice) "" || String.eqb (Digest choice) "" then found
    else if String.eqb (ImageID image) id then Source choice +:+ "@" +:+ Digest choice else found) "" images.

Definition graphInputs (project : Project) : result goerr (list string) :=
  let images := Images project in
  let buildkit := mirrorReference "buildkit" images in
  let sbom := mirrorReference "sbom-scanner" images in
  let operatorBuilder := mirrorReference "operator-builder" images in
  let operatorBuild := existsb (fun image => String.eqb (ImageID image) "atum-operator" &&
                                             String.eqb (DType (Default image)) "build") images in
  if String.eqb buildkit "" then Err (Msg "delivery graph has no buildkit image")
  else if String.eqb sbom "" then Err (Msg "delivery graph has no sbom-scanner image")
  else if operatorBuild && String.eqb operatorBuilder "" then Err (Msg "delivery graph has no operator-builder image")
  else Ok ["ATUM_CACHE_REGISTRY=" +:+ RegistryHost project +:+ "/buildkit";
           "ATUM_BOOTSTRAP_OUTPUT=type=registry,oci-mediatypes=true,rewrite-timestamp=true";
           "ATUM_BUILDKIT_IMAGE=" +:+ buildkit;
           "ATUM_BUILD_PARALLELISM=" +:+ Itoa (BuildParallelism (Policy project));
           "ATUM_DEBIAN_IMAGE=" +:+ BuildBase (Policy project);
           "ATUM_PLATFORM=" +:+ Platform project;
           "ATUM_SBOM_GENERATOR_IMAGE=" +:+ sbom;
           "ATUM_OPERATOR_BUILDER_IMAGE=" +:+ operatorBuilder;
           "SOURCE_DATE_EPOCH=0"].

Definition digestLine (data relative : string) : string := hashBytes data +:+ "  " +:+ Base relative +:+ newline.

Definition graphFiles0 : list string := ["docker/Dockerfile.delivery"; "docker/Dockerfile.operator"].

Definition deliveryGraphSHA256 (project : Project) (profile : string) (files : overlay) : M string :=
  require (String.eqb profile "platform") (Msg "unsupported delivery profile");;
  ignored ← graphFile (buildGraphDir +:+ "/.dockerignore") files;
  bake ← graphFile buildGraphPath files;
  normalized ← lift (normalizeBuildGraphTargetTags bake.1);
  collected ← collectImages (Images project) (graphFiles0, []);
  hash ← hashFiles (fun relative => relative) (SortStrings (compactStrings collected.2)) files
           ("delivery-graph-v4" +:+ nul +:+ profile +:+ nul +:+
            digestLine ignored.1 (buildGraphDir +:+ "/.dockerignore") +:+ digestLine normalized.1 buildGraphPath);
  hash ← hashFiles graphRelative (SortStrings (compactStrings collected.1)) files hash;
  inputs ← lift (graphInputs project);
  mret (hashBytes (foldl (fun h input => h +:+ input +:+ newline) hash inputs)).

(** ** [validateBuildGraph] *)

Definition deliveryTargetNames (images : list Image) : list string :=
  compactStrings (filter (fun t => t <> "") ((fun image => BakeTarget (Default image)) <$> images)).

Section Validate.
Context {HP : HclParser} {MR : MapRange} {DP : DockerfileParser} {UC : UnicodeCase}.

Definition imageTargetProblems (graph : bakeGraph) (image : Image) : list problem :=
  let target := BakeTarget (Default image) in
  if String.eqb target "" then []
  else match targets graph !! target with
       | None => [ImageTargetMissing (ImageID image) target]
       | Some t => if bool_decide (tags t = [Target image]) then [] else [ImageTargetTags (ImageID image) target]
       end.

Definition staleProblems (graph : bakeGraph) (images : list Image) : list problem :=
  omap (fun name =>
    match targets graph !! name with
    | Some t =>
        match tags t with
        | [] => None
        | _ => if bool_decide (name ∈ deliveryTargetNames images) then None else Some (UnexpectedTarget name)
        end
    | None => None
    end) (SortStrings (map_to_list (targets graph)).*1).

Definition validateVersionMappedTargets (images : list Image) : list problem :=
  omap (fun image =>
    match VersionMapping image with
    | Some mapping =>
        if negb (String.eqb (MSource mapping) "upstreamImageTag") && negb (String.eqb (MSource mapping) "chartAppVersion")
        then None
        else if String.eqb (imageReferenceTag (Source (Default image))) (UpstreamTagPrefix mapping +:+ Version image)
        then None else Some (SourceTagMismatch (ImageID image))
    | None => None
    end) images.

Definition identityProblems (project : Project) (files : overlay) (allowStale : bool) : M (list problem) :=
  sha ← catch (deliveryGraphSHA256 project (LockProfile project) files);
  mret (match sha with
        | Err e => [IdentityUnresolved e]
        | Ok sha => if negb allowStale && negb (String.eqb sha (LockGraphSHA256 project))
                    then [IdentityMismatch (LockGraphSHA256 project) sha] else []
        end).

(** The checks of an evaluated graph, in the order of the source *)
Definition validateGraph (project : Project) (graph : bakeGraph) (files : overlay) (allowStale : bool)
    : M (option (ended (list problem))) :=
  let images := Images project in
  match variableString graph "ATUM_DEBIAN_IMAGE", validate graph (Policy project) (deliveryTargetNames images) with
  | None, _ => mret (Some Panicked)
  | _, None => mret None
  | Some base, Some targetProblems =>
      let baseProblems := if String.eqb base (BuildBase (Policy project)) then [] else [BaseMismatch base] in
      walked ← validateDeliveryTargets graph (Policy project) files images newValidator;
      match walked with
      | (None, _) => mret None
      | (Some _, s) =>
          identity ← identityProblems project files allowStale;
          mret (Some (Done (baseProblems ++ targetProblems ++ (images ≫= imageTargetProblems graph) ++
                            (if allowStale then [] else staleProblems graph images) ++
                            validateVersionMappedTargets images ++ problems s ++ identity)))
      end
  end.

(** [None] when an evaluation or a walk ran out of fuel, [Panicked] when the
    evaluation of the document panics, which nothing recovers from *)
Definition validateBuildGraph (argsFirst : bool) (project : Project) (files : overlay) (allowStale : bool)
    : M (option (ended (list problem))) :=
  path ← catch (Resolve buildGraphPath false);
  match path with
  | Err e => mret (Some (Done [GraphPathInvalid e]))
  | Ok path =>
      data ← (match files !! buildGraphPath with
              | Some data => mret (Ok data)
              | None => catch (read_file path)
              end : M (result goerr string));
      match data with
      | Err e => mret (Some (Done [GraphUnreadable e]))
      | Ok data =>
          match parseBakeGraph argsFirst data with
          | None => mret None
          | Some (Err EvaluationPanic) => mret (Some Panicked)
          | Some (Err e) => mret (Some (Done [GraphInvalid e]))
          | Some (Ok graph) => validateGraph project graph files allowStale
          end
      end
  end.

End Validate.
End BuildGraph.
