(* ===== verification/BuildLogic.v ===== *)
(** The walk of the validator over targets and Dockerfile stages: what a
    reference names, which stages and targets a build uses, and a logic that
    shows that the walk ends and that a silent walk has seen all of it. *)
From stdpp Require Import prelude gmap strings list sorting.
From Stdlib Require Import Ascii ZArith Lia.
From S2P Require Import Prelude GoStrings FsPath Fs Treehash Transaction TransactionSpec Progress BakeGraph BakeTheorems BuildGraph.

Module BuildLogic.
Import FsPath Fs Treehash Transaction TransactionSpec Progress BakeGraph BakeTheorems BuildGraph.

(** ** Reading files *)

Section Files.
Context (d : disk) (files : overlay).
Implicit Types (X : goerr -> disk -> Prop) (C : disk -> Prop).

Lemma wp_Resolve_at md p am (Q : path -> disk -> Prop) X C :
  (forall clean, Relative p = Ok clean -> Q (comps clean) d) -> (forall e, X e d) -> C d -> wp md (Resolve p am) Q X C d.
Proof.
  intros HQ HX HC. apply wp_bind. unfold relative_. destruct (Relative p) as [c|]; [apply wp_ret|by apply wp_fail].
  specialize (HQ c eq_refl). apply wp_bind, wp_bind, wp_wrapped, wp_lstat; [|auto|done].
  destruct (d !! []) as [[]|]; try by apply wp_fail. 2: done.
  apply wp_ret, wp_bind. revert HQ. generalize (comps c) at 1 3 as res. generalize (@nil string) as cur.
  intros cur res HQ. revert cur. induction (comps c) as [|x l IH]; intros cur; simpl.
  { by apply wp_ret, wp_ret. }
  apply wp_bind, wp_catch, wp_lstat; [|by intros _; apply wp_fail|done].
  destruct (d !! (cur ++ [x])) as [n|]; simpl.
  - destruct n, l; try (by apply wp_fail); try (by apply wp_ret, wp_ret). apply IH.
  - destruct am; [by apply wp_ret, wp_ret|by apply wp_fail].
Qed.

(** [data] is what the graph sees of a file: the candidate, or the disk. *)
Definition fileAt (relative data : string) : Prop :=
  exists clean mode old, Relative relative = Ok clean /\ d !! comps clean = Some (NFile mode old) /\
    data = default old (files !! Clean relative).

Lemma fileAt_functional relative data data' : fileAt relative data -> fileAt relative data' -> data = data'.
Proof. intros (c & m & o & Hc & Hd & ->) (c' & m' & o' & Hc' & Hd' & ->). congruence. Qed.

Lemma wp_graphFile md relative (Q : string * Z -> disk -> Prop) X C :
  (forall data mode, fileAt relative data -> Q (data, mode) d) -> (forall e, X e d) -> C d ->
  wp md (graphFile relative files) Q X C d.
Proof.
  intros HQ HX HC. apply wp_bind, wp_Resolve_at; [|auto|done]. intros clean Hc.
  apply wp_bind, wp_lstat; [|auto|done]. destruct (d !! comps clean) as [[|mode old| |]|] eqn:Hd; try by apply wp_fail. 2: done.
  assert (fileAt relative (default old (files !! Clean relative))) as Hf by (by exists clean, mode, old).
  destruct (files !! Clean relative) as [data|]; [by apply wp_ret, HQ|].
  apply wp_bind. eapply wp_read_file; [exact Hd| |auto|done]. by apply wp_ret, HQ.
Qed.

(** ** Programs of the validator

    Under any faults the program ends, unless the process dies, in [Q], with
    the tree as it was: neither with an error nor out of fuel. *)
Definition vsafe {A} (p : V A) (s : validator) (Q : A -> validator -> Prop) : Prop :=
  wp AnyFault (p s) (fun r d' => d' = d /\ match r with (Some a, s') => Q a s' | (None, _) => False end)
    (fun _ _ => False) (fun _ => True) d.

Lemma vsafe_ret {A} (a : A) s (Q : A -> validator -> Prop) : Q a s -> vsafe (mret a) s Q.
Proof. intros H. by apply wp_ret. Qed.

Lemma vsafe_bind {A B} (m : V A) (f : A -> V B) s Q :
  vsafe m s (fun a s' => vsafe (f a) s' Q) -> vsafe (m ≫= f) s Q.
Proof.
  intros H. unfold vsafe. apply wp_bind. eapply wp_conseq; [exact H|..]; [|done|done].
  intros [[a|] s'] d' [-> Hr]; [exact Hr|done].
Qed.

Lemma vsafe_mono {A} (p : V A) s (Q Q' : A -> validator -> Prop) :
  vsafe p s Q -> (forall a s', Q a s' -> Q' a s') -> vsafe p s Q'.
Proof.
  intros H HQ. eapply wp_conseq; [exact H|..]; [|done|done]. intros [[a|] s'] d' [-> Hr]; [auto|done].
Qed.

Lemma vsafe_state s (Q : validator -> validator -> Prop) : Q s s -> vsafe state s Q.
Proof. intros H. by apply wp_ret. Qed.

Lemma vsafe_modify f s (Q : unit -> validator -> Prop) : Q tt (f s) -> vsafe (modify f) s Q.
Proof. intros H. by apply wp_ret. Qed.

Lemma vsafe_attempt {A} (m : M A) s (Q : result goerr A -> validator -> Prop) :
  wp AnyFault m (fun a d' => d' = d /\ Q (Ok a) s) (fun e d' => d' = d /\ Q (Err e) s) (fun _ => True) d ->
  vsafe (attempt m) s Q.
Proof.
  intros H. apply wp_bind, wp_catch. eapply wp_conseq; [exact H|..]; [| |done]; intros ? d' [-> ?]; by apply wp_ret.
Qed.

(** A loop whose body keeps [I], moves by [R] and leaves [D] behind, which
    further moves keep. *)
Lemma vsafe_for {A S} (I : validator -> Prop) (R : S * validator -> S * validator -> Prop)
    (D : A -> S * validator -> Prop) (body : A -> S -> V S) `{!Reflexive R, !Transitive R} :
  (forall x c c', D x c -> R c c' -> D x c') ->
  (forall x acc s, I s -> vsafe (body x acc) s (fun acc' s' => I s' /\ R (acc, s) (acc', s') /\ D x (acc', s'))) ->
  forall l acc s, I s -> vsafe (vfor l body acc) s
    (fun acc' s' => I s' /\ R (acc, s) (acc', s') /\ Forall (fun x => D x (acc', s')) l).
Proof.
  intros Hmono Hbody. induction l as [|x l IH]; intros acc s HI; simpl.
  { apply vsafe_ret. split_and!; [done|reflexivity|constructor]. }
  apply vsafe_bind. eapply vsafe_mono; [by apply Hbody|]. intros acc1 s1 (HI1 & HR1 & HD1).
  eapply vsafe_mono; [by apply IH|]. intros acc2 s2 (HI2 & HR2 & HD2).
  split_and!; [done|by etransitivity|]. constructor; eauto.
Qed.
End Files.

(** ** What a build uses *)

Section Uses.
Context {HP : HclParser} {MR : MapRange} {DP : DockerfileParser} {UC : UnicodeCase}.
Context (graph : bakeGraph) (policy : DeliveryPolicy) (d : disk) (files : overlay).

(** The Dockerfile at a path *)
Definition dockerfileAt (relative : string) (file : parsedDockerfile) : Prop :=
  exists data, fileAt d files (graphRelative relative) data /\ parsedOf relative data = Ok file.

Lemma dockerfileAt_functional relative f f' : dockerfileAt relative f -> dockerfileAt relative f' -> f = f'.
Proof. intros (x & Hx & Hf) (y & Hy & Hf'). rewrite (fileAt_functional _ _ _ _ _ Hx Hy) in Hf. congruence. Qed.

(** The references of a stage and what they name: nothing from outside, an
    earlier stage, a named context or something the build must not use *)
Definition commandRefs (c : Command) : list string :=
  match c with
  | CopyCommand from _ => filter (fun r => r <> "") [from]
  | RunCommand mounts _ => filter (fun r => r <> "") mounts
  | _ => []
  end.
Definition stageRefs (st : Stage) : list string := BaseName st :: (Commands st ≫= commandRefs).

Inductive named := Neutral | Prior (index : nat) | Named (source : string) | Bad.

Definition resolveRef (t : bakeTarget) (file : parsedDockerfile) (current : nat) (reference : string) : named :=
  let reference := expandBakeReference reference (args t) in
  if String.eqb reference "scratch" || String.eqb reference (BuildBase policy) then Neutral
  else match ParseInt64 reference with
       | Some i => if (i <? 0)%Z || (Z.of_nat current <=? i)%Z then Bad else Prior (Z.to_nat i)
       | None =>
           match byName file !! ToLower reference with
           | Some i => if (current <=? i)%nat then Bad else Prior i
           | None => match contexts t !! reference with Some source => Named source | None => Bad end
           end
       end.

Inductive usesStage (t : bakeTarget) (file : parsedDockerfile) : nat -> Prop :=
  | uses_start i : startStage t file = Some i -> usesStage t file i
  | uses_prior i st ref j : usesStage t file i -> stages file !! i = Some st -> ref ∈ stageRefs st ->
      resolveRef t file i ref = Prior j -> usesStage t file j.

(** The target [dependency] is an input of the build of [n]. *)
Definition feeds (dependency n : string) : Prop :=
  exists t file i st ref, targets graph !! n = Some t /\ dockerfileAt (dockerfile t) file /\
    usesStage t file i /\ stages file !! i = Some st /\ ref ∈ stageRefs st /\
    resolveRef t file i ref = Named (targetPrefix +:+ dependency).

(** An ADD of something remote is pinned by its checksum. *)
Definition addOk (checksum source : string) : Prop :=
  Contains source "$" = false /\ (isRemote source = true -> pinnedAdd source checksum = true).
Definition addsOk (c : Command) : Prop :=
  match c with AddCommand sources checksum _ => Forall (addOk checksum) sources | _ => True end.

Definition goodStage (v : gset string) (t : bakeTarget) (file : parsedDockerfile) (i : nat) : Prop :=
  exists st, stages file !! i = Some st /\ Forall addsOk (Commands st) /\
  forall ref, ref ∈ stageRefs st -> resolveRef t file i ref <> Bad /\
    forall dependency, resolveRef t file i ref = Named (targetPrefix +:+ dependency) ->
      is_Some (targets graph !! dependency) -> dependency ∈ v.

(** Everything the build of [n] uses is in order, and its inputs are in [v]. *)
Definition targetDone (v : gset string) (n : string) : Prop :=
  exists t file, targets graph !! n = Some t /\ dockerfileAt (dockerfile t) file /\
    is_Some (startStage t file) /\ forall i, usesStage t file i -> goodStage v t file i.

Lemma targetDone_mono v v' n : v ⊆ v' -> targetDone v n -> targetDone v' n.
Proof.
  intros Hv (t & file & Ht & Hf & Hs & H). exists t, file. split_and!; [done..|]. intros i Hi.
  destruct (H i Hi) as (st & Hst & Ha & Hr). exists st. split_and!; [done..|]. intros ref Href.
  destruct (Hr ref Href) as [Hb Hd]. split; [done|]. set_solver.
Qed.

Lemma resolveRef_prior t file i ref j : resolveRef t file i ref = Prior j -> j < i.
Proof.
  unfold resolveRef. cbv zeta. destruct (_ || _); [done|]. destruct (ParseInt64 _) as [z|].
  - destruct (z <? 0)%Z eqn:Hz; [done|]. destruct (Z.of_nat i <=? z)%Z eqn:Hi; [done|]. intros [= <-]. lia.
  - destruct (byName file !! _) as [k|]; [|by destruct (contexts t !! _)].
    destruct (i <=? k)%nat eqn:Hk; [done|]. intros [= <-]. by apply Nat.leb_gt in Hk.
Qed.

(** ** The invariant of the walk *)

Record good (s : validator) : Prop := {
  good_cache relative file : dockerfiles s !! relative = Some file -> dockerfileAt relative file;
  good_visiting : visiting s ⊆ dom (targets graph);
  good_visited : problems s = [] -> forall n, n ∈ visited s -> targetDone (visited s) n /\ Acc feeds n
}.

(** A call leaves the targets being visited alone and forgets nothing. *)
Definition ext (s s' : validator) : Prop :=
  visiting s' = visiting s /\ visited s ⊆ visited s' /\ (problems s' = [] -> problems s = []).

#[export] Instance ext_preorder : PreOrder ext.
Proof.
  split; [by intros s|]. intros s1 s2 s3 (H1 & H2 & H3) (H4 & H5 & H6).
  split_and!; [congruence|set_solver|auto].
Qed.

Lemma report_bad p s : good s -> let s' := {| problems := problems s ++ [p]; dockerfiles := dockerfiles s;
    visited := visited s; visiting := visiting s |} in good s' /\ ext s s' /\ problems s' <> [].
Proof.
  intros [H1 H2 H3]. simpl. split_and!; [|split_and!; simpl; [done..|]|by intros [_ ?]%app_eq_nil].
  - split; simpl; [done..|]. by intros [_ ?]%app_eq_nil.
  - by intros [? _]%app_eq_nil.
Qed.

Lemma vsafe_report p s (Q : unit -> validator -> Prop) : good s ->
  (forall s', good s' -> ext s s' -> problems s' <> [] -> Q tt s') -> vsafe d (report p) s Q.
Proof. intros Hg HQ. destruct (report_bad p s Hg) as (H1 & H2 & H3). by apply vsafe_modify, HQ. Qed.

Lemma validateReference_cases visitStage visitTarget n t file i ref line instruction seen s (Q : gset nat -> validator -> Prop) :
  good s ->
  match resolveRef t file i ref with
  | Neutral => Q seen s
  | Prior j => vsafe d (visitStage j seen) s Q
  | Named source =>
      (forall dependency, source = targetPrefix +:+ dependency -> vsafe d (visitTarget dependency) s (fun _ => Q seen)) /\
      ((forall dependency, source <> targetPrefix +:+ dependency) -> Q seen s)
  | Bad => forall s', good s' -> ext s s' -> problems s' <> [] -> Q seen s'
  end ->
  vsafe d (validateReference policy visitStage visitTarget n t file i ref line instruction seen) s Q.
Proof.
  intros Hg. unfold validateReference, resolveRef. cbv zeta.
  destruct (_ || _); [intros; by apply vsafe_ret|].
  destruct (ParseInt64 _) as [z|].
  { destruct (_ || _); [|done]. intros HQ. apply vsafe_bind, vsafe_report; [done|]. intros. by apply vsafe_ret, HQ. }
  destruct (byName file !! _) as [j|].
  { destruct (_ <=? _)%nat; [|done]. intros HQ. apply vsafe_bind, vsafe_report; [done|]. intros. by apply vsafe_ret, HQ. }
  destruct (contexts t !! _) as [source|]; [|intros HQ; apply vsafe_bind, vsafe_report; [done|]; intros; by apply vsafe_ret, HQ].
  intros [Ht Hn]. destruct (CutPrefix source targetPrefix) as [dep []] eqn:Hc.
  - apply CutPrefix_true in Hc. apply vsafe_bind. eapply vsafe_mono; [by apply Ht|]. intros [] s' HQ. by apply vsafe_ret.
  - apply vsafe_ret, Hn. intros dep' ->. by rewrite (proj2 (CutPrefix_true _ _ _) eq_refl) in Hc.
Qed.

(** ** The stages of one target *)

Section Stages.
Context (n : string) (t : bakeTarget) (file : parsedDockerfile) (vs : gset string) (visitTarget : string -> V unit).
Hypothesis visitTarget_spec : forall dependency s, good s -> visiting s = vs ->
  vsafe d (visitTarget dependency) s (fun _ s' => good s' /\ ext s s' /\
    (problems s' = [] -> is_Some (targets graph !! dependency) -> dependency ∈ visited s')).

Definition keeps (s : validator) : Prop := good s /\ visiting s = vs.

Lemma keeps_ext s s' : keeps s -> good s' -> ext s s' -> keeps s'.
Proof. intros [_ Hv] Hg (Hv' & _). split; [done|congruence]. Qed.

(** The reference was followed: what it names was visited. *)
Definition doneRef (i : nat) (ref : string) (seen : gset nat) (v : gset string) : Prop :=
  match resolveRef t file i ref with
  | Neutral => True
  | Prior j => j ∈ seen
  | Named source => forall dependency, source = targetPrefix +:+ dependency ->
      is_Some (targets graph !! dependency) -> dependency ∈ v
  | Bad => False
  end.

Definition doneCommand (i : nat) (c : Command) (seen : gset nat) (v : gset string) : Prop :=
  Forall (fun ref => doneRef i ref seen v) (commandRefs c) /\ addsOk c.

Definition doneStage (i : nat) (seen : gset nat) (v : gset string) : Prop :=
  exists st, stages file !! i = Some st /\ doneRef i (BaseName st) seen v /\
    Forall (fun c => doneCommand i c seen v) (Commands st).

Lemma doneRef_mono i ref seen seen' v v' : seen ⊆ seen' -> v ⊆ v' -> doneRef i ref seen v -> doneRef i ref seen' v'.
Proof. unfold doneRef. intros Hs Hv. destruct (resolveRef _ _ _ _); [done|set_solver|set_solver|done]. Qed.

Lemma doneCommand_mono i c seen seen' v v' :
  seen ⊆ seen' -> v ⊆ v' -> doneCommand i c seen v -> doneCommand i c seen' v'.
Proof. intros Hs Hv [H1 H2]. split; [|done]. eapply Forall_impl; [exact H1|]. intros ref. by apply doneRef_mono. Qed.

Lemma doneStage_mono i seen seen' v v' : seen ⊆ seen' -> v ⊆ v' -> doneStage i seen v -> doneStage i seen' v'.
Proof.
  intros Hs Hv (st & Hst & Hb & Hc). exists st. split_and!; [done|by eapply doneRef_mono|].
  eapply Forall_impl; [exact Hc|]. intros c. by apply doneCommand_mono.
Qed.

(** A step visits more stages and finishes those it adds. *)
Definition grow (c c' : gset nat * validator) : Prop :=
  ext c.2 c'.2 /\ c.1 ⊆ c'.1 /\
  (problems c'.2 = [] -> forall j, j ∈ c'.1 -> j ∉ c.1 -> doneStage j c'.1 (visited c'.2)).

Lemma grow_same seen s s' : ext s s' -> grow (seen, s) (seen, s').
Proof. intros H. split_and!; [done..|]. by intros. Qed.

#[local] Instance grow_refl : Reflexive grow.
Proof. intros [seen s]. by apply grow_same. Qed.

#[local] Instance grow_trans : Transitive grow.
Proof.
  intros [a s] [b s1] [c s2] (H1 & H2 & H3) (H4 & H5 & H6). simpl in *. split_and!; simpl; [by etransitivity|set_solver|].
  intros Hp j Hj Hnot. destruct (decide (j ∈ b)) as [Hb|Hb]; [|by apply H6].
  eapply doneStage_mono; [exact H5|apply H4|]. apply H3; [by apply H4|done|done].
Qed.

(** What a step establishes, unless something was reported *)
Definition unless (P : gset nat -> gset string -> Prop) (c : gset nat * validator) : Prop :=
  problems c.2 = [] -> P c.1 (visited c.2).

Lemma unless_grow (P : gset nat -> gset string -> Prop) c c' :
  (forall seen seen' v v', seen ⊆ seen' -> v ⊆ v' -> P seen v -> P seen' v') ->
  unless P c -> grow c c' -> unless P c'.
Proof. intros Hmono HPc ((_ & Hv & Hp) & Hs & _) Hnil. eapply Hmono; [exact Hs|exact Hv|]. by apply HPc, Hp. Qed.

Definition steps (P : gset nat -> gset string -> Prop) (p : gset nat -> V (gset nat)) : Prop :=
  forall seen s, keeps s -> vsafe d (p seen) s
    (fun seen' s' => keeps s' /\ grow (seen, s) (seen', s') /\ unless P (seen', s')).

Definition stage_spec (bound : nat) : Prop := forall i, i < bound -> i < length (stages file) ->
  steps (fun seen _ => i ∈ seen) (validateStage policy visitTarget n t file bound i).

Lemma reference_steps bound i ref line instruction :
  stage_spec bound -> i <= bound -> i < length (stages file) ->
  steps (doneRef i ref) (validateReference policy (validateStage policy visitTarget n t file bound) visitTarget n t file i ref line instruction).
Proof.
  intros Hst Hi Hlen seen s Hk. apply validateReference_cases; [apply Hk|]. unfold unless, doneRef.
  destruct (resolveRef t file i ref) as [|j|source|] eqn:Hr.
  - split_and!; [done|reflexivity|done].
  - apply resolveRef_prior in Hr. eapply Hst; [lia|lia|done].
  - split.
    + intros dep ->. eapply vsafe_mono; [apply visitTarget_spec; apply Hk|]. intros [] s' (Hg & He & Hd). cbn [fst snd].
      split_and!; [by eapply keeps_ext|by apply grow_same|]. intros Hp dep' Heq%str_append_inj_l. subst. auto.
    + intros Hne. split_and!; [done|reflexivity|]. intros _ dep ->. by destruct (Hne dep).
  - intros s' Hg He Hp. split_and!; [by eapply keeps_ext|by apply grow_same|done].
Qed.

Definition extends (c c' : unit * validator) : Prop := ext c.2 c'.2.
#[export] Instance extends_preorder : PreOrder extends.
Proof. split; [intros c; apply (reflexivity (R:=ext))|intros c c1 c2; apply (transitivity (R:=ext))]. Qed.

Lemma adds_spec line checksum sources s : keeps s ->
  vsafe d (vfor sources (fun source _ => validateAdd n file line checksum source) tt) s
    (fun _ s' => keeps s' /\ ext s s' /\ (problems s' = [] -> Forall (addOk checksum) sources)).
Proof.
  intros Hk. eapply vsafe_mono; [apply (vsafe_for d keeps extends
    (fun source c => problems c.2 = [] -> addOk checksum source)); try apply _|].
  - intros x c c' HD (_ & _ & Hp) Hnil. auto.
  - intros source [] s1 Hk1. unfold validateAdd, addOk. cbn [fst snd].
    assert (forall p, vsafe d (report p) s1 (fun _ s' => keeps s' /\ ext s1 s' /\
      (problems s' = [] -> Contains source "$" = false /\ (isRemote source = true -> pinnedAdd source checksum = true)))) as Hrep.
    { intros p. apply vsafe_report; [apply Hk1|]. intros s' Hg He Hp. split_and!; [by eapply keeps_ext|done|done]. }
    destruct (Contains source "$"); [apply Hrep|]. destruct (isRemote source); cbn [negb]; [|by apply vsafe_ret].
    destruct (pinnedAdd source checksum); [by apply vsafe_ret|apply Hrep].
  - done.
  - intros [] s' (Hk' & He & HF). split_and!; [done..|]. intros Hp. eapply Forall_impl; [exact HF|]. naive_solver.
Qed.

Lemma command_steps i (reference : string -> Z -> string -> gset nat -> V (gset nat)) c :
  (forall ref line instruction, steps (doneRef i ref) (reference ref line instruction)) ->
  steps (doneCommand i c) (validateCommand reference n file c).
Proof.
  intros Href seen s Hk. unfold doneCommand.
  destruct c as [from location|mounts location|sources checksum location|]; cbn [validateCommand commandRefs addsOk].
  - destruct (String.eqb_spec from "") as [->|Hf].
    + apply vsafe_ret. split_and!; [done|reflexivity|]. intros _. rewrite filter_cons_False by naive_solver. done.
    + eapply vsafe_mono; [by apply Href|]. intros seen' s' (Hk' & Hg & HD). split_and!; [done..|]. intros Hp.
      rewrite filter_cons_True by done. split; [|done]. constructor; [by apply HD|constructor].
  - eapply vsafe_mono; [apply (vsafe_for d keeps grow (fun ref => unless (fun seen v => ref <> "" -> doneRef i ref seen v))); try apply _|].
    + intros ref c c' HD Hg. eapply unless_grow; [|exact HD|exact Hg]. intros. eapply doneRef_mono; eauto.
    + intros ref acc s1 Hk1. destruct (String.eqb_spec ref "") as [->|Hf].
      * apply vsafe_ret. split_and!; [done|reflexivity|]. by intros _.
      * eapply vsafe_mono; [by apply Href|]. intros seen' s' (Hk' & Hg & HD). split_and!; [done..|]. intros Hp _. by apply HD.
    + done.
    + intros seen' s' (Hk' & Hg & HF). split_and!; [done..|]. intros Hp. split; [|done]. apply Forall_forall.
      intros ref [Hne Hin]%list_elem_of_filter. eapply Forall_forall in HF; [|exact Hin]. by apply HF.
  - apply vsafe_bind. eapply vsafe_mono; [by apply adds_spec|]. intros [] s' (Hk' & He & Ha).
    apply vsafe_ret. split_and!; [done|by apply grow_same|]. intros Hp. split; [constructor|by apply Ha].
  - apply vsafe_ret. split_and!; [done|reflexivity|]. by intros _.
Qed.

Lemma validateStage_spec bound : stage_spec bound.
Proof.
  induction bound as [|bound IH]; intros i Hi Hlen seen s Hk; [lia|]. cbn [validateStage].
  destruct (lookup_lt_is_Some_2 _ _ Hlen) as [st Hst]. rewrite Hst. case_bool_decide as Hseen.
  { apply vsafe_ret. split_and!; [done|reflexivity|]. by intros _. }
  pose proof (fun ref line instruction => reference_steps bound i ref line instruction IH ltac:(lia) Hlen) as Href.
  apply vsafe_bind. eapply vsafe_mono; [by apply Href|]. intros seen1 s1 (Hk1 & Hg1 & HD1).
  eapply vsafe_mono; [apply (vsafe_for d keeps grow (fun c => unless (doneCommand i c))); try apply _|].
  - intros c c1 c2 HD Hg. eapply unless_grow; [|exact HD|exact Hg]. intros. by eapply doneCommand_mono.
  - intros c acc s2 Hk2. by apply command_steps.
  - done.
  - intros seen2 s2 (Hk2 & Hg2 & HF). pose proof (grow_trans _ _ _ Hg1 Hg2) as (He & Hs & Hd). cbn [fst snd] in *.
    split_and!; [done| |intros _; set_solver]. split_and!; [done|set_solver|]. cbn [fst snd]. intros Hp j Hj Hnot.
    destruct (decide (j = i)) as [->|Hne]; [|apply Hd; set_solver]. exists st. split_and!; [done| |].
    + apply (unless_grow (doneRef i (BaseName st)) (seen1, s1) (seen2, s2)); [|done..].
      intros a b v v' ? ?. by apply doneRef_mono.
    + eapply Forall_impl; [exact HF|]. intros c Hc. by apply Hc.
Qed.

(** The stages a finished walk has seen are the ones the target uses. *)
Lemma doneStages_good start seen v :
  startStage t file = Some start -> start ∈ seen -> (forall j, j ∈ seen -> doneStage j seen v) ->
  forall i, usesStage t file i -> goodStage v t file i.
Proof.
  intros Hstart Hin Hdone i Hi. assert (i ∈ seen) as Hseen.
  { induction Hi as [i Hi|i st ref j _ IH Hst Href Hr]; [congruence|].
    destruct (Hdone i IH) as (st' & Hst' & Hb & Hc). simplify_eq. apply elem_of_cons in Href as [->|Href].
    - unfold doneRef in Hb. by rewrite Hr in Hb.
    - apply list_elem_of_bind in Href as (c & Hrc & Hcin). eapply Forall_forall in Hc as [HF _]; [|exact Hcin].
      eapply Forall_forall in HF; [|exact Hrc]. unfold doneRef in HF. by rewrite Hr in HF. }
  destruct (Hdone i Hseen) as (st & Hst & Hb & Hc). exists st. split_and!; [done| |].
  { eapply Forall_impl; [exact Hc|]. by intros c [_ ?]. }
  intros ref Href. assert (doneRef i ref seen v) as HD.
  { apply elem_of_cons in Href as [->|Href]; [done|]. apply list_elem_of_bind in Href as (c & Hrc & Hcin).
    eapply Forall_forall in Hc as [HF _]; [|exact Hcin]. by eapply Forall_forall in HF. }
  unfold doneRef in HD. destruct (resolveRef t file i ref); try done; split; try done.
  intros dep [= ->]. by apply HD.
Qed.
End Stages.
End Uses.
End BuildLogic.
