(* ===== verification/BuildTheorems.v ===== *)
(** A build graph that validates without a problem is hermetic: everything a
    delivery image is built from is a pinned input, an earlier stage, another
    target of the graph or the base image of the policy, save for contexts that
    the code takes for local paths, and the targets do not depend on each other
    in a circle.  The validation ends for every document and every tree, with
    its problems or in a panic whose cause is a value of the document. *)
From stdpp Require Import prelude gmap strings list sorting.
From Stdlib Require Import Ascii ZArith Lia.
From S2P Require Import Prelude GoStrings Utf8 FsPath Sha256 Fs Treehash Transaction TransactionSpec Progress BakeGraph BakeTheorems BuildGraph BuildLogic.

Module BuildTheorems.
Import Utf8 FsPath Sha256 Fs Treehash Transaction TransactionSpec Progress BakeGraph BakeTheorems BuildGraph BuildLogic.

Lemma foldl_stageNames `{UnicodeCase} (l : list (nat * Stage)) (m : gmap string nat) n :
  Forall (fun p => p.1 < n) l -> map_Forall (fun _ i => i < n) m ->
  map_Forall (fun _ i => i < n)
    (foldl (fun m '(i, st) => if String.eqb (StageName st) "" then m else <[ToLower (StageName st) := i]> m) m l).
Proof.
  intros Hl. revert m. induction Hl as [|[i st] l Hi _ IH]; intros m Hm; simpl; [done|]. apply IH.
  destruct (String.eqb _ _); [done|]. by apply map_Forall_insert_2.
Qed.

Lemma stageNames_lt `{UnicodeCase} l k i : stageNames l !! k = Some i -> i < length l.
Proof.
  unfold stageNames. intros Hk. eapply (foldl_stageNames (imap pair l) ∅ (length l)); [| |exact Hk].
  - apply Forall_forall. intros [j st] Hin. apply elem_of_lookup_imap in Hin as (j' & st' & [= -> ->] & Hj).
    simpl. by apply lookup_lt_Some in Hj.
  - apply map_Forall_empty.
Qed.

Section Targets.
Context {HP : HclParser} {MR : MapRange} {DP : DockerfileParser} {UC : UnicodeCase}.
Context (graph : bakeGraph) (policy : DeliveryPolicy) (d : disk) (files : overlay).
Abbreviation good := (good graph policy d files).
Abbreviation vsafe := (vsafe d).

Lemma startStage_lt t file i relative :
  dockerfileAt d files relative file -> startStage t file = Some i -> i < length (stages file).
Proof.
  intros (data & _ & Hp). unfold parsedOf in Hp. inv_ok. case_match; inv_ok. unfold startStage. simpl.
  destruct (String.eqb _ _); [intros [= <-]; simpl; lia|]. apply stageNames_lt.
Qed.

Lemma dockerfile_spec relative s : good s ->
  vsafe (dockerfile_ files relative) s (fun r s' => good s' /\ ext s s' /\
    match r with Ok file => dockerfileAt d files relative file | Err _ => True end).
Proof.
  intros Hg. unfold dockerfile_. destruct (String.eqb _ _); [by apply vsafe_ret|].
  apply vsafe_bind, vsafe_state. destruct (dockerfiles s !! relative) as [file|] eqn:Hf.
  { apply vsafe_ret. split_and!; [done..|]. by eapply good_cache. }
  apply vsafe_bind, vsafe_attempt, wp_graphFile; [|intros e; split; [done|]; by apply vsafe_ret|done].
  intros data mode Hdata. split; [done|]. destruct (parsedOf relative data) as [file|] eqn:Hp; [|by apply vsafe_ret].
  assert (dockerfileAt d files relative file) as Hat by (by exists data).
  apply vsafe_bind, vsafe_modify, vsafe_ret. split_and!; [|done|done]. destruct Hg as [H1 H2 H3]. split; simpl; [|done..].
  intros r f. destruct (decide (r = relative)) as [->|Hr].
  - rewrite lookup_insert_eq. by intros [= ->].
  - rewrite lookup_insert_ne by done. apply H1.
Qed.

Lemma undefined_acc n : targets graph !! n = None -> Acc (feeds graph policy d files) n.
Proof. intros Hn. constructor. intros m (t & file & i & st & ref & Ht & _). congruence. Qed.

(** A target whose inputs are all visited can be marked as visited. *)
Lemma visit_done s n t file start seen : good s -> targets graph !! n = Some t ->
  dockerfileAt d files (dockerfile t) file -> startStage t file = Some start -> start ∈ seen ->
  (problems s = [] -> forall j, j ∈ seen -> doneStage graph policy t file j seen (visited s)) ->
  good (with_visited ({[n]} ∪ visited s) s).
Proof.
  intros [H1 H2 H3] Ht Hf Hstart Hin Hdone. split; simpl; [done..|]. intros Hp.
  pose proof (doneStages_good graph policy t file start seen (visited s) Hstart Hin (Hdone Hp)) as Huses.
  assert (targetDone graph policy d files (visited s) n) as Hn by (exists t, file; eauto).
  intros m [->%elem_of_singleton|Hm]%elem_of_union.
  - split; [eapply targetDone_mono; [|exact Hn]; set_solver|]. constructor.
    intros dep (t' & file' & i & st & ref & Ht' & Hf' & Hi & Hst & Href & Hr). simplify_eq.
    rewrite (dockerfileAt_functional _ _ _ _ _ Hf' Hf) in *. destruct (Huses i Hi) as (st' & Hst' & _ & Hrefs). simplify_eq.
    destruct (targets graph !! dep) as [td|] eqn:Hdep; [|by apply undefined_acc].
    apply H3; [done|]. apply (Hrefs ref Href); [done|]. by rewrite Hdep.
  - destruct (H3 Hp m Hm) as [Hd Ha]. split; [|done]. eapply targetDone_mono; [|exact Hd]. set_solver.
Qed.

Lemma good_visiting_change s v : good s -> v ⊆ dom (targets graph) -> good (with_visiting v s).
Proof. intros [H1 H2 H3] Hv. by split. Qed.

Lemma validateTarget_spec fuel n s : good s -> size (targets graph) <= fuel + size (visiting s) ->
  vsafe (validateTarget graph policy files fuel n) s (fun _ s' => good s' /\ ext s s' /\
    (problems s' = [] -> is_Some (targets graph !! n) -> n ∈ visited s')).
Proof.
  revert n s. induction fuel as [|fuel IH]; intros n s Hg Hf; cbn [validateTarget];
    (apply vsafe_bind, vsafe_state; case_bool_decide as Hv; [by apply vsafe_ret|];
     case_bool_decide as Hvis; [apply (vsafe_report graph policy d files); [done|naive_solver]|];
     destruct (targets graph !! n) as [t|] eqn:Ht; [|apply vsafe_ret; split_and!; [done..|by intros _ [? ?]]];
     pose proof (good_visiting _ _ _ _ _ Hg) as Hsub; apply elem_of_dom_2 in Ht as Hdom).
  { assert ({[n]} ∪ visiting s ⊆ dom (targets graph)) as Hsize%subseteq_size by set_solver.
    rewrite size_dom, size_union, size_singleton in Hsize by set_solver. simpl in *. lia. }
  set (vs := {[n]} ∪ visiting s).
  assert (good (with_visiting vs s)) as Hg1 by (apply good_visiting_change; [done|set_solver]).
  assert (size (targets graph) <= fuel + size vs) as Hf1 by (unfold vs; rewrite size_union, size_singleton by set_solver; lia).
  apply vsafe_bind, vsafe_modify. fold vs.
  (* the middle part leaves the visiting set as it found it *)
  assert (forall s', good s' -> ext (with_visiting vs s) s' -> (problems s' = [] -> n ∈ visited s') ->
    good (with_visiting (visiting s' ∖ {[n]}) s') /\ ext s (with_visiting (visiting s' ∖ {[n]}) s') /\
    (problems s' = [] -> is_Some (Some t) -> n ∈ visited s')) as Hend.
  { intros s' Hg' (Hvis' & Hext & Hpr) Hn. split_and!; [|split_and!|]; simpl in *; [|rewrite Hvis'; set_solver|done..|auto].
    apply good_visiting_change; [done|]. rewrite Hvis'. set_solver. }
  apply vsafe_bind. eapply vsafe_mono; [by apply dockerfile_spec|]. intros [file|e] s2 (Hg2 & He2 & Hfile); apply vsafe_bind.
  2: { apply (vsafe_report graph policy d files); [done|]. intros s3 Hg3 He3 Hp. apply vsafe_modify, (Hend s3); [done|by etransitivity|done]. }
  destruct (startStage t file) as [start|] eqn:Hstart.
  2: { apply (vsafe_report graph policy d files); [done|]. intros s3 Hg3 He3 Hp. apply vsafe_modify, (Hend s3); [done|by etransitivity|done]. }
  apply vsafe_bind. pose proof (startStage_lt _ _ _ _ Hfile Hstart) as Hlt.
  eapply vsafe_mono; [apply (validateStage_spec graph policy d files n t file vs (validateTarget graph policy files fuel))|].
  - intros dep s3 Hg3 Hvs3. apply IH; [done|]. rewrite Hvs3. lia.
  - exact Hlt.
  - exact Hlt.
  - split; [done|]. apply He2.
  - intros seen s3 ((Hg3 & _) & (He3 & _ & Hdone) & Hin). cbn [fst snd] in *.
    apply vsafe_modify, vsafe_modify. unfold unless in Hin. cbn [fst snd] in *.
    assert (good (with_visited ({[n]} ∪ visited s3) s3)) as Hg4.
    { destruct (decide (problems s3 = [])) as [Hp|Hp].
      - apply (visit_done s3 n t file start seen); auto. intros _ j Hj. apply Hdone; [done|done|set_solver].
      - destruct Hg3 as [H1 H2 H3]. by split. }
    apply (Hend (with_visited ({[n]} ∪ visited s3) s3)); [done| |intros _; simpl; set_solver].
    transitivity s2; [done|]. destruct He3 as (Ha & Hb & Hc). split_and!; simpl; [done|set_solver|done].
Qed.

Lemma newValidator_good : good newValidator.
Proof. split; simpl; [done|set_solver|set_solver]. Qed.

Lemma walk_spec images :
  vsafe (validateDeliveryTargets graph policy files images) newValidator (fun _ s => good s /\
    (problems s = [] -> forall image, image ∈ images -> BakeTarget (Default image) <> "" ->
       is_Some (targets graph !! BakeTarget (Default image)) -> BakeTarget (Default image) ∈ visited s)).
Proof.
  eapply vsafe_mono; [apply (vsafe_for d (fun s => good s /\ visiting s = ∅) extends (fun image c => problems c.2 = [] ->
    BakeTarget (Default image) <> "" -> is_Some (targets graph !! BakeTarget (Default image)) ->
    BakeTarget (Default image) ∈ visited c.2)); try apply _|].
  - intros image c c' HD (_ & Hv & Hp) Hnil Hne Hs. apply Hv. auto.
  - intros image [] s [Hg Hvis]. cbn [fst snd]. destruct (String.eqb_spec (BakeTarget (Default image)) "") as [Heq|Hne].
    { apply vsafe_ret. split_and!; [done|done|reflexivity|done]. }
    eapply vsafe_mono; [apply validateTarget_spec; [done|lia]|]. intros [] s' (Hg' & He & Hd).
    split_and!; [done| |exact He|auto]. destruct He as [-> _]. done.
  - split; [apply newValidator_good|done].
  - intros [] s ((Hg & _) & _ & HF). split; [done|]. intros Hp image Hin. eapply Forall_forall in HF; [|exact Hin]. auto.
Qed.
End Targets.

(** ** Pinned sources *)

Section Pinned.
Context {HP : HclParser} {MR : MapRange} {DP : DockerfileParser} {UC : UnicodeCase}.
Context (graph : bakeGraph) (policy : DeliveryPolicy).

(** What follows [docker-image://] and ends with a digest *)
Inductive pinnedMaterial : string -> Prop :=
  | pinned_digest repository digest : validHexSHA256 digest = true ->
      pinnedMaterial (repository +:+ "@sha256:" +:+ digest)
  | pinned_https url digest : validHexSHA256 digest = true -> pinnedMaterial (url +:+ "#sha256:" +:+ digest).

(** What the code takes for a path of the repository: nothing pins an image of
    such a name. *)
Definition readsAsLocal (material : string) : Prop :=
  HasPrefix material localPrefix = true \/ isFirstParty material = true.

Inductive pinnedSource (n key : string) : string -> Prop :=
  | source_target dependency : is_Some (targets graph !! dependency) -> pinnedSource n key (targetPrefix +:+ dependency)
  | source_image material : pinnedMaterial material ->
      Forall (fun prefix => HasPrefix material prefix = false) (ForbiddenArtifactPrefixes policy) ->
      pinnedSource n key ("docker-image://" +:+ material)
  | source_git url : HasPrefix url "https://" = true -> String.length (queryValue url "checksum") = 40 ->
      lowerHex (queryValue url "checksum") = true -> pinnedSource n key url
  | source_repository : key = "atum_source" -> isSourceTarget n = true -> pinnedSource n key "../..".

(** The image contexts that pass without a digest *)
Definition unpinnedImage (source : string) : Prop :=
  exists material, source = "docker-image://" +:+ material /\ readsAsLocal material.

Lemma omap_nil {A B} (f : A -> option B) l : omap f l = [] -> Forall (fun x => f x = None) l.
Proof. induction l as [|x l IH]; csimpl; [by constructor|]. destruct (f x) eqn:Hf; [done|]. constructor; auto. Qed.

Lemma material_pinned label material : validatePinnedBuildMaterial policy label material = [] ->
  (pinnedMaterial material \/ readsAsLocal material) /\ Forall (fun prefix => HasPrefix material prefix = false) (ForbiddenArtifactPrefixes policy).
Proof.
  unfold validatePinnedBuildMaterial. intros [Hforbid%omap_nil Hm]%app_eq_nil. split.
  2: { eapply Forall_impl; [exact Hforbid|]. intros prefix. simpl. by destruct (HasPrefix material prefix). }
  clear Hforbid. destruct (HasPrefix material localPrefix) eqn:Hl.
  { right. by left. }
  destruct (isFirstParty material) eqn:Hf; [right; by right|]. left.
  destruct (HasPrefix material "https://").
  { destruct (LastIndex material "#sha256:") as [i|] eqn:Hi; [|done]. apply LastIndex_sound in Hi.
    destruct (validHexSHA256 _) eqn:Hd; [|done]. rewrite Hi. by apply pinned_https. }
  destruct (Contains material "/"); [|done]. destruct (SplitBy material "@sha256:") as [|a [|b [|]]] eqn:Hs; try done.
  destruct (validHexSHA256 b) eqn:Hd; [|done]. rewrite (SplitBy_two _ _ _ _ Hs). by apply pinned_digest.
Qed.

Lemma context_pinned n key source : validateContext graph policy n key source = [] ->
  pinnedSource n key source \/ unpinnedImage source.
Proof.
  unfold validateContext. destruct (_ || _); [done|]. destruct (HasPrefix source targetPrefix) eqn:Ht.
  { apply HasPrefix_true in Ht as [dep ->]. rewrite TrimPrefix_append. case_bool_decide; [|done]. intros _. left. by constructor. }
  destruct (HasPrefix source "docker-image://") eqn:Hi.
  { apply HasPrefix_true in Hi as [m ->]. rewrite TrimPrefix_append. intros [[H1|H1] H2]%material_pinned; [left; by constructor|right; by exists m]. }
  destruct (HasPrefix source "https://" && Contains source ".git?") eqn:Hg.
  { apply andb_prop in Hg as [Hh _]. destruct (_ && _) eqn:Hc; [|done]. apply andb_prop in Hc as [Hlen Hhex].
    intros _. left. apply source_git; [done|by apply Nat.eqb_eq|done]. }
  destruct (String.eqb source "../.." && String.eqb key "atum_source" && isSourceTarget n) eqn:Hr; [|done].
  intros _. apply andb_prop in Hr as [Hr Hs]. apply andb_prop in Hr as [Heq Hk].
  apply String.eqb_eq in Heq as ->. apply String.eqb_eq in Hk. left. by apply source_repository.
Qed.

Lemma bind_nil {A B} (f : A -> list B) l : l ≫= f = [] <-> Forall (fun x => f x = []) l.
Proof.
  induction l as [|x l IH]; csimpl; [done|]. rewrite Forall_cons, <- IH. split; [apply app_eq_nil|]. by intros [-> ->].
Qed.

Lemma validateOne_contexts n t : validateOne graph policy n = [] -> targets graph !! n = Some t ->
  context t = "." /\ forall key source, contexts t !! key = Some source -> validateContext graph policy n key source = [].
Proof.
  unfold validateOne. intros Hv Ht. rewrite Ht in Hv. apply app_eq_nil in Hv as [Hc [_ Hs]%app_eq_nil]. split.
  - destruct (String.eqb_spec (context t) "."); [done|discriminate].
  - intros key source Hk. apply bind_nil in Hs. apply (proj1 (Forall_forall _ _) Hs (key, source)).
    rewrite range_perm. by apply elem_of_map_to_list.
Qed.

Lemma context_target n key dependency : validateContext graph policy n key (targetPrefix +:+ dependency) = [] ->
  is_Some (targets graph !! dependency).
Proof.
  unfold validateContext. destruct (_ || _); [done|].
  rewrite (proj2 (HasPrefix_true _ _)) by eauto. rewrite TrimPrefix_append. by case_bool_decide.
Qed.

Lemma validate_spec roots l : validate graph policy roots = Some l ->
  l = [] -> forall n, reaches graph roots n -> validateOne graph policy n = [].
Proof.
  unfold validate. destruct (reachable_spec graph roots) as (m & Hm & Hin). rewrite Hm. simpl. intros [= <-] Hnil n Hn.
  apply bind_nil in Hnil. apply (proj1 (Forall_forall _ _) Hnil), list_elem_of_fmap.
  destruct (proj2 (Hin n) Hn) as [[] Hk]. exists (n, tt). split; [done|]. rewrite range_perm. by apply elem_of_map_to_list.
Qed.

Lemma validate_total roots : is_Some (validate graph policy roots).
Proof. unfold validate. destruct (reachable_spec graph roots) as (m & -> & _). simpl. eauto. Qed.
End Pinned.

(** ** The whole validation *)

Section Whole.
Context {HP : HclParser} {MR : MapRange} {DP : DockerfileParser} {UC : UnicodeCase}.

(** A program that was caught ends in a value, whatever it is. *)
Lemma wp_any {A} (m : M A) d : wp AnyFault m (fun _ _ => True) (fun _ _ => True) (fun _ => True) d.
Proof.
  intros pl _. assert (forall l, Forall (allows AnyFault) l) as Hall by (intros l; apply Forall_forall; by intros []).
  destruct (m (World d pl)) as [[a|e|] w]; by split.
Qed.

(** The targets the images of a project are built from *)
Definition needs (graph : bakeGraph) (policy : DeliveryPolicy) (d : disk) (files : overlay) (images : list Image) (n : string) : Prop :=
  exists image, image ∈ images /\ BakeTarget (Default image) <> "" /\
    rtc (fun n dependency => feeds graph policy d files dependency n) (BakeTarget (Default image)) n.

(** What a target is built from, stage by stage: nothing, the base image as the
    policy names it, an earlier stage, and contexts that are pinned or have the
    name of a local path; remote files with their checksum. *)
Definition hermeticStage (graph : bakeGraph) (policy : DeliveryPolicy) (n : string) (t : bakeTarget)
    (file : parsedDockerfile) (i : nat) : Prop :=
  exists st, stages file !! i = Some st /\ Forall addsOk (Commands st) /\
  forall ref, ref ∈ stageRefs st ->
    match resolveRef policy t file i ref with
    | Neutral => expandBakeReference ref (args t) ∈ ["scratch"; BuildBase policy]
    | Prior j => j < i
    | Named source => pinnedSource graph policy n (expandBakeReference ref (args t)) source \/ unpinnedImage source
    | Bad => False
    end.

Definition hermetic (graph : bakeGraph) (policy : DeliveryPolicy) (d : disk) (files : overlay) (n : string) : Prop :=
  exists t file, targets graph !! n = Some t /\ context t = "." /\ dockerfileAt d files (dockerfile t) file /\
    is_Some (startStage t file) /\ Acc (feeds graph policy d files) n /\
    forall i, usesStage policy t file i -> hermeticStage graph policy n t file i.

(** An image is published from its own target, and no other target is. *)
Definition published (graph : bakeGraph) (images : list Image) (allowStale : bool) : Prop :=
  (forall image, image ∈ images -> BakeTarget (Default image) <> "" ->
     exists t, targets graph !! BakeTarget (Default image) = Some t /\ tags t = [Target image]) /\
  (allowStale = false -> forall n t, targets graph !! n = Some t -> tags t <> [] ->
     exists image, image ∈ images /\ BakeTarget (Default image) = n).

Lemma compactLoop_elem l seen x : x ∈ compactLoop l seen <-> x ∈ l /\ x ∉ seen.
Proof.
  revert seen. induction l as [|y l IH]; intros seen; simpl; [set_solver|].
  case_bool_decide; rewrite ?elem_of_cons, IH; [set_solver|]. destruct (decide (x = y)); set_solver.
Qed.

Lemma elem_of_targetNames images n :
  n ∈ deliveryTargetNames images <-> n <> "" /\ exists image, image ∈ images /\ BakeTarget (Default image) = n.
Proof.
  unfold deliveryTargetNames, compactStrings. rewrite compactLoop_elem, list_elem_of_filter, list_elem_of_fmap. set_solver.
Qed.

Lemma imageTargets_published graph image : imageTargetProblems graph image = [] -> BakeTarget (Default image) <> "" ->
  exists t, targets graph !! BakeTarget (Default image) = Some t /\ tags t = [Target image].
Proof.
  unfold imageTargetProblems. intros Hp Hne. rewrite (proj2 (String.eqb_neq _ _) Hne) in Hp.
  destruct (targets graph !! _) as [t|]; [|done]. exists t. split; [done|]. by case_bool_decide.
Qed.

Lemma stale_published graph images n t : staleProblems graph images = [] ->
  targets graph !! n = Some t -> tags t <> [] -> exists image, image ∈ images /\ BakeTarget (Default image) = n.
Proof.
  unfold staleProblems. intros Hs%omap_nil Ht Htags. rewrite Forall_forall in Hs.
  specialize (Hs n). rewrite SortStrings_perm in Hs. simpl in Hs. rewrite Ht in Hs.
  destruct (tags t) as [|tag l]; [done|]. destruct (decide (n ∈ deliveryTargetNames images)) as [Hin|Hout].
  - by apply elem_of_targetNames in Hin as [_ ?].
  - rewrite bool_decide_eq_false_2 in Hs by done. discriminate Hs.
    apply list_elem_of_fmap. exists (n, t). split; [done|]. by apply elem_of_map_to_list.
Qed.

Lemma resolveRef_named policy t file i ref source : resolveRef policy t file i ref = Named source ->
  contexts t !! expandBakeReference ref (args t) = Some source.
Proof. unfold resolveRef. cbv zeta. intros Hr. repeat case_match; congruence. Qed.

Lemma resolveRef_neutral policy t file i ref : resolveRef policy t file i ref = Neutral ->
  expandBakeReference ref (args t) ∈ ["scratch"; BuildBase policy].
Proof.
  unfold resolveRef. cbv zeta. rewrite !elem_of_cons. destruct (String.eqb_spec (expandBakeReference ref (args t)) "scratch"); [auto|].
  destruct (String.eqb_spec (expandBakeReference ref (args t)) (BuildBase policy)); [auto|]. cbn [orb].
  intros Hr. repeat case_match; congruence.
Qed.

Lemma feeds_takes graph policy d files n dependency : feeds graph policy d files dependency n -> takes graph n dependency.
Proof.
  intros (t & file & i & st & ref & Ht & _ & _ & _ & _ & Hr).
  exists t, (expandBakeReference ref (args t)). split; [done|]. by eapply resolveRef_named.
Qed.

Lemma needs_hermetic graph policy d files images s :
  good graph policy d files s -> problems s = [] ->
  (forall image, image ∈ images -> BakeTarget (Default image) <> "" ->
     is_Some (targets graph !! BakeTarget (Default image)) /\ BakeTarget (Default image) ∈ visited s) ->
  (forall n, reaches graph (deliveryTargetNames images) n -> validateOne graph policy n = []) ->
  forall n, needs graph policy d files images n -> hermetic graph policy d files n.
Proof.
  intros Hg Hp Hroots Hone n (image & Himg & Hne & Hpath). destruct (Hroots image Himg Hne) as [Hdef Hvis].
  assert (reaches graph (deliveryTargetNames images) (BakeTarget (Default image))) as Hreach.
  { exists (BakeTarget (Default image)). split; [|apply rtc_refl]. apply elem_of_targetNames. eauto. }
  assert (reaches graph (deliveryTargetNames images) n /\ n ∈ visited s) as [Hn Hv].
  { clear Hdef Hne. revert Hvis Hreach. induction Hpath as [|a b c Hab _ IH]; intros Hva Hra; [done|].
    apply feeds_takes in Hab as Htakes. assert (reaches graph (deliveryTargetNames images) b) as Hrb.
    { destruct Hra as (root & Hr & Hpr). exists root. split; [done|]. by eapply rtc_r. }
    apply IH; [|done]. destruct (good_visited _ _ _ _ _ Hg Hp a Hva) as [(t & file & Ht & Hf & _ & Hst) _].
    destruct Hab as (t' & file' & i & st & ref & Ht' & Hf' & Hi & Hsti & Href & Hr).
    rewrite Ht in Ht'. injection Ht' as <-.
    rewrite (dockerfileAt_functional _ _ _ _ _ Hf' Hf) in *. destruct (Hst i Hi) as (st' & Hst' & _ & Hrefs).
    rewrite Hsti in Hst'. injection Hst' as <-.
    apply (Hrefs ref Href); [done|]. destruct Htakes as (t2 & key & Ht2 & Hkey). rewrite Ht in Ht2. injection Ht2 as <-.
    destruct (validateOne_contexts graph policy a t (Hone a Hra) Ht) as [_ Hpin]. by eapply context_target, Hpin. }
  destruct (good_visited _ _ _ _ _ Hg Hp n Hv) as [(t & file & Ht & Hf & Hstart & Hst) Hacc].
  destruct (validateOne_contexts graph policy n t (Hone n Hn) Ht) as [Hctx Hpin].
  exists t, file. split_and!; [done..|]. intros i Hi. destruct (Hst i Hi) as (st & Hsti & Hadds & Hrefs).
  exists st. split_and!; [done..|]. intros ref Href. destruct (Hrefs ref Href) as [Hbad _].
  destruct (resolveRef policy t file i ref) as [|j|source|] eqn:Hr; [by eapply resolveRef_neutral|by eapply resolveRef_prior| |done].
  apply context_pinned, Hpin. by eapply resolveRef_named.
Qed.

(** The Bake file the validation reads: the candidate, or the file on disk *)
Definition documentAt (files : overlay) (d : disk) (data : string) : Prop :=
  files !! buildGraphPath = Some data \/
  files !! buildGraphPath = None /\ exists mode, d !! comps buildGraphPath = Some (NFile mode data).

(** A value of the document that passes the checks of the code is one an
    accessor of cty panics on. *)
Definition documentRefused (files : overlay) (d : disk) : Prop :=
  exists data blocks, documentAt files d data /\ ParseHCL data = Ok blocks /\ refused blocks.

(** What a silent validation of a tree [d] has established *)
Definition validated (argsFirst : bool) (project : Project) (files : overlay) (allowStale : bool) (d : disk) : Prop :=
  exists data graph, documentAt files d data /\
    parseBakeGraph argsFirst data = Some (Ok graph) /\
    variableString graph "ATUM_DEBIAN_IMAGE" = Some (BuildBase (Policy project)) /\
    published graph (Images project) allowStale /\
    forall n, needs graph (Policy project) d files (Images project) n -> hermetic graph (Policy project) d files n.

Definition ends (P X : Prop) (r : option (ended (list problem))) : Prop :=
  match r with None => False | Some (Done l) => l = [] -> P | Some Panicked => X end.

Lemma silent_validated argsFirst project graph files allowStale data d s targetProblems base :
  documentAt files d data ->
  parseBakeGraph argsFirst data = Some (Ok graph) ->
  validate graph (Policy project) (deliveryTargetNames (Images project)) = Some targetProblems ->
  good graph (Policy project) d files s ->
  (problems s = [] -> forall image, image ∈ Images project -> BakeTarget (Default image) <> "" ->
     is_Some (targets graph !! BakeTarget (Default image)) -> BakeTarget (Default image) ∈ visited s) ->
  variableString graph "ATUM_DEBIAN_IMAGE" = Some base ->
  (if String.eqb base (BuildBase (Policy project)) then [] else [BaseMismatch base]) = [] ->
  targetProblems = [] -> Images project ≫= imageTargetProblems graph = [] ->
  (if allowStale : bool then [] else staleProblems graph (Images project)) = [] -> problems s = [] ->
  validated argsFirst project files allowStale d.
Proof.
  intros Hdata Hparse Hv Hg Hvis Hvar Hbase Ht Himages Hstale Hp. apply bind_nil in Himages. rewrite Forall_forall in Himages.
  exists data, graph. split_and!; [done|done| | |].
  - rewrite Hvar. by destruct (String.eqb_spec base (BuildBase (Policy project))) as [->|].
  - split.
    + intros image Hin. apply imageTargets_published. by apply Himages.
    + intros ->. intros n t. by apply stale_published.
  - apply (needs_hermetic graph (Policy project) d files (Images project) s); [done|done| |by eapply validate_spec].
    intros image Hin Hne. destruct (imageTargets_published graph image (Himages _ Hin) Hne) as (t & Htt & _).
    split; [eauto|]. apply Hvis; eauto.
Qed.

Lemma validateGraph_spec argsFirst project graph files allowStale data d :
  documentAt files d data ->
  parseBakeGraph argsFirst data = Some (Ok graph) ->
  wp AnyFault (validateGraph project graph files allowStale)
    (fun r _ => ends (validated argsFirst project files allowStale d) (documentRefused files d) r) (fun _ _ => False) (fun _ => True) d.
Proof.
  intros Hdata Hparse. unfold validateGraph. cbv zeta. destruct (variableString graph "ATUM_DEBIAN_IMAGE") as [base|] eqn:Hvar.
  2: { apply wp_ret. destruct (variableString_panic argsFirst data graph _ Hparse Hvar) as (blocks & Hb & Hr). by exists data, blocks. }
  destruct (validate_total graph (Policy project) (deliveryTargetNames (Images project))) as [targetProblems Hv]. rewrite Hv.
  apply wp_bind. eapply wp_conseq; [apply walk_spec|..]; [|done|done]. intros [[[]|] s] d' [-> Hs]; [|done]. destruct Hs as [Hg Hvis].
  apply wp_bind. unfold identityProblems. apply wp_bind, wp_catch. eapply wp_conseq; [apply wp_any|..]; [| |done].
  all: intros x d1 _; apply wp_ret, wp_ret; simpl; intros Hnil; repeat (apply app_eq_nil in Hnil as [? Hnil]).
  all: eapply (silent_validated argsFirst project graph files allowStale data d s targetProblems base); eauto.
Qed.

Lemma validateBuildGraph_spec argsFirst project files allowStale d :
  wp AnyFault (validateBuildGraph argsFirst project files allowStale)
    (fun r _ => ends (validated argsFirst project files allowStale d) (documentRefused files d) r) (fun _ _ => False) (fun _ => True) d.
Proof.
  unfold validateBuildGraph. apply wp_bind, wp_catch, wp_Resolve_at; [|by intros e; apply wp_ret|done].
  intros clean Hclean. assert (clean = buildGraphPath) as -> by (by injection Hclean as <-).
  assert (forall data, documentAt files d data ->
    wp AnyFault (match parseBakeGraph argsFirst data with
      | None => mret None
      | Some (Err EvaluationPanic) => mret (Some Panicked)
      | Some (Err e) => mret (Some (Done [GraphInvalid e]))
      | Some (Ok graph) => validateGraph project graph files allowStale
      end) (fun r _ => ends (validated argsFirst project files allowStale d) (documentRefused files d) r) (fun _ _ => False) (fun _ => True) d) as Hrest.
  { intros data Hdata. destruct (parseBakeGraph_total argsFirst data) as [[graph|e] Hp]; rewrite Hp; [by eapply validateGraph_spec|].
    destruct e; apply wp_ret; try done. destruct (parseBakeGraph_panic argsFirst data Hp) as (blocks & Hb & Hr). by exists data, blocks. }
  apply wp_bind. destruct (files !! buildGraphPath) as [data|] eqn:Hf; [apply wp_ret, Hrest; by left|].
  apply wp_catch, wp_observe; [|by intros _; apply wp_ret|done].
  destruct (d !! comps buildGraphPath) as [[|mode data| |]|] eqn:Hd; try by apply wp_ret. apply Hrest. right. eauto.
Qed.
End Whole.

(** C23. A build graph that validates without a problem is hermetic.  Of every
    target that a delivery image is built from, directly or through other
    targets: its Dockerfile was read and its stage exists, every reference of
    every stage it uses is nothing ([scratch]), the base image of the policy, an
    earlier stage or a named context; the source of the context is another target,
    an image with its digest, an archive or a commit with its checksum, or the
    repository itself; every remote file is added with its checksum, and the
    targets do not feed each other in a circle.  Images are published from their
    own targets only.  What the code leaves unpinned is said: the base image is
    the one the policy names, with a digest or without, and an image whose name is
    that of a local material ([docker-image://operator],
    [docker-image://platform/build/...]) passes without a digest. *)
Theorem build_hermetic {HP : HclParser} {MR : MapRange} {DP : DockerfileParser} {UC : UnicodeCase}
    argsFirst project files allowStale w w' :
  validateBuildGraph argsFirst project files allowStale w = (Ret (Some (Done [])), w') ->
  validated argsFirst project files allowStale (wdisk w).
Proof.
  intros Hrun. destruct w as [d pl]. pose proof (validateBuildGraph_spec argsFirst project files allowStale d pl) as H.
  rewrite Hrun in H. apply H; [|done]. apply Forall_forall. by intros [].
Qed.

(** C19. The validation ends for every document, tree and schedule of I/O
    errors: it never runs out of the bound on inheritance, reachability or the
    walk over targets and stages, and never fails without saying why.  It ends
    with a list of problems, or with a panic, and a panic has one cause: a value
    of the document that passes the checks of the code, but on which the accessor
    of cty it calls then panics. *)
Theorem build_validation_ends {HP : HclParser} {MR : MapRange} {DP : DockerfileParser} {UC : UnicodeCase}
    argsFirst project files allowStale w :
  match validateBuildGraph argsFirst project files allowStale w with
  | (Ret (Some (Done _)), _) | (Crashed, _) => True
  | (Ret (Some Panicked), _) => documentRefused files (wdisk w)
  | _ => False
  end.
Proof.
  destruct w as [d pl]. pose proof (validateBuildGraph_spec argsFirst project files allowStale d pl) as H.
  assert (Forall (allows AnyFault) pl) as Hpl by (apply Forall_forall; by intros []).
  destruct (validateBuildGraph _ _ _ _ _) as [[[[l|]|]|e|] w']; try done; by destruct (H Hpl) as [? _].
Qed.

(** ** Tags *)

Definition nl : ascii := "010".
Definition tagLine (line : string) : bool := HasPrefix line tagPrefix.
Definition canonical (line : string) : bool := negb (tagLine line) || HasSuffix line tagSuffix.
Definition untagged (line : string) : string := if tagLine line then tagReplacement else line.

(** The normal form, line by line *)
Definition normalForm (data : string) : result goerr (string * nat) :=
  let lines := Split data nl in
  if forallb canonical lines then Ok (Join (untagged <$> lines) newline, length (filter (fun l => tagLine l = true) lines))
  else Err (Msg "delivery build graph has a non-canonical target tag").

Definition normalFrom (lines : list string) (acc : string) (n : nat) : result goerr (string * nat) :=
  if forallb canonical lines
  then Ok (acc +:+ Join (untagged <$> lines) newline, n + length (filter (fun l => tagLine l = true) lines))
  else Err (Msg "delivery build graph has a non-canonical target tag").

Lemma no_newline_suffix s : IndexByte s nl = None -> HasSuffix s newline = false.
Proof.
  intros Hs. destruct (HasSuffix s newline) eqn:Hh; [|done]. apply HasSuffix_true in Hh as [r ->].
  exfalso. revert Hs. induction r as [|c r IH]; [done|]. rewrite str_append_cons. cbn [IndexByte].
  destruct (Ascii.eqb c nl); [done|]. destruct (IndexByte (r +:+ newline) nl); [done|auto].
Qed.

Lemma normalFrom_cons line lines acc n : lines <> [] -> canonical line = true ->
  normalFrom (line :: lines) acc n =
  normalFrom lines (acc +:+ untagged line +:+ newline) (if tagLine line then S n else n).
Proof.
  intros Hne Hc. unfold normalFrom. cbn [forallb]. rewrite Hc. cbn [andb]. destruct (forallb canonical lines); [|done].
  rewrite fmap_cons, Join_cons by (by destruct lines). rewrite !str_append_assoc. do 2 f_equal.
  rewrite filter_cons. destruct (tagLine line); case_decide; try done; simpl; lia.
Qed.

(** One round of the loop, on a line that ends with a newline or at the end *)
Lemma normalizeLoop_round fuel data acc n body rest (last : bool) :
  data <> "" ->
  match IndexByte data nl with
  | Some i => (str_take (S i) data, str_drop (S i) data)
  | None => (data, "")
  end = (body +:+ (if last then "" else newline), rest) ->
  TrimSuffix (body +:+ (if last then "" else newline)) newline = body ->
  normalizeLoop (S fuel) data acc n =
  if canonical body
  then normalizeLoop fuel rest (acc +:+ untagged body +:+ (if last then "" else newline)) (if tagLine body then S n else n)
  else Err (Msg "delivery build graph has a non-canonical target tag").
Proof.
  intros Hne Hline Hbody. destruct data as [|c data]; [done|]. cbn [normalizeLoop]. unfold nl in Hline. rewrite Hline, Hbody.
  unfold canonical, untagged, tagLine. destruct (HasPrefix body tagPrefix); cbn [negb orb]; [|done].
  destruct (HasSuffix body tagSuffix); cbn [negb]; [|done]. do 3 f_equal. rewrite str_length_append.
  destruct last; simpl; [by rewrite Nat.add_0_r, Nat.eqb_refl|].
  by rewrite (proj2 (Nat.eqb_neq _ _)) by (simpl; lia).
Qed.

Lemma newline_line w rest : IndexByte w nl = None ->
  match IndexByte (w +:+ String nl rest) nl with
  | Some i => (str_take (S i) (w +:+ String nl rest), str_drop (S i) (w +:+ String nl rest))
  | None => (w +:+ String nl rest, "")
  end = (w +:+ newline, rest).
Proof.
  intros Hw. rewrite (IndexByte_append_None _ _ _ Hw). cbn [IndexByte]. rewrite Ascii.eqb_refl. cbn [fmap option_fmap option_map].
  replace (w +:+ String nl rest) with ((w +:+ newline) +:+ rest) by (by rewrite str_append_assoc).
  replace (S (String.length w + 0)) with (String.length (w +:+ newline)) by (rewrite str_length_append; simpl; lia).
  by rewrite str_take_append, str_drop_append.
Qed.

Lemma normalFrom_bad line lines acc n : canonical line = false ->
  normalFrom (line :: lines) acc n = Err (Msg "delivery build graph has a non-canonical target tag").
Proof. intros Hc. unfold normalFrom. cbn [forallb]. by rewrite Hc. Qed.

Lemma normalFrom_last line acc n : canonical line = true ->
  normalFrom [line] acc n = Ok (acc +:+ untagged line, if tagLine line then S n else n).
Proof.
  intros Hc. unfold normalFrom. cbn [forallb]. rewrite Hc. cbn [andb fmap list_fmap Join]. do 2 f_equal.
  rewrite filter_cons. destruct (tagLine line); case_decide; try done; simpl; lia.
Qed.

Lemma normalizeLoop_spec fuel data acc n : String.length data <= fuel ->
  normalizeLoop fuel data acc n = normalFrom (Split data nl) acc n.
Proof.
  assert (forall fuel acc n, normalizeLoop fuel "" acc n = Ok (acc, n)) as Hempty by (by intros []).
  revert data acc n. induction fuel as [|fuel IH]; intros data acc n Hlen.
  { destruct data; [|simpl in Hlen; lia]. unfold normalFrom. simpl. by rewrite str_append_nil_r, Nat.add_0_r. }
  destruct (decide (data = "")) as [->|Hne].
  { rewrite Hempty. unfold normalFrom. simpl. by rewrite str_append_nil_r, Nat.add_0_r. }
  destruct (IndexByte data nl) as [i|] eqn:Hi.
  - destruct (IndexByte_Some _ _ _ Hi) as [Hdata Hw]. set (w := str_take i data) in *. set (rest := str_drop (S i) data) in *.
    clearbody w rest. rewrite (normalizeLoop_round fuel data acc n w rest false); [|done| |apply TrimSuffix_append].
    2: { rewrite Hdata. by apply newline_line. }
    rewrite Hdata, (Split_append_sep _ _ _ Hw). destruct (canonical w) eqn:Hc; [|by rewrite normalFrom_bad].
    rewrite normalFrom_cons by (done || apply Split_nonempty). apply IH.
    rewrite Hdata, str_length_append in Hlen. simpl in Hlen. lia.
  - rewrite (normalizeLoop_round fuel data acc n data "" true); [|done|by rewrite Hi, str_append_nil_r|].
    + rewrite (Split_word _ _ Hi). destruct (canonical data) eqn:Hc; [|by rewrite normalFrom_bad].
      by rewrite Hempty, normalFrom_last, str_append_nil_r.
    + rewrite str_append_nil_r. unfold TrimSuffix. by rewrite (no_newline_suffix _ Hi).
Qed.

Lemma normalize_normalForm data : normalizeBuildGraphTargetTags data = normalForm data.
Proof. unfold normalizeBuildGraphTargetTags. by rewrite normalizeLoop_spec. Qed.

(** Lines that differ in what they publish only *)
Definition sameButTags (a b : string) : Prop :=
  Forall2 (fun x y => x = y \/ tagLine x = true /\ canonical x = true /\ tagLine y = true /\ canonical y = true)
    (Split a nl) (Split b nl).

(** The document that enters the digest of the graph is the one in which
    every published tag is replaced, line by line, and documents that differ
    in their tags only have the same one, so that the digest can be written
    into the tags it is computed without. *)
Theorem normalized_tags (a : string) :
  normalizeBuildGraphTargetTags a = normalForm a /\
  forall b, sameButTags a b -> normalizeBuildGraphTargetTags a = normalizeBuildGraphTargetTags b.
Proof.
  split; [apply normalize_normalForm|]. intros b Hab. rewrite !normalize_normalForm. unfold normalForm.
  assert (forallb canonical (Split a nl) = forallb canonical (Split b nl) /\
    untagged <$> Split a nl = untagged <$> Split b nl /\
    length (filter (fun l => tagLine l = true) (Split a nl)) = length (filter (fun l => tagLine l = true) (Split b nl)))
    as (-> & -> & ->); [|done].
  induction Hab as [|x y l k Hxy _ (IH1 & IH2 & IH3)]; [done|]. cbn [forallb]. rewrite !fmap_cons, !filter_cons, IH1, IH2.
  destruct Hxy as [->|(Hx & Hcx & Hy & Hcy)]; [split_and!; [done..|]; case_decide; simpl; congruence|].
  unfold untagged at 1 3. rewrite Hx, Hy, Hcx, Hcy. split_and!; [done..|]. by rewrite !decide_True by done; simpl; rewrite IH3.
Qed.

(** ** A small graph

    The target [app] is built from a pinned image, an earlier stage, the target
    [lib] and a file with a checksum; both inherit from [common]. *)
Module Small.

(** Strings, of which one is null, and objects or lists of strings *)
Inductive Literal := Text (s : string) | NullText | Collection (l : list (string * string)) | Tuple (l : list string).

#[local] Instance literals : Hcl := {|
  Value := Literal; Expr := Literal;
  exprValue e _ := Some e;
  IsKnown _ := true;
  IsString v := match v with Text _ | NullText => true | _ => false end;
  AsString v := match v with Text s => Some s | _ => None end;
  CanIterateElements v := match v with Collection _ | Tuple _ => true | _ => false end;
  Elements v :=
    match v with
    | Collection l => Some ((fun kv => (Text kv.1, Text kv.2)) <$> l)
    | Tuple l => Some ((fun s => (Collection [], Text s)) <$> l)
    | _ => None
    end;
  AsValueMap v := match v with Collection l => Some (list_to_map ((fun kv => (kv.1, Text kv.2)) <$> l)) | _ => None end
|}.

Definition block (type label : string) (attributes : list (string * Literal)) : Block :=
  {| BlockType := type; Labels := [label]; Attributes := list_to_map attributes |}.
Abbreviation strings := Tuple.

Definition hex64 : string := "0123456789abcdef0123456789abcdef0123456789abcdef0123456789abcdef".
Definition debian : string := "docker.io/library/debian@sha256:" +:+ hex64.

Definition blocks : list Block :=
  [block "variable" "ATUM_DEBIAN_IMAGE" [("default", Text debian)];
   block "target" "common" [("context", Text "."); ("dockerfile", Text "docker/Dockerfile.delivery")];
   block "target" "lib" [("inherits", strings ["common"]); ("target", Text "tools")];
   block "target" "app"
     [("inherits", strings ["common"]); ("tags", strings ["registry/app:1"]);
      ("args", Collection [("BASE", "base")]);
      ("contexts", Collection [("base", "docker-image://quay.io/base@sha256:" +:+ hex64); ("library", "target:lib")])]].

#[local] Instance parser : HclParser := {| ParseHCL _ := Ok blocks |}.
#[local] Instance ranges : MapRange := {| range_ A _ _ m := map_to_list m; range_perm A _ _ m := reflexivity _ |}.
#[local] Instance dockerfiles0 : DockerfileParser := {|
  ParseDockerfile _ := Ok
    [{| StageName := "tools"; BaseName := "scratch"; SLocation := [1%Z]; Commands := [OtherCommand] |};
     {| StageName := ""; BaseName := "${BASE}"; SLocation := [3%Z];
        Commands := [CopyCommand "tools" [4%Z]; CopyCommand "library" [5%Z];
                     AddCommand ["https://example.org/file"; "local"] ("sha256:" +:+ hex64) [6%Z]] |}] |}.
#[local] Instance lower : UnicodeCase.
Proof.
  refine {| ToLowerRune r := if within 65 90 r then (r + 32)%N else r; ToUpperRune r := if within 97 122 r then (r - 32)%N else r |}; done.
Defined.

Definition mirror (id : string) : Image :=
  {| ImageID := id; Version := "1"; Target := ""; Discovery := ""; VersionMapping := None;
     Default := {| DType := "mirror"; Source := id; Digest := "sha256:" +:+ hex64; BakeTarget := ""; Materials := [] |} |}.
Definition app : Image :=
  {| ImageID := "app"; Version := "1"; Target := "registry/app:1"; Discovery := ""; VersionMapping := None;
     Default := {| DType := "build"; Source := ""; Digest := ""; BakeTarget := "app"; Materials := [] |} |}.
Definition project : Project :=
  {| RegistryHost := "registry"; Platform := "linux/amd64";
     Policy := {| BuildBase := debian; BuildParallelism := 4; ForbiddenArtifactPrefixes := ["evil.example"] |};
     Images := [mirror "buildkit"; mirror "sbom-scanner"; app]; LockProfile := "platform"; LockGraphSHA256 := "" |}.

Definition file (p : string) : path * node := (comps p, NFile 420 "x").
Definition tree : disk := list_to_map
  [([], NDir); (comps "platform", NDir); (comps "platform/build", NDir); (comps "platform/build/docker", NDir);
   file buildGraphPath; file "platform/build/.dockerignore"; file "platform/build/docker/Dockerfile.delivery";
   file "platform/build/docker/Dockerfile.operator"].

Lemma build_hermetic_witness :
  fst (validateBuildGraph false project ∅ true (World tree [])) = Ret (Some (Done [])) /\
  exists data graph, parseBakeGraph false data = Some (Ok graph) /\ hermetic graph (Policy project) tree ∅ "app".
Proof.
  assert (fst (validateBuildGraph false project ∅ true (World tree [])) = Ret (Some (Done []))) as H by (vm_compute; reflexivity).
  split; [exact H|]. destruct (validateBuildGraph false project ∅ true (World tree [])) as [r w] eqn:Hrun. cbn [fst] in H. subst r.
  destruct (build_hermetic false project ∅ true (World tree []) w Hrun) as (data & graph & _ & Hp & _ & _ & Hall).
  exists data, graph. split; [exact Hp|]. apply Hall. exists app. split; [repeat constructor|]. split; [discriminate|apply rtc_refl].
Defined.

(** A matrix that is a list and a name that is a null string pass the checks of
    the code and end in a panic. *)
Definition panicking (attributes : list (string * Literal)) : HclParser :=
  {| ParseHCL _ := Ok [block "target" "app" attributes] |}.
Example list_matrix_panics :
  fst (@validateBuildGraph (panicking [("matrix", Tuple ["a"])]) ranges dockerfiles0 lower false project ∅ true (World tree []))
  = Ret (Some Panicked).
Proof. vm_compute. reflexivity. Qed.
Example null_name_panics :
  fst (@validateBuildGraph (panicking [("name", NullText)]) ranges dockerfiles0 lower false project ∅ true (World tree []))
  = Ret (Some Panicked).
Proof. vm_compute. reflexivity. Qed.
End Small.
End BuildTheorems.
