(* ===== verification/SecretValue.v ===== *)
(** Secret values, [cli/secretvalue/values.go]: the decoder and the encoder of
    one bounded value, and the two documents that hand a set of values to
    Ansible and to Flux.  Overwriting the bytes of a value that is no longer
    used has no effect a model of values can show and is left out. *)
From stdpp Require Import prelude gmap strings list sorting.
From Stdlib Require Import Ascii ZArith Lia.
From S2P Require Import Prelude GoStrings Utf8 Treehash Json Provider.

Module SecretValue.
Import Utf8 Treehash Json Provider.

(** [1 << 20] *)
Definition MaxValueBytes : Z := 1048576.

Definition len (s : string) : Z := Z.of_nat (String.length s).

Inductive valueError :=
  | InvalidOrTooLong
  | NotJSONString
  | UnescapedControl
  | IncompleteEscape
  | IncompleteUnicodeEscape
  | InvalidUnicodeEscape
  | IncompleteSurrogatePair
  | InvalidSurrogatePair
  | InvalidEscape
  | ExceedsLimit (limit : Z)
  | NotUtf8
  | FieldNamesRequired
  | ValuesAndDigestRequired
  | LimitNotPositive
  | InvalidKey
  | ValueNotUtf8 (key : string)
  | InvalidLabel (label : string).

(** ** One value *)

(** [decodeHexRune]: the four digits after [\u], with what follows them.  The
    code's [len(data)-1] is the closing quote, the end of the text here. *)
Definition decodeHexRune (s : string) : result valueError (N * string) :=
  match s with
  | String a (String b (String c (String d rest))) =>
      match hex4 a b c d with
      | Some v => Ok (v, rest)
      | None => Err InvalidUnicodeEscape
      end
  | _ => Err IncompleteUnicodeEscape
  end.

(** [utf16.DecodeRune] *)
Definition decodeUtf16 (r1 r2 : N) : N :=
  if ((55296 <=? r1) && (r1 <? 56320) && (56320 <=? r2) && (r2 <? 57344))%N
  then ((r1 - 55296) * 1024 + (r2 - 56320) + 65536)%N
  else RuneError.

(** A [\u] escape, with the second half of a surrogate pair *)
Definition decodeUnicode (s : string) : result valueError (N * string) :=
  '(first, rest) ← decodeHexRune s;
  if isSurrogate first then
    match rest with
    | String b (String u (String _ (String _ (String _ _)) as pair)) =>
        if Ascii.eqb b "\" && Ascii.eqb u "u" then
          '(second, rest) ← decodeHexRune pair;
          let r := decodeUtf16 first second in
          if (r =? RuneError)%N then Err InvalidSurrogatePair else Ok (r, rest)
        else Err IncompleteSurrogatePair
    | _ => Err IncompleteSurrogatePair
    end
  else Ok (first, rest).

(** What one round of the loop appends, with the text after it *)
Definition decodeStep (c : ascii) (rest : string) : result valueError (string * string) :=
  if negb (Ascii.eqb c "\") then
    if (byte_of c <? 32)%N then Err UnescapedControl else Ok (String c "", rest)
  else
    match rest with
    | "" => Err IncompleteEscape
    | String e rest =>
        match simple_escape e with
        | Some x => Ok (String x "", rest)
        | None =>
            if Ascii.eqb e "u" then '(r, rest) ← decodeUnicode rest; Ok (EncodeRune r, rest)
            else Err InvalidEscape
        end
    end.

(** The loop over the text between the quotes; every round takes a byte. *)
Fixpoint decodeLoop (fuel : nat) (text result : string) (limit : Z) : Prelude.result valueError string :=
  match fuel, text with
  | _, "" | O, _ => Ok result
  | S fuel, String c rest =>
      '(appended, rest) ← decodeStep c rest;
      let result := result +:+ appended in
      if (limit <? len result)%Z then Err (ExceedsLimit limit)
      else decodeLoop fuel rest result limit
  end.

Definition decodeJSONString (data : string) (limit : Z) : result valueError string :=
  match data with
  | String q rest =>
      if (String.length data <? 2)%nat || negb (Ascii.eqb q qchar) || negb (HasSuffix data dquote)
      then Err NotJSONString
      else
        let text := str_take (String.length rest - 1) rest in
        value ← decodeLoop (String.length text) text "" limit;
        if ValidString value then Ok value else Err NotUtf8
  | "" => Err NotJSONString
  end.

(** [appendQuotedBytes] *)
Definition quotedByte (c : ascii) : string :=
  if Ascii.eqb c qchar || Ascii.eqb c "\" then String "\" (String c "")
  else if Ascii.eqb c "008" then "\b"
  else if Ascii.eqb c "012" then "\f"
  else if Ascii.eqb c "010" then "\n"
  else if Ascii.eqb c "013" then "\r"
  else if Ascii.eqb c "009" then "\t"
  else if (byte_of c <? 32)%N
  then "\u00" +:+ String (hex_char (N.shiftr (byte_of c) 4)) (String (hex_char (N.land (byte_of c) 15)) "")
  else String c "".

Fixpoint quotedBytes (value : string) : string :=
  match value with "" => "" | String c value => quotedByte c +:+ quotedBytes value end.

Definition appendQuotedBytes (destination value : string) : string :=
  destination +:+ dquote +:+ quotedBytes value +:+ dquote.

Definition MarshalJSON (value : string) : result valueError string :=
  if (MaxValueBytes <? len value)%Z || negb (ValidString value) then Err InvalidOrTooLong
  else Ok (appendQuotedBytes "" value).

Definition UnmarshalJSON (data : string) : result valueError string := decodeJSONString data MaxValueBytes.

(** ** Documents of several values *)

Section Documents.
Context {LI : Libraries}.

Abbreviation Values := (gmap string string).

(** The loop over the keys in order: a comma before every key but the first,
    and the limit after each *)
Fixpoint appendMembers (first : bool) (keys : list string) (values : Values) (limit : Z) (result : string)
    : Prelude.result valueError string :=
  match keys with
  | [] => Ok result
  | key :: keys =>
      let result := result +:+ (if first then "" else ",") in
      let result := appendQuotedBytes (result +:+ q key +:+ ":") (default "" (values !! key)) in
      if (limit <? len result)%Z then Err (ExceedsLimit limit)
      else appendMembers false keys values limit result
  end.

Definition within_limit (limit : Z) (result : string) : Prelude.result valueError string :=
  if (limit <? len result)%Z then Err (ExceedsLimit limit) else Ok result.

(** The checks of the loop over the map; [order] is the order of its
    iteration, which decides which of several errors is reported. *)
Fixpoint checkValues (entries : list (string * string)) : result valueError unit :=
  match entries with
  | [] => Ok tt
  | (key, value) :: entries =>
      if String.eqb key "" || negb (ValidString key) then Err InvalidKey
      else if negb (ValidString value) then Err (ValueNotUtf8 key)
      else checkValues entries
  end.

Definition sortedKeys (values : Values) : list string := SortStrings (map_to_list values).*1.

Definition MarshalProjection (order : Values -> list (string * string)) (valuesField : string) (values : Values)
    (digestField digest : string) (limit : Z) : result valueError string :=
  guard_err (String.eqb valuesField "" || String.eqb digestField "") FieldNamesRequired;;
  guard_err ((size values =? 0)%nat || String.eqb digest "") ValuesAndDigestRequired;;
  guard_err (limit <=? 0)%Z LimitNotPositive;;
  checkValues (order values);;
  result ← appendMembers true (sortedKeys values) values limit ("{" +:+ q valuesField +:+ ":{");
  within_limit limit (appendQuotedBytes (result +:+ "}," +:+ q digestField +:+ ":") digest +:+ "}").

(** The three labels are in a map: [labels] is the order they are checked in. *)
Definition checkLabel (labelled : string * string) : result valueError unit :=
  guard_err (String.eqb labelled.2 "" || negb (ValidString labelled.2)) (InvalidLabel labelled.1).

Fixpoint checkLabels (labels : list (string * string)) : result valueError unit :=
  match labels with [] => Ok tt | l :: labels => checkLabel l;; checkLabels labels end.

Definition jq (s : string) : string := dquote +:+ s +:+ dquote.

Definition secretHead (name namespace annotation digest : string) (watch immutable : bool) : string :=
  appendQuotedBytes
    ("{" +:+ jq "apiVersion" +:+ ":" +:+ jq "v1" +:+ "," +:+ jq "kind" +:+ ":" +:+ jq "Secret" +:+ "," +:+
     jq "metadata" +:+ ":{" +:+ jq "name" +:+ ":" +:+ q name +:+ "," +:+ jq "namespace" +:+ ":" +:+ q namespace +:+
     (if watch then "," +:+ jq "labels" +:+ ":{" +:+ jq "reconcile.fluxcd.io/watch" +:+ ":" +:+ jq "Enabled" +:+ "}" else "") +:+
     "," +:+ jq "annotations" +:+ ":{" +:+ q annotation +:+ ":") digest +:+
  "}}," +:+ jq "type" +:+ ":" +:+ jq "Opaque" +:+
  (if immutable then "," +:+ jq "immutable" +:+ ":true" else "") +:+ "," +:+ jq "stringData" +:+ ":{".

Definition marshalKubernetesSecret (labels order : Values -> list (string * string))
    (name namespace annotation digest : string) (values : Values) (limit : Z) (watch immutable : bool) : result valueError string :=
  checkLabels (labels {["name" := name; "namespace" := namespace; "annotation" := annotation]});;
  guard_err ((size values =? 0)%nat || String.eqb digest "") ValuesAndDigestRequired;;
  guard_err (limit <=? 0)%Z LimitNotPositive;;
  checkValues (order values);;
  result ← appendMembers true (sortedKeys values) values limit (secretHead name namespace annotation digest watch immutable);
  within_limit limit (result +:+ "}}" +:+ newline).

End Documents.
End SecretValue.
