(* ===== verification/SecretTheorems.v ===== *)
(** Secret values survive the trip through JSON, and the documents they are
    handed over in say what they should. *)
From stdpp Require Import prelude gmap strings list sorting.
From Stdlib Require Import Ascii ZArith Lia.
From S2P Require Import Prelude GoStrings Utf8 Treehash Json Provider SecretValue.

Module SecretTheorems.
Import Utf8 Treehash Json Provider SecretValue.

(** ** One value *)

Lemma quotedByte_decodes c : exists c0 r0, quotedByte c = String c0 r0 /\
  forall rest, decodeStep c0 (r0 +:+ rest) = Ok (String c "", rest).
Proof. destruct c as [[] [] [] [] [] [] [] []]; eexists _, _; (split; [reflexivity|]); intros rest; reflexivity. Qed.

Lemma quotedBytes_length value : (String.length value <= String.length (quotedBytes value))%nat.
Proof.
  induction value as [|c value IH]; [done|]. cbn [quotedBytes]. rewrite str_length_append.
  destruct (quotedByte_decodes c) as (c0 & r0 & -> & _). cbn [String.length]. lia.
Qed.

Lemma dquote_length : String.length dquote = 1%nat.
Proof. done. Qed.

Lemma len_append s t : len (s +:+ t) = (len s + len t)%Z.
Proof. unfold len. rewrite str_length_append. lia. Qed.

Lemma decodeLoop_quoted value fuel acc limit :
  (String.length (quotedBytes value) <= fuel)%nat -> (len acc + len value <= limit)%Z ->
  decodeLoop fuel (quotedBytes value) acc limit = Ok (acc +:+ value).
Proof.
  revert fuel acc. induction value as [|c value IH]; intros fuel acc Hf Hl.
  { rewrite str_append_nil_r. by destruct fuel. }
  cbn [quotedBytes] in *. destruct (quotedByte_decodes c) as (c0 & r0 & Hq & Hd). rewrite Hq in *.
  rewrite str_append_cons in *. cbn [String.length] in Hf. rewrite str_length_append in Hf.
  destruct fuel as [|fuel]; [lia|]. cbn [decodeLoop]. rewrite Hd. cbn [mbind result_bind].
  assert (len (String c value) = 1 + len value)%Z as Hc by (unfold len; cbn [String.length]; lia).
  rewrite (proj2 (Z.ltb_ge _ _)) by (rewrite len_append; change (len (String c "")) with 1%Z; unfold len in *; lia).
  rewrite IH, str_append_assoc; [done|lia|]. rewrite len_append. change (len (String c "")) with 1%Z. lia.
Qed.

Lemma decodeLoop_bound fuel text acc limit r :
  (len acc <= limit)%Z -> decodeLoop fuel text acc limit = Ok r -> (len r <= limit)%Z.
Proof.
  revert text acc. induction fuel as [|fuel IH]; intros [|c rest] acc Ha; cbn [decodeLoop]; try (by intros [= <-]).
  intros H. inv_ok. destruct x as [appended text]. destruct (limit <? _)%Z eqn:Hl; [done|]. eapply IH; [|exact H].
  by apply Z.ltb_ge.
Qed.

Lemma decode_quoted value limit : ValidString value = true -> (len value <= limit)%Z ->
  decodeJSONString (appendQuotedBytes "" value) limit = Ok value.
Proof.
  intros Hv Hl. change (appendQuotedBytes EmptyString value) with (String qchar (quotedBytes value +:+ dquote)). unfold decodeJSONString.
  rewrite (proj2 (Nat.ltb_ge _ _)) by (cbn [String.length]; rewrite str_length_append, dquote_length; lia).
  rewrite (proj2 (HasSuffix_true _ _)) by (exists (String qchar (quotedBytes value)); by rewrite str_append_cons).
  cbn [orb negb]. replace (Ascii.eqb qchar qchar) with true by done. cbn [orb negb].
  replace (String.length (quotedBytes value +:+ dquote) - 1)%nat with (String.length (quotedBytes value))
    by (rewrite str_length_append, dquote_length; lia).
  rewrite str_take_append. rewrite decodeLoop_quoted; [|done|unfold len in *; cbn [String.length]; lia].
  cbn [mbind result_bind]. rewrite str_append_nil_l. by rewrite Hv.
Qed.

(** C11. A secret value is encoded exactly when it is valid UTF-8 within the
    bound, decoding gives it back, and nothing else is ever decoded than valid
    UTF-8 within the bound, whatever the document. *)
Theorem secret_roundtrip (value : string) :
  (is_ok (MarshalJSON value) = true <-> ValidString value = true /\ (len value <= MaxValueBytes)%Z) /\
  (forall data, MarshalJSON value = Ok data -> UnmarshalJSON data = Ok value) /\
  (forall data, UnmarshalJSON data = Ok value -> ValidString value = true /\ (len value <= MaxValueBytes)%Z).
Proof.
  unfold MarshalJSON, UnmarshalJSON. split_and!.
  - destruct (MaxValueBytes <? len value)%Z eqn:Hl; [apply Z.ltb_lt in Hl|apply Z.ltb_ge in Hl];
      destruct (ValidString value); simpl; split; try done; lia.
  - intros data. destruct (MaxValueBytes <? len value)%Z eqn:Hl; [done|]. apply Z.ltb_ge in Hl.
    destruct (ValidString value) eqn:Hv; [|done]. cbn [orb negb]. intros [= <-]. by apply decode_quoted.
  - intros [|c data]; [done|]. unfold decodeJSONString. destruct (_ || _); [done|]. cbv zeta.
    intros Hd. apply bind_ok_inv in Hd as (v & Hloop & Hv). destruct (ValidString v) eqn:Hvalid; [|done]. injection Hv as ->.
    split; [done|]. eapply decodeLoop_bound; [|exact Hloop]. done.
Qed.

(** ** Documents *)

(** Text that Go and JSON quote alike *)
Definition plain (s : string) : bool := str_forallb (in_range " " "~") s.

(** Reading a piece of text takes at most [n] levels of the parser. *)
Definition reads (n : nat) (text : string) (v : value) : Prop :=
  forall fuel rest, (n <= fuel)%nat -> parse_value fuel (text +:+ rest) = Some (v, rest).
Definition reads_members (n : nat) (text : string) (l : list (string * value)) : Prop :=
  (exists t, text = String qchar t) /\
  forall fuel rest, (n <= fuel)%nat -> parse_members fuel (text +:+ rest) = Some (l, rest).

Section Quoting.
Context {LI : Libraries}.

Lemma quoteRune_parses c t : in_range " " "~" c = true ->
  parse_chars (quoteRune (byte_of c) (String c EmptyString) +:+ t) = prepend (String c EmptyString) (parse_chars t).
Proof. destruct c as [[] [] [] [] [] [] [] []]; intros Hc; try discriminate Hc; reflexivity. Qed.

Lemma runes_ascii c s : in_range " " "~" c = true -> runes (String c s) = (byte_of c, 1%nat) :: runes s.
Proof.
  intros Hc. rewrite runes_cons. assert (DecodeRune (String c s) = (byte_of c, 1%nat)) as ->; [|done].
  destruct c as [[] [] [] [] [] [] [] []]; try discriminate Hc; reflexivity.
Qed.

Lemma key_parses s rest : plain s = true -> parse_chars (quote_runes s (runes s) +:+ dquote +:+ rest) = Some (s, rest).
Proof.
  induction s as [|c s IH]; intros Hs; [done|]. unfold plain in *. cbn [str_forallb] in Hs.
  apply andb_prop in Hs as [Hc Hs]. rewrite (runes_ascii _ _ Hc). cbn [quote_runes].
  assert (((byte_of c =? RuneError)%N && (1 =? 1)%nat) = false) as ->.
  { destruct c as [[] [] [] [] [] [] [] []]; try discriminate Hc; reflexivity. }
  cbn [str_take str_drop]. replace (str_take 0 s) with EmptyString by (by destruct s). replace (str_drop 0 s) with s by (by destruct s).
  rewrite str_append_assoc, quoteRune_parses, IH by done. done.
Qed.

Lemma value_parses s rest : parse_chars (quotedBytes s +:+ dquote +:+ rest) = Some (s, rest).
Proof.
  induction s as [|c s IH]; [done|]. cbn [quotedBytes]. rewrite str_append_assoc.
  assert (forall t, parse_chars (quotedByte c +:+ t) = prepend (String c EmptyString) (parse_chars t)) as ->.
  { intros t. destruct c as [[] [] [] [] [] [] [] []]; reflexivity. }
  by rewrite IH.
Qed.

Lemma q_shape s : q s = String qchar (quote_runes s (runes s) +:+ dquote).
Proof. done. Qed.

Lemma reads_value s : reads 1 (dquote +:+ quotedBytes s +:+ dquote) (JStr s).
Proof.
  intros [|fuel] rest Hf; [lia|]. rewrite !str_append_assoc. cbn [parse_value].
  change (dquote +:+ quotedBytes s +:+ dquote +:+ rest) with (String qchar (quotedBytes s +:+ dquote +:+ rest)).
  cbn [skip_ws]. change (is_ws qchar) with false. cbv iota.
  change (HasPrefix (String qchar (quotedBytes s +:+ dquote +:+ rest)) "null") with false.
  change (HasPrefix (String qchar (quotedBytes s +:+ dquote +:+ rest)) "true") with false.
  change (HasPrefix (String qchar (quotedBytes s +:+ dquote +:+ rest)) "false") with false.
  cbv iota. change (Ascii.eqb qchar qchar) with true. cbv iota. by rewrite value_parses.
Qed.

(** The key of a member and the colon *)
Lemma members_key fuel k rest : plain k = true ->
  parse_members (S fuel) (q k +:+ ":" +:+ rest) =
  '(v, r) ← parse_value fuel rest;
  match skip_ws r with
  | String c r =>
      if Ascii.eqb c "}" then Some ([(k, v)], r)
      else if Ascii.eqb c "," then '(l, r) ← parse_members fuel r; Some ((k, v) :: l, r)
      else None
  | EmptyString => None
  end.
Proof.
  intros Hk. rewrite q_shape, str_append_cons, str_append_assoc. cbn [parse_members skip_ws].
  change (is_ws qchar) with false. cbv iota. change (Ascii.eqb qchar qchar) with true. cbv iota.
  rewrite key_parses by done. done.
Qed.

Lemma reads_member_last n k text v : plain k = true -> reads n text v ->
  reads_members (S n) (q k +:+ ":" +:+ text +:+ "}") [(k, v)].
Proof.
  intros Hk Hv. split; [eexists; by rewrite q_shape, str_append_cons|]. intros [|fuel] rest Hf; [lia|].
  rewrite !str_append_assoc, members_key by done. rewrite Hv by lia. done.
Qed.

Lemma reads_member n m k text v more l : plain k = true -> reads n text v -> reads_members m more l ->
  reads_members (S (Nat.max n m)) (q k +:+ ":" +:+ text +:+ "," +:+ more) ((k, v) :: l).
Proof.
  intros Hk Hv [_ Hl]. split; [eexists; by rewrite q_shape, str_append_cons|]. intros [|fuel] rest Hf; [lia|].
  rewrite !str_append_assoc, members_key by done. rewrite Hv by lia. cbn [mbind option_bind].
  change (skip_ws ("," +:+ more +:+ rest)) with ("," +:+ more +:+ rest).
  change ("," +:+ more +:+ rest) with (String "," (more +:+ rest)). cbv iota beta.
  change (Ascii.eqb "," "}") with false. change (Ascii.eqb "," ",") with true. cbv iota. by rewrite Hl by lia.
Qed.

Lemma reads_object n text l : reads_members n text l -> reads (S n) ("{" +:+ text) (JObj l).
Proof.
  intros [[t ->] Hl] [|fuel] rest Hf; [lia|]. rewrite str_append_assoc.
  change ("{" +:+ String qchar t +:+ rest) with (String "{" (String qchar (t +:+ rest))).
  cbn [parse_value skip_ws]. change (is_ws "{") with false. cbv iota.
  change (HasPrefix (String "{" (String qchar (t +:+ rest))) "null") with false.
  change (HasPrefix (String "{" (String qchar (t +:+ rest))) "true") with false.
  change (HasPrefix (String "{" (String qchar (t +:+ rest))) "false") with false.
  cbv iota. change (Ascii.eqb "{" qchar) with false. change (Ascii.eqb "{" "[") with false. change (Ascii.eqb "{" "{") with true. cbv iota.
  change (is_ws qchar) with false. cbv iota. change (String qchar (t +:+ rest)) with (String qchar t +:+ rest).
  rewrite Hl by lia. done.
Qed.

Lemma reads_weaken n m text v : (n <= m)%nat -> reads n text v -> reads m text v.
Proof. intros Hnm H fuel rest Hf. apply H. lia. Qed.

Lemma reads_true : reads 1 "true" (JBool true).
Proof. intros [|fuel] rest Hf; [lia|]. by destruct rest. Qed.

(** What the loop over the keys appends *)
Definition quotedValue (v : string) : string := dquote +:+ quotedBytes v +:+ dquote.

Fixpoint membersText (first : bool) (keys : list string) (values : gmap string string) : string :=
  match keys with
  | [] => EmptyString
  | k :: keys => (if first then EmptyString else ",") +:+ q k +:+ ":" +:+ quotedValue (default EmptyString (values !! k)) +:+
                 membersText false keys values
  end.

Definition membersOf (keys : list string) (values : gmap string string) : list (string * value) :=
  (fun k => (k, JStr (default EmptyString (values !! k)))) <$> keys.

Lemma appendMembers_text first keys values limit acc r :
  appendMembers first keys values limit acc = Ok r -> r = acc +:+ membersText first keys values.
Proof.
  revert first acc. induction keys as [|k keys IH]; intros first acc; cbn [appendMembers membersText].
  { intros [= <-]. by rewrite str_append_nil_r. }
  cbv zeta. destruct (limit <? _)%Z; [done|]. intros ->%IH. unfold appendQuotedBytes, quotedValue. by rewrite !str_append_assoc.
Qed.

Lemma members_read keys values : keys <> [] -> Forall (fun k => plain k = true) keys ->
  reads_members (S (length keys)) (membersText true keys values +:+ "}") (membersOf keys values).
Proof.
  induction keys as [|k keys IH]; [done|]. intros _ Hk. apply Forall_cons in Hk as [Hk Hkeys].
  cbn [membersText membersOf fmap list_fmap]. rewrite str_append_nil_l. destruct keys as [|k' keys].
  - cbn [membersText length]. rewrite str_append_nil_r. rewrite !str_append_assoc.
    eapply reads_member_last; [done|apply reads_value].
  - specialize (IH ltac:(done) Hkeys). rewrite !str_append_assoc. cbn [membersText] in *. rewrite !str_append_assoc in *.
    rewrite str_append_nil_l in IH. replace (S (length (k :: k' :: keys))) with (S (Nat.max 1 (S (length (k' :: keys))))) by (cbn; lia).
    apply reads_member; [done|apply reads_value|exact IH].
Qed.

Lemma members_length first keys values : (length keys <= String.length (membersText first keys values))%nat.
Proof.
  revert first. induction keys as [|k keys IH]; intros first; [done|]. cbn [membersText length].
  rewrite !str_length_append. specialize (IH false). change (String.length ":") with 1%nat. lia.
Qed.

Lemma document_read n text v : reads n text v -> (n <= S (2 * String.length text))%nat ->
  parse_document text = Some v /\ parse_document (text +:+ newline) = Some v.
Proof.
  intros Hr Hn. unfold parse_document. split.
  - pose proof (Hr (S (2 * String.length text)) EmptyString Hn) as H. rewrite str_append_nil_r in H. by rewrite H.
  - by rewrite Hr by (rewrite str_length_append; lia).
Qed.

Lemma within_limit_ok limit text r : within_limit limit text = Ok r -> r = text /\ (len r <= limit)%Z.
Proof. unfold within_limit. destruct (limit <? len text)%Z eqn:Hl; [done|]. intros [= <-]. split; [done|]. by apply Z.ltb_ge. Qed.

Lemma sortedKeys_plain values : map_Forall (fun k _ => plain k = true) values -> Forall (fun k => plain k = true) (sortedKeys values).
Proof.
  intros H. apply Forall_forall. intros k. unfold sortedKeys. rewrite SortStrings_perm, list_elem_of_fmap.
  intros ([k' v] & -> & Hin%elem_of_map_to_list). by eapply H.
Qed.

Lemma sortedKeys_nonempty values : (size values =? 0)%nat = false -> sortedKeys values <> [].
Proof.
  intros Hs%Nat.eqb_neq He. apply Hs. apply (f_equal length) in He. unfold sortedKeys in He.
  rewrite SortStrings_perm, length_fmap, length_map_to_list in He. done.
Qed.

Lemma projection_read order vf values df digest limit doc :
  MarshalProjection order vf values df digest limit = Ok doc ->
  plain vf = true -> plain df = true -> map_Forall (fun k _ => plain k = true) values ->
  (len doc <= limit)%Z /\
  parse_document doc = Some (JObj [(vf, JObj (membersOf (sortedKeys values) values)); (df, JStr digest)]).
Proof.
  intros H Hvf Hdf Hkeys. unfold MarshalProjection in H. inv_ok.
  repeat match goal with Hx : guard_err _ _ = Ok _ |- _ => apply guard_err_ok in Hx end. reflect_bool.
  match goal with Hx : appendMembers _ _ _ _ _ = Ok _ |- _ => apply appendMembers_text in Hx; subst end.
  apply within_limit_ok in H as [-> Hl]. split; [done|].
  assert (sortedKeys values <> []) as Hne by (by apply sortedKeys_nonempty).
  pose proof (members_read _ values Hne (sortedKeys_plain _ Hkeys)) as Hm.
  pose proof (reads_object _ _ _ (reads_member _ _ vf _ _ _ _ Hvf (reads_object _ _ _ Hm)
    (reads_member_last _ df _ _ Hdf (reads_value digest)))) as Hdoc.
  eapply document_read in Hdoc as [Hdoc _].
  - rewrite <- Hdoc. f_equal. unfold appendQuotedBytes. rewrite !str_append_assoc. reflexivity.
  - rewrite !str_length_append. pose proof (members_length true (sortedKeys values) values).
    change (String.length "{") with 1%nat. change (String.length ":") with 1%nat. lia.
Qed.

Lemma reads_key s : plain s = true -> reads 1 (q s) (JStr s).
Proof.
  intros Hs [|fuel] rest Hf; [lia|]. rewrite q_shape, str_append_cons, str_append_assoc. cbn [parse_value skip_ws].
  change (is_ws qchar) with false. cbv iota. set (t := quote_runes s (runes s) +:+ dquote +:+ rest).
  change (HasPrefix (String qchar t) "null") with false. change (HasPrefix (String qchar t) "true") with false.
  change (HasPrefix (String qchar t) "false") with false. cbv iota. change (Ascii.eqb qchar qchar) with true. cbv iota.
  unfold t. by rewrite key_parses.
Qed.

(** The manifest of a Secret *)
Definition metadataOf (name namespace annotation digest : string) (watch : bool) : value :=
  JObj ([("name", JStr name); ("namespace", JStr namespace)] ++
        (if watch then [("labels", JObj [("reconcile.fluxcd.io/watch", JStr "Enabled")])] else []) ++
        [("annotations", JObj [(annotation, JStr digest)])]).
Definition secretOf (name namespace annotation digest : string) (watch immutable : bool) (members : list (string * value)) : value :=
  JObj ([("apiVersion", JStr "v1"); ("kind", JStr "Secret"); ("metadata", metadataOf name namespace annotation digest watch);
         ("type", JStr "Opaque")] ++
        (if immutable then [("immutable", JBool true)] else []) ++ [("stringData", JObj members)]).

Lemma reads_metadata name namespace annotation digest (watch : bool) :
  plain name = true -> plain namespace = true -> plain annotation = true ->
  reads 8 ("{" +:+ jq "name" +:+ ":" +:+ q name +:+ "," +:+ jq "namespace" +:+ ":" +:+ q namespace +:+
     (if watch then "," +:+ jq "labels" +:+ ":{" +:+ jq "reconcile.fluxcd.io/watch" +:+ ":" +:+ jq "Enabled" +:+ "}" else EmptyString) +:+
     "," +:+ jq "annotations" +:+ ":{" +:+ q annotation +:+ ":" +:+ quotedValue digest +:+ "}}")
    (metadataOf name namespace annotation digest watch).
Proof.
  intros Hn Hs Ha.
  pose proof (reads_member_last _ "annotations" _ _ eq_refl
    (reads_object _ _ _ (reads_member_last _ annotation _ _ Ha (reads_value digest)))) as Hann.
  pose proof (reads_object _ _ _ (reads_member_last _ "reconcile.fluxcd.io/watch" _ _ eq_refl (reads_key "Enabled" eq_refl))) as Hlab.
  pose proof (reads_member _ _ "labels" _ _ _ _ eq_refl Hlab Hann) as Hwatch.
  destruct watch.
  - pose proof (reads_object _ _ _ (reads_member _ _ "name" _ _ _ _ eq_refl (reads_key name Hn)
      (reads_member _ _ "namespace" _ _ _ _ eq_refl (reads_key namespace Hs) Hwatch))) as H.
    eapply reads_weaken in H; [|cbn; reflexivity]. unfold quotedValue. rewrite !str_append_assoc in *.
    eapply reads_weaken; [|exact H]. lia.
  - pose proof (reads_object _ _ _ (reads_member _ _ "name" _ _ _ _ eq_refl (reads_key name Hn)
      (reads_member _ _ "namespace" _ _ _ _ eq_refl (reads_key namespace Hs) Hann))) as H.
    unfold quotedValue. rewrite !str_append_assoc in *. eapply reads_weaken; [|exact H]. cbn. lia.
Qed.

Lemma secret_read labels order name namespace annotation digest values limit watch immutable doc :
  marshalKubernetesSecret labels order name namespace annotation digest values limit watch immutable = Ok doc ->
  plain name = true -> plain namespace = true -> plain annotation = true -> map_Forall (fun k _ => plain k = true) values ->
  (len doc <= limit)%Z /\
  parse_document doc = Some (secretOf name namespace annotation digest watch immutable (membersOf (sortedKeys values) values)).
Proof.
  intros H Hn Hs Ha Hkeys. unfold marshalKubernetesSecret in H. inv_ok.
  repeat match goal with Hx : guard_err _ _ = Ok _ |- _ => apply guard_err_ok in Hx end. reflect_bool.
  match goal with Hx : appendMembers _ _ _ _ _ = Ok _ |- _ => apply appendMembers_text in Hx; subst end.
  apply within_limit_ok in H as [-> Hl]. split; [done|].
  assert (sortedKeys values <> []) as Hne by (by apply sortedKeys_nonempty).
  pose proof (reads_member_last _ "stringData" _ _ eq_refl (reads_object _ _ _ (members_read _ values Hne (sortedKeys_plain _ Hkeys)))) as Hdata.
  pose proof (reads_metadata name namespace annotation digest watch Hn Hs Ha) as Hmeta.
  pose proof (reads_member _ _ "immutable" _ _ _ _ eq_refl reads_true Hdata) as Himm.
  assert (exists m text, reads_members m text ((if immutable then [("immutable", JBool true)] else []) ++
      [("stringData", JObj (membersOf (sortedKeys values) values))]) /\
    text = (if immutable then jq "immutable" +:+ ":true," else EmptyString) +:+ jq "stringData" +:+ ":{" +:+
      membersText true (sortedKeys values) values +:+ "}}" /\ (m <= 6 + length (sortedKeys values))%nat) as (m & text & Htext & Heq & Hm).
  { destruct immutable; eexists _, _; (split; [eassumption|]); (split; [rewrite !str_append_assoc; reflexivity|cbn; lia]). }
  pose proof (reads_object _ _ _ (reads_member _ _ "apiVersion" _ _ _ _ eq_refl (reads_key "v1" eq_refl)
    (reads_member _ _ "kind" _ _ _ _ eq_refl (reads_key "Secret" eq_refl)
      (reads_member _ _ "metadata" _ _ _ _ eq_refl Hmeta
        (reads_member _ _ "type" _ _ _ _ eq_refl (reads_key "Opaque" eq_refl) Htext))))) as Hdoc.
  eapply document_read in Hdoc as [_ Hdoc].
  - etransitivity; [|exact Hdoc]. f_equal. subst text. unfold secretHead, appendQuotedBytes, quotedValue.
    rewrite !str_append_assoc. destruct watch, immutable; rewrite ?str_append_assoc; reflexivity.
  - subst text. rewrite !str_length_append. pose proof (members_length true (sortedKeys values) values).
    change (String.length (q "apiVersion")) with 12%nat. lia.
Qed.
End Quoting.

(** C18. The documents that hand secrets over are JSON and say what they should:
    when names, fields and keys are printable ASCII, a JSON parser reads back
    every value unchanged, in the order of the keys, with the digest and, for
    Kubernetes, exactly the manifest of one opaque Secret; and the document is
    within its limit. *)
Theorem secret_documents {LI : Libraries} (values : gmap string string) (digest : string) (limit : Z) :
  map_Forall (fun k _ => plain k = true) values ->
  (forall order vf df doc, plain vf = true -> plain df = true ->
     MarshalProjection order vf values df digest limit = Ok doc ->
     (len doc <= limit)%Z /\
     parse_document doc = Some (JObj [(vf, JObj (membersOf (sortedKeys values) values)); (df, JStr digest)])) /\
  (forall labels order name namespace annotation watch immutable doc,
     plain name = true -> plain namespace = true -> plain annotation = true ->
     marshalKubernetesSecret labels order name namespace annotation digest values limit watch immutable = Ok doc ->
     (len doc <= limit)%Z /\
     parse_document doc = Some (secretOf name namespace annotation digest watch immutable (membersOf (sortedKeys values) values))).
Proof.
  intros Hkeys. split; intros.
  - by eapply projection_read.
  - by eapply secret_read.
Qed.

(** ** On concrete values *)

#[local] Instance noLibraries : Libraries := {| Parse _ := None; AppendCertsFromPEM _ := false; IsPrint _ := false |}.

Definition values0 : gmap string string := {["B" := "x" +:+ newline; "A" := String "001" "y"]}.

Lemma secret_documents_witness :
  exists doc, marshalKubernetesSecret map_to_list map_to_list "n" "ns" "a.dev/d" "d" values0 65536 true true = Ok doc /\
  parse_document doc = Some (secretOf "n" "ns" "a.dev/d" "d" true true (membersOf (sortedKeys values0) values0)).
Proof.
  assert (map_Forall (fun k _ => plain k = true) values0) as Hk.
  { apply map_Forall_insert_2; [done|]. apply map_Forall_insert_2; [done|]. apply map_Forall_empty. }
  destruct (marshalKubernetesSecret map_to_list map_to_list "n" "ns" "a.dev/d" "d" values0 65536 true true) as [doc|e] eqn:Hd.
  2: { exfalso. revert Hd. vm_compute. discriminate. }
  exists doc. split; [reflexivity|].
  apply (proj2 (secret_documents values0 "d" 65536 Hk) map_to_list map_to_list "n" "ns" "a.dev/d" true true doc eq_refl eq_refl eq_refl Hd).
Defined.

(** Keys are quoted as Go strings: one with a bell gives a document that is
    not JSON. *)
Lemma bell_key_is_not_json :
  match MarshalProjection map_to_list "v" {[String "007" "" := "x"]} "d" "y" 100 with
  | Ok doc => parse_document doc = None
  | Err _ => False
  end.
Proof. vm_compute. reflexivity. Qed.
End SecretTheorems.
