(* ===== verification/IdentityContract.v ===== *)
(** The identity contract of the platform and what is derived from it,
    [cli/identity]: [contract.go] validates the declaration of the clients,
    [derive.go] computes their secrets from one seed and projects them to
    Ansible, Flux and the operator. *)
From stdpp Require Import prelude gmap strings list sorting.
From Stdlib Require Import Ascii ZArith Lia.
From S2P Require Import Prelude GoStrings Utf8 Sha256 Treehash Json Provider LocalAccess Vault SecretValue.

Module IdentityContract.
Import Utf8 Sha256 Treehash Json Provider LocalAccess Vault SecretValue.

(** ** Data *)

(** The named strings of the contract are strings: a document may hold any. *)
Record Administrator := { AdminUsername : string; AdminGroup : string; AdminServerRole : string }.
Record Client :=
  { CID : string; CApplication : string; CType : string; CHost : string; CCategory : string; CIntegration : string;
    CSecretPurpose : string; CCallbacks : list string; CAdministratorMapping : string; CAudience : bool }.
Record Endpoint := { EID : string; EHost : string; ECategory : string; EAccess : string }.
Record contractFile :=
  { FSchemaVersion : string; FRealm : string; FIssuer : string; FScopes : list string; FGroupClaim : string;
    FAdministrator : Administrator; FEndpoints : list Endpoint; FClients : list Client }.

(** The indices a contract keeps next to its document; an endpoint is recorded
    with a negative number. *)
Record Contract :=
  { document : contractFile; byID : gmap string Z; byHost : gmap string Z; byApplication : gmap string Z; canonical : string }.

Definition SchemaVersion : string := "atum.dev/identity/v1".
Definition PublicPKCE : string := "public-pkce".
Definition Confidential : string := "confidential".
Definition NativeOIDC : string := "native-oidc".
Definition Authservice : string := "authservice".
Definition FluxReconciliation : string := "flux-reconciliation".
Definition categories : list string := ["identity"; "development"; "observability"].
Definition accesses : list string := ["browser"; "token"].
Definition applications : list string :=
  ["headlamp"; "kiali"; "grafana"; "gitlab"; "policy-reporter"; "harbor"; "vault"; "prometheus"; "alertmanager"; "opensearch"].
Definition requiredScopes : list string := ["openid"; "profile"; "email"; "groups"].

Inductive contractError :=
  | WrongSchema
  | WrongIssuer
  | WrongGroupClaim
  | InvalidScope (scope : string)
  | DuplicateScope (scope : string)
  | MissingScope (scope : string)
  | WrongAdministrator
  | InvalidEndpointID (index : nat) (id : string)
  | DuplicateEndpointID (id : string)
  | DuplicateHost (host : string)
  | InvalidHost (id host : string)
  | OutsideDomain (id host domain : string)
  | UnknownCategory (id category : string)
  | UnknownAccess (id access : string)
  | InvalidClientID (index : nat) (id : string)
  | DuplicateClientID (id : string)
  | UnsupportedApplication (id application : string)
  | DuplicateApplication (application : string)
  | UnknownType (id type : string)
  | UnknownIntegration (id integration : string)
  | ProjectionMismatch (id application : string)
  | PublicSecret (id : string)
  | InvalidPurpose (id : string)
  | DuplicatePurpose (purpose : string)
  | MissingCallbacks (id : string)
  | InvalidCallback (id callback : string)
  | DuplicateCallback (callback : string)
  | MissingApplication (application : string).

(** ** Patterns *)

(** [^[a-z][a-z0-9-]*$] *)
Definition identifierPattern (s : string) : bool :=
  match s with "" => false | String c rest => is_lower c && str_forallb is_ldh rest end.

(** [[a-z0-9](?:[a-z0-9-]{0,61}[a-z0-9])?] *)
Definition is_alnum (c : ascii) : bool := is_lower c || is_digit c.
Definition labelPattern (s : string) : bool :=
  match s with
  | "" => false
  | String c "" => is_alnum c
  | String c rest =>
      is_alnum c && (String.length rest <=? 62)%nat && str_forallb is_ldh (str_take (String.length rest - 1) rest) &&
      match last_byte rest with Some l => is_alnum l | None => false end
  end.

(** Labels with dots between, two at least *)
Definition hostnamePattern (s : string) : bool :=
  let labels := Split s "." in (2 <=? length labels)%nat && forallb labelPattern labels.

Definition in_list (s : string) (l : list string) : bool := existsb (String.eqb s) l.

Section Validate.
Context {LI : Libraries}.

Definition keycloakPrefix : string := "keycloak.".

(** The issuer and the domain it declares *)
Definition issuerDomain (c : contractFile) : result contractError string :=
  match Parse (FIssuer c) with
  | None => Err WrongIssuer
  | Some issuer =>
      let host := Hostname issuer in
      if negb (String.eqb (FRealm c) "master") || negb (String.eqb (Scheme issuer) "https") ||
         negb (String.eqb (UrlPath issuer) "/auth/realms/master") || negb (String.eqb (RawQuery issuer) "") ||
         negb (String.eqb (Fragment issuer) "") || bool_decide (is_Some (User issuer)) || negb (String.eqb (Port issuer) "") ||
         (String.length host <=? String.length keycloakPrefix)%nat || (253 <? String.length host)%nat ||
         negb (hostnamePattern host) || negb (String.eqb (str_take (String.length keycloakPrefix) host) keycloakPrefix)
      then Err WrongIssuer
      else Ok (str_drop (String.length keycloakPrefix) host)
  end.

Fixpoint checkScopes (scopes : list string) (seen : gset string) : result contractError (gset string) :=
  match scopes with
  | [] => Ok seen
  | scope :: scopes =>
      guard_err (negb (identifierPattern scope)) (InvalidScope scope);;
      guard_err (bool_decide (scope ∈ seen)) (DuplicateScope scope);;
      checkScopes scopes ({[scope]} ∪ seen)
  end.

Fixpoint requireScopes (required : list string) (seen : gset string) : result contractError unit :=
  match required with
  | [] => Ok tt
  | scope :: required => guard_err (bool_decide (scope ∉ seen)) (MissingScope scope);; requireScopes required seen
  end.

(** [host[len(host)-len(domain)-1:] == "."+domain] *)
Definition insideDomain (host domain : string) : bool :=
  negb (String.length host <=? String.length domain + 1)%nat &&
  String.eqb (str_drop (String.length host - String.length domain - 1) host) ("." +:+ domain).

Definition checkHost (id host domain : string) (byHost : gmap string Z) : result contractError unit :=
  guard_err (bool_decide (is_Some (byHost !! host))) (DuplicateHost host);;
  guard_err ((253 <? String.length host)%nat || negb (hostnamePattern host)) (InvalidHost id host);;
  guard_err (negb (insideDomain host domain)) (OutsideDomain id host domain).

Fixpoint checkEndpoints (index : nat) (endpoints : list Endpoint) (domain : string) (ids : gset string)
    (byHost : gmap string Z) : result contractError (gmap string Z) :=
  match endpoints with
  | [] => Ok byHost
  | e :: endpoints =>
      guard_err (negb (identifierPattern (EID e))) (InvalidEndpointID index (EID e));;
      guard_err (bool_decide (EID e ∈ ids)) (DuplicateEndpointID (EID e));;
      checkHost (EID e) (EHost e) domain byHost;;
      guard_err (negb (in_list (ECategory e) categories)) (UnknownCategory (EID e) (ECategory e));;
      guard_err (negb (in_list (EAccess e) accesses)) (UnknownAccess (EID e) (EAccess e));;
      checkEndpoints (S index) endpoints domain ({[EID e]} ∪ ids) (<[EHost e := (- Z.of_nat index - 1)%Z]> byHost)
  end.

Definition applicationContract (application administratorGroup : string) : string * string * bool * string :=
  if String.eqb application "headlamp" then (PublicPKCE, NativeOIDC, true, "oidc:" +:+ administratorGroup +:+ "=cluster-admin")
  else if String.eqb application "kiali" then (Confidential, NativeOIDC, true, "authenticated-cluster-admin")
  else if String.eqb application "grafana" then (Confidential, NativeOIDC, false, "Admin")
  else if String.eqb application "gitlab" then (Confidential, NativeOIDC, false, "adminGroups")
  else if String.eqb application "policy-reporter" then (Confidential, NativeOIDC, false, "authenticated-ui-admin")
  else if String.eqb application "harbor" then (Confidential, NativeOIDC, false, "oidc-admin-group")
  else if String.eqb application "vault" then (Confidential, FluxReconciliation, false, "administrator-policy")
  else if in_list application ["prometheus"; "alertmanager"; "opensearch"] then (Confidential, Authservice, false, "authenticated")
  else ("", "", false, "").

Fixpoint checkCallbacks (client : Client) (callbacks : list string) (seen : gset string) : result contractError (gset string) :=
  match callbacks with
  | [] => Ok seen
  | callback :: callbacks =>
      guard_err (match Parse callback with
                 | None => true
                 | Some parsed =>
                     negb (String.eqb (Scheme parsed) "https") || negb (String.eqb (Hostname parsed) (CHost client)) ||
                     bool_decide (is_Some (User parsed)) || negb (String.eqb (RawQuery parsed) "") ||
                     negb (String.eqb (Fragment parsed) "")
                 end) (InvalidCallback (CID client) callback);;
      guard_err (bool_decide (callback ∈ seen)) (DuplicateCallback callback);;
      checkCallbacks client callbacks ({[callback]} ∪ seen)
  end.

(** The maps and sets of the loop over the clients *)
Record clientState :=
  { sByID : gmap string Z; sByHost : gmap string Z; sByApplication : gmap string Z;
    sApplications : gset string; sCallbacks : gset string; sPurposes : gset string }.

Definition checkPurpose (client : Client) (purposes : gset string) : result contractError (gset string) :=
  if String.eqb (CType client) PublicPKCE then
    guard_err (negb (String.eqb (CSecretPurpose client) "")) (PublicSecret (CID client));; Ok purposes
  else
    guard_err (negb (identifierPattern (CSecretPurpose client))) (InvalidPurpose (CID client));;
    guard_err (bool_decide (CSecretPurpose client ∈ purposes)) (DuplicatePurpose (CSecretPurpose client));;
    Ok ({[CSecretPurpose client]} ∪ purposes).

Definition matchesProjection (client : Client) (group : string) : bool :=
  let '(type, integration, audience, mapping) := applicationContract (CApplication client) group in
  String.eqb (CType client) type && String.eqb (CIntegration client) integration &&
  Bool.eqb (CAudience client) audience && String.eqb (CAdministratorMapping client) mapping.

Definition checkClient (index : nat) (domain group : string) (client : Client) (s : clientState) : result contractError clientState :=
  guard_err (negb (identifierPattern (CID client))) (InvalidClientID index (CID client));;
  guard_err (bool_decide (is_Some (sByID s !! CID client))) (DuplicateClientID (CID client));;
  guard_err (negb (in_list (CApplication client) applications)) (UnsupportedApplication (CID client) (CApplication client));;
  guard_err (bool_decide (CApplication client ∈ sApplications s)) (DuplicateApplication (CApplication client));;
  checkHost (CID client) (CHost client) domain (sByHost s);;
  guard_err (negb (in_list (CType client) [PublicPKCE; Confidential])) (UnknownType (CID client) (CType client));;
  guard_err (negb (in_list (CIntegration client) [NativeOIDC; Authservice; FluxReconciliation]))
    (UnknownIntegration (CID client) (CIntegration client));;
  guard_err (negb (matchesProjection client group)) (ProjectionMismatch (CID client) (CApplication client));;
  guard_err (negb (in_list (CCategory client) categories)) (UnknownCategory (CID client) (CCategory client));;
  purposes ← checkPurpose client (sPurposes s);
  guard_err ((length (CCallbacks client) =? 0)%nat || String.eqb (CAdministratorMapping client) "") (MissingCallbacks (CID client));;
  callbacks ← checkCallbacks client (CCallbacks client) (sCallbacks s);
  Ok {| sByID := <[CID client := Z.of_nat index]> (sByID s); sByHost := <[CHost client := Z.of_nat index]> (sByHost s);
        sByApplication := <[CApplication client := Z.of_nat index]> (sByApplication s);
        sApplications := {[CApplication client]} ∪ sApplications s; sCallbacks := callbacks; sPurposes := purposes |}.

Fixpoint checkClients (index : nat) (domain group : string) (clients : list Client) (s : clientState) : result contractError clientState :=
  match clients with
  | [] => Ok s
  | client :: clients => s ← checkClient index domain group client s; checkClients (S index) domain group clients s
  end.

Fixpoint requireApplications (required : list string) (seen : gset string) : result contractError unit :=
  match required with
  | [] => Ok tt
  | a :: required => guard_err (bool_decide (a ∉ seen)) (MissingApplication a);; requireApplications required seen
  end.

Definition validate (c : contractFile) (canonical : string) : result contractError Contract :=
  guard_err (negb (String.eqb (FSchemaVersion c) SchemaVersion)) WrongSchema;;
  domain ← issuerDomain c;
  guard_err (negb (String.eqb (FGroupClaim c) "groups")) WrongGroupClaim;;
  scopes ← checkScopes (FScopes c) ∅;
  requireScopes requiredScopes scopes;;
  let admin := FAdministrator c in
  guard_err (negb (String.eqb (AdminUsername admin) "atum") || negb (String.eqb (AdminGroup admin) "atum-admins") ||
             negb (String.eqb (AdminServerRole admin) "admin")) WrongAdministrator;;
  byHost ← checkEndpoints 0 (FEndpoints c) domain ∅ ∅;
  s ← checkClients 0 domain (AdminGroup admin) (FClients c)
        {| sByID := ∅; sByHost := byHost; sByApplication := ∅; sApplications := ∅; sCallbacks := ∅; sPurposes := ∅ |};
  requireApplications applications (sApplications s);;
  Ok {| document := c; byID := sByID s; byHost := sByHost s; byApplication := sByApplication s;
        canonical := canonical |}.

(** ** Reading a document *)

(** One step of the YAML decoder: a document with what follows it, the end of
    the stream or a problem *)
Inductive yamlAnswer (A : Type) := Decoded (a : A) (rest : string) | EndOfStream | YamlProblem (e : string).
#[global] Arguments Decoded {A}. #[global] Arguments EndOfStream {A}. #[global] Arguments YamlProblem {A}.

(** [go.yaml.in/yaml]: the decoder that admits known fields only, the decoder
    of any document, and the encoder *)
Class Yaml :=
  { decodeContract : string -> yamlAnswer contractFile;
    decodeAny : string -> yamlAnswer unit;
    marshalContract : contractFile -> result string string }.

Inductive decodeError :=
  | DecodeProblem (e : string)
  | DecodeEndOfStream
  | MultipleDocuments
  | EncodeProblem (e : string)
  | ContractProblem (e : contractError).

Definition decode {Y : Yaml} (data : string) : result decodeError Contract :=
  match decodeContract data with
  | YamlProblem e => Err (DecodeProblem e)
  | EndOfStream => Err DecodeEndOfStream
  | Decoded decoded rest =>
      match decodeAny rest with
      | Decoded _ _ => Err MultipleDocuments
      | YamlProblem e => Err (DecodeProblem e)
      | EndOfStream =>
          canonical ← wrap_err EncodeProblem (marshalContract decoded);
          wrap_err ContractProblem (validate decoded canonical)
      end
  end.

(** ** Views *)

Definition clientAt (c : Contract) (index : option Z) : option Client :=
  i ← index; if (i <? 0)%Z then None else FClients (document c) !! Z.to_nat i.
Definition ClientByID (c : Contract) (id : string) : option Client := clientAt c (byID c !! id).
Definition ClientForApplication (c : Contract) (application : string) : option Client := clientAt c (byApplication c !! application).

(** [Domain]: [None] when slicing the host would panic *)
Definition Domain (c : Contract) : option string :=
  match Parse (FIssuer (document c)) with
  | None => Some ""
  | Some issuer =>
      if (String.length (Hostname issuer) <? String.length keycloakPrefix)%nat then None
      else Some (str_drop (String.length keycloakPrefix) (Hostname issuer))
  end.

End Validate.
End IdentityContract.
