(* ===== verification/IdentityDerive.v ===== *)
(** The secrets of the identity contract, [cli/identity/derive.go]: one seed is
    expanded with HKDF into a password per purpose, and the values are projected
    to Ansible, to Flux and to the operator.  HMAC, HKDF and the base64 codecs
    of Go's standard library are executable here; erasing what is no longer
    used is left out, as in [SecretValue]. *)
From stdpp Require Import prelude gmap strings list sorting.
From Stdlib Require Import Ascii ZArith Lia.
From S2P Require Import Prelude GoStrings Utf8 Sha256 Treehash Json Provider LocalAccess Vault SecretValue IdentityContract.

Module IdentityDerive.
Import Utf8 Sha256 Treehash Json Provider LocalAccess Vault SecretValue IdentityContract.

(** ** [crypto/hmac] and [crypto/hkdf] with SHA-256 *)

Definition to_bytes (l : list Z) : string := String.string_of_list_ascii ((fun b => ascii_of_N (Z.to_N b)) <$> l).

(** The key of one block: hashed when longer, then filled with zeros *)
Definition blockKey (key : string) : list Z :=
  let k := if (64 <? String.length key)%nat then Sum256 key else byte_list key in
  k ++ replicate (64 - length k) 0%Z.

Definition hmac (key message : string) : list Z :=
  let xored pad := to_bytes ((fun b => Z.lxor b pad) <$> blockKey key) in
  Sum256 (xored 92%Z +:+ to_bytes (Sum256 (xored 54%Z +:+ message))).

(** [hkdf.Extract] with no salt *)
Definition hkdfExtract (secret : string) : string := to_bytes (hmac (to_bytes (replicate 32 0%Z)) secret).

(** [hkdf.Expand]: [counter] is the number of the next block *)
Fixpoint hkdfBlocks (n : nat) (counter : Z) (prk previous info : string) : list Z :=
  match n with
  | O => []
  | S n =>
      let t := hmac prk (previous +:+ info +:+ to_bytes [counter]) in
      t ++ hkdfBlocks n (counter + 1) prk (to_bytes t) info
  end.

(** [hkdf.Key] without salt, for at most 255 blocks *)
Definition hkdfKey (secret info : string) (keyLength : nat) : string :=
  to_bytes (take keyLength (hkdfBlocks ((keyLength + 31) / 32) 1 (hkdfExtract secret) "" info)).

(** ** [encoding/base64] without padding *)

Definition base64Std : string := "ABCDEFGHIJKLMNOPQRSTUVWXYZabcdefghijklmnopqrstuvwxyz0123456789+/".
Definition base64URL : string := "ABCDEFGHIJKLMNOPQRSTUVWXYZabcdefghijklmnopqrstuvwxyz0123456789-_".

Definition digitOf (alphabet : string) (v : Z) : ascii := default "A"%char (String.get (Z.to_nat v) alphabet).
Definition valueOf (alphabet : string) (c : ascii) : option Z := Z.of_nat <$> IndexByte alphabet c.

Fixpoint encodeBase64 (alphabet : string) (data : list Z) : string :=
  let digit v := digitOf alphabet (Z.land v 63) in
  match data with
  | a :: b :: c :: rest =>
      let v := (a * 65536 + b * 256 + c)%Z in
      String (digit (Z.shiftr v 18)) (String (digit (Z.shiftr v 12)) (String (digit (Z.shiftr v 6)) (String (digit v)
        (encodeBase64 alphabet rest))))
  | [a; b] =>
      let v := (a * 65536 + b * 256)%Z in
      String (digit (Z.shiftr v 18)) (String (digit (Z.shiftr v 12)) (String (digit (Z.shiftr v 6)) ""))
  | [a] => let v := (a * 65536)%Z in String (digit (Z.shiftr v 18)) (String (digit (Z.shiftr v 12)) "")
  | [] => ""
  end.

(** Line ends are passed over, and the bits left in a last digit are not
    looked at. *)
Definition is_line_end (c : ascii) : bool := Ascii.eqb c "010" || Ascii.eqb c "013".
Fixpoint base64Digits (alphabet s : string) : option (list Z) :=
  match s with
  | "" => Some []
  | String c rest =>
      if is_line_end c then base64Digits alphabet rest
      else v ← valueOf alphabet c; l ← base64Digits alphabet rest; Some (v :: l)
  end.
Fixpoint base64Bytes (l : list Z) : option (list Z) :=
  match l with
  | a :: b :: c :: d :: rest =>
      let v := (a * 262144 + b * 4096 + c * 64 + d)%Z in
      out ← base64Bytes rest;
      Some (Z.shiftr v 16 :: Z.land (Z.shiftr v 8) 255 :: Z.land v 255 :: out)
  | [a; b; c] =>
      let v := (a * 262144 + b * 4096 + c * 64)%Z in Some [Z.shiftr v 16; Z.land (Z.shiftr v 8) 255]
  | [a; b] => let v := (a * 262144 + b * 4096)%Z in Some [Z.shiftr v 16]
  | [_] => None
  | [] => Some []
  end.
Definition decodeBase64 (alphabet s : string) : option (list Z) := base64Digits alphabet s ≫= base64Bytes.

(** ** Derivation *)

Definition seedSize : nat := 32.
Definition derivedSecretSize : nat := 32.
Definition identityProjectionLimit : Z := 65536.
Definition bootstrapPurpose : string := "atum.dev/identity/bootstrap/v1".
Definition adminPurpose : string := "atum.dev/identity/administrator/v1".
Definition clientPurpose : string := "atum.dev/identity/client/v1".

Record BootstrapProjection := { pValues : gmap string string; pDigest : string }.

Inductive deriveError :=
  | ContractRequired
  | InvalidSeed
  | ClusterAndDomainRequired
  | DerivePanic
  | ProjectionUnavailable
  | ProjectionError (e : valueError).

Definition nul : string := String "000" "".
Definition deriveInfo (purpose cluster domain client : string) : string :=
  purpose +:+ nul +:+ cluster +:+ nul +:+ domain +:+ nul +:+ client.
Definition derive (seed purpose cluster domain client : string) : string :=
  hkdfKey seed (deriveInfo purpose cluster domain client) derivedSecretSize.

Definition encodeRawURL (value : string) : string := encodeBase64 base64URL (byte_list value).

Definition clientSecretKey (id : string) : string :=
  str_map to_upper_byte (ReplaceByte "-" "_" id) +:+ "_CLIENT_SECRET".

Definition is_confidential (client : Client) : bool := String.eqb (CType client) Confidential.

Definition clientSecret (seed cluster domain : string) (client : Client) : string :=
  encodeRawURL (derive seed (clientPurpose +:+ "/" +:+ CSecretPurpose client) cluster domain (CID client)).

(** The loop over the clients *)
Fixpoint clientSecrets (seed cluster domain : string) (clients : list Client) (values : gmap string string) : gmap string string :=
  match clients with
  | [] => values
  | client :: clients =>
      clientSecrets seed cluster domain clients
        (if is_confidential client then <[clientSecretKey (CID client) := clientSecret seed cluster domain client]> values
         else values)
  end.

Definition fixedValues (c : contractFile) (seed cluster domain : string) : gmap string string :=
  let admin := FAdministrator c in
  <["ATUM_IDENTITY_BOOTSTRAP_PASSWORD" := encodeRawURL (derive seed bootstrapPurpose cluster domain "atum-bootstrap")]>
  (<["ATUM_IDENTITY_ADMIN_PASSWORD" := encodeRawURL (derive seed adminPurpose cluster domain (AdminUsername admin))]>
  (<["ATUM_IDENTITY_ADMIN_GROUP" := AdminGroup admin]>
  (<["ATUM_IDENTITY_ADMIN_USERNAME" := AdminUsername admin]>
  (<["ATUM_IDENTITY_ISSUER" := FIssuer c]>
  (<["ATUM_IDENTITY_DOMAIN" := domain]>
  (<["ATUM_IDENTITY_CLUSTER" := cluster]>
  (<["ATUM_IDENTITY_SCHEMA_VERSION" := FSchemaVersion c]> ∅))))))).

(** What the digest is taken of: the contract, then each key with the digest of
    its value *)
Fixpoint digestInput (keys : list string) (values : gmap string string) : string :=
  match keys with
  | [] => ""
  | key :: keys => nul +:+ key +:+ to_bytes (Sum256 (default "" (values !! key))) +:+ digestInput keys values
  end.
Definition projectionDigest (canonical : string) (values : gmap string string) : string :=
  hashBytes (canonical +:+ digestInput (sortedKeys values) values).

Section Derive.
Context {LI : Libraries}.

Definition Derive (contract : option Contract) (encodedSeed cluster domain : string) : result deriveError BootstrapProjection :=
  match contract with
  | None => Err ContractRequired
  | Some contract =>
      match decodeBase64 base64Std encodedSeed with
      | None => Err InvalidSeed
      | Some seedBytes =>
          if negb (length seedBytes =? seedSize)%nat then Err InvalidSeed
          else if String.eqb cluster "" || String.eqb domain "" then Err ClusterAndDomainRequired
          else match Domain contract with
          | None => Err DerivePanic
          | Some contractDomain =>
              if negb (String.eqb domain contractDomain) then Err ClusterAndDomainRequired
              else
                let seed := to_bytes seedBytes in
                let c := document contract in
                let values := clientSecrets seed cluster domain (FClients c) (fixedValues c seed cluster domain) in
                let digest := projectionDigest (canonical contract) values in
                Ok {| pValues := <["ATUM_IDENTITY_DIGEST" := digest]> values; pDigest := digest |}
          end
      end
  end.

(** ** Projections *)

(** [projection == nil || len(values) == 0 || len(digest) == 0] *)
Definition available (projection : option BootstrapProjection) : result deriveError BootstrapProjection :=
  match projection with
  | None => Err ProjectionUnavailable
  | Some p =>
      guard_err (bool_decide (pValues p = ∅) || String.eqb (pDigest p) "") ProjectionUnavailable;; Ok p
  end.

(** [order] and [labels] are the orders in which the maps are walked. *)
Definition MarshalAnsibleJSON (order : gmap string string -> list (string * string)) (projection : option BootstrapProjection) :=
  p ← available projection;
  wrap_err ProjectionError
    (MarshalProjection order "atum_platform_identity" (pValues p) "atum_platform_identity_digest" (pDigest p) identityProjectionLimit).

Definition MarshalKubernetesSecret labels (order : gmap string string -> list (string * string)) (projection : option BootstrapProjection) :=
  p ← available projection;
  wrap_err ProjectionError
    (marshalKubernetesSecret labels order "atum-platform-identity" "flux-system" "atum.dev/identity-digest" (pDigest p) (pValues p)
       identityProjectionLimit true false).

Definition operatorKey (key : string) : bool :=
  String.eqb key "ATUM_IDENTITY_ADMIN_USERNAME" || String.eqb key "ATUM_IDENTITY_ADMIN_PASSWORD" ||
  String.eqb key "ATUM_IDENTITY_BOOTSTRAP_PASSWORD" || HasSuffix key "_CLIENT_SECRET".
Definition operatorValues (p : BootstrapProjection) : gmap string string :=
  filter (fun kv => operatorKey kv.1 = true) (pValues p).

Definition MarshalOperatorSecret labels (order : gmap string string -> list (string * string)) (projection : option BootstrapProjection) :=
  p ← available projection;
  wrap_err ProjectionError
    (marshalKubernetesSecret labels order "atum-provider-credentials" "atum-system" "atum.dev/identity-digest" (pDigest p)
       (operatorValues p) identityProjectionLimit false false).

Definition Digest (projection : option BootstrapProjection) : string := from_option pDigest "" projection.
Definition AdministratorPassword (projection : option BootstrapProjection) : string :=
  match projection with None => "" | Some p => default "" (pValues p !! "ATUM_IDENTITY_ADMIN_PASSWORD") end.
End Derive.

(** RFC 5869, test case 3 *)
Example hkdf_vector :
  EncodeToString (byte_list (hkdfKey (to_bytes (replicate 22 11%Z)) "" 42)) =
  "8da4e775a563c18f715f802a063c5a31b8a11f5c5ee1879ec3454e5f3c738d2d9d201395faa4b61a96c8".
Proof. vm_compute. reflexivity. Qed.
End IdentityDerive.
