(* ===== verification/IdentityTheorems.v ===== *)
(** The identity contract: what [validate] admits, as one declarative
    predicate, and what the views of an admitted contract return. *)
From stdpp Require Import prelude gmap strings list sorting.
From Stdlib Require Import Ascii ZArith Lia.
From S2P Require Import Prelude GoStrings Utf8 Provider LocalAccess IdentityContract.

Module IdentityTheorems.
Import Utf8 Provider LocalAccess IdentityContract.

(** ** What a contract must say *)

(** A host name inside the domain, under a label of its own *)
Definition hostWithin (domain host : string) : Prop :=
  (String.length host <= 253)%nat /\ hostnamePattern host = true /\ exists sub, sub <> "" /\ host = sub +:+ "." +:+ domain.

Section WellFormed.
Context {LI : Libraries}.

Record issuerOf (f : contractFile) (domain : string) : Prop :=
  { issuer_realm : FRealm f = "master";
    issuer_domain : domain <> "";
    issuer_host : hostnamePattern ("keycloak." +:+ domain) = true /\ (String.length ("keycloak." +:+ domain) <= 253)%nat;
    issuer_url : exists u, Parse (FIssuer f) = Some u /\ Scheme u = "https" /\ Hostname u = "keycloak." +:+ domain /\
      UrlPath u = "/auth/realms/master" /\ RawQuery u = "" /\ Fragment u = "" /\ User u = None /\ Port u = "" }.

Definition callbackOf (client : Client) (callback : string) : Prop :=
  exists u, Parse callback = Some u /\ Scheme u = "https" /\ Hostname u = CHost client /\ User u = None /\
    RawQuery u = "" /\ Fragment u = "".

Record endpointOk (domain : string) (e : Endpoint) : Prop :=
  { endpoint_id : identifierPattern (EID e) = true;
    endpoint_host : hostWithin domain (EHost e);
    endpoint_category : ECategory e ∈ categories;
    endpoint_access : EAccess e ∈ accesses }.

(** A client is the projection its application asks for, and has a secret
    purpose exactly when it is confidential. *)
Record clientOk (domain group : string) (client : Client) : Prop :=
  { client_id : identifierPattern (CID client) = true;
    client_host : hostWithin domain (CHost client);
    client_projection :
      (CType client, CIntegration client, CAudience client, CAdministratorMapping client) =
      applicationContract (CApplication client) group;
    client_category : CCategory client ∈ categories;
    client_purpose : if String.eqb (CType client) PublicPKCE then CSecretPurpose client = ""
                     else identifierPattern (CSecretPurpose client) = true;
    client_callbacks : CCallbacks client <> [] /\ Forall (callbackOf client) (CCallbacks client) }.

Definition purposesOf (clients : list Client) : list string :=
  clients ≫= fun c => if String.eqb (CType c) PublicPKCE then [] else [CSecretPurpose c].

Record admitted (f : contractFile) (domain : string) : Prop :=
  { ad_schema : FSchemaVersion f = SchemaVersion;
    ad_issuer : issuerOf f domain;
    ad_claim : FGroupClaim f = "groups";
    ad_scopes : Forall (fun s => identifierPattern s = true) (FScopes f) /\ NoDup (FScopes f) /\ requiredScopes ⊆ FScopes f;
    ad_administrator : FAdministrator f = {| AdminUsername := "atum"; AdminGroup := "atum-admins"; AdminServerRole := "admin" |};
    ad_endpoints : Forall (endpointOk domain) (FEndpoints f) /\ NoDup (EID <$> FEndpoints f);
    ad_clients : Forall (clientOk domain (AdminGroup (FAdministrator f))) (FClients f) /\ NoDup (CID <$> FClients f);
    ad_hosts : NoDup ((EHost <$> FEndpoints f) ++ (CHost <$> FClients f));
    ad_applications : (CApplication <$> FClients f) ≡ₚ applications;
    ad_purposes : NoDup (purposesOf (FClients f));
    ad_callbacks : NoDup (FClients f ≫= CCallbacks) }.

(** ** The checks, one by one *)

(** The loops record what they saw in a set: the elements are pairwise distinct
    and were not in it before. *)
Definition fresh (l : list string) (seen : gset string) : Prop := NoDup l /\ forall x, x ∈ l -> x ∉ seen.

Lemma fresh_nil seen : fresh [] seen.
Proof. split; [constructor|set_solver]. Qed.

Lemma fresh_app l k seen : fresh (l ++ k) seen <-> fresh l seen /\ fresh k (list_to_set l ∪ seen).
Proof.
  unfold fresh. rewrite NoDup_app. setoid_rewrite elem_of_app. setoid_rewrite elem_of_union.
  setoid_rewrite elem_of_list_to_set. naive_solver.
Qed.

Lemma fresh_one x seen : fresh [x] seen <-> (x ∉ seen).
Proof. unfold fresh. split; [set_solver|]. split; [apply NoDup_singleton|set_solver]. Qed.

Lemma fresh_cons x l seen : fresh (x :: l) seen <-> (x ∉ seen) /\ fresh l ({[x]} ∪ seen).
Proof. rewrite (fresh_app [x] l), fresh_one. cbn. by rewrite (right_id_L ∅ (∪)). Qed.

Lemma list_to_set_cons_assoc x l (seen : gset string) : list_to_set (x :: l) ∪ seen = list_to_set l ∪ ({[x]} ∪ seen).
Proof. set_solver. Qed.

Lemma in_list_spec s l : in_list s l = true <-> (s ∈ l).
Proof.
  unfold in_list. rewrite existsb_exists. setoid_rewrite <- list_elem_of_In. setoid_rewrite String.eqb_eq. naive_solver.
Qed.

Lemma insideDomain_spec host domain : insideDomain host domain = true <-> exists sub, sub <> "" /\ host = sub +:+ "." +:+ domain.
Proof.
  unfold insideDomain. rewrite andb_true_iff, negb_true_iff, Nat.leb_gt, String.eqb_eq. split.
  - intros [Hl Heq]. exists (str_take (String.length host - String.length domain - 1) host). split.
    + intros H. apply (f_equal String.length) in H. rewrite str_length_take in H. change (String.length "") with O in H. lia.
    + rewrite <- Heq. by rewrite str_take_drop.
  - intros (sub & Hne & ->). rewrite !str_length_append. change (String.length ".") with 1%nat.
    destruct sub as [|c sub]; [done|]. change (String.length (String c sub)) with (S (String.length sub)).
    split; [lia|].
    replace (S (String.length sub) + (1 + String.length domain) - String.length domain - 1)%nat with (String.length (String c sub))
      by (change (String.length (String c sub)) with (S (String.length sub)); lia).
    apply str_drop_append.
Qed.

Lemma checkHost_ok id host domain m u :
  checkHost id host domain m = Ok u <-> (host  ∉ dom m) /\ hostWithin domain host.
Proof.
  unfold checkHost, hostWithin. rewrite !guard_bind_iff, guard_err_ok, bool_decide_eq_false, orb_false_iff, !negb_false_iff,
    Nat.ltb_ge, insideDomain_spec, elem_of_dom. naive_solver.
Qed.

Lemma checkScopes_ok scopes seen s :
  checkScopes scopes seen = Ok s <->
  Forall (fun s => identifierPattern s = true) scopes /\ fresh scopes seen /\ s = list_to_set scopes ∪ seen.
Proof.
  revert seen. induction scopes as [|x scopes IH]; intros seen; cbn [checkScopes].
  - pose proof (fresh_nil seen). cbn. rewrite (left_id_L ∅ (∪)), Forall_nil. naive_solver.
  - rewrite !guard_bind_iff, IH, negb_false_iff, bool_decide_eq_false, Forall_cons, fresh_cons, list_to_set_cons_assoc. tauto.
Qed.

Lemma requireScopes_ok required seen u : requireScopes required seen = Ok u <-> (forall x, x ∈ required -> x ∈ seen).
Proof.
  induction required as [|x required IH]; cbn [requireScopes].
  - destruct u. split; [set_solver|done].
  - rewrite guard_bind_iff, IH, bool_decide_eq_false. split.
    + intros [H1 H2]. apply dec_stable in H1. set_solver.
    + intros H. split; [|set_solver]. intros H'. apply H'. set_solver.
Qed.

Lemma requireApplications_ok required seen u : requireApplications required seen = Ok u <-> (forall x, x ∈ required -> x ∈ seen).
Proof.
  rewrite <- (requireScopes_ok required seen u).
  induction required as [|x required IH]; cbn [requireScopes requireApplications]; [done|]. by rewrite !guard_bind_iff, IH.
Qed.

Lemma checkEndpoints_ok index endpoints domain ids m0 m :
  checkEndpoints index endpoints domain ids m0 = Ok m ->
  Forall (endpointOk domain) endpoints /\ fresh (EID <$> endpoints) ids /\ fresh (EHost <$> endpoints) (dom m0) /\
  dom m = list_to_set (EHost <$> endpoints) ∪ dom m0.
Proof.
  revert index ids m0. induction endpoints as [|e endpoints IH]; intros index ids m0; cbn [checkEndpoints fmap list_fmap].
  - intros [= ->]. split_and!; [constructor|apply fresh_nil..|set_solver].
  - rewrite !guard_bind_iff, !bind_ok_iff. setoid_rewrite checkHost_ok. setoid_rewrite guard_bind_iff.
    setoid_rewrite guard_bind_iff. setoid_rewrite negb_false_iff. setoid_rewrite bool_decide_eq_false. setoid_rewrite in_list_spec.
    intros (H1 & H2 & _ & (H3 & H4) & H5 & H6 & (I1 & I2 & I3 & I4)%IH). rewrite dom_insert_L in I3, I4.
    rewrite !fresh_cons, list_to_set_cons_assoc. split_and!; try done. constructor; [by constructor|done].
Qed.

Lemma checkEndpoints_runs index endpoints domain ids m0 :
  Forall (endpointOk domain) endpoints -> fresh (EID <$> endpoints) ids -> fresh (EHost <$> endpoints) (dom m0) ->
  exists m, checkEndpoints index endpoints domain ids m0 = Ok m.
Proof.
  intros Hok. revert index ids m0. induction Hok as [|e endpoints [] Hok IH]; intros index ids m0; cbn [checkEndpoints fmap list_fmap]; [by eauto|].
  rewrite !fresh_cons. intros [H1 H2] [H3 H4].
  destruct (IH (S index) ({[EID e]} ∪ ids) (<[EHost e:=(- Z.of_nat index - 1)%Z]> m0)) as [m Hm]; [done|by rewrite dom_insert_L|].
  exists m. rewrite !guard_bind_iff, bind_ok_iff, negb_false_iff, bool_decide_eq_false. split_and!; [done..|]. exists tt.
  rewrite checkHost_ok, !guard_bind_iff, !negb_false_iff, !in_list_spec. done.
Qed.

Lemma checkCallbacks_ok client callbacks seen s :
  checkCallbacks client callbacks seen = Ok s <->
  Forall (callbackOf client) callbacks /\ fresh callbacks seen /\ s = list_to_set callbacks ∪ seen.
Proof.
  revert seen. induction callbacks as [|x callbacks IH]; intros seen; cbn [checkCallbacks].
  - pose proof (fresh_nil seen). cbn. rewrite (left_id_L ∅ (∪)), Forall_nil. naive_solver.
  - rewrite !guard_bind_iff, IH, bool_decide_eq_false, Forall_cons, fresh_cons, list_to_set_cons_assoc.
    match goal with |- ?b = false /\ _ <-> _ => assert (b = false <-> callbackOf client x) as -> end; [|tauto].
    unfold callbackOf. destruct (Parse x) as [u|]; [|naive_solver].
    rewrite !orb_false_iff, !negb_false_iff, !String.eqb_eq, bool_decide_eq_false, <- eq_None_not_Some. naive_solver.
Qed.

Definition purposeOf (client : Client) : list string := purposesOf [client].

Lemma checkPurpose_ok client purposes s :
  checkPurpose client purposes = Ok s <->
  (if String.eqb (CType client) PublicPKCE then CSecretPurpose client = "" else identifierPattern (CSecretPurpose client) = true) /\
  fresh (purposeOf client) purposes /\ s = list_to_set (purposeOf client) ∪ purposes.
Proof.
  unfold checkPurpose, purposeOf, purposesOf. cbn. destruct (String.eqb (CType client) PublicPKCE); cbn.
  - pose proof (fresh_nil purposes). rewrite guard_bind_iff, negb_false_iff, String.eqb_eq, (left_id_L ∅ (∪)). naive_solver.
  - rewrite !guard_bind_iff, negb_false_iff, bool_decide_eq_false, (right_id_L ∅ (∪)), fresh_one. naive_solver.
Qed.

(** The projection of a supported application names a known type and
    integration, and a mapping. *)
Lemma projection_known client group :
  CApplication client ∈ applications ->
  (CType client, CIntegration client, CAudience client, CAdministratorMapping client) = applicationContract (CApplication client) group ->
  in_list (CType client) [PublicPKCE; Confidential] = true /\
  in_list (CIntegration client) [NativeOIDC; Authservice; FluxReconciliation] = true /\ CAdministratorMapping client <> "".
Proof.
  intros Ha. repeat (apply elem_of_cons in Ha as [Ha|Ha]; [rewrite Ha; cbn; intros [= -> -> _ ->]; split_and!; done|]).
  by apply elem_of_nil in Ha.
Qed.

Lemma matchesProjection_ok client group :
  matchesProjection client group = true <->
  (CType client, CIntegration client, CAudience client, CAdministratorMapping client) = applicationContract (CApplication client) group.
Proof.
  unfold matchesProjection. destruct (applicationContract _ _) as [[[type integration] audience] mapping].
  rewrite !andb_true_iff, !String.eqb_eq, Bool.eqb_true_iff. naive_solver.
Qed.

(** ** The loop over the clients *)

Definition nextState (index : nat) (c : Client) (s : clientState) : clientState :=
  {| sByID := <[CID c := Z.of_nat index]> (sByID s); sByHost := <[CHost c := Z.of_nat index]> (sByHost s);
     sByApplication := <[CApplication c := Z.of_nat index]> (sByApplication s);
     sApplications := {[CApplication c]} ∪ sApplications s;
     sCallbacks := list_to_set (CCallbacks c) ∪ sCallbacks s; sPurposes := list_to_set (purposeOf c) ∪ sPurposes s |}.
Fixpoint nextStates (index : nat) (clients : list Client) (s : clientState) : clientState :=
  match clients with [] => s | c :: clients => nextStates (S index) clients (nextState index c s) end.

(** No two clients share a name, host, application, purpose or callback, and
    none of these was seen before. *)
Record unseen (s : clientState) (clients : list Client) : Prop :=
  { unseen_id : fresh (CID <$> clients) (dom (sByID s));
    unseen_host : fresh (CHost <$> clients) (dom (sByHost s));
    unseen_application : fresh (CApplication <$> clients) (sApplications s);
    unseen_purposes : fresh (purposesOf clients) (sPurposes s);
    unseen_callbacks : fresh (clients ≫= CCallbacks) (sCallbacks s) }.

Definition projected (domain group : string) (c : Client) : Prop := clientOk domain group c /\ CApplication c ∈ applications.

Lemma unseen_nil s : unseen s [].
Proof. constructor; apply fresh_nil. Qed.

Lemma unseen_cons index s c clients : unseen s (c :: clients) <-> unseen s [c] /\ unseen (nextState index c s) clients.
Proof.
  assert (purposesOf (c :: clients) = purposeOf c ++ purposesOf clients) as Hp.
  { unfold purposeOf, purposesOf. rewrite !bind_cons. cbn. by rewrite app_nil_r. }
  split.
  - intros [H1 H2 H3 H4 H5]. rewrite Hp in H4. cbn in H1, H2, H3, H5. rewrite fresh_cons in H1, H2, H3. rewrite fresh_app in H4, H5.
    split; constructor; cbn [fmap list_fmap mbind list_bind nextState sByID sByHost sApplications sPurposes sCallbacks];
      rewrite ?dom_insert_L, ?app_nil_r, ?fresh_one; by naive_solver.
  - intros [[H1 H2 H3 H4 H5] [I1 I2 I3 I4 I5]]. cbn in H1, H2, H3, H5, I1, I2, I3, I4, I5. rewrite fresh_one in H1, H2, H3.
    rewrite app_nil_r in H5. rewrite dom_insert_L in I1, I2.
    constructor; rewrite ?Hp; cbn [fmap list_fmap mbind list_bind]; rewrite ?fresh_app, ?fresh_cons; done.
Qed.

Lemma checkClient_ok index domain group c s s' :
  checkClient index domain group c s = Ok s' <-> projected domain group c /\ unseen s [c] /\ s' = nextState index c s.
Proof.
  unfold checkClient, projected. repeat first [rewrite guard_bind_iff | rewrite bind_ok_iff].
  setoid_rewrite checkHost_ok. setoid_rewrite guard_bind_iff. setoid_rewrite guard_bind_iff. setoid_rewrite guard_bind_iff.
  setoid_rewrite guard_bind_iff. setoid_rewrite bind_ok_iff. setoid_rewrite checkPurpose_ok. setoid_rewrite guard_bind_iff.
  setoid_rewrite bind_ok_iff. setoid_rewrite checkCallbacks_ok.
  setoid_rewrite negb_false_iff. setoid_rewrite bool_decide_eq_false. setoid_rewrite orb_false_iff. setoid_rewrite matchesProjection_ok.
  split.
  - intros (H1 & H2 & H3 & H4 & _ & (H5 & H6) & _ & _ & H9 & H10 & p & (H11 & H12 & ->) & (H13 & H14) & cb & (H15 & H17 & ->) & H18).
    apply Nat.eqb_neq in H13. apply in_list_spec in H3, H10. rewrite <- elem_of_dom in H2. split_and!.
    + constructor; try done. split; [|done]. by destruct (CCallbacks c).
    + done.
    + constructor; cbn [fmap list_fmap mbind list_bind]; rewrite ?fresh_one, ?app_nil_r; done.
    + injection H18 as <-. reflexivity.
  - intros ((Hok & Ha) & [U1 U2 U3 U4 U5] & ->). destruct Hok as [? ? ? ? ? [? ?]]. rewrite <- elem_of_dom.
    cbn in U1, U2, U3, U5. rewrite fresh_one in U1, U2, U3. rewrite app_nil_r in U5.
    destruct (projection_known c group Ha ltac:(done)) as (? & ? & ?).
    split_and!; [done|done|by apply in_list_spec|done|]. exists tt. split_and!; [done|done|done|done|done|by apply in_list_spec|].
    eexists. split; [split_and!; [done|done|reflexivity]|].
    split; [split; [by destruct (CCallbacks c)|by apply String.eqb_neq]|].
    eexists. split; [split_and!; [done|done|reflexivity]|]. reflexivity.
Qed.

Lemma checkClients_ok index domain group clients s s' :
  checkClients index domain group clients s = Ok s' <->
  Forall (projected domain group) clients /\ unseen s clients /\ s' = nextStates index clients s.
Proof.
  revert index s. induction clients as [|c clients IH]; intros index s; cbn [checkClients nextStates].
  - pose proof (unseen_nil s). rewrite Forall_nil. naive_solver.
  - rewrite bind_ok_iff, Forall_cons, (unseen_cons index). setoid_rewrite checkClient_ok. setoid_rewrite IH. naive_solver.
Qed.

Lemma nextStates_applications index clients s :
  sApplications (nextStates index clients s) = list_to_set (CApplication <$> clients) ∪ sApplications s.
Proof.
  revert index s. induction clients as [|c clients IH]; intros index s; cbn [nextStates]; [set_solver|].
  rewrite IH. cbn. set_solver.
Qed.

(** ** The indices *)

Fixpoint indexAll (key : Client -> string) (index : nat) (clients : list Client) (m : gmap string Z) : gmap string Z :=
  match clients with [] => m | c :: clients => indexAll key (S index) clients (<[key c := Z.of_nat index]> m) end.

Lemma nextStates_byID index clients s : sByID (nextStates index clients s) = indexAll CID index clients (sByID s).
Proof. revert index s. induction clients as [|c clients IH]; intros index s; cbn [nextStates indexAll]; [done|]. by rewrite IH. Qed.
Lemma nextStates_byApplication index clients s :
  sByApplication (nextStates index clients s) = indexAll CApplication index clients (sByApplication s).
Proof. revert index s. induction clients as [|c clients IH]; intros index s; cbn [nextStates indexAll]; [done|]. by rewrite IH. Qed.

Lemma indexAll_other key index clients m k : k ∉ key <$> clients -> indexAll key index clients m !! k = m !! k.
Proof.
  revert index m. induction clients as [|c clients IH]; intros index m; cbn [indexAll]; [done|].
  rewrite fmap_cons, not_elem_of_cons. intros [H1 H2]. rewrite IH by done. by rewrite lookup_insert_ne.
Qed.

Lemma indexAll_lookup key index clients m i c :
  NoDup (key <$> clients) -> clients !! i = Some c -> indexAll key index clients m !! key c = Some (Z.of_nat (index + i)).
Proof.
  revert index m i. induction clients as [|c' clients IH]; intros index m i; [done|]. rewrite fmap_cons, NoDup_cons.
  cbn [indexAll]. intros [H1 H2]. destruct i as [|i]; cbn [lookup list_lookup].
  - intros [= ->]. rewrite indexAll_other, lookup_insert_eq by done. do 2 f_equal. lia.
  - intros Hc. rewrite (IH (S index) _ i) by done. do 2 f_equal. lia.
Qed.

(** Looking a key up finds the one client that has it. *)
Lemma clientAt_ok c key k client :
  NoDup (key <$> FClients (document c)) ->
  clientAt c (indexAll key 0 (FClients (document c)) ∅ !! k) = Some client <-> client ∈ FClients (document c) /\ key client = k.
Proof.
  intros Hn. set (l := FClients (document c)) in *. unfold clientAt. fold l. split.
  - destruct (decide (k ∈ key <$> l)) as [(c' & -> & [i Hi]%list_elem_of_lookup)%list_elem_of_fmap|Hk].
    + rewrite (indexAll_lookup _ _ _ _ i) by done. cbn [mbind option_bind Nat.add].
      rewrite (proj2 (Z.ltb_ge _ _)), Nat2Z.id, Hi by lia. intros [= ->]. split; [by eapply list_elem_of_lookup_2|done].
    + by rewrite indexAll_other.
  - intros [[i Hi]%list_elem_of_lookup <-]. rewrite (indexAll_lookup _ _ _ _ i) by done. cbn [mbind option_bind Nat.add].
    by rewrite (proj2 (Z.ltb_ge _ _)), Nat2Z.id by lia.
Qed.

(** ** The issuer *)

Lemma hostname_nonempty_tail domain : hostnamePattern ("keycloak." +:+ domain) = true -> domain <> "".
Proof. intros H ->. discriminate. Qed.

Lemma issuerDomain_ok f domain : issuerDomain f = Ok domain <-> issuerOf f domain.
Proof.
  unfold issuerDomain. split.
  - destruct (Parse (FIssuer f)) as [u|] eqn:Hu; [|done]. case_match eqn:Hb; [done|]. intros [= Hdom].
    rewrite !orb_false_iff, !negb_false_iff, !String.eqb_eq, bool_decide_eq_false, <- eq_None_not_Some, Nat.leb_gt, Nat.ltb_ge in Hb.
    destruct Hb as ((((((((((? & ?) & ?) & ?) & ?) & ?) & ?) & ?) & ?) & ?) & Hp).
    assert (Hostname u = "keycloak." +:+ domain) as Heq.
    { change "keycloak." with keycloakPrefix. rewrite <- Hp, <- Hdom. symmetry. apply str_take_drop. }
    rewrite Heq in *. constructor; [done|by apply hostname_nonempty_tail|done|exists u; done].
  - intros [Hr Hd [Hh Hl] (u & -> & Hs & Hn & Hrest)]. rewrite Hn. destruct Hrest as (-> & -> & -> & -> & ->).
    change "keycloak." with keycloakPrefix in *. rewrite str_take_append, str_drop_append, Hr, Hs, Hh.
    rewrite (proj2 (Nat.leb_gt _ _)), (proj2 (Nat.ltb_ge _ _)) by (rewrite ?str_length_append in *; destruct domain; [done|cbn in *; lia]).
    reflexivity.
Qed.

Lemma applications_NoDup : NoDup applications.
Proof. by apply (bool_decide_eq_true_1 (NoDup applications)). Qed.

(** The declared applications are the supported ones, each once. *)
Lemma applications_permutation clients :
  NoDup (CApplication <$> clients) /\ Forall (fun c => CApplication c ∈ applications) clients /\
  (forall a, a ∈ applications -> a ∈ CApplication <$> clients) <->
  (CApplication <$> clients) ≡ₚ applications.
Proof.
  split.
  - intros (H1 & H2 & H3). apply NoDup_Permutation; [done|apply applications_NoDup|]. intros a. split; [|auto].
    rewrite list_elem_of_fmap. intros (c & -> & Hc). by eapply Forall_forall in H2.
  - intros Hp. split_and!.
    + rewrite Hp. apply applications_NoDup.
    + apply Forall_forall. intros c Hc. rewrite <- Hp. by apply list_elem_of_fmap_2.
    + intros a. by rewrite Hp.
Qed.

(** ** The whole check *)

Definition noClients (hosts : gmap string Z) : clientState :=
  {| sByID := ∅; sByHost := hosts; sByApplication := ∅; sApplications := ∅; sCallbacks := ∅; sPurposes := ∅ |}.

Lemma fresh_empty l : fresh l ∅ <-> NoDup l.
Proof. unfold fresh. set_solver. Qed.

Lemma unseen_start hosts clients :
  unseen (noClients hosts) clients <->
  NoDup (CID <$> clients) /\ fresh (CHost <$> clients) (dom hosts) /\ NoDup (CApplication <$> clients) /\
  NoDup (purposesOf clients) /\ NoDup (clients ≫= CCallbacks).
Proof.
  split.
  - intros [H1 H2 H3 H4 H5]. cbn in *. rewrite ?dom_empty_L, fresh_empty in *. done.
  - intros (H1 & H2 & H3 & H4 & H5). constructor; cbn; rewrite ?dom_empty_L, ?fresh_empty; done.
Qed.

Lemma hosts_fresh f (hosts : gmap string Z) : dom hosts =@{gset string} list_to_set (EHost <$> FEndpoints f) ∪ ∅ ->
  NoDup (EHost <$> FEndpoints f) /\ fresh (CHost <$> FClients f) (dom hosts) <->
  NoDup ((EHost <$> FEndpoints f) ++ (CHost <$> FClients f)).
Proof. intros ->. by rewrite <- !fresh_empty, fresh_app. Qed.

Lemma administrator_ok a :
  negb (String.eqb (AdminUsername a) "atum") || negb (String.eqb (AdminGroup a) "atum-admins") ||
  negb (String.eqb (AdminServerRole a) "admin") = false <->
  a = {| AdminUsername := "atum"; AdminGroup := "atum-admins"; AdminServerRole := "admin" |}.
Proof. rewrite !orb_false_iff, !negb_false_iff, !String.eqb_eq. destruct a; naive_solver. Qed.

Lemma validate_sound f bytes c :
  validate f bytes = Ok c ->
  exists domain hosts, admitted f domain /\
    let s := nextStates 0 (FClients f) (noClients hosts) in
    c = {| document := f; byID := sByID s; byHost := sByHost s; byApplication := sByApplication s; canonical := bytes |}.
Proof.
  unfold validate. rewrite guard_bind_iff, bind_ok_iff. intros (H1 & domain & H2 & H). rewrite guard_bind_iff, bind_ok_iff in H.
  destruct H as (H3 & scopes & H4 & H). rewrite bind_ok_iff in H. destruct H as (u & H5 & H). cbv zeta in H.
  rewrite guard_bind_iff, administrator_ok, bind_ok_iff in H. destruct H as (H6 & hosts & H7 & H). rewrite bind_ok_iff in H.
  destruct H as (s & H8 & H). rewrite bind_ok_iff in H. destruct H as (u' & H9 & [= <-]).
  apply negb_false_iff, String.eqb_eq in H1, H3. apply issuerDomain_ok in H2. apply checkScopes_ok in H4 as (S1 & S2 & ->).
  rewrite requireScopes_ok in H5. apply checkEndpoints_ok in H7 as (E1 & E2 & E3 & E4). rewrite dom_empty_L in *.
  change (checkClients 0 domain (AdminGroup (FAdministrator f)) (FClients f) (noClients hosts) = Ok s) in H8.
  apply checkClients_ok in H8 as (C1 & C2 & ->). apply unseen_start in C2 as (U1 & U2 & U3 & U4 & U5).
  rewrite requireApplications_ok, nextStates_applications in H9. rewrite fresh_empty in *.
  exists domain, hosts. split; [|done]. constructor; try done.
  - split_and!; [done..|]. intros x Hx. specialize (H5 x Hx). set_solver.
  - split; [|done]. eapply Forall_impl; [exact C1|]. by intros ? [].
  - by eapply hosts_fresh.
  - apply applications_permutation. split_and!; [done| |].
    + eapply Forall_impl; [exact C1|]. by intros ? [].
    + intros a Ha. specialize (H9 a Ha). set_solver.
Qed.

Lemma validate_complete f domain bytes : admitted f domain -> exists c, validate f bytes = Ok c.
Proof.
  intros [A1 A2 A3 (S1 & S2 & S3) A5 (E1 & E2) (C1 & C2) A8 A9 A10 A11].
  apply applications_permutation in A9 as (P1 & P2 & P3).
  destruct (checkEndpoints_runs 0 (FEndpoints f) domain ∅ ∅ E1) as [hosts Hh].
  { by apply fresh_empty. } { rewrite dom_empty_L. apply fresh_empty. by apply NoDup_app in A8 as []. }
  pose proof (checkEndpoints_ok _ _ _ _ _ _ Hh) as (_ & _ & _ & Hd). rewrite dom_empty_L in Hd.
  assert (checkClients 0 domain (AdminGroup (FAdministrator f)) (FClients f) (noClients hosts) =
          Ok (nextStates 0 (FClients f) (noClients hosts))) as Hc.
  { apply checkClients_ok. split_and!; [|apply unseen_start; split_and!; try done; by apply (hosts_fresh f hosts Hd)|done].
    apply Forall_forall. intros x Hx. rewrite Forall_forall in C1, P2. split; auto. }
  eexists. unfold validate. rewrite guard_bind_iff, A1. split; [done|]. apply bind_ok_iff. exists domain.
  split; [by apply issuerDomain_ok|]. rewrite guard_bind_iff, A3. split; [done|]. apply bind_ok_iff. eexists. split.
  { apply checkScopes_ok. split_and!; [done|by apply fresh_empty|reflexivity]. }
  apply bind_ok_iff. exists tt. split; [apply requireScopes_ok; intros x Hx; apply S3 in Hx; set_solver|]. cbv zeta.
  rewrite guard_bind_iff, administrator_ok. split; [done|]. apply bind_ok_iff. exists hosts. split; [exact Hh|].
  apply bind_ok_iff. eexists. split; [exact Hc|]. apply bind_ok_iff. exists tt. split; [|reflexivity].
  apply requireApplications_ok. intros a Ha. rewrite nextStates_applications. apply P3 in Ha. set_solver.
Qed.

Lemma issuer_Domain f domain c : issuerOf f domain -> document c = f -> Domain c = Some domain.
Proof.
  intros [_ _ _ (u & Hu & _ & Hn & _)] <-. unfold Domain. rewrite Hu, Hn. rewrite (proj2 (Nat.ltb_ge _ _)).
  - change "keycloak." with keycloakPrefix. by rewrite str_drop_append.
  - rewrite str_length_append. change (String.length "keycloak.") with (String.length keycloakPrefix). lia.
Qed.

(** C17. The identity contract is admitted exactly when it is the declared one:
    schema, issuer and administrator are the fixed ones, identifiers, hosts,
    purposes and callbacks are well formed and pairwise distinct, every host
    lies below the issuer's domain, every client is the projection its
    application asks for, and the applications are the supported ones, each
    once.  The views of an admitted contract find exactly the client asked for,
    and its domain is the issuer's. *)
Theorem contract_admitted f bytes :
  (is_ok (validate f bytes) = true <-> exists domain, admitted f domain) /\
  (forall c, validate f bytes = Ok c ->
     document c = f /\ canonical c = bytes /\
     (exists domain, admitted f domain /\ Domain c = Some domain) /\
     (forall id client, ClientByID c id = Some client <-> client ∈ FClients f /\ CID client = id) /\
     (forall a client, ClientForApplication c a = Some client <-> client ∈ FClients f /\ CApplication client = a) /\
     (forall a, is_Some (ClientForApplication c a) <-> a ∈ applications)).
Proof.
  split.
  - split.
    + destruct (validate f bytes) as [c|] eqn:H; [|done]. intros _.
      apply validate_sound in H as (domain & _ & H & _). by exists domain.
    + intros (domain & H). by destruct (validate_complete f domain bytes H) as [c ->].
  - intros c (domain & hosts & Ha & ->)%validate_sound. cbn [document canonical].
    match goal with |- context [ClientForApplication ?c _] => set (contract := c) end.
    assert (forall a client, ClientForApplication contract a = Some client <-> client ∈ FClients f /\ CApplication client = a) as Happ.
    { intros a client. unfold ClientForApplication. cbn [contract byApplication]. rewrite nextStates_byApplication.
      apply (clientAt_ok contract CApplication). cbn [contract document]. rewrite (ad_applications _ _ Ha). apply applications_NoDup. }
    split_and!; [done|done| | |exact Happ|].
    + exists domain. split; [done|]. eapply issuer_Domain; [apply Ha|done].
    + intros id client. unfold ClientByID. cbn [contract byID]. rewrite nextStates_byID. apply (clientAt_ok contract CID). apply Ha.
    + intros a. rewrite <- (ad_applications _ _ Ha), list_elem_of_fmap. split.
      * intros [client (? & ?)%Happ]. eauto.
      * intros (client & -> & Hc). exists client. by apply Happ.
Qed.
End WellFormed.

(** ** The contract of the local profile *)

(** URLs with a host and a path only *)
Definition parsePlain (s : string) : option URL :=
  if HasPrefix s "https://" then
    let rest := TrimPrefix s "https://" in
    let n := default (String.length rest) (IndexByte rest "/") in
    Some {| Scheme := "https"; Hostname := str_take n rest; Port := ""; User := None; RawQuery := ""; Fragment := "";
            UrlPath := str_drop n rest |}
  else None.
Definition plainLibraries : Libraries := {| Parse := parsePlain; AppendCertsFromPEM _ := true; IsPrint _ := false |}.

Definition client id application type host category integration purpose callback mapping audience : Client :=
  {| CID := id; CApplication := application; CType := type; CHost := host; CCategory := category; CIntegration := integration;
     CSecretPurpose := purpose; CCallbacks := [callback]; CAdministratorMapping := mapping; CAudience := audience |}.
Definition localProfile : contractFile :=
  {| FSchemaVersion := SchemaVersion; FRealm := "master"; FIssuer := "https://keycloak.atum.test/auth/realms/master";
     FScopes := requiredScopes; FGroupClaim := "groups";
     FAdministrator := {| AdminUsername := "atum"; AdminGroup := "atum-admins"; AdminServerRole := "admin" |};
     FEndpoints :=
       [{| EID := "keycloak"; EHost := "keycloak.atum.test"; ECategory := "identity"; EAccess := "browser" |};
        {| EID := "gitlab-kas"; EHost := "kas.atum.test"; ECategory := "development"; EAccess := "token" |};
        {| EID := "gitlab-registry"; EHost := "registry.atum.test"; ECategory := "development"; EAccess := "token" |}];
     FClients :=
    [client "atum-headlamp" "headlamp" PublicPKCE "headlamp.atum.test" "development" NativeOIDC
       "" "https://headlamp.atum.test/oidc-callback" "oidc:atum-admins=cluster-admin" true;
     client "atum-kiali" "kiali" Confidential "kiali.atum.test" "observability" NativeOIDC
       "kiali" "https://kiali.atum.test/kiali" "authenticated-cluster-admin" true;
     client "atum-grafana" "grafana" Confidential "grafana.atum.test" "observability" NativeOIDC
       "grafana" "https://grafana.atum.test/login/generic_oauth" "Admin" false;
     client "atum-gitlab" "gitlab" Confidential "gitlab.atum.test" "development" NativeOIDC
       "gitlab" "https://gitlab.atum.test/users/auth/openid_connect/callback" "adminGroups" false;
     client "atum-policy-reporter" "policy-reporter" Confidential "policy.atum.test" "observability" NativeOIDC
       "policy-reporter" "https://policy.atum.test/callback" "authenticated-ui-admin" false;
     client "atum-harbor" "harbor" Confidential "harbor.atum.test" "development" NativeOIDC
       "harbor" "https://harbor.atum.test/c/oidc/callback" "oidc-admin-group" false;
     client "atum-vault" "vault" Confidential "vault.atum.test" "identity" FluxReconciliation
       "vault" "https://vault.atum.test/ui/vault/auth/oidc/oidc/callback" "administrator-policy" false;
     client "atum-prometheus" "prometheus" Confidential "prometheus.atum.test" "observability" Authservice
       "prometheus" "https://prometheus.atum.test/oauth2/callback" "authenticated" false;
     client "atum-alertmanager" "alertmanager" Confidential "alertmanager.atum.test" "observability" Authservice
       "alertmanager" "https://alertmanager.atum.test/oauth2/callback" "authenticated" false;
     client "atum-opensearch" "opensearch" Confidential "opensearch.atum.test" "observability" Authservice
       "opensearch" "https://opensearch.atum.test/oauth2/callback" "authenticated" false] |}.

Example local_profile_admitted : is_ok (@validate plainLibraries localProfile "") = true.
Proof. vm_compute. reflexivity. Qed.

Lemma contract_admitted_witness : exists domain, @admitted plainLibraries localProfile domain.
Proof. apply (proj1 (@contract_admitted plainLibraries localProfile "")). exact local_profile_admitted. Defined.
End IdentityTheorems.
