(* ===== verification/IdentitySecrets.v ===== *)
(** The derived identity secrets: the codecs are inverse, every secret has its
    own derivation input and its own key, and the operator's Secret holds what
    the operator looks up. *)
From stdpp Require Import prelude gmap strings list sorting.
From Stdlib Require Import Ascii ZArith Lia.
From S2P Require Import Prelude GoStrings Utf8 Sha256 Treehash Json Provider LocalAccess Vault SecretValue SecretTheorems IdentityContract IdentityDerive IdentityTheorems.

Module IdentitySecrets.
Import Utf8 Sha256 Treehash Json Provider LocalAccess Vault SecretValue SecretTheorems IdentityContract IdentityDerive IdentityTheorems.

(** ** Bytes *)

Definition is_byte (b : Z) : Prop := (0 <= b <= 255)%Z.

Lemma byte_list_to_bytes l : Forall is_byte l -> byte_list (to_bytes l) = l.
Proof.
  unfold byte_list, to_bytes. rewrite String.list_ascii_of_string_of_list_ascii.
  induction 1 as [|b l Hb Hl IH]; cbn [fmap list_fmap]; [done|]. unfold is_byte in Hb. rewrite IH, N_ascii_embedding by lia. f_equal. lia.
Qed.

Lemma to_bytes_byte_list s : to_bytes (byte_list s) = s.
Proof.
  unfold byte_list, to_bytes. induction s as [|c s IH]; [done|]. cbn [String.list_ascii_of_string fmap list_fmap String.string_of_list_ascii].
  by rewrite IH, N2Z.id, ascii_N_embedding.
Qed.

Lemma byte_list_bytes s : Forall is_byte (byte_list s).
Proof.
  unfold byte_list. apply Forall_fmap, Forall_forall. intros c _. cbn. unfold is_byte. pose proof (N_ascii_bounded c). lia.
Qed.

Lemma length_to_bytes l : String.length (to_bytes l) = length l.
Proof. unfold to_bytes. induction l as [|b l IH]; [done|]. cbn. by rewrite <- IH. Qed.

Lemma length_byte_list s : length (byte_list s) = String.length s.
Proof. unfold byte_list. rewrite length_fmap. induction s as [|c s IH]; [done|]. cbn. by rewrite IH. Qed.

Lemma Sum256_shape s : length (Sum256 s) = 32%nat /\ Forall is_byte (Sum256 s).
Proof.
  unfold Sum256. match goal with |- length (concat (_ <$> ?ws)) = _ /\ _ => destruct (concat_be_bytes ws) as [Hl Hr] end.
  split; [|done]. by rewrite Hl, length_blocks.
Qed.

Lemma hkdf_length seed info : String.length (hkdfKey seed info 32) = 32%nat.
Proof.
  unfold hkdfKey. change ((32 + 31) / 32)%nat with 1%nat. cbn [hkdfBlocks].
  rewrite length_to_bytes, app_nil_r. unfold hmac. rewrite length_take. by rewrite (proj1 (Sum256_shape _)).
Qed.

#[local] Opaque hkdfKey.

Lemma derive_hkdf seed purpose cluster domain client :
  derive seed purpose cluster domain client = hkdfKey seed (deriveInfo purpose cluster domain client) 32.
Proof. reflexivity. Qed.

Lemma CredentialKey_eq : CredentialKey = clientSecretKey.
Proof. reflexivity. Qed.

(** ** Base64 *)

Definition goodAlphabet (alphabet : string) : bool :=
  forallb (fun v => bool_decide (valueOf alphabet (digitOf alphabet v) = Some v) && negb (is_line_end (digitOf alphabet v))) (seqZ 0 64).

Lemma alphabets_good : goodAlphabet base64Std = true /\ goodAlphabet base64URL = true.
Proof. split; vm_compute; reflexivity. Qed.

Lemma base64_digit_value alphabet v : goodAlphabet alphabet = true -> (0 <= v < 64)%Z ->
  valueOf alphabet (digitOf alphabet v) = Some v /\ is_line_end (digitOf alphabet v) = false.
Proof.
  unfold goodAlphabet. rewrite forallb_forall. intros H Hv.
  specialize (H v ltac:(by apply list_elem_of_In, elem_of_seqZ; lia)). by reflect_bool.
Qed.

Lemma base64Digits_digit alphabet v s : goodAlphabet alphabet = true ->
  base64Digits alphabet (String (digitOf alphabet (Z.land v 63)) s) = (l ← base64Digits alphabet s; Some (Z.land v 63 :: l)).
Proof.
  intros Ha. destruct (base64_digit_value alphabet (Z.land v 63) Ha) as [H1 H2].
  { exact (land_ones_range v 6 ltac:(done)). }
  cbn [base64Digits]. by rewrite H2, H1.
Qed.

(** The bytes of a group from its digits *)
Ltac group_bytes :=
  unfold is_byte in *; rewrite ?Z.shiftr_div_pow2 by done; change 63%Z with (Z.ones 6); change 255%Z with (Z.ones 8);
  rewrite ?Z.land_ones by done;
  change (2 ^ 6)%Z with 64%Z; change (2 ^ 8)%Z with 256%Z; change (2 ^ 12)%Z with 4096%Z; change (2 ^ 16)%Z with 65536%Z;
  change (2 ^ 18)%Z with 262144%Z; Z.div_mod_to_equations; lia.

Lemma three_induction {A} (P : list A -> Prop) :
  P [] -> (forall a, P [a]) -> (forall a b, P [a; b]) -> (forall a b c l, P l -> P (a :: b :: c :: l)) -> forall l, P l.
Proof.
  intros H0 H1 H2 H3 l. induction l as [l IH] using (induction_ltof1 _ length).
  destruct l as [|a [|b [|c l]]]; auto. apply H3, IH. unfold ltof. cbn. lia.
Qed.

Lemma base64_roundtrip alphabet l : goodAlphabet alphabet = true -> Forall is_byte l ->
  decodeBase64 alphabet (encodeBase64 alphabet l) = Some l.
Proof.
  intros Ha. unfold decodeBase64. induction l as [|a|a b|a b c l IH] using three_induction; intros Hl; [done|..];
    repeat match goal with H : Forall _ (_ :: _) |- _ => apply Forall_cons in H as [? H] end;
    cbn [encodeBase64]; rewrite !base64Digits_digit by done.
  - cbn [base64Digits mbind option_bind base64Bytes]. do 2 f_equal. group_bytes.
  - cbn [base64Digits mbind option_bind base64Bytes]. f_equal. f_equal; [group_bytes|f_equal; group_bytes].
  - specialize (IH Hl). destruct (base64Digits alphabet (encodeBase64 alphabet l)) as [digits|]; [|done].
    cbn [mbind option_bind base64Bytes] in *. rewrite IH. cbn [mbind option_bind].
    f_equal. f_equal; [group_bytes|f_equal; [group_bytes|f_equal; group_bytes]].
Qed.

Lemma length_encodeBase64 alphabet l : (length l <= String.length (encodeBase64 alphabet l))%nat.
Proof. induction l as [| | |a b c l IH] using three_induction; cbn [encodeBase64 String.length length]; lia. Qed.

Lemma encodeRawURL_inj a b : encodeRawURL a = encodeRawURL b -> a = b.
Proof.
  intros H. apply (f_equal (decodeBase64 base64URL)) in H. unfold encodeRawURL in H.
  rewrite !base64_roundtrip in H by (apply alphabets_good || apply byte_list_bytes). injection H as H.
  rewrite <- (to_bytes_byte_list a), H. apply to_bytes_byte_list.
Qed.

Lemma encodeRawURL_nonempty s : s <> "" -> encodeRawURL s <> "".
Proof.
  intros Hs H. apply (f_equal String.length) in H. unfold encodeRawURL in H.
  pose proof (length_encodeBase64 base64URL (byte_list s)) as Hl. rewrite length_byte_list in Hl. destruct s; [done|].
  cbn [String.length] in *. lia.
Qed.

(** ** Keys *)

Definition key_byte (c : ascii) : ascii := to_upper_byte (if Ascii.eqb c "-" then "_"%char else c).
Definition id_byte (c : ascii) : ascii :=
  if Ascii.eqb c "_" then "-"%char else if is_upper c then ascii_of_N (N_of_ascii c + 32) else c.

Lemma id_key_byte c : is_ldh c = true -> id_byte (key_byte c) = c /\ in_range " " "~" (key_byte c) = true.
Proof. destruct c as [[] [] [] [] [] [] [] []]; vm_compute; done. Qed.

Lemma clientSecretKey_bytes id : clientSecretKey id = str_map key_byte id +:+ "_CLIENT_SECRET".
Proof.
  unfold clientSecretKey, ReplaceByte. f_equal. induction id as [|c id IH]; [done|]. cbn [str_map]. by rewrite IH.
Qed.

Lemma identifier_ldh id : identifierPattern id = true -> str_forallb is_ldh id = true.
Proof.
  destruct id as [|c id]; [done|]. cbn [identifierPattern str_forallb]. intros [Hc Hid]%andb_true_iff.
  rewrite Hid. unfold is_ldh. by rewrite Hc.
Qed.

Lemma str_map_id_key id : str_forallb is_ldh id = true -> str_map id_byte (str_map key_byte id) = id.
Proof.
  induction id as [|c id IH]; [done|]. cbn [str_forallb str_map]. intros H. reflect_bool.
  rewrite (proj1 (id_key_byte c H)). by rewrite IH.
Qed.

Lemma clientSecretKey_inj a b :
  identifierPattern a = true -> identifierPattern b = true -> clientSecretKey a = clientSecretKey b -> a = b.
Proof.
  intros Ha%identifier_ldh Hb%identifier_ldh. rewrite !clientSecretKey_bytes. intros H.
  apply (f_equal (fun s => TrimSuffix s "_CLIENT_SECRET")) in H. rewrite !TrimSuffix_append in H.
  rewrite <- (str_map_id_key a), <- (str_map_id_key b) by done. by rewrite H.
Qed.

Lemma clientSecretKey_plain id : identifierPattern id = true -> plain (clientSecretKey id) = true.
Proof.
  intros H%identifier_ldh. rewrite clientSecretKey_bytes. unfold plain. rewrite str_forallb_append, andb_true_iff. split; [|done].
  induction id as [|c id IH]; [done|]. cbn [str_forallb str_map] in *. reflect_bool. by rewrite (proj2 (id_key_byte c H)), IH.
Qed.

Lemma clientSecretKey_suffix id : HasSuffix (clientSecretKey id) "_CLIENT_SECRET" = true.
Proof. apply HasSuffix_true. by eexists. Qed.

(** ** The derivation inputs *)

Definition no_nul (s : string) : Prop := IndexByte s "000" = None.

Lemma nul_split a b s t : no_nul a -> no_nul b -> a +:+ nul +:+ s = b +:+ nul +:+ t -> a = b /\ s = t.
Proof.
  unfold no_nul, nul. intros Ha Hb H.
  pose proof (Split_append_sep a s "000" Ha) as H1. pose proof (Split_append_sep b t "000" Hb) as H2.
  change (String "000" "" +:+ s) with (String "000" s) in *. change (String "000" "" +:+ t) with (String "000" t) in *.
  rewrite H in H1. rewrite H1 in H2. injection H2 as -> H2. split; [done|].
  by rewrite <- (Join_Split s "000"), H2, Join_Split.
Qed.

(** Without zero bytes in the cluster and the domain, the input determines what
    it was made for. *)
Lemma deriveInfo_inj p1 c1 d1 n1 p2 c2 d2 n2 :
  no_nul p1 -> no_nul p2 -> no_nul c1 -> no_nul c2 -> no_nul d1 -> no_nul d2 ->
  deriveInfo p1 c1 d1 n1 = deriveInfo p2 c2 d2 n2 -> p1 = p2 /\ c1 = c2 /\ d1 = d2 /\ n1 = n2.
Proof. unfold deriveInfo. intros ? ? ? ? ? ? H. do 3 (apply nul_split in H as [-> H]; [|done..]). done. Qed.

(** Under one cluster and domain, the purpose alone tells two inputs apart. *)
Lemma deriveInfo_purpose p1 p2 cluster domain n1 n2 :
  no_nul p1 -> no_nul p2 -> deriveInfo p1 cluster domain n1 = deriveInfo p2 cluster domain n2 -> p1 = p2.
Proof. unfold deriveInfo. intros ? ? H. by apply nul_split in H as [-> _]. Qed.

Lemma identifier_no_nul id : identifierPattern id = true -> no_nul id.
Proof.
  intros H%identifier_ldh. unfold no_nul. induction id as [|c id IH]; [done|]. cbn [str_forallb IndexByte] in *. reflect_bool.
  rewrite IH by done. destruct (Ascii.eqb_spec c "000"); [by subst|done].
Qed.

Lemma no_nul_append a b : no_nul a -> no_nul b -> no_nul (a +:+ b).
Proof. unfold no_nul. intros Ha Hb. rewrite IndexByte_append_None by done. by rewrite Hb. Qed.

Definition clientInfo (cluster domain : string) (client : Client) : string :=
  deriveInfo (clientPurpose +:+ "/" +:+ CSecretPurpose client) cluster domain (CID client).
Definition confidentialClients (f : contractFile) : list Client := filter (fun c => is_confidential c = true) (FClients f).

Lemma clientSecret_hkdf seed cluster domain client :
  clientSecret seed cluster domain client = encodeRawURL (hkdfKey seed (clientInfo cluster domain client) 32).
Proof. unfold clientSecret, clientInfo. by rewrite derive_hkdf. Qed.

(** Every derived value of the operator's Secret: its key, and the input of the
    derivation of its value *)
Definition secretInputs (f : contractFile) (cluster domain : string) : list (string * string) :=
  ("ATUM_IDENTITY_ADMIN_PASSWORD", deriveInfo adminPurpose cluster domain (AdminUsername (FAdministrator f))) ::
  ("ATUM_IDENTITY_BOOTSTRAP_PASSWORD", deriveInfo bootstrapPurpose cluster domain "atum-bootstrap") ::
  ((fun client => (CredentialKey (CID client), clientInfo cluster domain client)) <$> confidentialClients f).

Section Secrets.
Context {LI : Libraries}.

Lemma confidential_purposes clients :
  NoDup (purposesOf clients) -> NoDup (CSecretPurpose <$> filter (fun c => is_confidential c = true) clients).
Proof.
  assert (sublist (CSecretPurpose <$> filter (fun c => is_confidential c = true) clients) (purposesOf clients)) as Hs;
    [|intros; by eapply sublist_NoDup].
  induction clients as [|c clients IH]; [constructor|]. unfold purposesOf in *. rewrite bind_cons, filter_cons.
  destruct (String.eqb_spec (CType c) PublicPKCE) as [Hp|Hp].
  - rewrite decide_False; [done|]. unfold is_confidential. by rewrite Hp.
  - case_decide; cbn; [by constructor|by apply sublist_cons].
Qed.

Lemma confidential_ok f domain client : admitted f domain -> client ∈ confidentialClients f ->
  client ∈ FClients f /\ identifierPattern (CID client) = true /\ identifierPattern (CSecretPurpose client) = true.
Proof.
  unfold confidentialClients. intros Ha [Hc Hin]%list_elem_of_filter. destruct (ad_clients _ _ Ha) as [Hok _].
  rewrite Forall_forall in Hok. destruct (Hok _ Hin). apply String.eqb_eq in Hc. rewrite Hc in *. done.
Qed.

Lemma secretInputs_NoDup f d cluster domain : admitted f d -> NoDup (secretInputs f cluster domain).*2.
Proof.
  intros Ha. unfold secretInputs. rewrite !fmap_cons, <- list_fmap_compose. cbn [snd].
  change (snd ∘ (fun client => (CredentialKey (CID client), clientInfo cluster domain client))) with (clientInfo cluster domain).
  assert (no_nul adminPurpose /\ no_nul bootstrapPurpose /\ no_nul (clientPurpose +:+ "/")) as (N1 & N2 & N3) by done.
  assert (forall c, c ∈ confidentialClients f -> no_nul (clientPurpose +:+ "/" +:+ CSecretPurpose c)) as N4.
  { intros c (_ & _ & Hc)%(confidential_ok f d c Ha). apply no_nul_append; [done|]. apply no_nul_append; [done|].
    by apply identifier_no_nul. }
  rewrite !NoDup_cons, elem_of_cons, !list_elem_of_fmap. split_and!.
  - intros [H|(c & H & Hc)]; apply deriveInfo_purpose in H; auto; discriminate.
  - intros (c & H & Hc). apply deriveInfo_purpose in H; auto; discriminate.
  - pose proof (confidential_purposes (FClients f) (ad_purposes _ _ Ha)) as Hn. fold (confidentialClients f) in Hn.
    revert Hn N4. induction (confidentialClients f) as [|c l IH]; cbn [fmap list_fmap]; [constructor|].
    rewrite !NoDup_cons. intros [H1 H2] N4. split; [|apply IH; [done|intros; apply N4; by constructor]].
    rewrite list_elem_of_fmap. intros (c' & H & Hc'). unfold clientInfo in H.
    apply deriveInfo_purpose in H; [|apply N4; by constructor..]. apply (str_append_inj_l (clientPurpose +:+ "/")) in H.
    apply H1. rewrite H. by apply list_elem_of_fmap_2.
Qed.

(** ** The values *)

Lemma clientSecrets_other seed cluster domain clients m k :
  (forall c, c ∈ clients -> is_confidential c = true -> clientSecretKey (CID c) <> k) ->
  clientSecrets seed cluster domain clients m !! k = m !! k.
Proof.
  revert m. induction clients as [|c clients IH]; intros m H; cbn [clientSecrets]; [done|].
  rewrite IH by (intros; apply H; [by constructor|done]). destruct (is_confidential c) eqn:Hc; [|done].
  rewrite lookup_insert_ne; [done|]. apply H; [by constructor|done].
Qed.

Lemma clientSecrets_lookup seed cluster domain clients m c :
  Forall (fun c => identifierPattern (CID c) = true) clients -> NoDup (CID <$> clients) -> c ∈ clients -> is_confidential c = true ->
  clientSecrets seed cluster domain clients m !! clientSecretKey (CID c) = Some (clientSecret seed cluster domain c).
Proof.
  revert m. induction clients as [|c' clients IH]; intros m Hid Hn Hin Hc; [by apply elem_of_nil in Hin|].
  cbn [clientSecrets]. apply Forall_cons in Hid as [Hid' Hid]. rewrite fmap_cons, NoDup_cons in Hn. destruct Hn as [Hn' Hn].
  apply elem_of_cons in Hin as [->|Hin]; [|by apply IH]. rewrite Hc. rewrite clientSecrets_other; [by rewrite lookup_insert_eq|].
  intros c Hin _ Heq. rewrite Forall_forall in Hid. apply clientSecretKey_inj in Heq; [|by auto..].
  apply Hn'. rewrite <- Heq. by apply list_elem_of_fmap_2.
Qed.

(** The keys of the operator's Secret that are not a client's *)
Definition administratorKeys : list string :=
  ["ATUM_IDENTITY_ADMIN_USERNAME"; "ATUM_IDENTITY_ADMIN_PASSWORD"; "ATUM_IDENTITY_BOOTSTRAP_PASSWORD"].
Definition fixedKeys : list string :=
  ["ATUM_IDENTITY_DIGEST"; "ATUM_IDENTITY_BOOTSTRAP_PASSWORD"; "ATUM_IDENTITY_ADMIN_PASSWORD"; "ATUM_IDENTITY_ADMIN_GROUP";
   "ATUM_IDENTITY_ADMIN_USERNAME"; "ATUM_IDENTITY_ISSUER"; "ATUM_IDENTITY_DOMAIN"; "ATUM_IDENTITY_CLUSTER";
   "ATUM_IDENTITY_SCHEMA_VERSION"].

Lemma fixedKeys_no_client k id : k ∈ fixedKeys -> clientSecretKey id <> k.
Proof.
  intros Hk Heq. assert (forallb (fun k => negb (HasSuffix k "_CLIENT_SECRET")) fixedKeys = true) as H by reflexivity.
  rewrite forallb_forall in H. apply list_elem_of_In in Hk. specialize (H k Hk). subst k.
  by rewrite clientSecretKey_suffix in H.
Qed.

Lemma fixedKeys_operator k : k ∈ fixedKeys -> operatorKey k = true -> k ∈ administratorKeys.
Proof.
  intros Hk Ho. repeat (apply elem_of_cons in Hk as [->|Hk]; [first [discriminate Ho|by apply (bool_decide_eq_true_1 _)]|]).
  by apply elem_of_nil in Hk.
Qed.

Lemma fixedValues_dom f seed cluster domain k : is_Some (fixedValues f seed cluster domain !! k) -> k ∈ fixedKeys.
Proof.
  unfold fixedValues. intros H. repeat (apply lookup_insert_is_Some in H as [<-|[_ H]]; [unfold fixedKeys; set_solver|]).
  by apply lookup_empty_is_Some in H.
Qed.

Definition projectionOf (c : Contract) (seed cluster domain : string) : BootstrapProjection :=
  let f := document c in
  let values := clientSecrets seed cluster domain (FClients f) (fixedValues f seed cluster domain) in
  let digest := projectionDigest (canonical c) values in
  {| pValues := <["ATUM_IDENTITY_DIGEST" := digest]> values; pDigest := digest |}.

Lemma Derive_ok c d encoded cluster domain p : Domain c = Some d ->
  Derive (Some c) encoded cluster domain = Ok p <->
  exists seed, decodeBase64 base64Std encoded = Some seed /\ length seed = 32%nat /\ cluster <> "" /\ domain <> "" /\ domain = d /\
    p = projectionOf c (to_bytes seed) cluster domain.
Proof.
  intros Hd. unfold Derive, projectionOf. rewrite Hd. destruct (decodeBase64 base64Std encoded) as [seed|]; [|naive_solver].
  unfold seedSize. destruct (Nat.eqb_spec (length seed) 32) as [Hl|Hl]; cbn [negb]; [|naive_solver].
  destruct (String.eqb_spec cluster ""); cbn [orb]; [naive_solver|]. destruct (String.eqb_spec domain ""); [naive_solver|].
  destruct (String.eqb_spec domain d); cbn [negb]; [|naive_solver]. split; [intros [= <-]; by eexists|].
  by intros (? & [= <-] & _ & _ & _ & _ & ->).
Qed.

Lemma operatorValues_lookup p k v : operatorValues p !! k = Some v <-> operatorKey k = true /\ pValues p !! k = Some v.
Proof. unfold operatorValues. rewrite map_lookup_filter_Some. naive_solver. Qed.

Lemma operatorKey_client id : operatorKey (clientSecretKey id) = true.
Proof. unfold operatorKey. by rewrite clientSecretKey_suffix, orb_true_r. Qed.

(** Where a value of the projection comes from *)
Lemma projection_lookup c d seed cluster domain k v : admitted (document c) d ->
  pValues (projectionOf c seed cluster domain) !! k = Some v ->
  (k ∈ fixedKeys) \/ exists client, client ∈ confidentialClients (document c) /\ k = clientSecretKey (CID client) /\
    v = clientSecret seed cluster domain client.
Proof.
  intros Ha Hk. destruct (ad_clients _ _ Ha) as [Hok Hn]. unfold projectionOf in Hk. cbn [pValues] in Hk.
  apply lookup_insert_Some in Hk as [[<- _]|[_ Hk]]; [left; unfold fixedKeys; set_solver|].
  destruct (decide (Exists (fun c => clientSecretKey (CID c) = k) (confidentialClients (document c)))) as [He|He].
  - right. apply Exists_exists in He as (client & Hc & <-). exists client. split_and!; [done..|].
    apply list_elem_of_filter in Hc as [Hc Hin]. rewrite clientSecrets_lookup in Hk; [congruence| |done..].
    eapply Forall_impl; [exact Hok|]. by intros ? [].
  - left. rewrite clientSecrets_other in Hk; [by eapply fixedValues_dom|]. intros c' Hin Hc' Heq. apply He, Exists_exists.
    exists c'. split; [|done]. by apply list_elem_of_filter.
Qed.

Lemma projection_client c d seed cluster domain client : admitted (document c) d -> client ∈ confidentialClients (document c) ->
  pValues (projectionOf c seed cluster domain) !! clientSecretKey (CID client) = Some (clientSecret seed cluster domain client).
Proof.
  intros Ha [Hc Hin]%list_elem_of_filter. destruct (ad_clients _ _ Ha) as [Hok Hn]. unfold projectionOf. cbn [pValues].
  rewrite lookup_insert_ne by (apply not_eq_sym, fixedKeys_no_client; unfold fixedKeys; set_solver).
  apply clientSecrets_lookup; [|done..]. eapply Forall_impl; [exact Hok|]. by intros ? [].
Qed.

Lemma projection_administrator c seed cluster domain : let p := projectionOf c seed cluster domain in
  pValues p !! "ATUM_IDENTITY_ADMIN_USERNAME" = Some (AdminUsername (FAdministrator (document c))) /\
  pValues p !! "ATUM_IDENTITY_ADMIN_PASSWORD" =
    Some (encodeRawURL (derive seed adminPurpose cluster domain (AdminUsername (FAdministrator (document c))))) /\
  pValues p !! "ATUM_IDENTITY_BOOTSTRAP_PASSWORD" =
    Some (encodeRawURL (derive seed bootstrapPurpose cluster domain "atum-bootstrap")).
Proof.
  cbv zeta. unfold projectionOf. cbn [pValues].
  split_and!; (rewrite lookup_insert_ne by done; rewrite clientSecrets_other by
      (intros; apply fixedKeys_no_client; unfold fixedKeys; set_solver));
    unfold fixedValues; cbv zeta; repeat first [by rewrite lookup_insert_eq | rewrite lookup_insert_ne by done].
Qed.

Lemma hkdf_nonempty seed info : encodeRawURL (hkdfKey seed info 32) <> "".
Proof. apply encodeRawURL_nonempty. intros H. apply (f_equal String.length) in H. by rewrite hkdf_length in H. Qed.

(** Every derived value is the one of its input. *)
Lemma operator_secret c d seed cluster domain k info : admitted (document c) d ->
  (k, info) ∈ secretInputs (document c) cluster domain ->
  operatorValues (projectionOf c seed cluster domain) !! k = Some (encodeRawURL (hkdfKey seed info 32)).
Proof.
  intros Ha Hk. destruct (projection_administrator c seed cluster domain) as (_ & K2 & K3).
  rewrite derive_hkdf in K2, K3. apply operatorValues_lookup. unfold secretInputs in Hk.
  rewrite !elem_of_cons, list_elem_of_fmap in Hk. destruct Hk as [Hk|[Hk|(client & Hk & Hc)]].
  - apply pair_equal_spec in Hk as [-> ->]. split; [reflexivity|exact K2].
  - apply pair_equal_spec in Hk as [-> ->]. split; [reflexivity|exact K3].
  - apply pair_equal_spec in Hk as [-> ->]. rewrite CredentialKey_eq. split; [apply operatorKey_client|]. rewrite <- clientSecret_hkdf.
    by apply (projection_client c d).
Qed.

Lemma operator_keys c d seed cluster domain k v : admitted (document c) d ->
  operatorValues (projectionOf c seed cluster domain) !! k = Some v ->
  k = "ATUM_IDENTITY_ADMIN_USERNAME" \/ k ∈ (secretInputs (document c) cluster domain).*1.
Proof.
  intros Ha [Ho Hk]%operatorValues_lookup. unfold secretInputs. rewrite !fmap_cons, !elem_of_cons. cbn [fst].
  destruct (projection_lookup c d _ _ _ _ _ Ha Hk) as [Hf|(client & Hc & -> & _)].
  - apply fixedKeys_operator in Hf; [|done]. unfold administratorKeys in Hf. rewrite !elem_of_cons, elem_of_nil in Hf. naive_solver.
  - do 3 right. rewrite <- list_fmap_compose. apply list_elem_of_fmap. by exists client.
Qed.

Lemma operator_plain c d seed cluster domain : admitted (document c) d ->
  map_Forall (fun k _ => plain k = true) (operatorValues (projectionOf c seed cluster domain)).
Proof.
  intros Ha k v [_ Hk]%operatorValues_lookup.
  destruct (projection_lookup _ _ _ _ _ _ _ Ha Hk) as [Hf|(client & Hc & -> & _)].
  - repeat (apply elem_of_cons in Hf as [->|Hf]; [reflexivity|]). by apply elem_of_nil in Hf.
  - apply clientSecretKey_plain. by eapply confidential_ok.
Qed.

(** C22. Identity secrets, from an admitted contract: the derivation succeeds
    exactly for a 32-byte seed, a cluster and the contract's domain, and the
    operator's Secret holds the name and the password of the administrator, the
    password of the bootstrap account and one secret per confidential client under
    the key the operator looks it up with, and nothing else.  Every one but the
    name is the 32-byte HKDF output of the seed for its own input, and no two of
    these inputs are equal; none is empty.  The manifest of that Secret, when it fits its limit, is read back by a JSON
    parser with exactly these values. *)
Theorem identity_secrets f bytes c encoded cluster domain :
  validate f bytes = Ok c ->
  (is_ok (Derive (Some c) encoded cluster domain) = true <->
   (exists seed, decodeBase64 base64Std encoded = Some seed /\ length seed = 32%nat) /\ cluster <> "" /\ Domain c = Some domain) /\
  NoDup (secretInputs f cluster domain).*2 /\
  (forall p, Derive (Some c) encoded cluster domain = Ok p ->
     (forall k, is_Some (operatorValues p !! k) <-> k = "ATUM_IDENTITY_ADMIN_USERNAME" \/ k ∈ (secretInputs f cluster domain).*1) /\
     operatorValues p !! "ATUM_IDENTITY_ADMIN_USERNAME" = Some (AdminUsername (FAdministrator f)) /\
     (exists seed, decodeBase64 base64Std encoded = Some seed /\ forall k info, (k, info) ∈ secretInputs f cluster domain ->
        operatorValues p !! k = Some (encodeRawURL (hkdfKey (to_bytes seed) info 32)) /\
        encodeRawURL (hkdfKey (to_bytes seed) info 32) <> "") /\
     (forall labels order doc, MarshalOperatorSecret labels order (Some p) = Ok doc ->
        parse_document doc = Some (secretOf "atum-provider-credentials" "atum-system" "atum.dev/identity-digest" (pDigest p) false false
          (membersOf (sortedKeys (operatorValues p)) (operatorValues p))))).
Proof.
  intros (d & hosts & Ha & ->)%validate_sound. match goal with |- context [Derive (Some ?c0)] => set (c := c0) end.
  assert (Domain c = Some d) as Hd by (eapply issuer_Domain; [apply Ha|done]).
  assert (d <> "") as Hne by (destruct (ad_issuer _ _ Ha); done).
  assert (f = document c) as Hf by reflexivity. clearbody c. subst f. split_and!.
  - rewrite Hd. split.
    + destruct (Derive (Some c) encoded cluster domain) as [p|] eqn:Hp; [|done]. intros _.
      apply (Derive_ok _ _ _ _ _ _ Hd) in Hp. naive_solver.
    + intros ((seed & H1 & H2) & H3 & [= ->]).
      by rewrite (proj2 (Derive_ok c domain encoded cluster domain (projectionOf c (to_bytes seed) cluster domain) Hd)) by naive_solver.
  - by eapply secretInputs_NoDup.
  - intros p (seed & Hseed & _ & _ & _ & -> & ->)%(Derive_ok _ _ _ _ _ _ Hd).
    assert (forall k info, (k, info) ∈ secretInputs (document c) cluster d ->
      operatorValues (projectionOf c (to_bytes seed) cluster d) !! k = Some (encodeRawURL (hkdfKey (to_bytes seed) info 32))) as Hall
      by (intros; by eapply operator_secret).
    destruct (projection_administrator c (to_bytes seed) cluster d) as (K1 & _). split_and!.
    + intros k. split; [intros [v Hv]; by eapply operator_keys|]. intros [->|Hk].
      * eexists. apply operatorValues_lookup. by split.
      * apply list_elem_of_fmap in Hk as ([k' info] & -> & Hk). eexists. by apply (Hall k' info).
    + apply operatorValues_lookup. by split.
    + exists seed. split; [done|]. intros k info Hk. split; [by apply Hall|]. apply hkdf_nonempty.
    + intros labels order doc H. unfold MarshalOperatorSecret, available in H. apply bind_ok_iff in H as (p & Hp & H).
      apply bind_ok_iff in Hp as (_ & _ & [= <-]). apply wrap_ok_iff, secret_read in H as [_ H]; [done..|].
      by apply (operator_plain c d).
Qed.
End Secrets.

(** The local profile with the seed of 32 zero bytes *)
Definition zeroSeed : string := "AAAAAAAAAAAAAAAAAAAAAAAAAAAAAAAAAAAAAAAAAAA".

Lemma identity_secrets_witness :
  exists c, @validate plainLibraries localProfile "" = Ok c /\
  is_ok (@Derive plainLibraries (Some c) zeroSeed "local" "atum.test") = true.
Proof.
  destruct (@validate plainLibraries localProfile "") as [c|e] eqn:Hc.
  2: { exfalso. pose proof local_profile_admitted as H. by rewrite Hc in H. }
  exists c. split; [reflexivity|]. apply (proj1 (@identity_secrets plainLibraries localProfile "" c zeroSeed "local" "atum.test" Hc)).
  split; [exists (replicate 32 0%Z); split; vm_compute; reflexivity|]. split; [discriminate|].
  apply (@validate_sound plainLibraries) in Hc as (d & hosts & Ha & ->). vm_compute. reflexivity.
Defined.
End IdentitySecrets.
