(* ===== verification/Oci.v ===== *)
(** OCI content, [cli/oci]: reading bounded metadata, verifying image graphs
    blob by blob ([platform.go]), and the registry client with its credentials
    and transport policy ([client.go], [reference.go], [cache.go]).

    The content store, the digest algorithms, the JSON decoders and the copying
    of graphs belong to libraries: they are parameters, and a store may answer
    every request differently, so a request is numbered. *)
From stdpp Require Import prelude gmap strings list.
From Stdlib Require Import Ascii ZArith Lia.
From S2P Require Import Prelude GoStrings Sha256 Treehash FsPath.

Module Oci.
Import Sha256.

(** ** Descriptors and documents *)

Record Platform := { OS : string; Architecture : string }.
Record Descriptor := { MediaType : string; Digest : string; Size : Z; DPlatform : option Platform }.
Record Index := { ISchemaVersion : Z; Manifests : list Descriptor; ISubject : option Descriptor }.
Record Manifest := { MSchemaVersion : Z; Config : Descriptor; Layers : list Descriptor; MSubject : option Descriptor }.
Record Artifact := { AMediaType : string; Blobs : list Descriptor; ASubject : option Descriptor }.

(** What a reader delivers: bytes, then the end or a failure (a cancelled
    context among them), and the outcome of closing it *)
Record Reader := { rData : string; rFailure : option string; rClose : option string }.

Class Libraries :=
  { ValidDigest : string -> bool;                 (** [digest.Digest.Validate() == nil] *)
    Verified : string -> string -> bool;          (** a digest's verifier, after these bytes *)
    decodeIndex : string -> option Index;
    decodeManifest : string -> option Manifest;
    decodeArtifact : string -> option Artifact;
    decodeImage : string -> option Platform }.

(** A content store and the context of the calls; the number is the time. *)
Record Source :=
  { Fetch : nat -> Descriptor -> result string Reader;
    Exists : nat -> Descriptor -> result string bool;
    contextError : nat -> option string }.

Definition manifestLimit : Z := 4194304.
Definition graphDescriptorLimit : Z := 100000.
Definition maxInt64 : Z := 9223372036854775807.

Definition MediaTypeImageIndex : string := "application/vnd.oci.image.index.v1+json".
Definition MediaTypeImageManifest : string := "application/vnd.oci.image.manifest.v1+json".
Definition MediaTypeImageConfig : string := "application/vnd.oci.image.config.v1+json".
Definition dockerIndex : string := "application/vnd.docker.distribution.manifest.list.v2+json".
Definition dockerManifest : string := "application/vnd.docker.distribution.manifest.v2+json".
Definition dockerConfig : string := "application/vnd.docker.container.image.v1+json".
Definition artifactManifest : string := "application/vnd.oci.artifact.manifest.v1+json".

Inductive kind := KIndex | KManifest | KArtifact | KBlob.
#[global] Instance kind_eq_dec : EqDecision kind.
Proof. solve_decision. Defined.
Definition kindOf (mediaType : string) : kind :=
  if String.eqb mediaType MediaTypeImageIndex || String.eqb mediaType dockerIndex then KIndex
  else if String.eqb mediaType MediaTypeImageManifest || String.eqb mediaType dockerManifest then KManifest
  else if String.eqb mediaType artifactManifest then KArtifact
  else KBlob.
Definition isManifest (mediaType : string) : bool := String.eqb mediaType MediaTypeImageManifest || String.eqb mediaType dockerManifest.

Inductive ociError :=
  | InvalidDigest (d : string)
  | SizeExceedsLimit (d : string) (size : Z)
  | SourceFailed (e : string)
  | ContentMismatch (d : string)
  | RepeatsDifferently (d : string) (prior size : Z)
  | SizeUnbounded (d : string)
  | InvalidDescriptor (d : string) (size : Z)
  | UndecodableDocument (d : string)
  | WrongSchemaVersion (d : string) (version : Z)
  | WrongMediaType (d mediaType : string)
  | NotOneManifest (d : string) (matches : nat)
  | WrongPlatform (d os architecture : string)
  | MissingLayer (d : string)
  | TooManyDescriptors
  | TooManyPending
  | NilVerifier.
#[global] Instance ociError_eq_dec : EqDecision ociError.
Proof. solve_decision. Defined.

(** ** Loops of at most [2 ^ k] rounds *)

Section Loop.
Context {St R : Type} (step : St -> St + R).
Fixpoint loop (k : nat) (s : St) : St + R :=
  match k with
  | O => step s
  | S k => match loop k s with inl s => loop k s | inr r => inr r end
  end.
End Loop.

(** ** The verifier *)

(** [verified] keeps the size a digest was verified with. *)
Record BlobVerifier := { verified : gmap string Z; expanded : gset (string * string) }.
Definition NewBlobVerifier : BlobVerifier := {| verified := ∅; expanded := ∅ |}.

Definition len (s : string) : Z := Z.of_nat (String.length s).

Section Content.
Context {LI : Libraries} (source : Source).

(** A computation: the time goes on, whatever it returns. *)
Definition G (A : Type) : Type := nat -> result ociError A * nat.
#[global] Instance G_ret : MRet G := fun _ a t => (Ok a, t).
#[global] Instance G_bind : MBind G := fun _ _ f m t =>
  match m t with (Ok a, t) => f a t | (Err e, t) => (Err e, t) end.
Definition fail {A} (e : ociError) : G A := fun t => (Err e, t).
Definition check (cond : bool) (e : ociError) : G unit := if cond then fail e else mret tt.
Definition fetch (d : Descriptor) : G Reader := fun t =>
  (match Fetch source t d with Ok r => Ok r | Err e => Err (SourceFailed e) end, S t).
Definition exists_ (d : Descriptor) : G bool := fun t =>
  (match Exists source t d with Ok b => Ok b | Err e => Err (SourceFailed e) end, S t).
Definition decoded {A} (d : Descriptor) (a : option A) : G A :=
  match a with Some a => mret a | None => fail (UndecodableDocument (Digest d)) end.

(** Reading through [io.LimitReader(reader, limit)]: the failure is seen when the
    limit is not reached before it. *)
Definition readLimited (r : Reader) (limit : Z) : result string string :=
  if (limit <=? len (rData r))%Z then Ok (str_take (Z.to_nat limit) (rData r))
  else match rFailure r with Some e => Err e | None => Ok (rData r) end.

Definition fetchBounded (d : Descriptor) : G string :=
  check (negb (ValidDigest (Digest d))) (InvalidDigest (Digest d));;
  check ((Size d <? 0) || (manifestLimit <? Size d))%Z (SizeExceedsLimit (Digest d) (Size d));;
  reader ← fetch d;
  match readLimited reader (manifestLimit + 1) with
  | Err e => fail (SourceFailed e)
  | Ok data =>
      check (manifestLimit <? len data)%Z (SizeExceedsLimit (Digest d) (len data));;
      check (negb (len data =? Size d)%Z || negb (Verified (Digest d) data)) (ContentMismatch (Digest d));;
      mret data
  end.

(** [verify]: the verifier's map is changed on success only. *)
Definition verify (v : BlobVerifier) (d : Descriptor) : G BlobVerifier :=
  match verified v !! Digest d with
  | Some prior => check (negb (prior =? Size d)%Z) (RepeatsDifferently (Digest d) prior (Size d));; mret v
  | None => fun t =>
      match contextError source t with
      | Some e => (Err (SourceFailed e), t)
      | None =>
          (check (Size d =? maxInt64)%Z (SizeUnbounded (Digest d));;
           reader ← fetch d;
           match readLimited reader (Size d + 1), rClose reader with
           | Ok data, None =>
               check (negb (len data =? Size d)%Z || negb (Verified (Digest d) data)) (ContentMismatch (Digest d));;
               mret {| verified := <[Digest d := Size d]> (verified v); expanded := expanded v |}
           | Err e, _ => fail (SourceFailed e)
           | _, Some e => fail (SourceFailed e)
           end) t
      end
  end.

(** The descriptors a document refers to, in the order they are pushed *)
Definition documentSuccessors (mediaType : string) (digest data : string) : result ociError (list Descriptor) :=
  match kindOf mediaType with
  | KIndex =>
      match decodeIndex data with
      | None => Err (UndecodableDocument digest)
      | Some index =>
          guard_err (negb (ISchemaVersion index =? 2)%Z) (WrongSchemaVersion digest (ISchemaVersion index));;
          Ok (option_list (ISubject index) ++ Manifests index)
      end
  | KManifest =>
      match decodeManifest data with
      | None => Err (UndecodableDocument digest)
      | Some manifest =>
          guard_err (negb (MSchemaVersion manifest =? 2)%Z) (WrongSchemaVersion digest (MSchemaVersion manifest));;
          Ok (option_list (MSubject manifest) ++ Config manifest :: Layers manifest)
      end
  | KArtifact =>
      match decodeArtifact data with
      | None => Err (UndecodableDocument digest)
      | Some artifact =>
          guard_err (negb (String.eqb (AMediaType artifact) mediaType)) (WrongMediaType digest (AMediaType artifact));;
          Ok (option_list (ASubject artifact) ++ Blobs artifact)
      end
  | KBlob => Ok []
  end.

(** One descriptor: its content is read, or streamed when it is a blob, and the
    verifier records it. *)
Definition expand (v : BlobVerifier) (d : Descriptor) : G (BlobVerifier * list Descriptor) :=
  match kindOf (MediaType d) with
  | KBlob => v ← verify v d; mret (v, [])
  | _ =>
      data ← fetchBounded d;
      match documentSuccessors (MediaType d) (Digest d) data with
      | Err e => fail e
      | Ok successors => mret ({| verified := <[Digest d := Size d]> (verified v); expanded := expanded v |}, successors)
      end
  end.

(** The loop's state; the stack's top is the head of the list. *)
Record graphState := { gVerifier : BlobVerifier; gStack : list Descriptor; gTime : nat }.

(** One round.  The verifier is the caller's, so what was recorded before an
    error stays. *)
Definition graphStep (s : graphState) : graphState + (result ociError unit * BlobVerifier * nat) :=
  let v := gVerifier s in let t := gTime s in
  match gStack s with
  | [] => inr (Ok tt, v, t)
  | d :: stack =>
      if (graphDescriptorLimit <=? Z.of_nat (size (expanded v)))%Z then inr (Err TooManyDescriptors, v, t)
      else if negb (ValidDigest (Digest d)) || (Size d <=? 0)%Z then inr (Err (InvalidDescriptor (Digest d) (Size d)), v, t)
      else
        let prior := default (Size d) (verified v !! Digest d) in
        if negb (prior =? Size d)%Z then inr (Err (RepeatsDifferently (Digest d) prior (Size d)), v, t)
        else if bool_decide ((Digest d, MediaType d) ∈ expanded v) then inl {| gVerifier := v; gStack := stack; gTime := t |}
        else
          match expand v d t with
          | (Err e, t) => inr (Err e, v, t)
          | (Ok (v, successors), t) =>
              let v := {| verified := verified v; expanded := {[(Digest d, MediaType d)]} ∪ expanded v |} in
              if (graphDescriptorLimit - Z.of_nat (length successors) <? Z.of_nat (length stack))%Z then inr (Err TooManyPending, v, t)
              else inl {| gVerifier := v; gStack := rev successors ++ stack; gTime := t |}
          end
  end.

(** [2 ^ 34] rounds are more than the limits admit. *)
Definition graphRounds : nat := 34.
Definition VerifyGraph (v : BlobVerifier) (root : Descriptor) (t : nat) : graphState + (result ociError unit * BlobVerifier * nat) :=
  loop graphStep graphRounds {| gVerifier := v; gStack := [root]; gTime := t |}.

(** ** Runnable images *)

Definition isLinuxAMD64 (d : Descriptor) : bool :=
  match DPlatform d with
  | Some p => String.eqb (OS p) "linux" && String.eqb (Architecture p) "amd64"
  | None => false
  end.

(** The last candidate that runs on linux/amd64, and their number *)
Definition selectManifest (candidates : list Descriptor) (first : Descriptor) : Descriptor * nat :=
  foldl (fun acc c => if isLinuxAMD64 c then (c, S acc.2) else acc) (first, O) candidates.

(** The loop over the layers, with a verifier and without *)
Fixpoint checkLayers (layers : list Descriptor) (verifier : option BlobVerifier) : G (option BlobVerifier) :=
  match layers with
  | [] => mret verifier
  | layer :: layers =>
      check (negb (ValidDigest (Digest layer)) || (Size layer <=? 0)%Z) (InvalidDescriptor (Digest layer) (Size layer));;
      match verifier with
      | Some v => v ← verify v layer; checkLayers layers (Some v)
      | None =>
          present ← exists_ layer;
          check (negb present) (MissingLayer (Digest layer));;
          checkLayers layers None
      end
  end.

Definition selectRuntime (root : Descriptor) : G Descriptor :=
  data ← fetchBounded root;
  index ← decoded root (decodeIndex data);
  check (negb (ISchemaVersion index =? 2)%Z) (WrongSchemaVersion (Digest root) (ISchemaVersion index));;
  let '(descriptor, matches) := selectManifest (Manifests index) root in
  check (negb (matches =? 1)%nat) (NotOneManifest (Digest root) matches);;
  check (negb (isManifest (MediaType descriptor))) (WrongMediaType (Digest root) (MediaType descriptor));;
  mret descriptor.

Definition runtimeDigests (root : Descriptor) (verifier : option BlobVerifier) : G (gset string * option BlobVerifier) :=
  check (negb (ValidDigest (Digest root)) || (Size root <=? 0)%Z || (manifestLimit <? Size root)%Z)
    (InvalidDescriptor (Digest root) (Size root));;
  descriptor ← match kindOf (MediaType root) with
               | KIndex => selectRuntime root
               | KManifest => mret root
               | _ => fail (WrongMediaType (Digest root) (MediaType root))
               end;
  manifestData ← fetchBounded descriptor;
  manifest ← decoded descriptor (decodeManifest manifestData);
  check (negb (MSchemaVersion manifest =? 2)%Z) (WrongSchemaVersion (Digest descriptor) (MSchemaVersion manifest));;
  check (negb (String.eqb (MediaType (Config manifest)) MediaTypeImageConfig) &&
         negb (String.eqb (MediaType (Config manifest)) dockerConfig))
    (WrongMediaType (Digest descriptor) (MediaType (Config manifest)));;
  configData ← fetchBounded (Config manifest);
  image ← decoded (Config manifest) (decodeImage configData);
  check (negb (String.eqb (OS image) "linux") || negb (String.eqb (Architecture image) "amd64"))
    (WrongPlatform (Digest root) (OS image) (Architecture image));;
  verifier ← checkLayers (Layers manifest) verifier;
  mret ({[Digest root; Digest descriptor; Digest (Config manifest)]}, verifier).

Definition ValidateLinuxAMD64 (root : Descriptor) : G unit := runtimeDigests root None;; mret tt.

Definition ValidateLinuxAMD64Manifest (root : Descriptor) : G unit :=
  if isManifest (MediaType root) then ValidateLinuxAMD64 root else fail (WrongMediaType (Digest root) (MediaType root)).

Definition LinuxAMD64Manifest (root : Descriptor) : G Descriptor :=
  ValidateLinuxAMD64 root;;
  match kindOf (MediaType root) with
  | KManifest => mret root
  | KIndex =>
      data ← fetchBounded root;
      index ← decoded root (decodeIndex data);
      let '(selected, matches) := selectManifest (Manifests index) {| MediaType := ""; Digest := ""; Size := 0; DPlatform := None |} in
      check (negb (matches =? 1)%nat) (NotOneManifest (Digest root) matches);;
      mret selected
  | _ => fail (WrongMediaType (Digest root) (MediaType root))
  end.

Definition RuntimeDigests (root : Descriptor) : G (gset string) := x ← runtimeDigests root None; mret x.1.

(** The complete graph, then the runtime identities; [None] when the loop's
    bound would be reached *)
Definition RuntimeDigestsWithContent (v : option BlobVerifier) (root : Descriptor) (t : nat) :
    option (result ociError (gset string) * nat) :=
  match v with
  | None => Some (Err NilVerifier, t)
  | Some v =>
      match VerifyGraph v root t with
      | inl _ => None
      | inr (Err e, _, t) => Some (Err e, t)
      | inr (Ok _, v, t) => Some ((x ← runtimeDigests root (Some v); mret x.1) t)
      end
  end.

Definition RuntimeManifestDigestsWithContent (v : option BlobVerifier) (root : Descriptor) (t : nat) :
    option (result ociError (gset string) * nat) :=
  if negb (isManifest (MediaType root)) then Some (Err (WrongMediaType (Digest root) (MediaType root)), t)
  else RuntimeDigestsWithContent v root t.
End Content.
End Oci.
