(* ===== verification/OciTheorems.v ===== *)
(** Image graphs: the loop of [VerifyGraph] ends, and when it succeeds every
    descriptor that can be reached was delivered with its size and digest. *)
From stdpp Require Import prelude gmap strings list.
From Stdlib Require Import Ascii ZArith Lia.
From S2P Require Import Prelude GoStrings Sha256 Oci.

Module OciTheorems.
Import Oci.

(** ** Loops *)

Section Loop.
Context {St R : Type} (step : St -> St + R).

Lemma loop_invariant (I : St -> Prop) (P : R -> Prop) k s :
  (forall s s', I s -> step s = inl s' -> I s') -> (forall s r, I s -> step s = inr r -> P r) ->
  I s -> match loop step k s with inl s' => I s' | inr r => P r end.
Proof.
  intros HI HP. revert s. induction k as [|k IH]; intros s Hs; cbn [loop].
  - destruct (step s) eqn:E; eauto.
  - pose proof (IH s Hs) as H. destruct (loop step k s); [by apply IH|done].
Qed.

Lemma loop_descends (m : St -> Z) k s s' :
  (forall s s', step s = inl s' -> (m s' < m s)%Z) -> loop step k s = inl s' -> (m s' + 2 ^ Z.of_nat k <= m s)%Z.
Proof.
  intros Hm. revert s s'. induction k as [|k IH]; intros s s'; cbn [loop].
  - intros H%Hm. change (2 ^ Z.of_nat 0)%Z with 1%Z. lia.
  - destruct (loop step k s) as [s1|r] eqn:E; [|done]. intros H. apply IH in E, H.
    rewrite Nat2Z.inj_succ, Z.pow_succ_r by lia. lia.
Qed.

Lemma loop_ends (m : St -> Z) k s :
  (forall s s', step s = inl s' -> (0 <= m s' < m s)%Z) -> (m s < 2 ^ Z.of_nat k)%Z -> exists r, loop step k s = inr r.
Proof.
  intros Hm Hs. destruct (loop step k s) as [s'|r] eqn:E; [|by exists r]. exfalso.
  assert (0 <= m s')%Z.
  { pose proof (loop_invariant (fun s0 => s0 = s \/ (0 <= m s0)%Z) (fun _ => True) k s) as H. rewrite E in H.
    destruct H as [->|]; [|done|by left| |done].
    - intros ? ? _ H. right. apply Hm in H. lia.
    - apply (loop_descends m) in E; [|intros; by apply Hm]. lia. }
  apply (loop_descends m) in E; [|intros; by apply Hm]. lia.
Qed.
End Loop.

Section Graph.
Context {LI : Libraries} (source : Source).

(** ** What a successful step shows *)

(** The store delivered [data] for the descriptor, of its size and digest. *)
Definition genuine (d : Descriptor) (data : string) : Prop :=
  len data = Size d /\ Verified (Digest d) data = true /\
  exists t r limit, Fetch source t d = Ok r /\ readLimited r limit = Ok data.

Lemma G_bind_ok {A B} (m : G A) (f : A -> G B) t b t' :
  (m ≫= f) t = (Ok b, t') <-> exists a t1, m t = (Ok a, t1) /\ f a t1 = (Ok b, t').
Proof. unfold mbind, G_bind. destruct (m t) as [[a|e] t1]; naive_solver. Qed.

Lemma check_bind_ok {B} (cond : bool) e (f : unit -> G B) t b t' :
  (check cond e ≫= f) t = (Ok b, t') <-> cond = false /\ f tt t = (Ok b, t').
Proof. unfold check. destruct cond; unfold mbind, G_bind, fail, mret, G_ret; naive_solver. Qed.

Lemma fetch_bind_ok {B} d (f : Reader -> G B) t b t' :
  (fetch source d ≫= f) t = (Ok b, t') <-> exists r, Fetch source t d = Ok r /\ f r (S t) = (Ok b, t').
Proof. unfold mbind, G_bind, fetch. destruct (Fetch source t d); naive_solver. Qed.

Lemma fetchBounded_ok d t data t' :
  fetchBounded source d t = (Ok data, t') -> ValidDigest (Digest d) = true /\ genuine d data.
Proof.
  unfold fetchBounded. rewrite !check_bind_ok, fetch_bind_ok. intros (H1 & _ & r & Hr & H).
  destruct (readLimited r (manifestLimit + 1)) as [data'|e] eqn:Hl; [|done]. rewrite !check_bind_ok in H.
  destruct H as (_ & H & [= -> <-]). reflect_bool. apply Z.eqb_eq in H. split; [done|]. unfold genuine. split_and!; [done..|].
  by exists t, r, (manifestLimit + 1)%Z.
Qed.

Lemma verify_ok v d t v' t' : verify source v d t = (Ok v', t') ->
  (verified v !! Digest d = Some (Size d) /\ v' = v) \/
  (verified v !! Digest d = None /\ (exists data, genuine d data) /\
   v' = {| verified := <[Digest d := Size d]> (verified v); expanded := expanded v |}).
Proof.
  unfold verify. destruct (verified v !! Digest d) as [prior|] eqn:Hv.
  - rewrite check_bind_ok. intros (H & [= -> <-]). reflect_bool. apply Z.eqb_eq in H as ->. by left.
  - destruct (contextError source t); [done|]. rewrite check_bind_ok, fetch_bind_ok. intros (_ & r & Hr & H). right.
    destruct (readLimited r (Size d + 1)) as [data|e] eqn:Hl, (rClose r); try done. rewrite check_bind_ok in H.
    destruct H as (H & [= -> <-]). reflect_bool. apply Z.eqb_eq in H. split_and!; [done| |done]. exists data.
    unfold genuine. split_and!; [done..|]. by exists t, r, (Size d + 1)%Z.
Qed.

(** ** The invariant *)

(** A descriptor that was dealt with *)
Definition settled (v : BlobVerifier) (d : Descriptor) : Prop :=
  (Digest d, MediaType d) ∈ expanded v /\ verified v !! Digest d = Some (Size d).

(** [contents] holds the documents that were read; what they refer to is dealt
    with or pending. *)
Record graphInv (contents : gmap (string * string) string) (v : BlobVerifier) (pending : list Descriptor) : Prop :=
  { inv_verified : forall digest size, verified v !! digest = Some size ->
      exists d data, Digest d = digest /\ Size d = size /\ genuine d data;
    inv_expanded : forall digest mediaType, (digest, mediaType) ∈ expanded v -> is_Some (verified v !! digest);
    inv_documents : forall digest mediaType, (digest, mediaType) ∈ expanded v -> kindOf mediaType <> KBlob ->
      exists d data successors, contents !! (digest, mediaType) = Some data /\ Digest d = digest /\ MediaType d = mediaType /\
        genuine d data /\ verified v !! digest = Some (Size d) /\
        documentSuccessors mediaType digest data = Ok successors /\ Forall (fun s => settled v s \/ s ∈ pending) successors }.

Lemma inv_new : graphInv ∅ NewBlobVerifier [].
Proof. constructor; cbn; set_solver. Qed.

(** A verifier that knows more *)
Definition extends (v v' : BlobVerifier) : Prop := verified v ⊆ verified v' /\ expanded v ⊆ expanded v'.

Lemma settled_extends v v' d : extends v v' -> settled v d -> settled v' d.
Proof. intros [Hv He] [H1 H2]. split; [set_solver|by eapply lookup_weaken]. Qed.

(** What expanding one descriptor adds *)
Lemma expand_ok v d t v' successors t' :
  expand source v d t = (Ok (v', successors), t') ->
  default (Size d) (verified v !! Digest d) = Size d ->
  expanded v' = expanded v /\ verified v' = <[Digest d := Size d]> (verified v) /\
  (kindOf (MediaType d) = KBlob /\ successors = [] /\ (is_Some (verified v !! Digest d) \/ exists data, genuine d data) \/
   kindOf (MediaType d) <> KBlob /\ exists data, genuine d data /\ documentSuccessors (MediaType d) (Digest d) data = Ok successors).
Proof.
  unfold expand. intros H Hp. destruct (kindOf (MediaType d)) eqn:Hk.
  4: { apply G_bind_ok in H as (v1 & t1 & H & [= -> <- <-]). apply verify_ok in H as [[Hv ->]|(Hn & Hg & ->)]; cbn [verified expanded].
       - split_and!; [done|symmetry; by apply insert_id|]. left. split_and!; [done..|]. left. by eexists.
       - split_and!; [done..|]. left. split_and!; [done..|]. by right. }
  all: apply G_bind_ok in H as (data & t1 & H & H2); apply fetchBounded_ok in H as [_ Hg];
    destruct (documentSuccessors (MediaType d) (Digest d) data) as [l|] eqn:Hd; [|done]; injection H2 as <- <- <-;
    cbn [verified expanded]; split_and!; [done..|]; right; split; [done|]; exists data; done.
Qed.

(** A pending descriptor that is dealt with is taken off the list. *)
Lemma inv_settle contents v d stack : graphInv contents v (d :: stack) -> settled v d -> graphInv contents v stack.
Proof.
  intros [I1 I2 I3] Hd. constructor; [done..|]. intros digest mediaType He Hk.
  destruct (I3 _ _ He Hk) as (d0 & data & l & H1 & H2 & H3 & H4 & H5 & H6 & H7). exists d0, data, l. split_and!; try done.
  eapply Forall_impl; [exact H7|]. intros s [Hs|[->|Hs]%elem_of_cons]; auto.
Qed.

Lemma inv_expand contents v d stack t v1 successors t' :
  graphInv contents v (d :: stack) -> default (Size d) (verified v !! Digest d) = Size d ->
  (Digest d, MediaType d) ∉ expanded v -> expand source v d t = (Ok (v1, successors), t') ->
  exists contents', graphInv contents' {| verified := verified v1; expanded := {[(Digest d, MediaType d)]} ∪ expanded v1 |}
    (rev successors ++ stack).
Proof.
  intros Hi Hp Hn H. destruct (expand_ok _ _ _ _ _ _ H Hp) as (He & Hv & Hcase). rewrite He, Hv.
  set (v' := {| verified := _; expanded := _ |}). destruct Hi as [I1 I2 I3].
  assert (extends v v') as Hx.
  { split; cbn; [|set_solver]. apply map_subseteq_spec. intros k z Hk. destruct (decide (k = Digest d)) as [->|Hne].
    - rewrite Hk in Hp. cbn in Hp. by rewrite lookup_insert_eq, Hp.
    - by rewrite lookup_insert_ne. }
  assert (settled v' d) as Hset by (split; cbn; [set_solver|by rewrite lookup_insert_eq]).
  assert (exists contents' : gmap (string * string) string,
    (kindOf (MediaType d) <> KBlob -> exists data, contents' !! (Digest d, MediaType d) = Some data /\ genuine d data /\
       documentSuccessors (MediaType d) (Digest d) data = Ok successors) /\
    (forall e, e ∈ expanded v -> contents' !! e = contents !! e) /\
    exists d0 data, Digest d0 = Digest d /\ Size d0 = Size d /\ genuine d0 data) as (contents' & Hdoc & Hold & Hgen).
  { destruct Hcase as [(Hk & -> & Hg)|(Hk & data & Hg & Hd)].
    - exists contents. split_and!; [done..|]. destruct Hg as [[size Hs]|[data Hg]]; [|by exists d, data].
      destruct (I1 _ _ Hs) as (d0 & data & ? & ? & ?). exists d0, data. rewrite Hs in Hp. cbn in Hp. by subst.
    - exists (<[(Digest d, MediaType d) := data]> contents). split_and!; [|intros; apply lookup_insert_ne; set_solver|by exists d, data].
      intros _. exists data. by rewrite lookup_insert_eq. }
  exists contents'. constructor.
  - cbn. intros digest size [[<- <-]|[Hne Hk]]%lookup_insert_Some; [done|by apply I1].
  - cbn. intros digest mediaType [[= -> ->]%elem_of_singleton|Hin]%elem_of_union; [rewrite lookup_insert_eq; by eexists|].
    destruct (I2 _ _ Hin) as [z Hz]. exists z. by apply (lookup_weaken _ _ _ _ Hz), Hx.
  - intros digest mediaType Hin Hk. cbn [v' expanded] in Hin. apply elem_of_union in Hin as [[= -> ->]%elem_of_singleton|Hin].
    + destruct (Hdoc Hk) as (data & H1 & H2 & H3). exists d, data, successors. split_and!; [done..|by apply Hset|done|].
      apply Forall_forall. intros s Hs. right. apply elem_of_app. left. by apply list_elem_of_In, (proj1 (in_rev _ _)), list_elem_of_In.
    + destruct (I3 _ _ Hin Hk) as (d1 & data & l & H1 & H2 & H3 & H4 & H5 & H6 & H7). exists d1, data, l.
      rewrite Hold by done. split_and!; [done..|by apply (lookup_weaken _ _ _ _ H5), Hx|done|].
      eapply Forall_impl; [exact H7|]. intros s [Hs|[->|Hs]%elem_of_cons]; [left; by eapply settled_extends|by left|right; set_solver].
Qed.

(** The documents and blobs that the documents of [contents] lead to *)
Inductive reachable (contents : gmap (string * string) string) (root : Descriptor) : Descriptor -> Prop :=
  | reach_root : reachable contents root root
  | reach_step d data successors s :
      reachable contents root d -> contents !! (Digest d, MediaType d) = Some data ->
      documentSuccessors (MediaType d) (Digest d) data = Ok successors -> s ∈ successors -> reachable contents root s.

(** The descriptor's content was delivered as it says; a document is the one
    recorded, and was understood. *)
Definition proved (contents : gmap (string * string) string) (d : Descriptor) : Prop :=
  (exists d0 data, Digest d0 = Digest d /\ Size d0 = Size d /\ genuine d0 data) /\
  (kindOf (MediaType d) <> KBlob ->
   exists d0 data, contents !! (Digest d, MediaType d) = Some data /\ Digest d0 = Digest d /\ Size d0 = Size d /\
     MediaType d0 = MediaType d /\ genuine d0 data /\ is_ok (documentSuccessors (MediaType d) (Digest d) data) = true).

Lemma settled_reachable contents v root d : graphInv contents v [] -> settled v root -> reachable contents root d -> settled v d.
Proof.
  intros [I1 I2 I3] Hr. induction 1 as [|d data l s Hd IH Hc Hl Hs]; [done|]. destruct IH as [He Hv].
  destruct (decide (kindOf (MediaType d) = KBlob)) as [Hk|Hk].
  - unfold documentSuccessors in Hl. rewrite Hk in Hl. injection Hl as <-. by apply elem_of_nil in Hs.
  - destruct (I3 _ _ He Hk) as (d0 & data0 & l0 & H1 & _ & _ & _ & _ & H6 & H7). rewrite Hc in H1. injection H1 as <-.
    rewrite Hl in H6. injection H6 as <-. rewrite Forall_forall in H7. destruct (H7 s Hs) as [|H]; [done|by apply elem_of_nil in H].
Qed.

Lemma settled_proved contents v d : graphInv contents v [] -> settled v d -> proved contents d.
Proof.
  intros [I1 I2 I3] [He Hv]. split; [by apply I1|]. intros Hk.
  destruct (I3 _ _ He Hk) as (d0 & data & l & H1 & H2 & H3 & H4 & H5 & H6 & _). exists d0, data.
  rewrite H5 in Hv. injection Hv as Hv. rewrite H6. split_and!; done.
Qed.

(** ** Termination *)

Definition measure (s : graphState) : Z :=
  ((graphDescriptorLimit - Z.of_nat (size (expanded (gVerifier s)))) `max` 0 * (graphDescriptorLimit + 1) + Z.of_nat (length (gStack s)))%Z.

Lemma graphStep_descends s s' : graphStep source s = inl s' -> (0 <= measure s' < measure s)%Z.
Proof.
  unfold graphStep, measure. destruct (gStack s) as [|d stack]; [done|]. case_match eqn:Hl; [done|]. apply Z.leb_gt in Hl.
  case_match; [done|]. case_match eqn:Hp; [done|]. case_bool_decide as Hin.
  - intros [= <-]. cbn [gVerifier gStack length]. unfold graphDescriptorLimit in *. lia.
  - destruct (expand source (gVerifier s) d (gTime s)) as [[[v l]|] t] eqn:He; [|done]. case_match eqn:Hb; [done|].
    intros [= <-]. cbn [gVerifier gStack length expanded]. apply Z.ltb_ge in Hb. apply expand_ok in He as (-> & _ & _); [|by apply negb_false_iff, Z.eqb_eq in Hp].
    rewrite size_union_alt, size_singleton. replace (size (expanded (gVerifier s) ∖ {[(Digest d, MediaType d)]})) with (size (expanded (gVerifier s)))
        by (f_equal; set_solver). rewrite length_app, length_rev. unfold graphDescriptorLimit in *. lia.
Qed.

Lemma VerifyGraph_ends v root t : exists r, VerifyGraph source v root t = inr r.
Proof.
  apply (loop_ends _ measure); [apply graphStep_descends|]. unfold measure. cbn [gVerifier gStack length].
  unfold graphRounds, graphDescriptorLimit. change (2 ^ Z.of_nat 34)%Z with 17179869184%Z. lia.
Qed.

(** What holds of every state of the loop *)
Definition loopInv (root : Descriptor) (s : graphState) : Prop :=
  exists contents, graphInv contents (gVerifier s) (gStack s) /\ (settled (gVerifier s) root \/ root ∈ gStack s).

Lemma graphStep_inv root s s' : loopInv root s -> graphStep source s = inl s' -> loopInv root s'.
Proof.
  unfold graphStep, loopInv. intros (contents & Hi & Hroot). destruct (gStack s) as [|d stack] eqn:Hs; [done|].
  case_match; [done|]. case_match; [done|]. case_match eqn:Hp; [done|]. apply negb_false_iff, Z.eqb_eq in Hp.
  case_bool_decide as Hin.
  - intros [= <-]. cbn [gVerifier gStack].
    assert (settled (gVerifier s) d) as Hd.
    { split; [done|]. destruct (inv_expanded _ _ _ Hi _ _ Hin) as [z Hz]. rewrite Hz in *. cbn in Hp. by subst. }
    exists contents. split; [by eapply inv_settle|]. destruct Hroot as [|[->|]%elem_of_cons]; auto.
  - destruct (expand source (gVerifier s) d (gTime s)) as [[[v l]|] t] eqn:He; [|done]. case_match; [done|]. intros [= <-].
    cbn [gVerifier gStack]. destruct (inv_expand _ _ _ _ _ _ _ _ Hi Hp Hin He) as [contents' Hi']. exists contents'. split; [done|].
    destruct (expand_ok _ _ _ _ _ _ He Hp) as (Hx & Hv & _). destruct Hroot as [[R1 R2]|[->|Hr]%elem_of_cons].
    + left. split; cbn; [set_solver|]. rewrite Hv. destruct (decide (Digest d = Digest root)) as [Heq|Hne].
      * rewrite <- Heq, lookup_insert_eq. rewrite Heq, R2 in Hp. cbn in Hp. by rewrite Hp.
      * by rewrite lookup_insert_ne.
    + left. split; cbn; [set_solver|]. by rewrite Hv, lookup_insert_eq.
    + right. set_solver.
Qed.

Lemma graphStep_end root s r v t : loopInv root s -> graphStep source s = inr (r, v, t) -> r = Ok tt ->
  exists contents, graphInv contents v [] /\ settled v root.
Proof.
  unfold graphStep, loopInv. intros (contents & Hi & Hroot) H ->. destruct (gStack s) as [|d stack] eqn:Hs.
  - injection H as <- <-. exists contents. split; [done|]. destruct Hroot as [|Hr]; [done|by apply elem_of_nil in Hr].
  - repeat (case_match; try done).
Qed.

(** A verifier that is new or was used for graphs that all verified *)
Inductive usable : BlobVerifier -> Prop :=
  | usable_new : usable NewBlobVerifier
  | usable_next v root t v' t' : usable v -> VerifyGraph source v root t = inr (Ok tt, v', t') -> usable v'.

Lemma loopInv_start contents v root t : graphInv contents v [] -> loopInv root {| gVerifier := v; gStack := [root]; gTime := t |}.
Proof.
  intros [I1 I2 I3]. exists contents. split; [|right; by apply list_elem_of_singleton]. constructor; [done..|].
  intros digest mediaType He Hk. destruct (I3 _ _ He Hk) as (d0 & data & l & H1 & H2 & H3 & H4 & H5 & H6 & H7).
  exists d0, data, l. split_and!; try done. eapply Forall_impl; [exact H7|]. intros x [Hx|Hx]; [by left|by apply elem_of_nil in Hx].
Qed.

Lemma graphLoop_inv k root s r v t : loopInv root s -> loop (graphStep source) k s = inr (r, v, t) -> r = Ok tt ->
  exists contents, graphInv contents v [] /\ settled v root.
Proof.
  intros Hs H Hr. pose proof (loop_invariant (graphStep source) (loopInv root)
    (fun r => r.1.1 = Ok tt -> exists contents', graphInv contents' r.1.2 [] /\ settled r.1.2 root) k s) as Hl.
  rewrite H in Hl. apply Hl; [apply graphStep_inv| |done|done].
  intros s0 [[r0 v0] t0] Hs0 Hstep Hok. by eapply graphStep_end.
Qed.

Lemma VerifyGraph_inv contents v root t r v' t' :
  graphInv contents v [] -> VerifyGraph source v root t = inr (r, v', t') -> r = Ok tt ->
  exists contents', graphInv contents' v' [] /\ settled v' root.
Proof. intros Hi. apply graphLoop_inv. by eapply loopInv_start. Qed.

Lemma usable_inv v : usable v -> exists contents, graphInv contents v [].
Proof.
  induction 1 as [|v root t v' t' _ [contents Hc] H]; [exists ∅; apply inv_new|].
  destruct (VerifyGraph_inv _ _ _ _ _ _ _ Hc H eq_refl) as (contents' & ? & _). by exists contents'.
Qed.

(** C27. Verification of an image graph, with a verifier that is new or whose
    graphs verified so far: it always ends within its bounds, and when it
    succeeds, every descriptor the documents lead to, attestations and subjects
    included, was delivered by the store with its size and digest, and every
    document was understood. *)
Theorem graph_verified v root t :
  usable v ->
  exists r v' t', VerifyGraph source v root t = inr (r, v', t') /\
    (r = Ok tt -> usable v' /\ exists contents, forall d, reachable contents root d -> proved contents d).
Proof.
  intros Hu. destruct (VerifyGraph_ends v root t) as [[[r v'] t'] H]. exists r, v', t'. split; [done|]. intros ->.
  split; [by eapply usable_next|]. destruct (usable_inv v Hu) as [contents0 H0].
  destruct (VerifyGraph_inv _ _ _ _ _ _ _ H0 H eq_refl) as (contents & Hi & Hs). exists contents. intros d Hd.
  eapply settled_proved; [exact Hi|]. by eapply settled_reachable.
Qed.

(** ** Runnable images *)

Lemma exists_bind_ok {B} d (f : bool -> G B) t b t' :
  (exists_ source d ≫= f) t = (Ok b, t') <-> exists present, Exists source t d = Ok present /\ f present (S t) = (Ok b, t').
Proof. unfold mbind, G_bind, exists_. destruct (Exists source t d); naive_solver. Qed.

Lemma decoded_bind_ok {A B} d (a : option A) (f : A -> G B) t b t' :
  (decoded d a ≫= f) t = (Ok b, t') <-> exists x, a = Some x /\ f x t = (Ok b, t').
Proof. unfold decoded. destruct a; unfold mbind, G_bind, mret, G_ret, fail; naive_solver. Qed.

(** A layer the store has *)
Definition present (layer : Descriptor) : Prop := exists t, Exists source t layer = Ok true.

Lemma checkLayers_ok layers t r t' : checkLayers source layers None t = (Ok r, t') ->
  Forall (fun l => ValidDigest (Digest l) = true /\ (0 < Size l)%Z /\ present l) layers.
Proof.
  revert t. induction layers as [|l layers IH]; intros t; cbn [checkLayers]; [constructor|].
  rewrite check_bind_ok, exists_bind_ok. intros (H & b & Hb & H2). rewrite check_bind_ok in H2. destruct H2 as (H3 & H4).
  reflect_bool. subst b. constructor; [|by eapply IH]. apply Z.leb_gt in H0. split_and!; [done..|by exists t].
Qed.

Lemma selectManifest_ok candidates first d :
  selectManifest candidates first = (d, 1%nat) -> d ∈ candidates /\ isLinuxAMD64 d = true /\
    forall c, c ∈ candidates -> isLinuxAMD64 c = true -> c = d.
Proof.
  assert (forall l x n, foldl (fun acc c => if isLinuxAMD64 c then (c, S acc.2) else acc) (x, n) l =
    (default x (last (filter (fun c => isLinuxAMD64 c = true) l)), (n + length (filter (fun c => isLinuxAMD64 c = true) l))%nat)) as H.
  { induction l as [|c l IH]; intros x n; cbn [foldl]; [by rewrite Nat.add_0_r|]. rewrite filter_cons.
    destruct (isLinuxAMD64 c) eqn:Hc; [rewrite decide_True by done|rewrite decide_False by done]; rewrite IH; [|done].
    rewrite last_cons. cbn [length snd]. f_equal; [by destruct (last _)|lia]. }
  unfold selectManifest. rewrite H. intros [= Hd Hn]. cbn in Hn.
  destruct (filter (fun c => isLinuxAMD64 c = true) candidates) as [|c [|]] eqn:Hf; [done| |done]. cbn in Hd. subst c.
  assert (forall c, isLinuxAMD64 c = true /\ c ∈ candidates <-> c = d) as Hall.
  { intros c. rewrite <- (list_elem_of_filter (fun c => isLinuxAMD64 c = true)), Hf. apply list_elem_of_singleton. }
  destruct (proj2 (Hall d) eq_refl). split_and!; [done..|]. intros c ? ?. by apply Hall.
Qed.

(** What makes an image runnable here: the documents were delivered genuine,
    the manifest is the root or the index's only one for the platform, the
    configuration says the platform, and every layer is there. *)
Record runnable (root descriptor : Descriptor) (manifest : Manifest) : Prop :=
  { run_manifest : exists data, genuine descriptor data /\ decodeManifest data = Some manifest /\ MSchemaVersion manifest = 2%Z;
    run_kind : kindOf (MediaType root) = KIndex \/ kindOf (MediaType root) = KManifest;
    run_selected : if decide (kindOf (MediaType root) = KIndex)
      then exists data index, genuine root data /\ decodeIndex data = Some index /\ descriptor ∈ Manifests index /\
        isLinuxAMD64 descriptor = true /\ (forall c, c ∈ Manifests index -> isLinuxAMD64 c = true -> c = descriptor) /\
        isManifest (MediaType descriptor) = true
      else descriptor = root;
    run_config : exists data, genuine (Config manifest) data /\
      decodeImage data = Some {| OS := "linux"; Architecture := "amd64" |};
    run_layers : Forall (fun l => ValidDigest (Digest l) = true /\ (0 < Size l)%Z /\ present l) (Layers manifest) }.

Lemma selectRuntime_ok root t d t' : selectRuntime source root t = (Ok d, t') ->
  exists data index, genuine root data /\ decodeIndex data = Some index /\ d ∈ Manifests index /\ isLinuxAMD64 d = true /\
    (forall c, c ∈ Manifests index -> isLinuxAMD64 c = true -> c = d) /\ isManifest (MediaType d) = true.
Proof.
  unfold selectRuntime. rewrite G_bind_ok. intros (data & t1 & [_ Hg]%fetchBounded_ok & H).
  rewrite decoded_bind_ok in H. destruct H as (index & Hi & H). rewrite check_bind_ok in H. destruct H as [_ H].
  destruct (selectManifest (Manifests index) root) as [d0 n] eqn:Hs. rewrite !check_bind_ok in H. destruct H as (H1 & H2 & [= -> <-]).
  reflect_bool. apply Nat.eqb_eq in H1 as ->. apply selectManifest_ok in Hs as (? & ? & ?). exists data, index. done.
Qed.

Lemma runtimeDigests_ok root t accepted v t' : runtimeDigests source root None t = (Ok (accepted, v), t') ->
  exists descriptor manifest, runnable root descriptor manifest /\ accepted = {[Digest root; Digest descriptor; Digest (Config manifest)]}.
Proof.
  unfold runtimeDigests. rewrite check_bind_ok, G_bind_ok. intros (_ & descriptor & t1 & Hsel & H).
  rewrite G_bind_ok in H. destruct H as (data & t2 & [_ Hg]%fetchBounded_ok & H). rewrite decoded_bind_ok in H.
  destruct H as (manifest & Hm & H). rewrite !check_bind_ok in H. destruct H as (H1 & H2 & H). rewrite G_bind_ok in H.
  destruct H as (config & t3 & [_ Hc]%fetchBounded_ok & H). rewrite decoded_bind_ok in H. destruct H as (image & Hi & H).
  rewrite check_bind_ok, G_bind_ok in H. destruct H as (H3 & v1 & t4 & Hl%checkLayers_ok & [= <- <- <-]).
  exists descriptor, manifest. split; [|done]. reflect_bool. apply Z.eqb_eq in H1. constructor; [by exists data| | | |done].
  - destruct (kindOf (MediaType root)); auto; done.
  - destruct (kindOf (MediaType root)); case_decide; try done.
    + by eapply selectRuntime_ok.
    + by injection Hsel as <- <-.
  - exists config. destruct image. cbn in *. apply String.eqb_eq in H, H0. by subst.
Qed.

(** C28. The runtime identities of an image are trusted only when it runs here:
    when [RuntimeDigests] succeeds, the accepted digests are exactly those of
    the root, of its one linux/amd64 manifest and of that manifest's
    configuration, all delivered genuine, and every layer is present.
    [LinuxAMD64Manifest] returns that manifest, provided no two contents have
    the same digest. *)
Theorem runnable_image root t :
  (forall accepted t', RuntimeDigests source root t = (Ok accepted, t') ->
     exists descriptor manifest, runnable root descriptor manifest /\
       accepted = {[Digest root; Digest descriptor; Digest (Config manifest)]}) /\
  (forall d t', LinuxAMD64Manifest source root t = (Ok d, t') ->
     (forall digest x y, Verified digest x = true -> Verified digest y = true -> x = y) ->
     exists manifest, runnable root d manifest).
Proof.
  split.
  - intros accepted t'. unfold RuntimeDigests. rewrite G_bind_ok. intros ([a v] & t1 & H & [= <- <-]). by eapply runtimeDigests_ok.
  - intros d t' H Hinj. unfold LinuxAMD64Manifest, ValidateLinuxAMD64 in H. rewrite G_bind_ok in H.
    destruct H as (u & t1 & Hv & H). rewrite G_bind_ok in Hv. destruct Hv as ([a v] & t2 & Hr & _).
    destruct (runtimeDigests_ok _ _ _ _ _ Hr) as (descriptor & manifest & Hrun & _). exists manifest.
    pose proof (run_selected _ _ _ Hrun) as Hsel. destruct (kindOf (MediaType root)) eqn:Hk; try done; case_decide; try done.
    + rewrite G_bind_ok in H. destruct H as (data & t3 & [_ Hg]%fetchBounded_ok & H). rewrite decoded_bind_ok in H.
      destruct H as (index & Hi & H). destruct (selectManifest (Manifests index) _) as [d0 n] eqn:Hs.
      rewrite check_bind_ok in H. destruct H as (H1 & [= -> <-]). reflect_bool. apply Nat.eqb_eq in H1 as ->.
      destruct Hsel as (data' & index' & Hg' & Hi' & Hin & Hl & Huniq & _).
      rewrite (Hinj _ data data' (proj1 (proj2 Hg)) (proj1 (proj2 Hg'))), Hi' in Hi. injection Hi as <-.
      apply selectManifest_ok in Hs as (Hd & Hld & _). by rewrite (Huniq d Hd Hld).
    + injection H as <- <-. by subst descriptor.
Qed.
End Graph.

(** ** On a concrete store *)

(** Digests are the contents themselves; ["m"] is a manifest with one layer. *)
Definition blob (mediaType digest : string) : Descriptor :=
  {| MediaType := mediaType; Digest := digest; Size := len digest; DPlatform := None |}.
Definition layer0 : Descriptor := blob "layer" "l".
Definition manifest0 : Manifest :=
  {| MSchemaVersion := 2; Config := blob MediaTypeImageConfig "c"; Layers := [layer0]; MSubject := None |}.
Definition root0 : Descriptor := blob MediaTypeImageManifest "m".
#[local] Instance smallLibraries : Libraries :=
  {| ValidDigest _ := true; Verified d data := String.eqb d data; decodeIndex _ := None;
     decodeManifest data := if String.eqb data "m" then Some manifest0 else None;
     decodeArtifact _ := None;
     decodeImage data := if String.eqb data "c" then Some {| OS := "linux"; Architecture := "amd64" |} else None |}.

(** A store that answers every request with the content of the digest; the
    layer from request [n] on *)
Definition storeFrom (n : nat) : Source :=
  {| Fetch t d := if String.eqb (Digest d) "l" && (t <? n)%nat then Err "unavailable"
                  else Ok {| rData := Digest d; rFailure := None; rClose := None |};
     Exists _ _ := Ok true; contextError _ := None |}.

Definition outcome (x : graphState + (result ociError unit * BlobVerifier * nat)) : option (result ociError unit) :=
  match x with inr (r, _, _) => Some r | inl _ => None end.

Lemma graph_verified_witness :
  exists v' t', VerifyGraph (storeFrom 0) NewBlobVerifier root0 0 = inr (Ok tt, v', t') /\
  exists contents, forall d, reachable contents root0 d -> proved (storeFrom 0) contents d.
Proof.
  destruct (graph_verified (storeFrom 0) NewBlobVerifier root0 0 (usable_new (storeFrom 0))) as (r & v' & t' & H & Hr).
  assert (r = Ok tt) as ->.
  { assert (outcome (VerifyGraph (storeFrom 0) NewBlobVerifier root0 0) = Some (Ok tt)) as Ho by (vm_compute; reflexivity).
    rewrite H in Ho. injection Ho as Ho. exact Ho. }
  exists v', t'. split; [exact H|]. exact (proj2 (Hr eq_refl)).
Defined.

Lemma runnable_image_witness : exists d manifest, runnable (storeFrom 0) root0 d manifest.
Proof.
  destruct (proj1 (runnable_image (storeFrom 0) root0 0) {["m"; "m"; "c"]} 3) as (d & manifest & H & _).
  - vm_compute. reflexivity.
  - exists d, manifest. exact H.
Defined.

(** A graph that failed is taken for verified when the verifier is used again:
    its root is recorded before what it refers to is looked at. *)
Lemma failed_graph_passes_again :
  let first := VerifyGraph (storeFrom 9) NewBlobVerifier root0 0 in
  outcome first = Some (Err (SourceFailed "unavailable")) /\
  match first with
  | inr (_, v, t) =>
      (t < 9)%nat /\ outcome (VerifyGraph (storeFrom 9) v root0 t) = Some (Ok tt) /\
      forall t' r, (t' <= t)%nat -> Fetch (storeFrom 9) t' layer0 <> Ok r
  | inl _ => False
  end.
Proof.
  cbv zeta. split; [vm_compute; reflexivity|].
  assert (match VerifyGraph (storeFrom 9) NewBlobVerifier root0 0 with
          | inr (_, v, t) => (t <? 9)%nat && bool_decide (outcome (VerifyGraph (storeFrom 9) v root0 t) = Some (Ok tt))
          | inl _ => false end = true) as H by (vm_compute; reflexivity).
  destruct (VerifyGraph (storeFrom 9) NewBlobVerifier root0 0) as [|[[r v] t]]; [discriminate|]. reflect_bool.
  apply Nat.ltb_lt in H. split_and!; [done..|]. intros t' r' Ht Hf. cbn [Fetch storeFrom] in Hf.
  rewrite (proj2 (Nat.ltb_lt t' 9)) in Hf by lia. discriminate.
Qed.
End OciTheorems.
