(* ===== verification/OciClient.v ===== *)
(** The registry client, [cli/oci/client.go], [reference.go] and [cache.go]:
    which credentials and which transport go to which registry, and what the
    operations on images and charts accept.

    The HTTP clients a registry client hands out are shared: a repository keeps
    a pointer to one, and clearing the client overwrites their credentials, but
    not their caches.  The heap of these clients is part of the state. *)
From stdpp Require Import prelude gmap strings list.
From Stdlib Require Import Ascii ZArith Lia.
From S2P Require Import Prelude GoStrings Sha256 FsPath Treehash Oci.

Module OciClient.
Import Sha256 Oci FsPath.

(** ** References *)

Record Reference := { Registry : string; Repository : string; Identifier : string }.

(** A static credential with its registry *)
Definition staticCredential : Type := string * (string * string).

(** The libraries: reference parsing, repositories, certificates and copying a
    graph, and what the cache of an HTTP client holds after requests to a
    registry; the number is the time of the call.  A cache entry, a basic
    credential or a bearer token, is told by the credential it was obtained with,
    if any; a request adds entries for the credential of its client only. *)
Class Registries :=
  { parseReference : string -> option Reference;
    newRepository : string -> bool;
    AppendCertsFromPEM : string -> bool;
    repositoryContent : string -> Source;                     (** by repository name *)
    cached : nat -> string -> option staticCredential -> list (option staticCredential) -> list (option staticCredential);
    cached_own t registry credential entries e :
      e ∈ cached t registry credential entries -> e ∈ entries \/ e = credential;
    resolve : nat -> string -> string -> result string Descriptor;
    copyGraph : nat -> string -> string -> string -> string -> result string Descriptor }.

Definition RepositoryName (r : Reference) : string := Registry r +:+ "/" +:+ Repository r.
Definition SeedReference (id : string) : string := "atum-seed.local/" +:+ id +:+ ":seed".

Inductive clientError :=
  | HostEmpty
  | CredentialsTogether
  | NoCertificate
  | InvalidReference (value : string)
  | NoTagOrDigest (value : string)
  | CannotOpen (name : string)
  | CannotResolve (reference e : string)
  | InvalidImage (reference : string) (e : ociError)
  | InvalidChart (reference : string)
  | OutsideTarget (target host : string)
  | CannotCopy (e : string)
  | WrongResult (digest wanted : string)
  | InvalidCacheIdentity (id : string).

Section Registries.
Context {RG : Registries} {LI : Libraries}.

Definition ParseReference (value : string) : result clientError Reference :=
  match parseReference (TrimSpace value) with
  | None => Err (InvalidReference value)
  | Some parsed => if String.eqb (Identifier parsed) "" then Err (NoTagOrDigest value) else Ok parsed
  end.

(** ** The client *)

Record Target := { Host : string; TLSVerify : bool }.
Record Credentials := { Username : string; Password : string; CACert : string }.

(** An HTTP client: the transport's root certificates when it has a TLS
    configuration of its own, the static credential, and the entries of
    [auth.NewCache()] *)
Record authClient :=
  { aTLS : option (option string); aCredential : option staticCredential; aCache : list (option staticCredential) }.

Record Client :=
  { target : Target; creds : Credentials; rootCAs : option string;
    heap : list authClient; clients : gmap string nat }.

Definition NewClient (tgt : Target) (c : Credentials) : result clientError Client :=
  guard_err (String.eqb (TrimSpace (Host tgt)) "") HostEmpty;;
  guard_err (negb (Bool.eqb (String.eqb (Username c) "") (String.eqb (Password c) ""))) CredentialsTogether;;
  guard_err (negb (String.eqb (CACert c) "") && negb (AppendCertsFromPEM (CACert c))) NoCertificate;;
  Ok {| target := tgt; creds := c; rootCAs := if String.eqb (CACert c) "" then None else Some (CACert c);
        heap := []; clients := ∅ |}.

(** [Clear]: every cached client loses its credential in place, but keeps what
    its cache holds. *)
Definition revoke (a : authClient) : authClient := {| aTLS := aTLS a; aCredential := None; aCache := aCache a |}.
Definition Clear (c : Client) : Client :=
  {| target := target c; creds := {| Username := ""; Password := ""; CACert := "" |}; rootCAs := None;
     heap := imap (fun i a => if bool_decide (i ∈ (map_to_list (clients c)).*2) then revoke a else a) (heap c);
     clients := ∅ |}.

Definition configure (c : Client) (registry : string) : authClient :=
  {| aTLS := if String.eqb registry (Host (target c)) && TLSVerify (target c) then Some (rootCAs c) else None;
     aCredential := if String.eqb registry (Host (target c)) && negb (String.eqb (Username (creds c)) "")
                    then Some (registry, (Username (creds c), Password (creds c))) else None;
     aCache := [] |}.

(** [authClient]: the pointer of the cached client, or of a new one *)
Definition authClientFor (c : Client) (registry : string) : nat * Client :=
  match clients c !! registry with
  | Some pointer => (pointer, c)
  | None =>
      (length (heap c),
       {| target := target c; creds := creds c; rootCAs := rootCAs c; heap := heap c ++ [configure c registry];
          clients := <[registry := length (heap c)]> (clients c) |})
  end.

(** Redirects: [via] requests were made before. *)
Definition CheckRedirect (c : Client) (via : nat) (scheme host : string) : bool :=
  if (10 <=? via)%nat then false
  else
    let plainTarget := negb (TLSVerify (target c)) && String.eqb scheme "http" && String.eqb host (Host (target c)) in
    String.eqb scheme "https" || plainTarget.

Record remoteRepository := { rReference : Reference; PlainHTTP : bool; rClient : nat }.

(** [repository]: an error leaves the client as it is. *)
Definition repository (c : Client) (reference : string) : result clientError (remoteRepository * Client) :=
  parsed ← ParseReference reference;
  guard_err (negb (newRepository (RepositoryName parsed))) (CannotOpen (RepositoryName parsed));;
  let '(pointer, c) := authClientFor c (Registry parsed) in
  Ok ({| rReference := parsed;
         PlainHTTP := String.eqb (Registry parsed) (Host (target c)) && negb (TLSVerify (target c)); rClient := pointer |}, c).

(** The requests of an operation on an open repository leave their entries in
    the cache of its HTTP client. *)
Definition remember (t : nat) (registry : string) (a : authClient) : authClient :=
  {| aTLS := aTLS a; aCredential := aCredential a; aCache := cached t registry (aCredential a) (aCache a) |}.
Definition exchange (t : nat) (r : remoteRepository) (c : Client) : Client :=
  {| target := target c; creds := creds c; rootCAs := rootCAs c;
     heap := alter (remember t (Registry (rReference r))) (rClient r) (heap c); clients := clients c |}.

(** ** Operations *)

(** They are functions of the client and the time; an operation that opened a
    repository returns the client with its HTTP client in it. *)
Definition opened (c : Client) (reference : string) {A} (f : remoteRepository -> Client -> result clientError A * Client) :
    result clientError A * Client :=
  match repository c reference with
  | Err e => (Err e, c)
  | Ok (r, c) => f r c
  end.
Definition contentOf (r : remoteRepository) : Source := repositoryContent (RepositoryName (rReference r)).

Definition Resolve (c : Client) (t : nat) (reference : string) : result clientError Descriptor * Client :=
  opened c reference (fun r c =>
    (wrap_err (CannotResolve reference) (resolve t (RepositoryName (rReference r)) (Identifier (rReference r))), exchange t r c)).

Definition ValidateImage (validate : Source -> Descriptor -> G unit) (c : Client) (t : nat) (reference : string) (d : Descriptor) :
    result clientError unit * Client :=
  opened c reference (fun r c => (wrap_err (InvalidImage reference) (validate (contentOf r) d t).1, exchange t r c)).
Definition ClientValidateLinuxAMD64 := ValidateImage (fun source d => ValidateLinuxAMD64 source d).
Definition ClientValidateLinuxAMD64Manifest := ValidateImage (fun source d => ValidateLinuxAMD64Manifest source d).

Definition helmConfig : string := "application/vnd.cncf.helm.config.v1+json".
Definition helmContent : string := "application/vnd.cncf.helm.chart.content.v1.tar+gzip".

(** The chart's documents, read from its repository *)
Definition chartContent (source : Source) (d : Descriptor) (wanted : string) (archiveSize : Z) : G bool :=
  data ← fetchBounded source d;
  manifest ← decoded d (decodeManifest data);
  if negb (MSchemaVersion manifest =? 2)%Z || negb (String.eqb (MediaType (Config manifest)) helmConfig) then mret false
  else
    fetchBounded source (Config manifest);;
    match Layers manifest with
    | [layer] =>
        if negb (String.eqb (MediaType layer) helmContent) || negb (String.eqb (Digest layer) wanted) || negb (Size layer =? archiveSize)%Z
        then mret false
        else exists_ source layer
    | _ => mret false
    end.

Definition ValidateHelmChart (c : Client) (t : nat) (reference : string) (d : Descriptor) (archiveSHA256 : string) (archiveSize : Z) :
    result clientError unit * Client :=
  let wanted := "sha256:" +:+ archiveSHA256 in
  if negb (isManifest (MediaType d)) || (archiveSize <=? 0)%Z || negb (ValidDigest wanted) then (Err (InvalidChart reference), c)
  else opened c reference (fun r c =>
    (match (chartContent (contentOf r) d wanted archiveSize t).1 with Ok true => Ok tt | _ => Err (InvalidChart reference) end, exchange t r c)).

(** The result of a copy, which must have the digest that was asked for *)
Definition copied (digest : string) (answer : result string Descriptor) : result clientError Descriptor :=
  d ← wrap_err CannotCopy answer;
  guard_err (negb (String.eqb (Digest d) digest)) (WrongResult (Digest d) digest);; Ok d.

Definition Mirror (c : Client) (t : nat) (source digest tgt : string) : result clientError Descriptor * Client :=
  opened c source (fun from c =>
    opened c tgt (fun to c =>
      if negb (String.eqb (Registry (rReference to)) (Host (target c))) then (Err (OutsideTarget tgt (Host (target c))), c)
      else (copied digest (copyGraph t (RepositoryName (rReference from)) digest (RepositoryName (rReference to))
                             (Identifier (rReference to))), exchange t to (exchange t from c)))).

Definition CopyToStore (c : Client) (t : nat) (source digest store tag : string) : result clientError Descriptor * Client :=
  opened c source (fun from c => (copied digest (copyGraph t (RepositoryName (rReference from)) digest store tag), exchange t from c)).

Definition CopyFromStore (c : Client) (t : nat) (store digest tgt : string) : result clientError Descriptor * Client :=
  opened c tgt (fun to c =>
    if negb (String.eqb (Registry (rReference to)) (Host (target c))) then (Err (OutsideTarget tgt (Host (target c))), c)
    else (copied digest (copyGraph t store digest (RepositoryName (rReference to)) (Identifier (rReference to))), exchange t to c)).

Definition CopyTargetToStore (t : nat) (source digest store tag : string) : result clientError Descriptor :=
  copied digest (copyGraph t source digest store tag).
End Registries.

(** ** Caches *)

(** [hex.DecodeString] accepts capitals; encoding again does not give them
    back, so the identity is 64 lower-case digits. *)
Definition hexValue (c : ascii) : option Z :=
  let n := Z.of_N (N_of_ascii c) in
  if is_digit c then Some (n - 48)%Z
  else if in_range "a" "f" c then Some (n - 87)%Z
  else if in_range "A" "F" c then Some (n - 55)%Z
  else None.
Fixpoint DecodeString (s : string) : option (list Z) :=
  match s with
  | "" => Some []
  | String a (String b rest) =>
      h ← hexValue a; l ← hexValue b; bytes ← DecodeString rest; Some ((16 * h + l)%Z :: bytes)
  | _ => None
  end.

Definition OfficialMirrorCacheRelative (imageID digest : string) : result clientError string :=
  let '(encoded, found) := CutPrefix digest "sha256:" in
  match DecodeString encoded with
  | Some bytes =>
      if negb found || negb (ValidName imageID) || negb (length bytes =? 32)%nat || negb (String.eqb (EncodeToString bytes) encoded)
      then Err (InvalidCacheIdentity imageID)
      else Ok (Join [".atum"; "cache"; "oci"; "mirrors"; imageID +:+ "-" +:+ encoded] "/")
  | None => Err (InvalidCacheIdentity imageID)
  end.

(** ** Custody of the credentials *)

Section Custody.
Context {RG : Registries} {LI : Libraries} (tgt : Target) (given : Credentials).

(** Every state a client comes to *)
Inductive used : Client -> Prop :=
  | used_new c : NewClient tgt given = Ok c -> used c
  | used_clear c : used c -> used (Clear c)
  | used_resolve c t reference : used c -> used (Resolve c t reference).2
  | used_validate c validate t reference d : used c -> used (ValidateImage validate c t reference d).2
  | used_chart c t reference d sha size : used c -> used (ValidateHelmChart c t reference d sha size).2
  | used_mirror c t source digest reference : used c -> used (Mirror c t source digest reference).2
  | used_to c t source digest store tag : used c -> used (CopyToStore c t source digest store tag).2
  | used_from c t store digest reference : used c -> used (CopyFromStore c t store digest reference).2
  (** a request of an operation that opened its repository earlier, even before
      the client was cleared *)
  | used_later c t r : used c -> used (exchange t r c).

(** An HTTP client as it may be for a registry *)
Definition configuredFor (registry : string) (a : authClient) : Prop :=
  aCredential a = None \/
  registry = Host tgt /\ Username given <> "" /\ aCredential a = Some (Host tgt, (Username given, Password given)).

Record clientInv (c : Client) : Prop :=
  { ci_target : target c = tgt;
    ci_creds : creds c = given \/ Username (creds c) = "";
    ci_cache : forall registry i, clients c !! registry = Some i -> exists a, heap c !! i = Some a /\ configuredFor registry a /\
      (registry = Host tgt -> TLSVerify tgt = true -> is_Some (aTLS a));
    ci_heap : forall i a, heap c !! i = Some a -> aCredential a = None \/ exists registry, clients c !! registry = Some i;
    ci_tokens : forall i a credential, heap c !! i = Some a -> Some credential ∈ aCache a -> Username given <> "" /\
      credential = (Host tgt, (Username given, Password given)) }.

Lemma authClientFor_inv c registry : clientInv c ->
  let '(i, c') := authClientFor c registry in clientInv c' /\ clients c' !! registry = Some i.
Proof.
  intros [I1 I2 I3 I4 I5]. unfold authClientFor. destruct (clients c !! registry) as [i|] eqn:Hr; [done|].
  split; [|cbn; by rewrite lookup_insert_eq]. constructor; cbn [target creds heap clients]; [done..| | |].
  - intros registry' i. rewrite lookup_insert_Some. intros [[<- <-]|[Hne Hi]].
    + rewrite lookup_app_r, Nat.sub_diag by done. exists (configure c registry). split; [done|]. unfold configuredFor, configure.
      cbn [aCredential aTLS]. rewrite I1. destruct (String.eqb_spec registry (Host tgt)) as [->|Hne]; cbn [andb].
      * split; [|by intros _ ->]. destruct (String.eqb_spec (Username (creds c)) "") as [|Hu]; cbn [negb]; [by left|].
        right. destruct I2 as [He|]; [|done]. rewrite He in *. done.
      * split; [by left|done].
    + destruct (I3 _ _ Hi) as (a & Ha & Hc). exists a. split; [|done]. by apply lookup_app_l_Some.
  - intros i a. rewrite lookup_app_Some. intros [Hi|[Hl Hi]].
    + destruct (I4 _ _ Hi) as [|(r & Hc)]; [by left|]. right. exists r. rewrite lookup_insert_ne; [done|]. by intros ->; rewrite Hr in Hc.
    + right. exists registry. rewrite lookup_insert_eq. apply list_lookup_singleton_Some in Hi as [Hi _]. f_equal. lia.
  - intros i a credential. rewrite lookup_app_Some. intros [Hi|[_ Hi]]; [by eapply I5|].
    apply list_lookup_singleton_Some in Hi as [_ <-]. by intros ?%elem_of_nil.
Qed.

Lemma repository_inv c reference r c' : clientInv c -> repository c reference = Ok (r, c') ->
  clientInv c' /\ clients c' !! Registry (rReference r) = Some (rClient r) /\
  (PlainHTTP r = true <-> Registry (rReference r) = Host tgt /\ TLSVerify tgt = false).
Proof.
  intros Hi H. unfold repository in H. apply bind_ok_iff in H as (parsed & _ & H). apply guard_bind_iff in H as [_ H].
  pose proof (authClientFor_inv c (Registry parsed) Hi) as Ha. destruct (authClientFor c (Registry parsed)) as [i c1].
  destruct Ha as [Hi' Hl]. injection H as <- <-. cbn [rReference rClient PlainHTTP]. split_and!; [done..|].
  rewrite (ci_target _ Hi'), andb_true_iff, negb_true_iff, String.eqb_eq. done.
Qed.

Lemma remember_spec t registry a : aTLS (remember t registry a) = aTLS a /\
  aCredential (remember t registry a) = aCredential a /\
  (forall e, e ∈ aCache (remember t registry a) -> e ∈ aCache a \/ e = aCredential a).
Proof. cbn. split_and!; [done..|]. intros e. apply cached_own. Qed.

Lemma exchange_lookup t r c i a : heap (exchange t r c) !! i = Some a ->
  exists a0, heap c !! i = Some a0 /\ aTLS a = aTLS a0 /\ aCredential a = aCredential a0 /\
    (forall e, e ∈ aCache a -> e ∈ aCache a0 \/ e = aCredential a0).
Proof.
  cbn [heap exchange]. destruct (decide (i = rClient r)) as [->|Hne].
  - rewrite list_lookup_alter_eq. destruct (heap c !! rClient r) as [a0|]; [|done]. intros [= <-]. exists a0.
    destruct (remember_spec t (Registry (rReference r)) a0) as (H1 & H2 & H3). by split_and!.
  - rewrite list_lookup_alter_ne by done. intros Ha. exists a. auto.
Qed.

Lemma exchange_inv t r c : clientInv c -> clientInv (exchange t r c).
Proof.
  intros [I1 I2 I3 I4 I5]. constructor; [done|done| | |].
  - intros registry i Hi. destruct (I3 registry i Hi) as (a0 & Ha0 & Hc & Ht).
    assert (is_Some (heap (exchange t r c) !! i)) as [a Ha].
    { apply lookup_lt_is_Some. cbn [heap exchange]. rewrite length_alter. by apply lookup_lt_Some in Ha0. }
    exists a. destruct (exchange_lookup t r c i a Ha) as (b & Hb & H1 & H2 & _). rewrite Ha0 in Hb. injection Hb as <-.
    unfold configuredFor. rewrite H1, H2. by split_and!.
  - intros i a Ha. destruct (exchange_lookup t r c i a Ha) as (b & Hb & _ & H2 & _). rewrite H2. by apply (I4 i b).
  - intros i a credential Ha Hin. destruct (exchange_lookup t r c i a Ha) as (b & Hb & _ & _ & Hcache).
    destruct (Hcache _ Hin) as [Hin'|Hin']; [by eapply I5|]. clear Hin; rename Hin' into Hin.
    destruct (I4 i b Hb) as [Hnone|(registry & Hr)]; [congruence|].
    destruct (I3 registry i Hr) as (b' & Hb' & Hconf & _). rewrite Hb in Hb'. injection Hb' as <-.
    destruct Hconf as [|(_ & Hu & Hcr)]; [congruence|]. split; [done|]. congruence.
Qed.

Lemma opened_inv c reference {A} (f : remoteRepository -> Client -> result clientError A * Client) :
  clientInv c -> (forall r c, clientInv c -> clientInv (f r c).2) -> clientInv (opened c reference f).2.
Proof.
  intros Hi Hf. unfold opened. destruct (repository c reference) as [[r c']|] eqn:H; [|done]. apply Hf. by eapply repository_inv.
Qed.

Lemma Clear_revokes c : clientInv c -> Forall (fun a => aCredential a = None) (heap (Clear c)).
Proof.
  intros [_ _ _ I4 _]. apply Forall_lookup. intros i a. cbn [Clear heap]. rewrite list_lookup_imap.
  destruct (heap c !! i) as [b|] eqn:Hb; [|done]. intros [= <-]. case_bool_decide as Hin; [done|].
  destruct (I4 _ _ Hb) as [|(registry & Hr)]; [done|]. exfalso. apply Hin, list_elem_of_fmap. exists (registry, i).
  split; [done|]. by apply elem_of_map_to_list.
Qed.

(** Clearing changes nothing else of an HTTP client. *)
Lemma Clear_lookup c i a : heap (Clear c) !! i = Some a -> exists b, heap c !! i = Some b /\ aCache a = aCache b.
Proof.
  cbn [Clear heap]. rewrite list_lookup_imap. destruct (heap c !! i) as [b|]; [|done]. intros [= <-]. exists b.
  split; [done|]. by case_bool_decide.
Qed.

Lemma used_inv c : used c -> clientInv c.
Proof.
  induction 1 as [c H|c _ IH| | | | | | |].
  - unfold NewClient in H. rewrite !guard_bind_iff in H. destruct H as (_ & _ & _ & [= <-]).
    constructor; cbn; [done|by left|by intros ? ? ?%lookup_empty_Some|done|done].
  - pose proof (Clear_revokes c IH) as Hr. destruct IH as [I1 _ _ _ I5]. constructor; cbn [target creds clients Clear];
      [done|by right|by intros ? ? ?%lookup_empty_Some| |].
    + intros i a Ha. left. rewrite Forall_lookup in Hr. by eapply Hr.
    + intros i a credential Ha Hin. destruct (Clear_lookup c i a Ha) as (b & Hb & Heq). rewrite Heq in Hin. by eapply I5.
  - apply opened_inv; [done|]. intros. by apply exchange_inv.
  - apply opened_inv; [done|]. intros. by apply exchange_inv.
  - unfold ValidateHelmChart. case_match; [done|]. apply opened_inv; [done|]. intros. by apply exchange_inv.
  - apply opened_inv; [done|]. intros r c' Hc'. apply opened_inv; [done|]. intros. case_match; [done|]. by do 2 apply exchange_inv.
  - apply opened_inv; [done|]. intros. by apply exchange_inv.
  - apply opened_inv; [done|]. intros. case_match; [done|]. by apply exchange_inv.
  - by apply exchange_inv.
Qed.

Lemma copied_ok digest answer d : copied digest answer = Ok d -> Digest d = digest.
Proof.
  unfold copied. rewrite bind_ok_iff. intros (d' & _ & H). apply guard_bind_iff in H as [H [= ->]].
  by apply negb_false_iff, String.eqb_eq in H.
Qed.

Lemma repository_parsed c reference r c' : repository c reference = Ok (r, c') -> ParseReference reference = Ok (rReference r).
Proof.
  unfold repository. intros H. apply bind_ok_iff in H as (parsed & Hp & H). apply guard_bind_iff in H as [_ H].
  destruct (authClientFor c (Registry parsed)) as [i c3]. by injection H as <- <-.
Qed.

(** A successful publication goes to the target registry. *)
Lemma opened_target {A} c reference (f : remoteRepository -> Client -> result clientError A * Client) x c' :
  opened c reference f = (Ok x, c') -> exists r c1, repository c reference = Ok (r, c1) /\ f r c1 = (Ok x, c').
Proof. unfold opened. destruct (repository c reference) as [[r c1]|]; [|done]. eauto. Qed.

(** C29. Custody of the registry credentials, in every state a client comes to,
    requests of earlier operations after its end included: an HTTP client carries a
    credential only for the target registry, and only the one given, and the tokens
    in its cache were obtained with that one or as nobody; a repository elsewhere
    is opened without; plain HTTP is spoken to the target alone, when it is
    declared without TLS, and redirects may leave HTTPS only for it.  Clearing the
    client takes the credential from every HTTP client that was handed out, whose
    later requests obtain nothing with it any more; but their caches stay as they
    are, so that a token obtained before still serves them.  What is mirrored or
    published from a store goes to the target and has the digest that was asked
    for. *)
Theorem registry_custody c :
  used c ->
  (forall a host credential, a ∈ heap c -> aCredential a = Some (host, credential) ->
     host = Host tgt /\ credential = (Username given, Password given) /\ Username given <> "") /\
  (forall a host credential, a ∈ heap c -> Some (host, credential) ∈ aCache a ->
     host = Host tgt /\ credential = (Username given, Password given) /\ Username given <> "") /\
  Forall (fun a => aCredential a = None) (heap (Clear c)) /\
  (forall i a, heap (Clear c) !! i = Some a -> exists b, heap c !! i = Some b /\ aCache a = aCache b) /\
  (forall t r i a, heap (exchange t r (Clear c)) !! i = Some a ->
     exists b, heap c !! i = Some b /\ forall e, e ∈ aCache a -> e ∈ aCache b \/ e = None) /\
  (forall reference r c', repository c reference = Ok (r, c') ->
     (PlainHTTP r = true <-> Registry (rReference r) = Host tgt /\ TLSVerify tgt = false) /\
     exists a, heap c' !! rClient r = Some a /\ (is_Some (aCredential a) -> Registry (rReference r) = Host tgt) /\
       (Registry (rReference r) = Host tgt -> TLSVerify tgt = true -> is_Some (aTLS a))) /\
  (forall via scheme host, CheckRedirect c via scheme host = true ->
     (via < 10)%nat /\ (scheme = "https" \/ scheme = "http" /\ host = Host tgt /\ TLSVerify tgt = false)) /\
  (forall t source digest reference d c', Mirror c t source digest reference = (Ok d, c') ->
     Digest d = digest /\ exists r, ParseReference reference = Ok r /\ Registry r = Host tgt) /\
  (forall t store digest reference d c', CopyFromStore c t store digest reference = (Ok d, c') ->
     Digest d = digest /\ exists r, ParseReference reference = Ok r /\ Registry r = Host tgt).
Proof.
  intros Hi%used_inv. split_and!.
  - intros a host credential [i Ha]%list_elem_of_lookup Hc. destruct (ci_heap _ Hi _ _ Ha) as [|(registry & Hr)]; [congruence|].
    destruct (ci_cache _ Hi _ _ Hr) as (b & Hb & [|(-> & Hu & Heq)] & _); [congruence|].
    rewrite Ha in Hb. injection Hb as <-. rewrite Hc in Heq. injection Heq as -> ->. done.
  - intros a host credential [i Ha]%list_elem_of_lookup Hin. destruct (ci_tokens _ Hi i a _ Ha Hin) as [Hu [= -> ->]]. done.
  - by apply Clear_revokes.
  - intros i a. apply Clear_lookup.
  - intros t r i a Ha. destruct (exchange_lookup t r (Clear c) i a Ha) as (a0 & Ha0 & _ & _ & Hcache).
    pose proof (Clear_revokes c Hi) as Hrev. rewrite Forall_lookup in Hrev. rewrite (Hrev i a0 Ha0) in Hcache.
    destruct (Clear_lookup c i a0 Ha0) as (b & Hb & Heq). exists b. split; [done|]. intros e. rewrite <- Heq. apply Hcache.
  - intros reference r c' H. destruct (repository_inv _ _ _ _ Hi H) as (Hi' & Hl & Hp). split; [done|].
    destruct (ci_cache _ Hi' _ _ Hl) as (a & Ha & Hcf & Ht). exists a. split_and!; [done| |done].
    intros [x Hx]. destruct Hcf as [|(? & _)]; [congruence|done].
  - intros via scheme host. unfold CheckRedirect. rewrite (ci_target _ Hi). destruct (Nat.leb_spec 10 via); [done|].
    rewrite orb_true_iff, !andb_true_iff, negb_true_iff, !String.eqb_eq. split; [lia|]. naive_solver.
  - intros t source digest reference d c' H. unfold Mirror in H. apply opened_target in H as (from & c1 & H1 & H).
    apply opened_target in H as (to & c2 & H2 & H). destruct (repository_inv _ _ _ _ Hi H1) as (Hi1 & _ & _).
    destruct (repository_inv _ _ _ _ Hi1 H2) as (Hi2 & _ & _). rewrite (ci_target _ Hi2) in H.
    case_match eqn:Hh; [done|]. apply negb_false_iff, String.eqb_eq in Hh. injection H as Hd%copied_ok <-. split; [done|].
    exists (rReference to). split; [by eapply repository_parsed|done].
  - intros t store digest reference d c' H. unfold CopyFromStore in H. apply opened_target in H as (to & c2 & H2 & H).
    destruct (repository_inv _ _ _ _ Hi H2) as (Hi2 & _ & _). rewrite (ci_target _ Hi2) in H.
    case_match eqn:Hh; [done|]. apply negb_false_iff, String.eqb_eq in Hh. injection H as Hd%copied_ok <-. split; [done|].
    exists (rReference to). split; [by eapply repository_parsed|done].
Qed.
End Custody.

(** ** A client of one registry *)

#[local] Instance noDocuments : Libraries :=
  {| ValidDigest _ := true; Verified _ _ := true; decodeIndex _ := None; decodeManifest _ := None; decodeArtifact _ := None;
     decodeImage _ := None |}.
#[local] Instance oneRegistry : Registries.
Proof.
  refine {| parseReference s := Some {| Registry := s; Repository := "r"; Identifier := "t" |}; newRepository _ := true;
     AppendCertsFromPEM _ := true;
     repositoryContent _ := {| Fetch _ _ := Err "none"; Exists _ _ := Ok false; contextError _ := None |};
     cached _ registry credential entries := if String.eqb registry "registry.local" then credential :: entries else entries;
     resolve _ _ _ := Err "none";
     copyGraph _ _ digest _ _ := Ok {| MediaType := ""; Digest := digest; Size := 1; DPlatform := None |} |}.
  intros t registry credential entries e. case_match; [|by left]. intros [->|]%elem_of_cons; auto.
Defined.
Definition target0 : Target := {| Host := "registry.local"; TLSVerify := true |}.
Definition creds0 : Credentials := {| Username := "robot"; Password := "secret"; CACert := "" |}.
Definition client0 : Client := {| target := target0; creds := creds0; rootCAs := None; heap := []; clients := ∅ |}.

(** Mirroring from another registry: its client has no credential, the target's
    has one until the client is cleared, and keeps the token it was given. *)
Lemma registry_custody_witness :
  let m := Mirror client0 0 "other.test" "d" "registry.local" in
  aCredential <$> heap m.2 = [None; Some ("registry.local", ("robot", "secret"))] /\
  Forall (fun a => aCredential a = None) (heap (Clear m.2)) /\
  aCache <$> heap (Clear m.2) = [[]; [Some ("registry.local", ("robot", "secret"))]].
Proof.
  cbv zeta. split; [vm_compute; reflexivity|]. split; [|vm_compute; reflexivity].
  apply (registry_custody target0 creds0). apply used_mirror, used_new. reflexivity.
Defined.
End OciClient.
