(* ===== verification/OfficialImage.v ===== *)
(** The file system of an official image, [cli/update/image_admission.go]: the
    layers of the image are applied to an index of its paths, whiteouts
    included, and the paths a workload needs are resolved in it; then the
    comparison of what is found with what is required.

    An image is read as the archive library delivers it, entry by entry; it may
    be read twice, so the reading is numbered. *)
From stdpp Require Import prelude gmap strings list sorting.
From Stdlib Require Import Ascii ZArith Lia.
From S2P Require Import Prelude GoStrings Sha256 FsPath Treehash.

Module OfficialImage.
Import FsPath Sha256 Treehash.

(** ** [path] *)

Definition TrimSlashes (s : string) : string :=
  let fix left s := match s with String "/" rest => left rest | _ => s end in
  str_rev (left (str_rev (left s))).

(** [path.Dir] *)
Definition DirOf (p : string) : string :=
  match LastIndexByte p sep with Some i => Clean (str_take (S i) p) | None => "." end.
(** [path.Base] *)
Definition BaseOf (p : string) : string :=
  match last (filter (fun e => e <> "") (Split p sep)) with
  | Some e => e
  | None => if String.eqb p "" then "." else "/"
  end.
(** [path.Join] *)
Fixpoint dropEmpty (l : list string) : list string :=
  match l with "" :: rest => dropEmpty rest | _ => l end.
Definition JoinAll (l : list string) : string :=
  let s := Join (dropEmpty l) seps in if String.eqb s "" then "" else Clean s.

Definition maxOfficialFilesystemBytes : Z := 8589934592.
Definition maxOfficialEntrypointBytes : Z := 1048576.
Definition maxOfficialFilesystemEntries : Z := 2000000.

(** ** Archives *)

Definition TypeReg : ascii := "0".
Definition TypeRegA : ascii := "000".
Definition TypeLink : ascii := "1".
Definition TypeSymlink : ascii := "2".
Definition TypeDir : ascii := "5".
Definition is_regular (kind : ascii) : bool := Ascii.eqb kind TypeReg || Ascii.eqb kind TypeRegA.
Definition is_link (kind : ascii) : bool := Ascii.eqb kind TypeSymlink || Ascii.eqb kind TypeLink.

(** A header, with what reading the entry's content would deliver *)
Record Header :=
  { HName : string; HSize : Z; HMode : Z; HUid : Z; HGid : Z; Typeflag : ascii; Linkname : string; HContent : result string string }.
(** A layer: its entries, then the end of the archive or a problem *)
Record Layer := { lOpen : option string; lEntries : list Header; lEnd : option string; lClose : option string }.
(** One reading of the image *)
Definition Image : Type := nat -> result string (list Layer).

Record officialPathState :=
  { present : bool; mode : Z; uid : Z; gid : Z; kind : ascii; link : string; content : string; resolved : string; contentKnown : bool }.
Definition absentState : officialPathState :=
  {| present := false; mode := 0; uid := 0; gid := 0; kind := "000"; link := ""; content := ""; resolved := ""; contentKnown := false |}.

(** ** The index *)

Record officialPathIndex := { states : gmap string officialPathState; children : gmap string (gset string) }.
Definition newOfficialPathIndex : officialPathIndex := {| states := ∅; children := ∅ |}.

Definition officialPathParent (name : string) : string :=
  let parent := DirOf name in if String.eqb parent "." then "" else parent.

Definition childrenOf (index : officialPathIndex) (name : string) : gset string := default ∅ (children index !! name).

Definition set (index : officialPathIndex) (name : string) (state : officialPathState) : officialPathIndex :=
  {| states := <[name := state]> (states index);
     children := match states index !! name with
                 | Some _ => children index
                 | None => let parent := officialPathParent name in <[parent := {[name]} ∪ childrenOf index parent]> (children index)
                 end |}.

(** The maps are walked in an order of their own. *)
Section Index.
Context (order : gset string -> list string).

(** The loop over the stack, whose top is the head of the list *)
Fixpoint removeLoop (fuel : nat) (index : officialPathIndex) (stack : list string) : option officialPathIndex :=
  match stack with
  | [] => Some index
  | current :: stack =>
      match fuel with
      | O => None
      | S fuel =>
          removeLoop fuel {| states := delete current (states index); children := delete current (children index) |}
            (rev (order (childrenOf index current)) ++ stack)
      end
  end.

(** Every name in the index is pushed once. *)
Definition childCount (index : officialPathIndex) : nat := map_fold (fun _ s n => (size s + n)%nat) O (children index).

Definition removeSubtree (index : officialPathIndex) (root : string) : option officialPathIndex :=
  let parent := officialPathParent root in
  let index := {| states := states index;
                  children := match children index !! parent with
                              | Some s => <[parent := s ∖ {[root]}]> (children index)
                              | None => children index
                              end |} in
  removeLoop (S (childCount index)) index [root].

Fixpoint removeChildrenLoop (fuel : nat) (index : officialPathIndex) (root : string) : option officialPathIndex :=
  match order (childrenOf index root) with
  | [] => Some index
  | child :: _ =>
      match fuel with
      | O => None
      | S fuel => index ← removeSubtree index child; removeChildrenLoop fuel index root
      end
  end.
Definition removeChildren (index : officialPathIndex) (root : string) : option officialPathIndex :=
  removeChildrenLoop (size (childrenOf index root)) index root.

(** ** Reading the layers *)

Inductive officialError :=
  | LayersFailed (e : string)
  | ReadFailed (e : string)
  | TooManyBytes
  | EntrypointTooLong (path : string)
  | TooManyEntries
  | ResolveFailed (path : string) (e : resolveError)
with resolveError :=
  | ChainTooLong
  | LinkCycle (path : string)
  | EmptyTarget (path : string)
  | DanglingLink (path target : string).

Definition cleanName (name : string) : string := TrimPrefix (Clean (seps +:+ name)) seps.

Definition wrap64 (z : Z) : Z := ((z + 2 ^ 63) mod 2 ^ 64 - 2 ^ 63)%Z.

(** What one entry does to the paths *)
Inductive change := Skip | Opaque (directory : string) | Whiteout (deleted : string) | Put (name : string).
Definition changeOf (name : string) : change :=
  let clean := cleanName name in
  if String.eqb clean "" || String.eqb clean "." then Skip
  else
    let base := BaseOf clean in
    if HasPrefix base ".wh." then
      let directory := officialPathParent clean in
      if String.eqb base ".wh..wh..opq" then Opaque directory
      else Whiteout (JoinAll [directory; TrimPrefix base ".wh."])
    else Put clean.

(** [io.ReadAll] of at most a mebibyte and one byte *)
Definition readContent (clean : string) (h : Header) : result officialError string :=
  guard_err (maxOfficialEntrypointBytes <? HSize h)%Z (EntrypointTooLong clean);;
  content ← wrap_err ReadFailed (HContent h);
  guard_err (maxOfficialEntrypointBytes <? Z.of_nat (String.length content))%Z (EntrypointTooLong clean);;
  Ok content.

Definition stateOf (h : Header) (content : option string) : officialPathState :=
  {| present := true; mode := HMode h; uid := HUid h; gid := HGid h; kind := Typeflag h; link := Linkname h;
     content := default "" content; resolved := ""; contentKnown := bool_decide (is_Some content) |}.

(** One entry of the first reading; [None]: a loop ran out of its bound *)
Definition applyEntry (queries : gset string) (h : Header) (index : officialPathIndex) : option (result officialError officialPathIndex) :=
  match changeOf (HName h) with
  | Skip => Some (Ok index)
  | Opaque directory => Ok <$> removeChildren index directory
  | Whiteout deleted => Ok <$> removeSubtree index deleted
  | Put clean => Some
      (content ← (if bool_decide (clean ∈ queries) && is_regular (Typeflag h) then c ← readContent clean h; Ok (Some c) else Ok None);
       guard_err (bool_decide (states index !! clean = None) && (maxOfficialFilesystemEntries <=? Z.of_nat (size (states index)))%Z)
         TooManyEntries;;
       Ok (set index clean (stateOf h content)))
  end.

(** The state of a reading: the bytes seen so far and what was built *)
Section Reading.
Context {A : Type} (apply : Header -> A -> option (result officialError A)).
Fixpoint readEntries (entries : list Header) (processed : Z) (a : A) : option (result officialError (Z * A)) :=
  match entries with
  | [] => Some (Ok (processed, a))
  | h :: entries =>
      let processed := wrap64 (processed + HSize h) in
      if (maxOfficialFilesystemBytes <? processed)%Z then Some (Err TooManyBytes)
      else
        r ← apply h a;
        match r with Ok a => readEntries entries processed a | Err e => Some (Err e) end
  end.
Fixpoint readLayers (layers : list Layer) (processed : Z) (a : A) : option (result officialError A) :=
  match layers with
  | [] => Some (Ok a)
  | l :: layers =>
      match lOpen l with
      | Some e => Some (Err (ReadFailed e))
      | None =>
          r ← readEntries (lEntries l) processed a;
          match r with
          | Err e => Some (Err e)
          | Ok (processed, a) =>
              match lEnd l, lClose l with
              | Some e, _ => Some (Err (ReadFailed e))
              | None, Some e => Some (Err (ReadFailed e))
              | None, None => readLayers layers processed a
              end
          end
      end
  end.
End Reading.

(** ** Resolving a path *)

(** The first prefix of the path that is a link *)
Fixpoint firstLink (index : officialPathIndex) (components : list string) (i n : nat) : option (nat * string * officialPathState) :=
  match n with
  | O => None
  | S n =>
      let prefix := JoinAll (take (S i) components) in
      match states index !! prefix with
      | Some state => if is_link (kind state) then Some (i, prefix, state) else firstLink index components (S i) n
      | None => firstLink index components (S i) n
      end
  end.

(** Where a link leads, with the rest of the path *)
Definition linkTarget (components : list string) (i : nat) (prefix : string) (state : officialPathState) : string :=
  let target := link state in
  let target := if Ascii.eqb (kind state) TypeSymlink && negb (IsAbs target) then JoinAll [DirOf (seps +:+ prefix); target] else target in
  let target := if (S i <? length components)%nat then JoinAll [target; JoinAll (drop (S i) components)] else target in
  cleanName target.

(** The directory that is implicit in the archive *)
Definition implicitDirectory : officialPathState :=
  {| present := true; mode := 493; uid := 0; gid := 0; kind := TypeDir; link := ""; content := ""; resolved := ""; contentKnown := false |}.

Definition with_link (s : officialPathState) (l : string) : officialPathState :=
  {| present := present s; mode := mode s; uid := uid s; gid := gid s; kind := kind s; link := l; content := content s;
     resolved := resolved s; contentKnown := contentKnown s |}.
Definition with_resolved (s : officialPathState) (r : string) : officialPathState :=
  {| present := present s; mode := mode s; uid := uid s; gid := gid s; kind := kind s; link := link s; content := content s;
     resolved := r; contentKnown := contentKnown s |}.
Definition with_content (s : officialPathState) (c : string) : officialPathState :=
  {| present := present s; mode := mode s; uid := uid s; gid := gid s; kind := kind s; link := link s; content := c;
     resolved := resolved s; contentKnown := true |}.

Fixpoint resolveOfficialPath (fuel : nat) (index : officialPathIndex) (current : string) (visited : gset string) :
    option (result resolveError officialPathState) :=
  match fuel with
  | O => None
  | S fuel =>
      if (64 <? size visited)%nat then Some (Err ChainTooLong)
      else if bool_decide (current ∈ visited) then Some (Err (LinkCycle current))
      else
        let components := Split (TrimSlashes current) sep in
        match firstLink index components 0 (length components) with
        | Some (i, prefix, state) =>
            if String.eqb (link state) "" then Some (Err (EmptyTarget prefix))
            else
              let target := linkTarget components i prefix state in
              r ← resolveOfficialPath fuel index target ({[current]} ∪ visited);
              Some (match r with
                    | Err e => Err e
                    | Ok found =>
                        if negb (present found) then
                          if (S i <? length components)%nat then Ok absentState else Err (DanglingLink prefix target)
                        else Ok (with_link found (link state))
                    end)
        | None =>
            Some (Ok (match states index !! current with
                      | Some state => with_resolved state current
                      | None => if bool_decide (childrenOf index current = ∅) then absentState else implicitDirectory
                      end))
        end
  end.

(** A chain visits 65 paths before it is refused. *)
Definition resolveFuel : nat := 66.

(** ** The second reading, for contents behind links *)

(** The ancestors of a path, itself first, up to the root *)
Fixpoint ancestors (fuel : nat) (p : string) : list string :=
  match fuel with
  | O => [p]
  | S fuel => p :: (if String.eqb p "" then [] else ancestors fuel (officialPathParent p))
  end.
Definition under (ancestor p : string) : bool := bool_decide (ancestor ∈ ancestors (String.length p) p).

(** [requestedSubtrees[directory]] holds the requested paths under it. *)
Definition forget (requested : gset string) (contents : gmap string string) (drop : string -> bool) : gmap string string :=
  filter (fun kc => negb (bool_decide (kc.1 ∈ requested) && drop kc.1) = true) contents.

Definition applyContent (requested : gset string) (h : Header) (contents : gmap string string) :
    option (result officialError (gmap string string)) :=
  let clean := cleanName (HName h) in
  let base := BaseOf clean in
  Some
    (if HasPrefix base ".wh." then
       let directory := officialPathParent clean in
       if String.eqb base ".wh..wh..opq" then
         Ok (forget requested contents (fun p => under directory p && negb (String.eqb p directory)))
       else Ok (forget requested contents (under (JoinAll [directory; TrimPrefix base ".wh."])))
     else if negb (bool_decide (clean ∈ requested)) || negb (is_regular (Typeflag h)) then Ok contents
     else content ← readContent clean h; Ok (<[clean := content]> contents)).

Definition readOfficialFileContents (image : Image) (pass : nat) (requested : gset string) : option (result officialError (gmap string string)) :=
  match image pass with
  | Err e => Some (Err (LayersFailed e))
  | Ok layers => readLayers (applyContent requested) layers 0 ∅
  end.

(** ** The inspection *)

Definition queriesOf (contentPaths : list string) : gset string :=
  list_to_set (filter (fun p => p <> "." /\ p <> "") (cleanName <$> contentPaths)).

Fixpoint resolveAll (index : officialPathIndex) (queries : gset string) (required : list string)
    (result_ : gmap string officialPathState) (missing : gset string) :
    option (result officialError (gmap string officialPathState * gset string)) :=
  match required with
  | [] => Some (Ok (result_, missing))
  | p :: required =>
      let clean := cleanName p in
      r ← resolveOfficialPath resolveFuel index clean ∅;
      match r with
      | Err e => Some (Err (ResolveFailed p e))
      | Ok state =>
          resolveAll index queries required (<[p := state]> result_)
            (if bool_decide (clean ∈ queries) && present state && negb (contentKnown state) && negb (String.eqb (resolved state) "")
             then {[resolved state]} ∪ missing else missing)
      end
  end.

Definition withContents (contents : gmap string string) (state : officialPathState) : officialPathState :=
  match contents !! resolved state with Some c => with_content state c | None => state end.

Definition addContents (image : Image) (found : gmap string officialPathState) (missing : gset string) :
    option (result officialError (gmap string officialPathState)) :=
  if bool_decide (missing = ∅) then Some (Ok found)
  else
    r ← readOfficialFileContents image 1 missing;
    Some (match r with Err e => Err e | Ok contents => Ok (withContents contents <$> found) end).

Definition inspectOfficialFilesystem (image : Image) (requiredPaths contentPaths : list string) :
    option (result officialError (gmap string officialPathState)) :=
  let queries := queriesOf contentPaths in
  match image O with
  | Err e => Some (Err (LayersFailed e))
  | Ok layers =>
      r ← readLayers (applyEntry queries) layers 0 newOfficialPathIndex;
      match r with
      | Err e => Some (Err e)
      | Ok index =>
          r ← resolveAll index queries requiredPaths ∅ ∅;
          match r with
          | Err e => Some (Err e)
          | Ok (found, missing) => addContents image found missing
          end
      end
  end.
End Index.
End OfficialImage.
