(* ===== verification/OfficialTheorems.v ===== *)
(** The index of an official image's paths: what its removals do, that they
    end, and that applying the layers through the index gives the overlay of
    the layers when every directory is listed. *)
From stdpp Require Import prelude gmap strings list sorting.
From Stdlib Require Import Ascii ZArith Lia.
From S2P Require Import Prelude GoStrings Sha256 FsPath Treehash OfficialImage.

Module OfficialTheorems.
Import FsPath OfficialImage.

(** ** Names and their elements *)

Definition elems (n : string) : list string := filter (fun e => e <> "") (Split n sep).

(** A clean path without a leading slash *)
Definition named (n : string) : Prop := exists l, Forall plain_element l /\ n = Join l seps.
(** A path that is its elements; [.] and [..] are such paths too. *)
Definition normal (n : string) : Prop := n = Join (elems n) seps.

Definition below (root n : string) : Prop := elems root `prefix_of` elems n.
#[global] Instance below_dec root n : Decision (below root n).
Proof. unfold below. apply _. Defined.

Lemma filter_nonempty l : Forall (fun e => e <> "") l -> filter (fun e => e <> "") l = l.
Proof. induction 1 as [|x l Hx Hl IH]; [done|]. rewrite filter_cons_True by done. by rewrite IH. Qed.

Lemma plain_nonempty l : Forall plain_element l -> Forall (fun e => e <> "") l.
Proof. intros H. eapply Forall_impl; [exact H|]. by intros ? []. Qed.

Lemma elems_Join l : Forall (fun e => e <> "" /\ IndexByte e sep = None) l -> elems (Join l seps) = l.
Proof.
  intros Hl. destruct l as [|x l]; [done|]. unfold elems. change seps with (String sep EmptyString). rewrite (Split_Join (x :: l) sep); [|done|].
  - apply filter_nonempty. eapply Forall_impl; [exact Hl|]. by intros ? [].
  - eapply Forall_impl; [exact Hl|]. by intros ? [].
Qed.

Lemma plain_words l : Forall plain_element l -> Forall (fun e => e <> "" /\ IndexByte e sep = None) l.
Proof. intros H. eapply Forall_impl; [exact H|]. intros ? (? & _ & _ & ?). done. Qed.

Lemma elems_named l : Forall plain_element l -> elems (Join l seps) = l.
Proof. intros H. by apply elems_Join, plain_words. Qed.

Lemma named_normal n : named n -> normal n.
Proof. intros (l & Hl & ->). unfold normal. by rewrite elems_named. Qed.

Lemma named_plain n : named n -> Forall plain_element (elems n).
Proof. intros (l & Hl & ->). by rewrite elems_named. Qed.

Lemma normal_inj a b : normal a -> normal b -> elems a = elems b -> a = b.
Proof. intros Ha Hb H. rewrite Ha, Hb. by rewrite H. Qed.

Lemma LastIndexByte_None s b : IndexByte s b = None -> LastIndexByte s b = None.
Proof.
  induction s as [|c s IH]; [done|]. cbn [IndexByte LastIndexByte]. destruct (Ascii.eqb c b); [done|].
  destruct (IndexByte s b); [done|]. intros _. by rewrite IH.
Qed.

Lemma LastIndexByte_append s b x : IndexByte x b = None -> LastIndexByte (s +:+ String b x) b = Some (String.length s).
Proof.
  intros Hx. induction s as [|c s IH].
  - rewrite str_append_nil_l. cbn [LastIndexByte]. rewrite LastIndexByte_None by done. by rewrite Ascii.eqb_refl.
  - rewrite str_append_cons. cbn [LastIndexByte]. by rewrite IH.
Qed.

Lemma Join_snoc l x : l <> [] -> Join (l ++ [x]) seps = Join l seps +:+ seps +:+ x.
Proof.
  induction l as [|y l IH]; [done|]. intros _. destruct l as [|z l].
  - done.
  - change ((y :: z :: l) ++ [x]) with (y :: ((z :: l) ++ [x])). rewrite Join_cons by done. rewrite IH by done.
    rewrite (Join_cons y (z :: l)) by done. by rewrite !str_append_assoc.
Qed.

Lemma str_take_exact n s t : String.length s = n -> str_take n (s +:+ t) = s.
Proof. intros <-. apply str_take_append. Qed.

(** The parent of a path has its elements but the last. *)
Lemma parent_Join l x : Forall plain_element (l ++ [x]) -> officialPathParent (Join (l ++ [x]) seps) = Join l seps.
Proof.
  intros H. apply Forall_app in H as [Hl Hx]. apply Forall_singleton in Hx as (Hx1 & Hx2 & Hx3 & Hx4).
  unfold officialPathParent, DirOf. destruct l as [|y l].
  - cbn [app Join]. by rewrite LastIndexByte_None.
  - rewrite Join_snoc by done. change (seps +:+ x) with (String sep x). rewrite LastIndexByte_append by done.
    replace (Join (y :: l) seps +:+ String sep x) with ((Join (y :: l) seps +:+ seps) +:+ x) by (by rewrite str_append_assoc).
    rewrite str_take_exact by (rewrite str_length_append; change (String.length seps) with 1%nat; lia).
    assert (Clean (Join (y :: l) seps +:+ seps) = Join (y :: l) seps) as ->.
    { destruct (Join_plain_head (y :: l) ltac:(done) Hl) as [Ha Hn]. unfold Clean, IsAbs.
      assert (HasPrefix (Join (y :: l) seps +:+ seps) seps = false) as ->.
      { apply not_true_is_false. intros [r Hr]%HasPrefix_true. destruct (Join (y :: l) seps) as [|c s] eqn:Hj; [done|].
        rewrite str_append_cons in Hr. injection Hr as -> _.
        rewrite (proj2 (HasPrefix_true _ _)) in Ha; [done|]. by exists s. }
      unfold clean_elements. replace (Join (y :: l) seps +:+ seps) with (Join ((y :: l) ++ [""]) seps).
      2: { rewrite Join_snoc by done. by rewrite str_append_nil_r. }
      change (Join ((y :: l) ++ [""]) seps) with (Join ((y :: l) ++ [""]) (String sep EmptyString)).
      rewrite (Split_Join ((y :: l) ++ [""]) sep); [|discriminate|apply Forall_app; split; [by apply plain_no_sep|by apply Forall_singleton]].
      rewrite fold_left_app, (clean_fold_plain _ (y :: l)) by done. cbn [fold_left].
      change (clean_step false (rev (y :: l) ++ []) "") with (rev (y :: l) ++ []). rewrite app_nil_r, rev_involutive.
      by rewrite (proj2 (String.eqb_neq _ "") Hn). }
    destruct (String.eqb_spec (Join (y :: l) seps) ".") as [He|]; [|done]. exfalso.
    apply (f_equal elems) in He. rewrite elems_named in He by done. injection He as -> ->.
    apply Forall_singleton in Hl as (_ & Hl & _). done.
Qed.

Lemma named_snoc n : named n -> n <> "" ->
  exists l x, Forall plain_element (l ++ [x]) /\ n = Join (l ++ [x]) seps /\ elems n = l ++ [x] /\
    officialPathParent n = Join l seps /\ elems (officialPathParent n) = l /\ named (officialPathParent n).
Proof.
  intros (k & Hk & ->) Hne. destruct k as [|x l _] using rev_ind; [done|]. exists l, x. rewrite parent_Join by done.
  assert (Forall plain_element l) as Hl by (by apply Forall_app in Hk as []).
  rewrite !elems_named by done. split_and!; try done. by exists l.
Qed.

Lemma cleanName_named name : named (cleanName name).
Proof.
  unfold cleanName, Clean. change (IsAbs (seps +:+ name)) with (HasPrefix (seps +:+ name) seps).
  replace (HasPrefix (seps +:+ name) seps) with true by (symmetry; apply HasPrefix_true; eauto).
  rewrite TrimPrefix_append. exists (clean_elements true (seps +:+ name)). split; [|done].
  destruct (clean_elements_ok true (seps +:+ name)) as (ups & downs & Hk & Hd & _ & Hr).
  unfold clean_elements. rewrite Hk, (Hr eq_refl), app_nil_r. by apply Forall_rev.
Qed.

Lemma parent_empty : officialPathParent "" = "".
Proof. done. Qed.

Lemma parent_named n : named n -> named (officialPathParent n).
Proof.
  intros Hn. destruct (decide (n = "")) as [->|Hne]; [done|]. by destruct (named_snoc n Hn Hne) as (? & ? & ? & ? & ? & ? & ? & ?).
Qed.

Lemma Clean_normal p : IsAbs p = false -> normal (Clean p).
Proof.
  intros Ha. unfold Clean. rewrite Ha. destruct (String.eqb_spec (Join (clean_elements false p) seps) "") as [|Hb]; [done|].
  unfold normal. rewrite elems_Join; [done|]. destruct (clean_elements_ok false p) as (ups & downs & Hk & Hd & Hu & _).
  unfold clean_elements. rewrite Hk. apply Forall_rev, Forall_app. split; [by apply plain_words|].
  eapply Forall_impl; [exact Hu|]. by intros ? ->.
Qed.

Lemma no_sep_relative s : IndexByte s sep = None -> IsAbs s = false.
Proof.
  intros H. apply not_true_is_false. intros [r ->]%HasPrefix_true. discriminate H.
Qed.

Lemma named_relative d t : named d -> d <> "" -> IsAbs (d +:+ t) = false.
Proof.
  intros (l & Hl & ->) Hne. apply not_true_is_false. intros [r Hr]%HasPrefix_true.
  destruct (Join_plain_head l) as [Hp _]; [by intros ->|done|]. destruct (Join l seps) as [|c s]; [done|].
  rewrite str_append_cons in Hr. injection Hr as -> _. rewrite (proj2 (HasPrefix_true _ _)) in Hp; [done|]. by exists s.
Qed.

Lemma JoinAll_normal d r : named d -> IndexByte r sep = None -> normal (JoinAll [d; r]).
Proof.
  intros Hd Hr. unfold JoinAll. destruct d as [|c d].
  - cbn [dropEmpty]. destruct r as [|c r]; [done|]. cbn [dropEmpty Join]. case_match; [done|]. by apply Clean_normal, no_sep_relative.
  - cbn [dropEmpty]. rewrite Join_cons by done. case_match; [done|]. apply Clean_normal. by apply named_relative.
Qed.

Lemma IndexByte_suffix s t b : IndexByte (s +:+ t) b = None -> IndexByte t b = None.
Proof.
  induction s as [|c s IH]; [done|]. rewrite str_append_cons. cbn [IndexByte]. destruct (Ascii.eqb c b); [done|].
  intros H. apply IH. by destruct (IndexByte (s +:+ t) b).
Qed.

Lemma TrimPrefix_no_sep s p : IndexByte s sep = None -> IndexByte (TrimPrefix s p) sep = None.
Proof.
  intros H. destruct (HasPrefix s p) eqn:Hp; [|by rewrite TrimPrefix_no].
  apply HasPrefix_true in Hp as [r ->]. rewrite TrimPrefix_append. by eapply IndexByte_suffix.
Qed.

Lemma BaseOf_no_sep n : named n -> n <> "" -> IndexByte (BaseOf n) sep = None.
Proof.
  intros Hn Hne. unfold BaseOf. change (filter (fun e => e <> "") (Split n sep)) with (elems n).
  destruct (named_snoc n Hn Hne) as (l & x & Hp & _ & -> & _). rewrite last_snoc.
  apply Forall_app in Hp as [_ Hx]. by apply Forall_singleton in Hx as (_ & _ & _ & ?).
Qed.

(** The paths an entry speaks about *)
Lemma changeOf_paths name :
  match changeOf name with
  | Skip => True
  | Opaque directory => normal directory
  | Whiteout deleted => normal deleted
  | Put clean => named clean /\ clean <> ""
  end.
Proof.
  unfold changeOf. pose proof (cleanName_named name) as Hn.
  destruct (String.eqb (cleanName name) "" || String.eqb (cleanName name) ".") eqn:Hc; [done|].
  apply orb_false_iff in Hc as [Hc%String.eqb_neq _].
  destruct (HasPrefix _ _); [|done]. destruct (String.eqb _ _).
  - by apply named_normal, parent_named.
  - apply JoinAll_normal; [by apply parent_named|]. by apply TrimPrefix_no_sep, BaseOf_no_sep.
Qed.

Section Removal.
Context (order : gset string -> list string) (Horder : forall s, order s ≡ₚ elements s).

(** ** The loop of [removeSubtree] *)

Lemma elem_of_order x s : x ∈ order s <-> x ∈ s.
Proof. by rewrite Horder, elem_of_elements. Qed.

Lemma length_order s : length (order s) = size s.
Proof. by rewrite Horder. Qed.

Inductive reach (index : officialPathIndex) (root : string) : string -> Prop :=
  | reach_refl : reach index root root
  | reach_child p n : reach index root p -> n ∈ childrenOf index p -> reach index root n.

(** The index without the names of [gone] *)
Definition without (index0 index : officialPathIndex) (gone : gset string) : Prop :=
  (forall n, states index !! n = if decide (n ∈ gone) then None else states index0 !! n) /\
  (forall p, children index !! p = if decide (p ∈ gone) then None else children index0 !! p).

Lemma childCount_delete index current :
  childCount index = (size (childrenOf index current) +
    childCount {| states := delete current (states index); children := delete current (children index) |})%nat.
Proof.
  unfold childCount, childrenOf. cbn [children]. destruct (children index !! current) as [s|] eqn:Hs; cbn [from_option id].
  - rewrite <- (insert_delete_id _ _ _ Hs) at 1. rewrite map_fold_insert_L; [done| |by rewrite lookup_delete_eq]. intros. lia.
  - rewrite size_empty. by rewrite delete_id.
Qed.

Lemma removeLoop_spec root index0 fuel index stack gone :
  without index0 index gone -> (root ∈ gone \/ root ∈ stack) ->
  (forall x c, x ∈ gone -> c ∈ childrenOf index0 x -> c ∈ gone \/ c ∈ stack) ->
  (forall x, x ∈ gone \/ x ∈ stack -> reach index0 root x) ->
  (length stack + childCount index <= fuel)%nat ->
  exists index' gone', removeLoop order fuel index stack = Some index' /\ without index0 index' gone' /\
    forall x, x ∈ gone' <-> reach index0 root x.
Proof.
  revert index stack gone. induction fuel as [|fuel IH]; intros index [|current stack] gone Hw Hroot Hclosed Hreach Hfuel;
    cbn [length] in Hfuel; try lia.
  1, 2: exists index, gone; cbn [removeLoop]; split_and!; [done..|]; intros x; split; [intros; apply Hreach; by left|];
    induction 1 as [|p n _ IHp Hn]; [destruct Hroot as [|H]; [done|by apply elem_of_nil in H]|];
    destruct (Hclosed p n IHp Hn) as [|H]; [done|by apply elem_of_nil in H].
  cbn [removeLoop]. destruct Hw as [Hs Hc].
  assert (forall c, c ∈ childrenOf index current -> c ∈ childrenOf index0 current) as Hsub.
  { intros c. unfold childrenOf. rewrite Hc. case_decide; cbn; [set_solver|done]. }
  assert (forall c, c ∈ childrenOf index0 current -> c ∈ childrenOf index current \/ current ∈ gone) as Hsup.
  { intros c. unfold childrenOf. rewrite Hc. case_decide; [by right|by left]. }
  apply (IH _ _ ({[current]} ∪ gone)).
  - split; cbn [states children]; intros n; destruct (decide (n = current)) as [->|Hne];
      rewrite ?lookup_delete_eq, ?lookup_delete_ne by done; rewrite ?Hs, ?Hc;
      repeat case_decide; first [done|exfalso; set_solver].
  - destruct Hroot as [|[->|]%elem_of_cons]; [left; set_solver..|]. right. apply elem_of_app. by right.
  - intros x c [->%elem_of_singleton|Hx]%elem_of_union Hxc.
    + destruct (Hsup c Hxc) as [Hin|Hg]; [right; apply elem_of_app; left; apply list_elem_of_In, (proj1 (in_rev _ _)), list_elem_of_In; by apply elem_of_order|].
      destruct (Hclosed current c Hg Hxc) as [|[->|]%elem_of_cons]; [left; set_solver..|right; apply elem_of_app; by right].
    + destruct (Hclosed x c Hx Hxc) as [|[->|]%elem_of_cons]; [left; set_solver..|right; apply elem_of_app; by right].
  - assert (reach index0 root current) as Hcur by (apply Hreach; right; by constructor).
    intros x [[->%elem_of_singleton|Hx]%elem_of_union|[Hx|Hx]%elem_of_app]; [done|apply Hreach; by left| |apply Hreach; right; by constructor].
    apply list_elem_of_In, in_rev, list_elem_of_In, elem_of_order, Hsub in Hx. by eapply reach_child.
  - rewrite length_app, length_rev, length_order. rewrite (childCount_delete index current) in Hfuel. lia.
Qed.

(** ** The invariant of the index *)

Record indexInv (index : officialPathIndex) : Prop :=
  { idx_named : forall n, is_Some (states index !! n) -> named n /\ n <> "";
    idx_children : forall p n, n ∈ childrenOf index p <-> is_Some (states index !! n) /\ officialPathParent n = p }.

(** Every directory is listed. *)
Definition listed (m : gmap string officialPathState) : Prop :=
  forall n, is_Some (m !! n) -> officialPathParent n = "" \/ is_Some (m !! officialPathParent n).

Lemma indexInv_new : indexInv newOfficialPathIndex.
Proof. split; [by intros n [? H]|]. intros p n. unfold childrenOf. cbn. split; [set_solver|]. by intros [[? H] _]. Qed.

Lemma set_inv index name state : indexInv index -> named name -> name <> "" -> indexInv (set index name state).
Proof.
  intros [I1 I2] Hn Hne. split.
  - intros n. cbn. rewrite lookup_insert_is_Some. intros [<-|[_ H]]; [done|by apply I1].
  - intros p n. unfold set, childrenOf. cbn [states children]. rewrite lookup_insert_is_Some'.
    destruct (states index !! name) as [old|] eqn:Hold.
    + fold (childrenOf index p). rewrite I2. split; [naive_solver|]. intros [[->|H] Hp]; [|done]. split; [by eexists|done].
    + destruct (decide (p = officialPathParent name)) as [->|Hp].
      * rewrite lookup_insert_eq. cbn [from_option id]. fold (childrenOf index (officialPathParent name)).
        rewrite elem_of_union, elem_of_singleton, I2. naive_solver.
      * rewrite lookup_insert_ne by done. fold (childrenOf index p). rewrite I2. naive_solver.
Qed.

(** What [removeSubtree] starts its loop with *)
Definition detached (index : officialPathIndex) (root : string) : officialPathIndex :=
  let parent := officialPathParent root in
  {| states := states index;
     children := match children index !! parent with
                 | Some s => <[parent := s ∖ {[root]}]> (children index)
                 | None => children index
                 end |}.

Lemma childrenOf_detached index root p n : indexInv index ->
  n ∈ childrenOf (detached index root) p <-> n ∈ childrenOf index p /\ n <> root.
Proof.
  intros Hi. unfold detached, childrenOf. cbn [children].
  assert (forall p, root ∈ childrenOf index p -> p = officialPathParent root) as Hroot by (intros ? [_ H]%Hi; done).
  destruct (decide (p = officialPathParent root)) as [->|Hp].
  - destruct (children index !! officialPathParent root) as [s|] eqn:Hs; rewrite ?lookup_insert_eq, ?Hs; cbn [from_option id]; set_solver.
  - assert (root ∉ default ∅ (children index !! p)) as Hnot by (intros H; by apply Hp, Hroot).
    destruct (children index !! officialPathParent root); rewrite ?lookup_insert_ne by done; set_solver.
Qed.

Lemma removeSubtree_reach index root : indexInv index ->
  exists index' gone, removeSubtree order index root = Some index' /\ without (detached index root) index' gone /\
    forall x, x ∈ gone <-> reach (detached index root) root x.
Proof.
  intros Hi. unfold removeSubtree. fold (detached index root). apply (removeLoop_spec root _ _ _ _ ∅).
  - split; intros; by rewrite decide_False by set_solver.
  - right. by apply list_elem_of_singleton.
  - set_solver.
  - intros x [H|H]; [set_solver|]. apply list_elem_of_singleton in H as ->. constructor.
  - cbn [length]. lia.
Qed.

Lemma removeSubtree_inv index root index' : indexInv index -> removeSubtree order index root = Some index' -> indexInv index'.
Proof.
  intros Hi H. destruct (removeSubtree_reach index root Hi) as (i & gone & Hi' & [Hs Hc] & Hg). rewrite Hi' in H. injection H as ->.
  destruct Hi as [I1 I2]. split.
  - intros n. rewrite Hs. case_decide; [by intros [? ?]|]. cbn. apply I1.
  - intros p n. unfold childrenOf. rewrite Hc, Hs. destruct (decide (p ∈ gone)) as [Hp|Hp].
    + cbn. split; [set_solver|]. case_decide as Hn; [by intros [[? ?] _]|]. intros [Hsome Hpar]. exfalso. apply Hn.
      destruct (decide (n = root)) as [->|Hne]; [apply Hg; constructor|]. apply Hg. eapply reach_child; [by apply Hg|].
      apply childrenOf_detached; [by split|]. split; [|done]. by apply I2.
    + change (default ∅ (children (detached index root) !! p)) with (childrenOf (detached index root) p).
      rewrite childrenOf_detached by (by split). rewrite I2. cbn [states detached]. case_decide as Hn.
      * split; [|by intros [[? ?] _]]. intros [[_ Hpar] Hne]. exfalso. apply Hg in Hn. destruct Hn as [|q n Hq Hqn]; [done|].
        apply childrenOf_detached, proj1, I2 in Hqn as [_ <-]; [|by split]. subst p. by apply Hp, Hg.
      * split; [naive_solver|]. intros [? ?]. split; [done|]. intros ->. apply Hn, Hg. constructor.
Qed.

(** ** What is removed *)

Lemma child_elems index p n : indexInv index -> n ∈ childrenOf index p -> exists x, elems n = elems p ++ [x].
Proof.
  intros [I1 I2] [Hn <-]%I2. destruct (I1 n Hn) as [Hnamed Hne].
  destruct (named_snoc n Hnamed Hne) as (l & x & _ & _ & He & _ & Hp & _). exists x. by rewrite He, Hp.
Qed.

(** The names reached from the root are below it. *)
Lemma reach_below index root n : indexInv index -> reach (detached index root) root n ->
  n = root \/ is_Some (states index !! n) /\ below root n /\ n <> root.
Proof.
  intros Hi H. induction H as [|p n _ IH Hn]; [by left|]. right. apply childrenOf_detached in Hn as [Hn Hne]; [|done].
  split_and!; [by apply Hi in Hn as []| |done]. destruct (child_elems _ _ _ Hi Hn) as [x Hx]. unfold below. rewrite Hx.
  destruct IH as [->|(_ & Hb & _)]; [by apply prefix_app_r|]. by apply prefix_app_r.
Qed.

(** Where directories are listed, everything below the root is reached. *)
Lemma below_reach index root n : indexInv index -> listed (states index) -> normal root ->
  is_Some (states index !! n) -> below root n -> reach (detached index root) root n.
Proof.
  intros Hi Hl Hr. remember (length (elems n)) as k eqn:Hk. revert n Hk. induction k as [k IH] using lt_wf_ind. intros n -> Hn Hb.
  destruct (idx_named _ Hi n Hn) as [Hnamed Hne]. destruct (decide (n = root)) as [->|Hnr]; [constructor|].
  destruct (named_snoc n Hnamed Hne) as (l & x & _ & _ & He & _ & Hpe & Hpn).
  assert (below root (officialPathParent n)) as Hbp.
  { unfold below in *. rewrite He in Hb. rewrite Hpe. destruct Hb as [k Hb].
    destruct k as [|y k _] using rev_ind; [exfalso; apply Hnr, normal_inj; [by apply named_normal|done|]; by rewrite He, Hb, app_nil_r|].
    rewrite app_assoc in Hb. apply app_inj_tail in Hb as [-> _]. by exists k. }
  assert (n ∈ childrenOf (detached index root) (officialPathParent n)) as Hedge.
  { apply childrenOf_detached; [done|]. split; [|done]. by apply Hi. }
  eapply reach_child; [|exact Hedge]. destruct (Hl n Hn) as [Hroot|Hp].
  - rewrite Hroot in *. replace root with (EmptyString : string); [constructor|]. symmetry. apply normal_inj; [done|done|].
    unfold below in Hbp. change (elems "") with (@nil string) in *. by apply prefix_nil_inv in Hbp.
  - eapply IH; [|reflexivity|done|done]. rewrite Hpe, He, length_app. cbn. lia.
Qed.

Lemma normal_empty : normal "".
Proof. done. Qed.

(** Removing a subtree, as a filter *)
Lemma removeSubtree_states index root index' : indexInv index -> listed (states index) -> normal root ->
  removeSubtree order index root = Some index' ->
  states index' = filter (fun kv => ~ below root kv.1) (states index).
Proof.
  intros Hi Hl Hr H. destruct (removeSubtree_reach index root Hi) as (i & gone & Hi' & [Hs _] & Hg). rewrite Hi' in H. injection H as ->.
  apply map_eq. intros n. rewrite Hs. cbn [states detached]. rewrite map_lookup_filter.
  destruct (states index !! n) as [st|] eqn:Hst; cbn; [|by case_decide].
  destruct (decide (n ∈ gone)) as [Hn|Hn].
  - rewrite option_guard_False; [done|]. intros Hb. apply Hb. apply Hg in Hn.
    destruct (reach_below _ _ _ Hi Hn) as [->|(_ & ? & _)]; [by unfold below|done].
  - rewrite option_guard_True; [done|]. intros Hb. apply Hn, Hg. by eapply below_reach.
Qed.

Lemma name_below_trans a b c : below a b -> below b c -> below a c.
Proof. unfold below. apply transitivity. Qed.

Lemma name_below_parent n : named n -> n <> "" -> below (officialPathParent n) n.
Proof.
  intros Hn Hne. destruct (named_snoc n Hn Hne) as (l & x & _ & _ & He & _ & Hp & _). unfold below. rewrite He, Hp. by apply prefix_app_r.
Qed.

Lemma removeSubtree_listed index root index' : indexInv index -> listed (states index) -> normal root ->
  removeSubtree order index root = Some index' -> listed (states index').
Proof.
  intros Hi Hl Hr H. rewrite (removeSubtree_states _ _ _ Hi Hl Hr H). intros n [st [Hst Hb]%map_lookup_filter_Some]. cbn in Hb.
  destruct (Hl n) as [|[st' Hst']]; [by eexists|by left|]. right. exists st'. apply map_lookup_filter_Some. split; [done|]. cbn.
  intros Hp. apply Hb. eapply name_below_trans; [exact Hp|]. destruct (idx_named _ Hi n) as [? ?]; [by eexists|]. by apply name_below_parent.
Qed.

Lemma removeSubtree_ends index root : indexInv index -> exists index', removeSubtree order index root = Some index'.
Proof. intros Hi. destruct (removeSubtree_reach index root Hi) as (i & gone & H & _). by exists i. Qed.

(** Removing one child takes it off its parent's children, and nothing else. *)
Lemma removeSubtree_children index child index' : indexInv index -> is_Some (states index !! child) ->
  removeSubtree order index child = Some index' ->
  childrenOf index' (officialPathParent child) = childrenOf index (officialPathParent child) ∖ {[child]}.
Proof.
  intros Hi Hc H. destruct (removeSubtree_reach index child Hi) as (i & gone & Hi' & [_ Hch] & Hg). rewrite Hi' in H. injection H as ->.
  destruct (idx_named _ Hi child Hc) as [Hn Hne]. apply set_eq. intros n. unfold childrenOf at 1. rewrite Hch.
  rewrite decide_False.
  - change (default ∅ (children (detached index child) !! officialPathParent child)) with
      (childrenOf (detached index child) (officialPathParent child)).
    rewrite childrenOf_detached by done. set_solver.
  - intros Hgone. apply Hg in Hgone. destruct (named_snoc child Hn Hne) as (l & x & _ & _ & He & _ & Hp & _).
    assert (below child (officialPathParent child)) as Hb.
    { destruct (reach_below _ _ _ Hi Hgone) as [->|(_ & ? & _)]; [by unfold below|done]. }
    unfold below in Hb. apply prefix_length in Hb. rewrite He, Hp, length_app in Hb. cbn in Hb. lia.
Qed.

(** ** [removeChildren] *)

Definition strictlyBelow (root n : string) : Prop := below root n /\ elems n <> elems root.
#[global] Instance strictlyBelow_dec root n : Decision (strictlyBelow root n).
Proof. unfold strictlyBelow. apply _. Defined.

Lemma order_nil s : order s = [] -> s = ∅.
Proof. intros H. apply set_eq. intros x. rewrite <- elem_of_order, H, elem_of_nil. set_solver. Qed.

Lemma child_of_root index root child : indexInv index -> child ∈ childrenOf index root ->
  officialPathParent child = root /\ is_Some (states index !! child).
Proof. intros Hi [? ?]%Hi. done. Qed.

Lemma removeChildren_ends index root : indexInv index -> exists index', removeChildren order index root = Some index' /\ indexInv index'.
Proof.
  unfold removeChildren. remember (size (childrenOf index root)) as fuel eqn:Hf. revert index Hf.
  induction fuel as [|fuel IH]; intros index Hf Hi; cbn [removeChildrenLoop];
    destruct (order (childrenOf index root)) as [|child rest] eqn:Ho; [by exists index| |by exists index|].
  - exfalso. pose proof (length_order (childrenOf index root)) as Hl. rewrite Ho, <- Hf in Hl. done.
  - assert (child ∈ childrenOf index root) as Hc by (apply elem_of_order; rewrite Ho; by constructor).
    destruct (child_of_root _ _ _ Hi Hc) as [Hp Hs]. destruct (removeSubtree_ends index child Hi) as [index' H].
    rewrite H. cbn [mbind option_bind]. apply IH; [|by eapply removeSubtree_inv].
    rewrite <- Hp, (removeSubtree_children _ _ _ Hi Hs H), Hp, size_difference, size_singleton by set_solver. lia.
Qed.

(** Without children, nothing is strictly below a listed root. *)
Lemma no_children_nothing_below index root n : indexInv index -> listed (states index) -> normal root ->
  childrenOf index root = ∅ -> is_Some (states index !! n) -> ~ strictlyBelow root n.
Proof.
  intros Hi Hl Hr He. remember (length (elems n)) as k eqn:Hk. revert n Hk. induction k as [k IH] using lt_wf_ind.
  intros n -> Hn [Hb Hne]. destruct (idx_named _ Hi n Hn) as [Hnamed Hnz].
  destruct (named_snoc n Hnamed Hnz) as (l & x & _ & _ & Hel & _ & Hp & Hpn).
  assert (below root (officialPathParent n)) as Hbp.
  { unfold below in *. rewrite Hel in *. rewrite Hp. destruct Hb as [k Hb].
    destruct k as [|y k _] using rev_ind; [exfalso; apply Hne; by rewrite Hb, app_nil_r|].
    rewrite app_assoc in Hb. apply app_inj_tail in Hb as [-> _]. by exists k. }
  destruct (decide (elems (officialPathParent n) = elems root)) as [Heq|Hneq].
  - assert (officialPathParent n = root) as Hpr by (apply normal_inj; [by apply named_normal|done|done]).
    assert (n ∈ childrenOf index root) as Hin by (by apply Hi). rewrite He in Hin. set_solver.
  - destruct (Hl n Hn) as [Hz|Hs].
    + rewrite Hz in *. unfold below in Hbp. change (elems "") with (@nil string) in *. apply prefix_nil_inv in Hbp. congruence.
    + eapply (IH (length (elems (officialPathParent n)))); [|reflexivity|exact Hs|by split].
      rewrite Hp, Hel, length_app. cbn. lia.
Qed.

Lemma removeChildren_states index root index' : indexInv index -> listed (states index) -> normal root ->
  removeChildren order index root = Some index' ->
  states index' = filter (fun kv => ~ strictlyBelow root kv.1) (states index) /\ listed (states index').
Proof.
  intros Hi Hl Hr. unfold removeChildren. remember (size (childrenOf index root)) as fuel eqn:Hf. revert index Hf Hi Hl.
  induction fuel as [|fuel IH]; intros index Hf Hi Hl; cbn [removeChildrenLoop];
    destruct (order (childrenOf index root)) as [|child rest] eqn:Ho; try done.
  1, 2: intros [= <-]; split; [|done]; symmetry; apply map_filter_id; intros n st Hst; cbn;
    apply (no_children_nothing_below index root n); [done..|by apply order_nil|by eexists].
  assert (child ∈ childrenOf index root) as Hc by (apply elem_of_order; rewrite Ho; by constructor).
  destruct (child_of_root _ _ _ Hi Hc) as [Hp Hs]. destruct (removeSubtree order index child) as [index1|] eqn:H1; [|done].
  cbn [mbind option_bind]. intros H. destruct (idx_named _ Hi child Hs) as [Hcn Hcne].
  pose proof (named_normal _ Hcn) as Hnorm. pose proof (removeSubtree_inv _ _ _ Hi H1) as Hi1.
  pose proof (removeSubtree_listed _ _ _ Hi Hl Hnorm H1) as Hl1.
  apply IH in H as [Hst Hl']; [|rewrite <- Hp, (removeSubtree_children _ _ _ Hi Hs H1), Hp, size_difference, size_singleton by set_solver; lia|done..].
  split; [|done]. rewrite Hst, (removeSubtree_states _ _ _ Hi Hl Hnorm H1), map_filter_filter. apply map_filter_ext.
  intros n st _. cbn. split; [naive_solver|]. intros Hns. split; [done|]. intros Hb. apply Hns.
  destruct (child_elems _ _ _ Hi Hc) as [x Hx]. unfold strictlyBelow, below in *. rewrite Hx in Hb. split.
  - etrans; [|exact Hb]. by apply prefix_app_r.
  - intros Heq. apply prefix_length in Hb. rewrite Heq, length_app in Hb. cbn in Hb. lia.
Qed.

(** ** The overlay of the layers *)

(** The reference: a whiteout removes a path and all below it, an opaque one
    all below a directory, anything else is put in place.  It is defined for
    archives that list every directory before what it holds. *)
Definition overlayEntry (queries : gset string) (h : Header) (m : gmap string officialPathState) :
    option (result officialError (gmap string officialPathState)) :=
  match changeOf (HName h) with
  | Skip => Some (Ok m)
  | Opaque directory => Some (Ok (filter (fun kv => ~ strictlyBelow directory kv.1) m))
  | Whiteout deleted => Some (Ok (filter (fun kv => ~ below deleted kv.1) m))
  | Put clean =>
      let parent := officialPathParent clean in
      if String.eqb parent "" || bool_decide (is_Some (m !! parent)) then Some
        (content ← (if bool_decide (clean ∈ queries) && is_regular (Typeflag h) then c ← readContent clean h; Ok (Some c) else Ok None);
         guard_err (bool_decide (m !! clean = None) && (maxOfficialFilesystemEntries <=? Z.of_nat (size m))%Z) TooManyEntries;;
         Ok (<[clean := stateOf h content]> m))
      else None
  end.

(** The same outcome, with related values *)
Definition sameOutcome {A B} (R : A -> B -> Prop) (x : result officialError A) (y : result officialError B) : Prop :=
  match x, y with Ok a, Ok b => R a b | Err e, Err e' => e = e' | _, _ => False end.

Definition indexes (m : gmap string officialPathState) (index : officialPathIndex) : Prop :=
  states index = m /\ indexInv index /\ listed m.

Lemma listed_insert m n st : listed m -> officialPathParent n = "" \/ is_Some (m !! officialPathParent n) -> listed (<[n := st]> m).
Proof.
  intros Hl Hp k. rewrite lookup_insert_is_Some'. intros [->|Hk].
  - destruct Hp as [|Hp]; [by left|]. right. rewrite lookup_insert_is_Some'. by right.
  - destruct (Hl k Hk) as [|Hs]; [by left|]. right. rewrite lookup_insert_is_Some'. by right.
Qed.

Lemma applyEntry_overlay queries h m index r : indexes m index -> overlayEntry queries h m = Some r ->
  exists r', applyEntry order queries h index = Some r' /\ sameOutcome indexes r r'.
Proof.
  intros (<- & Hi & Hl) H. unfold overlayEntry, applyEntry in *. pose proof (changeOf_paths (HName h)) as Hp.
  destruct (changeOf (HName h)) as [|d|d|clean].
  - injection H as <-. eexists. split; [done|]. cbn [sameOutcome]. unfold indexes. by split_and!.
  - injection H as <-. destruct (removeChildren_ends index d Hi) as (index' & H' & Hi'). rewrite H'. eexists. split; [done|].
    destruct (removeChildren_states _ _ _ Hi Hl Hp H') as [<- Hl']. cbn [sameOutcome]. unfold indexes. by split_and!.
  - injection H as <-. destruct (removeSubtree_ends index d Hi) as (index' & H'). rewrite H'. eexists. split; [done|].
    rewrite <- (removeSubtree_states _ _ _ Hi Hl Hp H'). cbn [sameOutcome]. unfold indexes. split_and!; [done|by eapply removeSubtree_inv|by eapply removeSubtree_listed].
  - destruct Hp as [Hn Hne]. destruct (String.eqb (officialPathParent clean) "" || bool_decide (is_Some (states index !! officialPathParent clean))) eqn:Hpar; [|done]. injection H as <-. eexists. split; [reflexivity|].
    match goal with |- context [(?c ≫= _)] => destruct c as [content|e] end; cbn [mbind result_bind]; [|done].
    match goal with |- context [guard_err ?b _] => destruct b end; cbn [guard_err]; [done|].
    cbn [sameOutcome]. unfold indexes. split_and!; [done|by apply set_inv|]. apply listed_insert; [done|].
    apply orb_true_iff in Hpar as [->%String.eqb_eq|Hpar%bool_decide_eq_true]; [by left|by right].
Qed.

Section Simulation.
Context {A B : Type} (R : A -> B -> Prop) (f : Header -> A -> option (result officialError A)) (g : Header -> B -> option (result officialError B)).
Hypothesis step : forall h a b r, R a b -> f h a = Some r -> exists r', g h b = Some r' /\ sameOutcome R r r'.

Lemma readEntries_sim entries processed a b r : R a b -> readEntries f entries processed a = Some r ->
  exists r', readEntries g entries processed b = Some r' /\ sameOutcome (fun x y => x.1 = y.1 /\ R x.2 y.2) r r'.
Proof.
  revert processed a b. induction entries as [|h entries IH]; intros processed a b Hab; cbn [readEntries].
  - intros [= <-]. eexists. split; [done|]. done.
  - case_match; [intros [= <-]; by eexists|]. destruct (f h a) as [ra|] eqn:Hf; [|done]. cbn [mbind option_bind].
    destruct (step _ _ _ _ Hab Hf) as (rb & -> & Hs). cbn [mbind option_bind]. destruct ra as [a'|e], rb as [b'|e']; try done.
    + by apply IH.
    + cbn in Hs. subst e'. intros [= <-]. by eexists.
Qed.

Lemma readLayers_sim layers processed a b r : R a b -> readLayers f layers processed a = Some r ->
  exists r', readLayers g layers processed b = Some r' /\ sameOutcome R r r'.
Proof.
  revert processed a b. induction layers as [|l layers IH]; intros processed a b Hab; cbn [readLayers].
  - intros [= <-]. by eexists.
  - destruct (lOpen l); [intros [= <-]; by eexists|].
    destruct (readEntries f (lEntries l) processed a) as [ra|] eqn:Hf; [|done]. cbn [mbind option_bind].
    destruct (readEntries_sim _ _ _ _ _ Hab Hf) as (rb & -> & Hs). cbn [mbind option_bind].
    destruct ra as [[z a']|e], rb as [[z' b']|e']; try done.
    + destruct Hs as [Hz Hs]. cbn in Hz, Hs. subst z'.
      destruct (lEnd l); [intros [= <-]; by eexists|]. destruct (lClose l); [intros [= <-]; by eexists|]. by apply IH.
    + cbn in Hs. subst e'. intros [= <-]. by eexists.
Qed.
End Simulation.

(** The index keeps its invariant and no removal runs out of its bound. *)
Lemma applyEntry_ends queries h index : indexInv index -> exists r, applyEntry order queries h index = Some r /\
  match r with Ok index' => indexInv index' | Err _ => True end.
Proof.
  intros Hi. unfold applyEntry. pose proof (changeOf_paths (HName h)) as Hp. destruct (changeOf (HName h)) as [|d|d|clean].
  - by eexists.
  - destruct (removeChildren_ends index d Hi) as (index' & -> & Hi'). by eexists.
  - destruct (removeSubtree_ends index d Hi) as (index' & H'). rewrite H'. eexists. split; [done|]. by eapply removeSubtree_inv.
  - destruct Hp as [Hn Hne]. eexists. split; [reflexivity|].
    match goal with |- context [(?c ≫= _)] => destruct c as [content|e] end; cbn [mbind result_bind]; [|done].
    match goal with |- context [guard_err ?b _] => destruct b end; cbn [guard_err]; [done|]. by apply set_inv.
Qed.

Lemma readEntries_ends queries entries processed index : indexInv index ->
  exists r, readEntries (applyEntry order queries) entries processed index = Some r /\
    match r with Ok (_, index') => indexInv index' | Err _ => True end.
Proof.
  revert processed index. induction entries as [|h entries IH]; intros processed index Hi; cbn [readEntries]; [by eexists|].
  case_match; [by eexists|]. destruct (applyEntry_ends queries h index Hi) as (r & -> & Hr). cbn [mbind option_bind].
  destruct r; [by apply IH|by eexists].
Qed.

Lemma readLayers_ends queries layers processed index : indexInv index ->
  exists r, readLayers (applyEntry order queries) layers processed index = Some r /\
    match r with Ok index' => indexInv index' | Err _ => True end.
Proof.
  revert processed index. induction layers as [|l layers IH]; intros processed index Hi; cbn [readLayers]; [by eexists|].
  destruct (lOpen l); [by eexists|]. destruct (readEntries_ends queries (lEntries l) processed index Hi) as (r & -> & Hr).
  cbn [mbind option_bind]. destruct r as [[z index']|]; [|by eexists].
  destruct (lEnd l); [by eexists|]. destruct (lClose l); [by eexists|]. by apply IH.
Qed.

Lemma readContents_ends requested layers processed contents :
  is_Some (readLayers (applyContent requested) layers processed contents).
Proof.
  assert (forall entries processed contents, is_Some (readEntries (applyContent requested) entries processed contents)) as He.
  { induction entries as [|h entries IH]; intros z c; cbn [readEntries]; [by eexists|]. case_match; [by eexists|].
    destruct (applyContent requested h c) as [r|] eqn:Ha; [|done]. cbn [mbind option_bind]. destruct r; [apply IH|by eexists]. }
  revert processed contents. induction layers as [|l layers IH]; intros z c; cbn [readLayers]; [by eexists|].
  destruct (lOpen l); [by eexists|]. destruct (He (lEntries l) z c) as [r ->]. cbn [mbind option_bind].
  destruct r as [[z' c']|]; [|by eexists]. destruct (lEnd l); [by eexists|]. destruct (lClose l); [by eexists|]. apply IH.
Qed.
End Removal.

(** ** Resolving *)

Lemma resolve_ends fuel index current visited :
  (size visited <= 65)%nat -> (66 <= fuel + size visited)%nat -> is_Some (resolveOfficialPath fuel index current visited).
Proof.
  revert current visited. induction fuel as [|fuel IH]; intros current visited H1 H2; [lia|]. cbn [resolveOfficialPath].
  destruct (Nat.ltb_spec 64 (size visited)); [by eexists|]. case_bool_decide as Hv; [by eexists|].
  destruct (firstLink _ _ _ _) as [[[i prefix] state]|]; [|by eexists]. case_match; [by eexists|].
  match goal with |- context [resolveOfficialPath fuel index ?t ?v] => destruct (IH t v) as [r Hr] end.
  - rewrite size_union, size_singleton by set_solver. lia.
  - rewrite size_union, size_singleton by set_solver. lia.
  - rewrite Hr. by eexists.
Qed.

Lemma str_rev_append_spec s acc : str_rev_append s acc = str_rev s +:+ acc.
Proof.
  unfold str_rev. revert acc. induction s as [|c s IH]; intros acc; [done|]. cbn [str_rev_append].
  rewrite IH, (IH (String c "")). by rewrite str_append_assoc.
Qed.

Lemma str_rev_app s t : str_rev (s +:+ t) = str_rev t +:+ str_rev s.
Proof.
  induction s as [|c s IH].
  { change (str_rev "") with (EmptyString : string). by rewrite str_append_nil_l, str_append_nil_r. }
  rewrite str_append_cons. change (str_rev (String c (s +:+ t))) with (str_rev_append (s +:+ t) (String c "")).
  change (str_rev (String c s)) with (str_rev_append s (String c "")).
  rewrite !(str_rev_append_spec _ (String c "")), IH. by rewrite str_append_assoc.
Qed.

Lemma str_rev_involutive s : str_rev (str_rev s) = s.
Proof.
  induction s as [|c s IH]; [done|]. change (String c s) with (String c "" +:+ s). by rewrite !str_rev_app, IH.
Qed.

Fixpoint trimLeft (s : string) : string := match s with String "/" rest => trimLeft rest | _ => s end.
Lemma TrimSlashes_eq s : TrimSlashes s = str_rev (trimLeft (str_rev (trimLeft s))).
Proof. reflexivity. Qed.

Lemma trimLeft_id s : IsAbs s = false -> trimLeft s = s.
Proof.
  destruct s as [|c s]; [done|]. intros H. destruct (Ascii.eqb_spec c sep) as [->|Hne].
  - unfold IsAbs in H. rewrite (proj2 (HasPrefix_true _ _)) in H; [done|]. by exists s.
  - cbn [trimLeft]. destruct c as [[] [] [] [] [] [] [] []]; done.
Qed.

Lemma str_rev_no_sep s : IndexByte s sep = None -> IndexByte (str_rev s) sep = None.
Proof.
  induction s as [|c s IH]; [done|]. cbn [IndexByte]. destruct (Ascii.eqb c sep) eqn:Hc; [done|]. intros H.
  change (String c s) with (String c "" +:+ s). rewrite str_rev_app, IndexByte_append_None by (apply IH; by destruct (IndexByte s sep)).
  cbn. by rewrite Hc.
Qed.

(** Trimming slashes leaves a clean name as it is. *)
Lemma TrimSlashes_named n : named n -> TrimSlashes n = n.
Proof.
  intros Hn. destruct (decide (n = "")) as [->|Hne]; [done|].
  rewrite TrimSlashes_eq, (trimLeft_id n) by (rewrite <- (str_append_nil_r n); by apply named_relative).
  destruct (named_snoc n Hn Hne) as (l & x & Hp & -> & _). apply Forall_app in Hp as [_ Hx].
  apply Forall_singleton in Hx as (Hx1 & _ & _ & Hx4).
  assert (exists pre, Join (l ++ [x]) seps = pre +:+ x) as [pre Hpre].
  { destruct l as [|y l]; [by exists ""|]. rewrite Join_snoc by done. eexists. by rewrite <- str_append_assoc. }
  rewrite Hpre, trimLeft_id; [by rewrite str_rev_involutive|]. rewrite str_rev_app.
  apply str_rev_no_sep in Hx4. destruct (str_rev x) as [|c r] eqn:Hr.
  - apply (f_equal str_rev) in Hr. by rewrite str_rev_involutive in Hr.
  - apply not_true_is_false. rewrite str_append_cons. intros [r' [= -> _]]%HasPrefix_true. discriminate Hx4.
Qed.

Lemma JoinAll_Split n : named n -> JoinAll (Split n sep) = n.
Proof.
  intros Hn. destruct (decide (n = "")) as [->|Hne]; [done|]. destruct Hn as (l & Hl & ->).
  assert (l <> []) as Hnil by (by intros ->). rewrite Split_Join_plain by done. unfold JoinAll.
  assert (dropEmpty l = l) as -> by (destruct l as [|[] l]; [done| |done]; by apply Forall_cons in Hl as [[? _] _]).
  rewrite (proj2 (String.eqb_neq _ "")) by done. by apply Clean_Join_plain.
Qed.

Lemma firstLink_None index components i n : firstLink index components i n = None ->
  forall j, (i <= j < i + n)%nat -> match states index !! JoinAll (take (S j) components) with
                              | Some st => is_link (kind st) = false | None => True end.
Proof.
  revert i. induction n as [|n IH]; intros i; cbn [firstLink]; [intros; lia|].
  intros H j Hj. destruct (decide (j = i)) as [->|Hne].
  - destruct (states index !! _) as [st|]; [|done]. by destruct (is_link (kind st)).
  - destruct (states index !! _) as [st|]; [destruct (is_link (kind st)); [done|]|]; apply (IH _ H); lia.
Qed.

(** What resolution returns is a file of the index, which is not a link. *)
Definition sameFile (a b : officialPathState) : Prop :=
  mode a = mode b /\ uid a = uid b /\ gid a = gid b /\ kind a = kind b /\ content a = content b /\ contentKnown a = contentKnown b.

Lemma resolve_ok fuel index current visited st : indexInv index -> named current ->
  resolveOfficialPath fuel index current visited = Some (Ok st) -> present st = true -> resolved st <> "" ->
  (forall n base, states index !! n = Some base -> resolved base = "") ->
  exists base, states index !! resolved st = Some base /\ is_link (kind base) = false /\ sameFile st base.
Proof.
  intros Hi. revert current visited st. induction fuel as [|fuel IH]; intros current visited st Hn; cbn [resolveOfficialPath]; [done|].
  case_match; [done|]. case_bool_decide; [done|]. rewrite TrimSlashes_named by done.
  destruct (firstLink index (Split current sep) 0 (length (Split current sep))) as [[[i prefix] state]|] eqn:Hf.
  - case_match; [done|]. set (target := linkTarget _ _ _ _).
    destruct (resolveOfficialPath fuel index target _) as [[found|e]|] eqn:Hr; cbn [mbind option_bind]; [|done..].
    destruct (present found) eqn:Hp; cbn [negb]; [|case_match; intros [= <-]; done]. intros [= <-] _ Hres Hclean.
    destruct (IH target _ found (cleanName_named _) Hr Hp Hres Hclean) as (base & B1 & B2 & B3). by exists base.
  - intros [= <-] Hp Hres Hclean. destruct (states index !! current) as [base|] eqn:Hs.
    + exists base. split_and!; [done| |done].
      pose proof (firstLink_None _ _ _ _ Hf (pred (length (Split current sep)))) as Hk.
      pose proof (Split_nonempty current sep) as Hne. destruct (Split current sep) as [|e l] eqn:Hsp; [done|]. cbn [length pred] in Hk.
      rewrite take_ge, <- Hsp, JoinAll_Split, Hs in Hk by (done || (cbn; lia)). apply Hk. lia.
    + case_bool_decide; cbn in Hres; done.
Qed.

(** ** The whole inspection *)

(** States of the index carry no resolution. *)
Definition unresolved (m : gmap string officialPathState) : Prop := forall n base, m !! n = Some base -> resolved base = "".

Lemma unresolved_empty : unresolved ∅.
Proof. intros n base H. by apply lookup_empty_Some in H. Qed.

Lemma overlay_unresolved queries h m r : unresolved m -> overlayEntry queries h m = Some r ->
  match r with Ok m' => unresolved m' | Err _ => True end.
Proof.
  intros Hu. unfold overlayEntry. destruct (changeOf (HName h)) as [|d|d|clean].
  - by intros [= <-].
  - intros [= <-] n base [H _]%map_lookup_filter_Some. by eapply Hu.
  - intros [= <-] n base [H _]%map_lookup_filter_Some. by eapply Hu.
  - case_match; [|done]. intros [= <-]. match goal with |- context [(?c ≫= _)] => destruct c as [content|e] end; cbn [mbind result_bind]; [|done].
    match goal with |- context [guard_err ?b _] => destruct b end; cbn [guard_err]; [done|].
    intros n base [[<- <-]|[_ Hb]]%lookup_insert_Some; [done|by eapply Hu].
Qed.

Lemma overlay_layers_unresolved queries layers processed m r : unresolved m ->
  readLayers (overlayEntry queries) layers processed m = Some r -> match r with Ok m' => unresolved m' | Err _ => True end.
Proof.
  intros Hu H. destruct (readLayers_sim (fun a b => a = b /\ unresolved a) (overlayEntry queries) (overlayEntry queries)) with layers processed m m r
    as (r' & H' & Hs); [|done|done|].
  - intros h a b r0 [<- Ha] Hr. exists r0. split; [done|]. pose proof (overlay_unresolved _ _ _ _ Ha Hr).
    destruct r0; [|done]. done.
  - rewrite H in H'. injection H' as <-. destruct r; [|done]. by destruct Hs.
Qed.

Lemma resolveAll_ends index queries required found missing : is_Some (resolveAll index queries required found missing).
Proof.
  revert found missing. induction required as [|p required IH]; intros found missing; cbn [resolveAll]; [by eexists|].
  destruct (resolve_ends resolveFuel index (cleanName p) ∅) as [r ->]; [rewrite size_empty; unfold resolveFuel; lia..|].
  cbn [mbind option_bind]. destruct r; [apply IH|by eexists].
Qed.

(** What is found for the paths that resolve to an entry *)
Definition foundIn (m found : gmap string officialPathState) : Prop :=
  forall p st, found !! p = Some st -> present st = true -> resolved st <> "" ->
    exists base, m !! resolved st = Some base /\ is_link (kind base) = false /\
      mode st = mode base /\ uid st = uid base /\ gid st = gid base /\ kind st = kind base.

Lemma resolveAll_found index queries required found missing found' missing' :
  indexInv index -> unresolved (states index) -> foundIn (states index) found ->
  resolveAll index queries required found missing = Some (Ok (found', missing')) -> foundIn (states index) found'.
Proof.
  intros Hi Hu. revert found missing. induction required as [|p required IH]; intros found missing Hf; cbn [resolveAll].
  { by intros [= <- <-]. }
  destruct (resolveOfficialPath resolveFuel index (cleanName p) ∅) as [[st|e]|] eqn:Hr; cbn [mbind option_bind]; [|done..].
  apply IH. intros q st' [[<- <-]|[_ H]]%lookup_insert_Some; [|exact (Hf q st' H)]. intros Hp Hres.
  destruct (resolve_ok _ _ _ _ _ Hi (cleanName_named p) Hr Hp Hres Hu) as (base & ? & ? & ? & ? & ? & ? & _). by exists base.
Qed.

(** C30. The inspection of an official image's file system ends for every image
    and every list of paths.  When the archives list each directory before what
    it holds, the index is the overlay of the layers, whiteouts included, with
    the same errors; and every path found, through links or not, has the mode,
    owner and type of an entry of that overlay that is not a link. *)
Theorem official_filesystem order image requiredPaths contentPaths :
  (forall s, order s ≡ₚ elements s) ->
  is_Some (inspectOfficialFilesystem order image requiredPaths contentPaths) /\
  (forall layers r, image O = Ok layers -> readLayers (overlayEntry (queriesOf contentPaths)) layers 0 ∅ = Some r ->
     match r with
     | Err e => inspectOfficialFilesystem order image requiredPaths contentPaths = Some (Err e)
     | Ok m =>
         (exists index, readLayers (applyEntry order (queriesOf contentPaths)) layers 0 newOfficialPathIndex = Some (Ok index) /\
            states index = m) /\
         forall found, inspectOfficialFilesystem order image requiredPaths contentPaths = Some (Ok found) -> foundIn m found
     end).
Proof.
  intros Ho. unfold inspectOfficialFilesystem. split.
  - destruct (image 0%nat) as [layers|]; [|by eexists].
    destruct (readLayers_ends order Ho (queriesOf contentPaths) layers 0 _ (indexInv_new order Ho)) as (r & -> & _). cbn [mbind option_bind].
    destruct r as [index|]; [|by eexists]. destruct (resolveAll_ends index (queriesOf contentPaths) requiredPaths ∅ ∅) as [r ->].
    cbn [mbind option_bind]. destruct r as [[found missing]|]; [|by eexists]. unfold addContents. case_bool_decide; [by eexists|].
    unfold readOfficialFileContents. destruct (image 1%nat) as [layers'|]; [|by eexists].
    destruct (readContents_ends missing layers' 0 ∅) as [r ->]. by eexists.
  - intros layers r Him Hr. rewrite Him.
    assert (indexes ∅ newOfficialPathIndex) as H0.
    { unfold indexes. split_and!; [done|exact (indexInv_new order Ho)|]. by intros n [? ?]. }
    destruct (readLayers_sim indexes (overlayEntry (queriesOf contentPaths)) (applyEntry order (queriesOf contentPaths))
      (fun h a b r => applyEntry_overlay order Ho _ h a b r) _ _ _ _ _ H0 Hr) as (r' & Hr' & Hs).
    pose proof (overlay_layers_unresolved _ _ _ _ _ unresolved_empty Hr) as Hu. rewrite Hr'. cbn [mbind option_bind].
    destruct r as [m|e], r' as [index|e']; try done; [|cbn in Hs; by subst].
    destruct Hs as (<- & Hi & _). split; [by exists index|]. intros found.
    destruct (resolveAll index (queriesOf contentPaths) requiredPaths ∅ ∅) as [[[found0 missing]|e]|] eqn:Hra; cbn [mbind option_bind]; [|done..].
    apply resolveAll_found in Hra; [|done..|by intros ? ? ?%lookup_empty_Some]. unfold addContents. case_bool_decide; [by intros [= <-]|].
    destruct (readOfficialFileContents image 1 missing) as [[contents|e]|]; cbn [mbind option_bind]; [|done..]. intros [= <-].
    intros p st. rewrite lookup_fmap. destruct (found0 !! p) as [st0|] eqn:Hst; [|done]. intros [= <-].
    unfold withContents. specialize (Hra p st0 Hst). destruct (contents !! resolved st0); done.
Qed.

(** ** On concrete images *)

Definition entry (name : string) (kind : ascii) (target : string) : Header :=
  {| HName := name; HSize := 1; HMode := 493; HUid := 0; HGid := 0; Typeflag := kind; Linkname := target; HContent := Ok "#" |}.
Definition layerOf (l : list Header) : Layer := {| lOpen := None; lEntries := l; lEnd := None; lClose := None |}.
Definition imageOf (layers : list (list Header)) : Image := fun _ => Ok (layerOf <$> layers).

(** Whether a path is found *)
Definition finds (layers : list (list Header)) (p : string) : option bool :=
  match inspectOfficialFilesystem elements (imageOf layers) [p] [] with
  | Some (Ok found) => present <$> found !! p
  | _ => None
  end.

(** [/bin] is a link to [/usr/bin]; [sh] is taken away and put back. *)
Definition linked : list (list Header) :=
  [[entry "usr" TypeDir ""; entry "usr/bin" TypeDir ""; entry "usr/bin/sh" TypeReg ""; entry "bin" TypeSymlink "usr/bin"];
   [entry "usr/bin/.wh.sh" TypeReg ""; entry "usr/bin/sh" TypeReg ""]].

Lemma official_filesystem_witness :
  finds linked "/bin/sh" = Some true /\
  is_Some (inspectOfficialFilesystem elements (imageOf linked) ["/bin/sh"] []).
Proof.
  split; [vm_compute; reflexivity|]. apply (official_filesystem elements (imageOf linked) ["/bin/sh"] []). reflexivity.
Defined.

(** A whiteout misses what lies below a directory the archive does not list. *)
Lemma whiteout_misses_implicit :
  finds [[entry "opt/app/run" TypeReg ""]; [entry ".wh.opt" TypeReg ""]] "/opt/app/run" = Some true.
Proof. vm_compute. reflexivity. Qed.

(** A file put over a directory leaves what the directory held. *)
Lemma file_over_directory_keeps_children :
  finds [[entry "opt" TypeDir ""; entry "opt/run" TypeReg ""]; [entry "opt" TypeReg ""]] "/opt/run" = Some true.
Proof. vm_compute. reflexivity. Qed.

(** An opaque whiteout hides what the same layer put there before it. *)
Lemma opaque_hides_same_layer :
  finds [[entry "opt" TypeDir ""]; [entry "opt" TypeDir ""; entry "opt/run" TypeReg ""; entry "opt/.wh..wh..opq" TypeReg ""]] "/opt/run"
    = Some false.
Proof. vm_compute. reflexivity. Qed.
End OfficialTheorems.
