(* ===== verification/OfficialCandidate.v ===== *)
(** Whether an official image can take the place of another,
    [cli/update/image_admission.go]: the identity a container runs under, the
    programs its search path leads to, and the comparison of the inspected image
    with what its uses require. *)
From stdpp Require Import prelude gmap strings list sorting.
From Stdlib Require Import Ascii ZArith Lia.
From S2P Require Import Prelude GoStrings Sha256 FsPath Treehash OfficialImage.

Module OfficialCandidate.
Import FsPath Sha256 Treehash OfficialImage.

(** ** Identities *)

(** [parseNumericID] over [strconv.Atoi]; the number of a text out of range is
    not used and is 0 here. *)
Definition parseNumericID (value : string) : Z * bool :=
  if String.eqb value "" then (0%Z, false)
  else match ParseInt64 value with Some z => (z, (0 <=? z)%Z) | None => (0%Z, false) end.

Definition configuredIdentityNeedsLookup (user : string) : bool :=
  if String.eqb user "" then false
  else
    let '(name, group, found) := Cut user ":" in
    let group := if (found : bool) then group else "" in
    let numericUser := (parseNumericID name).2 in
    let numericGroup := (parseNumericID group).2 in
    negb numericUser || (negb (String.eqb group "") && negb numericGroup) || (String.eqb group "" && negb (String.eqb name "0")).

(** The first usable line of the password file about the user: its numbers *)
Fixpoint passwdEntry (lines : list string) (userName : string) (uid : Z) (uidKnown : bool) : option (Z * Z) :=
  match lines with
  | [] => None
  | line :: lines =>
      match Split line ":" with
      | name :: _ :: u :: g :: _ =>
          let '(entryUID, uKnown) := parseNumericID u in
          let '(entryGID, gKnown) := parseNumericID g in
          if uKnown && gKnown && ((negb uidKnown && String.eqb name userName) || (uidKnown && (entryUID =? uid)%Z))
          then Some (entryUID, entryGID)
          else passwdEntry lines userName uid uidKnown
      | _ => passwdEntry lines userName uid uidKnown
      end
  end.

(** The first line about the group decides. *)
Fixpoint groupEntry (lines : list string) (groupName : string) : Z * bool :=
  match lines with
  | [] => (0%Z, false)
  | line :: lines =>
      match Split line ":" with
      | name :: _ :: g :: _ => if String.eqb name groupName then parseNumericID g else groupEntry lines groupName
      | _ => groupEntry lines groupName
      end
  end.

Definition newlineByte : ascii := "010".

Definition resolveConfiguredIdentity (configured passwd group : string) : Z * Z * bool :=
  if String.eqb configured "" then (0%Z, 0%Z, true)
  else
    let '(userName, groupName, found) := Cut configured ":" in
    let groupName := if (found : bool) then groupName else "" in
    let '(uid, uidKnown) := parseNumericID userName in
    let '(gid, gidKnown) := parseNumericID groupName in
    let entry := passwdEntry (Split passwd newlineByte) userName uid uidKnown in
    let '(uid, uidKnown) := match entry with Some (u, _) => (u, true) | None => (uid, uidKnown) end in
    let '(gid, gidKnown) :=
      match entry with Some (_, g) => if String.eqb groupName "" then (g, true) else (gid, gidKnown) | None => (gid, gidKnown) end in
    let '(gid, gidKnown) :=
      if negb (String.eqb groupName "") && negb gidKnown then groupEntry (Split group newlineByte) groupName else (gid, gidKnown) in
    (uid, gid, uidKnown && gidKnown).

(** ** Configuration values *)

(** A value of the rendered configuration: the numbers as the decoder types
    them; a [float64] with the integer it equals, if any *)
Inductive any :=
  | AInt (z : Z) | AInt64 (z : Z) | AFloat (integral : option Z) | AString (s : string)
  | AList (l : list any) | AMap (m : list (string * any)) | AOther.

Fixpoint assoc (m : list (string * any)) (key : string) : option any :=
  match m with [] => None | (k, v) :: m => if String.eqb k key then Some v else assoc m key end.

Definition asMap (v : option any) : list (string * any) := match v with Some (AMap m) => m | _ => [] end.

Definition scalarID (value : option any) : string :=
  match value with
  | Some (AInt z) => Itoa z
  | Some (AInt64 z) => Itoa z
  | Some (AFloat (Some z)) => Itoa z
  | _ => ""
  end.

Definition securityContextIDs (runtime : list (string * any)) : string * string :=
  let security := asMap (assoc runtime "securityContext") in
  (scalarID (assoc security "runAsUser"), scalarID (assoc security "runAsGroup")).

Record containerInvocation := { Location : string; Runtime : list (string * any); PodRuntime : list (string * any) }.

Definition invocationRunAs (invocation : containerInvocation) : string * string :=
  let '(user, group) := securityContextIDs (PodRuntime invocation) in
  let '(containerUser, containerGroup) := securityContextIDs (Runtime invocation) in
  (if negb (String.eqb containerUser "") then containerUser else user,
   if negb (String.eqb containerGroup "") then containerGroup else group).

(** ** Requirements *)

Record filesystemObligation := { OPath : string; Origin : string; Executable : bool; SearchPATH : bool; Interpreter : string }.
Record finalImageUse :=
  { artifact : string; invocation : containerInvocation; obligations : list filesystemObligation; requiredPaths : list string;
    requiredEnvironment : option (list string) }.
Record officialImageInspection :=
  { pathExists : gmap string bool; pathStates : gmap string officialPathState; entrypointEnvironment : gmap string bool;
    imageEnvironment : list string; defaultUID : Z; defaultGID : Z; defaultIdentityKnown : bool }.

(** [candidates] of every directory of the first [PATH] that is absolute *)
Definition pathCandidates (executable value : string) : list string :=
  (fun directory => JoinAll [directory; executable]) <$>
    filter (fun directory => IsAbs directory = true /\ Contains directory "$" = false) (Split value ":").
Fixpoint searchPATH (executable : string) (environment : list string) : list string :=
  match environment with
  | [] => []
  | variable :: environment =>
      let '(name, value, found) := Cut variable "=" in
      if (found : bool) && String.eqb name "PATH" then pathCandidates executable value else searchPATH executable environment
  end.
Definition executablePATHCandidates (executable : string) (environment : list string) : list string :=
  if String.eqb executable "" || ContainsAny executable ("/$" +:+ String "000" "") then [] else searchPATH executable environment.

Definition standardExecutablePath (candidate : string) : bool :=
  existsb (fun prefix => HasPrefix candidate prefix && negb (Contains (TrimPrefix candidate prefix) "/"))
    ["/usr/local/sbin/"; "/usr/local/bin/"; "/usr/sbin/"; "/usr/bin/"; "/sbin/"; "/bin/"].

(** [compactSorted]: sorted, without empty strings and repetitions *)
Fixpoint compact (previous : option string) (values : list string) : list string :=
  match values with
  | [] => []
  | v :: values =>
      if String.eqb v "" || bool_decide (previous = Some v) then compact previous values else v :: compact (Some v) values
  end.
Definition compactSorted (values : list string) : list string := compact None (SortStrings values).

Definition officialEntrypointCandidates (entrypoint environment : list string) : list string :=
  match entrypoint with
  | [] => []
  | first :: _ =>
      let executable := TrimSpace first in
      if String.eqb executable "" then []
      else if HasPrefix executable "/" then [Clean executable]
      else if Contains executable "/" then [Clean ("/" +:+ executable)]
      else compactSorted (executablePATHCandidates executable environment)
  end.

Record ImageEntrypointEvidence := { EPath : string; ESHA256 : string; EEnvironment : list string }.
Fixpoint officialEntrypointEvidence (paths variables : list string) (states : gmap string officialPathState)
    (implemented : gmap string bool) : list ImageEntrypointEvidence * gmap string bool :=
  match paths with
  | [] => ([], implemented)
  | candidate :: paths =>
      let state := default absentState (states !! candidate) in
      if negb (present state) || String.eqb (content state) "" then officialEntrypointEvidence paths variables states implemented
      else
        let references := filter (fun variable => Contains (content state) variable = true) variables in
        let implemented := foldl (fun m variable => <[variable := true]> m) implemented references in
        let '(evidence, implemented) := officialEntrypointEvidence paths variables states implemented in
        ({| EPath := candidate; ESHA256 := hashBytes (content state); EEnvironment := references |} :: evidence, implemented)
  end.

(** ** The comparison *)

Definition executablePathCompatible (inspection : officialImageInspection) (candidate : string) (i : containerInvocation) : bool :=
  match pathStates inspection !! candidate with
  | None => default false (pathExists inspection !! candidate)
  | Some state =>
      if negb (present state) then false
      else
        let mode := Z.land (mode state) 511 in
        if (Z.land mode 73 =? 0)%Z then false
        else
          let '(runAsUser, runAsGroup) := invocationRunAs i in
          if String.eqb runAsUser "" && negb (defaultIdentityKnown inspection) then false
          else
            let '(runAsUser, runAsGroup) :=
              if String.eqb runAsUser "" then
                (Itoa (defaultUID inspection), if String.eqb runAsGroup "" then Itoa (defaultGID inspection) else runAsGroup)
              else (runAsUser, runAsGroup) in
            let '(u, userKnown) := parseNumericID runAsUser in
            let '(g, groupKnown) := parseNumericID runAsGroup in
            if negb userKnown then false
            else if (u =? uid state)%Z then negb (Z.land mode 64 =? 0)%Z
            else if groupKnown && (g =? gid state)%Z then negb (Z.land mode 8 =? 0)%Z
            else negb (Z.land mode 1 =? 0)%Z
  end.

Definition interpreterCompatible (inspection : officialImageInspection) (candidates : list string) (interpreter : string) : bool :=
  String.eqb interpreter "bash" &&
  existsb (fun candidate =>
    let state := default absentState (pathStates inspection !! candidate) in
    present state && String.eqb (BaseOf (resolved state)) "bash") candidates.

Definition candidatesOf (inspection : officialImageInspection) (o : filesystemObligation) : list string :=
  if SearchPATH o then executablePATHCandidates (OPath o) (imageEnvironment inspection) else [OPath o].

Definition obligationMismatches (inspection : officialImageInspection) (prefix : string) (i : containerInvocation) (o : filesystemObligation) :
    list string :=
  let candidates := candidatesOf inspection o in
  if SearchPATH o && bool_decide (candidates = []) then
    [prefix +:+ Origin o +:+ " cannot resolve bare executable " +:+ OPath o +:+ " because the official PATH is absent or unsupported"]
  else
    let compatible := existsb (fun candidate =>
      if Executable o then executablePathCompatible inspection candidate i
      else default false (pathExists inspection !! candidate)) candidates in
    let interpreterMismatch :=
      prefix +:+ Origin o +:+ " requires official " +:+ Interpreter o +:+ "-compatible interpreter " +:+ OPath o in
    if compatible then
      if negb (String.eqb (Interpreter o) "") && negb (interpreterCompatible inspection candidates (Interpreter o))
      then [interpreterMismatch] else []
    else
      (prefix +:+ Origin o +:+ " requires official " +:+ (if Executable o then "executable " else "path ") +:+ OPath o) ::
      (if negb (String.eqb (Interpreter o) "") then [interpreterMismatch] else []).

Definition obligationsOf (use : finalImageUse) : list filesystemObligation :=
  match obligations use with
  | [] => (fun required => {| OPath := required; Origin := "runtime contract"; Executable := standardExecutablePath required;
                              SearchPATH := false; Interpreter := "" |}) <$> requiredPaths use
  | l => l
  end.

(** [imageRepository] of [cli/update/contract.go] *)
Definition TrimQuotes (s : string) : string :=
  let quote (c : ascii) := Ascii.eqb c "034" || Ascii.eqb c "'" in
  let fix left s := match s with String c rest => if quote c then left rest else s | "" => s end in
  str_rev (left (str_rev (left s))).
Definition imageRepository (reference : string) : string :=
  let reference := TrimSpace (TrimQuotes reference) in
  let reference := match IndexByte reference "@" with Some at_ => str_take at_ reference | None => reference end in
  let reference :=
    match LastIndexByte reference ":", LastIndexByte reference "/" with
    | Some colon, Some slash => if (slash <? colon)%nat then str_take colon reference else reference
    | Some colon, None => str_take colon reference
    | None, _ => reference
    end in
  if String.eqb reference "" || String.eqb reference "auto" then reference
  else
    let '(registry, remainder, qualified) := Cut reference "/" in
    if negb (qualified : bool) then "docker.io/library/" +:+ reference
    else if String.eqb registry "docker.io" || String.eqb registry "index.docker.io" then "docker.io/" +:+ remainder
    else if negb (String.eqb registry "localhost") && negb (ContainsAny registry ".:") then "docker.io/" +:+ reference
    else reference.

Definition postgresql : string := "registry1.dso.mil/ironbank/opensource/postgres/postgresql".
Definition renderedNames (i : containerInvocation) : list string :=
  match assoc (Runtime i) "env" with
  | Some (AList entries) =>
      omap (fun entry => match assoc (asMap (Some entry)) "name" with
                         | Some (AString name) => if String.eqb name "" then None else Some name
                         | _ => None end) entries
  | _ => []
  end.
Definition requiredEntrypointEnvironment (bigBangRefs : list string) (i : containerInvocation) : list string :=
  let proposed := (fun _ => "POSTGRESQL_VOLUME_DIR") <$> filter (fun r => imageRepository r = postgresql) bigBangRefs in
  match proposed with
  | [] => []
  | _ => compactSorted (filter (fun name => name ∈ renderedNames i) proposed)
  end.

Definition useMismatches (bigBangRefs : list string) (inspection : officialImageInspection) (use : finalImageUse) : list string :=
  let prefix := artifact use +:+ "/" +:+ Location (invocation use) +:+ ": " in
  let environment := match requiredEnvironment use with Some e => e | None => requiredEntrypointEnvironment bigBangRefs (invocation use) end in
  (obligationsOf use ≫= obligationMismatches inspection prefix (invocation use)) ++
  ((fun required => prefix +:+ "official entrypoint does not implement final environment contract " +:+ required) <$>
     filter (fun required => default false (entrypointEnvironment inspection !! required) = false) environment).

Definition compareOfficialCandidate (bigBangRefs : list string) (inspection : officialImageInspection) (uses : list finalImageUse) : list string :=
  compactSorted (uses ≫= useMismatches bigBangRefs inspection).

(** ** What the comparison admits *)

(** The identity a container runs under: the user, and the group when known *)
Definition identityOf (inspection : officialImageInspection) (i : containerInvocation) : option (Z * option Z) :=
  let numeric s := let '(z, known) := parseNumericID s in if (known : bool) then Some z else None in
  let '(user, group) := invocationRunAs i in
  if String.eqb user "" then
    if defaultIdentityKnown inspection then
      u ← numeric (Itoa (defaultUID inspection));
      Some (u, numeric (if String.eqb group "" then Itoa (defaultGID inspection) else group))
    else None
  else u ← numeric user; Some (u, numeric group).

(** The permission bit that decides: the owner's, the group's or the others' *)
Definition executeBit (u : Z) (g : option Z) (st : officialPathState) : Z :=
  if decide (u = uid st) then 6 else if decide (g = Some (gid st)) then 3 else 0.

Definition executable (inspection : officialImageInspection) (i : containerInvocation) (candidate : string) : Prop :=
  match pathStates inspection !! candidate with
  | None => pathExists inspection !! candidate = Some true
  | Some st => present st = true /\ exists u g, identityOf inspection i = Some (u, g) /\ Z.testbit (mode st) (executeBit u g st) = true
  end.

Definition satisfied (inspection : officialImageInspection) (i : containerInvocation) (o : filesystemObligation) : Prop :=
  (exists candidate, candidate ∈ candidatesOf inspection o /\
     if Executable o then executable inspection i candidate else pathExists inspection !! candidate = Some true) /\
  (Interpreter o <> "" -> Interpreter o = "bash" /\ exists candidate st, candidate ∈ candidatesOf inspection o /\
     pathStates inspection !! candidate = Some st /\ present st = true /\ BaseOf (resolved st) = "bash").

Lemma land_bit m n : (0 <= n < 9)%Z -> negb (Z.land (Z.land m 511) (2 ^ n) =? 0)%Z = Z.testbit m n.
Proof.
  intros Hn. rewrite <- Z.land_assoc. change 511%Z with (Z.ones 9). rewrite (Z.land_comm (Z.ones 9)), Z.land_ones by lia.
  rewrite Z.mod_small by (split; [lia|apply Z.pow_lt_mono_r; lia]).
  destruct (Z.testbit m n) eqn:Hb.
  - apply negb_true_iff, Z.eqb_neq. intros H. apply (f_equal (fun z => Z.testbit z n)) in H.
    rewrite Z.land_spec, Hb, Z.pow2_bits_true, Z.bits_0 in H by lia. done.
  - apply negb_false_iff, Z.eqb_eq, Z.bits_inj'. intros k Hk. rewrite Z.land_spec, Z.bits_0, Z.pow2_bits_eqb by lia.
    destruct (Z.eqb_spec n k) as [<-|]; [by rewrite Hb|by rewrite andb_false_r].
Qed.

(** A set execute bit is one of the three. *)
Lemma any_execute_bit m n : n ∈ [6%Z; 3%Z; 0%Z] -> Z.testbit m n = true -> (Z.land (Z.land m 511) 73 =? 0)%Z = false.
Proof.
  intros Hn Hb. apply Z.eqb_neq. intros H. apply (f_equal (fun z => Z.testbit z n)) in H.
  rewrite !Z.land_spec, Hb, Z.bits_0 in H. repeat (apply elem_of_cons in Hn as [->|Hn]; [discriminate H|]). by apply elem_of_nil in Hn.
Qed.

Lemma executablePathCompatible_spec inspection candidate i :
  executablePathCompatible inspection candidate i = true <-> executable inspection i candidate.
Proof.
  unfold executablePathCompatible, executable, identityOf. destruct (pathStates inspection !! candidate) as [st|].
  2: { destruct (pathExists inspection !! candidate) as [[]|]; cbn; naive_solver. }
  destruct (present st); cbn [negb]; [|naive_solver]. destruct (invocationRunAs i) as [user group].
  assert (forall (u : Z) (kg : bool) (g : Z),
    (if (Z.land (Z.land (mode st) 511) 73 =? 0)%Z then false
     else if (u =? uid st)%Z then negb (Z.land (Z.land (mode st) 511) 64 =? 0)%Z
     else if kg && (g =? gid st)%Z then negb (Z.land (Z.land (mode st) 511) 8 =? 0)%Z
     else negb (Z.land (Z.land (mode st) 511) 1 =? 0)%Z) = Z.testbit (mode st) (executeBit u (if kg then Some g else None) st)) as Hbits.
  { intros u kg g. unfold executeBit.
    pose proof (any_execute_bit (mode st) 6) as A6. pose proof (any_execute_bit (mode st) 3) as A3. pose proof (any_execute_bit (mode st) 0) as A0.
    change 64%Z with (2 ^ 6)%Z. change 8%Z with (2 ^ 3)%Z. change 1%Z with (2 ^ 0)%Z. rewrite !land_bit by lia.
    destruct (Z.eqb_spec u (uid st)); [rewrite decide_True by done|rewrite decide_False by done].
    - destruct (Z.testbit (mode st) 6); [rewrite A6 by set_solver|case_match]; done.
    - destruct kg; cbn [andb].
      + destruct (Z.eqb_spec g (gid st)) as [->|]; [rewrite decide_True by done|rewrite decide_False by congruence].
        * destruct (Z.testbit (mode st) 3); [rewrite A3 by set_solver|case_match]; done.
        * destruct (Z.testbit (mode st) 0); [rewrite A0 by set_solver|case_match]; done.
      + rewrite decide_False by done. destruct (Z.testbit (mode st) 0); [rewrite A0 by set_solver|case_match]; done. }
  set (any := (Z.land (Z.land (mode st) 511) 73 =? 0)%Z) in *.
  destruct (String.eqb user ""); cbn [andb].
  - destruct (defaultIdentityKnown inspection); cbn [negb]; [|destruct any; naive_solver].
    destruct (parseNumericID (Itoa (defaultUID inspection))) as [u ku].
    destruct (parseNumericID (if String.eqb group "" then Itoa (defaultGID inspection) else group)) as [g kg].
    destruct ku; cbn [negb mbind option_bind]; [rewrite Hbits; naive_solver|destruct any; naive_solver].
  - destruct (parseNumericID user) as [u ku]. destruct (parseNumericID group) as [g kg].
    destruct ku; cbn [negb mbind option_bind]; [rewrite Hbits; naive_solver|destruct any; naive_solver].
Qed.

Lemma interpreterCompatible_spec inspection candidates interpreter :
  interpreterCompatible inspection candidates interpreter = true <->
  interpreter = "bash" /\ exists candidate st, candidate ∈ candidates /\ pathStates inspection !! candidate = Some st /\
    present st = true /\ BaseOf (resolved st) = "bash".
Proof.
  unfold interpreterCompatible. rewrite andb_true_iff, String.eqb_eq, existsb_exists. setoid_rewrite <- list_elem_of_In. split.
  - intros [-> (c & Hc & H)]. split; [done|]. destruct (pathStates inspection !! c) as [st|] eqn:Hs; cbn in H; [|done].
    apply andb_true_iff in H as [? ?%String.eqb_eq]. by exists c, st.
  - intros [-> (c & st & Hc & Hs & Hp & Hb)]. split; [done|]. exists c. rewrite Hs. cbn. by rewrite Hp, Hb.
Qed.

Lemma obligation_satisfied inspection prefix i o : obligationMismatches inspection prefix i o = [] <-> satisfied inspection i o.
Proof.
  unfold obligationMismatches, satisfied.
  assert (existsb (fun candidate => if Executable o then executablePathCompatible inspection candidate i
      else default false (pathExists inspection !! candidate)) (candidatesOf inspection o) = true <->
    exists candidate, candidate ∈ candidatesOf inspection o /\
      if Executable o then executable inspection i candidate else pathExists inspection !! candidate = Some true) as Hex.
  { rewrite existsb_exists. setoid_rewrite <- list_elem_of_In. destruct (Executable o).
    - by setoid_rewrite executablePathCompatible_spec.
    - assert (forall c, default false (pathExists inspection !! c) = true <-> pathExists inspection !! c = Some true) as Hd
        by (intros c; destruct (pathExists inspection !! c) as [[]|]; cbn; naive_solver). by setoid_rewrite Hd. }
  rewrite <- Hex. rewrite <- (interpreterCompatible_spec inspection (candidatesOf inspection o)).
  destruct (SearchPATH o && bool_decide (candidatesOf inspection o = [])) eqn:Hs.
  - apply andb_true_iff in Hs as [_ Hs%bool_decide_eq_true]. rewrite Hs. cbn. split; [done|]. by intros [? _].
  - destruct (existsb _ _); [|naive_solver].
    destruct (String.eqb_spec (Interpreter o) ""); cbn [negb andb]; [naive_solver|].
    destruct (interpreterCompatible _ _ _); cbn; naive_solver.
Qed.

Lemma compact_nil l : compact None l = [] <-> Forall (fun v => v = "") l.
Proof.
  induction l as [|v l IH]; cbn [compact]; [done|]. rewrite Forall_cons, <- IH.
  destruct (String.eqb_spec v ""); cbn [orb]; [naive_solver|]. rewrite bool_decide_false by done. naive_solver.
Qed.

Lemma compactSorted_nil l : Forall (fun v => v <> "") l -> compactSorted l = [] <-> l = [].
Proof.
  intros Hl. unfold compactSorted. rewrite compact_nil, SortStrings_perm. destruct l as [|v l]; [done|].
  apply Forall_cons in Hl as [Hv _]. rewrite Forall_cons. naive_solver.
Qed.

Lemma append_nonempty a b : b <> "" -> a +:+ b <> "".
Proof. destruct a; [done|]. by rewrite str_append_cons. Qed.

Lemma mismatches_nonempty bigBangRefs inspection use : Forall (fun v => v <> "") (useMismatches bigBangRefs inspection use).
Proof.
  unfold useMismatches. set (prefix := artifact use +:+ _).
  assert (forall t, prefix +:+ t <> "") as Hp by (intros t; unfold prefix; rewrite str_append_assoc; by apply append_nonempty).
  apply Forall_app. split.
  - apply Forall_forall. intros v (o & Hv & _)%list_elem_of_bind. unfold obligationMismatches in Hv.
    repeat case_match; repeat (apply elem_of_cons in Hv as [->|Hv]; [apply Hp|]); by apply elem_of_nil in Hv.
  - apply Forall_fmap, Forall_forall. intros; apply Hp.
Qed.

(** C10. An official image is admitted for its uses, without a mismatch, exactly
    when each required path is found (a bare name through the image's search
    path), each required program has the permission bit set that decides for the
    identity the container runs under, a required shell is one, and the
    entrypoint knows every variable the final environment relies on. *)
Theorem candidate_admitted bigBangRefs inspection uses :
  compareOfficialCandidate bigBangRefs inspection uses = [] <->
  Forall (fun use =>
    Forall (satisfied inspection (invocation use)) (obligationsOf use) /\
    Forall (fun variable => entrypointEnvironment inspection !! variable = Some true)
      (default (requiredEntrypointEnvironment bigBangRefs (invocation use)) (requiredEnvironment use))) uses.
Proof.
  unfold compareOfficialCandidate. rewrite compactSorted_nil.
  2: { apply Forall_forall. intros v (use & Hv & _)%list_elem_of_bind. pose proof (mismatches_nonempty bigBangRefs inspection use) as H.
       rewrite Forall_forall in H. by apply H. }
  assert (forall {A} (l : list A) (f : A -> list string), l ≫= f = [] <-> Forall (fun x => f x = []) l) as Hbind.
  { intros A l f. induction l as [|x l IH]; [done|]. rewrite bind_cons, Forall_cons, <- IH. apply app_nil. }
  rewrite Hbind, !Forall_forall. setoid_rewrite Forall_forall.
  assert (forall use, useMismatches bigBangRefs inspection use = [] <->
    (forall o, o ∈ obligationsOf use -> satisfied inspection (invocation use) o) /\
    (forall v, v ∈ default (requiredEntrypointEnvironment bigBangRefs (invocation use)) (requiredEnvironment use) ->
       entrypointEnvironment inspection !! v = Some true)) as Huse; [|by setoid_rewrite Huse].
  intros use. unfold useMismatches. rewrite app_nil, Hbind, Forall_forall. setoid_rewrite obligation_satisfied. apply and_iff_compat_l.
  replace (match requiredEnvironment use with Some e => e | None => requiredEntrypointEnvironment bigBangRefs (invocation use) end)
    with (default (requiredEntrypointEnvironment bigBangRefs (invocation use)) (requiredEnvironment use)) by (by destruct (requiredEnvironment use)).
  induction (default (requiredEntrypointEnvironment bigBangRefs (invocation use)) (requiredEnvironment use)) as [|v l IH]; [set_solver|].
  rewrite filter_cons. destruct (entrypointEnvironment inspection !! v) as [[]|] eqn:Hv; cbn [default from_option id].
  - rewrite decide_False by done. rewrite IH. setoid_rewrite elem_of_cons. naive_solver.
  - rewrite decide_True by done. split; [done|]. intros H. specialize (H v ltac:(by constructor)). congruence.
  - rewrite decide_True by done. split; [done|]. intros H. specialize (H v ltac:(by constructor)). congruence.
Qed.

(** A program only its owner may run is admitted for its owner and refused for
    another user. *)
Definition shell (u : Z) : officialPathState :=
  {| present := true; mode := 448; uid := u; gid := 0; kind := TypeReg; link := ""; content := ""; resolved := "bin/bash"; contentKnown := false |}.
Definition inspection0 (u : Z) : officialImageInspection :=
  {| pathExists := ∅; pathStates := {["/bin/bash" := shell u]}; entrypointEnvironment := ∅; imageEnvironment := ["PATH=/usr/bin:/bin"];
     defaultUID := 7; defaultGID := 7; defaultIdentityKnown := true |}.
Definition use0 : finalImageUse :=
  {| artifact := "a"; invocation := {| Location := "l"; Runtime := []; PodRuntime := [] |};
     obligations := [{| OPath := "bash"; Origin := "command"; Executable := true; SearchPATH := true; Interpreter := "bash" |}];
     requiredPaths := []; requiredEnvironment := Some [] |}.
Example owner_only :
  (compareOfficialCandidate [] (inspection0 7) [use0], compareOfficialCandidate [] (inspection0 8) [use0]) =
  ([], ["a/l: command requires official bash-compatible interpreter bash"; "a/l: command requires official executable bash"]).
Proof. vm_compute. reflexivity. Qed.
End OfficialCandidate.
