(* ===== verification/MirrorTags.v ===== *)
(** The names a delivery gives the images it mirrors: the Harbor tags of
    [MirrorTargetTags], the registry variables of Kubespray, the receipts an
    update keeps of an earlier mirror, in [cli/config/config.go]. *)
From stdpp Require Import prelude gmap strings list sorting.
From Stdlib Require Import Ascii ZArith Lia.
From S2P Require Import Prelude GoStrings Utf8 Sha256 Treehash Release Progress LocalAccess BakeGraph.

Module MirrorTags.
Import Utf8 Sha256 Treehash Release Progress LocalAccess BakeGraph.

(** ** The data *)

Record ImageOfficialConfig := {
  OfficialSHA256 : string;
  (** path, whether present, mode, uid and gid of [ImageFilesystemEvidence] *)
  Filesystem : list (string * bool * string * Z * Z);
  (** path and digest of [ImageEntrypointEvidence] *)
  EntrypointFiles : list (string * string)
}.
Record ImageRuntimeEvidence := {
  Artifact : string; RenderedLocation : string; RuntimeContractSHA256 : string;
  RequiredPaths : list string; RequiredEnvironment : list string
}.
Record ImageCompatibility := {
  Contract : string; Observations : list ImageRuntimeEvidence; Incompatibility : string;
  OfficialSource : string; OfficialMaterial : string; RemovalCondition : string;
  OfficialConfig : ImageOfficialConfig
}.
Record Image := {
  ID : string; Family : string; Target : string; Scopes : list string; Runtime : bool;
  Consumers : list string; Discovery : string; Compatibility : option ImageCompatibility;
  Default : DeliveryChoice
}.
Record DeliveryPolicy := {
  ForbiddenArtifactPrefixes : list string; RuntimeRegistryPrefix : string; MutableTagsForbidden : bool
}.

(** The parser of image references of go-containerregistry: the registry, the
    full name of the repository and of the reference, and whether it is one by
    digest; [NewTag] with [WeakValidation].  The name of a repository is its
    registry, which has a default, and its path; no tag is accepted with a NUL. *)
Record Reference :=
  { RegistryStr : string; RepositoryStr : string; ContextName : string; RefName : string; IsDigest : bool }.
Class ImageNames := {
  ParseReference : string -> option Reference;
  NewTag : string -> bool;
  parse_name s r : ParseReference s = Some r -> ContextName r = RegistryStr r +:+ "/" +:+ RepositoryStr r;
  parse_registry s r : ParseReference s = Some r -> RegistryStr r <> "";
  tag_bytes s : NewTag s = true -> IndexByte s "000" = None
}.

(** [sort.Slice] is not stable: of members that compare equal either may come
    first *)
Record member := { id : string; repository : string; digest : string; nativeTag : string }.
Definition member_key (m : member) : string * string := (repository m, digest m).
Definition member_le (a b : member) : Prop :=
  if String.eqb (repository a) (repository b) then str_le (digest a) (digest b) else str_le (repository a) (repository b).
Class SortMembers := {
  sortMembers : list member -> list member;
  sort_perm l : sortMembers l ≡ₚ l;
  sort_sorted l : StronglySorted member_le (sortMembers l)
}.

(** ** Kubespray image ids *)

(** [strings.Trim] and [strings.TrimRight] by dashes *)
Fixpoint trimLeftDash (s : string) : string :=
  match s with String c rest => if Ascii.eqb c "-" then trimLeftDash rest else s | "" => "" end.
Fixpoint trimRightDash (s : string) : string :=
  match s with
  | "" => ""
  | String c rest =>
      match trimRightDash rest with
      | "" => if Ascii.eqb c "-" then "" else String c ""
      | kept => String c kept
      end
  end.

(** The loop over the characters: what was built and the pending separator *)
Definition component_step (state : string * bool) (character : N) : string * bool :=
  let '(built, separator) := state in
  if within 97 122 character || within 48 57 character
  then (built +:+ (if separator && negb (String.length built =? 0)%nat then "-" else "") +:+ EncodeRune character, false)
  else (built, true).

Section Kubespray.
Context {IN : ImageNames} {MR : MapRange} {UC : UnicodeCase}.

Definition sanitizeKubesprayImageComponent (value : string) : string :=
  let value := ToLower value in
  let '(built, _) := fold_left component_step (runes value).*1 ("", false) in
  let result := trimRightDash (trimLeftDash built) in
  if String.eqb result "" then "image"
  else if (32 <? String.length result)%nat then trimRightDash (str_take 32 result)
  else result.

Definition KubesprayImageID (source : string) : option string :=
  reference ← ParseReference source;
  let component := sanitizeKubesprayImageComponent (Base (ContextName reference)) in
  Some ("kubespray-" +:+ component +:+ "-" +:+ str_take 12 (hashBytes (RefName reference))).

(** ** The registry variables of Kubespray *)

Inductive kubesprayError :=
  | KDuplicated (id : string)
  | KIncomplete (id : string)
  | KReference (text : string)
  | KSecondRegistry (id : string)
  | KNotDerived (id : string)
  | KNoNamespace (id : string)
  | KAmbiguous (registry : string)
  | KEmpty
  | KHost (host : string)
  | KGraph.

(** Of the document the images, the image ids of every inventory and the registry *)
Record Document := {
  Images : list Image; Inventories : list (list string); Host : string; TLSVerify : bool
}.

Definition parse (text : string) : result kubesprayError Reference :=
  match ParseReference text with Some r => Ok r | None => Err (KReference text) end.

Fixpoint allImages (images : list Image) (all : gmap string Image) : result kubesprayError (gmap string Image) :=
  match images with
  | [] => Ok all
  | image :: images =>
      _ ← guard_err (bool_decide (is_Some (all !! ID image))) (KDuplicated (ID image));
      allImages images (<[ID image := image]> all)
  end.

Definition inventoryIDs (desired : Document) : gmap string unit :=
  list_to_map ((fun id => (id, tt)) <$> concat (Inventories desired)).

Record graphState := { selected : gmap string Image; repositories : gmap string string; targetHost : string }.

Definition canonicalStep (all : gmap string Image) (state : graphState) (id : string) : result kubesprayError graphState :=
  match all !! id with
  | None => Err (KIncomplete id)
  | Some image =>
      _ ← guard_err (negb (String.eqb (Discovery image) "kubespray") || negb (String.eqb (DType (Default image)) "mirror") ||
                     String.eqb (Source (Default image)) "" || String.eqb (Digest (Default image)) "") (KIncomplete id);
      source ← parse (Source (Default image));
      target ← parse (Target image);
      _ ← guard_err (negb (String.eqb (targetHost state) "") && negb (String.eqb (RegistryStr target) (targetHost state)))
            (KSecondRegistry id);
      let targetHost := if String.eqb (targetHost state) "" then RegistryStr target else targetHost state in
      let targetRepository := ContextName target in
      let suffix := "/" +:+ ContextName source in
      _ ← guard_err (negb (HasSuffix targetRepository suffix)) (KNotDerived id);
      let targetRoot := TrimSuffix targetRepository suffix in
      _ ← guard_err (negb (HasSuffix targetRoot "/kubespray")) (KNoNamespace id);
      let targetRepository := targetRoot +:+ "/" +:+ RegistryStr source in
      _ ← guard_err (match repositories state !! RegistryStr source with
                     | Some existing => negb (String.eqb existing targetRepository)
                     | None => false end) (KAmbiguous (RegistryStr source));
      Ok {| selected := <[id := image]> (selected state);
            repositories := <[RegistryStr source := targetRepository]> (repositories state);
            targetHost := targetHost |}
  end.

Fixpoint canonicalLoop (all : gmap string Image) (ids : list string) (state : graphState) : result kubesprayError graphState :=
  match ids with
  | [] => Ok state
  | id :: ids => state ← canonicalStep all state id; canonicalLoop all ids state
  end.

Definition kubesprayCanonicalImages (desired : Document) : result kubesprayError graphState :=
  all ← allImages (Images desired) ∅;
  state ← canonicalLoop all (range_ "kubesprayCanonicalImages" "" (inventoryIDs desired)).*1
            {| selected := ∅; repositories := ∅; targetHost := "" |};
  _ ← guard_err (String.eqb (targetHost state) "") KEmpty;
  Ok state.

Inductive value := VString (s : string) | VBool (b : bool) | VList (l : list value) | VMap (m : list (string * value)).

Definition registryMirror (tlsVerify : bool) (prefix url : string) (overridePath : bool) : value :=
  VMap [("prefix", VString prefix); ("server", VString url);
        ("mirrors", VList [VMap ([("host", VString url); ("capabilities", VList [VString "pull"; VString "resolve"]);
                                  ("skip_verify", VBool (negb tlsVerify))] ++
                                 (if overridePath then [("override_path", VBool true)] else []))])].

Definition registryVariables : list (string * string) :=
  [("gcr.io", "gcr_image_repo"); ("registry.k8s.io", "kube_image_repo"); ("index.docker.io", "docker_image_repo");
   ("quay.io", "quay_image_repo"); ("ghcr.io", "github_image_repo")].

Definition variableStep (repositories : gmap string string) (values : gmap string value) (entry : string * string) :
  gmap string value :=
  let '(source, variable) := entry in
  match repositories !! source with
  | Some target =>
      let values := <[variable := VString target]> values in
      if String.eqb variable "kube_image_repo" then <["kubeadm_image_repo" := VString target]> values else values
  | None => values
  end.

Definition KubesprayRegistryValues (desired : Document) : result kubesprayError (gmap string value) :=
  state ← kubesprayCanonicalImages desired;
  _ ← guard_err (negb (String.eqb (targetHost state) (Host desired))) (KHost (targetHost state));
  let scheme := if TLSVerify desired then "https://" else "http://" in
  let sources := SortStrings (range_ "KubesprayRegistryValues" "sources" (repositories state)).*1 in
  let mirrors := registryMirror (TLSVerify desired) (targetHost state) (scheme +:+ targetHost state) false ::
                 ((fun source => registryMirror (TLSVerify desired) source
                                   (scheme +:+ default "" (repositories state !! source)) true) <$> sources) in
  _ ← guard_err (negb (size (selected state) =? size (inventoryIDs desired))%nat) KGraph;
  Ok (fold_left (variableStep (repositories state))
        (range_ "KubesprayRegistryValues" "variables" (list_to_map registryVariables))
        {[ "containerd_registries_mirrors" := VList mirrors ]}).
End Kubespray.

(** ** Content-addressed tags *)

Inductive tagError :=
  | TInput
  | TDigest
  | TIdentity
  | TInvalid (tag : string)
  | TDuplicated (id : string)
  | TImageDigest (id : string)
  | TTarget (id : string)
  | TKubespray (id : string)
  | TFlux (id : string).

Definition ContentAddressedBuildTag (inputSHA256 : string) : result tagError string :=
  if negb (validHexSHA256 inputSHA256) then Err TInput else Ok ("build-" +:+ inputSHA256).

Definition mirrorTagIdentityLength : nat := 48.

Section Tags.
Context {IN : ImageNames} {MR : MapRange} {SM : SortMembers} {UC : UnicodeCase}.

Definition contentAddressedMirrorTag (version kind identity : string) : result tagError string :=
  _ ← guard_err (String.eqb version "" || (String.length identity <? mirrorTagIdentityLength)%nat) TIdentity;
  let tag := version +:+ "-" +:+ kind +:+ "-" +:+ str_take mirrorTagIdentityLength identity in
  _ ← guard_err (negb (NewTag ("registry.invalid/atum/image:" +:+ tag))) (TInvalid tag);
  Ok tag.

Definition ContentAddressedMirrorTag (upstreamTag digest : string) : result tagError string :=
  _ ← guard_err (negb (validDigest digest)) TDigest;
  contentAddressedMirrorTag upstreamTag "mirror" (TrimPrefix digest "sha256:").

Definition fluxControllers : list string :=
  ["source-controller"; "kustomize-controller"; "helm-controller"; "notification-controller"].

Definition after_slash (s : string) : string := str_drop (Z.to_nat (lastIndex s "/" + 1)) s.

Definition nativeMirrorTargetTag (image : Image) : result tagError string :=
  let sourceRepository := imageReferenceRepository (Source (Default image)) in
  let targetRepository := imageReferenceRepository (Target image) in
  let tag := imageReferenceTag (Source (Default image)) in
  if String.eqb (Discovery image) "kubespray" then
    if negb (String.eqb (Family image) "kubernetes") || negb (bool_decide (Scopes image = ["kubespray"])) ||
       negb (bool_decide (Consumers image = ["kubespray"])) || negb (Runtime image) || String.eqb sourceRepository "" ||
       negb (HasSuffix targetRepository ("/kubespray/" +:+ sourceRepository)) || String.eqb tag ""
    then Err (TKubespray (ID image)) else Ok tag
  else if negb (bool_decide (ID image ∈ fluxControllers)) then Ok ""
  else if negb (String.eqb (Family image) "flux") || negb (bool_decide (Consumers image = ["flux"])) ||
          (lastIndex sourceRepository "/" <? 0)%Z || (lastIndex targetRepository "/" <? 0)%Z ||
          negb (String.eqb (after_slash sourceRepository) (ID image)) ||
          negb (String.eqb (after_slash targetRepository) (ID image)) || String.eqb tag ""
  then Err (TFlux (ID image)) else Ok tag.

Definition isMirror (image : Image) : bool := String.eqb (DType (Default image)) "mirror".
Definition hub (image : Image) : string :=
  let repository := imageReferenceRepository (Target image) in str_take (Z.to_nat (lastIndex repository "/")) repository.
Definition upstream (image : Image) : string := imageReferenceTag (Source (Default image)).
Definition groupOf (image : Image) : string := hub image +:+ nul +:+ upstream image.

(** The first loop: the mirrors by hub and upstream tag *)
Fixpoint collect (images : list Image) (seenIDs : gset string) (groups : gmap string (list member)) :
  result tagError (gmap string (list member)) :=
  match images with
  | [] => Ok groups
  | image :: images =>
      if negb (isMirror image) then collect images seenIDs groups
      else
        _ ← guard_err (bool_decide (ID image ∈ seenIDs)) (TDuplicated (ID image));
        _ ← guard_err (negb (validDigest (Digest (Default image)))) (TImageDigest (ID image));
        let repository := imageReferenceRepository (Target image) in
        _ ← guard_err ((lastIndex repository "/" <=? 0)%Z || String.eqb (upstream image) "") (TTarget (ID image));
        nativeTag ← nativeMirrorTargetTag image;
        let item := {| id := ID image; repository := repository; digest := Digest (Default image); nativeTag := nativeTag |} in
        collect images ({[ID image]} ∪ seenIDs)
          (<[groupOf image := default [] (groups !! groupOf image) ++ [item]]> groups)
  end.

(** What is hashed for a group of several members *)
Definition setMaterial (group : string) (members : list member) : string :=
  "atum.dev/mirror-target-set/v1" +:+ nul +:+ group +:+ nul +:+
  fold_right (fun item rest => repository item +:+ nul +:+ digest item +:+ nul +:+ rest) "" members.

(** The tag of a group; [strings.SplitN(group, "\x00", 2)[1]] is what follows the first NUL *)
Definition groupTag (group : string) (members : list member) : result tagError string :=
  let '(_, upstreamTag, _) := Cut group nul in
  match members with
  | [item] => ContentAddressedMirrorTag upstreamTag (digest item)
  | _ => contentAddressedMirrorTag upstreamTag "mirror-set" (hashBytes (setMaterial group members))
  end.

Definition assign (tag : string) (result : gmap string string) (item : member) : gmap string string :=
  <[id item := if String.eqb (nativeTag item) "" then tag else nativeTag item]> result.

Fixpoint tagLoop (groups : list (string * list member)) (result : gmap string string) :
  Prelude.result tagError (gmap string string) :=
  match groups with
  | [] => Ok result
  | (group, members) :: groups =>
      let members := sortMembers members in
      tag ← groupTag group members;
      tagLoop groups (fold_left (assign tag) members result)
  end.

Definition MirrorTargetTags (images : list Image) : result tagError (gmap string string) :=
  groups ← collect images ∅ ∅;
  tagLoop (range_ "MirrorTargetTags" "" groups) ∅.

(** ** Receipts *)

Definition mutableImageReference (reference : string) : bool :=
  if Contains reference "@" then true
  else
    let lastSlash := lastIndex reference "/" in
    let colon := lastIndex reference ":" in
    if (colon <=? lastSlash)%Z || (colon =? Z.of_nat (String.length reference) - 1)%Z then true
    else bool_decide (ToLower (str_drop (S (Z.to_nat colon)) reference) ∈
           ["latest"; "stable"; "current"; "main"; "master"; "edge"; "nightly"; "dev"; "development"]).

Inductive evidenceError :=
  | ESource | EMutable | EMaterial | ENotImmutable | ERegistry1 | EForbidden (prefix : string) | ERepository.

Definition ValidateOfficialImageEvidence (policy : DeliveryPolicy) (source material : string) : result evidenceError unit :=
  match ParseReference source with
  | None => Err ESource
  | Some sourceReference =>
      _ ← guard_err (MutableTagsForbidden policy && negb (IsDigest sourceReference) && mutableImageReference source) EMutable;
      match ParseReference material with
      | None => Err EMaterial
      | Some materialReference =>
          _ ← guard_err (negb (IsDigest materialReference)) ENotImmutable;
          let sourceRepository := ContextName sourceReference in
          let materialRepository := ContextName materialReference in
          _ ← guard_err (HasPrefix sourceRepository "registry1.dso.mil/" || HasPrefix materialRepository "registry1.dso.mil/")
                ERegistry1;
          match find (fun prefix => HasPrefix source prefix || HasPrefix material prefix ||
                                    HasPrefix sourceRepository prefix || HasPrefix materialRepository prefix)
                  (ForbiddenArtifactPrefixes policy) with
          | Some prefix => Err (EForbidden prefix)
          | None => guard_err (negb (String.eqb sourceRepository materialRepository)) ERepository
          end
      end
  end.

(** [imageRepository] of [cli/config/config.go] *)
Definition imageRepository (reference : string) : string :=
  let lastSlash := lastIndex reference "/" in
  let colon := lastIndex reference ":" in
  if (lastSlash <? colon)%Z then str_take (Z.to_nat colon) reference else reference.

Definition count (f : Image -> string) (images : list Image) (value : string) : nat :=
  length (filter (fun image => f image = value) images).

Definition receiptCandidate (policy : DeliveryPolicy) (images : list Image) (image : Image) : bool :=
  let choice := Default image in
  negb (negb (count ID images (ID image) =? 1)%nat || negb (count Target images (Target image) =? 1)%nat ||
        negb (validResourceID (ID image)) || negb (isMirror image) || negb (validDigest (Digest choice)) ||
        negb (HasPrefix (Target image) (RuntimeRegistryPrefix policy)) || String.eqb (imageReferenceTag (Target image)) "" ||
        Contains (Source choice) "@" || String.eqb (imageReferenceTag (Source choice)) "") &&
  is_ok (ValidateOfficialImageEvidence policy (Source choice) (imageRepository (Source choice) +:+ "@" +:+ Digest choice)).

Record ImageMirrorReceipt := { RID : string; RTarget : string; RSource : string; RDigest : string }.

Definition receiptStep (targetTags : gmap string string) (receipts : gmap string ImageMirrorReceipt) (image : Image) :
  gmap string ImageMirrorReceipt :=
  match targetTags !! ID image with
  | Some expectedTag =>
      if negb (String.eqb (imageReferenceTag (Target image)) expectedTag) then receipts
      else <[ID image := {| RID := ID image; RTarget := Target image; RSource := Source (Default image);
                            RDigest := Digest (Default image) |}]> receipts
  | None => receipts
  end.

Definition exactMirrorReceipts (policy : DeliveryPolicy) (images : list Image) :
  result tagError (gmap string ImageMirrorReceipt) :=
  let candidates := List.filter (receiptCandidate policy images) images in
  targetTags ← MirrorTargetTags candidates;
  Ok (fold_left (receiptStep targetTags) candidates ∅).

(** [validCompatibilityReceipt] and the receipts of [compatibilityReceipts],
    whose copy through JSON keeps every field *)
Definition validObservation (o : ImageRuntimeEvidence) : bool :=
  negb (String.eqb (Artifact o) "" || String.eqb (RenderedLocation o) "" || negb (validHexSHA256 (RuntimeContractSHA256 o))) &&
  forallb (fun required => HasPrefix required "/") (RequiredPaths o) &&
  forallb (fun required => negb (String.eqb required "" || ContainsAny required (String "=" nul))) (RequiredEnvironment o).

Definition validFilesystem (evidence : string * bool * string * Z * Z) : bool :=
  let '(path, present, mode, uid, gid) := evidence in
  negb (negb (HasPrefix path "/") || present && String.eqb mode "" ||
        negb present && (negb (String.eqb mode "") || negb (uid =? 0)%Z || negb (gid =? 0)%Z)).

Definition validCompatibilityReceipt (policy : DeliveryPolicy) (image : Image) : bool :=
  match Compatibility image with
  | None => false
  | Some evidence =>
      negb (negb (String.eqb (Discovery image) "rendered") || negb (String.eqb (DType (Default image)) "build") ||
            String.eqb (BakeTarget (Default image)) "" || negb (String.eqb (Contract evidence) "atum.dev/image-admission/v3") ||
            bool_decide (Observations evidence = []) || String.eqb (TrimSpace (Incompatibility evidence)) "" ||
            String.eqb (TrimSpace (RemovalCondition evidence)) "" ||
            negb (validDigest (OfficialSHA256 (OfficialConfig evidence))) ||
            negb (bool_decide (OfficialMaterial evidence ∈ Materials (Default image))) ||
            negb (is_ok (ValidateOfficialImageEvidence policy (OfficialSource evidence) (OfficialMaterial evidence)))) &&
      forallb validObservation (Observations evidence) &&
      forallb validFilesystem (Filesystem (OfficialConfig evidence)) &&
      forallb (fun entrypoint => HasPrefix entrypoint.1 "/" && validHexSHA256 entrypoint.2)
        (EntrypointFiles (OfficialConfig evidence))
  end.

Definition compatibilityReceipts (policy : DeliveryPolicy) (images : list Image) : gmap string Image :=
  fold_left (fun receipts image =>
    if negb (count ID images (ID image) =? 1)%nat || negb (validCompatibilityReceipt policy image) then receipts
    else <[ID image := image]> receipts) images ∅.
End Tags.

(** [updateInputImages] *)
Definition updateInputImages (images : list Image) : list Image :=
  filter (fun image => Discovery image ∈ ["configuration"; "first-party"; "controller-generated"]) images.
End MirrorTags.
