(* ===== verification/MirrorTheorems.v ===== *)
(** The tags of [MirrorTags] against their definition by hub, version and
    content. *)
From stdpp Require Import prelude gmap strings list sorting.
From Stdlib Require Import Ascii ZArith Lia.
From S2P Require Import Prelude GoStrings Utf8 Sha256 Treehash Release Progress LocalAccess BakeGraph MirrorTags.

Module MirrorTheorems.
Import Utf8 Sha256 Treehash Release Progress LocalAccess BakeGraph MirrorTags.

(** ** Strings *)

Lemma append_split s t u v : s +:+ t = u +:+ v -> String.length t = String.length v -> s = u /\ t = v.
Proof.
  revert u. induction s as [|c s IH]; intros [|d u] H Hl; rewrite ?str_append_cons in H.
  - by rewrite !str_append_nil_l in H.
  - rewrite str_append_nil_l in H. subst t. cbn in Hl. rewrite str_length_append in Hl. lia.
  - rewrite str_append_nil_l in H. subst v. cbn in Hl. rewrite str_length_append in Hl. lia.
  - injection H as -> H. destruct (IH u H Hl) as [-> ->]. done.
Qed.

Lemma IndexByte_app s t b : IndexByte (s +:+ t) b = None <-> IndexByte s b = None /\ IndexByte t b = None.
Proof.
  induction s as [|c s IH]; [rewrite str_append_nil_l; simpl; tauto|]. rewrite str_append_cons. simpl.
  destruct (Ascii.eqb c b); [naive_solver|]. destruct (IndexByte (s +:+ t) b), (IndexByte s b), (IndexByte t b); naive_solver.
Qed.

Lemma IndexByte_take n s b : IndexByte s b = None -> IndexByte (str_take n s) b = None.
Proof. intros H. rewrite <- (str_take_drop n s), IndexByte_app in H. by destruct H. Qed.

Lemma IndexByte_drop n s b : IndexByte s b = None -> IndexByte (str_drop n s) b = None.
Proof. intros H. rewrite <- (str_take_drop n s), IndexByte_app in H. by destruct H. Qed.

Lemma Index_nul s : Index s nul = IndexByte s "000".
Proof.
  induction s as [|c s IH]; [done|]. cbn [Index IndexByte nul String.prefix]. fold nul. rewrite IH.
  destruct (ascii_dec "000" c) as [<-|Hne]; [by destruct s|].
  destruct (Ascii.eqb_spec c "000"); [by subst|done].
Qed.

Lemma IndexByte_here s t b : IndexByte s b = None -> IndexByte (s +:+ String b t) b = Some (String.length s).
Proof.
  induction s as [|c s IH]; [rewrite str_append_nil_l; simpl; by rewrite Ascii.eqb_refl|].
  rewrite str_append_cons. simpl. destruct (Ascii.eqb c b); [done|].
  destruct (IndexByte s b) eqn:E; [done|]. intros _. by rewrite IH.
Qed.

(** What follows the first NUL of a group without one in its hub *)
Lemma Cut_group h u : IndexByte h "000" = None -> Cut (h +:+ nul +:+ u) nul = (h, u, true).
Proof.
  intros H. unfold Cut. rewrite Index_nul.
  change (nul +:+ u) with (String "000" u). rewrite IndexByte_here by done.
  rewrite str_take_append. replace (String.length h + String.length nul)%nat with (S (String.length h)) by (simpl; lia).
  change (String "000" u) with (nul +:+ u). rewrite <- str_append_assoc.
  replace (S (String.length h)) with (String.length (h +:+ nul)) by (rewrite str_length_append; simpl; lia).
  by rewrite str_drop_append.
Qed.

Lemma Cut_group_nul h u : IndexByte h "000" <> None -> exists w, (Cut (h +:+ nul +:+ u) nul).1.2 = w +:+ nul +:+ u.
Proof.
  intros H. unfold Cut. rewrite Index_nul.
  destruct (IndexByte h "000") as [i|] eqn:E; [|done]. clear H.
  assert (IndexByte (h +:+ nul +:+ u) "000" = Some i /\ (S i <= String.length h)%nat) as [-> Hle].
  { revert i E. induction h as [|c h IH]; intros i E; [done|]. rewrite str_append_cons. simpl in E |- *.
    destruct (Ascii.eqb c "000"); [simplify_eq; split; [done|lia]|].
    destruct (IndexByte h "000") as [j|]; [|done]. simplify_eq/=. destruct (IH j eq_refl) as [-> Hj]. split; [done|lia]. }
  cbn [fst snd]. exists (str_drop (S i) h). replace (i + String.length nul)%nat with (S i) by (simpl; lia).
  by apply str_drop_append_le.
Qed.

Lemma hex_no_nul s : str_forallb is_hex_lower s = true -> IndexByte s "000" = None.
Proof.
  induction s as [|c s IH]; [done|]. simpl. intros [Hc Hs]%andb_true_iff. rewrite IH by done.
  destruct (Ascii.eqb_spec c "000"); [by subst|done].
Qed.

Lemma validHex_length s : validHexSHA256 s = true -> String.length s = 64%nat /\ IndexByte s "000" = None.
Proof. unfold validHexSHA256. intros [H1%Nat.eqb_eq H2]%andb_true_iff. eauto using hex_no_nul. Qed.

Lemma validDigest_shape d : validDigest d = true ->
  d = "sha256:" +:+ TrimPrefix d "sha256:" /\ String.length (TrimPrefix d "sha256:") = 64%nat /\ IndexByte d "000" = None.
Proof.
  unfold validDigest. intros [[r ->]%HasPrefix_true H]%andb_true_iff. rewrite TrimPrefix_append in *.
  apply validHex_length in H as [H1 H2]. split_and!; [done|done|]. by apply IndexByte_app.
Qed.

(** ** The order of the members *)

#[export] Instance member_le_dec a b : Decision (member_le a b).
Proof. unfold member_le. destruct (String.eqb _ _); apply _. Defined.

Lemma member_le_total a b : member_le a b \/ member_le b a.
Proof.
  unfold member_le. rewrite (String.eqb_sym (repository b)). destruct (String.eqb _ _); apply (total str_le).
Qed.
#[export] Instance member_le_Total : base.Total member_le := member_le_total.

#[export] Instance member_le_trans : Transitive member_le.
Proof.
  intros a b c. unfold member_le.
  destruct (String.eqb_spec (repository a) (repository b)) as [Eab|Eab];
    destruct (String.eqb_spec (repository b) (repository c)) as [Ebc|Ebc];
    destruct (String.eqb_spec (repository a) (repository c)) as [Eac|Eac]; try congruence;
    intros H1 H2; try (rewrite Eab || rewrite <- Ebc); try done; try (by etransitivity).
  destruct Eab. apply (anti_symm str_le); [done|]. by rewrite Eac.
Qed.

Lemma member_le_antisym a b : member_le a b -> member_le b a -> member_key a = member_key b.
Proof.
  unfold member_le, member_key. rewrite (String.eqb_sym (repository b)).
  destruct (String.eqb_spec (repository a) (repository b)) as [->|Hne]; intros H1 H2.
  - f_equal. by apply (anti_symm str_le).
  - destruct Hne. by apply (anti_symm str_le).
Qed.

(** What is hashed depends on the repositories and digests only, so that any
    sorting of any order of the members gives the same. *)
Lemma setMaterial_keys group l l' : member_key <$> l = member_key <$> l' -> setMaterial group l = setMaterial group l'.
Proof.
  intros H. unfold setMaterial. do 4 f_equal. revert l' H.
  induction l as [|a l IH]; intros [|b l']; cbn; try discriminate; [done|].
  intros [= Hr Hd H]. by rewrite Hr, Hd, (IH l').
Qed.

Definition key_le (a b : string * string) : Prop :=
  if String.eqb a.1 b.1 then str_le a.2 b.2 else str_le a.1 b.1.

Lemma sorted_keys l : StronglySorted member_le l -> StronglySorted key_le (member_key <$> l).
Proof.
  induction 1 as [|a l Hs IH Hall]; cbn; [constructor|]. constructor; [done|].
  apply Forall_fmap. eapply Forall_impl; [done|]. done.
Qed.

Lemma setMaterial_sorted group l l' : member_key <$> l ≡ₚ member_key <$> l' ->
  StronglySorted member_le l -> StronglySorted member_le l' -> setMaterial group l = setMaterial group l'.
Proof.
  intros Hp H1 H2. apply setMaterial_keys. apply sorted_keys in H1, H2.
  apply (StronglySorted_unique_strong key_le); [|done..].
  intros [r d] [r' d'] _ _. unfold key_le. cbn. rewrite (String.eqb_sym r').
  destruct (String.eqb_spec r r') as [->|Hne]; intros Ha Hb;
    [f_equal; by apply (anti_symm str_le)|]. destruct Hne. by apply (anti_symm str_le).
Qed.

Lemma setMaterial_unique group l l' : l ≡ₚ l' -> StronglySorted member_le l -> StronglySorted member_le l' ->
  setMaterial group l = setMaterial group l'.
Proof. intros Hp. apply setMaterial_sorted. by rewrite Hp. Qed.

(** The hub, the version and the members are read back from what is hashed. *)
Definition no_nul (s : string) : Prop := IndexByte s "000" = None.

Lemma Split_nul w s : no_nul w -> Split (w +:+ nul +:+ s) "000" = w :: Split s "000".
Proof. intros H. by apply Split_append_sep. Qed.

Lemma setMaterial_Split h u l : no_nul h -> no_nul u -> Forall (fun m => no_nul (repository m) /\ no_nul (digest m)) l ->
  Split (setMaterial (h +:+ nul +:+ u) l) "000" =
  ["atum.dev/mirror-target-set/v1"; h; u] ++ (l ≫= fun m => [repository m; digest m]) ++ [""].
Proof.
  intros Hh Hu Hl. unfold setMaterial. rewrite Split_nul by done. rewrite !str_append_assoc, !Split_nul by done. cbn [app]. do 3 f_equal.
  induction Hl as [|m l [Hr Hd] Hl IH]; [done|]. cbn [fold_right]. rewrite !Split_nul by done. by rewrite IH.
Qed.

Lemma setMaterial_inj h u l h' u' l' : no_nul h -> no_nul u -> no_nul h' -> no_nul u' ->
  Forall (fun m => no_nul (repository m) /\ no_nul (digest m)) l ->
  Forall (fun m => no_nul (repository m) /\ no_nul (digest m)) l' ->
  setMaterial (h +:+ nul +:+ u) l = setMaterial (h' +:+ nul +:+ u') l' ->
  h = h' /\ u = u' /\ member_key <$> l = member_key <$> l'.
Proof.
  intros Hh Hu Hh' Hu' Hl Hl' E. apply (f_equal (fun s => Split s "000")) in E.
  rewrite !setMaterial_Split in E by done. injection E as -> -> E. split_and!; [done|done|].
  apply app_inv_tail in E. clear Hl Hl'. revert l' E. induction l as [|m l IH]; intros [|m' l']; cbn; try done.
  intros [= Hr Hd E]. unfold member_key at 1 3. rewrite Hr, Hd. f_equal. by apply IH.
Qed.

(** ** Maps filled by a loop *)

Section Fill.
Context {V : Type}.

Definition insertPair (acc : gmap string V) (p : string * V) : gmap string V := <[p.1 := p.2]> acc.

Definition functional (l : list (string * V)) : Prop := forall k v v', (k, v) ∈ l -> (k, v') ∈ l -> v = v'.

Lemma fold_left_in (l : list (string * V)) k : (exists w, (k, w) ∈ l) \/ (forall w, (k, w) ∉ l).
Proof.
  induction l as [|[k' w] l [[v IH]|IH]]; [set_solver|left; exists v; by right|].
  destruct (decide (k' = k)) as [->|]; [left; exists w; by left|]. right. set_solver.
Qed.

Lemma insertPair_lookup l (acc : gmap string V) k v : functional l ->
  fold_left insertPair l acc !! k = Some v <-> (k, v) ∈ l \/ (forall v', (k, v') ∉ l) /\ acc !! k = Some v.
Proof.
  revert acc. induction l as [|[k' v'] l IH]; intros acc Hf; cbn [fold_left].
  { set_solver. }
  rewrite IH; [|intros k0 v0 v1 H0 H1; eapply Hf; right; eassumption]. unfold insertPair. cbn [fst snd].
  destruct (decide (k' = k)) as [->|Hne].
  - rewrite lookup_insert_eq. rewrite elem_of_cons. split.
    + intros [H|[_ [= ->]]]; eauto.
    + intros [[[= ->]|H]|[H _]]; [|by left|set_solver].
      destruct (fold_left_in l k) as [[w Hw]|Hn]; [|by right].
      left. assert (w = v') as <- by (eapply Hf; [by right|by left]). done.
  - rewrite lookup_insert_ne by done. set_solver.
Qed.

End Fill.

(** ** The definition of the tags *)

Section Tags.
Context {IN : ImageNames}.

Definition native (image : Image) : string :=
  match nativeMirrorTargetTag image with Ok tag => tag | Err _ => "" end.
Definition itemOf (image : Image) : member :=
  {| id := ID image; repository := imageReferenceRepository (Target image); digest := Digest (Default image);
     nativeTag := native image |}.
Definition mirrors (images : list Image) : list Image := List.filter isMirror images.

(** The mirrors below the same hub with the same upstream tag *)
Definition siblings (images : list Image) (group : string) : list Image :=
  filter (fun image => groupOf image = group) (mirrors images).

Definition sharedTag (images : list Image) (image : Image) : string :=
  let group := siblings images (groupOf image) in
  upstream image +:+
  match group with
  | [_] => "-mirror-" +:+ str_take 48 (TrimPrefix (Digest (Default image)) "sha256:")
  | _ => "-mirror-set-" +:+
         str_take 48 (hashBytes (setMaterial (groupOf image) (merge_sort member_le (itemOf <$> group))))
  end.
Definition targetTag (images : list Image) (image : Image) : string :=
  if String.eqb (native image) "" then sharedTag images image else native image.

Definition wellFormed (image : Image) : bool :=
  validDigest (Digest (Default image)) && (0 <? lastIndex (imageReferenceRepository (Target image)) "/")%Z &&
  negb (String.eqb (upstream image) "") && is_ok (nativeMirrorTargetTag image).

Definition admissible (images : list Image) : Prop :=
  NoDup (ID <$> mirrors images) /\
  Forall (fun image => wellFormed image = true /\ IndexByte (hub image) "000" = None /\
            NewTag ("registry.invalid/atum/image:" +:+ sharedTag images image) = true) (mirrors images).

Definition targetTags (images : list Image) : gmap string string :=
  list_to_map ((fun image => (ID image, targetTag images image)) <$> mirrors images).

(** ** The first loop *)

Definition addMember (groups : gmap string (list member)) (image : Image) : gmap string (list member) :=
  <[groupOf image := default [] (groups !! groupOf image) ++ [itemOf image]]> groups.

Lemma native_ok image t : nativeMirrorTargetTag image = Ok t -> native image = t.
Proof. unfold native. by intros ->. Qed.

Lemma collect_iff images seen groups groups' : collect images seen groups = Ok groups' <->
  NoDup (ID <$> mirrors images) /\ Forall (fun image => (ID image ∉ seen) /\ wellFormed image = true) (mirrors images) /\
  groups' = fold_left addMember (mirrors images) groups.
Proof.
  revert seen groups. induction images as [|image images IH]; intros seen groups; cbn [collect].
  { cbn. split; [intros [= ->]; repeat constructor|by intros (_ & _ & ->)]. }
  unfold mirrors. cbn [List.filter]. destruct (isMirror image) eqn:Hm; cbn [negb]; [|apply IH].
  cbn [fmap list_fmap fold_left]. fold (mirrors images). rewrite NoDup_cons, Forall_cons, !guard_bind_iff, bind_ok_iff, bool_decide_eq_false.
  unfold wellFormed at 1. split.
  - intros (Hseen & Hd & Ht & tag & Hn & H). apply IH in H as (Hnd & Hall & ->).
    apply orb_false_iff in Ht as [Ht Hu]. apply negb_false_iff in Hd. rewrite Hd, Hu, Hn.
    split_and!; [|done|done| | |].
    + intros (i & E & Hi)%list_elem_of_fmap. rewrite Forall_forall in Hall. apply Hall in Hi as [Hi _]. rewrite <- E in Hi. set_solver.
    + cbn. replace (_ <? _)%Z with true; [done|]. symmetry. apply Z.ltb_lt. apply Z.leb_gt in Ht. lia.
    + eapply Forall_impl; [exact Hall|]. intros i [Hi Hw]. split; [set_solver|done].
    + f_equal. unfold addMember, itemOf. by rewrite (native_ok _ _ Hn).
  - intros ([Hni Hnd] & [[Hseen Hw] Hall] & ->). apply andb_true_iff in Hw as [Hw Hn].
    apply andb_true_iff in Hw as [Hw Hu]. apply andb_true_iff in Hw as [Hd Ht]. rewrite Hd. apply negb_true_iff in Hu. rewrite Hu.
    destruct (nativeMirrorTargetTag image) as [tag|] eqn:En; [|done].
    split_and!; [done|done| |].
    + rewrite orb_false_r. apply Z.leb_gt. by apply Z.ltb_lt in Ht.
    + exists tag. split; [done|]. apply IH. split_and!; [done| |].
      * rewrite Forall_forall in *. intros i Hi. destruct (Hall i Hi) as [H1 H2]. split; [|done].
        rewrite elem_of_union, elem_of_singleton. intros [E|E]; [|done]. apply Hni. rewrite <- E. by apply list_elem_of_fmap_2.
      * f_equal. unfold addMember, itemOf. by rewrite (native_ok _ _ En).
Qed.

Definition groupsOf (images : list Image) : gmap string (list member) := fold_left addMember (mirrors images) ∅.

Lemma addMember_lookup images groups group :
  default [] (fold_left addMember images groups !! group) =
    default [] (groups !! group) ++ (itemOf <$> filter (fun image => groupOf image = group) images) /\
  (is_Some (fold_left addMember images groups !! group) <->
     is_Some (groups !! group) \/ exists image, image ∈ images /\ groupOf image = group).
Proof.
  revert groups. induction images as [|image images IH]; intros groups; cbn [fold_left].
  { cbn. rewrite app_nil_r. split; [done|]. set_solver. }
  destruct (IH (addMember groups image)) as [-> ->]. unfold addMember. rewrite filter_cons.
  destruct (decide (groupOf image = group)) as [<-|Hne].
  - rewrite lookup_insert_eq. cbn [from_option id default]. cbn. rewrite <- (assoc_L (++)). split; [done|]. split; [|by eauto].
    intros _. right. exists image. split; [by constructor|done].
  - rewrite lookup_insert_ne by done. split; [done|]. set_solver.
Qed.

Lemma groupsOf_lookup images group members : groupsOf images !! group = Some members <->
  members = itemOf <$> siblings images group /\ siblings images group <> [].
Proof.
  unfold groupsOf. destruct (addMember_lookup (mirrors images) ∅ group) as [H1 H2]. rewrite lookup_empty in H1, H2.
  cbn [from_option id default] in H1. rewrite app_nil_l in H1. fold (siblings images group) in H1.
  assert (siblings images group <> [] <-> exists image, image ∈ mirrors images /\ groupOf image = group) as Hs.
  { unfold siblings. split.
    - intros Hne. destruct (filter _ _) as [|i l] eqn:E; [done|]. exists i. rewrite (comm and). apply (list_elem_of_filter (fun image => groupOf image = group)). rewrite E. by constructor.
    - intros (i & Hi & Hg) E. assert (i ∈ filter (fun image => groupOf image = group) (mirrors images)) as Hin by by apply list_elem_of_filter. rewrite E in Hin. by apply not_elem_of_nil in Hin. }
  rewrite Hs. split.
  - intros E. rewrite E in H1, H2. split; [done|]. destruct (proj1 H2) as [[? [=]]|]; eauto.
  - intros [-> Hex]. destruct (proj2 H2) as [m Hm]; [by right|]. rewrite Hm in H1 |- *. by rewrite <- H1.
Qed.

(** ** The tag of a group *)

Definition mirrorTag (version kind identity : string) : string :=
  version +:+ "-" +:+ kind +:+ "-" +:+ str_take 48 identity.
Definition validTag (tag : string) : Prop := NewTag ("registry.invalid/atum/image:" +:+ tag) = true.

Lemma contentAddressed_iff version kind identity tag : contentAddressedMirrorTag version kind identity = Ok tag <->
  version <> "" /\ (48 <= String.length identity)%nat /\ validTag (mirrorTag version kind identity) /\
  tag = mirrorTag version kind identity.
Proof.
  unfold contentAddressedMirrorTag. rewrite !guard_bind_iff, orb_false_iff, negb_false_iff, Nat.ltb_ge, String.eqb_neq.
  unfold mirrorTagIdentityLength, validTag, mirrorTag. naive_solver.
Qed.

Lemma valid_no_nul version kind identity : validTag (mirrorTag version kind identity) -> IndexByte version "000" = None.
Proof. intros H%tag_bytes. apply IndexByte_app in H as [_ H]. by apply IndexByte_app in H as [H _]. Qed.

(** What the code takes for the upstream tag, or a hub with a NUL, which no tag survives *)
Lemma group_version image kind identity tag :
  contentAddressedMirrorTag (Cut (groupOf image) nul).1.2 kind identity = Ok tag <->
  IndexByte (hub image) "000" = None /\ contentAddressedMirrorTag (upstream image) kind identity = Ok tag.
Proof.
  unfold groupOf. destruct (IndexByte (hub image) "000") eqn:E.
  - split; [|by intros [? _]]. destruct (Cut_group_nul (hub image) (upstream image)) as [w ->]; [by rewrite E|].
    intros (_ & _ & H & _)%contentAddressed_iff. apply valid_no_nul in H. apply IndexByte_app in H as [_ H]. done.
  - rewrite Cut_group by done. cbn. naive_solver.
Qed.

Lemma sibling_self images image : image ∈ mirrors images -> image ∈ siblings images (groupOf image).
Proof. intros H. by apply (list_elem_of_filter (fun i => groupOf i = groupOf image)). Qed.

Lemma groupTag_iff {SM : SortMembers} images image tag : image ∈ mirrors images -> wellFormed image = true ->
  groupTag (groupOf image) (sortMembers (itemOf <$> siblings images (groupOf image))) = Ok tag <->
  IndexByte (hub image) "000" = None /\ validTag (sharedTag images image) /\ tag = sharedTag images image.
Proof.
  intros Hin Hw. unfold wellFormed in Hw. reflect_bool. apply String.eqb_neq in H2.
  pose proof (sibling_self _ _ Hin) as Hself. unfold sharedTag.
  pose proof (sort_perm (itemOf <$> siblings images (groupOf image))) as Hp.
  pose proof (sort_sorted (itemOf <$> siblings images (groupOf image))) as Hs.
  revert Hself Hp Hs. generalize (siblings images (groupOf image)) as l. intros l Hself Hp Hs.
  unfold groupTag. destruct (Cut (groupOf image) nul) as [[b u] f] eqn:Ecut.
  assert (u = (Cut (groupOf image) nul).1.2) as -> by by rewrite Ecut. clear Ecut.
  destruct l as [|i [|j l]]; [by apply not_elem_of_nil in Hself| |].
  - apply list_elem_of_singleton in Hself as <-. change (itemOf <$> [image]) with [itemOf image] in *. apply Permutation_singleton_r in Hp as ->. cbn [digest itemOf].
    unfold ContentAddressedMirrorTag. rewrite H, guard_bind_iff, group_version, contentAddressed_iff.
    destruct (validDigest_shape _ H) as (_ & Hl & _). rewrite Hl.
    change (upstream image +:+ "-mirror-" +:+ str_take 48 ?x) with (mirrorTag (upstream image) "mirror" x).
    naive_solver lia.
  - assert (exists a b r, sortMembers (itemOf <$> i :: j :: l) = a :: b :: r) as (a & c & r & E).
    { destruct (sortMembers _) as [|a [|c r]]; [..|by eauto]; apply Permutation_length in Hp; done. }
    rewrite (setMaterial_unique (groupOf image) (merge_sort member_le (itemOf <$> i :: j :: l)) (sortMembers (itemOf <$> i :: j :: l)));
      [|rewrite merge_sort_Permutation; by rewrite Hp|apply (StronglySorted_merge_sort _)|done].
    rewrite E, group_version, contentAddressed_iff.
    destruct (validHex_length _ (hashBytes_valid (setMaterial (groupOf image) (a :: c :: r)))) as [Hl _]. rewrite Hl.
    change (upstream image +:+ "-mirror-set-" +:+ str_take 48 ?x) with (mirrorTag (upstream image) "mirror-set" x).
    naive_solver lia.
Qed.

(** ** The second loop *)

Definition tagOf {SM : SortMembers} (group : string * list member) : string :=
  match groupTag group.1 (sortMembers group.2) with Ok tag => tag | Err _ => "" end.
Definition pairOf (tag : string) (item : member) : string * string :=
  (id item, if String.eqb (nativeTag item) "" then tag else nativeTag item).
Definition pairsOf {SM : SortMembers} (groups : list (string * list member)) : list (string * string) :=
  groups ≫= fun group => pairOf (tagOf group) <$> sortMembers group.2.

Lemma assign_fold tag members acc : fold_left (assign tag) members acc = fold_left insertPair (pairOf tag <$> members) acc.
Proof. revert acc. induction members as [|m members IH]; intros acc; [done|]. cbn. apply IH. Qed.

Lemma tagLoop_iff {SM : SortMembers} groups acc r : tagLoop groups acc = Ok r <->
  Forall (fun group => is_ok (groupTag group.1 (sortMembers group.2)) = true) groups /\
  r = fold_left insertPair (pairsOf groups) acc.
Proof.
  revert acc. induction groups as [|[g m] groups IH]; intros acc; cbn [tagLoop].
  { split; [intros [= ->]; by repeat constructor|by intros [_ ->]]. }
  rewrite bind_ok_iff, Forall_cons. unfold pairsOf. cbn [mbind list_bind]. fold (pairsOf groups).
  rewrite fold_left_app, <- assign_fold. unfold tagOf at 1. cbn [fst snd].
  destruct (groupTag g (sortMembers m)) as [tag|e]; cbn; [|naive_solver].
  setoid_rewrite IH. naive_solver.
Qed.

Lemma pairsOf_elem {MR : MapRange} {SM : SortMembers} images k t :
  (forall image, image ∈ mirrors images ->
     groupTag (groupOf image) (sortMembers (itemOf <$> siblings images (groupOf image))) = Ok (sharedTag images image)) ->
  (k, t) ∈ pairsOf (range_ "MirrorTargetTags" "" (groupsOf images)) <->
  exists image, image ∈ mirrors images /\ k = ID image /\ t = targetTag images image.
Proof.
  intros Htag. unfold pairsOf. rewrite list_elem_of_bind. split.
  - intros ([g ms] & Hkt & Hg). rewrite range_perm, elem_of_map_to_list, groupsOf_lookup in Hg. destruct Hg as [-> _].
    cbn [fst snd] in Hkt. apply list_elem_of_fmap in Hkt as (item & Hp & Hi). rewrite sort_perm in Hi.
    apply list_elem_of_fmap in Hi as (image & -> & Hi).
    apply (list_elem_of_filter (fun image => groupOf image = g)) in Hi as [<- Hi]. exists image. split; [done|].
    unfold pairOf, tagOf in Hp. cbn [fst snd] in Hp. rewrite (Htag _ Hi) in Hp. unfold targetTag. cbn in Hp. naive_solver.
  - intros (image & Hi & -> & ->). exists (groupOf image, itemOf <$> siblings images (groupOf image)). cbn [fst snd]. split.
    + apply list_elem_of_fmap. exists (itemOf image). unfold pairOf, tagOf. cbn [fst snd]. rewrite (Htag _ Hi). split; [done|].
      rewrite sort_perm. by apply list_elem_of_fmap_2, sibling_self.
    + rewrite range_perm, elem_of_map_to_list, groupsOf_lookup. split; [done|]. intros E. apply sibling_self in Hi.
      rewrite E in Hi. by apply not_elem_of_nil in Hi.
Qed.

Lemma targetTags_lookup images k t : NoDup (ID <$> mirrors images) ->
  targetTags images !! k = Some t <-> exists image, image ∈ mirrors images /\ k = ID image /\ t = targetTag images image.
Proof.
  intros Hnd. unfold targetTags. rewrite <- elem_of_list_to_map, list_elem_of_fmap; [naive_solver|].
  rewrite <- list_fmap_compose. exact Hnd.
Qed.

Lemma same_id images i j : NoDup (ID <$> mirrors images) -> i ∈ mirrors images -> j ∈ mirrors images -> ID i = ID j -> i = j.
Proof.
  intros Hnd Hi Hj E. apply list_elem_of_lookup in Hi as [a Ha], Hj as [b Hb].
  assert (a = b) as ->; [|congruence].
  eapply NoDup_lookup; [done|rewrite list_lookup_fmap, Ha; done|rewrite list_lookup_fmap, Hb; cbn; by rewrite E].
Qed.

Lemma MirrorTargetTags_iff {MR : MapRange} {SM : SortMembers} images r :
  MirrorTargetTags images = Ok r <-> admissible images /\ r = targetTags images.
Proof.
  unfold MirrorTargetTags. rewrite bind_ok_iff. setoid_rewrite collect_iff. setoid_rewrite tagLoop_iff.
  assert (forall image, image ∈ mirrors images ->
    (groupOf image, itemOf <$> siblings images (groupOf image)) ∈ range_ "MirrorTargetTags" "" (groupsOf images)) as Hrange.
  { intros image Hi. rewrite range_perm, elem_of_map_to_list, groupsOf_lookup. split; [done|]. intros E.
    apply sibling_self in Hi. rewrite E in Hi. by apply not_elem_of_nil in Hi. }
  assert (forall (Hnd : NoDup (ID <$> mirrors images)),
    (forall image, image ∈ mirrors images ->
       groupTag (groupOf image) (sortMembers (itemOf <$> siblings images (groupOf image))) = Ok (sharedTag images image)) ->
    fold_left insertPair (pairsOf (range_ "MirrorTargetTags" "" (groupsOf images))) ∅ = targetTags images) as Hmap.
  { intros Hnd Htag. apply map_eq. intros k. apply option_eq. intros t.
    rewrite insertPair_lookup, targetTags_lookup, pairsOf_elem by
      (done || (intros ???; rewrite !pairsOf_elem by done; intros (i & Hi & -> & ->) (j & Hj & E & ->);
                by rewrite (same_id _ _ _ Hnd Hi Hj E))).
    rewrite lookup_empty. naive_solver. }
  split.
  - intros (groups & (Hnd & Hall & ->) & Hok & ->). fold (groupsOf images) in *. rewrite Forall_forall in Hall. rewrite Forall_forall in Hok.
    assert (forall image, image ∈ mirrors images -> IndexByte (hub image) "000" = None /\ validTag (sharedTag images image) /\
       groupTag (groupOf image) (sortMembers (itemOf <$> siblings images (groupOf image))) = Ok (sharedTag images image)) as Htag.
    { intros image Hi. pose proof (Hok _ (Hrange _ Hi)) as Hg. cbn [fst snd] in Hg.
      destruct (groupTag _ _) as [tag|] eqn:E; [|done]. apply groupTag_iff in E as (H1 & H2 & ->); [done..|]. by apply Hall. }
    split; [|apply Hmap; [done|by apply Htag]]. split; [done|]. apply Forall_forall. intros image Hi.
    destruct (Htag _ Hi) as (H1 & H2 & _). split_and!; [by apply Hall|done|done].
  - intros [[Hnd Hall] ->]. rewrite Forall_forall in Hall.
    assert (forall image, image ∈ mirrors images ->
       groupTag (groupOf image) (sortMembers (itemOf <$> siblings images (groupOf image))) = Ok (sharedTag images image)) as Htag.
    { intros image Hi. destruct (Hall _ Hi) as (H1 & H2 & H3). by apply groupTag_iff. }
    exists (groupsOf images). split_and!; [done| |done| |by rewrite Hmap].
    + apply Forall_forall. intros image Hi. split; [set_solver|by apply Hall].
    + apply Forall_forall. intros [g ms] Hg. rewrite range_perm, elem_of_map_to_list, groupsOf_lookup in Hg.
      destruct Hg as [-> Hne]. cbn [fst snd]. destruct (siblings images g) as [|image l] eqn:E; [done|].
      assert (image ∈ siblings images g) as Hi by (rewrite E; by constructor). rewrite <- E.
      apply (list_elem_of_filter (fun i => groupOf i = g)) in Hi as [<- Hi]. by rewrite Htag.
Qed.

(** ** The order of the images *)

Lemma mirrors_perm images images' : images ≡ₚ images' -> mirrors images ≡ₚ mirrors images'.
Proof.
  unfold mirrors. induction 1 as [|x l l' _ IH|x y l|? ? ? _ IH1 _ IH2]; cbn; [done| | |by etransitivity].
  - destruct (isMirror x); by rewrite IH.
  - destruct (isMirror x), (isMirror y); try done. apply Permutation_swap.
Qed.

Lemma sharedTag_perm images images' image : images ≡ₚ images' -> sharedTag images image = sharedTag images' image.
Proof.
  intros Hp. unfold sharedTag. assert (siblings images (groupOf image) ≡ₚ siblings images' (groupOf image)) as Hs
    by (unfold siblings; by rewrite (mirrors_perm _ _ Hp)).
  assert (setMaterial (groupOf image) (merge_sort member_le (itemOf <$> siblings images (groupOf image))) =
          setMaterial (groupOf image) (merge_sort member_le (itemOf <$> siblings images' (groupOf image)))) as ->
    by (apply setMaterial_unique; [by rewrite !merge_sort_Permutation, Hs|apply (StronglySorted_merge_sort _)..]).
  generalize (str_take 48 (hashBytes (setMaterial (groupOf image)
    (merge_sort member_le (itemOf <$> siblings images' (groupOf image)))))). intros set.
  apply Permutation_length in Hs. revert Hs.
  generalize (siblings images (groupOf image)) (siblings images' (groupOf image)). intros l l' Hs.
  by destruct l as [|? [|??]], l' as [|? [|??]].
Qed.

Lemma targetTags_perm images images' : images ≡ₚ images' -> admissible images ->
  admissible images' /\ targetTags images' = targetTags images.
Proof.
  intros Hp [Hnd Hall]. pose proof (mirrors_perm _ _ Hp) as Hm. split.
  - split; [by rewrite <- Hm|]. rewrite <- Hm. eapply Forall_impl; [exact Hall|]. intros image (H1 & H2 & H3).
    split_and!; [done|done|]. by rewrite <- (sharedTag_perm _ _ _ Hp).
  - symmetry. unfold targetTags. apply list_to_map_proper.
    + rewrite <- list_fmap_compose. exact Hnd.
    + rewrite Hm. rewrite (list_fmap_ext _ (fun image => (ID image, targetTag images' image)) (mirrors images')); [done|].
      intros _ image _. unfold targetTag. by rewrite (sharedTag_perm _ _ _ Hp).
Qed.
End Tags.
End MirrorTheorems.
