(* ===== verification/MirrorClaims.v ===== *)
(** What the tags and the receipts of [MirrorTags] promise. *)
From stdpp Require Import prelude gmap strings list sorting.
From Stdlib Require Import Ascii ZArith Lia.
From S2P Require Import Prelude GoStrings Utf8 Sha256 Treehash Release Progress LocalAccess BakeGraph MirrorTags MirrorTheorems.

Module MirrorClaims.
Import Utf8 Sha256 Treehash Release Progress LocalAccess BakeGraph MirrorTags MirrorTheorems.

(** ** Equal tags *)

Section Owner.
Context {IN : ImageNames}.

(** The repositories and digests that share the tag of an image *)
Definition content (images : list Image) (image : Image) : list (string * string) :=
  member_key <$> (itemOf <$> siblings images (groupOf image)).

Definition sole (images : list Image) (image : Image) : Prop := siblings images (groupOf image) = [image].
Definition short (digest : string) : string := str_take 48 (TrimPrefix digest "sha256:").
(** What is hashed for the group of an image *)
Definition setText (images : list Image) (image : Image) : string :=
  setMaterial (groupOf image) (merge_sort member_le (itemOf <$> siblings images (groupOf image))).
Definition setHash (images : list Image) (image : Image) : string := str_take 48 (hashBytes (setText images image)).

Lemma sharedTag_cases images image : image ∈ mirrors images ->
  sole images image /\ sharedTag images image = upstream image +:+ "-mirror-" +:+ short (Digest (Default image)) \/
  ~ sole images image /\ sharedTag images image = upstream image +:+ "-mirror-set-" +:+ setHash images image.
Proof.
  intros Hi%sibling_self. unfold sole, sharedTag, setHash, setText, short. revert Hi.
  generalize (siblings images (groupOf image)). intros [|i [|j l]] Hi.
  - by apply not_elem_of_nil in Hi.
  - apply list_elem_of_singleton in Hi as <-. by left.
  - right. split; [done|]. reflexivity.
Qed.

Lemma setHash_length images image : String.length (setHash images image) = 48%nat.
Proof.
  unfold setHash. rewrite str_length_take. generalize (setText images image). intros m.
  by destruct (validHex_length _ (hashBytes_valid m)) as [-> _].
Qed.

Lemma short_length d : validDigest d = true -> String.length (short d) = 48%nat.
Proof. intros (_ & H & _)%validDigest_shape. unfold short. by rewrite str_length_take, H. Qed.

(** A tag ends in 48 digits, and what stands before them tells one mirror from a set. *)
Lemma tags_equal u u' k k' x x' : String.length x = 48%nat -> String.length x' = 48%nat ->
  k = "-mirror-" \/ k = "-mirror-set-" -> k' = "-mirror-" \/ k' = "-mirror-set-" ->
  u +:+ k +:+ x = u' +:+ k' +:+ x' -> u = u' /\ k = k' /\ x = x'.
Proof.
  intros Hx Hx' Hk Hk' E. rewrite <- !str_append_assoc in E. apply append_split in E as [E ->]; [|congruence].
  assert (forall w w' : string, w +:+ "-mirror-" <> w' +:+ "-mirror-set-") as Hcross.
  { intros w w' E'. change (w' +:+ "-mirror-set-") with (w' +:+ "-mir" +:+ "ror-set-") in E'.
    rewrite <- str_append_assoc in E'. by apply append_split in E' as [_ E']. }
  destruct Hk as [-> | ->], Hk' as [-> | ->]; [|by destruct (Hcross u u')|by destruct (Hcross u' u)|];
    apply append_split in E as [-> _]; done.
Qed.

Definition clean (images : list Image) : Prop := Forall (fun image => no_nul (Target image)) (mirrors images).

Lemma repository_clean target : no_nul target -> no_nul (imageReferenceRepository target).
Proof.
  unfold no_nul, imageReferenceRepository, Cut. intros H. destruct (Index target "@");
    (case_goal; [apply IndexByte_take|]); auto using IndexByte_take.
Qed.

Lemma items_clean images l : admissible images -> clean images -> (forall i, i ∈ l -> i ∈ mirrors images) ->
  Forall (fun m => no_nul (repository m) /\ no_nul (digest m)) (itemOf <$> l).
Proof.
  intros [_ Hall] Hc Hin. apply Forall_fmap, Forall_forall. intros i Hi. cbn. apply Hin in Hi.
  unfold clean in Hc. rewrite Forall_forall in Hc, Hall. destruct (Hall i Hi) as (Hw & _ & _). unfold wellFormed in Hw. reflect_bool.
  split; [by apply repository_clean, Hc|]. by apply validDigest_shape.
Qed.

Lemma siblings_mirrors images g i : i ∈ siblings images g -> i ∈ mirrors images.
Proof. intros H. by apply (list_elem_of_filter (fun i => groupOf i = g)) in H as [_ H]. Qed.

Lemma upstream_clean images i : admissible images -> i ∈ mirrors images -> no_nul (hub i) /\ no_nul (upstream i).
Proof.
  intros [_ Hall] Hi. rewrite Forall_forall in Hall. destruct (Hall i Hi) as (_ & H & Ht). split; [done|].
  apply tag_bytes, IndexByte_app in Ht as [_ Ht].
  destruct (sharedTag_cases images i Hi) as [[_ E]|[_ E]]; rewrite E in Ht; by apply IndexByte_app in Ht as [Ht _].
Qed.

(** The text determines the hub, the version and the content, and no more. *)
Lemma setText_iff images images' i j : admissible images -> admissible images' -> clean images -> clean images' ->
  i ∈ mirrors images -> j ∈ mirrors images' ->
  setText images i = setText images' j <-> hub i = hub j /\ upstream i = upstream j /\ content images i ≡ₚ content images' j.
Proof.
  intros Ha Ha' Hc Hc' Hi Hj. unfold setText. split.
  - destruct (upstream_clean _ _ Ha Hi), (upstream_clean _ _ Ha' Hj).
    intros (Hh & Hu & Hk)%setMaterial_inj; [|done..| |].
    + split; [done|]. split; [done|]. unfold content.
      rewrite <- (merge_sort_Permutation member_le (itemOf <$> siblings images (groupOf i))), Hk.
      by rewrite merge_sort_Permutation.
    + rewrite merge_sort_Permutation. apply (items_clean images); eauto using siblings_mirrors.
    + rewrite merge_sort_Permutation. apply (items_clean images'); eauto using siblings_mirrors.
  - intros (Hh & Hu & Hp). assert (groupOf i = groupOf j) as Eg by (unfold groupOf; by rewrite Hh, Hu).
    rewrite <- Eg at 1. apply setMaterial_sorted; [|apply (StronglySorted_merge_sort _)..].
    rewrite !merge_sort_Permutation. exact Hp.
Qed.

Lemma sharedTag_content images images' i j : i ∈ mirrors images -> j ∈ mirrors images' ->
  groupOf i = groupOf j -> upstream i = upstream j -> content images i ≡ₚ content images' j ->
  sharedTag images i = sharedTag images' j.
Proof.
  intros Hi Hj Eg Eu Hp.
  assert (setHash images i = setHash images' j) as Hset.
  { unfold setHash, setText.
    assert (setMaterial (groupOf i) (merge_sort member_le (itemOf <$> siblings images (groupOf i))) =
            setMaterial (groupOf j) (merge_sort member_le (itemOf <$> siblings images' (groupOf j)))) as ->; [|reflexivity].
    rewrite <- Eg at 1. apply setMaterial_sorted; [|apply (StronglySorted_merge_sort _)..].
    rewrite !merge_sort_Permutation. exact Hp. }
  pose proof (Permutation_length Hp) as Hl. unfold content in Hl. rewrite !length_fmap in Hl.
  destruct (sharedTag_cases images i Hi) as [[Hs ->]|[Hs ->]], (sharedTag_cases images' j Hj) as [[Hs' ->]|[Hs' ->]];
    unfold sole in *; rewrite Eu.
  - unfold content in Hp. rewrite Hs, Hs' in Hp. cbn in Hp. apply Permutation_singleton_inj in Hp. by injection Hp as _ ->.
  - exfalso. rewrite Hs in Hl. apply Hs'. apply sibling_self in Hj. destruct (siblings images' (groupOf j)) as [|x [|]]; try done.
    by apply list_elem_of_singleton in Hj as ->.
  - exfalso. rewrite Hs' in Hl. apply Hs. apply sibling_self in Hi. destruct (siblings images (groupOf i)) as [|x [|]]; try done.
    by apply list_elem_of_singleton in Hi as ->.
  - by rewrite Hset.
Qed.

Lemma sharedTag_owner images images' i j : admissible images -> admissible images' ->
  i ∈ mirrors images -> j ∈ mirrors images' ->
  sharedTag images i = sharedTag images' j <->
  upstream i = upstream j /\
  (sole images i /\ sole images' j /\ short (Digest (Default i)) = short (Digest (Default j)) \/
   ~ sole images i /\ ~ sole images' j /\ setHash images i = setHash images' j).
Proof.
  intros Ha Ha' Hi Hj.
  assert (forall l k, admissible l -> k ∈ mirrors l -> String.length (short (Digest (Default k))) = 48%nat) as Hshort.
  { intros l k [_ Hall] Hk. rewrite Forall_forall in Hall. destruct (Hall k Hk) as (Hw & _). unfold wellFormed in Hw.
    reflect_bool. by apply short_length. }
  destruct (sharedTag_cases images i Hi) as [[Hs E1]|[Hs E1]], (sharedTag_cases images' j Hj) as [[Hs' E2]|[Hs' E2]];
    rewrite E1, E2; (split; [intros E; apply tags_equal in E as (Eu & Ek & Ex); eauto using setHash_length; discriminate Ek|]);
    intros [-> [(? & ? & E)|(? & ? & E)]]; try done; by rewrite E.
Qed.
End Owner.

(** ** Receipts *)

Section Receipts.
Context {IN : ImageNames} {UC : UnicodeCase}.

Definition receiptOf (image : Image) : ImageMirrorReceipt :=
  {| RID := ID image; RTarget := Target image; RSource := Source (Default image); RDigest := Digest (Default image) |}.
Definition candidates (policy : DeliveryPolicy) (images : list Image) : list Image :=
  List.filter (receiptCandidate policy images) images.

(** The image keeps the target the tags give it *)
Definition exact (policy : DeliveryPolicy) (images : list Image) (image : Image) : Prop :=
  image ∈ images /\ receiptCandidate policy images image = true /\
  imageReferenceTag (Target image) = targetTag (candidates policy images) image.

Definition receiptPair (tags : gmap string string) (image : Image) : option (string * ImageMirrorReceipt) :=
  if bool_decide (tags !! ID image = Some (imageReferenceTag (Target image))) then Some (ID image, receiptOf image) else None.

Lemma receipt_fold tags l acc : fold_left (receiptStep tags) l acc = fold_left insertPair (omap (receiptPair tags) l) acc.
Proof.
  revert acc. induction l as [|image l IH]; intros acc; [done|]. cbn [fold_left omap list_omap]. rewrite IH.
  unfold receiptStep, receiptPair. destruct (tags !! ID image) as [t|]; [|done].
  destruct (String.eqb_spec (imageReferenceTag (Target image)) t) as [->|Hne].
  - by rewrite bool_decide_eq_true_2.
  - rewrite bool_decide_eq_false_2; [done|]. congruence.
Qed.

Lemma candidates_elem policy images image : image ∈ candidates policy images <->
  image ∈ images /\ receiptCandidate policy images image = true.
Proof. unfold candidates. rewrite !list_elem_of_In, filter_In. done. Qed.

Lemma candidates_mirrors policy images : mirrors (candidates policy images) = candidates policy images.
Proof.
  unfold mirrors, candidates. induction images as [|image images' IH] at 2 4; [done|]. cbn [List.filter].
  destruct (receiptCandidate policy images image) eqn:E; [|done]. cbn [List.filter]. rewrite IH.
  unfold receiptCandidate in E. destruct (isMirror image); [done|]. rewrite !orb_true_r in E. done.
Qed.

Lemma exactMirrorReceipts_iff {MR : MapRange} {SM : SortMembers} policy images receipts :
  exactMirrorReceipts policy images = Ok receipts <->
  admissible (candidates policy images) /\
  forall k receipt, receipts !! k = Some receipt <->
    exists image, exact policy images image /\ k = ID image /\ receipt = receiptOf image.
Proof.
  unfold exactMirrorReceipts. rewrite bind_ok_iff. fold (candidates policy images). setoid_rewrite MirrorTargetTags_iff.
  set (cs := candidates policy images).
  assert (admissible cs -> forall k receipt,
    fold_left (receiptStep (targetTags cs)) cs ∅ !! k = Some receipt <->
    exists image, exact policy images image /\ k = ID image /\ receipt = receiptOf image) as Hmap.
  { intros [Hnd _] k receipt. rewrite receipt_fold.
    assert (forall k r, (k, r) ∈ omap (receiptPair (targetTags cs)) cs <->
      exists image, exact policy images image /\ k = ID image /\ r = receiptOf image) as Hel.
    { intros k' r. rewrite list_elem_of_omap. unfold receiptPair, exact. split.
      - intros (image & Hi & Hp). case_bool_decide as Ht; [|done]. injection Hp as <- <-. exists image.
        apply targetTags_lookup in Ht as (j & Hj & E & Ht); [|done]. unfold cs in *. pose proof Hi as Hi'.
        rewrite <- candidates_mirrors in Hi'. rewrite (same_id _ _ _ Hnd Hi' Hj E) in Ht |- *.
        rewrite candidates_mirrors in Hj. apply candidates_elem in Hj as [H1 H2]. done.
      - intros (image & (H1 & H2 & H3) & -> & ->). exists image. split; [by apply candidates_elem|].
        rewrite bool_decide_eq_true_2; [done|]. apply targetTags_lookup; [done|]. exists image. split; [|done].
        unfold cs. rewrite candidates_mirrors. by apply candidates_elem. }
    rewrite insertPair_lookup, Hel, lookup_empty; [naive_solver|].
    intros k' v v'. rewrite !Hel. intros (i & (Hi1 & Hi2 & _) & -> & ->) (j & (Hj1 & Hj2 & _) & E & ->).
    f_equal. eapply same_id; [exact Hnd|..]; [..|done]; unfold cs; rewrite candidates_mirrors; by apply candidates_elem. }
  split.
  - intros (tags & [Ha ->] & [= <-]). split; [done|]. by apply Hmap.
  - intros [Ha Hr]. eexists. split; [done|]. f_equal. apply map_eq. intros k. apply option_eq. intros r.
    by rewrite Hmap, Hr.
Qed.

Lemma count_perm f images images' v : images ≡ₚ images' -> count f images v = count f images' v.
Proof. intros H. unfold count. by rewrite H. Qed.

Lemma candidate_perm policy images images' image : images ≡ₚ images' ->
  receiptCandidate policy images image = receiptCandidate policy images' image.
Proof. intros H. unfold receiptCandidate. by rewrite !(count_perm _ _ _ _ H). Qed.

Lemma candidates_perm policy images images' : images ≡ₚ images' -> candidates policy images ≡ₚ candidates policy images'.
Proof.
  intros H. unfold candidates. rewrite (List.filter_ext _ _ (fun i => candidate_perm policy _ _ i H)).
  generalize (receiptCandidate policy images'). intros p. clear -H.
  induction H as [|x l l' _ IH|x y l|? ? ? _ IH1 _ IH2]; cbn; [done| | |by etransitivity].
  - destruct (p x); by rewrite IH.
  - destruct (p x), (p y); try done. apply Permutation_swap.
Qed.

Lemma count_unique f images i j : count f images (f i) = 1%nat -> i ∈ images -> j ∈ images -> f i = f j -> i = j.
Proof.
  unfold count. intros Hc Hi Hj E.
  assert (i ∈ filter (fun image => f image = f i) images) as Hi' by by apply (list_elem_of_filter (fun image => f image = f i)).
  assert (j ∈ filter (fun image => f image = f i) images) as Hj' by by apply (list_elem_of_filter (fun image => f image = f i)).
  destruct (filter _ _) as [|x [|]]; try done.
  apply list_elem_of_singleton in Hi' as ->. by apply list_elem_of_singleton in Hj' as ->.
Qed.
End Receipts.

(** ** The claims *)

(** C31. [MirrorTargetTags] succeeds exactly for a list of images in which every
    mirror has its own id, a digest, a hub and an upstream tag, meets the
    contract of its engine where it is native to one, and has a tag a registry
    accepts; the result gives every mirror the tag defined by its hub, its
    version and the content that shares them, whatever the order of the images,
    of the maps and of equal elements of a sort.  The receipts kept for an update
    are those of the images that are unique by id and target, whose source is
    admitted as official evidence and whose target carries that very tag; two
    receipts never share a target. *)
Theorem mirror_names {IN : ImageNames} {UC : UnicodeCase} {MR MR' : MapRange} {SM SM' : SortMembers}
    (policy : DeliveryPolicy) (images : list Image) :
  (forall tags, MirrorTargetTags images = Ok tags <-> admissible images /\ tags = targetTags images) /\
  (forall images' tags, images ≡ₚ images' -> @MirrorTargetTags IN MR SM images = Ok tags ->
     @MirrorTargetTags IN MR' SM' images' = Ok tags) /\
  (forall receipts, exactMirrorReceipts policy images = Ok receipts <->
     admissible (candidates policy images) /\
     forall k receipt, receipts !! k = Some receipt <->
       exists image, exact policy images image /\ k = ID image /\ receipt = receiptOf image) /\
  (forall i j, exact policy images i -> exact policy images j -> Target i = Target j -> i = j).
Proof.
  split_and!.
  - intros tags. apply MirrorTargetTags_iff.
  - intros images' tags Hp [Ha ->]%MirrorTargetTags_iff. destruct (targetTags_perm _ _ Hp Ha) as [Ha' E].
    apply MirrorTargetTags_iff. by rewrite E.
  - apply exactMirrorReceipts_iff.
  - intros i j (Hi & Hc & _) (Hj & _) E. eapply (count_unique Target); [|done..]. unfold receiptCandidate in Hc. reflect_bool.
    by apply Nat.eqb_eq.
Qed.

(** C32. The tag of a mirror that is not native to an engine identifies what it
    names, in one configuration and across two.  Two mirrors have the same tag
    exactly when they have the same upstream version and are either single images
    whose digests agree in their first 48 digits, or members of larger groups whose
    texts have SHA-256 hashes that agree in their first 48 digits; and the text of
    a group is the same exactly for the same hub, the same version and the same
    repositories and digests.  So mirrors with the same hub, version and content
    have the same tag, and only equal prefixes of the hashes of different texts can
    make others share one. *)
Theorem mirror_tag_owner {IN : ImageNames} {MR MR' : MapRange} {SM SM' : SortMembers}
    (images images' : list Image) (tags tags' : gmap string string) (i j : Image)
    (Htags : @MirrorTargetTags IN MR SM images = Ok tags) (Htags' : @MirrorTargetTags IN MR' SM' images' = Ok tags')
    (Hclean : clean images) (Hclean' : clean images') (Hi : i ∈ mirrors images) (Hj : j ∈ mirrors images')
    (Hni : native i = "") (Hnj : native j = "") :
  (tags !! ID i = tags' !! ID j <->
     upstream i = upstream j /\
     (sole images i /\ sole images' j /\ short (Digest (Default i)) = short (Digest (Default j)) \/
      ~ sole images i /\ ~ sole images' j /\
        str_take 48 (hashBytes (setText images i)) = str_take 48 (hashBytes (setText images' j)))) /\
  (setText images i = setText images' j <->
     hub i = hub j /\ upstream i = upstream j /\ content images i ≡ₚ content images' j) /\
  (hub i = hub j -> upstream i = upstream j -> content images i ≡ₚ content images' j -> tags !! ID i = tags' !! ID j).
Proof.
  apply MirrorTargetTags_iff in Htags as [Ha ->], Htags' as [Ha' ->].
  assert (forall l k, admissible l -> k ∈ mirrors l -> native k = "" -> targetTags l !! ID k = Some (sharedTag l k)) as Hget.
  { intros l k [Hnd _] Hk Hn. apply targetTags_lookup; [done|]. exists k. unfold targetTag. by rewrite Hn. }
  rewrite (Hget _ _ Ha Hi Hni), (Hget _ _ Ha' Hj Hnj). split_and!.
  - rewrite inj_iff by apply _. by apply sharedTag_owner.
  - by apply setText_iff.
  - intros Hh Hu Hc. f_equal. apply sharedTag_content; try done. unfold groupOf. by rewrite Hh, Hu.
Qed.

(** ** A delivery of three mirrors *)

Module Sample.
#[local] Instance names : ImageNames.
Proof.
  refine {| ParseReference s :=
      let '(registry, rest, found) := Cut s "/" in
      if found && negb (String.eqb registry "") then
        let repository := imageReferenceRepository rest in
        Some {| RegistryStr := registry; RepositoryStr := repository; ContextName := registry +:+ "/" +:+ repository;
                RefName := s; IsDigest := Contains s "@" |}
      else None;
    NewTag s := bool_decide (IndexByte s "000" = None) |}.
  - intros s r. destruct (Cut s "/") as [[registry rest] found]. destruct (found && _); [|done]. by intros [= <-].
  - intros s r. destruct (Cut s "/") as [[registry rest] [|]]; [|done]. destruct (String.eqb_spec registry ""); [done|].
    by intros [= <-].
  - intros s. apply bool_decide_eq_true.
Defined.
#[local] Instance letters : UnicodeCase.
Proof.
  refine {| ToLowerRune r := if within 65 90 r then (r + 32)%N else r; ToUpperRune r := if within 97 122 r then (r - 32)%N else r |};
    intros r _; reflexivity.
Defined.
#[local] Instance ranges : MapRange := {| range_ A _ _ m := map_to_list m; range_perm A _ _ m := reflexivity _ |}.
#[local] Instance sorting : SortMembers.
Proof.
  refine {| sortMembers := merge_sort member_le |}.
  - intros l. apply merge_sort_Permutation.
  - intros l. apply (StronglySorted_merge_sort _).
Defined.

Definition digestA : string := "sha256:ba7816bf8f01cfea414140de5dae2223b00361a396177a9cb410ff61f20015ad".
Definition digestB : string := "sha256:e3b0c44298fc1c149afbf4c8996fb92427ae41e4649b934ca495991b7852b855".
Definition mirror (id family target source digest : string) (consumers : list string) : Image :=
  {| ID := id; Family := family; Target := target; Scopes := []; Runtime := true; Consumers := consumers;
     Discovery := "configuration"; Compatibility := None;
     Default := {| DType := "mirror"; Source := source; Digest := digest; BakeTarget := ""; Materials := [] |} |}.
Definition pilot : Image := mirror "pilot" "istio" "harbor.test/atum/istio/pilot:0" "gcr.io/istio/pilot:1.29.0" digestA ["istio"].
Definition proxy : Image := mirror "proxy" "istio" "harbor.test/atum/istio/proxyv2:0" "gcr.io/istio/proxyv2:1.29.0" digestB ["istio"].
Definition nginx : Image := mirror "nginx" "web" "harbor.test/atum/web/nginx:1.28-mirror-e3b0c44298fc1c149afbf4c8996fb92427ae41e4649b934c"
                               "docker.io/library/nginx:1.28" digestB ["web"].
Definition flux : Image := mirror "source-controller" "flux" "harbor.test/atum/flux/source-controller:v1"
                              "ghcr.io/fluxcd/source-controller:v1.7.0" digestA ["flux"].
Definition delivery : list Image := [pilot; nginx; flux; proxy].
Definition policy : DeliveryPolicy :=
  {| ForbiddenArtifactPrefixes := []; RuntimeRegistryPrefix := "harbor.test/"; MutableTagsForbidden := true |}.
Definition delivered : gmap string string :=
  match MirrorTargetTags delivery with Ok tags => tags | Err _ => ∅ end.

Lemma delivered_ok : MirrorTargetTags delivery = Ok delivered.
Proof.
  assert (is_ok (MirrorTargetTags delivery) = true) as H by (vm_compute; reflexivity).
  unfold delivered. by destruct (MirrorTargetTags delivery).
Qed.
Lemma mirrors_delivery : mirrors delivery = delivery.
Proof. reflexivity. Qed.
Lemma delivery_clean : clean delivery.
Proof. unfold clean. rewrite mirrors_delivery. repeat constructor. Qed.

Lemma mirror_names_witness :
  MirrorTargetTags [proxy; flux; nginx; pilot] = Ok delivered /\
  delivered !! "source-controller" = Some "v1.7.0" /\
  delivered !! "nginx" = Some "1.28-mirror-e3b0c44298fc1c149afbf4c8996fb92427ae41e4649b934c" /\
  delivered !! "proxy" = Some "1.29.0-mirror-set-ee9f1cadcd491c99f01fb78d105d0fde3b302945b82f929d" /\
  is_ok (exactMirrorReceipts policy delivery) = true.
Proof.
  split; [|split_and!; vm_compute; reflexivity].
  apply (proj1 (proj2 (mirror_names policy delivery)) _ delivered); [|exact delivered_ok].
  apply (Permutation_rev [pilot; nginx; flux; proxy]).
Defined.

Lemma mirror_tag_owner_witness :
  native pilot = "" /\ native proxy = "" /\ hub pilot = "harbor.test/atum/istio" /\ upstream pilot = "1.29.0" /\
  delivered !! ID pilot = delivered !! ID proxy.
Proof.
  split_and!; [vm_compute; reflexivity..|].
  apply (proj2 (proj2 (mirror_tag_owner delivery delivery delivered delivered pilot proxy delivered_ok delivered_ok
    delivery_clean delivery_clean ltac:(rewrite mirrors_delivery; by repeat constructor)
    ltac:(rewrite mirrors_delivery; by repeat constructor) eq_refl eq_refl))); [vm_compute; reflexivity..|reflexivity].
Defined.
End Sample.
End MirrorClaims.
