(* ===== verification/KubesprayTheorems.v ===== *)
(** The ids of Kubespray images and the registry variables of Kubespray. *)
From stdpp Require Import prelude gmap strings list sorting.
From Stdlib Require Import Ascii ZArith Lia.
From S2P Require Import Prelude GoStrings Utf8 Sha256 Treehash Release Progress LocalAccess BakeGraph MirrorTags MirrorTheorems.

Module KubesprayTheorems.
Import Utf8 Sha256 Treehash Release Progress LocalAccess BakeGraph MirrorTags MirrorTheorems.

(** ** Image ids *)

Definition alnum (c : ascii) : bool := is_lower c || is_digit c.
Definition first_byte (s : string) : option ascii := String.get 0 s.

(** Letters, digits and dashes, with a letter or digit at both ends *)
Definition shaped (s : string) : Prop :=
  str_forallb is_ldh s = true /\ (exists c, first_byte s = Some c /\ alnum c = true) /\
  (exists c, last_byte s = Some c /\ alnum c = true).

Lemma last_byte_cons c s : s <> "" -> last_byte (String c s) = last_byte s.
Proof. intros H. destruct s as [|d s]; [done|]. unfold last_byte. cbn. by rewrite Nat.sub_0_r. Qed.

Lemma last_byte_app s t : t <> "" -> last_byte (s +:+ t) = last_byte t.
Proof.
  intros H. induction s as [|c s IH]; [done|]. rewrite str_append_cons, last_byte_cons; [done|].
  destruct s; [done|]. by rewrite str_append_cons.
Qed.

Lemma first_byte_app s t : s <> "" -> first_byte (s +:+ t) = first_byte s.
Proof. by destruct s. Qed.

Lemma alnum_rune character : within 97 122 character || within 48 57 character = true ->
  exists c, EncodeRune character = String c "" /\ alnum c = true.
Proof.
  intros H.
  assert ((48 <= character < 123)%N) as Hr.
  { unfold within in H. apply orb_true_iff in H as [H|H]; apply andb_true_iff in H as [H1%N.leb_le H2%N.leb_le]; lia. }
  assert (forallb (fun n => implb (within 97 122 n || within 48 57 n)
    match EncodeRune n with String c "" => alnum c | _ => false end) (N.of_nat <$> seq 0 123) = true) as Hall by (vm_compute; reflexivity).
  rewrite forallb_forall in Hall.
  assert (In character (N.of_nat <$> seq 0 123)) as Hin.
  { apply list_elem_of_In, list_elem_of_fmap. exists (N.to_nat character). split; [lia|]. apply elem_of_seq. lia. }
  apply Hall in Hin. rewrite H in Hin. destruct (EncodeRune character) as [|c [|]]; [done| |done]. by exists c.
Qed.

Lemma alnum_ldh c : alnum c = true -> is_ldh c = true.
Proof. unfold alnum, is_ldh. by intros ->. Qed.
Lemma alnum_dash c : alnum c = true -> Ascii.eqb c "-" = false.
Proof. destruct (Ascii.eqb_spec c "-"); [by subst|done]. Qed.

Lemma component_step_shaped state character : state.1 = "" \/ shaped state.1 ->
  (component_step state character).1 = "" \/ shaped (component_step state character).1.
Proof.
  destruct state as [built separator]. cbn [fst component_step]. intros H.
  destruct (within 97 122 character || within 48 57 character) eqn:E; [|done]. right. cbn [fst].
  destruct (alnum_rune _ E) as (c & -> & Hc).
  assert (last_byte (String c "") = Some c) as Hlast by done.
  destruct H as [->|(Ha & (a & Hf & Hfa) & _)].
  - rewrite andb_false_r. split_and!; [|by exists c..]. change (is_ldh c && true = true). by rewrite alnum_ldh.
  - assert (built <> "") as Hne by by destruct built.
    split_and!.
    + rewrite !str_forallb_append, Ha. cbn [str_forallb]. rewrite alnum_ldh by done. by destruct (separator && _).
    + exists a. by rewrite first_byte_app.
    + exists c. by rewrite <- str_append_assoc, last_byte_app.
Qed.

Lemma component_fold_shaped l state : state.1 = "" \/ shaped state.1 ->
  (fold_left component_step l state).1 = "" \/ shaped (fold_left component_step l state).1.
Proof. revert state. induction l as [|r l IH]; intros state H; [done|]. cbn. by apply IH, component_step_shaped. Qed.

Lemma trimLeft_shaped s : shaped s -> trimLeftDash s = s.
Proof. destruct s as [|c s]; [done|]. intros (_ & (d & [= ->] & Hd) & _). cbn. by rewrite alnum_dash. Qed.

Lemma trimRight_prefix s : exists t, s = trimRightDash s +:+ t.
Proof.
  induction s as [|c s [t IH]]; [by exists ""|]. cbn [trimRightDash]. destruct (trimRightDash s) as [|d r].
  - destruct (Ascii.eqb_spec c "-"); [by exists (String c s)|]. by exists s.
  - exists t. by rewrite str_append_cons, <- IH.
Qed.

Lemma trimRight_last s : last_byte (trimRightDash s) <> Some "-"%char.
Proof.
  induction s as [|c s IH]; [done|]. cbn [trimRightDash]. destruct (trimRightDash s) as [|d r].
  - destruct (Ascii.eqb_spec c "-"); [done|]. cbn. congruence.
  - by rewrite last_byte_cons.
Qed.

Lemma trimRight_keep s c : last_byte s = Some c -> c <> "-"%char -> trimRightDash s = s.
Proof.
  revert c. induction s as [|d s IH]; intros c Hl Hc; [done|]. destruct s as [|e s].
  - cbn in Hl. injection Hl as ->. cbn. by destruct (Ascii.eqb_spec c "-").
  - rewrite last_byte_cons in Hl by done. cbn [trimRightDash]. fold (trimRightDash (String e s)).
    cbn [trimRightDash] in IH. by rewrite (IH c).
Qed.

Lemma trimRight_nonempty c s : alnum c = true -> exists r, trimRightDash (String c s) = String c r.
Proof. intros H. cbn [trimRightDash]. destruct (trimRightDash s); [rewrite alnum_dash by done|]; eauto. Qed.

Lemma last_byte_ldh s : s <> "" -> str_forallb is_ldh s = true -> last_byte s <> Some "-"%char ->
  exists c, last_byte s = Some c /\ alnum c = true.
Proof.
  induction s as [|c s IH]; [done|]. intros _ [Hc Hs]%andb_true_iff Hl. destruct s as [|d s].
  - exists c. split; [done|]. unfold is_ldh in Hc. unfold alnum. destruct (is_lower c || is_digit c); [done|].
    cbn in Hc. apply Ascii.eqb_eq in Hc. subst. done.
  - rewrite last_byte_cons in Hl |- * by done. by apply IH.
Qed.

Lemma shaped_cut s : shaped s -> shaped (trimRightDash (str_take 32 s)).
Proof.
  intros (Ha & (c & Hf & Hc) & _). destruct s as [|d s]; [done|]. injection Hf as ->.
  change (str_take 32 (String c s)) with (String c (str_take 31 s)). destruct (trimRight_nonempty c (str_take 31 s) Hc) as [r E].
  destruct (trimRight_prefix (String c (str_take 31 s))) as [t Ht].
  assert (str_forallb is_ldh (trimRightDash (String c (str_take 31 s))) = true) as Hall.
  { assert (str_forallb is_ldh (String c (str_take 31 s) +:+ str_drop 31 s) = true) as Hd
      by (rewrite str_append_cons, str_take_drop; exact Ha).
    rewrite Ht, !str_forallb_append in Hd. by do 2 apply andb_true_iff in Hd as [Hd _]. }
  split_and!; [done| |].
  - exists c. by rewrite E.
  - apply last_byte_ldh; [by rewrite E|done|apply trimRight_last].
Qed.

Lemma sanitize_shaped {UC : UnicodeCase} value :
  shaped (sanitizeKubesprayImageComponent value) /\
  (1 <= String.length (sanitizeKubesprayImageComponent value) <= 32)%nat.
Proof.
  assert (forall s, shaped s -> (1 <= String.length s)%nat) as Hpos by (intros [|? s] (_ & (c & H & _) & _); [done|cbn; lia]).
  unfold sanitizeKubesprayImageComponent.
  destruct (fold_left component_step (runes (ToLower value)).*1 ("", false)) as [built separator] eqn:E.
  destruct (component_fold_shaped (runes (ToLower value)).*1 ("", false)) as [H|H]; [by left|..]; rewrite E in H; cbn in H.
  { subst. cbn. split; [|lia]. split_and!; [done|by eexists..]. }
  rewrite (trimLeft_shaped _ H). pose proof H as (Ha & Hf & (c & Hl & Hc)).
  rewrite (trimRight_keep _ c Hl) by (intros ->; done).
  destruct (String.eqb_spec built "") as [->|_]; [by apply Hpos in H; cbn in H; lia|].
  destruct (Nat.ltb_spec 32 (String.length built)).
  - pose proof (shaped_cut _ H) as Hs. split; [done|]. split; [by apply Hpos|].
    destruct (trimRight_prefix (str_take 32 built)) as [t Ht]. apply (f_equal String.length) in Ht.
    rewrite str_length_append, str_length_take in Ht. lia.
  - split; [done|]. split; [by apply Hpos|done].
Qed.

Lemma hex_ldh s : str_forallb is_hex_lower s = true -> str_forallb is_ldh s = true.
Proof.
  induction s as [|c s IH]; [done|]. cbn. intros [Hc Hs]%andb_true_iff. rewrite IH by done. rewrite andb_true_r.
  revert Hc. clear. destruct c as [[] [] [] [] [] [] [] []]; vm_compute; done.
Qed.

Lemma short_hash data : String.length (str_take 12 (hashBytes data)) = 12%nat /\ str_forallb is_hex_lower (str_take 12 (hashBytes data)) = true.
Proof.
  pose proof (hashBytes_valid data) as H. unfold validHexSHA256 in H. apply andb_true_iff in H as [H1%Nat.eqb_eq H2].
  split; [by rewrite str_length_take, H1|]. rewrite <- (str_take_drop 12 (hashBytes data)), str_forallb_append in H2.
  by apply andb_true_iff in H2 as [H2 _].
Qed.

Lemma hex_last s : s <> "" -> str_forallb is_hex_lower s = true -> last_byte s <> Some "-"%char.
Proof.
  induction s as [|c s IH]; [done|]. intros _ [Hc Hs]%andb_true_iff. destruct s as [|d s].
  - cbn. intros [= ->]. done.
  - rewrite last_byte_cons by done. by apply IH.
Qed.

(** ** The canonical images *)

Section Canonical.
Context {IN : ImageNames}.

Record entry := { eImage : Image; eSource : Reference; eTarget : Reference; eRoot : string }.
Definition eRegistry (e : entry) : string := RegistryStr (eSource e).
Definition eRepository (e : entry) : string := eRoot e +:+ "/" +:+ eRegistry e.
Definition eHost (e : entry) : string := RegistryStr (eTarget e).

(** A mirror whose target is its source below a namespace [kubespray] *)
Definition canonical (all : gmap string Image) (id : string) (e : entry) : Prop :=
  all !! id = Some (eImage e) /\ Discovery (eImage e) = "kubespray" /\ DType (Default (eImage e)) = "mirror" /\
  Source (Default (eImage e)) <> "" /\ Digest (Default (eImage e)) <> "" /\
  ParseReference (Source (Default (eImage e))) = Some (eSource e) /\ ParseReference (Target (eImage e)) = Some (eTarget e) /\
  ContextName (eTarget e) = eRoot e +:+ "/" +:+ ContextName (eSource e) /\ HasSuffix (eRoot e) "/kubespray" = true.

Lemma canonical_unique all id e e' : canonical all id e -> canonical all id e' -> e = e'.
Proof.
  intros (H1 & _ & _ & _ & _ & H2 & H3 & H4 & _) (H1' & _ & _ & _ & _ & H2' & H3' & H4' & _).
  destruct e as [i s t r], e' as [i' s' t' r']; cbn in *. simplify_eq. f_equal. rewrite H4 in H4'.
  by apply append_split in H4' as [-> _].
Qed.

Lemma canonicalStep_iff all state id state' : canonicalStep all state id = Ok state' <->
  exists e, canonical all id e /\ (targetHost state = "" \/ targetHost state = eHost e) /\
    (repositories state !! eRegistry e = None \/ repositories state !! eRegistry e = Some (eRepository e)) /\
    state' = {| selected := <[id := eImage e]> (selected state);
                repositories := <[eRegistry e := eRepository e]> (repositories state); targetHost := eHost e |}.
Proof.
  unfold canonicalStep, canonical. destruct (all !! id) as [image|] eqn:Eall; [|naive_solver].
  rewrite guard_bind_iff, bind_ok_iff. unfold parse. split.
  - intros (Hg & source & Hs & H). destruct (ParseReference (Source (Default image))) as [src|] eqn:Es; [|done].
    destruct (ParseReference (Target image)) as [tgt|] eqn:Et; [|done]. injection Hs as ->. cbn [mbind result_bind] in H.
    rewrite !guard_bind_iff in H. destruct H as (Hh & Hsuf & Hroot & Hrep & [= <-]). reflect_bool.
    apply HasSuffix_true in Hsuf as [root Hctx]. rewrite Hctx, TrimSuffix_append in *.
    repeat match goal with H : String.eqb _ _ = true |- _ => apply String.eqb_eq in H
                         | H : String.eqb _ _ = false |- _ => apply String.eqb_neq in H end.
    exists {| eImage := image; eSource := source; eTarget := tgt; eRoot := root |}. unfold eHost, eRegistry, eRepository. cbn.
    split_and!; try done.
    + apply andb_false_iff in Hh as [Hh|Hh]; apply negb_false_iff, String.eqb_eq in Hh; auto.
    + destruct (repositories state !! RegistryStr source) as [p|]; [|by left]. right.
      apply negb_false_iff, String.eqb_eq in Hrep. by subst.
    + f_equal. destruct (String.eqb_spec (targetHost state) "") as [|Hne]; [done|].
      cbn in Hh. apply negb_false_iff, String.eqb_eq in Hh. congruence.
  - intros ([i source tgt root] & (Hi & H1 & H2 & H3 & H4 & Hs & Ht & Hctx & Hroot) & Hh & Hrep & ->). cbn in *.
    unfold eHost, eRegistry, eRepository in *. cbn in *. injection Hi as <-. rewrite H1, H2, Hs, Ht.
    apply String.eqb_neq in H3, H4. rewrite H3, H4. split; [done|]. exists source. split; [done|]. cbn [mbind result_bind].
    rewrite !guard_bind_iff, Hctx, TrimSuffix_append, Hroot. split_and!; [|apply negb_false_iff, HasSuffix_true; by exists root|done| |].
    + destruct Hh as [-> | ->]; [done|]. by rewrite String.eqb_refl, andb_false_r.
    + destruct Hrep as [-> | ->]; [done|]. by rewrite String.eqb_refl.
    + do 2 f_equal. destruct Hh as [-> | ->]; [done|]. case_goal; reflexivity.
Qed.

(** ** The loop, in any order *)

Definition consistent (es : list entry) : Prop :=
  (forall e e', e ∈ es -> e' ∈ es -> eHost e = eHost e') /\
  (forall e e', e ∈ es -> e' ∈ es -> eRegistry e = eRegistry e' -> eRepository e = eRepository e').

Definition extend (state : graphState) (ids : list string) (es : list entry) : graphState :=
  {| selected := fold_left insertPair (zip ids (eImage <$> es)) (selected state);
     repositories := fold_left insertPair ((fun e => (eRegistry e, eRepository e)) <$> es) (repositories state);
     targetHost := default (targetHost state) (eHost <$> last es) |}.

Lemma canonicalLoop_iff all ids state state' : canonicalLoop all ids state = Ok state' <->
  exists es, Forall2 (canonical all) ids es /\ consistent es /\
    (forall e, e ∈ es -> targetHost state = "" \/ targetHost state = eHost e) /\
    (forall e, e ∈ es -> repositories state !! eRegistry e = None \/ repositories state !! eRegistry e = Some (eRepository e)) /\
    state' = extend state ids es.
Proof.
  revert state. induction ids as [|id ids IH]; intros state; cbn [canonicalLoop].
  { split.
    - intros [= <-]. exists []. unfold consistent. split_and!; try set_solver; try constructor. by destruct state.
    - intros (es & H%Forall2_nil_inv_l & _ & _ & _ & ->). subst es. by destruct state. }
  rewrite bind_ok_iff. setoid_rewrite canonicalStep_iff. split.
  - intros (mid & (e & He & Hh & Hr & ->) & H). apply IH in H as (es & Hes & [Hc1 Hc2] & Hh' & Hr' & ->). cbn in Hh', Hr'.
    assert (Hne : eHost e <> "") by (destruct He as (_ & _ & _ & _ & _ & _ & He & _); by apply parse_registry in He).
    exists (e :: es). split_and!.
    + by constructor.
    + assert (forall e', e' ∈ es -> eHost e = eHost e') as HH by (intros e' He'; destruct (Hh' e' He'); [done|done]).
      assert (forall e', e' ∈ es -> eRegistry e = eRegistry e' -> eRepository e = eRepository e') as HR.
      { intros e' He' E. destruct (Hr' e' He') as [H|H]; rewrite <- E, lookup_insert_eq in H; by simplify_eq. }
      split; intros a b Ha Hb; apply elem_of_cons in Ha as [->|Ha]; apply elem_of_cons in Hb as [->|Hb]; eauto.
      * symmetry. eauto.
      * intros E. symmetry. eauto.
    + intros e' [->|He']%elem_of_cons; [done|]. destruct (Hh' e' He') as [|<-]; done.
    + intros e' [->|He']%elem_of_cons; [done|]. destruct (decide (eRegistry e' = eRegistry e)) as [E|E].
      * destruct (Hr' e' He') as [H|H]; rewrite E, lookup_insert_eq in H; [done|]. rewrite E. injection H as <-. done.
      * destruct (Hr' e' He') as [H|H]; rewrite lookup_insert_ne in H by done; auto.
    + unfold extend. cbn. f_equal. rewrite last_cons. by destruct (last es).
  - intros (es & Hes & [Hc1 Hc2] & Hh & Hr & ->). apply Forall2_cons_inv_l in Hes as (e & es' & He & Hes & ->).
    eexists. split; [exists e; split_and!; [done|apply Hh; by left|apply Hr; by left|reflexivity]|].
    apply IH. exists es'. split_and!; [done| | | |].
    + split; intros a b Ha Hb; [apply Hc1|apply Hc2]; by right.
    + intros e' He'. cbn. right. apply Hc1; [by left|by right].
    + intros e' He'. cbn. destruct (decide (eRegistry e = eRegistry e')) as [E|E].
      * right. rewrite E, lookup_insert_eq. f_equal. apply Hc2; [by left|by right|done].
      * rewrite lookup_insert_ne by done. apply Hr. by right.
    + unfold extend. cbn. f_equal. rewrite last_cons. by destruct (last es').
Qed.

Lemma insertPair_ext {V} (l l' : list (string * V)) acc : functional l -> (forall p, p ∈ l <-> p ∈ l') ->
  fold_left insertPair l acc = fold_left insertPair l' acc.
Proof.
  intros Hf Hin. assert (functional l') as Hf' by (intros k v v'; rewrite <- !Hin; apply Hf).
  apply map_eq. intros k. apply option_eq. intros v. rewrite !insertPair_lookup by done. by setoid_rewrite Hin.
Qed.

Lemma entries_elem all ids es e : Forall2 (canonical all) ids es -> e ∈ es <-> exists id, id ∈ ids /\ canonical all id e.
Proof.
  induction 1 as [|id e' ids es He Hes IH]; [set_solver|]. rewrite elem_of_cons, IH. split.
  - intros [->|(id' & Hi & Hc)]; [exists id|exists id']; split; try done; [by left|by right].
  - intros (id' & [->|Hi]%elem_of_cons & Hc); [left; by eapply canonical_unique|right; eauto].
Qed.

Lemma selected_elem all ids es id i : Forall2 (canonical all) ids es ->
  (id, i) ∈ zip ids (eImage <$> es) <-> id ∈ ids /\ exists e, canonical all id e /\ i = eImage e.
Proof.
  induction 1 as [|id' e' ids es He Hes IH]; [set_solver|]. cbn. rewrite !elem_of_cons, IH. split.
  - intros [[= -> ->]|(Hi & Hc)]; [|tauto]. split; [by left|eauto].
  - intros [[->|Hi] (e & Hc & ->)]; [left; by rewrite (canonical_unique _ _ _ _ Hc He)|right; eauto].
Qed.

Lemma entries_exist all ids : (forall id, id ∈ ids -> exists e, canonical all id e) -> exists es, Forall2 (canonical all) ids es.
Proof.
  induction ids as [|id ids IH]; intros H; [by exists []|].
  destruct (H id) as [e He]; [by left|]. destruct IH as [es Hes]; [intros; apply H; by right|]. exists (e :: es). by constructor.
Qed.

Lemma consistent_selected all ids es : Forall2 (canonical all) ids es -> functional (zip ids (eImage <$> es)).
Proof.
  intros Hes k v v'. rewrite !(selected_elem _ _ _ _ _ Hes). intros (_ & e & He & ->) (_ & e' & He' & ->).
  by rewrite (canonical_unique _ _ _ _ He He').
Qed.

Lemma consistent_repositories es : consistent es -> functional ((fun e => (eRegistry e, eRepository e)) <$> es).
Proof.
  intros [_ H] k v v' (e & [= -> ->] & He)%list_elem_of_fmap (e' & [= E ->] & He')%list_elem_of_fmap. by apply H.
Qed.

Definition emptyState : graphState := {| selected := ∅; repositories := ∅; targetHost := "" |}.

Lemma last_host es e : consistent es -> e ∈ es -> default "" (eHost <$> last es) = eHost e.
Proof.
  intros [H _] He. destruct (last es) as [x|] eqn:E; cbn; [|apply last_None in E as ->; by apply not_elem_of_nil in He].
  apply H; [|done]. by apply last_Some_elem_of.
Qed.

Lemma canonicalLoop_perm all ids ids' state : ids ≡ₚ ids' -> canonicalLoop all ids emptyState = Ok state ->
  canonicalLoop all ids' emptyState = Ok state.
Proof.
  intros Hp. rewrite !canonicalLoop_iff. intros (es & Hes & Hc & _ & _ & ->).
  destruct (entries_exist all ids') as [es' Hes'].
  { intros id. rewrite <- Hp. intros Hid. apply list_elem_of_lookup_1 in Hid as [n Hn].
    destruct (Forall2_lookup_l _ _ _ _ _ Hes Hn) as (e & _ & He). eauto. }
  assert (forall e, e ∈ es <-> e ∈ es') as Hin.
  { intros e. rewrite (entries_elem _ _ _ _ Hes), (entries_elem _ _ _ _ Hes'). by setoid_rewrite Hp. }
  assert (consistent es') as Hc' by (destruct Hc as [H1 H2]; split; intros e e'; rewrite <- !Hin; auto).
  exists es'. split_and!; [done|done|by left|by left|]. unfold extend. f_equal.
  - apply insertPair_ext; [by eapply consistent_selected|]. intros [k v].
    rewrite (selected_elem _ _ _ _ _ Hes), (selected_elem _ _ _ _ _ Hes'). by rewrite Hp.
  - apply insertPair_ext; [by apply consistent_repositories|]. intros p. rewrite !list_elem_of_fmap. by setoid_rewrite Hin.
  - cbn. destruct es as [|e es]; [|].
    + destruct es' as [|e' es']; [done|]. exfalso. apply (not_elem_of_nil e'), Hin. by left.
    + rewrite (last_host _ e Hc) by by left. symmetry. apply last_host; [done|]. apply Hin. by left.
Qed.
End Canonical.

(** ** The variables *)

Definition variableSource (k : string) : option string :=
  if String.eqb k "gcr_image_repo" then Some "gcr.io"
  else if String.eqb k "kube_image_repo" || String.eqb k "kubeadm_image_repo" then Some "registry.k8s.io"
  else if String.eqb k "docker_image_repo" then Some "index.docker.io"
  else if String.eqb k "quay_image_repo" then Some "quay.io"
  else if String.eqb k "github_image_repo" then Some "ghcr.io" else None.

Definition entryPairs (repos : gmap string string) (e : string * string) : list (string * value) :=
  match repos !! e.1 with
  | Some target => (e.2, VString target) :: (if String.eqb e.2 "kube_image_repo" then [("kubeadm_image_repo", VString target)] else [])
  | None => []
  end.

Lemma variables_fold repos l acc : fold_left (variableStep repos) l acc = fold_left insertPair (l ≫= entryPairs repos) acc.
Proof.
  revert acc. induction l as [|[source variable] l IH]; intros acc; [done|]. cbn [fold_left mbind list_bind].
  rewrite IH, fold_left_app. f_equal. unfold variableStep, entryPairs. cbn [fst snd].
  destruct (repos !! source) as [t|]; [|done]. by destruct (String.eqb variable "kube_image_repo").
Qed.

Lemma variables_elem repos k v : (k, v) ∈ registryVariables ≫= entryPairs repos <->
  exists source target, variableSource k = Some source /\ repos !! source = Some target /\ v = VString target.
Proof.
  rewrite list_elem_of_bind. unfold entryPairs. split.
  - intros ([source variable] & Hp & He). cbn [fst snd] in Hp. destruct (repos !! source) as [t|] eqn:E; [|set_solver].
    exists source, t. unfold registryVariables in He.
    repeat (apply elem_of_cons in He as [He|He]; [injection He as -> ->; cbn in Hp; set_solver|]). set_solver.
  - intros (source & t & Hv & Ht & ->). unfold variableSource in Hv.
    repeat match type of Hv with
    | (if (?a || ?b) then _ else _) = _ => destruct a eqn:?; [|destruct b eqn:?]; cbn [orb] in Hv
    | (if ?a then _ else _) = _ => destruct a eqn:?
    end; try discriminate Hv; injection Hv as <-;
    match goal with H : String.eqb k ?x = true |- _ => apply String.eqb_eq in H; subst k end;
    [exists ("gcr.io", "gcr_image_repo")|exists ("registry.k8s.io", "kube_image_repo")|exists ("registry.k8s.io", "kube_image_repo")
    |exists ("index.docker.io", "docker_image_repo")|exists ("quay.io", "quay_image_repo")|exists ("ghcr.io", "github_image_repo")];
    cbn [fst snd]; rewrite Ht; (split; [cbn; set_solver|unfold registryVariables; set_solver]).
Qed.

Lemma variables_functional repos : functional (registryVariables ≫= entryPairs repos).
Proof. intros k v v'. rewrite !variables_elem. intros (s & t & -> & E & ->) (s' & t' & [= <-] & E' & ->). congruence. Qed.

Section Values.
Context {IN : ImageNames}.

Definition expectedMirrors (desired : Document) (repos : gmap string string) : list value :=
  let scheme := if TLSVerify desired then "https://" else "http://" in
  registryMirror (TLSVerify desired) (Host desired) (scheme +:+ Host desired) false ::
  ((fun source => registryMirror (TLSVerify desired) source (scheme +:+ default "" (repos !! source)) true) <$>
     SortStrings (map_to_list repos).*1).

Definition expectedValue (desired : Document) (repos : gmap string string) (k : string) : option value :=
  if String.eqb k "containerd_registries_mirrors" then Some (VList (expectedMirrors desired repos))
  else source ← variableSource k; VString <$> repos !! source.

Lemma variables_value {MR : MapRange} repos mirrors k :
  fold_left (variableStep repos) (range_ "KubesprayRegistryValues" "variables" (list_to_map registryVariables))
    {[ "containerd_registries_mirrors" := VList mirrors ]} !! k =
  if String.eqb k "containerd_registries_mirrors" then Some (VList mirrors)
  else source ← variableSource k; VString <$> repos !! source.
Proof.
  assert (range_ "KubesprayRegistryValues" "variables" (list_to_map registryVariables) ≡ₚ registryVariables) as Hp.
  { rewrite range_perm. apply map_to_list_to_map. apply (bool_decide_unpack _). vm_compute. exact I. }
  rewrite variables_fold, <- (insertPair_ext (registryVariables ≫= entryPairs repos)).
  2: apply variables_functional.
  2: { intros [k' v]. rewrite !list_elem_of_bind. by setoid_rewrite Hp. }
  apply option_eq. intros v. rewrite insertPair_lookup by apply variables_functional. setoid_rewrite variables_elem.
  destruct (String.eqb_spec k "containerd_registries_mirrors") as [->|Hne].
  - rewrite lookup_singleton_eq. change (variableSource "containerd_registries_mirrors") with (@None string). naive_solver.
  - rewrite lookup_singleton_ne by done. destruct (variableSource k) as [source|]; cbn; [|naive_solver].
    split.
    + intros [(s & t & [= <-] & -> & ->)|[_ [=]]]. done.
    + destruct (repos !! source) as [t|] eqn:E; cbn; [|done]. intros [= <-]. left. eauto.
Qed.

Lemma allImages_lookup images all all' id i : allImages images all = Ok all' -> all' !! id = Some i ->
  i ∈ images /\ ID i = id \/ all !! id = Some i.
Proof.
  revert all. induction images as [|image images IH]; intros all H Hi; cbn in H; [injection H as ->; by right|].
  apply guard_bind_iff in H as [_ H]. destruct (IH _ H Hi) as [[H1 H2]|H1]; [left; split; [by right|done]|].
  destruct (decide (ID image = id)) as [<-|Hne].
  - rewrite lookup_insert_eq in H1. injection H1 as ->. left. split; [by left|done].
  - rewrite lookup_insert_ne in H1 by done. by right.
Qed.

Lemma inventory_elem desired id : id ∈ (map_to_list (inventoryIDs desired)).*1 <-> id ∈ concat (Inventories desired).
Proof.
  unfold inventoryIDs. rewrite list_elem_of_fmap. split.
  - intros ([k []] & -> & H%elem_of_map_to_list). cbn. apply elem_of_list_to_map_2, list_elem_of_fmap in H as (x & [= ->] & H). done.
  - intros H. exists (id, tt). split; [done|]. apply elem_of_map_to_list.
    destruct (list_to_map ((λ id0 : string, (id0, ())) <$> concat (Inventories desired)) !! id) as [[]|] eqn:E; [done|].
    apply not_elem_of_list_to_map in E. destruct E. rewrite <- list_fmap_compose. apply list_elem_of_fmap. by exists id.
Qed.

(** The state of a successful run: every inventory image is canonical, and
    nothing else is in the graph *)
Definition graphOf (desired : Document) (all : gmap string Image) (state : graphState) : Prop :=
  exists es, consistent es /\
    (forall e, e ∈ es <-> exists id, id ∈ concat (Inventories desired) /\ canonical all id e) /\
    (forall id, id ∈ concat (Inventories desired) -> exists e, e ∈ es /\ canonical all id e) /\
    (forall reg repo, repositories state !! reg = Some repo <-> exists e, e ∈ es /\ reg = eRegistry e /\ repo = eRepository e) /\
    (forall id, is_Some (selected state !! id) <-> id ∈ concat (Inventories desired)) /\
    (forall e, e ∈ es -> targetHost state = eHost e).

Lemma canonicalImages_graph {MR : MapRange} desired state : kubesprayCanonicalImages desired = Ok state ->
  exists all, allImages (Images desired) ∅ = Ok all /\ graphOf desired all state.
Proof.
  unfold kubesprayCanonicalImages. intros H. inv_ok. exists x. split; [done|]. fold emptyState in Hx0.
  apply canonicalLoop_iff in Hx0 as (es & Hes & Hc & _ & _ & ->). exists es.
  assert (forall id, id ∈ (range_ "kubesprayCanonicalImages" "" (inventoryIDs desired)).*1 <-> id ∈ concat (Inventories desired)) as Hids.
  { intros id. rewrite <- inventory_elem. by rewrite range_perm. }
  split_and!; [done| | | | |].
  - intros e. rewrite (entries_elem _ _ _ _ Hes). by setoid_rewrite Hids.
  - intros id Hid. apply Hids, list_elem_of_lookup_1 in Hid as [n Hn].
    destruct (Forall2_lookup_l _ _ _ _ _ Hes Hn) as (e & He & Hcan). exists e. split; [by eapply list_elem_of_lookup_2|done].
  - intros reg repo. cbn. rewrite insertPair_lookup by by apply consistent_repositories. rewrite lookup_empty, list_elem_of_fmap.
    naive_solver.
  - intros id. rewrite <- Hids. cbn. unfold is_Some.
    setoid_rewrite (insertPair_lookup _ _ _ _ (consistent_selected _ _ _ Hes)). setoid_rewrite lookup_empty.
    setoid_rewrite (selected_elem _ _ _ _ _ Hes). split; [naive_solver|]. intros Hid. pose proof Hid as Hid'.
    apply list_elem_of_lookup_1 in Hid' as [n Hn]. destruct (Forall2_lookup_l _ _ _ _ _ Hes Hn) as (e & He & Hcan). eauto 6.
  - intros e He. cbn. by apply last_host.
Qed.

Lemma graph_sizes desired all state : graphOf desired all state -> size (selected state) = size (inventoryIDs desired).
Proof.
  intros (es & _ & _ & _ & _ & Hsel & _). rewrite <- !size_dom. f_equal. apply set_eq. intros id.
  rewrite !elem_of_dom, Hsel, <- inventory_elem. unfold is_Some. setoid_rewrite <- elem_of_map_to_list.
  rewrite list_elem_of_fmap. split; [intros ([k u] & -> & H); eauto|intros [u H]; by exists (id, u)].
Qed.
End Values.
End KubesprayTheorems.
