(* ===== verification/KubesprayClaims.v ===== *)
(** What the ids and the registry variables of Kubespray promise. *)
From stdpp Require Import prelude gmap strings list sorting.
From Stdlib Require Import Ascii ZArith Lia.
From S2P Require Import Prelude GoStrings Utf8 Sha256 Treehash Release Progress LocalAccess BakeGraph MirrorTags MirrorTheorems MirrorClaims KubesprayTheorems.

Module KubesprayClaims.
Import Utf8 Sha256 Treehash Release Progress LocalAccess BakeGraph MirrorTags MirrorTheorems KubesprayTheorems.

Section Values.
Context {IN : ImageNames}.

(** Where a node finds an image: the mirror of its registry, followed by the path of its repository *)
Definition reached (desired : Document) (repos : gmap string string) (id : string) : Prop :=
  exists image source target repo, image ∈ Images desired /\ ID image = id /\ DType (Default image) = "mirror" /\
    ParseReference (Source (Default image)) = Some source /\ ParseReference (Target image) = Some target /\
    RegistryStr target = Host desired /\ repos !! RegistryStr source = Some repo /\
    ContextName target = repo +:+ "/" +:+ RepositoryStr source.

Definition used (desired : Document) (registry : string) : Prop :=
  exists id image source, id ∈ concat (Inventories desired) /\ image ∈ Images desired /\ ID image = id /\
    ParseReference (Source (Default image)) = Some source /\ RegistryStr source = registry.

Lemma graph_reached desired all state : allImages (Images desired) ∅ = Ok all -> graphOf desired all state ->
  targetHost state = Host desired ->
  (forall id, id ∈ concat (Inventories desired) -> reached desired (repositories state) id) /\
  (forall registry repo, repositories state !! registry = Some repo -> used desired registry).
Proof.
  intros Hall (es & Hc & Hes & Hin & Hrep & _ & Hhost) Hh.
  assert (forall id i, all !! id = Some i -> i ∈ Images desired /\ ID i = id) as Hlook.
  { intros id i Hi. destruct (allImages_lookup _ _ _ _ _ Hall Hi) as [H|H]; [done|]. by rewrite lookup_empty in H. }
  split.
  - intros id Hid. destruct (Hin id Hid) as (e & He & Hcan). destruct Hcan as (Hi & _ & Ht & _ & _ & Hs & Htgt & Hctx & _).
    destruct (Hlook _ _ Hi) as [H1 H2]. exists (eImage e), (eSource e), (eTarget e), (eRepository e).
    split_and!; try done.
    + by rewrite <- Hh, (Hhost e He).
    + apply Hrep. by exists e.
    + rewrite Hctx, (parse_name _ _ Hs). unfold eRepository, eRegistry. by rewrite !str_append_assoc.
  - intros registry repo (e & He & -> & _)%Hrep. apply Hes in He as (id & Hid & Hi & _ & _ & _ & _ & Hs & _).
    destruct (Hlook _ _ Hi) as [H1 H2]. exists id, (eImage e), (eSource e). done.
Qed.

Lemma registryValues_iff {MR : MapRange} desired values : KubesprayRegistryValues desired = Ok values <->
  exists state, kubesprayCanonicalImages desired = Ok state /\ targetHost state = Host desired /\
    forall k, values !! k = expectedValue desired (repositories state) k.
Proof.
  unfold KubesprayRegistryValues. rewrite bind_ok_iff. setoid_rewrite guard_bind_iff.
  assert (forall state, SortStrings (range_ "KubesprayRegistryValues" "sources" (repositories state)).*1 =
                        SortStrings (map_to_list (repositories state)).*1) as Hsort.
  { intros state. apply SortStrings_unique. by rewrite range_perm. }
  split.
  - intros (state & Hs & Hh & H). rewrite Hsort in H. exists state. apply guard_bind_iff in H as [_ [= <-]]. apply negb_false_iff, String.eqb_eq in Hh.
    split_and!; [done|done|]. intros k. rewrite variables_value, Hh. done.
  - intros (state & Hs & Hh & Hv). exists state. rewrite Hsort. split_and!; [done|by rewrite Hh, String.eqb_refl|]. apply guard_bind_iff. split.
    + destruct (canonicalImages_graph _ _ Hs) as (all & _ & Hg). by rewrite (graph_sizes _ _ _ Hg), Nat.eqb_refl.
    + f_equal. apply map_eq. intros k. by rewrite variables_value, Hv, Hh.
Qed.

Lemma canonicalImages_ranges {MR MR' : MapRange} desired state :
  @kubesprayCanonicalImages IN MR desired = Ok state -> @kubesprayCanonicalImages IN MR' desired = Ok state.
Proof.
  unfold kubesprayCanonicalImages. rewrite !bind_ok_iff. intros (all & Hall & H). exists all. split; [done|].
  apply bind_ok_iff in H as (st & Hst & H). apply bind_ok_iff. exists st. split; [|done].
  eapply canonicalLoop_perm; [|exact Hst]. by rewrite !range_perm.
Qed.

(** The error of the final count is its own. *)
Lemma canonicalLoop_no_graph all ids state : canonicalLoop all ids state <> Err KGraph.
Proof.
  revert state. induction ids as [|id ids IH]; intros state H; [done|]. cbn [canonicalLoop] in H.
  apply bind_err_inv in H as [H|(st' & _ & H)]; [|by eapply IH].
  revert H. unfold canonicalStep, parse, guard_err. repeat (case_goal; cbn [mbind result_bind]); discriminate.
Qed.

Lemma allImages_no_graph images all : allImages images all <> Err KGraph.
Proof.
  revert all. induction images as [|image images IH]; intros all; [done|]. cbn [allImages]. unfold guard_err.
  case_goal; [discriminate|apply IH].
Qed.

Lemma canonicalImages_no_graph {MR : MapRange} desired : kubesprayCanonicalImages desired <> Err KGraph.
Proof.
  unfold kubesprayCanonicalImages. intros H. apply bind_err_inv in H as [H|(all & _ & H)]; [by eapply allImages_no_graph|].
  apply bind_err_inv in H as [H|(st & _ & H)]; [by eapply canonicalLoop_no_graph|]. revert H. unfold guard_err.
  case_goal; discriminate.
Qed.
End Values.

(** C21. When the registry variables of Kubespray are produced, they are exactly
    the list of mirrors, the Harbor host first and then one per source registry
    in order, and the variable of every known registry in use; every image of
    every inventory, resolved through the mirror of its source registry, is found
    at the repository the delivery pushes it to, on the configured host; no
    registry is mirrored without need.  The result does not depend on the order
    in which maps are enumerated, and the final count of the images never fails. *)
Theorem kubespray_registry {IN : ImageNames} {MR MR' : MapRange} (desired : Document) :
  (forall values, @KubesprayRegistryValues IN MR desired = Ok values ->
     exists repos, (forall k, values !! k = expectedValue desired repos k) /\
       (forall id, id ∈ concat (Inventories desired) -> reached desired repos id) /\
       (forall registry repo, repos !! registry = Some repo -> used desired registry) /\
       @KubesprayRegistryValues IN MR' desired = Ok values) /\
  KubesprayRegistryValues desired <> Err KGraph.
Proof.
  split.
  - intros values (state & Hs & Hh & Hv)%registryValues_iff. exists (repositories state). split; [done|].
    destruct (canonicalImages_graph _ _ Hs) as (all & Hall & Hg).
    destruct (graph_reached _ _ _ Hall Hg Hh) as [H1 H2]. split_and!; [done|done|].
    apply registryValues_iff. exists state. split; [by apply (canonicalImages_ranges (MR:=MR))|done].
  - unfold KubesprayRegistryValues. destruct (kubesprayCanonicalImages desired) as [state|e] eqn:E; cbn [mbind result_bind].
    + destruct (canonicalImages_graph _ _ E) as (all & _ & Hg). rewrite (graph_sizes _ _ _ Hg), Nat.eqb_refl.
      by destruct (String.eqb _ _).
    + intros [= ->]. by eapply canonicalImages_no_graph.
Qed.

(** C33. The id of a Kubespray image is a DNS label and a resource id of at most 55
    bytes, whatever the source: its component has between 1 and 32 bytes, with
    a letter or digit at both ends, and it ends in the first 12 digits of the
    digest of the full reference, so that sources with the same id have references
    that agree in them. *)
Theorem kubespray_image_id {IN : ImageNames} {UC : UnicodeCase} (source id : string)
    (Hid : KubesprayImageID source = Some id) :
  validDNSLabel id = true /\ validResourceID id = true /\ (24 <= String.length id <= 55)%nat /\
  exists reference component, ParseReference source = Some reference /\ shaped component /\
    id = "kubespray-" +:+ component +:+ "-" +:+ str_take 12 (hashBytes (RefName reference)) /\
    forall source' reference', KubesprayImageID source' = Some id -> ParseReference source' = Some reference' ->
      str_take 12 (hashBytes (RefName reference')) = str_take 12 (hashBytes (RefName reference)).
Proof.
  unfold KubesprayImageID in *. destruct (ParseReference source) as [reference|]; [|done]. cbn [mbind option_bind] in Hid.
  apply (inj Some) in Hid as <-. destruct (sanitize_shaped (Base (ContextName reference))) as [Hs Hl].
  destruct (short_hash (RefName reference)) as [H12 Hhex].
  set (component := sanitizeKubesprayImageComponent (Base (ContextName reference))) in *.
  set (hash := str_take 12 (hashBytes (RefName reference))) in *.
  assert (hash <> "") as Hne by (intros E; rewrite E in H12; done).
  assert (String.length ("kubespray-" +:+ component +:+ "-" +:+ hash) = (23 + String.length component)%nat) as Hlen
    by (rewrite !str_length_append, H12; cbn; lia).
  assert (str_forallb is_ldh ("kubespray-" +:+ component +:+ "-" +:+ hash) = true) as Hall
    by (rewrite !str_forallb_append, (hex_ldh _ Hhex); destruct Hs as [-> _]; done).
  split; [|split; [|split; [rewrite Hlen; lia|]]].
  - unfold validDNSLabel. rewrite Hlen. replace (23 + String.length component =? 0)%nat with false by (symmetry; apply Nat.eqb_neq; lia).
    replace (63 <? 23 + String.length component)%nat with false by (symmetry; apply Nat.ltb_ge; lia).
    rewrite bool_decide_eq_false_2 by done. rewrite bool_decide_eq_false_2; [done|].
    rewrite <- !str_append_assoc, last_byte_app by done. by apply hex_last.
  - unfold validResourceID. destruct ("kubespray-" +:+ component +:+ "-" +:+ hash) as [|c s] eqn:E; [done|].
    injection E as <- _. cbn in Hall |- *. by apply andb_true_iff in Hall as [_ Hall].
  - exists reference, component. split_and!; [done|done|done|]. intros source' reference' H' E. rewrite E in H'. cbn [mbind option_bind] in H'. apply (inj Some) in H'.
    rewrite <- !str_append_assoc in H'. apply append_split in H' as [_ H']; [done|]. by rewrite H12, (proj1 (short_hash _)).
Qed.

(** ** Two images of one inventory *)

Module Sample.
#[local] Existing Instance MirrorClaims.Sample.names.
#[local] Existing Instance MirrorClaims.Sample.letters.
#[local] Existing Instance MirrorClaims.Sample.ranges.

Definition image (id target source : string) : Image :=
  {| ID := id; Family := "kubernetes"; Target := target; Scopes := ["kubespray"]; Runtime := true; Consumers := ["kubespray"];
     Discovery := "kubespray"; Compatibility := None;
     Default := {| DType := "mirror"; Source := source; Digest := MirrorClaims.Sample.digestA; BakeTarget := ""; Materials := [] |} |}.
Definition calico : Image := image "calico" "harbor.test/atum/kubespray/quay.io/calico/node:v3" "quay.io/calico/node:v3".
Definition pause : Image := image "pause" "harbor.test/atum/kubespray/registry.k8s.io/pause:3.10" "registry.k8s.io/pause:3.10".
Definition desired : Document :=
  {| Images := [pause; calico]; Inventories := [["pause"; "calico"]; ["calico"]]; Host := "harbor.test"; TLSVerify := true |}.
Definition produced : gmap string value := match KubesprayRegistryValues desired with Ok values => values | Err _ => ∅ end.

Lemma kubespray_registry_witness :
  exists repos, reached desired repos "calico" /\
    produced !! "quay_image_repo" = Some (VString "harbor.test/atum/kubespray/quay.io") /\
    produced !! "kubeadm_image_repo" = Some (VString "harbor.test/atum/kubespray/registry.k8s.io") /\
    produced !! "gcr_image_repo" = None.
Proof.
  assert (KubesprayRegistryValues desired = Ok produced) as H.
  { assert (is_ok (KubesprayRegistryValues desired) = true) as Hok by (vm_compute; reflexivity).
    unfold produced. by destruct (KubesprayRegistryValues desired). }
  destruct (proj1 (kubespray_registry desired) produced H) as (repos & _ & Hr & _). exists repos.
  split; [apply Hr, list_elem_of_In; right; left; reflexivity|]. split_and!; vm_compute; reflexivity.
Defined.

Lemma kubespray_image_id_witness :
  KubesprayImageID "quay.io/calico/Kube_Controllers--:v3" = Some "kubespray-kube-controllers-c5a217bc5663" /\
  validDNSLabel "kubespray-kube-controllers-c5a217bc5663" = true.
Proof.
  assert (KubesprayImageID "quay.io/calico/Kube_Controllers--:v3" = Some "kubespray-kube-controllers-c5a217bc5663") as H
    by (vm_compute; reflexivity).
  split; [exact H|]. exact (proj1 (kubespray_image_id _ _ H)).
Defined.
End Sample.
End KubesprayClaims.
