(* ===== verification/PlatformValues.v ===== *)
(** The values of the platform, [cli/config/platform_values.go]: three documents
    merged in place.  Maps and slices are objects of a heap, so that the sharing
    of one object by two values is visible. *)
From stdpp Require Import prelude gmap strings list sorting.
From Stdlib Require Import Ascii ZArith Lia.
From S2P Require Import Prelude GoStrings Treehash BakeGraph.

Module PlatformValues.
Import Treehash BakeGraph.

(** ** The heap

    [any]: a map or a slice by its address, anything else as it is; a program
    fails on an address without an object of the right kind, and when its fuel
    is used up. *)
Inductive value := Scalar (s : string) | MapRef (a : nat) | SliceRef (a : nat).
Inductive object := OMap (m : gmap string value) | OSlice (l : list value).
#[export] Instance value_eq_dec : EqDecision value.
Proof. solve_decision. Defined.
Abbreviation heap := (gmap nat object).
Definition null : value := Scalar "null".

Definition M (A : Type) : Type := heap -> option (A * heap).
#[export] Instance M_ret : MRet M := fun _ a h => Some (a, h).
#[export] Instance M_bind : MBind M := fun _ _ f m h => match m h with Some (a, h') => f a h' | None => None end.

Definition stuck {A} : M A := fun _ => None.
Definition alloc (o : object) : M nat := fun h => let a := fresh (dom h) in Some (a, <[a := o]> h).
Definition readMap (a : nat) : M (gmap string value) := fun h =>
  match h !! a with Some (OMap m) => Some (m, h) | _ => None end.
Definition readSlice (a : nat) : M (list value) := fun h =>
  match h !! a with Some (OSlice l) => Some (l, h) | _ => None end.

(** A position in an object, and an assignment to it *)
Inductive step := Key (k : string) | Index (i : nat).
#[export] Instance step_eq_dec : EqDecision step.
Proof. solve_decision. Defined.
Definition child (o : object) (st : step) : option value :=
  match o, st with OMap m, Key k => m !! k | OSlice l, Index i => l !! i | _, _ => None end.
Definition setChild (o : object) (st : step) (v : value) : object :=
  match o, st with OMap m, Key k => OMap (<[k := v]> m) | OSlice l, Index i => OSlice (<[i := v]> l) | _, _ => o end.
Definition store (a : nat) (st : step) (v : value) : M unit := fun h =>
  match h !! a with Some o => Some (tt, <[a := setChild o st v]> h) | None => None end.

Section Values.
Context {MR : MapRange}.

Definition entriesOf (name : string) (m : gmap string value) : list (step * value) :=
  (fun e => (Key e.1, e.2)) <$> range_ "values" name m.

(** ** Copies *)

(** [result[key] = clonePlatformValue(value)], over the entries of a map or a slice *)
Fixpoint fill (clone : value -> M value) (result : nat) (entries : list (step * value)) : M unit :=
  match entries with
  | [] => mret tt
  | (st, v) :: entries => v' ← clone v; store result st v';; fill clone result entries
  end.

Definition clonePlatformValues (clone : value -> M value) (source : nat) : M nat :=
  m ← readMap source;
  result ← alloc (OMap ∅);
  fill clone result (entriesOf (Itoa (Z.of_nat result)) m);;
  mret result.

Fixpoint clonePlatformValue (fuel : nat) (v : value) : M value :=
  match v, fuel with
  | Scalar _, _ => mret v
  | _, 0%nat => stuck
  | MapRef a, S fuel => result ← clonePlatformValues (clonePlatformValue fuel) a; mret (MapRef result)
  | SliceRef a, S fuel =>
      l ← readSlice a;
      result ← alloc (OSlice (replicate (length l) null));
      fill (clonePlatformValue fuel) result (imap (fun i v => (Index i, v)) l);;
      mret (SliceRef result)
  end.

(** ** The merge *)

Fixpoint mergeEntries (merge : nat -> nat -> M unit) (clone : value -> M value) (destination : nat)
    (entries : list (step * value)) : M unit :=
  match entries with
  | [] => mret tt
  | (st, v) :: entries =>
      o ← (fun h => match h !! destination with Some o => Some (o, h) | None => None end);
      match v, child o st with
      | MapRef sourceMap, Some (MapRef destinationMap) => merge destinationMap sourceMap
      | _, _ => v' ← clone v; store destination st v'
      end;;
      mergeEntries merge clone destination entries
  end.

Fixpoint mergePlatformValues (fuel : nat) (destination source : nat) : M unit :=
  match fuel with
  | 0%nat => stuck
  | S fuel =>
      m ← readMap source;
      mergeEntries (mergePlatformValues fuel) (clonePlatformValue fuel) destination
        (entriesOf (Itoa (Z.of_nat destination) +:+ "/" +:+ Itoa (Z.of_nat source)) m)
  end.

(** ** Collisions *)

Fixpoint collisionLoop (nested : nat -> nat -> list string -> M string) (generated profile : gmap string value)
    (prefix : list string) (keys : list string) : M string :=
  match keys with
  | [] => mret ""
  | key :: keys =>
      match generated !! key with
      | None => collisionLoop nested generated profile prefix keys
      | Some generatedValue =>
          let path := prefix ++ [key] in
          match default null (profile !! key), generatedValue with
          | MapRef profileMap, MapRef generatedMap =>
              g ← readMap generatedMap;
              p ← readMap profileMap;
              if (size g =? 0)%nat && negb (size p =? 0)%nat then mret (Join path ".")
              else
                collision ← nested generatedMap profileMap path;
                if negb (String.eqb collision "") then mret collision
                else collisionLoop nested generated profile prefix keys
          | _, _ => mret (Join path ".")
          end
      end
  end.

Fixpoint firstValueCollision (fuel : nat) (generated profile : nat) (prefix : list string) : M string :=
  match fuel with
  | 0%nat => stuck
  | S fuel =>
      g ← readMap generated;
      p ← readMap profile;
      collisionLoop (firstValueCollision fuel) g p prefix (SortStrings (map_to_list p).*1)
  end.

Inductive valueError :=
  | UpdaterOwned (path : string)
  | NoTarget (active : string)
  | NoProfile (profile : string)
  | LoadOperational (cause : string)
  | LoadGenerated (cause : string)
  | LoadProfile (profile cause : string)
  | MergeProfile (profile : string) (cause : valueError).

Definition MergePlatformValues (fuel : nat) (operational generated profile : nat) : M (result valueError nat) :=
  path ← firstValueCollision fuel generated profile [];
  if negb (String.eqb path "") then mret (Err (UpdaterOwned path))
  else
    merged ← clonePlatformValues (clonePlatformValue fuel) operational;
    mergePlatformValues fuel merged generated;;
    mergePlatformValues fuel merged profile;;
    mret (Ok merged).

(** ** The documents of the active target *)

(** Of a document its active target, the profile of every target, and the paths
    of the values documents *)
Record Document := {
  Active : string; Targets : gmap string string; Operational : string; Generated : string; Profiles : gmap string string
}.
Definition ActiveTarget (d : Document) : option string := Targets d !! Active d.
Definition ActiveProfileValuesPath (d : Document) : option string := target ← ActiveTarget d; Profiles d !! target.

Record ResolvedPlatformValues := {
  ProfileName : string; ProfilePath : string; ROperational : nat; RGenerated : nat; RProfile : nat; Merged : nat
}.

(** [load] puts a decoded document on the heap, or fails with a text *)
Definition ResolvePlatformValues (fuel : nat) (d : Document) (load : string -> M (result string nat)) :
  M (result valueError ResolvedPlatformValues) :=
  match ActiveTarget d with
  | None => mret (Err (NoTarget (Active d)))
  | Some profile =>
      match Profiles d !! profile with
      | None => mret (Err (NoProfile profile))
      | Some profilePath =>
          r ← load (Operational d);
          match r with
          | Err e => mret (Err (LoadOperational e))
          | Ok operational =>
              r ← load (Generated d);
              match r with
              | Err e => mret (Err (LoadGenerated e))
              | Ok generated =>
                  r ← load profilePath;
                  match r with
                  | Err e => mret (Err (LoadProfile profile e))
                  | Ok values =>
                      r ← MergePlatformValues fuel operational generated values;
                      match r with
                      | Err e => mret (Err (MergeProfile profile e))
                      | Ok merged =>
                          mret (Ok {| ProfileName := profile; ProfilePath := profilePath; ROperational := operational;
                                      RGenerated := generated; RProfile := values; Merged := merged |})
                      end
                  end
              end
          end
      end
  end.
End Values.
End PlatformValues.
