(* ===== verification/ValuesHeap.v ===== *)
(** The logic of the heap of [PlatformValues]: what is found along a path, which
    objects a value reaches, and copies. *)
From stdpp Require Import prelude gmap strings list sorting.
From Stdlib Require Import Ascii ZArith Lia.
From S2P Require Import Prelude GoStrings Treehash BakeGraph PlatformValues.

Module ValuesHeap.
Import Treehash BakeGraph PlatformValues.

(** ** Paths *)

Definition addr (v : value) : option nat := match v with Scalar _ => None | MapRef a | SliceRef a => Some a end.
Definition obj (h : heap) (v : value) : option object := a ← addr v; h !! a.

Fixpoint resolve (h : heap) (v : value) (p : list step) : option value :=
  match p with
  | [] => Some v
  | st :: p => o ← obj h v; c ← child o st; resolve h c p
  end.

(** What is seen at the end of a path: a scalar, the keys of a map, the length of a slice *)
Inductive node := NScalar (s : string) | NMap (keys : gset string) | NSlice (n : nat).
Definition nodeOf (h : heap) (v : value) : option node :=
  match v with
  | Scalar s => Some (NScalar s)
  | MapRef a => match h !! a with Some (OMap m) => Some (NMap (dom m)) | _ => None end
  | SliceRef a => match h !! a with Some (OSlice l) => Some (NSlice (length l)) | _ => None end
  end.
Definition look (h : heap) (v : value) (p : list step) : option node := u ← resolve h v p; nodeOf h u.

Definition reach (h : heap) (v : value) (a : nat) : Prop := exists p u, resolve h v p = Some u /\ addr u = Some a.

(** No object is reached by two paths. *)
Definition tree (h : heap) (v : value) : Prop := forall p q u w a,
  resolve h v p = Some u -> resolve h v q = Some w -> addr u = Some a -> addr w = Some a -> p = q.

(** Every path ends within [n] steps and no address is without its object. *)
Fixpoint wf (n : nat) (h : heap) (v : value) : Prop :=
  match v, n with
  | Scalar _, _ => True
  | _, 0%nat => False
  | MapRef a, S n => exists m, h !! a = Some (OMap m) /\ forall k c, m !! k = Some c -> wf n h c
  | SliceRef a, S n => exists l, h !! a = Some (OSlice l) /\ forall i c, l !! i = Some c -> wf n h c
  end.

Lemma reach_self h v a : addr v = Some a -> reach h v a.
Proof. intros H. by exists [], v. Qed.

Lemma reach_child h v o st c a : obj h v = Some o -> child o st = Some c -> reach h c a -> reach h v a.
Proof. intros Ho Hc (p & u & Hp & Hu). exists (st :: p), u. cbn. rewrite Ho. cbn. by rewrite Hc. Qed.

Lemma reach_inv h v a : reach h v a ->
  addr v = Some a \/ exists o st c, obj h v = Some o /\ child o st = Some c /\ reach h c a.
Proof.
  intros ([|st p] & u & Hp & Hu); cbn in Hp; [injection Hp as ->; by left|]. right.
  destruct (obj h v) as [o|] eqn:Ho; [|done]. cbn in Hp. destruct (child o st) as [c|] eqn:Hc; [|done].
  exists o, st, c. split_and!; [done|done|]. by exists p, u.
Qed.

Lemma obj_reach h v o : obj h v = Some o -> exists a, addr v = Some a /\ h !! a = Some o.
Proof. unfold obj. destruct (addr v); [eauto|done]. Qed.

(** A value does not change with objects it does not reach. *)
Lemma resolve_frame h h' v p : (forall a, reach h v a -> h' !! a = h !! a) -> resolve h' v p = resolve h v p.
Proof.
  revert v. induction p as [|st p IH]; intros v Hr; [done|]. cbn.
  assert (obj h' v = obj h v) as ->.
  { unfold obj. destruct (addr v) as [a|] eqn:E; [|done]. cbn. by apply Hr, reach_self. }
  destruct (obj h v) as [o|] eqn:Ho; [|done]. cbn. destruct (child o st) as [c|] eqn:Hc; [|done]. cbn.
  apply IH. intros a Ha. apply Hr. by eapply reach_child.
Qed.

Lemma reach_resolve h v p u : resolve h v p = Some u -> forall a, reach h u a -> reach h v a.
Proof.
  revert v. induction p as [|st p IH]; intros v Hp; cbn in Hp; [by injection Hp as ->|].
  destruct (obj h v) as [o|] eqn:Ho; [|done]. cbn in Hp. destruct (child o st) as [c|] eqn:Hc; [|done].
  intros a Ha. eapply reach_child; eauto.
Qed.

Lemma node_frame h h' v : (forall a, addr v = Some a -> h' !! a = h !! a) -> nodeOf h' v = nodeOf h v.
Proof. destruct v as [|a|a]; cbn; [done|intros H; by rewrite (H a eq_refl)..]. Qed.

Lemma look_frame h h' v p : (forall a, reach h v a -> h' !! a = h !! a) -> look h' v p = look h v p.
Proof.
  intros Hr. unfold look. rewrite (resolve_frame h h') by done. destruct (resolve h v p) as [u|] eqn:E; [|done]. cbn.
  apply node_frame. intros a Ha. apply Hr. by exists p, u.
Qed.

Lemma reach_frame h h' v a : (forall a, reach h v a -> h' !! a = h !! a) -> reach h' v a <-> reach h v a.
Proof. intros Hr. unfold reach. by setoid_rewrite (resolve_frame h h' v). Qed.

Lemma tree_frame h h' v : (forall a, reach h v a -> h' !! a = h !! a) -> tree h v -> tree h' v.
Proof. intros Hr Ht p q u w a. rewrite !(resolve_frame h h') by done. apply Ht. Qed.

Lemma wf_frame n h h' v : (forall a, reach h v a -> h' !! a = h !! a) -> wf n h v -> wf n h' v.
Proof.
  revert v. induction n as [|n IH]; intros [s|a|a] Hr; cbn; try done.
  - intros (m & Hm & Hc). exists m. rewrite Hr by by apply reach_self. split; [done|]. intros k c Hk. apply IH; [|eauto].
    intros b Hb. apply Hr. by apply (reach_child _ _ (OMap m) (Key k) c).
  - intros (m & Hm & Hc). exists m. rewrite Hr by by apply reach_self. split; [done|]. intros k c Hk. apply IH; [|eauto].
    intros b Hb. apply Hr. by apply (reach_child _ _ (OSlice m) (Index k) c).
Qed.

Lemma wf_le n n' h v : (n <= n')%nat -> wf n h v -> wf n' h v.
Proof.
  revert n' v. induction n as [|n IH]; intros n' [s|a|a] Hle; destruct n' as [|n']; cbn; try done; try lia.
  all: intros (m & Hm & Hc); exists m; split; [done|]; intros k c Hk; apply (IH n'); [lia|eauto].
Qed.

(** A well-formed value reaches allocated objects only, and its children are well formed. *)
Lemma wf_child n h v o st c : wf (S n) h v -> obj h v = Some o -> child o st = Some c -> wf n h c.
Proof.
  destruct v as [s|a|a]; cbn; [done|..]; intros (m & Hm & Hc) Ho; unfold obj in Ho; cbn in Ho; rewrite Hm in Ho;
    injection Ho as <-; destruct st; cbn; try done; eauto.
Qed.

Lemma wf_reach n h v a : wf n h v -> reach h v a -> a ∈ dom h.
Proof.
  revert v. induction n as [|n IH]; intros v Hw Hr; apply reach_inv in Hr as [Ha|(o & st & c & Ho & Hc & Hr)].
  - by destruct v.
  - by destruct v.
  - destruct v as [|b|b]; [done|..]; cbn in Ha; injection Ha as ->; destruct Hw as (m & Hm & _); apply elem_of_dom; eauto.
  - eapply IH; [by eapply wf_child|done].
Qed.

Lemma sub_frame n h h' v : h ⊆ h' -> wf n h v -> forall a, reach h v a -> h' !! a = h !! a.
Proof.
  intros Hs Hw a Ha. apply (wf_reach n) in Ha; [|done]. apply elem_of_dom in Ha as [o Ho]. rewrite Ho.
  by eapply lookup_weaken.
Qed.

(** ** Trees by their children *)

Lemma tree_child h v o st c : tree h v -> obj h v = Some o -> child o st = Some c -> tree h c.
Proof.
  intros Ht Ho Hc p q u w a Hp Hq Hu Hw.
  assert (st :: p = st :: q) as E by (eapply Ht; [cbn; rewrite Ho; cbn; rewrite Hc; exact Hp|cbn; rewrite Ho; cbn; rewrite Hc; exact Hq|done..]).
  by injection E.
Qed.

Lemma tree_disjoint h v o st st' c c' a : tree h v -> obj h v = Some o -> child o st = Some c -> child o st' = Some c' ->
  reach h c a -> reach h c' a -> st = st'.
Proof.
  intros Ht Ho Hc Hc' (p & u & Hp & Hu) (q & w & Hq & Hw).
  assert (st :: p = st' :: q) as E by (eapply Ht; [cbn; rewrite Ho; cbn; rewrite Hc; exact Hp|cbn; rewrite Ho; cbn; rewrite Hc'; exact Hq|done..]).
  by injection E.
Qed.

Lemma tree_root h v o st c a : tree h v -> obj h v = Some o -> child o st = Some c -> addr v = Some a -> ~ reach h c a.
Proof.
  intros Ht Ho Hc Ha (p & u & Hp & Hu).
  assert ([] = st :: p) as E by (eapply Ht; [reflexivity|cbn; rewrite Ho; cbn; rewrite Hc; exact Hp|done..]). done.
Qed.

Lemma tree_intro h v o : obj h v = Some o ->
  (forall st c, child o st = Some c -> tree h c /\ forall a, addr v = Some a -> ~ reach h c a) ->
  (forall st st' c c' a, child o st = Some c -> child o st' = Some c' -> reach h c a -> reach h c' a -> st = st') ->
  tree h v.
Proof.
  intros Ho Hc Hd [|st p] [|st' q] u w a; cbn; rewrite ?Ho; cbn.
  - done.
  - intros [= <-] Hq Hu Hw. exfalso. destruct (child o st') as [c|] eqn:E; [|done]. apply (Hc _ _ E) in Hu. apply Hu. by exists q, w.
  - intros Hp [= <-] Hu Hw. exfalso. destruct (child o st) as [c|] eqn:E; [|done]. apply (Hc _ _ E) in Hw. apply Hw. by exists p, u.
  - destruct (child o st) as [c|] eqn:E; [|done]. destruct (child o st') as [c'|] eqn:E'; [|done]. cbn. intros Hp Hq Hu Hw.
    assert (st = st') as <- by (eapply Hd; [done..|by exists p, u|by exists q, w]). rewrite E in E'. injection E' as <-.
    f_equal. destruct (Hc _ _ E) as [Ht _]. by eapply Ht.
Qed.

Lemma look_child h v o st p : obj h v = Some o -> look h v (st :: p) = c ← child o st; look h c p.
Proof. intros Ho. unfold look. cbn. rewrite Ho. cbn. by destruct (child o st). Qed.

(** ** Assignments *)

Definition settable (o : object) (st : step) : Prop :=
  match o, st with OMap _, Key _ => True | OSlice l, Index i => (i < length l)%nat | _, _ => False end.

Lemma child_set o st v : settable o st -> child (setChild o st v) st = Some v.
Proof. destruct o, st; cbn; [intros _; apply lookup_insert_eq|done|done|]. intros H. by apply list_lookup_insert_eq. Qed.
Lemma child_set_ne o st st' v : st <> st' -> child (setChild o st v) st' = child o st'.
Proof.
  destruct o, st, st'; cbn; try done; intros H; [apply lookup_insert_ne|apply list_lookup_insert_ne]; congruence.
Qed.
Lemma settable_set o st st' v : settable (setChild o st v) st' <-> settable o st'.
Proof. destruct o, st, st'; cbn; try done. by rewrite length_insert. Qed.

(** ** Copies *)

(** [v'] of [h'] is a copy of [v] of [h] made of new objects only. *)
Record copied (n : nat) (h : heap) (v : value) (h' : heap) (v' : value) : Prop := {
  copied_sub : h ⊆ h';
  copied_fresh a : reach h' v' a -> a ∉ dom h;
  copied_tree : tree h' v';
  copied_wf : wf n h' v';
  copied_look p : look h' v' p = look h v p
}.

Lemma bind_Some {A B} (m : M A) (f : A -> M B) h a h' : m h = Some (a, h') -> (m ≫= f) h = f a h'.
Proof. intros H. unfold mbind, M_bind. by rewrite H. Qed.

Lemma store_ok h a o st v : h !! a = Some o -> store a st v h = Some (tt, <[a := setChild o st v]> h).
Proof. unfold store. by intros ->. Qed.

Section Clone.
Context {MR : MapRange}.
Context (n : nat) (clone : value -> M value).
Hypothesis Hclone : forall h v, wf n h v -> exists v' h', clone v h = Some (v', h') /\ copied n h v h' v'.

(** An entry whose copy is in place *)
Record placed (h0 h : heap) (r : nat) (v c : value) : Prop := {
  placed_fresh a : reach h c a -> (a ∉ dom h0) /\ a <> r;
  placed_tree : tree h c;
  placed_wf : wf n h c;
  placed_look p : look h c p = look h0 v p
}.

Lemma placed_frame h0 h h' r v c : placed h0 h r v c -> (forall a, reach h c a -> h' !! a = h !! a) -> placed h0 h' r v c.
Proof.
  intros [H1 H2 H3 H4] Hf. split.
  - intros a. rewrite (reach_frame h h') by done. apply H1.
  - by eapply tree_frame.
  - by eapply wf_frame.
  - intros p. by rewrite (look_frame h h').
Qed.

(** The loop: the copies of the entries so far, and the object as it was elsewhere. *)
Lemma fill_ok h0 h r o o0 done entries :
  h0 ⊆ h -> r ∉ dom h0 -> h !! r = Some o -> NoDup (done ++ entries).*1 ->
  Forall (fun e => settable o e.1 /\ wf n h0 e.2) entries ->
  (forall st v, (st, v) ∈ done -> exists c, child o st = Some c /\ placed h0 h r v c) ->
  (forall st, st ∉ done.*1 -> child o st = child o0 st) ->
  (forall st st' c c' a, st ∈ done.*1 -> st' ∈ done.*1 -> child o st = Some c -> child o st' = Some c' ->
     reach h c a -> reach h c' a -> st = st') ->
  exists h' o', fill clone r entries h = Some (tt, h') /\ h0 ⊆ h' /\ h' !! r = Some o' /\
    (forall st v, (st, v) ∈ done ++ entries -> exists c, child o' st = Some c /\ placed h0 h' r v c) /\
    (forall st, st ∉ (done ++ entries).*1 -> child o' st = child o0 st) /\
    (forall st st' c c' a, st ∈ (done ++ entries).*1 -> st' ∈ (done ++ entries).*1 -> child o' st = Some c ->
       child o' st' = Some c' -> reach h' c a -> reach h' c' a -> st = st') /\
    (forall st, settable o' st <-> settable o st).
Proof.
  revert h o done. induction entries as [|[st v] entries IH]; intros h o done Hsub Hr Ho Hnd Hall Hdone Hother Hdis; cbn [fill].
  { exists h, o. rewrite !app_nil_r. split_and!; done. }
  inversion Hall as [|? ? [Hset Hwf] Hall']; subst. cbn [fst snd] in *.
  destruct (Hclone h v) as (c & h1 & Hc & Hcopy).
  { eapply wf_frame; [|exact Hwf]. by eapply sub_frame. }
  erewrite bind_Some by exact Hc. pose proof (copied_sub _ _ _ _ _ Hcopy) as Hsub1.
  assert (h1 !! r = Some o) as Ho1 by by eapply lookup_weaken.
  erewrite bind_Some by by apply store_ok.
  set (o' := setChild o st c). set (h2 := <[r := o']> h1).
  assert (Hst : st ∉ done.*1).
  { rewrite fmap_app, NoDup_app in Hnd. destruct Hnd as (_ & Hnd & _). intros Hin. apply (Hnd st Hin). by left. }
  assert (Hold : forall st' v' c', (st', v') ∈ done -> child o st' = Some c' -> forall a, reach h c' a -> h2 !! a = h !! a).
  { intros st' v' c' Hin Hc' a Ha. destruct (Hdone st' v' Hin) as (c'' & E & Hp). rewrite E in Hc'. injection Hc' as ->.
    destruct (placed_fresh _ _ _ _ _ Hp a Ha) as [_ Hne]. unfold h2. rewrite lookup_insert_ne by done.
    eapply sub_frame; [exact Hsub1|exact (placed_wf _ _ _ _ _ Hp)|done]. }
  assert (Hnew : forall a, reach h1 c a -> h2 !! a = h1 !! a).
  { intros a Ha. unfold h2. rewrite lookup_insert_ne; [done|]. intros <-. apply (copied_fresh _ _ _ _ _ Hcopy r Ha).
    apply elem_of_dom. eauto. }
  assert (Hplaced : placed h0 h2 r v c).
  { eapply (placed_frame _ h1); [|exact Hnew]. split.
    - intros a Ha. apply (copied_fresh _ _ _ _ _ Hcopy) in Ha. split; [intros Hin; apply Ha|intros ->; apply Ha, elem_of_dom; eauto].
      by apply (subseteq_dom h0).
    - by eapply copied_tree.
    - by eapply copied_wf.
    - intros p. rewrite (copied_look _ _ _ _ _ Hcopy). apply look_frame. by eapply sub_frame. }
  assert (Helem : forall st', st' ∈ done.*1 -> exists v' c', (st', v') ∈ done /\ child o st' = Some c' /\ placed h0 h r v' c').
  { intros st' ([st'' v'] & -> & Hin)%list_elem_of_fmap. destruct (Hdone _ _ Hin) as (c' & H1 & H2). cbn. eauto. }
  destruct (IH h2 o' (done ++ [(st, v)])) as (h' & o'' & H1 & H2 & H3 & H4 & H5 & H6 & H7).
  - unfold h2. apply insert_subseteq_r; [by apply not_elem_of_dom|]. by etransitivity.
  - done.
  - apply lookup_insert_eq.
  - by rewrite <- (assoc_L (++)).
  - eapply Forall_impl; [exact Hall'|]. intros e [He1 He2]. split; [by apply settable_set|done].
  - intros st' v' [Hin|Hin%list_elem_of_singleton]%elem_of_app.
    + destruct (Hdone _ _ Hin) as (c' & E & Hp). exists c'.
      assert (st' ∈ done.*1) as Hin' by by apply (list_elem_of_fmap_2 fst _ _ Hin).
      split; [unfold o'; rewrite child_set_ne; [done|by intros ->]|]. eapply placed_frame; [exact Hp|]. by eapply Hold.
    + injection Hin as -> ->. exists c. split; [by apply child_set|done].
  - intros st' Hst'. unfold o'. rewrite child_set_ne; [apply Hother|]; intros Hin; apply Hst'; rewrite fmap_app; set_solver.
  - assert (Hcross : forall st' c' a, st' ∈ done.*1 -> child o' st' = Some c' -> reach h2 c' a -> reach h2 c a -> False).
    { intros st' c' a Hin Hc' Ha Ha'. unfold o' in Hc'. rewrite child_set_ne in Hc' by (intros ->; done).
      destruct (Helem st' Hin) as (v' & c'' & Hin' & E & Hp). rewrite E in Hc'. injection Hc' as ->.
      rewrite (reach_frame h h2) in Ha by by eapply Hold. rewrite (reach_frame h1 h2) in Ha' by done.
      apply (copied_fresh _ _ _ _ _ Hcopy _ Ha'). eapply wf_reach; [exact (placed_wf _ _ _ _ _ Hp)|done]. }
    rewrite fmap_app. intros s1 s2 c1 c2 a [Hs1|Hs1%list_elem_of_singleton]%elem_of_app
      [Hs2|Hs2%list_elem_of_singleton]%elem_of_app E1 E2 R1 R2; cbn in *; subst; try done.
    + destruct (Helem s1 Hs1) as (v1 & d1 & Hi1 & D1 & P1), (Helem s2 Hs2) as (v2 & d2 & Hi2 & D2 & P2).
      unfold o' in E1, E2. rewrite child_set_ne in E1, E2 by (intros ->; done). rewrite D1 in E1. rewrite D2 in E2. simplify_eq.
      rewrite (reach_frame h h2) in R1 by exact (Hold s1 v1 _ Hi1 D1).
      rewrite (reach_frame h h2) in R2 by exact (Hold s2 v2 _ Hi2 D2). by eapply (Hdis s1 s2).
    + unfold o' in E2. rewrite child_set in E2 by done. injection E2 as <-. destruct (Hcross s1 c1 a); done.
    + unfold o' in E1. rewrite child_set in E1 by done. injection E1 as <-. destruct (Hcross s2 c2 a); done.
  - rewrite <- (assoc_L (++)) in H4, H5, H6. exists h', o''. split_and!; try done. intros s. rewrite H7. apply settable_set.
Qed.

(** A new object whose positions hold copies of those of the object of [v]. *)
Lemma copy_object h0 v ov ref r entries h' o' :
  obj h0 v = Some ov -> addr ref = Some r -> h0 ⊆ h' -> r ∉ dom h0 -> h' !! r = Some o' ->
  (forall st c, (st, c) ∈ entries <-> child ov st = Some c) ->
  (forall st v, (st, v) ∈ entries -> exists c, child o' st = Some c /\ placed h0 h' r v c) ->
  (forall st, st ∉ entries.*1 -> child o' st = None) ->
  (forall st st' c c' a, st ∈ entries.*1 -> st' ∈ entries.*1 -> child o' st = Some c -> child o' st' = Some c' ->
     reach h' c a -> reach h' c' a -> st = st') ->
  nodeOf h' ref = nodeOf h0 v -> wf (S n) h' ref -> copied (S n) h0 v h' ref.
Proof.
  intros Hov Hr Hsub Hfresh Ho' Hent Hplaced Hnone Hdis Hnode Hwf.
  assert (Hobj : obj h' ref = Some o') by (unfold obj; by rewrite Hr).
  assert (Hback : forall st c, child o' st = Some c -> st ∈ entries.*1 /\ exists u, child ov st = Some u /\ placed h0 h' r u c).
  { intros st c Hc. destruct (decide (st ∈ entries.*1)) as [Hin|Hout]; [|by rewrite Hnone in Hc]. split; [done|].
    apply list_elem_of_fmap in Hin as ([st' u] & -> & Hin). cbn in *. exists u. split; [by apply Hent|].
    destruct (Hplaced _ _ Hin) as (c' & E & Hp). rewrite E in Hc. by injection Hc as ->. }
  split.
  - done.
  - intros a [Ha|(o & st & c & Ho & Hc & Ha)]%reach_inv; [rewrite Hr in Ha; by injection Ha as <-|].
    rewrite Hobj in Ho. injection Ho as <-. destruct (Hback _ _ Hc) as (_ & u & _ & Hp). by apply (placed_fresh _ _ _ _ _ Hp).
  - apply (tree_intro _ _ o'); [done| |].
    + intros st c Hc. destruct (Hback _ _ Hc) as (_ & u & _ & Hp). split; [by apply (placed_tree _ _ _ _ _ Hp)|].
      intros a Ha Hin. rewrite Hr in Ha. injection Ha as <-. by destruct (placed_fresh _ _ _ _ _ Hp _ Hin).
    + intros st st' c c' a Hc Hc'. apply Hdis; [by apply (Hback _ c)|by apply (Hback _ c')|done..].
  - done.
  - intros [|st p]; [done|]. rewrite (look_child h' _ o'), (look_child h0 _ ov) by done.
    destruct (child o' st) as [c|] eqn:Hc.
    + destruct (Hback _ _ Hc) as (_ & u & -> & Hp). cbn. apply (placed_look _ _ _ _ _ Hp).
    + destruct (child ov st) as [u|] eqn:Hu; [|done]. apply Hent, Hplaced in Hu as (c & E & _). by rewrite E in Hc.
Qed.

Lemma entriesOf_elem name m st c : (st, c) ∈ entriesOf name m <-> child (OMap m) st = Some c.
Proof.
  unfold entriesOf. rewrite list_elem_of_fmap. setoid_rewrite range_perm. destruct st as [k|i]; cbn; split.
  - intros ([k' v] & [= -> ->] & H). by apply elem_of_map_to_list.
  - intros H. exists (k, c). split; [done|]. by apply elem_of_map_to_list.
  - intros ([k' v] & [=] & _).
  - done.
Qed.

Lemma entriesOf_NoDup name m : NoDup (entriesOf name m).*1.
Proof.
  unfold entriesOf. rewrite <- list_fmap_compose.
  assert (NoDup (range_ "values" name m).*1) as H by (rewrite range_perm; apply NoDup_fst_map_to_list).
  change (NoDup (Key ∘ fst <$> range_ "values" name m)). rewrite list_fmap_compose. apply NoDup_fmap_2; [|done]. by intros k k' [=].
Qed.

Lemma alloc_ok h o : exists r, alloc o h = Some (r, <[r := o]> h) /\ r ∉ dom h.
Proof. eexists. split; [reflexivity|]. apply is_fresh. Qed.

Lemma alloc_sub (h : heap) r o : r ∉ dom h -> h ⊆ <[r := o]> h.
Proof. intros H. apply insert_subseteq. by apply not_elem_of_dom. Qed.

Lemma clonePlatformValues_ok h a : wf (S n) h (MapRef a) ->
  exists r h', clonePlatformValues clone a h = Some (r, h') /\ copied (S n) h (MapRef a) h' (MapRef r).
Proof.
  intros (m & Hm & Hc). unfold clonePlatformValues.
  erewrite bind_Some by (unfold readMap; by rewrite Hm).
  destruct (alloc_ok h (OMap ∅)) as (r & Hal & Hr). erewrite bind_Some by exact Hal.
  set (entries := entriesOf (Itoa (Z.of_nat r)) m).
  destruct (fill_ok h (<[r := OMap ∅]> h) r (OMap ∅) (OMap ∅) [] entries) as (h' & o' & H1 & H2 & H3 & H4 & H5 & H6 & H7); try done.
  - by apply alloc_sub.
  - apply lookup_insert_eq.
  - apply entriesOf_NoDup.
  - apply Forall_forall. intros [st c] Hin%entriesOf_elem. destruct st as [k|]; [|done]. split; [done|]. eauto.
  - intros st v Hin. by apply not_elem_of_nil in Hin.
  - intros st st' c c' b Hin. by apply not_elem_of_nil in Hin.
  - cbn [app] in *. erewrite bind_Some by exact H1. exists r, h'. split; [done|].
    assert (exists m', o' = OMap m') as [m' ->].
    { destruct o' as [m'|l]; [by exists m'|]. by destruct (proj2 (H7 (Key "")) I). }
    assert (Hdom : dom m' = dom m).
    { apply set_eq. intros k. rewrite !elem_of_dom. split.
      - intros [c Hk]. destruct (decide (Key k ∈ entries.*1)) as [Hin|Hout]; [|specialize (H5 _ Hout); cbn in H5; by rewrite Hk in H5].
        apply list_elem_of_fmap in Hin as ([st v] & E & Hin%entriesOf_elem). cbn in E. subst st. eauto.
      - intros [c Hk]. destruct (H4 (Key k) c) as (c' & E & _); [by apply entriesOf_elem|]. eauto. }
    eapply (copy_object h (MapRef a) (OMap m) (MapRef r)); try done.
    + intros st c. apply entriesOf_elem.
    + intros st Hst. rewrite H5 by done. by destruct st.
    + cbn. by rewrite H3, Hm, Hdom.
    + exists m'. split; [done|]. intros k c Hk.
      assert (k ∈ dom m) as [v Hv]%elem_of_dom by (rewrite <- Hdom; apply elem_of_dom; eauto).
      destruct (H4 (Key k) v) as (c' & E & Hp); [by apply entriesOf_elem|]. cbn in E. rewrite Hk in E. injection E as ->.
      by apply (placed_wf _ _ _ _ _ Hp).
Qed.
End Clone.

Lemma imap_entries_elem (l : list value) st c :
  (st, c) ∈ imap (fun i v => (Index i, v)) l <-> child (OSlice l) st = Some c.
Proof.
  rewrite list_elem_of_lookup. setoid_rewrite list_lookup_imap. split.
  - intros [i Hi]. destruct (l !! i) as [v|] eqn:E; [|done]. cbn in Hi. injection Hi as <- <-. done.
  - destruct st as [k|i]; [done|]. cbn. intros E. exists i. by rewrite E.
Qed.

Lemma imap_entries_NoDup (l : list value) : NoDup (imap (fun i v => (Index i, v)) l).*1.
Proof.
  apply NoDup_alt. intros i j st. rewrite !list_lookup_fmap, !list_lookup_imap.
  destruct (l !! i), (l !! j); cbn; try done. intros [= <-] [= ->]. done.
Qed.

Lemma clonePlatformValue_ok {MR : MapRange} n h v : wf n h v ->
  exists v' h', clonePlatformValue n v h = Some (v', h') /\ copied n h v h' v'.
Proof.
  revert h v. induction n as [|n IH]; intros h [s|a|a] Hw; try done.
  1,2: exists (Scalar s), h; (split; [done|]); split; [done| | |done|done];
    [intros a [[=]|(o & st & c & [=] & _)]%reach_inv
    |intros [|st p] [|st' q] u w a; cbn; intros; simplify_eq; done].
  - cbn [clonePlatformValue]. destruct (clonePlatformValues_ok n (clonePlatformValue n) IH h a Hw) as (r & h' & H1 & H2).
    erewrite bind_Some by exact H1. by exists (MapRef r), h'.
  - destruct Hw as (l & Hl & Hc). cbn [clonePlatformValue]. erewrite bind_Some by (unfold readSlice; by rewrite Hl).
    set (o0 := OSlice (replicate (length l) null)). destruct (alloc_ok h o0) as (r & Hal & Hr). erewrite bind_Some by exact Hal.
    set (entries := imap (fun i v => (Index i, v)) l).
    destruct (fill_ok n (clonePlatformValue n) IH h (<[r := o0]> h) r o0 o0 [] entries)
      as (h' & o' & H1 & H2 & H3 & H4 & H5 & H6 & H7); try done.
    + by apply alloc_sub.
    + apply lookup_insert_eq.
    + apply imap_entries_NoDup.
    + apply Forall_forall. intros [st c] Hin%imap_entries_elem. destruct st as [|i]; [done|]. cbn in Hin |- *.
      rewrite length_replicate. split; [by eapply lookup_lt_Some|eauto].
    + intros st v Hin. by apply not_elem_of_nil in Hin.
    + intros st st' c c' b Hin. by apply not_elem_of_nil in Hin.
    + cbn [app] in *. erewrite bind_Some by exact H1. exists (SliceRef r), h'. split; [done|].
      assert (exists l', o' = OSlice l' /\ length l' = length l) as (l' & -> & Hlen).
      { destruct o' as [m'|l']; [by destruct (proj1 (H7 (Key "")) I)|]. exists l'. split; [done|].
        assert (forall i, (i < length l')%nat <-> (i < length l)%nat) as Hi.
        { intros i. specialize (H7 (Index i)). cbn in H7. by rewrite length_replicate in H7. }
        destruct (lt_eq_lt_dec (length l') (length l)) as [[H|H]|H]; [apply Hi in H; lia|done|apply Hi in H; lia]. }
      assert (Hback : forall i c, l' !! i = Some c -> exists v, l !! i = Some v /\ placed n h h' r v c).
      { intros i c Hi. destruct (lookup_lt_is_Some_2 l i) as [v Hv]; [rewrite <- Hlen; by eapply lookup_lt_Some|].
        exists v. split; [done|]. destruct (H4 (Index i) v) as (c' & E & Hp); [by apply imap_entries_elem|].
        cbn in E. rewrite Hi in E. by injection E as ->. }
      eapply (copy_object n h (SliceRef a) (OSlice l) (SliceRef r)); try done.
      * intros st c. apply imap_entries_elem.
      * intros [k|i] Hst; [done|]. cbn. destruct (l' !! i) as [c|] eqn:E; [|done]. destruct (Hback _ _ E) as (v & Hv & _).
        destruct Hst. apply (list_elem_of_fmap_2 fst _ (Index i, v)). by apply imap_entries_elem.
      * cbn. by rewrite H3, Hl, Hlen.
      * exists l'. split; [done|]. intros i c Hi. destruct (Hback _ _ Hi) as (v & _ & Hp). by apply (placed_wf _ _ _ _ _ _ Hp).
Qed.
End ValuesHeap.
