(* ===== verification/ValuesMerge.v ===== *)
(** The merge of [PlatformValues] against its definition by paths. *)
From stdpp Require Import prelude gmap strings list sorting.
From Stdlib Require Import Ascii ZArith Lia.
From S2P Require Import Prelude GoStrings Treehash BakeGraph PlatformValues ValuesHeap.

Module ValuesMerge.
Import Treehash BakeGraph PlatformValues ValuesHeap.

(** ** The definition: where both have a map their entries are merged, elsewhere
    the source wins, and what it does not mention stays *)

Definition view := list step -> option node.
Definition under (f : view) (st : step) : view := fun p => f (st :: p).
Definition isMap (n : option node) : bool := match n with Some (NMap _) => true | _ => false end.

Fixpoint mergeAt (p : list step) (f g : view) : option node :=
  match p with
  | [] => match f [], g [] with Some (NMap ks), Some (NMap ks') => Some (NMap (ks ∪ ks')) | n, _ => n end
  | st :: p =>
      if isMap (g [st]) && isMap (f [st]) then mergeAt p (under f st) (under g st)
      else match g [st] with Some _ => g (st :: p) | None => f (st :: p) end
  end.

Lemma mergeAt_ext p f f' g g' : (forall q, f q = f' q) -> (forall q, g q = g' q) -> mergeAt p f g = mergeAt p f' g'.
Proof.
  revert f f' g g'. induction p as [|st p IH]; intros f f' g g' Hf Hg; cbn; rewrite !Hf, !Hg; [done|].
  destruct (isMap (g' [st]) && isMap (f' [st])); [apply IH; intros q; unfold under; by rewrite ?Hf, ?Hg|done].
Qed.

Lemma look_nil h v : look h v [] = nodeOf h v.
Proof. done. Qed.

Lemma look_key h d dm k p : h !! d = Some (OMap dm) -> look h (MapRef d) (Key k :: p) = c ← dm !! k; look h c p.
Proof. intros H. by rewrite (look_child _ _ (OMap dm)). Qed.

Lemma isMap_wf n h v : wf n h v -> isMap (nodeOf h v) = match v with MapRef _ => true | _ => false end.
Proof. destruct v as [s|a|a], n; cbn; try done; intros (m & -> & _); done. Qed.

Lemma node_wf n h v : wf n h v -> is_Some (nodeOf h v).
Proof. destruct v as [s|a|a], n; cbn; try done; intros (m & -> & _); eauto. Qed.

(** ** One entry *)

(** From [h] to [h'] only the entry [k] of the map [d] has changed, to [c]; what it
    now reaches was below the entry before, or is new. *)
Record entrySet (N : nat) (h : heap) (d : nat) (dm : gmap string value) (k : string) (c : value) (h' : heap) : Prop := {
  es_dom : dom h ⊆ dom h';
  es_map : h' !! d = Some (OMap (<[k := c]> dm));
  es_frame a : a ∈ dom h -> a <> d -> (forall u, dm !! k = Some u -> ~ reach h u a) -> h' !! a = h !! a;
  es_reach a : reach h' c a -> (exists u, dm !! k = Some u /\ reach h u a) \/ a ∉ dom h;
  es_tree : tree h' c;
  es_wf : wf N h' c
}.

Section Entry.
Context (N : nat) (h h' : heap) (d : nat) (dm : gmap string value) (k : string) (c : value).
Hypothesis (Hd : h !! d = Some (OMap dm)) (Ht : tree h (MapRef d)) (Hw : wf (S N) h (MapRef d)).
Hypothesis Hs : entrySet N h d dm k c h'.

Lemma entry_obj : obj h (MapRef d) = Some (OMap dm).
Proof. unfold obj. cbn. done. Qed.

Lemma entry_wf k' u : dm !! k' = Some u -> wf N h u.
Proof. intros H. by apply (wf_child N h (MapRef d) (OMap dm) (Key k')). Qed.

(** The other entries keep their objects. *)
Lemma entry_other k' u : k' <> k -> dm !! k' = Some u -> forall a, reach h u a -> h' !! a = h !! a.
Proof.
  intros Hne Hu a Ha. apply (es_frame _ _ _ _ _ _ _ Hs).
  - eapply wf_reach; [by eapply entry_wf|done].
  - intros ->. by apply (tree_root _ _ _ (Key k') u d Ht entry_obj Hu).
  - intros w Hw' Ha'. assert (Key k' = Key k) as [= E] by by eapply (tree_disjoint h _ _ _ _ u w a Ht entry_obj). done.
Qed.

Lemma entry_reach a : reach h' (MapRef d) a -> reach h (MapRef d) a \/ a ∉ dom h.
Proof.
  intros [Ha|(o & st & u & Ho & Hc & Ha)]%reach_inv; [left; by apply reach_self|].
  unfold obj in Ho. cbn in Ho. rewrite (es_map _ _ _ _ _ _ _ Hs) in Ho. injection Ho as <-. destruct st as [k'|]; [|done]. cbn in Hc.
  destruct (decide (k' = k)) as [->|Hne].
  - rewrite lookup_insert_eq in Hc. injection Hc as <-. apply (es_reach _ _ _ _ _ _ _ Hs) in Ha as [(u & Hu & Ha)|]; [|by right].
    left. by apply (reach_child h _ (OMap dm) (Key k) u).
  - rewrite lookup_insert_ne in Hc by done. left. rewrite (reach_frame h h') in Ha by by eapply entry_other.
    by apply (reach_child h _ (OMap dm) (Key k') u).
Qed.

Lemma entry_frame a : a ∈ dom h -> ~ reach h (MapRef d) a -> h' !! a = h !! a.
Proof.
  intros Ha Hr. apply (es_frame _ _ _ _ _ _ _ Hs); [done| |].
  - intros ->. apply Hr. by apply reach_self.
  - intros u Hu Hru. apply Hr. by apply (reach_child h _ (OMap dm) (Key k) u).
Qed.

Lemma entry_tree : tree h' (MapRef d).
Proof.
  apply (tree_intro _ _ (OMap (<[k := c]> dm))).
  - unfold obj. cbn. apply (es_map _ _ _ _ _ _ _ Hs).
  - intros [k'|] u Hu; [|done]. cbn in Hu. destruct (decide (k' = k)) as [->|Hne].
    + rewrite lookup_insert_eq in Hu. injection Hu as <-. split; [apply (es_tree _ _ _ _ _ _ _ Hs)|].
      intros a [= <-] [(u & Hu & Ha)|Ha]%(es_reach _ _ _ _ _ _ _ Hs).
      * by apply (tree_root _ _ _ (Key k) u d Ht entry_obj Hu).
      * apply Ha, elem_of_dom. eauto.
    + rewrite lookup_insert_ne in Hu by done. split; [eapply tree_frame; [by eapply entry_other|exact (tree_child h (MapRef d) (OMap dm) (Key k') u Ht entry_obj Hu)]|].
      intros a [= <-]. rewrite (reach_frame h h') by by eapply entry_other. by apply (tree_root _ _ _ (Key k') u d Ht entry_obj).
  - assert (Hcross : forall k' u a, k' <> k -> dm !! k' = Some u -> reach h' u a -> reach h' c a -> False).
    { intros k' u a Hne Hu Ha Hc. rewrite (reach_frame h h') in Ha by by eapply entry_other.
      apply (es_reach _ _ _ _ _ _ _ Hs) in Hc as [(w & Hw' & Hc)|Hc].
      - assert (Key k' = Key k) as [= E] by by eapply (tree_disjoint h _ _ _ _ u w a Ht entry_obj). done.
      - apply Hc. eapply wf_reach; [by eapply entry_wf|done]. }
    intros [k1|] [k2|] u1 u2 a H1 H2 R1 R2; cbn in *; try done. f_equal.
    apply lookup_insert_Some in H1 as [[<- <-]|[N1 H1]], H2 as [[<- <-]|[N2 H2]]; [done|..].
    + by destruct (Hcross k2 u2 a).
    + by destruct (Hcross k1 u1 a).
    + rewrite (reach_frame h h') in R1 by by eapply (entry_other k1). rewrite (reach_frame h h') in R2 by by eapply (entry_other k2).
      assert (Key k1 = Key k2) as [= E] by by eapply (tree_disjoint h _ _ _ _ u1 u2 a Ht entry_obj). done.
Qed.

Lemma entry_wf_all : wf (S N) h' (MapRef d).
Proof.
  exists (<[k := c]> dm). split; [apply (es_map _ _ _ _ _ _ _ Hs)|]. intros k' u. destruct (decide (k' = k)) as [->|Hne].
  - rewrite lookup_insert_eq. intros [= <-]. apply (es_wf _ _ _ _ _ _ _ Hs).
  - rewrite lookup_insert_ne by done. intros Hu. eapply wf_frame; [by eapply entry_other|]. by eapply entry_wf.
Qed.

Lemma entry_look k' p : k' <> k -> look h' (MapRef d) (Key k' :: p) = look h (MapRef d) (Key k' :: p).
Proof.
  intros Hne. rewrite (look_key h' _ _ _ _ (es_map _ _ _ _ _ _ _ Hs)), (look_key h _ _ _ _ Hd), lookup_insert_ne by done.
  destruct (dm !! k') as [u|] eqn:E; [|done]. cbn. apply look_frame. by eapply entry_other.
Qed.

Lemma entry_look_key p : look h' (MapRef d) (Key k :: p) = look h' c p.
Proof. rewrite (look_key h' _ _ _ _ (es_map _ _ _ _ _ _ _ Hs)), lookup_insert_eq. done. Qed.
End Entry.

(** ** The merge of two maps *)

Record mergedInto (N : nat) (h : heap) (d : nat) (g : view) (h' : heap) : Prop := {
  mi_dom : dom h ⊆ dom h';
  mi_frame a : a ∈ dom h -> ~ reach h (MapRef d) a -> h' !! a = h !! a;
  mi_reach a : reach h' (MapRef d) a -> reach h (MapRef d) a \/ a ∉ dom h;
  mi_tree : tree h' (MapRef d);
  mi_wf : wf N h' (MapRef d);
  mi_look p : look h' (MapRef d) p = mergeAt p (look h (MapRef d)) g
}.

Section Merge.
Context {MR : MapRange} (n N : nat) (HN : (n <= N)%nat).
Hypothesis IH : forall h d s, wf n h (MapRef s) -> wf N h (MapRef d) -> tree h (MapRef d) ->
  (forall a, reach h (MapRef d) a -> ~ reach h (MapRef s) a) ->
  exists h', mergePlatformValues n d s h = Some (tt, h') /\ mergedInto N h d (look h (MapRef s)) h'.

(** One round: the entry becomes the merge of both or a copy of the source. *)
Lemma merge_entry h d dm k v : h !! d = Some (OMap dm) -> tree h (MapRef d) -> wf (S N) h (MapRef d) -> wf n h v ->
  (forall a, reach h (MapRef d) a -> ~ reach h v a) ->
  exists h' c,
    match v, dm !! k with
    | MapRef sourceMap, Some (MapRef destinationMap) => mergePlatformValues n destinationMap sourceMap
    | _, _ => v' ← clonePlatformValue n v; store d (Key k) v'
    end h = Some (tt, h') /\
    entrySet N h d dm k c h' /\
    forall f g p, (forall q, f (Key k :: q) = look h (MapRef d) (Key k :: q)) -> (forall q, g (Key k :: q) = look h v q) ->
      look h' c p = mergeAt (Key k :: p) f g.
Proof.
  intros Hd Ht Hw Hv Hdis. pose proof (entry_obj h d dm Hd) as Hobj.
  assert (Hdd : d ∈ dom h) by (apply elem_of_dom; eauto).
  assert (Hcopy : (match v, dm !! k with MapRef _, Some (MapRef _) => false | _, _ => true end) = true ->
    exists h' c, (v' ← clonePlatformValue n v; store d (Key k) v') h = Some (tt, h') /\ entrySet N h d dm k c h' /\
    forall f g p, (forall q, f (Key k :: q) = look h (MapRef d) (Key k :: q)) -> (forall q, g (Key k :: q) = look h v q) ->
      look h' c p = mergeAt (Key k :: p) f g).
  { intros Hcase. destruct (clonePlatformValue_ok n h v Hv) as (c & h1 & Hc & Hcp).
    pose proof (copied_sub _ _ _ _ _ Hcp) as Hsub. assert (h1 !! d = Some (OMap dm)) as Hd1 by by eapply lookup_weaken.
    assert (Hnew : forall a, reach h1 c a -> <[d := OMap (<[k := c]> dm)]> h1 !! a = h1 !! a).
    { intros a Ha. rewrite lookup_insert_ne; [done|]. intros <-. by apply (copied_fresh _ _ _ _ _ Hcp) in Ha. }
    exists (<[d := OMap (<[k := c]> dm)]> h1), c. split_and!.
    - erewrite bind_Some by exact Hc. by rewrite (store_ok _ _ _ _ _ Hd1).
    - split.
      + etransitivity; [by apply subseteq_dom|]. rewrite dom_insert. set_solver.
      + apply lookup_insert_eq.
      + intros a Ha Hne _. rewrite lookup_insert_ne by done. apply elem_of_dom in Ha as [o Ho]. rewrite Ho. by eapply lookup_weaken.
      + intros a. rewrite (reach_frame h1) by done. intros Ha. right. by apply (copied_fresh _ _ _ _ _ Hcp).
      + eapply tree_frame; [exact Hnew|]. apply (copied_tree _ _ _ _ _ Hcp).
      + eapply wf_frame; [exact Hnew|]. eapply wf_le; [exact HN|]. apply (copied_wf _ _ _ _ _ Hcp).
    - intros f g p Hf Hg. rewrite (look_frame h1) by done. rewrite (copied_look _ _ _ _ _ Hcp), <- Hg. cbn [mergeAt].
      rewrite (Hf []), (Hg []), (look_key _ _ _ _ _ Hd), look_nil. destruct (node_wf _ _ _ Hv) as [nd Hnd].
      assert (isMap (nodeOf h v) && isMap (u ← dm !! k; look h u []) = false) as ->; [|by rewrite Hnd].
      rewrite (isMap_wf _ _ _ Hv). destruct v as [|s|s]; [done| |done].
      destruct (dm !! k) as [u|] eqn:Eu; [|done]. cbn [mbind option_bind andb]. rewrite look_nil, (isMap_wf N) by by eapply entry_wf. by destruct u. }
  destruct v as [|s'|s']; try by apply Hcopy. destruct (dm !! k) as [u|] eqn:Eu; [|by apply Hcopy].
  destruct u as [|d'|d']; [by apply Hcopy| |by apply Hcopy]. clear Hcopy.
  assert (wf N h (MapRef d')) as Hwd by by eapply (entry_wf N h d dm Hd Hw k).
  assert (tree h (MapRef d')) as Htd by exact (tree_child h (MapRef d) (OMap dm) (Key k) _ Ht Hobj Eu).
  assert (forall a, reach h (MapRef d') a -> reach h (MapRef d) a) as Hup
    by (intros a; by apply (reach_child h _ (OMap dm) (Key k))).
  destruct (IH h d' s' Hv Hwd Htd) as (h' & Hm & Hmi); [intros a Ha; by apply Hdis, Hup|].
  exists h', (MapRef d'). split_and!; [done| |].
  - split.
    + apply (mi_dom _ _ _ _ _ Hmi).
    + rewrite insert_id by done. rewrite (mi_frame _ _ _ _ _ Hmi); [done|done|].
      by apply (tree_root _ _ _ (Key k) _ d Ht Hobj Eu).
    + intros a Ha Hne Hr. apply (mi_frame _ _ _ _ _ Hmi); [done|]. by apply Hr.
    + intros a [Ha|Ha]%(mi_reach _ _ _ _ _ Hmi); [left; eauto|by right].
    + apply (mi_tree _ _ _ _ _ Hmi).
    + apply (mi_wf _ _ _ _ _ Hmi).
  - intros f g p Hf Hg. rewrite (mi_look _ _ _ _ _ Hmi). cbn [mergeAt].
    rewrite (Hf []), (Hg []), (look_key _ _ _ _ _ Hd), Eu. cbn [mbind option_bind]. rewrite !look_nil, (isMap_wf _ _ _ Hv), (isMap_wf _ _ _ Hwd).
    cbn [andb]. apply mergeAt_ext; intros q; unfold under; rewrite ?Hf, ?Hg; [|done].
    by rewrite (look_key _ _ _ _ _ Hd), Eu.
Qed.

(** The state of the loop after the entries of some keys *)
Record mergeState (h0 : heap) (d : nat) (dm0 : gmap string value) (g : view) (h : heap) (seen : list string) : Prop := {
  ms_map : exists dm, h !! d = Some (OMap dm) /\ dom dm = dom dm0 ∪ list_to_set seen;
  ms_dom : dom h0 ⊆ dom h;
  ms_frame a : a ∈ dom h0 -> ~ reach h0 (MapRef d) a -> h !! a = h0 !! a;
  ms_reach a : reach h (MapRef d) a -> reach h0 (MapRef d) a \/ a ∉ dom h0;
  ms_tree : tree h (MapRef d);
  ms_wf : wf (S N) h (MapRef d);
  ms_look k p : look h (MapRef d) (Key k :: p) =
    if decide (k ∈ seen) then mergeAt (Key k :: p) (look h0 (MapRef d)) g else look h0 (MapRef d) (Key k :: p)
}.

Lemma mergeEntries_ok h0 d dm0 g h seen (keys : list (string * value)) :
  mergeState h0 d dm0 g h seen -> NoDup (seen ++ keys.*1) ->
  Forall (fun e => wf n h0 e.2 /\ (forall a, reach h0 (MapRef d) a -> ~ reach h0 e.2 a) /\
                   forall q, g (Key e.1 :: q) = look h0 e.2 q) keys ->
  exists h', mergeEntries (mergePlatformValues n) (clonePlatformValue n) d ((fun e => (Key e.1, e.2)) <$> keys) h = Some (tt, h') /\
    mergeState h0 d dm0 g h' (seen ++ keys.*1).
Proof.
  revert h seen. induction keys as [|[k v] keys IHk]; intros h seen Hst Hnd Hall.
  { exists h. cbn. by rewrite app_nil_r. }
  inversion Hall as [|? ? (Hv & Hdis & Hg) Hall']; subst. cbn [fst snd] in *. pose proof Hst as [(dm & Hd & Hdm) H2 H3 H4 H5 H6 H7].
  assert (Hsrc : forall a, reach h0 v a -> h !! a = h0 !! a).
  { intros a Ha. apply H3; [by eapply wf_reach|]. intros Hr. by eapply Hdis. }
  destruct (merge_entry h d dm k v) as (h1 & c & Hrun & Hes & Hlook); [done..| | |].
  { by eapply wf_frame. }
  { intros a Ha. rewrite (reach_frame h0 h) by done. intros Hr. apply H4 in Ha as [Ha|Ha]; [by eapply Hdis|].
    apply Ha. by eapply wf_reach. }
  destruct (IHk h1 (seen ++ [k])) as (h' & Hrun' & Hst').
  - split.
    + exists (<[k := c]> dm). split; [apply (es_map _ _ _ _ _ _ _ Hes)|]. rewrite dom_insert_L, Hdm, list_to_set_app_L. set_solver.
    + etransitivity; [exact H2|]. apply (es_dom _ _ _ _ _ _ _ Hes).
    + intros a Ha Hr. rewrite (entry_frame N h h1 d dm k c); [by apply H3|done..|by apply H2|].
      intros [Hr'|Hr']%H4; done.
    + intros a [Ha|Ha]%(entry_reach N h h1 d dm k c Hd H5 H6 Hes); [by apply H4|]. right. intros Hin. by apply Ha, H2.
    + by eapply (entry_tree N h h1 d dm k c).
    + by eapply (entry_wf_all N h h1 d dm k c).
    + intros k' p. destruct (decide (k' = k)) as [->|Hne].
      * rewrite decide_True by set_solver. rewrite (entry_look_key N h h1 d dm k c Hes). apply Hlook.
        -- intros q. rewrite H7, decide_False; [done|]. rewrite NoDup_app in Hnd. destruct Hnd as (_ & Hnd & _).
           intros Hin. apply (Hnd k Hin). by left.
        -- intros q. by rewrite Hg, (look_frame h0 h).
      * rewrite (entry_look N h h1 d dm k c Hd H5 H6 Hes) by done. rewrite H7.
        destruct (decide (k' ∈ seen)), (decide (k' ∈ seen ++ [k])); try done; set_solver.
  - by rewrite <- (assoc_L (++)).
  - done.
  - rewrite <- (assoc_L (++)) in Hst'. exists h'. split; [|done]. cbn [fmap list_fmap mergeEntries].
    erewrite bind_Some by (cbn; rewrite Hd; reflexivity). erewrite bind_Some by exact Hrun. exact Hrun'.
Qed.
End Merge.

Lemma mergePlatformValues_ok {MR : MapRange} n N h d s : (n <= N)%nat -> wf n h (MapRef s) -> wf N h (MapRef d) ->
  tree h (MapRef d) -> (forall a, reach h (MapRef d) a -> ~ reach h (MapRef s) a) ->
  exists h', mergePlatformValues n d s h = Some (tt, h') /\ mergedInto N h d (look h (MapRef s)) h'.
Proof.
  revert N h d s. induction n as [|n IH]; intros N h d s Hle Hs Hw Ht Hdis; [done|].
  destruct N as [|N]; [lia|]. destruct Hs as (m & Hm & Hmc). destruct Hw as (dm & Hd & Hdc).
  cbn [mergePlatformValues]. erewrite bind_Some by (unfold readMap; by rewrite Hm).
  set (name := Itoa (Z.of_nat d) +:+ "/" +:+ Itoa (Z.of_nat s)). unfold entriesOf.
  assert (Hrange : forall k v, (k, v) ∈ range_ "values" name m <-> m !! k = Some v)
    by (intros k v; rewrite range_perm; apply elem_of_map_to_list).
  destruct (mergeEntries_ok n N ltac:(lia) ltac:(intros; apply IH; (lia || done)) h d dm (look h (MapRef s)) h []
    (range_ "values" name m)) as (h' & Hrun & [(dm' & Hd' & Hdm') H2 H3 H4 H5 H6 H7]).
  - split; try done.
    + exists dm. split; [done|]. cbn. set_solver.
    + by left.
    + by exists dm.
  - cbn. rewrite range_perm. apply NoDup_fst_map_to_list.
  - apply Forall_forall. intros [k v] Hkv. apply Hrange in Hkv. cbn [fst snd]. split_and!; [by eapply Hmc| |].
    + intros a Ha Hr. apply (Hdis a Ha). by apply (reach_child h _ (OMap m) (Key k) v).
    + intros q. rewrite (look_key _ _ _ _ _ Hm), Hkv. done.
  - exists h'. split; [exact Hrun|]. cbn [app] in *.
    assert (Hkeys : forall k, k ∈ (range_ "values" name m).*1 <-> k ∈ dom m).
    { intros k. rewrite range_perm, elem_of_dom. rewrite list_elem_of_fmap. split.
      - intros ([k' v] & -> & Hkv%elem_of_map_to_list). eauto.
      - intros [v Hkv]. exists (k, v). split; [done|]. by apply elem_of_map_to_list. }
    split; try done. intros [|[k|i] p].
    + cbn. rewrite Hd', Hd, Hm, Hdm'. do 2 f_equal. apply set_eq. intros k.
      rewrite !elem_of_union, elem_of_list_to_set, Hkeys. done.
    + rewrite H7. destruct (decide (k ∈ (range_ "values" name m).*1)) as [|Hout]; [done|]. rewrite Hkeys in Hout.
      cbn [mergeAt]. rewrite !(look_key h s m) by done. apply not_elem_of_dom in Hout. rewrite Hout. done.
    + cbn [mergeAt]. rewrite !(look_child h (MapRef s) (OMap m)), (look_child h (MapRef d) (OMap dm)),
        (look_child h' (MapRef d) (OMap dm')) by done. cbn. by rewrite Hd.
Qed.
End ValuesMerge.
