(* ===== verification/ValuesClaims.v ===== *)
(** What the merge of the platform values promises: precedence, independence of
    its sources, and that a profile does not touch what the updater owns. *)
From stdpp Require Import prelude gmap strings list sorting.
From Stdlib Require Import Ascii ZArith Lia.
From S2P Require Import Prelude GoStrings Treehash BakeGraph PlatformValues ValuesHeap ValuesMerge.

Module ValuesClaims.
Import Treehash BakeGraph PlatformValues ValuesHeap ValuesMerge.

(** ** Collisions *)

(** Where both have something, both have maps, and the profile adds nothing to an empty one. *)
Definition agree (n n' : node) : Prop := exists A B, n = NMap A /\ n' = NMap B /\ (A = ∅ -> B = ∅).
Definition noClash (g p : view) : Prop := forall k ks n n',
  g (Key <$> k :: ks) = Some n -> p (Key <$> k :: ks) = Some n' -> agree n n'.
Definition noClashHere (g p : view) : Prop := forall ks n n', g (Key <$> ks) = Some n -> p (Key <$> ks) = Some n' -> agree n n'.

(** The same by the entries of two maps *)
Definition entryOk (h : heap) (u w : value) : Prop := noClashHere (look h u) (look h w).

Lemma noClash_entries h g p gm pm : h !! g = Some (OMap gm) -> h !! p = Some (OMap pm) ->
  noClash (look h (MapRef g)) (look h (MapRef p)) <->
  forall k u w, gm !! k = Some u -> pm !! k = Some w -> entryOk h u w.
Proof.
  intros Hg Hp. unfold noClash, entryOk, noClashHere. cbn [fmap list_fmap]. split.
  - intros H k u w Hu Hw ks nd nd' H1 H2. apply (H k ks); by rewrite ?(look_key _ _ _ _ _ Hg), ?(look_key _ _ _ _ _ Hp), ?Hu, ?Hw.
  - intros H k ks nd nd'. rewrite (look_key _ _ _ _ _ Hg), (look_key _ _ _ _ _ Hp).
    destruct (gm !! k) as [u|] eqn:Hu, (pm !! k) as [w|] eqn:Hw; cbn [mbind option_bind]; try done. by apply (H k).
Qed.

Lemma entryOk_maps h g p gm pm : h !! g = Some (OMap gm) -> h !! p = Some (OMap pm) ->
  entryOk h (MapRef g) (MapRef p) <->
  (dom gm = ∅ -> dom pm = ∅) /\ noClash (look h (MapRef g)) (look h (MapRef p)).
Proof.
  intros Hg Hp. unfold entryOk, noClashHere. split.
  - intros H. split; [|intros k ks nd nd'; apply (H (k :: ks))].
    destruct (H [] (NMap (dom gm)) (NMap (dom pm))) as (A & B & [= <-] & [= <-] & HAB); [by cbn; rewrite Hg|by cbn; rewrite Hp|done].
  - intros [H1 H2] [|k ks] nd nd'; [|apply (H2 k ks)]. cbn. rewrite Hg, Hp. intros [= <-] [= <-]. eexists _, _. eauto.
Qed.

Lemma entryOk_other n h u w : wf n h u -> wf n h w ->
  match w, u with MapRef _, MapRef _ => False | _, _ => True end -> ~ entryOk h u w.
Proof.
  intros Hu Hw Hcase H. destruct (node_wf _ _ _ Hu) as [nu Hnu], (node_wf _ _ _ Hw) as [nw Hnw].
  destruct (H [] nu nw) as (A & B & -> & -> & _); [done..|].
  pose proof (isMap_wf _ _ _ Hu) as Hmu. pose proof (isMap_wf _ _ _ Hw) as Hmw. rewrite Hnu in Hmu. rewrite Hnw in Hmw.
  by destruct u, w.
Qed.

(** The text of a collision is empty for one path only: the empty key at the top. *)
Lemma Join_nonempty prefix key : prefix <> [] \/ key <> "" -> Join (prefix ++ [key]) "." <> "".
Proof.
  destruct prefix as [|k prefix]; cbn [app]; [by intros [|H]|]. intros _. rewrite Join_cons by by destruct prefix.
  destruct k; [|by rewrite str_append_cons]. rewrite str_append_nil_l. done.
Qed.

Lemma readMap_ok h a m : h !! a = Some (OMap m) -> readMap a h = Some (m, h).
Proof. unfold readMap. by intros ->. Qed.

Lemma size_dom_empty (m : gmap string value) : (size m =? 0)%nat = bool_decide (dom m = ∅).
Proof.
  destruct (Nat.eqb_spec (size m) 0) as [H|H].
  - apply map_size_empty_inv in H as ->. symmetry. apply bool_decide_eq_true. apply dom_empty_L.
  - symmetry. apply bool_decide_eq_false. intros E. apply dom_empty_inv_L in E as ->. by rewrite map_size_empty in H.
Qed.

Lemma collisionLoop_ok n h gm pm prefix nested keys :
  (forall k c, gm !! k = Some c -> wf n h c) -> (forall k c, pm !! k = Some c -> wf n h c) ->
  (forall g p path, path <> [] -> wf n h (MapRef g) -> wf n h (MapRef p) ->
     exists s, nested g p path h = Some (s, h) /\ (s = "" <-> noClash (look h (MapRef g)) (look h (MapRef p)))) ->
  (prefix = [] -> gm !! "" = None \/ pm !! "" = None) -> (forall k, k ∈ keys -> k ∈ dom pm) ->
  exists s, collisionLoop nested gm pm prefix keys h = Some (s, h) /\
    (s = "" <-> forall k u w, k ∈ keys -> gm !! k = Some u -> pm !! k = Some w -> entryOk h u w).
Proof.
  intros Hgw Hpw Hnested Hempty Hkeys. induction keys as [|key keys IH]; cbn [collisionLoop].
  { exists "". split; [done|]. set_solver. }
  destruct IH as (rest & Hrest & IH); [set_solver|].
  assert (Hskip : (forall u w, gm !! key = Some u -> pm !! key = Some w -> entryOk h u w) ->
    rest = "" <-> forall k u w, k ∈ key :: keys -> gm !! k = Some u -> pm !! k = Some w -> entryOk h u w).
  { intros Hk. rewrite IH. split; [intros H k u w [->|Hin]%elem_of_cons; eauto|intros H k u w Hin; apply H; by right]. }
  destruct (gm !! key) as [u|] eqn:Hu; [|exists rest; split; [done|]; apply Hskip; intros; congruence].
  destruct (pm !! key) as [w|] eqn:Hw; [|apply not_elem_of_dom in Hw; destruct Hw; apply Hkeys; by left]. cbn [from_option id].
  assert (Hpath : Join (prefix ++ [key]) "." <> "").
  { apply Join_nonempty. destruct prefix; [|by left]. right. intros ->. destruct (Hempty eq_refl); congruence. }
  assert (Hbad : ~ entryOk h u w -> exists s, (mret (Join (prefix ++ [key]) ".") : M string) h = Some (s, h) /\
    (s = "" <-> forall k u w, k ∈ key :: keys -> gm !! k = Some u -> pm !! k = Some w -> entryOk h u w)).
  { intros Hno. eexists. split; [done|]. split; [done|]. intros H. destruct Hno. apply (H key); [by left|done..]. }
  pose proof (Hgw _ _ Hu) as Hwu. pose proof (Hpw _ _ Hw) as Hww.
  destruct w as [s|pa|pa]; [apply Hbad; by eapply entryOk_other| |apply Hbad; by eapply entryOk_other].
  destruct u as [s|ga|ga]; [apply Hbad; by eapply entryOk_other| |apply Hbad; by eapply entryOk_other].
  pose proof Hwu as Hwu'. pose proof Hww as Hww'. destruct n as [|n]; [done|]. destruct Hwu' as (g & Hg & _), Hww' as (p & Hp & _).
  erewrite bind_Some by by apply readMap_ok. erewrite bind_Some by by apply readMap_ok. rewrite !size_dom_empty.
  destruct (Hnested ga pa (prefix ++ [key])) as (s & Hs & Hiff); [by destruct prefix|done..|].
  case_bool_decide as Hg0; cbn [andb].
  - case_bool_decide as Hp0; cbn [negb].
    + erewrite bind_Some by exact Hs. assert (s = "") as ->.
      { apply Hiff. apply (noClash_entries _ _ _ _ _ Hg Hp). intros k u' w' Hk. apply dom_empty_inv_L in Hg0 as ->. done. }
      cbn [String.eqb negb]. exists rest. split; [done|]. apply Hskip. intros u' w' [= <-] [= <-].
      apply (entryOk_maps _ _ _ _ _ Hg Hp). split; [done|by apply Hiff].
    + apply Hbad. rewrite (entryOk_maps _ _ _ _ _ Hg Hp). intros [H _]. by apply Hp0, H.
  - erewrite bind_Some by exact Hs. destruct (String.eqb_spec s "") as [->|Hne]; cbn [negb].
    + exists rest. split; [done|]. apply Hskip. intros u' w' [= <-] [= <-].
      apply (entryOk_maps _ _ _ _ _ Hg Hp). split; [done|by apply Hiff].
    + exists s. split; [done|]. split; [done|]. intros H. apply Hiff.
      apply (entryOk_maps _ _ _ _ _ Hg Hp). apply (H key); [by left|done..].
Qed.

Lemma firstValueCollision_ok n h g p prefix gm pm : wf n h (MapRef g) -> wf n h (MapRef p) ->
  h !! g = Some (OMap gm) -> h !! p = Some (OMap pm) -> (prefix = [] -> gm !! "" = None \/ pm !! "" = None) ->
  exists s, firstValueCollision n g p prefix h = Some (s, h) /\ (s = "" <-> noClash (look h (MapRef g)) (look h (MapRef p))).
Proof.
  revert g p prefix gm pm. induction n as [|n IH]; intros g p prefix gm pm Hwg Hwp Hg Hp Hempty; [done|].
  cbn [firstValueCollision]. erewrite bind_Some by by apply readMap_ok. erewrite bind_Some by by apply readMap_ok.
  destruct Hwg as (gm' & Hg' & Hgc), Hwp as (pm' & Hp' & Hpc). rewrite Hg in Hg'. rewrite Hp in Hp'. injection Hg' as <-. injection Hp' as <-.
  assert (Hkeys : forall k, k ∈ SortStrings (map_to_list pm).*1 <-> k ∈ dom pm).
  { intros k. rewrite SortStrings_perm, list_elem_of_fmap, elem_of_dom. split.
    - intros ([k' v] & -> & H%elem_of_map_to_list). eauto.
    - intros [v Hv]. exists (k, v). split; [done|]. by apply elem_of_map_to_list. }
  destruct (collisionLoop_ok n h gm pm prefix (firstValueCollision n) (SortStrings (map_to_list pm).*1)) as (s & Hs & Hiff); try done.
  - intros g' p' path Hpath Hg' Hp'. destruct n as [|n]; [done|].
    pose proof Hg' as (g0 & Hg0 & _). pose proof Hp' as (p0 & Hp0 & _). by apply (IH g' p' path g0 p0).
  - intros k. by rewrite Hkeys.
  - exists s. split; [done|]. rewrite Hiff, (noClash_entries _ _ _ _ _ Hg Hp). split.
    + intros H k u w Hu Hw. apply (H k); [|done..]. apply Hkeys, elem_of_dom. eauto.
    + intros H k u w _. apply H.
Qed.

(** ** What survives a merge *)

(** A view of a document: a path has what its prefixes have, and a map has keys only. *)
Record viewOk (f : view) : Prop := {
  view_closed st p : is_Some (f (st :: p)) -> is_Some (f [st]) /\ is_Some (f []);
  view_map i p : isMap (f []) = true -> f (Index i :: p) = None
}.

Lemma look_none h v st p : obj h v = None -> look h v (st :: p) = None.
Proof. intros H. unfold look. cbn. by rewrite H. Qed.

Lemma look_viewOk n h v : wf n h v -> viewOk (look h v).
Proof.
  intros Hw. split.
  - intros st p. destruct (obj h v) as [o|] eqn:Ho; [|rewrite look_none by done; by intros [? [=]]].
    rewrite !(look_child _ _ _ _ _ Ho). destruct (child o st) as [c|] eqn:Hc; [|by intros [? [=]]]. intros _. cbn [mbind option_bind].
    destruct n as [|n]; [by destruct v|]. rewrite !look_nil. split; [|by eapply node_wf]. eapply node_wf. by eapply (wf_child n).
  - intros i p Hm. rewrite look_nil in Hm. destruct v as [|a|a]; cbn in Hm; try done.
    + destruct (h !! a) as [[m|]|] eqn:E; [|done..]. by rewrite (look_child _ _ (OMap m)).
    + by destruct (h !! a) as [[|]|].
Qed.

(** All the views below a view *)
Definition deepOk (f : view) : Prop := forall q, viewOk (fun p => f (q ++ p)).

Lemma viewOk_none f : (forall p, f p = None) -> viewOk f.
Proof. intros H. split; intros *; rewrite H; [by intros [? [=]]|done]. Qed.

Lemma viewOk_ext f g : (forall p, f p = g p) -> viewOk g -> viewOk f.
Proof. intros H [H1 H2]. split; intros *; rewrite !H; eauto. Qed.

Lemma look_deepOk n h v : wf n h v -> deepOk (look h v).
Proof.
  revert v. induction n as [|n IH]; intros v Hw [|st q]; try by apply (look_viewOk _ _ _ Hw).
  - apply viewOk_none. intros p. cbn [app]. apply look_none. by destruct v.
  - destruct (obj h v) as [o|] eqn:Ho; [|apply viewOk_none; intros p; cbn [app]; by apply look_none].
    destruct (child o st) as [c|] eqn:Hc.
    + eapply viewOk_ext; [|exact (IH c (wf_child _ _ _ _ _ _ Hw Ho Hc) q)]. intros p. cbn [app].
      by rewrite (look_child _ _ _ _ _ Ho), Hc.
    + apply viewOk_none. intros p. cbn [app]. by rewrite (look_child _ _ _ _ _ Ho), Hc.
Qed.

Lemma deepOk_under f st : deepOk f -> deepOk (under f st).
Proof. intros H q. apply (H (st :: q)). Qed.

Lemma deepOk_here f : deepOk f -> viewOk f.
Proof. intros H. apply (H []). Qed.

(** What the source has that is not a map is in the result. *)
Lemma merge_source q f g n : deepOk g -> g q = Some n -> isMap (g q) = false -> isMap (g []) = true -> mergeAt q f g = Some n.
Proof.
  revert f g. induction q as [|st q IH]; intros f g Hg Hq Hn Hroot; [congruence|]. cbn [mergeAt].
  destruct (view_closed _ (deepOk_here _ Hg) st q) as [[m Hm] _]; [by rewrite Hq|]. rewrite Hm.
  destruct (isMap (Some m) && isMap (f [st])) eqn:E; [|done]. apply andb_true_iff in E as [E _].
  apply IH; [by apply deepOk_under|done|done|]. unfold under. by rewrite Hm.
Qed.

Lemma merge_isMap q f g : deepOk g -> isMap (g q) = true -> isMap (f []) = true -> isMap (mergeAt q f g) = true.
Proof.
  revert f g. induction q as [|st q IH]; intros f g Hg Hq Hf; cbn [mergeAt].
  { destruct (f []) as [[]|]; try done. by destruct (g []) as [[]|]. }
  destruct (view_closed _ (deepOk_here _ Hg) st q) as [[m Hm] _]; [destruct (g (st :: q)); [eauto|done]|].
  destruct (isMap (g [st]) && isMap (f [st])) eqn:E.
  - apply andb_true_iff in E as [_ E]. apply IH; [by apply deepOk_under|done|done].
  - by rewrite Hm.
Qed.

(** A leaf: not a map, or a map without entries *)
Definition leaf (n : option node) : Prop := exists m, n = Some m /\ (isMap n = false \/ m = NMap ∅).

Lemma profile_keeps q f g p : deepOk g -> deepOk p -> noClashHere g p -> (forall r, isMap (g r) = true -> isMap (f r) = true) ->
  leaf (g q) -> mergeAt q f p = f q.
Proof.
  revert f g p. induction q as [|st q IH]; intros f g p Hg Hp Hnc Hf (m & Hm & Hleaf); cbn [mergeAt].
  - destruct (p []) as [n|] eqn:Hn; [|by destruct (f []) as [[]|]].
    destruct (Hnc [] m n Hm Hn) as (A & B & -> & -> & HAB). destruct Hleaf as [Hl|[= ->]]; [by rewrite Hm in Hl|].
    rewrite HAB by done. destruct (f []) as [[]|]; try done. by rewrite (right_id_L ∅ (∪)).
  - destruct (view_closed _ (deepOk_here _ Hg) st q) as [[gm Hgm] [g0 Hg0]]; [by rewrite Hm|].
    destruct (p [st]) as [n|] eqn:Hn; [|done].
    destruct (view_closed _ (deepOk_here _ Hp) st []) as [_ [p0 Hp0]]; [by rewrite Hn|].
    destruct (Hnc [] g0 p0 Hg0 Hp0) as (_ & B & _ & -> & _).
    destruct st as [k|i]; [|by rewrite (view_map _ (deepOk_here _ Hp)) in Hn; [|rewrite Hp0]].
    destruct (Hnc [k] gm n Hgm Hn) as (A & B' & -> & -> & _). rewrite Hf by by rewrite Hgm. cbn [isMap andb].
    apply (IH (under f (Key k)) (under g (Key k)) (under p (Key k))); [by apply deepOk_under..| | |by exists m].
    + intros ks. apply (Hnc (k :: ks)).
    + intros r. apply Hf.
Qed.

Lemma profile_keeps_below q f g p : deepOk g -> deepOk p -> noClash g p -> isMap (p []) = true ->
  (forall r, isMap (g r) = true -> isMap (f r) = true) -> q <> [] -> leaf (g q) -> mergeAt q f p = f q.
Proof.
  intros Hg Hp Hnc Hroot Hf Hq (m & Hm & Hleaf). destruct q as [|st q]; [done|]. cbn [mergeAt].
  destruct (view_closed _ (deepOk_here _ Hg) st q) as [[gm Hgm] _]; [by rewrite Hm|].
  destruct (p [st]) as [n|] eqn:Hn; [|done].
  destruct st as [k|i]; [|by rewrite (view_map _ (deepOk_here _ Hp)) in Hn].
  destruct (Hnc k [] gm n Hgm Hn) as (A & B' & -> & -> & _). rewrite Hf by by rewrite Hgm. cbn [isMap andb].
  apply (profile_keeps q (under f (Key k)) (under g (Key k)) (under p (Key k))); [by apply deepOk_under..| | |by exists m].
  - intros ks. apply (Hnc k ks).
  - intros r. apply Hf.
Qed.

(** ** The claim *)

Definition precedence (op gen prof : view) : view := fun p => mergeAt p (fun q => mergeAt q op gen) prof.

(** A merge into a document apart from a heap leaves the heap, and the document, apart. *)
Lemma agree_sub (h h' : heap) : (forall a, a ∈ dom h -> h' !! a = h !! a) -> h ⊆ h'.
Proof. intros H. apply map_subseteq_spec. intros a o Ha. rewrite H; [done|]. apply elem_of_dom. eauto. Qed.

Lemma merged_apart (h h1 : heap) N d g h2 : (forall a, reach h1 (MapRef d) a -> a ∉ dom h) -> h ⊆ h1 -> mergedInto N h1 d g h2 ->
  (forall a, a ∈ dom h -> h2 !! a = h !! a) /\ (forall a, reach h2 (MapRef d) a -> a ∉ dom h).
Proof.
  intros Hfresh Hsub HM. pose proof (subseteq_dom _ _ Hsub) as Hdom. split.
  - intros a Ha. rewrite (mi_frame _ _ _ _ _ HM); [|by apply Hdom|intros Hr; by apply (Hfresh a Hr)].
    apply elem_of_dom in Ha as [o Ha]. rewrite Ha. by eapply lookup_weaken.
  - intros a [Ha|Ha]%(mi_reach _ _ _ _ _ HM); [by apply Hfresh|]. intros Hin. by apply Ha, Hdom.
Qed.

(** The copy and the two merges, each from a heap in which the sources are intact *)
Lemma merge_run {MR : MapRange} n h operational generated profile :
  wf n h (MapRef operational) -> wf n h (MapRef generated) -> wf n h (MapRef profile) ->
  exists merged h', (merged ← clonePlatformValues (clonePlatformValue n) operational;
      mergePlatformValues n merged generated;; mergePlatformValues n merged profile;; mret (Ok merged)) h =
      Some (Ok merged : result valueError nat, h') /\
    h ⊆ h' /\ tree h' (MapRef merged) /\ (forall a, reach h' (MapRef merged) a -> a ∉ dom h) /\
    forall p, look h' (MapRef merged) p =
      precedence (look h (MapRef operational)) (look h (MapRef generated)) (look h (MapRef profile)) p.
Proof.
  intros Ho Hg Hp.
  destruct (clonePlatformValues_ok n (clonePlatformValue n) (clonePlatformValue_ok n) h operational) as (merged & h1 & H1 & Hc);
    [by eapply (wf_le n); [lia|]|].
  erewrite bind_Some by exact H1. pose proof (copied_sub _ _ _ _ _ Hc) as Hsub1.
  assert (Hfr1 : forall v, wf n h v -> forall a, reach h v a -> h1 !! a = h !! a) by (intros v; by apply sub_frame).
  destruct (mergePlatformValues_ok n (S n) h1 merged generated) as (h2 & H2 & M2); [lia|by eapply wf_frame; [apply Hfr1|]|..].
  { apply (copied_wf _ _ _ _ _ Hc). }
  { apply (copied_tree _ _ _ _ _ Hc). }
  { intros a Ha. rewrite (reach_frame h h1) by by apply Hfr1. intros Hr. exact (copied_fresh _ _ _ _ _ Hc a Ha (wf_reach n h _ a Hg Hr)). }
  erewrite bind_Some by exact H2.
  destruct (merged_apart _ _ _ _ _ _ (copied_fresh _ _ _ _ _ Hc) Hsub1 M2) as [Hfr2 Hfresh2].
  assert (Hfp : forall a, reach h (MapRef profile) a -> h2 !! a = h !! a) by (intros a Ha; apply Hfr2; exact (wf_reach n h _ a Hp Ha)).
  destruct (mergePlatformValues_ok n (S n) h2 merged profile) as (h3 & H3 & M3); [lia|by eapply wf_frame|..].
  { apply (mi_wf _ _ _ _ _ M2). }
  { apply (mi_tree _ _ _ _ _ M2). }
  { intros a Ha. rewrite (reach_frame h h2) by done. intros Hr. exact (Hfresh2 a Ha (wf_reach n h _ a Hp Hr)). }
  erewrite bind_Some by exact H3. exists merged, h3. split; [done|].
  destruct (merged_apart h h2 _ _ _ _ Hfresh2 (agree_sub _ _ Hfr2) M3) as [Hfr3 Hfresh3].
  split_and!; [by apply agree_sub|apply (mi_tree _ _ _ _ _ M3)|done|].
  intros p. rewrite (mi_look _ _ _ _ _ M3). apply mergeAt_ext; intros q; [|by apply look_frame].
  rewrite (mi_look _ _ _ _ _ M2). apply mergeAt_ext; intros r; [apply (copied_look _ _ _ _ _ Hc)|]. apply look_frame. by apply Hfr1.
Qed.

(** C6. Whatever the order in which maps are enumerated, [MergePlatformValues]
    returns: an error exactly when the profile gives a value where the generated
    values own one, and otherwise a new document that shares no object with the
    three sources, in which no object is shared by two paths, and which has at every
    path what the operational values, overridden by the generated ones and
    then by the profile, have there.  The sources are unchanged, and every leaf of
    the generated values is in the result untouched by the profile.  The documents may be any of a bounded depth,
    without an entry under the empty key in both the generated values and the
    profile. *)
Theorem platform_values {MR : MapRange} (n : nat) (h : heap) (operational generated profile : nat)
    (gm pm : gmap string value)
    (Ho : wf n h (MapRef operational)) (Hg : wf n h (MapRef generated)) (Hp : wf n h (MapRef profile))
    (Hgm : h !! generated = Some (OMap gm)) (Hpm : h !! profile = Some (OMap pm))
    (Hempty : gm !! "" = None \/ pm !! "" = None) :
  let op := look h (MapRef operational) in
  let gen := look h (MapRef generated) in
  let prof := look h (MapRef profile) in
  exists r h', MergePlatformValues n operational generated profile h = Some (r, h') /\ h ⊆ h' /\
    match r with
    | Err e => (exists path, e = UpdaterOwned path) /\ h' = h /\ ~ noClash gen prof
    | Ok merged =>
        noClash gen prof /\ tree h' (MapRef merged) /\ (forall a, reach h' (MapRef merged) a -> a ∉ dom h) /\
        (forall p, look h' (MapRef merged) p = precedence op gen prof p) /\
        (forall p, p <> [] -> leaf (gen p) -> look h' (MapRef merged) p = mergeAt p op gen) /\
        (forall p m, gen p = Some m -> isMap (gen p) = false -> look h' (MapRef merged) p = Some m)
    end.
Proof.
  intros op gen prof. unfold MergePlatformValues.
  destruct (firstValueCollision_ok n h generated profile [] gm pm) as (s & Hs & Hiff); [done..|].
  erewrite bind_Some by exact Hs. destruct (String.eqb_spec s "") as [->|Hne]; cbn [negb].
  2: { eexists _, h. split; [done|]. split; [done|]. split_and!; [by eexists|done|]. by intros H%Hiff. }
  assert (Hnc : noClash gen prof) by by apply Hiff.
  destruct (merge_run n h operational generated profile Ho Hg Hp) as (merged & h' & Hrun & Hsub & Ht & Hfresh & Hlook).
  exists (Ok merged), h'. split; [exact Hrun|]. split; [done|].
  assert (isMap (op []) = true /\ isMap (gen []) = true /\ isMap (prof []) = true) as (Hro & Hrg & Hrp).
  { unfold op, gen, prof. by rewrite !look_nil, (isMap_wf _ _ _ Ho), (isMap_wf _ _ _ Hg), (isMap_wf _ _ _ Hp). }
  assert (Hleaf : forall p, p <> [] -> leaf (gen p) -> look h' (MapRef merged) p = mergeAt p op gen).
  { intros p Hne Hl. rewrite Hlook. unfold precedence. apply (profile_keeps_below p (fun q => mergeAt q op gen) gen prof); try done.
    - exact (look_deepOk n h _ Hg).
    - exact (look_deepOk n h _ Hp).
    - intros r Hr. apply merge_isMap; [exact (look_deepOk n h _ Hg)|done|done]. }
  split_and!; try done. intros p m Hm Hnm. destruct p as [|st p]; [congruence|].
  rewrite Hleaf; [apply (merge_source _ op gen m (look_deepOk n h _ Hg)); done|done|]. exists m. split; [done|by left].
Qed.

(** ** Documents *)

Module Sample.
#[local] Instance ranges : MapRange := {| range_ A _ _ m := map_to_list m; range_perm A _ _ m := reflexivity _ |}.

(** Addresses 0, 1 and 2 are the operational, generated and profile documents. *)
Definition documents : heap := <[0%nat := OMap {[ "istio" := MapRef 3; "hosts" := SliceRef 4 ]}]> (
  <[1%nat := OMap {[ "istio" := MapRef 5 ]}]> (<[2%nat := OMap {[ "istio" := MapRef 6; "hosts" := Scalar "none" ]}]> (
  <[3%nat := OMap {[ "enabled" := Scalar "true"; "tag" := Scalar "old" ]}]> (<[4%nat := OSlice [Scalar "a"; MapRef 3]]> (
  <[5%nat := OMap {[ "tag" := Scalar "1.29.0" ]}]> {[6%nat := OMap {[ "enabled" := Scalar "false" ]} ]}))))).

Definition run (h : heap) : option (result valueError nat * heap) := MergePlatformValues 4 0 1 2 h.
Definition seen (h : heap) (p : list step) : option node :=
  match run h with Some (Ok merged, h') => look h' (MapRef merged) p | _ => None end.

Fixpoint wfb (n : nat) (h : heap) (v : value) : bool :=
  match v, n with
  | Scalar _, _ => true
  | _, 0%nat => false
  | MapRef a, S n => match h !! a with Some (OMap m) => forallb (wfb n h) (map_to_list m).*2 | _ => false end
  | SliceRef a, S n => match h !! a with Some (OSlice l) => forallb (wfb n h) l | _ => false end
  end.

Lemma wfb_wf n h v : wfb n h v = true -> wf n h v.
Proof.
  revert v. induction n as [|n IH]; intros [s|a|a]; cbn; try done; destruct (h !! a) as [[m|l]|]; try done; rewrite forallb_forall.
  - intros H. exists m. split; [done|]. intros k c Hk. apply IH, H, list_elem_of_In, list_elem_of_fmap. exists (k, c).
    split; [done|]. by apply elem_of_map_to_list.
  - intros H. exists l. split; [done|]. intros i c Hi. apply IH, H, list_elem_of_In. by eapply list_elem_of_lookup_2.
Qed.

Lemma documents_wf : wf 4 documents (MapRef 0) /\ wf 4 documents (MapRef 1) /\ wf 4 documents (MapRef 2).
Proof. split_and!; apply wfb_wf; vm_compute; reflexivity. Qed.

Lemma platform_values_witness :
  (exists merged h', run documents = Some (Ok merged, h') /\ documents ⊆ h') /\
  seen documents [Key "istio"; Key "tag"] = Some (NScalar "1.29.0") /\
  seen documents [Key "istio"; Key "enabled"] = Some (NScalar "false") /\
  seen documents [Key "hosts"] = Some (NScalar "none").
Proof.
  split; [|split_and!; vm_compute; reflexivity]. destruct documents_wf as (H0 & H1 & H2).
  destruct (platform_values 4 documents 0 1 2 {[ "istio" := MapRef 5 ]} {[ "istio" := MapRef 6; "hosts" := Scalar "none" ]}
    H0 H1 H2 eq_refl eq_refl (or_introl eq_refl)) as (r & h' & Hrun & Hsub & Hr).
  assert (is_ok (default (Err (UpdaterOwned "")) (fst <$> run documents)) = true) as Hok by (vm_compute; reflexivity).
  unfold run in *. rewrite Hrun in Hok |- *. destruct r as [merged|]; [|discriminate Hok].
  exists merged, h'. split; [reflexivity|exact Hsub].
Defined.

(** An entry under the empty key in both documents ends the search with an empty
    path, which is read as the absence of a collision: the profile replaces an
    image the updater owns. *)
Definition emptyKey : heap := <[0%nat := OMap ∅]> (
  <[1%nat := OMap {[ "" := Scalar "g"; "image" := Scalar "pinned" ]}]>
  {[2%nat := OMap {[ "" := Scalar "p"; "image" := Scalar "mine" ]} ]}).
Example empty_key_hides_collisions : seen emptyKey [Key "image"] = Some (NScalar "mine").
Proof. vm_compute. reflexivity. Qed.
Example collision_found :
  fst <$> run (<[1%nat := OMap {[ "image" := Scalar "pinned" ]}]> emptyKey) = Some (Err (UpdaterOwned "image")).
Proof. vm_compute. reflexivity. Qed.
End Sample.
End ValuesClaims.
