(* ===== verification/KubeEvidence.v ===== *)
(** The contract with Kubespray, [cli/kube/kubespray_admission.go] and
    [version.go]: the evidence a checkout must contain before it is run. *)
From stdpp Require Import prelude gmap strings list.
From Stdlib Require Import Ascii ZArith Lia.
From S2P Require Import Prelude GoStrings FsPath Release BakeGraph BakeTheorems.

Module KubeEvidence.
Import FsPath Release BakeGraph.

Definition dq : string := String "034" "".
Definition newline : string := String "010" "".

Record kubesprayContractFile := {
  name : string; relative : string; task : string; evidence : list string; counts : list (string * nat)
}.

Definition kubesprayScopedAnonymousContract : list kubesprayContractFile :=
  [{| name := "structured authentication defaults"; relative := "roles/kubespray_defaults/defaults/main/main.yml"; task := "";
      evidence := ["kube_apiserver_use_authentication_config_file: false";
                   "kube_apiserver_authentication_config_api_version:";
                   "'v1beta1' if kube_version is version('1.34.0', '<') else 'v1'";
                   "kube_apiserver_authentication_config_jwt: []";
                   "kube_apiserver_authentication_config_anonymous:";
                   "conditions: []"];
      counts := [] |};
   {| name := "structured authentication task"; relative := "roles/kubernetes/control-plane/tasks/main.yml"; task := "";
      evidence := ["Create structured AuthenticationConfiguration file";
                   "apiserver-authentication-config-{{ kube_apiserver_authentication_config_api_version }}.yaml";
                   "mode: " +:+ dq +:+ "0640" +:+ dq;
                   "apiVersion: apiserver.config.k8s.io/{{ kube_apiserver_authentication_config_api_version }}";
                   "jwt: " +:+ dq +:+ "{{ kube_apiserver_authentication_config_jwt }}" +:+ dq;
                   "anonymous: " +:+ dq +:+ "{{ kube_apiserver_authentication_config_anonymous }}" +:+ dq;
                   "when: kube_apiserver_use_authentication_config_file"];
      counts := [] |};
   {| name := "kubeadm authentication mount"; relative := "roles/kubernetes/control-plane/templates/kubeadm-config.v1beta4.yaml.j2"; task := "";
      evidence := ["{% if kube_oidc_auth and kube_oidc_url is defined and kube_oidc_client_id is defined and not kube_apiserver_use_authentication_config_file %}";
                   "{% if kube_api_anonymous_auth is defined and not kube_apiserver_use_authentication_config_file %}";
                   "- name: authentication-config";
                   "value: " +:+ dq +:+ "{{ kube_config_dir }}/apiserver-authentication-config-{{ kube_apiserver_authentication_config_api_version }}.yaml" +:+ dq;
                   "hostPath: {{ kube_config_dir }}/apiserver-authentication-config-{{ kube_apiserver_authentication_config_api_version }}.yaml";
                   "mountPath: {{ kube_config_dir }}/apiserver-authentication-config-{{ kube_apiserver_authentication_config_api_version }}.yaml"];
      counts := [] |};
   {| name := "cluster resolver lifecycle"; relative := "playbooks/cluster.yml"; task := "";
      evidence := ["when: " +:+ dq +:+ "dns_mode != 'none' and resolvconf_mode == 'host_resolvconf'" +:+ dq;
                   "dns_late: true"];
      counts := [] |};
   {| name := "scale resolver lifecycle"; relative := "playbooks/scale.yml"; task := "";
      evidence := ["when: " +:+ dq +:+ "dns_mode != 'none' and resolvconf_mode == 'host_resolvconf'" +:+ dq;
                   "dns_late: true"];
      counts := [] |};
   {| name := "upgrade resolver lifecycle"; relative := "playbooks/upgrade_cluster.yml"; task := "";
      evidence := ["when: " +:+ dq +:+ "dns_mode != 'none' and resolvconf_mode == 'host_resolvconf'" +:+ dq;
                   "dns_late: true"];
      counts := [] |};
   {| name := "active control-plane upgrade role"; relative := "playbooks/upgrade_cluster.yml"; task := "";
      evidence := ["{ role: kubernetes/control-plane, tags: control-plane, upgrade_cluster_setup: true }"];
      counts := [] |};
   {| name := "late resolver API probe"; relative := "roles/kubernetes/preinstall/handlers/main.yml"; task := "Preinstall | wait for the apiserver to be running";
      evidence := ["url: " +:+ dq +:+ "{{ kube_apiserver_endpoint }}/healthz" +:+ dq;
                   "- dns_late";
                   "- dns_mode != 'none'";
                   "- resolvconf_mode == 'host_resolvconf'"];
      counts := [] |};
   {| name := "authenticated node-label API probe"; relative := "roles/kubernetes/node-label/tasks/main.yml"; task := "Kubernetes Apps | Wait for kube-apiserver";
      evidence := ["url: " +:+ dq +:+ "{{ kube_apiserver_endpoint }}/healthz" +:+ dq;
                   "client_cert: " +:+ dq +:+ "{{ kube_apiserver_client_cert }}" +:+ dq;
                   "client_key: " +:+ dq +:+ "{{ kube_apiserver_client_key }}" +:+ dq];
      counts := [] |};
   {| name := "scoped-anonymous control-plane restart API probe"; relative := "roles/kubernetes/control-plane/handlers/main.yml"; task := "Control plane | wait for the apiserver to be running";
      evidence := ["url: " +:+ dq +:+ "{{ kube_apiserver_endpoint }}/healthz" +:+ dq;
                   "- Control plane | restart kubelet";
                   "- Control plane | Restart apiserver"];
      counts := [] |};
   {| name := "initial control-plane restart notification"; relative := "roles/kubernetes/control-plane/tasks/kubeadm-setup.yml"; task := "Kubeadm | Initialize first control plane node";
      evidence := ["notify: Control plane | restart kubelet"];
      counts := [] |};
   {| name := "scoped-anonymous upgrade API probe"; relative := "roles/kubernetes/control-plane/tasks/check-api.yml"; task := "Kubeadm | Check api is up";
      evidence := ["/healthz"];
      counts := [] |};
   {| name := "before-upgrade API probe caller"; relative := "roles/kubernetes/control-plane/tasks/kubeadm-upgrade.yml"; task := "Ensure kube-apiserver is up before upgrade";
      evidence := ["import_tasks: check-api.yml"];
      counts := [] |};
   {| name := "after-upgrade API probe caller"; relative := "roles/kubernetes/control-plane/tasks/kubeadm-upgrade.yml"; task := "Ensure kube-apiserver is up after upgrade and control plane configuration updates";
      evidence := ["import_tasks: check-api.yml"];
      counts := [] |};
   {| name := "upgrade API probe import cardinality"; relative := "roles/kubernetes/control-plane/tasks/kubeadm-upgrade.yml"; task := "";
      evidence := [];
      counts := [("import_tasks: check-api.yml", 2%nat)] |};
   {| name := "CoreDNS kubelet projection"; relative := "roles/kubernetes/node/templates/kubelet-config.v1beta1.yaml.j2"; task := "";
      evidence := ["{% elif dns_mode in ['coredns'] %}";
                   "{% set kubelet_cluster_dns = [skydns_server] %}";
                   "clusterDNS:"];
      counts := [] |};
   {| name := "optional local API load balancer gate"; relative := "roles/kubernetes/node/tasks/main.yml"; task := "Install haproxy";
      evidence := ["import_tasks: loadbalancer/haproxy.yml";
                   "- loadbalancer_apiserver_localhost";
                   "- loadbalancer_apiserver_type == 'haproxy'"];
      counts := [] |};
   {| name := "optional local API load balancer"; relative := "roles/kubernetes/node/templates/loadbalancer/haproxy.cfg.j2"; task := "";
      evidence := ["backend kube_api_backend";
                   "option httpchk GET /healthz";
                   "check check-ssl verify none"];
      counts := [] |}].

Definition ScopedAnonymousPaths : list string :=
  ["/healthz"; "/livez"; "/readyz"; "/api/v1/namespaces/kube-public/configmaps/cluster-info"].

Inductive evidenceError :=
  | VersionParse
  | VersionOld
  | Unreadable (source cause : string)
  | TooLarge (source : string)
  | Defaults
  | ConfigDir (dir : string)
  | DuplicateTask (source task : string)
  | MissingTask (source task : string)
  | MissingEvidence (source fragment : string)
  | WrongCount (source fragment : string) (actual : nat).

(** ** A task of a file *)

(** The offsets at which [marker] is a whole line: the loop keeps the first and
    refuses a second *)
Definition at_ (text : string) (i : nat) : option ascii := String.get i text.
Definition wholeLine (text marker : string) (found : nat) : bool :=
  ((found =? 0)%nat || bool_decide (at_ text (found - 1) = Some "010"%char)) &&
  ((found + String.length marker =? String.length text)%nat ||
   bool_decide (at_ text (found + String.length marker) = Some "010"%char)).

Fixpoint taskLoop (fuel : nat) (source task text marker : string) (offset : nat) (start : option nat) :
  result evidenceError (option nat) :=
  match fuel with
  | 0%nat => Ok start
  | S fuel =>
      if (String.length text <=? offset)%nat then Ok start
      else
        match Index (str_drop offset text) marker with
        | None => Ok start
        | Some found =>
            let found := (found + offset)%nat in
            if wholeLine text marker found then
              match start with
              | Some _ => Err (DuplicateTask source task)
              | None => taskLoop fuel source task text marker (found + String.length marker) (Some found)
              end
            else taskLoop fuel source task text marker (found + String.length marker) start
        end
  end.

(** The text from the line of the task to the next item of its list *)
Definition segmentAt (text marker : string) (start : nat) : string :=
  let after := (start + String.length marker)%nat in
  let end_ := match Index (str_drop after text) (newline +:+ "- ") with
              | Some next => (after + next)%nat
              | None => String.length text
              end in
  str_take (end_ - start) (str_drop start text).

Definition requireEvidence (source text : string) (fragments : list string) : result evidenceError unit :=
  match find (fun fragment => negb (Contains text fragment)) fragments with
  | Some fragment => Err (MissingEvidence source fragment)
  | None => Ok tt
  end.

Definition validateKubesprayTaskEvidence (text source task : string) (evidence : list string) : result evidenceError unit :=
  let marker := "- name: " +:+ task in
  start ← taskLoop (S (String.length text)) source task text marker 0 None;
  match start with
  | None => Err (MissingTask source task)
  | Some start => requireEvidence source (segmentAt text marker start) evidence
  end.

(** [strings.Count] of a text that is not empty *)
Fixpoint countFuel (fuel : nat) (s sub : string) : nat :=
  match fuel, Index s sub with
  | S fuel, Some i => S (countFuel fuel (str_drop (i + String.length sub) s) sub)
  | _, _ => 0%nat
  end.
Definition Count (s sub : string) : nat := countFuel (String.length s) s sub.

Definition requireCounts (source text : string) (counts : list (string * nat)) : result evidenceError unit :=
  match find (fun c => negb (Count text c.1 =? c.2)%nat) counts with
  | Some (fragment, _) => Err (WrongCount source fragment (Count text fragment))
  | None => Ok tt
  end.

Section Lifecycle.
(** Semantic versions, the files of the checkout, and the field
    [kube_config_dir] of a YAML document, absent as the empty string *)
Context {SV : Semver} (readFile : string -> result string string) (kubeConfigDir : string -> option string).

Definition readKubesprayEvidence (source path : string) : result evidenceError string :=
  data ← wrap_err (Unreadable source) (readFile path);
  if (Z.of_nat (String.length data) >? 4194304)%Z then Err (TooLarge source) else Ok data.

Definition AuthenticationConfigAPIVersion (kubernetes : string) : result evidenceError string :=
  match NewVersion (TrimPrefix kubernetes "v"), NewVersion "1.34.0" with
  | Some version, Some exact =>
      match compareV version exact with Lt => Err VersionOld | _ => Ok "v1" end
  | _, _ => Err VersionParse
  end.

Definition validateFile (checkout : string) (file : kubesprayContractFile) : result evidenceError unit :=
  text ← readKubesprayEvidence (name file) (JoinPath checkout (relative file));
  _ ← (if String.eqb (name file) "structured authentication defaults" then
         match kubeConfigDir text with
         | None => Err Defaults
         | Some dir => guard_err (negb (String.eqb dir "/etc/kubernetes")) (ConfigDir dir)
         end
       else Ok tt);
  _ ← (if negb (String.eqb (task file) "") then validateKubesprayTaskEvidence text (name file) (task file) (evidence file)
       else requireEvidence (name file) text (evidence file));
  requireCounts (name file) text (counts file).

Fixpoint validateFiles (checkout : string) (files : list kubesprayContractFile) : result evidenceError unit :=
  match files with [] => Ok tt | file :: files => _ ← validateFile checkout file; validateFiles checkout files end.

Definition ValidateKubesprayScopedAnonymousLifecycle (checkout kubernetes : string) : result evidenceError unit :=
  _ ← AuthenticationConfigAPIVersion kubernetes;
  validateFiles checkout kubesprayScopedAnonymousContract.
End Lifecycle.
End KubeEvidence.
