(* ===== verification/KubeClaims.v ===== *)
(** What the contract with Kubespray admits. *)
From stdpp Require Import prelude gmap strings list.
From Stdlib Require Import Ascii ZArith Lia.
From S2P Require Import Prelude GoStrings Utf8 FsPath Release BakeGraph BakeTheorems KubeEvidence.

Module KubeClaims.
Import Utf8 FsPath Release KubeEvidence.

(** ** Where a text occurs *)

Definition occurs (text sub : string) (i : nat) : Prop := (i <= String.length text)%nat /\ String.prefix sub (str_drop i text) = true.

Lemma Index_first s sub i : Index s sub = Some i -> occurs s sub i /\ forall j, occurs s sub j -> (i <= j)%nat.
Proof.
  revert i. induction s as [|c s IH]; intros i; cbn [Index]; destruct (String.prefix sub _) eqn:Hp; try done.
  1,2: intros [= <-]; (split; [split; [lia|done]|intros j _; lia]).
  destruct (Index s sub) as [k|]; [|done]. intros [= <-]. destruct (IH k eq_refl) as [[H1 H2] H3]. split; [split; [cbn; lia|done]|].
  intros [|j] [Hj Ho]; [change (String.prefix sub (String c s) = true) in Ho; congruence|]. cbn in Hj. specialize (H3 j). enough (k <= j)%nat by lia. apply H3. split; [lia|done].
Qed.

Lemma Index_never s sub : Index s sub = None -> forall j, ~ occurs s sub j.
Proof.
  induction s as [|c s IH]; cbn [Index]; destruct (String.prefix sub _) eqn:Hp; try done.
  - intros _ j [Hj Ho]. assert (str_drop j "" = "") as E by by destruct j. rewrite E in Ho. congruence.
  - destruct (Index s sub) as [k|]; [done|]. intros _ [|j] [Hj Ho]; [change (String.prefix sub (String c s) = true) in Ho; congruence|]. cbn in Hj. by apply (IH eq_refl j); split; [lia|].
Qed.

Lemma str_drop_drop i j s : str_drop i (str_drop j s) = str_drop (i + j) s.
Proof. revert s. induction j as [|j IH]; intros s; [by rewrite Nat.add_0_r|]. rewrite Nat.add_succ_r. destruct s; [by destruct i|]. cbn. apply IH. Qed.

Lemma occurs_drop text sub offset i : (offset <= String.length text)%nat ->
  occurs (str_drop offset text) sub i <-> occurs text sub (i + offset).
Proof. intros Ho. unfold occurs. rewrite str_drop_drop, str_length_drop. split; intros [H1 H2]; split; try done; lia. Qed.

Lemma get_drop i k s : String.get k (str_drop i s) = String.get (i + k) s.
Proof. revert s. induction i as [|i IH]; intros s; [done|]. destruct s; [by destruct k|]. cbn. apply IH. Qed.

Lemma occurs_get text sub i k : occurs text sub i -> (k < String.length sub)%nat -> String.get (i + k) text = String.get k sub.
Proof.
  intros [_ [r Hr]%prefix_append_iff] Hk. rewrite <- get_drop, Hr. clear Hr. revert k Hk. induction sub as [|c sub IH]; intros k Hk; cbn in Hk; [lia|].
  rewrite str_append_cons. destruct k; [done|]. cbn. apply IH. lia.
Qed.

Lemma no_newline_get s k : IndexByte s "010" = None -> String.get k s <> Some "010"%char.
Proof.
  revert k. induction s as [|c s IH]; intros k; [by destruct k|]. cbn. destruct (Ascii.eqb_spec c "010"); [done|].
  destruct (IndexByte s "010"); [done|]. intros _. destruct k; [cbn; congruence|]. by apply IH.
Qed.

(** ** The line of a task *)

(** [marker] is a whole line of the text, at this offset. *)
Definition line (text marker : string) (i : nat) : Prop := occurs text marker i /\ wholeLine text marker i = true.

(** Two occurrences of which the second is a line do not overlap. *)
Lemma line_apart text marker i j : IndexByte marker "010" = None -> occurs text marker i -> line text marker j -> (i < j)%nat ->
  (i + String.length marker <= j)%nat.
Proof.
  intros Hn Hi [Hj Hw] Hlt. destruct (decide (i + String.length marker <= j)%nat) as [|Hge]; [done|]. exfalso.
  unfold wholeLine in Hw. apply andb_true_iff in Hw as [Hw _]. apply orb_true_iff in Hw as [Hw|Hw]; [apply Nat.eqb_eq in Hw; lia|].
  apply bool_decide_eq_true in Hw. unfold at_ in Hw.
  pose proof (occurs_get text marker i (j - 1 - i) Hi ltac:(lia)) as Hg. replace (i + (j - 1 - i))%nat with (j - 1)%nat in Hg by lia.
  rewrite Hw in Hg. by eapply no_newline_get, eq_sym.
Qed.

Lemma line_length text marker i : line text marker i -> (i + String.length marker <= String.length text)%nat.
Proof.
  intros [[Hi [r Hr]%prefix_append_iff] _]. apply (f_equal String.length) in Hr. rewrite str_length_drop, str_length_append in Hr. lia.
Qed.

(** The search returns the only line, none, or refuses a second one. *)
Lemma taskLoop_ok fuel source task text marker offset start :
  (String.length text - offset < fuel)%nat -> (0 < String.length marker)%nat -> IndexByte marker "010" = None ->
  (forall i, start = Some i -> line text marker i /\ (i < offset)%nat) ->
  (forall i, line text marker i -> (i < offset)%nat -> start = Some i) ->
  match taskLoop fuel source task text marker offset start with
  | Ok (Some i) => line text marker i /\ forall j, line text marker j -> j = i
  | Ok None => forall j, ~ line text marker j
  | Err e => e = DuplicateTask source task /\ exists i j, line text marker i /\ line text marker j /\ i <> j
  end.
Proof.
  intros Hfuel Hpos Hn. revert offset start Hfuel. induction fuel as [|fuel IH]; intros offset start Hfuel Hstart Hseen; [lia|].
  cbn [taskLoop].
  assert (Hend : (forall i, line text marker i -> (i < offset)%nat) ->
    match start with Some i => line text marker i /\ forall j, line text marker j -> j = i | None => forall j, ~ line text marker j end).
  { intros Hall. destruct start as [i|].
    - split; [by apply Hstart|]. intros j Hj. pose proof (Hseen j Hj (Hall j Hj)). congruence.
    - intros j Hj. by specialize (Hseen j Hj (Hall j Hj)). }
  destruct (Nat.leb_spec (String.length text) offset) as [Hle|Hlt].
  { apply Hend. intros i Hi. apply line_length in Hi. lia. }
  destruct (Index (str_drop offset text) marker) as [found|] eqn:Hf.
  - apply Index_first in Hf as [Hocc Hmin]. rewrite occurs_drop in Hocc by lia.
    assert (Hafter : forall i, line text marker i -> (offset <= i)%nat -> i = (found + offset)%nat \/
      (found + offset + String.length marker <= i)%nat).
    { intros i Hi Hge. destruct (Nat.eq_dec i (found + offset)) as [|Hne]; [by left|]. right.
      apply (line_apart text); [done..|]. assert (found <= i - offset)%nat; [|lia]. apply Hmin. apply occurs_drop; [lia|].
      replace (i - offset + offset)%nat with i by lia. apply Hi. }
    destruct (wholeLine text marker (found + offset)) eqn:Hw.
    + assert (Hline : line text marker (found + offset)) by done. destruct start as [i|].
      * split; [done|]. exists i, (found + offset)%nat. destruct (Hstart i eq_refl) as [H1 H2]. split_and!; [done|done|lia].
      * apply IH; [lia| |].
        -- intros i [= <-]. split; [done|lia].
        -- intros i Hi Hlt'. destruct (decide (i < offset)%nat) as [H|H]; [by specialize (Hseen i Hi H)|].
           destruct (Hafter i Hi ltac:(lia)) as [->|]; [done|lia].
    + apply IH; [lia| |].
      * intros i E. destruct (Hstart i E) as [H1 H2]. split; [done|lia].
      * intros i Hi Hlt'. destruct (decide (i < offset)%nat) as [H|H]; [by apply Hseen|].
        destruct (Hafter i Hi ltac:(lia)) as [->|]; [destruct Hi; congruence|lia].
  - apply Hend. intros i Hi. destruct (decide (i < offset)%nat) as [|H]; [done|]. exfalso.
    apply (Index_never _ _ Hf (i - offset)). apply occurs_drop; [lia|]. replace (i - offset + offset)%nat with i by lia. apply Hi.
Qed.

Lemma requireEvidence_ok source text fragments : requireEvidence source text fragments = Ok tt <->
  Forall (fun fragment => Contains text fragment = true) fragments.
Proof.
  unfold requireEvidence. destruct (find _ fragments) as [x|] eqn:E.
  - apply find_some in E as [Hin Hx]. split; [done|]. rewrite Forall_forall. intros H. apply list_elem_of_In in Hin. apply H in Hin. by rewrite Hin in Hx.
  - split; [|done]. intros _. apply Forall_forall. intros x Hx%list_elem_of_In. pose proof (find_none _ _ E x Hx) as Hc. by apply negb_false_iff.
Qed.

(** Exactly one line names the task, and its item of the list has the fragments. *)
Definition taskHas (text task : string) (fragments : list string) : Prop :=
  exists i, line text ("- name: " +:+ task) i /\ (forall j, line text ("- name: " +:+ task) j -> j = i) /\
    Forall (fun fragment => Contains (segmentAt text ("- name: " +:+ task) i) fragment = true) fragments.

Lemma taskEvidence_ok text source task fragments : IndexByte task "010" = None ->
  validateKubesprayTaskEvidence text source task fragments = Ok tt <-> taskHas text task fragments.
Proof.
  intros Hn. unfold validateKubesprayTaskEvidence, taskHas. set (marker := "- name: " +:+ task).
  assert (Hm : IndexByte marker "010" = None /\ (0 < String.length marker)%nat).
  { unfold marker. split; [rewrite IndexByte_append_None by done; by rewrite Hn|rewrite str_length_append; cbn; lia]. }
  pose proof (taskLoop_ok (S (String.length text)) source task text marker 0 None ltac:(lia) (proj2 Hm) (proj1 Hm)
    ltac:(done) ltac:(intros; lia)) as H.
  destruct (taskLoop _ _ _ _ _ _ _) as [[i|]|e]; cbn [mbind result_bind].
  - destruct H as [H1 H2]. rewrite requireEvidence_ok. split; [intros; by exists i|].
    intros (j & Hj & _ & Hall). by rewrite (H2 j Hj) in Hall.
  - split; [done|]. intros (i & Hi & _). by destruct (H i).
  - destruct H as [_ (i & j & Hi & Hj & Hne)]. split; [done|]. intros (k & _ & Hk & _). destruct Hne. by rewrite (Hk i Hi), (Hk j Hj).
Qed.

(** The item of a task ends before the next item and has nothing of it. *)
Lemma segment_item text marker i : line text marker i ->
  exists body rest, str_drop i text = marker +:+ body +:+ rest /\ segmentAt text marker i = marker +:+ body /\
    Contains body (newline +:+ "- ") = false /\ (rest = "" \/ HasPrefix rest (newline +:+ "- ") = true).
Proof.
  intros Hl. pose proof (line_length _ _ _ Hl) as Hlen. destruct Hl as [[Hi [r Hr]%prefix_append_iff] _].
  assert (Hafter : str_drop (i + String.length marker) text = r).
  { rewrite (Nat.add_comm i), <- str_drop_drop, Hr. apply str_drop_append. }
  unfold segmentAt. rewrite Hafter, Hr. destruct (Index r (newline +:+ "- ")) as [next|] eqn:E.
  - pose proof (Index_first _ _ _ E) as [[Hn Hocc] Hmin]. exists (str_take next r), (str_drop next r).
    rewrite str_take_drop. split_and!; [done| | |by right].
    + replace (i + String.length marker + next - i)%nat with (String.length marker + next)%nat by lia. by apply str_take_add.
    + unfold Contains. apply bool_decide_eq_false. intros [j Hj]. apply Index_first in Hj as [[Hj Ho] _].
      apply prefix_append_iff in Ho as [w Hw]. pose proof (f_equal String.length Hw) as Hl.
      rewrite str_length_drop, str_length_take, str_length_append in Hl. change (String.length (newline +:+ "- ")) with 3%nat in Hl.
      assert (next <= j)%nat; [|lia]. apply Hmin. split; [lia|]. apply prefix_append_iff. exists (w +:+ str_drop next r).
      rewrite <- (str_take_drop next r) at 1. rewrite str_drop_append_le, Hw, str_append_assoc; [done|]. rewrite str_length_take. lia.
  - exists r, "". rewrite str_append_nil_r. split_and!; [done| | |by left].
    + apply (f_equal String.length) in Hr. rewrite str_length_drop, str_length_append in Hr.
      apply str_take_ge. rewrite str_length_append. lia.
    + unfold Contains. apply bool_decide_eq_false. rewrite E. by intros [? [=]].
Qed.

(** ** The contract *)

Section Lifecycle.
Context {SV : Semver} (readFile : string -> result string string) (kubeConfigDir : string -> option string).

Definition admitted (checkout : string) (file : kubesprayContractFile) : Prop :=
  exists text, readFile (JoinPath checkout (relative file)) = Ok text /\ (Z.of_nat (String.length text) <= 4194304)%Z /\
    (name file = "structured authentication defaults" -> kubeConfigDir text = Some "/etc/kubernetes") /\
    (if String.eqb (task file) "" then Forall (fun fragment => Contains text fragment = true) (evidence file)
     else taskHas text (task file) (evidence file)) /\
    Forall (fun c => Count text c.1 = c.2) (counts file).

Lemma requireCounts_ok source text l : requireCounts source text l = Ok tt <-> Forall (fun c => Count text c.1 = c.2) l.
Proof.
  unfold requireCounts. destruct (find _ l) as [[x k]|] eqn:E.
  - apply find_some in E as [Hin Hx]. split; [done|]. rewrite Forall_forall. intros H. apply list_elem_of_In in Hin. apply H in Hin.
    cbn in Hin, Hx. by rewrite Hin, Nat.eqb_refl in Hx.
  - split; [|done]. intros _. apply Forall_forall. intros x Hx%list_elem_of_In. pose proof (find_none _ _ E x Hx) as Hc.
    by apply negb_false_iff, Nat.eqb_eq in Hc.
Qed.

Lemma validateFile_ok checkout file : IndexByte (task file) "010" = None ->
  validateFile readFile kubeConfigDir checkout file = Ok tt <-> admitted checkout file.
Proof.
  intros Hn. unfold validateFile, admitted, readKubesprayEvidence.
  assert (Hbody : forall text, (if negb (String.eqb (task file) "") then validateKubesprayTaskEvidence text (name file) (task file) (evidence file)
      else requireEvidence (name file) text (evidence file)) = Ok tt <->
    (if String.eqb (task file) "" then Forall (fun fragment => Contains text fragment = true) (evidence file)
     else taskHas text (task file) (evidence file))).
  { intros text. destruct (String.eqb (task file) ""); cbn [negb]; [apply requireEvidence_ok|by apply taskEvidence_ok]. }
  assert (Hdef : forall text, (if String.eqb (name file) "structured authentication defaults" then
      match kubeConfigDir text with None => Err Defaults
      | Some dir => guard_err (negb (String.eqb dir "/etc/kubernetes")) (ConfigDir dir) end else Ok tt) = Ok tt <->
    (name file = "structured authentication defaults" -> kubeConfigDir text = Some "/etc/kubernetes")).
  { intros text. destruct (String.eqb_spec (name file) "structured authentication defaults") as [E|E]; [|naive_solver].
    destruct (kubeConfigDir text) as [dir|]; [|naive_solver]. rewrite guard_err_ok, negb_false_iff, String.eqb_eq. naive_solver. }
  split.
  - intros (text & (data & Hr%wrap_ok_iff & Hsize)%bind_ok_iff & H)%bind_ok_iff. apply bind_ok_iff in H as ([] & Hd & H).
    apply bind_ok_iff in H as ([] & Hb & Hc%requireCounts_ok). exists text.
    destruct (Z.of_nat (String.length data) >? 4194304)%Z eqn:E; [done|]. injection Hsize as ->.
    split_and!; [done|lia|by apply Hdef|by apply Hbody|done].
  - intros (text & Hr & Hsize & Hd & Hb & Hc). apply bind_ok_iff. exists text. split.
    + apply bind_ok_iff. exists text. split; [by apply wrap_ok_iff|]. by replace (Z.of_nat (String.length text) >? 4194304)%Z with false by lia.
    + apply bind_ok_iff. exists tt. split; [by apply Hdef|]. apply bind_ok_iff. exists tt. split; [by apply Hbody|by apply requireCounts_ok].
Qed.

Lemma validateFiles_ok checkout files : Forall (fun file => IndexByte (task file) "010" = None) files ->
  validateFiles readFile kubeConfigDir checkout files = Ok tt <-> Forall (admitted checkout) files.
Proof.
  induction 1 as [|file files Hf Hfs IH]; cbn [validateFiles]; [by split|]. rewrite bind_ok_iff, Forall_cons, <- validateFile_ok by done.
  split; [intros ([] & H1 & H2); split; [done|by apply IH]|intros [H1 H2]; exists tt; split; [done|by apply IH]].
Qed.

Lemma contract_tasks : Forall (fun file => IndexByte (task file) "010" = None) kubesprayScopedAnonymousContract.
Proof.
  assert (forallb (fun file => bool_decide (IndexByte (task file) "010" = None)) kubesprayScopedAnonymousContract = true) as H
    by (vm_compute; reflexivity).
  rewrite forallb_forall in H. apply Forall_forall. intros file Hin%list_elem_of_In. by apply H, bool_decide_eq_true in Hin.
Qed.
End Lifecycle.

(** C36. A Kubespray checkout is admitted exactly when the Kubernetes version has
    the structured authentication API and every file of the contract is readable
    within its limit, keeps the configuration directory, and has the evidence:
    anywhere in the file, or, for a task, in the item of the only line that
    names it; that item ends where the next item of the list begins. *)
Theorem kubespray_admitted {SV : Semver} (readFile : string -> result string string) (kubeConfigDir : string -> option string)
    (checkout kubernetes : string) :
  (ValidateKubesprayScopedAnonymousLifecycle readFile kubeConfigDir checkout kubernetes = Ok tt <->
   (exists selected exact, NewVersion (TrimPrefix kubernetes "v") = Some selected /\ NewVersion "1.34.0" = Some exact /\
      compareV selected exact <> Lt) /\
   Forall (admitted readFile kubeConfigDir checkout) kubesprayScopedAnonymousContract) /\
  (forall text marker i, line text marker i ->
     exists body rest, str_drop i text = marker +:+ body +:+ rest /\ segmentAt text marker i = marker +:+ body /\
       Contains body (newline +:+ "- ") = false /\ (rest = "" \/ HasPrefix rest (newline +:+ "- ") = true)).
Proof.
  split; [|apply segment_item]. unfold ValidateKubesprayScopedAnonymousLifecycle.
  rewrite bind_ok_iff. setoid_rewrite (validateFiles_ok readFile kubeConfigDir checkout _ contract_tasks).
  unfold AuthenticationConfigAPIVersion. split.
  - intros (v & Hv & Hall). split; [|done].
    destruct (NewVersion (TrimPrefix kubernetes "v")) as [selected|]; [|done]. destruct (NewVersion "1.34.0") as [exact|]; [|done].
    exists selected, exact. split_and!; [done|done|]. by destruct (compareV selected exact).
  - intros [(selected & exact & -> & -> & Hc) Hall]. exists "v1". split; [by destruct (compareV selected exact)|done].
Qed.

(** A checkout written from the contract is admitted; one task twice is not. *)
Module Sample.
Definition entry (file : kubesprayContractFile) : string :=
  (if String.eqb (task file) "" then "" else "- name: " +:+ task file +:+ newline) +:+
  fold_right (fun fragment rest => "  " +:+ fragment +:+ newline +:+ rest) "" (evidence file).
Definition file (path : string) : result string string :=
  match List.filter (fun f => String.eqb (JoinPath "/src" (relative f)) path) kubesprayScopedAnonymousContract with
  | [] => Err "no such file"
  | files => Ok (fold_right (fun f rest => entry f +:+ rest) "" files)
  end.
Example sample_admitted :
  validateFiles file (fun _ => Some "/etc/kubernetes") "/src" kubesprayScopedAnonymousContract = Ok tt.
Proof. vm_compute. reflexivity. Qed.
Example task_twice_refused :
  validateKubesprayTaskEvidence ("- name: x" +:+ newline +:+ "- name: x") "s" "x" [] = Err (DuplicateTask "s" "x").
Proof. vm_compute. reflexivity. Qed.
Example longer_name_is_another_task :
  validateKubesprayTaskEvidence ("- name: xy" +:+ newline +:+ "- name: x" +:+ newline +:+ "  a" +:+ newline +:+ "- b") "s" "x" ["a"] = Ok tt /\
  validateKubesprayTaskEvidence ("- name: xy" +:+ newline +:+ "- name: x" +:+ newline +:+ "  a" +:+ newline +:+ "- b") "s" "x" ["b"] =
    Err (MissingEvidence "s" "b").
Proof. split; vm_compute; reflexivity. Qed.
End Sample.
End KubeClaims.
