(* ===== verification/KubeObserve.v ===== *)
(** The read-only observation of a cluster: [cli/kube/resources.go] and
    [flux_root.go].  The API server may answer anything; secrets are buffers of
    a heap, so that what is cleared is visible. *)
From stdpp Require Import prelude gmap strings list.
From Stdlib Require Import Ascii ZArith Lia.
From S2P Require Import Prelude GoStrings BakeGraph.

Module KubeObserve.
Import BakeGraph.

Definition pageLimit : Z := 500.
Definition maxContinuation : Z := 16384.
Definition maxNodes : nat := N.to_nat 4096.
Definition maxResources : nat := N.to_nat 20000.
Definition maxServiceIngresses : nat := 32.
Definition maxTLSCertificateSize : Z := 1048576.

(** What the API answers to a read: absent, an error, or an object *)
Inductive answer (A : Type) := NotFound | Failed (cause : string) | Got (a : A).
Arguments NotFound {A}. Arguments Failed {A} cause. Arguments Got {A} a.

Inductive observeError :=
  | Api (cause : string)
  | Unsupported (resource : Z)
  | KeyRequired
  | ValueTooLarge (key : string)
  | TooManyIngresses
  | PageLimit
  | Continuation
  | TooMany (limit : nat)
  | RootTarget
  | ReadSource (cause : observeError)
  | ReadRelease (cause : observeError)
  | OneOnly
  | RootURL (url : string)
  | NoTag
  | ChartRef (kind namespace name : string).

(** The resources that are observed; another value of the type is refused *)
Inductive Resource :=
  | GitRepository | Kustomization | OCIRepository | HelmRelease | Certificate | PlatformIdentityConfiguration | OtherResource (code : Z).
Record GVR := { Group : string; Version : string; Name : string }.
Definition resourceGVR (resource : Resource) : result observeError GVR :=
  match resource with
  | GitRepository => Ok {| Group := "source.toolkit.fluxcd.io"; Version := "v1"; Name := "gitrepositories" |}
  | Kustomization => Ok {| Group := "kustomize.toolkit.fluxcd.io"; Version := "v1"; Name := "kustomizations" |}
  | OCIRepository => Ok {| Group := "source.toolkit.fluxcd.io"; Version := "v1"; Name := "ocirepositories" |}
  | HelmRelease => Ok {| Group := "helm.toolkit.fluxcd.io"; Version := "v2"; Name := "helmreleases" |}
  | Certificate => Ok {| Group := "cert-manager.io"; Version := "v1"; Name := "certificates" |}
  | PlatformIdentityConfiguration =>
      Ok {| Group := "platform.atum.dev"; Version := "v1alpha1"; Name := "platformidentityconfigurations" |}
  | OtherResource code => Err (Unsupported code)
  end.

(** ** Config maps, secrets and services *)

Record ConfigMap := { cmDeleting : bool; cmData : gmap string string }.
Definition ConfigMapData (object : answer ConfigMap) : result observeError (option (gmap string string)) :=
  match object with
  | NotFound => Ok None
  | Failed cause => Err (Api cause)
  | Got object => if cmDeleting object then Ok None else Ok (Some (cmData object))
  end.

(** The buffers of the process, and a secret that refers to them *)
Abbreviation buffers := (gmap nat string).
Record Secret := { sDeleting : bool; sData : gmap string nat }.

Definition zeros (s : string) : string := str_map (fun _ => "000"%char) s.
Definition clear (h : buffers) (a : nat) : buffers := match h !! a with Some s => <[a := zeros s]> h | None => h end.
Definition clearSecretData (h : buffers) (data : list (string * nat)) : buffers := fold_left (fun h e => clear h e.2) data h.

Section Secrets.
Context {MR : MapRange}.

(** The projection: the other values are cleared and removed, the selected one is
    copied; then the rest, by the deferred call *)
Definition selectValue (key : string) (h : buffers) (data : gmap string nat) : result observeError string * gmap string nat * buffers :=
  let h := clearSecretData h (filter (fun e => e.1 <> key) (range_ "SecretValue" "" data)) in
  let kept := filter (fun e => e.1 = key) data in
  match data !! key with
  | None => (Ok "", kept, h)
  | Some a =>
      let value := default "" (h !! a) in
      if (String.length value =? 0)%nat then (Ok "", kept, h)
      else if (Z.of_nat (String.length value) >? maxTLSCertificateSize)%Z then (Err (ValueTooLarge key), kept, h)
      else (Ok value, kept, h)
  end.

Definition observeSecret (object : answer Secret) (h : buffers)
    (project : buffers -> gmap string nat -> result observeError string * gmap string nat * buffers) :
  result observeError (option string) * buffers :=
  match object with
  | NotFound => (Ok None, h)
  | Failed cause => (Err (Api cause), h)
  | Got object =>
      if sDeleting object then (Ok None, clearSecretData h (range_ "clearSecretData" "" (sData object)))
      else
        let '(r, data, h) := project h (sData object) in
        (match r with Ok value => Ok (Some value) | Err e => Err e end, clearSecretData h (range_ "clearSecretData" "" data))
  end.

(** The value, or none where it is absent or empty *)
Definition SecretValue (key : string) (object : answer Secret) (h : buffers) : result observeError (option string) * buffers :=
  if String.eqb key "" then (Err KeyRequired, h)
  else
    let '(r, h) := observeSecret object h (selectValue key) in
    (match r with Ok (Some "") => Ok None | r => r end, h).
End Secrets.

(** The address of every ingress of a load balancer, empty for a host name *)
Definition ServiceIngressIPs (object : answer (bool * list string)) : result observeError (option (list string)) :=
  match object with
  | NotFound => Ok None
  | Failed cause => Err (Api cause)
  | Got (deleting, ingress) =>
      if deleting then Ok None
      else if (maxServiceIngresses <? length ingress)%nat then Err TooManyIngresses
      else Ok (Some (filter (fun ip => ip <> "") ingress))
  end.

(** ** Pages *)

Record ListOptions := { LabelSelector : string; Continue : string; Limit : Z }.
Definition validateListOptions (options : ListOptions) : result observeError unit :=
  if ((Limit options <? 0) || (pageLimit <? Limit options))%Z then Err PageLimit
  else if (maxContinuation <? Z.of_nat (String.length (Continue options)))%Z then Err Continuation
  else Ok tt.
Definition listLimit (limit : Z) : Z := if (limit =? 0)%Z then pageLimit else limit.

(** The pages of [Resources], [Pods] and [Nodes]: the answer to a page is any
    function of the round and the continuation.  [None] is a loop that has not
    ended within its fuel. *)
Fixpoint collectPages {A} (fuel : nat) (limit : nat) (fetch : nat -> string -> result observeError (list A * string))
    (round : nat) (items : list A) (continuation : string) : option (result observeError (list A)) :=
  match fuel with
  | 0%nat => None
  | S fuel =>
      match fetch round continuation with
      | Err e => Some (Err e)
      | Ok (page, next) =>
          if (limit <? length items + length page)%nat then Some (Err (TooMany limit))
          else if String.eqb next "" then Some (Ok (items ++ page))
          else collectPages fuel limit fetch (S round) (items ++ page) next
      end
  end.

(** ** Objects *)

(** Values of JSON as the client decodes them; a [float64] by what [int64] makes of it *)
Inductive any :=
  | ANull | ABool (b : bool) | AInt64 (z : Z) | AFloat64 (truncated : Z) | AString (s : string)
  | ASlice (l : list any) | AMap (m : list (string * any)).
Fixpoint assoc (m : list (string * any)) (key : string) : option any :=
  match m with [] => None | (k, v) :: m => if String.eqb k key then Some v else assoc m key end.
Definition isString (v : option any) (s : string) : bool := match v with Some (AString t) => String.eqb t s | _ => false end.
Definition asString (v : option any) : string := match v with Some (AString s) => s | _ => "" end.

(** The accessors of [unstructured]: an error, absence, or a value *)
Class Unstructured := {
  NestedInt64 : any -> list string -> option (option Z);
  NestedString : any -> list string -> option (option string);
  NestedSlice : any -> list string -> option (option (list any))
}.
(** An object of the API with what its metadata accessors answer *)
Record Item := {
  Content : any; GetName : string; GetNamespace : string; GetLabels : gmap string string;
  GetGeneration : Z; GetDeleting : bool
}.

Record Object := {
  OObject : any; OName : string; ONamespace : string; OLabels : gmap string string; Generation : Z; Deleting : bool; Ready : bool
}.
Definition IsReady (object : option Object) : bool := match object with Some object => Ready object | None => false end.

Section Objects.
Context {U : Unstructured}.

Definition stale (content : any) (generation : Z) : bool :=
  match NestedInt64 content ["status"; "observedGeneration"] with
  | None => true
  | Some (Some observed) => negb (observed =? generation)%Z
  | Some None => false
  end.

Fixpoint readyCondition (conditions : list any) (generation : Z) : bool :=
  match conditions with
  | [] => false
  | AMap condition :: conditions =>
      if negb (isString (assoc condition "status") "True") then readyCondition conditions generation
      else if negb (isString (assoc condition "type") "Ready") then readyCondition conditions generation
      else match assoc condition "observedGeneration" with
           | None => true
           | Some (AInt64 value) => (value =? generation)%Z
           | Some (AFloat64 value) => (value =? generation)%Z
           | Some _ => false
           end
  | _ :: conditions => readyCondition conditions generation
  end.

Definition objectReady (object : Item) : bool :=
  if GetDeleting object then false
  else if stale (Content object) (GetGeneration object) then false
  else match NestedSlice (Content object) ["status"; "conditions"] with
       | Some (Some conditions) => readyCondition conditions (GetGeneration object)
       | _ => false
       end.

Definition projectObject (item : Item) : Object :=
  {| OObject := Content item; OName := GetName item; ONamespace := GetNamespace item; OLabels := GetLabels item;
     Generation := GetGeneration item; Deleting := GetDeleting item; Ready := objectReady item |}.

(** [get] and [list_] are the dynamic client: resource, namespace, and the name or the page *)
Definition GetResource (get : GVR -> string -> string -> answer Item) (resource : Resource) (namespace name : string) :
  result observeError (option Object) :=
  gvr ← resourceGVR resource;
  match get gvr namespace name with NotFound => Ok None | Failed cause => Err (Api cause) | Got item => Ok (Some (projectObject item)) end.

Definition ListResources (list_ : GVR -> string -> ListOptions -> result string (list Item * string)) (resource : Resource)
    (namespace : string) (options : ListOptions) : result observeError (list Object * string) :=
  _ ← validateListOptions options;
  gvr ← resourceGVR resource;
  page ← wrap_err Api (list_ gvr namespace
           {| LabelSelector := LabelSelector options; Continue := Continue options; Limit := listLimit (Limit options) |});
  let '(items, next) := page : list _ * string in Ok (projectObject <$> items, next).

Definition Resources (fuel : nat) (list_ : nat -> GVR -> string -> ListOptions -> result string (list Item * string))
    (resource : Resource) (namespace labelSelector : string) : option (result observeError (list Object)) :=
  collectPages fuel maxResources
    (fun round continuation => ListResources (list_ round) resource namespace
       {| LabelSelector := labelSelector; Continue := continuation; Limit := pageLimit |})
    0 [] "".

(** ** Pods and nodes *)

Record Container := { CName : string; CImage : string }.
Record ApiPod := {
  aName : string; aNamespace : string; aLabels : gmap string string; aPhase : string; aDeleting : bool;
  initStatuses : list (string * string); statuses : list (string * string); ephemeralStatuses : list (string * string);
  initContainers : list Container; containers : list Container; ephemeralContainers : list Container;
  conditions : list (string * string)
}.
Record PodContainer := { PCName : string; PCImage : string; PCImageID : string }.
Record Pod := {
  PName : string; PNamespace : string; PLabels : gmap string string; Phase : string; PDeleting : bool; PReady : bool;
  Containers : list PodContainer
}.
Definition Succeeded (pod : Pod) : bool := String.eqb (Phase pod) "Succeeded".
Definition PodFailed (pod : Pod) : bool := String.eqb (Phase pod) "Failed".
Definition Terminal (pod : Pod) : bool := Succeeded pod || PodFailed pod.

(** The first condition of a type, if it is true *)
Definition conditionTrue (conditions : list (string * string)) (type : string) : bool :=
  match find (fun c => String.eqb c.1 type) conditions with Some c => String.eqb c.2 "True" | None => false end.

Definition projectPod (item : ApiPod) : Pod :=
  let images := fold_left (fun m e => <[e.1 := e.2]> m) (initStatuses item ++ statuses item ++ ephemeralStatuses item) (∅ : gmap string string) in
  {| PName := aName item; PNamespace := aNamespace item; PLabels := aLabels item; Phase := aPhase item; PDeleting := aDeleting item;
     PReady := String.eqb (aPhase item) "Running" && conditionTrue (conditions item) "Ready";
     Containers := (fun c => {| PCName := CName c; PCImage := CImage c; PCImageID := default "" (images !! CName c) |}) <$>
                     (initContainers item ++ containers item ++ ephemeralContainers item) |}.

Definition ListPods (list_ : string -> ListOptions -> result string (list ApiPod * string)) (namespace : string) (options : ListOptions) :
  result observeError (list Pod * string) :=
  _ ← validateListOptions options;
  page ← wrap_err Api (list_ namespace
           {| LabelSelector := LabelSelector options; Continue := Continue options; Limit := listLimit (Limit options) |});
  let '(items, next) := page : list _ * string in Ok (projectPod <$> items, next).

Definition Pods (fuel : nat) (list_ : nat -> string -> ListOptions -> result string (list ApiPod * string)) (namespace labelSelector : string) :
  option (result observeError (list Pod)) :=
  collectPages fuel maxResources
    (fun round continuation => ListPods (list_ round) namespace {| LabelSelector := labelSelector; Continue := continuation; Limit := pageLimit |})
    0 [] "".

Record ApiNode := {
  nName : string; nUnschedulable : bool; nKubeletVersion : string; nLabels : gmap string string; nConditions : list (string * string)
}.
Record Node := { NName : string; Unschedulable : bool; KubeletVersion : string; NReady : bool; ControlPlane : bool }.
Definition nodeHasControlPlaneRole (labels : gmap string string) : bool :=
  bool_decide (is_Some (labels !! "node-role.kubernetes.io/control-plane")) ||
  bool_decide (is_Some (labels !! "node-role.kubernetes.io/master")).
Definition projectNode (item : ApiNode) : Node :=
  {| NName := nName item; Unschedulable := nUnschedulable item; KubeletVersion := nKubeletVersion item;
     NReady := existsb (fun c => String.eqb c.1 "Ready" && String.eqb c.2 "True") (nConditions item);
     ControlPlane := nodeHasControlPlaneRole (nLabels item) |}.
Definition Nodes (fuel : nat) (list_ : nat -> ListOptions -> result string (list ApiNode * string)) :
  option (result observeError (list Node)) :=
  collectPages fuel maxNodes
    (fun round continuation =>
       page ← wrap_err Api (list_ round {| LabelSelector := ""; Continue := continuation; Limit := pageLimit |});
       let '(items, next) := page : list _ * string in Ok (projectNode <$> items, next))
    0 [] "".

(** ** The Flux root *)

Record FluxRootTarget := { URL : string; Tag : string }.
Record FluxRootObservation := {
  Found : bool; TargetCurrent : bool; ObservedTag : string; SourceReady : bool; SourceMessage : string;
  HelmReleaseReady : bool; HelmMessage : string
}.
Definition absent : FluxRootObservation :=
  {| Found := false; TargetCurrent := false; ObservedTag := ""; SourceReady := false; SourceMessage := "";
     HelmReleaseReady := false; HelmMessage := "" |}.
Definition Complete (o : FluxRootObservation) : bool := Found o && TargetCurrent o && SourceReady o && HelmReleaseReady o.

Fixpoint conditionDiagnostic (conditions : list any) : string :=
  match conditions with
  | [] => "Ready condition is absent"
  | AMap condition :: conditions =>
      if negb (isString (assoc condition "type") "Ready") then conditionDiagnostic conditions
      else
        let reason := asString (assoc condition "reason") in
        let message := asString (assoc condition "message") in
        if negb (String.eqb reason "") && negb (String.eqb message "") then reason +:+ ": " +:+ message
        else if negb (String.eqb message "") then message
        else if negb (String.eqb reason "") then reason
        else "Ready condition does not establish current readiness"
  | _ :: conditions => conditionDiagnostic conditions
  end.

Definition readinessDiagnostic (object : option Object) (ready : bool) : string :=
  if ready then ""
  else match object with
       | None => "resource is absent"
       | Some object =>
           if Deleting object then "resource is deleting"
           else match NestedInt64 (OObject object) ["status"; "observedGeneration"] with
                | None => "status observedGeneration is invalid"
                | Some observed =>
                    if match observed with Some z => negb (z =? Generation object)%Z | None => false end
                    then "status observedGeneration is stale"
                    else match NestedSlice (OObject object) ["status"; "conditions"] with
                         | Some (Some conditions) => conditionDiagnostic conditions
                         | _ => "Ready condition is absent"
                         end
                end
       end.

(** [NestedString] where the error and the absence are not looked at *)
Definition textAt (content : any) (path : list string) : string :=
  match NestedString content path with Some (Some s) => s | _ => "" end.

Definition ObserveFluxHelmRoot (get : GVR -> string -> string -> answer Item) (namespace name : string) (target : FluxRootTarget) :
  result observeError FluxRootObservation :=
  _ ← guard_err (String.eqb (URL target) "" || String.eqb (Tag target) "") RootTarget;
  source ← wrap_err ReadSource (GetResource get OCIRepository namespace name);
  release ← wrap_err ReadRelease (GetResource get HelmRelease namespace name);
  match source, release with
  | Some _, None | None, Some _ => Err OneOnly
  | None, None => Ok absent
  | Some source, Some release =>
      _ ← (match NestedString (OObject source) ["spec"; "url"] with
           | Some (Some url) => guard_err (negb (String.eqb url (URL target))) (RootURL url)
           | _ => Err (RootURL "")
           end);
      tag ← (match NestedString (OObject source) ["spec"; "ref"; "tag"] with
             | Some (Some tag) => if String.eqb tag "" then Err NoTag else Ok tag
             | _ => Err NoTag
             end);
      let kind := textAt (OObject release) ["spec"; "chartRef"; "kind"] in
      let chartName := textAt (OObject release) ["spec"; "chartRef"; "name"] in
      let chartNamespace := textAt (OObject release) ["spec"; "chartRef"; "namespace"] in
      _ ← guard_err (negb (String.eqb kind "OCIRepository") || negb (String.eqb chartName name) ||
                     negb (String.eqb chartNamespace "") && negb (String.eqb chartNamespace namespace))
            (ChartRef kind chartNamespace chartName);
      let sourceReady := IsReady (Some source) in
      let helmReady := IsReady (Some release) in
      Ok {| Found := true; TargetCurrent := String.eqb tag (Tag target); ObservedTag := tag;
            SourceReady := sourceReady; SourceMessage := readinessDiagnostic (Some source) sourceReady;
            HelmReleaseReady := helmReady; HelmMessage := readinessDiagnostic (Some release) helmReady |}
  end.
End Objects.
End KubeObserve.
