(* ===== verification/ObserveClaims.v ===== *)
(** What an observation of the cluster may be relied on for. *)
From stdpp Require Import prelude gmap strings list.
From Stdlib Require Import Ascii ZArith Lia.
From S2P Require Import Prelude GoStrings BakeGraph KubeObserve.

Module ObserveClaims.
Import BakeGraph KubeObserve.

(** ** Readiness *)

Section Ready.
Context {U : Unstructured}.

(** A condition [Ready] that is true, for the generation of the object where it names one *)
Definition current (condition : list (string * any)) (generation : Z) : Prop :=
  match assoc condition "observedGeneration" with
  | None => True
  | Some (AInt64 value) | Some (AFloat64 value) => value = generation
  | Some _ => False
  end.
Definition isTrue (v : any) : bool :=
  match v with AMap c => isString (assoc c "status") "True" && isString (assoc c "type") "Ready" | _ => false end.

Lemma readyCondition_iff conditions generation : readyCondition conditions generation = true <->
  exists before condition after, conditions = before ++ AMap condition :: after /\
    Forall (fun v => isTrue v = false) before /\ isTrue (AMap condition) = true /\ current condition generation.
Proof.
  induction conditions as [|v conditions IH]; [split; [done|]; intros (? & ? & ? & E & _); by destruct x|].
  assert (Hskip : isTrue v = false -> readyCondition (v :: conditions) generation = readyCondition conditions generation).
  { destruct v as [| | | | | |c]; try done. cbn. destruct (isString (assoc c "status") "True"); [|done].
    by destruct (isString (assoc c "type") "Ready"). }
  destruct (isTrue v) eqn:Ht.
  - destruct v as [| | | | | |c]; try done. cbn [readyCondition]. pose proof Ht as Ht'. cbn in Ht'. apply andb_true_iff in Ht' as [-> ->]. cbn [negb].
    assert (Hcur : match assoc c "observedGeneration" with None => true | Some (AInt64 value) | Some (AFloat64 value) => (value =? generation)%Z
      | Some _ => false end = true <-> current c generation).
    { unfold current. destruct (assoc c "observedGeneration") as [[]|]; try done; apply Z.eqb_eq. }
    split.
    + intros H. exists [], c, conditions. split_and!; [done|constructor|done|]. by apply Hcur.
    + intros ([|b before] & c' & after & E & Hb & _ & Hc); cbn in E; [injection E as <- _; by apply Hcur|].
      injection E as <- _. inversion Hb. congruence.
  - rewrite Hskip by done. rewrite IH. split.
    + intros (before & c & after & -> & Hb & H). exists (v :: before), c, after. split; [done|]. split; [by constructor|done].
    + intros ([|b before] & c & after & E & Hb & Hc & H); cbn in E; [injection E as -> _; congruence|]. injection E as <- E.
      inversion Hb. by exists before, c, after.
Qed.

Definition fresh (object : Item) : Prop :=
  GetDeleting object = false /\
  match NestedInt64 (Content object) ["status"; "observedGeneration"] with
  | None => False
  | Some None => True
  | Some (Some observed) => observed = GetGeneration object
  end.

(** The object is not being deleted, its status is for its generation, and so is
    its first true condition [Ready]. *)
Definition isReady (object : Item) : Prop :=
  fresh object /\ exists before condition after,
    NestedSlice (Content object) ["status"; "conditions"] = Some (Some (before ++ AMap condition :: after)) /\
    Forall (fun v => isTrue v = false) before /\ isTrue (AMap condition) = true /\ current condition (GetGeneration object).

Lemma objectReady_iff object : objectReady object = true <-> isReady object.
Proof.
  unfold objectReady, isReady, fresh, stale. destruct (GetDeleting object); [naive_solver|].
  destruct (NestedInt64 _ _) as [[observed|]|]; [destruct (Z.eqb_spec observed (GetGeneration object)); cbn [negb]| |]; [|naive_solver| |naive_solver].
  all: destruct (NestedSlice _ _) as [[conditions|]|]; [rewrite readyCondition_iff|naive_solver..]; naive_solver.
Qed.

Lemma conditionDiagnostic_text conditions : conditionDiagnostic conditions <> "".
Proof.
  induction conditions as [|v conditions IH]; [done|]. destruct v as [| | | | | |c]; try done. cbn [conditionDiagnostic].
  destruct (isString (assoc c "type") "Ready"); cbn [negb]; [|done].
  destruct (String.eqb_spec (asString (assoc c "reason")) "") as [|Hr]; destruct (String.eqb_spec (asString (assoc c "message")) "") as [|Hm];
    cbn [negb andb]; try done.
  destruct (asString (assoc c "reason")); [done|]. by rewrite str_append_cons.
Qed.

Lemma diagnostic_iff object ready : readinessDiagnostic object ready = "" <-> ready = true.
Proof.
  unfold readinessDiagnostic. destruct ready; [done|]. split; [|done]. intros H. exfalso. revert H.
  destruct object as [object|]; [|done]. destruct (Deleting object); [done|]. destruct (NestedInt64 _ _) as [observed|]; [|done].
  destruct (match observed with Some _ => _ | None => _ end); [done|]. destruct (NestedSlice _ _) as [[conditions|]|]; try done.
  apply conditionDiagnostic_text.
Qed.

(** ** The Flux root *)

(** The root is there, selects the target, and its release uses the source of the same name. *)
Definition selects (namespace name : string) (target : FluxRootTarget) (source release : Item) (tag : string) : Prop :=
  NestedString (Content source) ["spec"; "url"] = Some (Some (URL target)) /\
  NestedString (Content source) ["spec"; "ref"; "tag"] = Some (Some tag) /\ tag <> "" /\
  textAt (Content release) ["spec"; "chartRef"; "kind"] = "OCIRepository" /\
  textAt (Content release) ["spec"; "chartRef"; "name"] = name /\
  (textAt (Content release) ["spec"; "chartRef"; "namespace"] = "" \/
   textAt (Content release) ["spec"; "chartRef"; "namespace"] = namespace).

Definition sourceGVR : GVR := {| Group := "source.toolkit.fluxcd.io"; Version := "v1"; Name := "ocirepositories" |}.
Definition releaseGVR : GVR := {| Group := "helm.toolkit.fluxcd.io"; Version := "v2"; Name := "helmreleases" |}.

Lemma observeRoot_iff get namespace name target o :
  let sourceItem := get sourceGVR namespace name in
  let releaseItem := get releaseGVR namespace name in
  ObserveFluxHelmRoot get namespace name target = Ok o <->
  URL target <> "" /\ Tag target <> "" /\
  (sourceItem = NotFound /\ releaseItem = NotFound /\ o = absent \/
   exists source release tag, sourceItem = Got source /\ releaseItem = Got release /\ selects namespace name target source release tag /\
     o = {| Found := true; TargetCurrent := String.eqb tag (Tag target); ObservedTag := tag;
            SourceReady := objectReady source; SourceMessage := readinessDiagnostic (Some (projectObject source)) (objectReady source);
            HelmReleaseReady := objectReady release;
            HelmMessage := readinessDiagnostic (Some (projectObject release)) (objectReady release) |}).
Proof.
  intros sourceItem releaseItem. unfold ObserveFluxHelmRoot, GetResource, selects. cbn [resourceGVR mbind result_bind].
  fold sourceGVR releaseGVR. fold sourceItem releaseItem. generalize sourceItem releaseItem. clear. intros sourceItem releaseItem.
  rewrite guard_bind_iff, orb_false_iff, !String.eqb_neq, !bind_ok_iff.
  rewrite <- (and_assoc (URL target <> "")). do 2 apply and_iff_compat_l.
  destruct sourceItem as [|?|source]; cbn [wrap_err].
  2: { split; [intros (? & [=] & _)|naive_solver]. }
  - split.
    + intros (? & [= <-] & H). apply bind_ok_iff in H as (rel & Hr & H). destruct releaseItem; cbn in Hr; try done.
      * injection Hr as <-. injection H as <-. by left.
      * by injection Hr as <-.
    + intros [(_ & -> & ->)|(? & ? & ? & [=] & _)]. exists None. done.
  - destruct releaseItem as [|?|release]; cbn [wrap_err].
    1,2: split; [intros (? & [= <-] & H); by apply bind_ok_iff in H as (? & [= <-] & H) || (apply bind_ok_iff in H as (? & [=] & _))|naive_solver].
    split.
    + intros (? & [= <-] & H). cbn [mbind result_bind] in H. apply bind_ok_iff in H as ([] & Hu & H). apply bind_ok_iff in H as (tag & Ht & H).
      apply guard_bind_iff in H as [Hc [= <-]]. right. exists source, release, tag. cbn in *. reflect_bool.
      destruct (NestedString _ ["spec"; "url"]) as [[url|]|]; try done. apply guard_err_ok, negb_false_iff, String.eqb_eq in Hu as ->.
      destruct (NestedString _ ["spec"; "ref"; "tag"]) as [[t|]|]; try done. destruct (String.eqb_spec t ""); [done|]. injection Ht as ->.
      repeat match goal with H : String.eqb _ _ = true |- _ => apply String.eqb_eq in H end.
      split_and!; try done. apply andb_false_iff in H0 as [H0|H0]; apply negb_false_iff, String.eqb_eq in H0; auto.
    + intros [(? & ? & ?)|(s & r & tag & [= <-] & [= <-] & (Hu & Ht & Hne & Hk & Hn & Hns) & ->)]; [done|].
      exists (Some (projectObject source)). split; [done|]. cbn [mbind result_bind projectObject OObject]. rewrite Hu, Ht.
      rewrite String.eqb_refl. cbn [guard_err negb mbind result_bind]. destruct (String.eqb_spec tag ""); [done|]. cbn [mbind result_bind].
      rewrite Hk, Hn, !String.eqb_refl. destruct Hns as [-> | ->]; cbn; rewrite ?String.eqb_refl, ?andb_false_r; done.
Qed.
End Ready.

(** ** Pages *)

Section Pages.
Context {A : Type} (limit : nat) (fetch : nat -> string -> result observeError (list A * string)).

(** The pages that follow one another from a continuation to the last *)
Inductive chain : nat -> string -> list (list A) -> Prop :=
  | chain_last round c page : fetch round c = Ok (page, "") -> chain round c [page]
  | chain_next round c page next pages :
      fetch round c = Ok (page, next) -> next <> "" -> chain (S round) next pages -> chain round c (page :: pages).

Lemma collectPages_iff fuel round items c out : collectPages fuel limit fetch round items c = Some (Ok out) <->
  exists pages, chain round c pages /\ (length pages <= fuel)%nat /\ out = items ++ concat pages /\ (length out <= limit)%nat.
Proof.
  revert round items c. induction fuel as [|fuel IH]; intros round items c; cbn [collectPages].
  { split; [done|]. intros (pages & Hc & Hl & _). by inversion Hc; subst; cbn in Hl; lia. }
  destruct (fetch round c) as [[page next]|e] eqn:Hf.
  2: { split; [done|]. intros (pages & Hc & _). inversion Hc; congruence. }
  destruct (Nat.ltb_spec limit (length items + length page)) as [Hlt|Hle].
  { split; [done|]. intros (pages & Hc & _ & -> & Hl).
    inversion Hc as [? ? p' Hf'|? ? p' n' ps Hf' Hn' Hch]; subst; rewrite Hf in Hf'; injection Hf' as -> ->;
      cbn in Hl; rewrite !length_app in Hl; cbn in Hl; lia. }
  destruct (String.eqb_spec next "") as [->|Hne].
  - split.
    + intros [= <-]. exists [page]. split_and!; [by constructor|cbn; lia|cbn; by rewrite app_nil_r|by rewrite length_app].
    + intros (pages & Hc & _ & -> & _). inversion Hc as [? ? p' Hf'|? ? p' n' ps Hf' Hn' Hch]; subst; [|congruence].
      rewrite Hf in Hf'. injection Hf' as ->. cbn. by rewrite app_nil_r.
  - rewrite IH. split.
    + intros (pages & Hc & Hl & -> & Ho). exists (page :: pages). split_and!; [by econstructor|cbn; lia| |done].
      cbn. by rewrite (assoc_L (++)).
    + intros (pages & Hc & Hl & -> & Ho). inversion Hc as [|? ? p' n' ps Hf' Hn' Hch]; subst; [congruence|]. rewrite Hf in Hf'. injection Hf' as -> ->.
      exists ps. cbn in *. split_and!; [done|lia|by rewrite (assoc_L (++))|done].
Qed.

(** A server that only continues after a page with something on it is read to an
    end within the limit. *)
Lemma collectPages_ends fuel round items c : (forall r c page next, fetch r c = Ok (page, next) -> next <> "" -> page <> []) ->
  (limit + 1 < fuel + length items)%nat -> (1 <= fuel)%nat -> is_Some (collectPages fuel limit fetch round items c).
Proof.
  intros Hpage. revert round items c. induction fuel as [|fuel IH]; intros round items c Hf Hpos; [lia|]. cbn [collectPages].
  destruct (fetch round c) as [[page next]|e] eqn:E; [|eauto]. destruct (Nat.ltb_spec limit (length items + length page)); [eauto|].
  destruct (String.eqb_spec next "") as [|Hne]; [eauto|]. pose proof (Hpage _ _ _ _ E Hne) as Hp.
  assert (0 < length page)%nat by (destruct page; [done|cbn; lia]). apply IH; [rewrite length_app; lia|lia].
Qed.
End Pages.

(** ** Secrets *)

Lemma zeros_idem s : zeros (zeros s) = zeros s.
Proof. induction s as [|c s IH]; [done|]. cbn. f_equal. exact IH. Qed.

Lemma clear_lookup h a b : clear h a !! b = if decide (a = b) then zeros <$> h !! b else h !! b.
Proof.
  unfold clear. destruct (h !! a) as [s|] eqn:E; destruct (decide (a = b)) as [<-|Hne].
  - by rewrite lookup_insert_eq, E.
  - by rewrite lookup_insert_ne.
  - by rewrite E.
  - done.
Qed.

Lemma clearSecretData_lookup data h b : clearSecretData h data !! b = if decide (b ∈ data.*2) then zeros <$> h !! b else h !! b.
Proof.
  revert h. induction data as [|[k a] data IH]; intros h; [done|]. cbn. fold (clearSecretData (clear h a) data).
  rewrite IH, clear_lookup. destruct (decide (b ∈ data.*2)) as [Hin|Hout], (decide (a = b)) as [->|Hne];
    destruct (decide (b ∈ _ :: data.*2)) as [Hin'|Hout']; try set_solver; try done.
  destruct (h !! b) as [s|]; [|done]. cbn. by rewrite zeros_idem.
Qed.

Section Secrets.
Context {MR : MapRange}.

Lemma range_values {A} f (m : gmap string A) a : a ∈ (range_ f "" m).*2 <-> exists k, m !! k = Some a.
Proof.
  rewrite range_perm, list_elem_of_fmap. split.
  - intros ([k b] & -> & H%elem_of_map_to_list). eauto.
  - intros [k H]. exists (k, a). split; [done|]. by apply elem_of_map_to_list.
Qed.

(** The buffers of a secret are cleared, and no other. *)
Definition cleared (secret : Secret) (h h' : buffers) : Prop :=
  (forall k a, sData secret !! k = Some a -> h' !! a = zeros <$> h !! a) /\
  (forall a, (forall k, sData secret !! k <> Some a) -> h' !! a = h !! a).

Lemma clear_all secret h f : cleared secret h (clearSecretData h (range_ f "" (sData secret))).
Proof.
  split; [intros k a Hk|intros a Hk]; rewrite clearSecretData_lookup.
  - by rewrite decide_True by (apply range_values; eauto).
  - rewrite decide_False; [done|]. intros [k H]%range_values. by apply (Hk k).
Qed.

(** The projection clears the other values, the deferred call the selected one. *)
Lemma clear_both key secret h : let data := sData secret in
  let h1 := clearSecretData h (filter (fun e => e.1 <> key) (range_ "SecretValue" "" data)) in
  cleared secret h (clearSecretData h1 (range_ "clearSecretData" "" (filter (fun e => e.1 = key) data))) /\
  ((forall k k' a, data !! k = Some a -> data !! k' = Some a -> k = k') -> forall a, data !! key = Some a -> h1 !! a = h !! a).
Proof.
  intros data h1.
  assert (H1 : forall a, a ∈ (filter (fun e => e.1 <> key) (range_ "SecretValue" "" data)).*2 <-> exists k, k <> key /\ data !! k = Some a).
  { intros a. rewrite list_elem_of_fmap. split.
    - intros ([k b] & -> & [Hk Hin]%(list_elem_of_filter (fun e : string * nat => e.1 <> key))). rewrite range_perm in Hin.
      apply elem_of_map_to_list in Hin. eauto.
    - intros (k & Hk & Hd). exists (k, a). split; [done|]. apply (list_elem_of_filter (fun e : string * nat => e.1 <> key)).
      split; [done|]. rewrite range_perm. by apply elem_of_map_to_list. }
  assert (H2 : forall a, a ∈ (range_ "clearSecretData" "" (filter (fun e => e.1 = key) data)).*2 <-> data !! key = Some a).
  { intros a. rewrite range_values. setoid_rewrite map_lookup_filter_Some. cbn. naive_solver. }
  split.
  - split; [intros k a Hk|intros a Hk]; rewrite clearSecretData_lookup; unfold h1; rewrite clearSecretData_lookup.
    + destruct (decide (k = key)) as [->|Hne].
      * rewrite decide_True by by apply H2. destruct (decide _); [|done]. destruct (h !! a); [|done]. cbn. by rewrite zeros_idem.
      * rewrite (decide_True (P := a ∈ (filter _ _).*2)) by (apply H1; eauto). destruct (decide _); [|done].
        destruct (h !! a); [|done]. cbn. by rewrite zeros_idem.
    + rewrite decide_False by (intros H%H2; by apply (Hk key)). rewrite decide_False; [done|]. intros (k & _ & H)%H1. by apply (Hk k).
  - intros Hinj a Ha. unfold h1. rewrite clearSecretData_lookup, decide_False; [done|]. intros (k & Hne & Hd)%H1.
    apply Hne. by eapply Hinj.
Qed.

Lemma SecretValue_got key secret h : key <> "" ->
  (forall k k' a, sData secret !! k = Some a -> sData secret !! k' = Some a -> k = k') ->
  cleared secret h (SecretValue key (Got secret) h).2 /\
  forall v, (SecretValue key (Got secret) h).1 = Ok (Some v) <->
    sDeleting secret = false /\ v <> "" /\ (Z.of_nat (String.length v) <= maxTLSCertificateSize)%Z /\
    exists a, sData secret !! key = Some a /\ default "" (h !! a) = v.
Proof.
  intros Hkey Hinj. unfold SecretValue, observeSecret. apply String.eqb_neq in Hkey. rewrite Hkey.
  destruct (sDeleting secret); [split; [apply clear_all|naive_solver]|].
  destruct (clear_both key secret h) as [Hc Hv]. specialize (Hv Hinj). unfold selectValue.
  destruct (sData secret !! key) as [a|] eqn:Ha; [|split; [exact Hc|naive_solver]].
  rewrite (Hv a eq_refl). set (value := default "" (h !! a)).
  destruct (Nat.eqb_spec (String.length value) 0) as [Hz|Hnz].
  { split; [exact Hc|]. intros v. split; [done|]. intros (_ & Hne & _ & b & [= <-] & Hb). destruct Hne. rewrite <- Hb. fold value. by destruct value. }
  assert (value <> "") as Hne by (intros E; by rewrite E in Hnz).
  destruct (Z.gtb_spec (Z.of_nat (String.length value)) maxTLSCertificateSize) as [Hgt|Hle].
  - split; [exact Hc|]. intros v. split; [done|]. intros (_ & _ & Hl & b & [= <-] & Hb). fold value in Hb. subst v. lia.
  - split; [exact Hc|]. intros v. cbn [fst]. assert ((match value with "" => Ok None | _ => Ok (Some value) end : result observeError (option string)) = Ok (Some value)) as E
      by by destruct value.
    split.
    + intros H. assert (value = v) as <- by (destruct value; [done|by injection H]). split_and!; [done|done|lia|by exists a].
    + intros (_ & _ & _ & b & [= <-] & <-). fold value. by destruct value.
Qed.
End Secrets.

(** C16. What an observation says, whatever the API server answers.
    A Flux root is complete exactly when source and release are there, select the
    URL and the tag of the target and each other, and both are ready for their
    current generation; a message is empty exactly for what is ready.  A listing
    that is returned is the whole chain of its pages, in order and within the
    limit, every such chain is returned given the rounds, and a server that
    never continues after an empty page is read to an end in two rounds more than
    the limit.  Of a secret the selected value is returned, unless it is empty or too large,
    and every buffer that was received is cleared, and no other. *)
Theorem cluster_observed {U : Unstructured} {MR : MapRange} :
  (forall get namespace name target o, ObserveFluxHelmRoot get namespace name target = Ok o ->
     (Complete o = true <-> exists source release,
        get sourceGVR namespace name = Got source /\ get releaseGVR namespace name = Got release /\
        selects namespace name target source release (Tag target) /\ isReady source /\ isReady release) /\
     (Found o = true -> (SourceMessage o = "" <-> SourceReady o = true) /\ (HelmMessage o = "" <-> HelmReleaseReady o = true))) /\
  (forall list_ resource namespace selector fuel objects,
     let fetch := fun round continuation => ListResources (list_ round) resource namespace {| LabelSelector := selector; Continue := continuation; Limit := pageLimit |} in
     (Resources fuel list_ resource namespace selector = Some (Ok objects) <->
        exists pages, chain fetch 0 "" pages /\ (length pages <= fuel)%nat /\ objects = concat pages /\ (length objects <= maxResources)%nat) /\
     ((forall r c page next, fetch r c = Ok (page, next) -> next <> "" -> page <> []) ->
      is_Some (Resources (S (S maxResources)) list_ resource namespace selector))) /\
  (forall key secret h, key <> "" ->
     (forall k k' a, sData secret !! k = Some a -> sData secret !! k' = Some a -> k = k') ->
     cleared secret h (SecretValue key (Got secret) h).2 /\
     forall v, (SecretValue key (Got secret) h).1 = Ok (Some v) <->
       sDeleting secret = false /\ v <> "" /\ (Z.of_nat (String.length v) <= maxTLSCertificateSize)%Z /\
       exists a, sData secret !! key = Some a /\ default "" (h !! a) = v).
Proof.
  split_and!.
  - intros get namespace name target o (_ & Ht & H)%observeRoot_iff.
    destruct H as [(-> & -> & ->)|(source & release & tag & -> & -> & Hsel & ->)]; [split; [naive_solver|done]|].
    unfold Complete. cbn. rewrite !andb_true_iff, !objectReady_iff, String.eqb_eq. split; [|intros _; by rewrite !diagnostic_iff, !objectReady_iff].
    split; [intros [[-> H1] H2]; by exists source, release|].
    intros (s & r & [= <-] & [= <-] & Hs & H1 & H2). split_and!; try done. destruct Hsel as (_ & E & _), Hs as (_ & E' & _). congruence.
  - intros list_ resource namespace selector fuel objects fetch. split; [exact (collectPages_iff maxResources fetch fuel 0 [] "" objects)|]. intros Hpage.
    apply (collectPages_ends maxResources fetch); [done|cbn [length]; lia|lia].
  - intros key secret h. apply SecretValue_got.
Qed.

Module Sample.
#[local] Instance ranges : MapRange := {| range_ A _ _ m := map_to_list m; range_perm A _ _ m := reflexivity _ |}.
Fixpoint field (v : any) (path : list string) : option any :=
  match path, v with [], _ => Some v | key :: path, AMap m => v ← assoc m key; field v path | _, _ => None end.
#[local] Instance accessors : Unstructured :=
  {| NestedInt64 v path := match field v path with Some (AInt64 z) => Some (Some z) | None => Some None | _ => None end;
     NestedString v path := match field v path with Some (AString s) => Some (Some s) | None => Some None | _ => None end;
     NestedSlice v path := match field v path with Some (ASlice l) => Some (Some l) | None => Some None | _ => None end |}.

Definition ready (status : string) : any :=
  AMap [("observedGeneration", AInt64 3);
        ("conditions", ASlice [AMap [("type", AString "Ready"); ("status", AString status); ("message", AString "waiting")]])].
Definition item (spec : any) (status : string) : Item :=
  {| Content := AMap [("spec", spec); ("status", ready status)]; GetName := "bigbang"; GetNamespace := "flux-system"; GetLabels := ∅;
     GetGeneration := 3; GetDeleting := false |}.
Definition source : Item := item (AMap [("url", AString "oci://harbor"); ("ref", AMap [("tag", AString "1.0")])]) "True".
Definition release (status : string) : Item := item (AMap [("chartRef", AMap [("kind", AString "OCIRepository"); ("name", AString "bigbang")])]) status.
Definition observe (status : string) : result observeError FluxRootObservation :=
  ObserveFluxHelmRoot (fun gvr _ _ => if String.eqb (Name gvr) "ocirepositories" then Got source else Got (release status))
    "flux-system" "bigbang" {| URL := "oci://harbor"; Tag := "1.0" |}.
Definition secret : Secret := {| sDeleting := false; sData := {[ "tls.crt" := 1%nat; "tls.key" := 2%nat ]} |}.
Definition memory : buffers := {[ 1%nat := "cert"; 2%nat := "key"; 3%nat := "other" ]}.

Lemma cluster_observed_witness :
  (exists o, observe "True" = Ok o /\ Complete o = true) /\ (exists o, observe "False" = Ok o /\ HelmMessage o = "waiting") /\
  (SecretValue "tls.crt" (Got secret) memory).1 = Ok (Some "cert") /\
  (SecretValue "tls.crt" (Got secret) memory).2 !! 3%nat = Some "other" /\
  (SecretValue "tls.crt" (Got secret) memory).2 !! 2%nat = Some (zeros "key").
Proof.
  split; [|split; [eexists; split; vm_compute; reflexivity|]].
  - eexists. split; [vm_compute; reflexivity|]. reflexivity.
  - assert (Hinj : forall k k' a, sData secret !! k = Some a -> sData secret !! k' = Some a -> k = k').
    { cbn. intros k k' a [[<- <-]|[_ [<- <-]%lookup_singleton_Some]]%lookup_insert_Some
        [[<- ?]|[_ [<- ?]%lookup_singleton_Some]]%lookup_insert_Some; done. }
    destruct (proj2 (proj2 (cluster_observed (U:=accessors))) "tls.crt" secret memory ltac:(done) Hinj) as [[H1 H2] H3].
    split_and!; [vm_compute; reflexivity| |].
    + rewrite H2; [reflexivity|]. intros k. cbn. intros [[_ [=]]|[_ [_ [=]]%lookup_singleton_Some]]%lookup_insert_Some.
    + rewrite (H1 "tls.key"); reflexivity.
Defined.
End Sample.
End ObserveClaims.
